(* ===== verification/_CoqProject ===== *)
-Q . S2P
Prelude.v
Nonce.v
GoIO.v
Box.v
TcpPacket.v
TcpHandshake.v
TcpClient.v
Varint.v
Base58.v
GoText.v
Sha2.v
KeyRing.v
KeyRsa.v
BtcBoot.v
CircuitPb.v
Multistream.v
RelayStream.v
RelaySocket.v
Noise.v
RelayWatch.v
Detect.v
TcpServer.v
RelayRoute.v
PriorityList.v
Dht.v
DhtNode.v
Onion.v
TcpServerConn.v
BiMap.v
SendQueue.v
PeekRing.v
MintoxTcpClient.v
MintoxTcpRead.v
MintoxNode.v
TbCom.v
TunClient.v
TunServer.v
Tunnel.v
NodePool.v
Icmp.v
XTox.v
AutoBot.v
Libp2pBs.v
EchoBot.v
ToxInst.v
XToxNew.v
CryptoCore.v
BsData.v
FedBoot.v
TurnBs.v
TcpCli.v
RelayCmds.v
ToxPriv.v
TunConfig.v
NodeCmds.v
NostrChat.v
BotCmd.v
BudgetCmds.v
