(* ===== verification/Prelude.v ===== *)
(** * Toxera: a verification library

    Toxera is a collection of Go packages around the Tox messenger network.
    Eleven groups of them carry its own logic and are the subject of this library;
    most of the others are bindings to C libraries.

    ** The program

    - [go-tox-tcpclient] is a client of Tox TCP relays: a handshake gives the
      client and the relay a session key, after which both exchange encrypted
      packets whose nonces are counters; the client asks the relay for routes
      to other clients by public key and sends data over the connection ids it
      gets.
    - [mintox] is a Go implementation of the Tox network layer: the relay
      server, a second relay client with its send queue, the DHT with the node
      lists it keeps, and the announce service on top of the DHT.
    - [relayhub] is a client of libp2p circuit relays: varints, base58, the
      circuit messages in hand-written protocol-buffer code, multistream
      negotiation, secured connections, dialling and being dialled through a
      relay, sockets that hop from one limited relay connection to the next, and a
      probe that finds out what a relay offers.
    - [fedkey] keeps one seed in a key file and derives from it the keys and node
      identifiers of many networks.
    - [fedboot] finds peers through other networks; its Bitcoin node speaks
      enough of that protocol to pass a chat key to the peers it meets, and its
      libp2p node judges its own reachability, its TURN node is reached through a
      relay, its Ethereum node joins a discovery; all use the keys of [fedkey].
    - [tbtunc], [tbtuns] and [tbcom] are a TCP tunnel over the packets of a Tox
      friendship: a client that accepts local connections, a server that dials the
      target, and the packets and the sender they share.
    - [xtox] is a layer over the Tox library: a pool of bootstrap nodes with
      pings, reconnection, the account file, tables of conferences and automatic
      answers.
    - [tbecho] is a bot on that library which answers with what it gets, files
      included; [tbcmd] with [botut] is one that runs commands.
    - [bsdata] embeds the public bootstrap nodes and hands them out by weights that
      probes adjust.
    - [toxpriv], [intern] and [tcpcli] reach into the C library: conversions of
      addresses and keys, tables of callbacks, a relay client over its connections, and
      small programs around them.
    - [nostr_chat] is a chat over Nostr relays.

    ** Conventions

    A Go call is an [outcome]: a value ([Ret]), a non-nil error ([Fail]) or a
    panic ([Panic]).  Bytes are [Byte.byte], integers are [Z] with the
    wrap-around of their width written out ([u64], [i64], ...); slicing and indexing
    outside the length panic (the capacity of a slice is taken to be its length;
    what Go gives for [b[:n]] beyond the length of a longer backing array depends
    on the allocator).  Code that changes state is a function of the
    monad [stm] of GoIO.v (state passing; an error or a panic keeps the state
    reached).  Random draws, clock readings and the order in which Go iterates
    over a map are arguments.  A network stream is a [reader]: the list of chunks
    its [Read] calls deliver, so that a theorem for all chunkings covers every
    fragmentation.  Sections that a mutex protects are atomic steps, and where a
    mutex itself matters (RelaySocket.v, BiMap.v) it is part of the state.
    Third-party code is a class of operations with a class of laws: [NaclBox] /
    [NaclBoxLaws] for the NaCl box, [Gopp] / [GoppLaws] for assertions,
    [GoppBuffer] and [GoppDhtBuffer] for the byte buffers of the same package,
    [Ring] and [MemBuffer] for ring buffers, [PfxByteArray] for a byte array pool,
    [PriorityQueue] for the queue under the send queue, [KeyPrims] for curves and
    hashes outside the standard library, [NoiseLib] for cipher and handshake states,
    [Msgpack] for the packet codec of the tunnel, [BidiMap] for two-way maps,
    [MultiaddrLib] for multiaddresses and their resolution, [ToxLib] for the Tox
    library under the tunnel, [Sodium] for libsodium, [EthLib] for the Ethereum node, [TcpLib]
    and [ToxPrivLib] for the C library, [NostrLib] for the Nostr library and its
    relays, [ShellLib] for processes, [JsonCfg] for the JSON of a configuration.  Every class of
    laws that a property of the program relies on has an instance
    ([ToyBox] and the like), on which the witnesses evaluate.  Where mintox selects between two
    implementations ([usepgocryptbox]), the pure Go one is meant; CryptoCore.v shows that the other
    one agrees with it.

    ** The files

    - Prelude.v (this file): outcomes and their monad, bytes and machine
      integers, slices, big-endian numbers, the hint databases and tactics.
    - GoIO.v: readers, [io.ReadFull], duplex streams, the state monad,
      hexadecimal text.
    - Nonce.v: nonce counters of go-tox-tcpclient/crypto.go (module [Tcp]) and
      mintox/crypto_core0.go, crypto_core2.go (module [Mintox]).  Both are the
      same 192-bit counter, and a nonce does not repeat.
    - Box.v: the NaCl interface and the wrappers of mintox/crypto_core2.go.
    - TcpPacket.v: go-tox-tcpclient/packet.go and the sealing of crypto.go.
      Parsers invert builders and exclude each other; a stream of packets is
      read back from any chunking with both nonces in step; packets of 2033 to
      2048 bytes can be sent and not received.
    - TcpHandshake.v: go-tox-tcpclient/handshake.go ([Client]), the server side
      in mintox/tcp_server.go ([Server]) and mintox/tcp_client.go
      ([MintoxClient]).  Either client and the server end with one session key
      and with crossed nonces.
    - TcpClient.v: go-tox-tcpclient/tcpclient.go.  A record for the client, one
      definition per API call and per turn of its three goroutines, and the
      inductive relation of their interleavings.  In every interleaving of a
      session the wire holds what was queued, in order, one nonce per packet,
      but for the packet the write loop returns with; what is queued is what the
      relay reads; [SendData] is specified on every branch; the keep-alive
      disconnects exactly on a timeout.
    - TcpServer.v: connections, ids and routing of mintox/tcp_server.go, over a
      heap of connections and of the route records that two tables share.  The
      tables are consistent in all reachable states; mutual requests connect two
      clients; routed data reaches the right queue under the right id; and the
      states in which packets crash the server or hit a third client.
    - RelayRoute.v: the client of TcpClient.v against this server: two clients
      that are routed to each other exchange data, from [SendData] of the one to
      [OnData] of the other.
    - TcpServerConn.v: the read and write loops of such a connection, with the
      ring buffer as an interface ([Ring] / [RingLaws], instance [ListRing]).
      The stream of go-tox-tcpclient comes out as its plaintexts, from any
      chunking that keeps the handshake together; what the write loop sends is
      what the client reads; draining the buffer terminates; a handshake in
      pieces or a forged packet crashes the server; the ping loop can make it
      reuse a nonce.
    - Varint.v, Base58.v: relayhub/varint.go, relayhub/base58.go.  Round trips in
      both directions and agreement of the two varint decoders.
    - CircuitPb.v: relayhub/circuitpb.go and circuitv1.go.  Every message decodes to
      itself, decoding terminates, signed records are unambiguous, and the
      64-bit arithmetic of the cursor is specified, wrap-around included.
    - Multistream.v: relayhub/multistream.go.  The two roles run against each other
      agree; success means the peer confirmed the protocol.
    - RelayStream.v: the conversations of relayhub/relay.go on one stream: dialling
      (v2, then v1), reservations, incoming circuits, identify, ping.  The yamux
      session is the list of streams it will hand out.
    - RelaySocket.v: relayhub/socket.go and the dispatch loop of relay.go over a
      heap of sockets.  Writing stays within the relay's limit, connections are
      routed by identifier, and closing a client with open sockets deadlocks.
    - Noise.v: relayhub/noise.go, the dialling of tls.go and [Connect] of relay.go.  A
      noise connection is a byte pipe whatever the buffers and the fragmentation; a
      call of [Connect] or [ConnectTLS] leaves no connection open but the one of its
      session, two concurrent calls leak one.
    - RelayWatch.v: the rest of relay.go on the client of RelaySocket.v: the watchdog
      leaves no stream open and announces the end of the session once,
      [AcceptRelay] returns the first relayed stream, peer ids round-trip as text.
    - Detect.v: relayhub/detect.go.  The probe reads what a peer of this package
      answers, but for the identifier, which is never the one the peer runs
      under; it closes all it opened, its parsers end, and a hostile length
      crashes it; multiaddresses print as their components.
    - PriorityList.v: mintox/priority_list.go, over the interface [PLItem] and its
      laws [PLItemLaws]: consistency with the key map, order, keeping the best.
    - Dht.v: the XOR metric, node items (which discharge [PLItemLaws]), shared key
      cache and packets of mintox/dht.go.
    - DhtNode.v: the node of dht.go, dht_private.go, ping.go, network.go and
      bootstrap_node_packets.go: its tables over a heap of shared entries, the
      handlers, the periodic work and the dispatch of datagrams.  The tables stay
      ordered in every run, node lists round-trip, a ping is answered so that the
      sender accepts it.
    - Onion.v: mintox/onion.go and onion_announce.go on top of it: who announces
      with a valid ping id is found by others whatever happens in between, as long
      as the table cannot have overflowed; nobody else is stored, and the table
      keeps its shape.
    - BiMap.v: mintox/bimap.go.
    - SendQueue.v: mintox/blocked_priority_queue.go as interleaved steps of its
      callers: nothing is lost, the bound for what is not put with [Put], the
      order, lost wake-ups.
    - PeekRing.v, MintoxTcpClient.v, MintoxTcpRead.v: mintox/tcp_client.go, its
      read buffer, its operations and goroutines, and its read loop.  The
      server of TcpServerConn.v reads what the client sends; on the server's
      stream the client does what it does on the plaintexts; the read loop ends.
    - MintoxNode.v: what joins DhtNode.v, Onion.v and TcpServerConn.v to a node: the ports of
      network.go and tcp_server.go, the bootstrap node of dht_bootstrap.go, whose
      runs keep the invariants of both unless a datagram is handled before its key
      pair is set, the messages of dhtapi.go, the ping loop of the server and the
      speed of speed.go.
    - GoText.v, Sha2.v: the standard library below the two packages that follow.
    - KeyRing.v, KeyRsa.v: fedkey/keyring.go: the key file round-trips, identifiers
      are injective and readable, HKDF and base58 agree with their references,
      the search for an RSA key ends as soon as the candidates pass, and the key
      of two different primes inverts its own encryption.
    - BtcBoot.v: fedboot/bitcoin_bs.go: messages round-trip, both roles of the
      handshake, run in rounds against each other, complete and learn each other's
      key, the server loop answers and ends.
    - TbCom.v, TunClient.v, TunServer.v, Tunnel.v: tbcom/packet.go and tbcom.go, tbtunc/
      tcp_server.go and sitclient.go, tbtuns/sitserver.go, and both ends joined by the
      packets in flight.  In every interleaving the tunnel carries both byte streams
      in order and completely and does not panic until [Accept] fails; a refused
      packet is dropped silently, and connections leak or can be taken over in the
      ways named there.
    - NodePool.v: xtox/node_pool.go: which nodes are contacted, deletion, the text
      of a node.
    - Icmp.v: xtox/pings.go: messages round-trip and their checksum is right.
    - XTox.v: xtox/xtox.go, util.go and the readers of externs.go: reconnection as
      steps of timers and callbacks with a bound on the time, the account file
      over a file system of paths, the tables of conferences.
    - AutoBot.v: xtox/tox_auto_extra.go: titles are kept, and what goes wrong with
      invitations and new conferences.
    - Libp2pBs.v: fedboot/libp2p_bs.go with [net.ParseIP]: private ranges, reachability,
      resolution of DNS addresses, and the phases of the bootstrap.
    - EchoBot.v: tbecho/echobot.go: the first file of a friend is echoed whatever the
      order of its chunks and requests; later files are not, and a refused chunk goes to
      the wrong friend.
    - ToxInst.v: tbtunc/toxinst.go: an account survives a restart, and the search for a
      port.
    - XToxNew.v: the making of an instance in xtox/xtox.go and the readers of externs.go:
      a readable account is taken over, an unreadable one is lost; which friends and
      conferences are found.
    - CryptoCore.v: mintox/crypto_core0.go and crypto_core1.go: the libsodium branch computes what
      the pure Go branch does, forgeries and public keys of small order apart.
    - BsData.v: bsdata/bootstrap_data.go: the floating-point weights are integer divisions, every node keeps
      a positive share, selection is total; nodes late in the list are never probed.
    - FedBoot.v: fedboot/fedboot.go, eth_bs.go and fedkey/keyconv.go: the registry, the identity of
      the Ethereum node.
    - TurnBs.v: fedboot/turn_bs.go: its phases with their calls and errors, health as observed, and
      the secret seed that it sends to everybody.
    - TcpCli.v: tcpcli/tcpclient.go and cliutils.c: the key file, sending, renewal, and the channel of
      received packets with its two goroutines.
    - RelayCmds.v, BudgetCmds.v: the programs under relayhub/cmd: the endpoints that are probed, the
      report, the statistics; the budgeted transfer ends with all bytes sent.
    - ToxPriv.v: toxpriv and intern: addresses, keys and ports round-trip, callbacks find their data.
    - NodeCmds.v: toxpriv/cmd and tcpcli/cmd: the two programs share their key file, messages are paced.
    - TunConfig.v: the configuration in tbtunc/tcp_server.go and logrus.go: it persists over starts.
    - NostrChat.v: nostr_chat/nostr_chat.go: the key is kept, what one types the other sees.
    - BotCmd.v: botut/runcmd.go and tbcmd/tbcmd.go: which messages run commands.

    ** Fuel and bounds

    Loops over data are structural.  [pb_loop] (the field loop of the decoders)
    runs on fuel [length data + 1], and [decoders_terminate] proves that it is
    enough, as each turn consumes a byte; the varint loops stop after ten bytes, as
    the code does; the base58 loop divides by 58 and is given the bit length of
    the number, more than its digits; the echo loop of ping is given one turn per
    pending byte and one for the end of the stream, and its theorem shows that it
    ends; [doReadPacket] is given a turn per buffered byte and one more, and
    [read_loop_terminates] shows that this is enough for every input; the relay
    client is treated alike ([client_read_ends]), and one read turn fills the
    buffer of [bufio] in at most 4098 steps.  The two
    loops of the Bitcoin node get a turn per pending byte and one more
    ([btc_loops_end]); the Euclidean algorithm gets the bit length of the product
    of its arguments ([egcd_spec]).  The search for a prime has no bound in the code:
    [bigPrime] returns [None] when its fuel is used up, and [bigPrime_finds] says
    that any fuel above the index of the first candidate that passes is
    enough.  The parsers of Detect.v get a turn per byte and one more
    ([detect_parsers_end]); a noise write gets a turn per byte.  The resolution of DNS
    addresses has no bound in the code either: [dns_resolution] says that any fuel
    above the depth of a name is enough, and [dns_cycle_never_ends] that none is
    for a cycle.  The loop over friends gets one turn per friend and one more
    ([friends_listed]).  The sender of BudgetCmds.v needs at most a turn per byte
    ([transfer_ends]); [WaitConnected] polls without a bound, and [WaitConnected_returns]
    says that fuel above the number of turns until a relay is connected is enough.  The floating-point weights
    of BsData.v are evaluated for every latency up to 3100 ms; a dial that succeeds takes
    at most 3 seconds.  An allocation above [maxAlloc] (2^48, the address space of a 64-bit
    process) panics, as Go's [make] does.

    ** What is not modelled

    Sockets, goroutine scheduling below the granularity above, logging and the
    debug states of the relay client; the noise, TLS and yamux libraries and the making of a certificate;
    the handlers of onion packets, whose bodies are empty or log; in [intern], [toxpriv] and
    [xtox] the many functions that only pass their arguments to the C library, the lookup of symbols and the
    embedded assets; the programs peer and source of relayhub, which copy between a stream and
    the terminal, and the parsing of command lines; the functions of
    xtox/tox_auto_extra.go that nothing calls; the unfinished messenger structures of
    mintox.  What these leave to say is the behaviour of code outside the repository. *)

From Stdlib Require Export Init.Byte.
From Stdlib Require Import Strings.Byte Strings.String.
From stdpp Require Export base option list gmap numbers tactics.

Local Open Scope Z_scope.

(** ** Notation scope of the development *)

Declare Scope go_scope.
Delimit Scope go_scope with go.

(** ** Outcomes of a Go call

    A call returns a value, returns a non-nil [error], or panics.  The error
    type is a parameter: each component has its own inductive of errors. *)

Inductive outcome (E A : Type) : Type :=
| Ret (a : A)
| Fail (e : E)
| Panic.
Arguments Ret {E A} a.
Arguments Fail {E A} e.
Arguments Panic {E A}.

#[export] Instance outcome_ret {E} : MRet (outcome E) := fun A a => Ret a.
#[export] Instance outcome_bind {E} : MBind (outcome E) :=
  fun A B f m =>
    match m with
    | Ret a => f a
    | Fail e => Fail e
    | Panic => Panic
    end.

#[export] Instance outcome_eq_dec {E A} `{EqDecision E, EqDecision A} :
  EqDecision (outcome E A).
Proof. solve_decision. Defined.

(** [map_err] is the [fmt.Errorf("...: %w", err)] wrapping of an error. *)
Definition map_err {E F A} (f : E → F) (m : outcome E A) : outcome F A :=
  match m with
  | Ret a => Ret a
  | Fail e => Fail (f e)
  | Panic => Panic
  end.

Definition is_ret {E A} (m : outcome E A) : bool :=
  match m with Ret _ => true | _ => false end.

Definition is_panic {E A} (m : outcome E A) : bool :=
  match m with Panic => true | _ => false end.

(** A Go [if cond { return ..., err }] guard. *)
Definition guard_err {E} (ok : bool) (e : E) : outcome E unit :=
  if ok then Ret tt else Fail e.

#[export] Instance Ret_inj {E A} : Inj (=) (=) (@Ret E A).
Proof. intros a b H. by injection H. Qed.

Lemma bind_ret {E A B} (a : A) (f : A → outcome E B) : (Ret a ≫= f) = f a.
Proof. reflexivity. Qed.

Lemma bind_ret_inv {E A B} (m : outcome E A) (f : A → outcome E B) b :
  (m ≫= f) = Ret b → ∃ a, m = Ret a ∧ f a = Ret b.
Proof. destruct m; cbn; intros H; try discriminate H; eauto. Qed.

Lemma bind_panic_inv {E A B} (m : outcome E A) (f : A → outcome E B) :
  (m ≫= f) = Panic → m = Panic ∨ ∃ a, m = Ret a ∧ f a = Panic.
Proof. destruct m; cbn; intros H; try discriminate H; eauto. Qed.

(** ** Machine integers

    A [w]-bit Go integer is a [Z]; conversions wrap as the language
    specification says. *)

Definition wrap_u (w z : Z) : Z := z mod 2 ^ w.
Definition wrap_s (w z : Z) : Z := (z + 2 ^ (w - 1)) mod 2 ^ w - 2 ^ (w - 1).

Definition u8 : Z → Z := wrap_u 8.
Definition u16 : Z → Z := wrap_u 16.
Definition u32 : Z → Z := wrap_u 32.
Definition u64 : Z → Z := wrap_u 64.
Definition i32 : Z → Z := wrap_s 32.
Definition i64 : Z → Z := wrap_s 64.

Lemma wrap_u_small w z : 0 ≤ z < 2 ^ w → wrap_u w z = z.
Proof. apply Z.mod_small. Qed.

Lemma wrap_s_small w z :
  0 < w → - 2 ^ (w - 1) ≤ z < 2 ^ (w - 1) → wrap_s w z = z.
Proof.
  intros Hw Hz. unfold wrap_s.
  assert (2 ^ w = 2 * 2 ^ (w - 1)) as ->.
  { rewrite <- Z.pow_succ_r by lia. f_equal; lia. }
  rewrite Z.mod_small; lia.
Qed.

Lemma wrap_s_wrap_u w z : 0 ≤ w → wrap_s w (wrap_u w z) = wrap_s w z.
Proof.
  intros Hw. unfold wrap_s, wrap_u. f_equal.
  apply Zplus_mod_idemp_l.
Qed.

Lemma wrap_u_range w z : 0 ≤ w → 0 ≤ wrap_u w z < 2 ^ w.
Proof. intros. apply Z.mod_pos_bound, Z.pow_pos_nonneg; lia. Qed.

Lemma i64_small z : - 2 ^ 63 ≤ z < 2 ^ 63 → i64 z = z.
Proof. intros H. apply wrap_s_small; lia. Qed.

(** One wrap-around: the upper half of 64 bits is negative as an [int64]. *)
Lemma i64_high z : 2 ^ 63 ≤ z < 2 ^ 64 + 2 ^ 63 → i64 z = z - 2 ^ 64.
Proof.
  intros H. unfold i64, wrap_s. change (64 - 1) with 63.
  replace (z + 2 ^ 63) with ((z - 2 ^ 63) + 1 * 2 ^ 64) by lia.
  rewrite Z_mod_plus_full, Z.mod_small by lia. lia.
Qed.

Lemma wrap_s_range w z :
  0 < w → - 2 ^ (w - 1) ≤ wrap_s w z < 2 ^ (w - 1).
Proof.
  intros Hw. unfold wrap_s.
  assert (2 ^ w = 2 * 2 ^ (w - 1)) as E.
  { rewrite <- Z.pow_succ_r by lia. f_equal; lia. }
  pose proof (Z.mod_pos_bound (z + 2 ^ (w - 1)) (2 ^ w)) as H.
  assert (0 < 2 ^ (w - 1)) by (apply Z.pow_pos_nonneg; lia). lia.
Qed.

(** ** Bytes and byte strings

    A Go [byte] is an element of the 256-element inductive [byte]; [bz] reads
    it as a number and [zb] is the conversion [byte(x)].  A Go [string] and a
    Go [[]byte] are both byte lists. *)

Abbreviation bytes := (list byte).

Definition bz (b : byte) : Z := Z.of_N (Byte.to_N b).
Definition zb (z : Z) : byte := default x00 (Byte.of_N (Z.to_N (z mod 256))).
Definition zlen {A} (l : list A) : Z := Z.of_nat (length l).
Definition str (s : string) : bytes := list_byte_of_string s.
Arguments str s%_string_scope.
Export String.StringSyntax.

#[export] Instance byte_eq_dec : EqDecision byte := Byte.byte_eq_dec.
#[export] Instance byte_inhabited : Inhabited byte := populate x00.

Lemma bz_range b : 0 ≤ bz b < 256.
Proof. unfold bz. pose proof (Byte.to_N_bounded b). lia. Qed.

Lemma of_N_to_N b : Byte.of_N (Byte.to_N b) = Some b.
Proof. apply Byte.of_to_N. Qed.

Lemma zb_bz b : zb (bz b) = b.
Proof.
  unfold zb. rewrite Z.mod_small by apply bz_range.
  unfold bz. by rewrite N2Z.id, of_N_to_N.
Qed.

Lemma bz_zb z : bz (zb z) = z mod 256.
Proof.
  unfold zb, bz.
  pose proof (Z.mod_pos_bound z 256 ltac:(lia)) as Hr.
  destruct (Byte.of_N (Z.to_N (z mod 256))) as [b|] eqn:E; cbn.
  - apply Byte.to_of_N in E. rewrite E. rewrite Z2N.id; lia.
  - apply Byte.of_N_None_iff in E. lia.
Qed.

Lemma bz_zb_small z : 0 ≤ z < 256 → bz (zb z) = z.
Proof. intros. rewrite bz_zb. by apply Z.mod_small. Qed.

#[export] Instance bz_inj : Inj (=) (=) bz.
Proof. intros a b H. by rewrite <- (zb_bz a), <- (zb_bz b), H. Qed.

#[export] Instance byte_countable : Countable byte :=
  inj_countable' bz zb zb_bz.

Lemma zb_mod z : zb (z mod 256) = zb z.
Proof. apply (inj bz). rewrite !bz_zb. apply Z.mod_mod. lia. Qed.

Lemma zlen_app {A} (l k : list A) : zlen (l ++ k) = zlen l + zlen k.
Proof. unfold zlen. rewrite length_app. lia. Qed.

Lemma zlen_nonneg {A} (l : list A) : 0 ≤ zlen l.
Proof. unfold zlen. lia. Qed.

Lemma zlen_cons {A} (x : A) l : zlen (x :: l) = 1 + zlen l.
Proof. unfold zlen. cbn [length]. lia. Qed.

Lemma zlen_nil {A} : zlen (@nil A) = 0.
Proof. reflexivity. Qed.

Lemma zlen_eq_nat {A} (l : list A) n : zlen l = Z.of_nat n ↔ length l = n.
Proof. unfold zlen. lia. Qed.

(** ** Go slices

    [make([]byte, n)], the built-in [copy] and the slice expressions
    [l[a:]], [l[:b]] and [l[a:b]]; an out-of-range index panics. *)

Definition make_bytes (n : nat) : bytes := replicate n x00.

Definition copy_into (dst src : bytes) : bytes :=
  take (length dst) src ++ drop (length src) dst.

(** [copy(dst[off:], src)] *)
Definition copy_at (off : nat) (dst src : bytes) : bytes :=
  take off dst ++ copy_into (drop off dst) src.

Definition slice {E} (l : bytes) (a b : nat) : outcome E bytes :=
  if bool_decide (a ≤ b ≤ length l)%nat then Ret (take (b - a) (drop a l))
  else Panic.

Definition slice_from {E} (l : bytes) (a : nat) : outcome E bytes :=
  if bool_decide (a ≤ length l)%nat then Ret (drop a l) else Panic.

Definition slice_to {E} (l : bytes) (b : nat) : outcome E bytes :=
  if bool_decide (b ≤ length l)%nat then Ret (take b l) else Panic.

Definition index {E} (l : bytes) (i : nat) : outcome E byte :=
  match l !! i with Some b => Ret b | None => Panic end.

Lemma length_make_bytes n : length (make_bytes n) = n.
Proof. apply length_replicate. Qed.

Lemma length_copy_into dst src : length (copy_into dst src) = length dst.
Proof. unfold copy_into. rewrite length_app, length_take, length_drop. lia. Qed.

Lemma copy_into_full dst src :
  length dst = length src → copy_into dst src = src.
Proof.
  intros H. unfold copy_into.
  rewrite H, take_ge, <- H, drop_ge, app_nil_r by lia. done.
Qed.

Lemma copy_into_short dst src :
  (length src ≤ length dst)%nat →
  copy_into dst src = src ++ drop (length src) dst.
Proof. intros H. unfold copy_into. by rewrite take_ge by lia. Qed.

Lemma drop_make_bytes k n : drop k (make_bytes n) = make_bytes (n - k).
Proof. unfold make_bytes. by rewrite drop_replicate. Qed.

Lemma slice_ok {E} l a b :
  (a ≤ b ≤ length l)%nat → @slice E l a b = Ret (take (b - a) (drop a l)).
Proof. intros. unfold slice. by rewrite bool_decide_true. Qed.

Lemma slice_inv {E} l a b r :
  @slice E l a b = Ret r → (a ≤ b ≤ length l)%nat ∧ r = take (b - a) (drop a l).
Proof. unfold slice. case_bool_decide; [|done]. by intros [= <-]. Qed.

Lemma slice_to_inv {E} l b r : @slice_to E l b = Ret r → (b ≤ length l)%nat ∧ r = take b l.
Proof. unfold slice_to. case_bool_decide; [|done]. by intros [= <-]. Qed.

Lemma slice_from_inv {E} l a r : @slice_from E l a = Ret r → (a ≤ length l)%nat ∧ r = drop a l.
Proof. unfold slice_from. case_bool_decide; [|done]. by intros [= <-]. Qed.

(** The next [n] elements and what follows them. *)
Lemma drop_take_drop {A} a n (l : list A) : drop a l = take n (drop a l) ++ drop (a + n) l.
Proof. by rewrite <- (take_drop n (drop a l)), drop_drop at 1. Qed.

Lemma slice_panic {E} l a b : (length l < b)%nat → @slice E l a b = Panic.
Proof. intros. unfold slice. rewrite bool_decide_false by lia. done. Qed.

Lemma slice_to_ok {E} l b :
  (b ≤ length l)%nat → @slice_to E l b = Ret (take b l).
Proof. intros. unfold slice_to. by rewrite bool_decide_true. Qed.

Lemma slice_from_ok {E} l a :
  (a ≤ length l)%nat → @slice_from E l a = Ret (drop a l).
Proof. intros. unfold slice_from. by rewrite bool_decide_true. Qed.

Lemma take_app_exact {A} n (l k : list A) : length l = n → take n (l ++ k) = l.
Proof. intros <-. apply take_app_length. Qed.

Lemma drop_app_exact {A} n (l k : list A) : length l = n → drop n (l ++ k) = k.
Proof. intros <-. apply drop_app_length. Qed.

Lemma copy_at_make off n (l src : bytes) :
  length l = off → (length src ≤ n)%nat →
  copy_at off (l ++ make_bytes n) src = l ++ src ++ make_bytes (n - length src).
Proof.
  intros Hl Hs. unfold copy_at.
  rewrite take_app_exact, drop_app_exact by done. f_equal.
  rewrite copy_into_short by (by rewrite length_make_bytes).
  by rewrite drop_make_bytes.
Qed.

(** ** Big-endian numbers ([encoding/binary.BigEndian]) *)

Fixpoint be_val (l : bytes) : Z :=
  match l with
  | [] => 0
  | b :: k => bz b * 256 ^ zlen k + be_val k
  end.

Fixpoint be_bytes (n : nat) (z : Z) : bytes :=
  match n with
  | O => []
  | S k => zb (z / 256 ^ Z.of_nat k) :: be_bytes k z
  end.

Lemma length_be_bytes n z : length (be_bytes n z) = n.
Proof. induction n; cbn; auto. Qed.

Lemma be_val_range l : 0 ≤ be_val l < 256 ^ zlen l.
Proof.
  induction l as [|b l IH]; cbn [be_val].
  { change (256 ^ zlen (@nil byte)) with 1. lia. }
  rewrite zlen_cons, Z.pow_add_r by (pose proof (zlen_nonneg l); lia).
  pose proof (bz_range b). nia.
Qed.

Lemma be_val_app l k : be_val (l ++ k) = be_val l * 256 ^ zlen k + be_val k.
Proof.
  induction l as [|b l IH]; cbn [be_val app]; [ring|].
  rewrite IH, zlen_app, Z.pow_add_r by apply zlen_nonneg. ring.
Qed.

Lemma be_val_snoc l b : be_val (l ++ [b]) = be_val l * 256 + bz b.
Proof.
  rewrite be_val_app. cbn [be_val].
  change (256 ^ zlen [b]) with 256. change (256 ^ zlen (@nil byte)) with 1. lia.
Qed.

Lemma be_val_be_bytes n z : be_val (be_bytes n z) = z mod 256 ^ Z.of_nat n.
Proof.
  induction n as [|n IH]; [cbn; by rewrite Z.mod_1_r|].
  cbn [be_bytes be_val]. rewrite IH, bz_zb. unfold zlen. rewrite length_be_bytes.
  rewrite Nat2Z.inj_succ, Z.pow_succ_r by lia.
  assert (0 < 256 ^ Z.of_nat n) by (apply Z.pow_pos_nonneg; lia).
  rewrite (Z.mul_comm 256), Z.rem_mul_r by lia. lia.
Qed.

Lemma be_val_inj l k : length l = length k → be_val l = be_val k → l = k.
Proof.
  revert k. induction l as [|a l IH]; intros [|b k] Hl Hv; try discriminate Hl; auto.
  cbn [be_val] in Hv. injection Hl as Hl.
  assert (zlen l = zlen k) as Hz by (unfold zlen; lia). rewrite Hz in Hv.
  pose proof (be_val_range l) as H1. pose proof (be_val_range k) as H2.
  rewrite Hz in H1.
  assert (bz a = bz b) as Hab by nia.
  f_equal; [by apply (inj bz)|]. apply IH; [done|nia].
Qed.

Lemma be_bytes_be_val l : be_bytes (length l) (be_val l) = l.
Proof.
  apply be_val_inj; [apply length_be_bytes|].
  rewrite be_val_be_bytes. apply Z.mod_small, be_val_range.
Qed.

(** ** Automation *)

(** Side conditions the components discharge for one another. *)
Create HintDb go.

(** Lengths of the byte strings the components build. *)
Create Rewrite HintDb go_len.
#[export] Hint Rewrite @length_app @length_take @length_drop @length_replicate
  @length_cons @length_nil length_make_bytes length_copy_into length_be_bytes
  @length_insert : go_len.

Ltac len := autorewrite with go_len in *; cbn [length] in *; try lia.

(** Case analysis on the guards of a translated function. *)
Ltac go_case :=
  repeat (case_match || case_decide || case_bool_decide); simplify_eq/=; try done.

(** Turn the boolean comparisons of the code into facts about [Z]. *)
Ltac zbool :=
  repeat match goal with
  | H : (_ <? _) = true |- _ => apply Z.ltb_lt in H
  | H : (_ <? _) = false |- _ => apply Z.ltb_ge in H
  | H : (_ <=? _) = true |- _ => apply Z.leb_le in H
  | H : (_ <=? _) = false |- _ => apply Z.leb_gt in H
  | H : (_ =? _) = true |- _ => apply Z.eqb_eq in H
  | H : (_ =? _) = false |- _ => apply Z.eqb_neq in H
  | H : (_ >? _) = true |- _ => rewrite Z.gtb_ltb in H
  | H : (_ >? _) = false |- _ => rewrite Z.gtb_ltb in H
  | H : (_ >=? _) = true |- _ => rewrite Z.geb_leb in H
  | H : (_ >=? _) = false |- _ => rewrite Z.geb_leb in H
  | H : (_ && _)%bool = true |- _ => apply andb_true_iff in H as [? ?]
  | H : (_ || _)%bool = false |- _ => apply orb_false_iff in H as [? ?]
  | H : negb _ = true |- _ => apply negb_true_iff in H
  | H : negb _ = false |- _ => apply negb_false_iff in H
  end.
