(* ===== verification/Nonce.v ===== *)
(** * Nonces

    The 24-byte nonces of the encrypted transports.
    [Tcp] is go-tox-tcpclient/crypto.go ([incrNonce], [uint64ToBytes],
    [bytesToUint64]); [Mintox] is the pure-Go branch of
    mintox/crypto_core0.go and crypto_core2.go ([Incr], [Incr2le], [Incr2be],
    [Incrn2]).  The theorems show that both packages increment a nonce as a
    192-bit big-endian counter, that the two routines agree, and that a nonce
    does not repeat within 2^192 increments. *)

From S2P Require Import Prelude.
Local Open Scope Z_scope.

(** ** Definitions *)

Module Tcp.

Definition NonceSize : nat := 24.

(** [for i := 23; i >= 0; i-- { nonce[i]++; if nonce[i] != 0 { break } }]:
    [incrNonce_loop k] runs the iterations [i = k-1, ..., 0]. *)
Fixpoint incrNonce_loop (k : nat) (nonce : bytes) : bytes :=
  match k with
  | O => nonce
  | S i =>
      let b := zb (bz (nonce !!! i) + 1) in
      let nonce' := <[i := b]> nonce in
      if decide (b = x00) then incrNonce_loop i nonce' else nonce'
  end.

Definition incrNonce (nonce : bytes) : bytes := incrNonce_loop NonceSize nonce.

Definition uint64ToBytes (v : Z) : bytes := be_bytes 8 v.

Definition bytesToUint64 {E} (b : bytes) : outcome E Z :=
  if bool_decide (8 ≤ length b)%nat then Ret (be_val (take 8 b)) else Panic.

End Tcp.

Module Mintox.

(** [Incr2le]: [c] is the [uint16] carry; the loop runs from the last byte to
    the first. *)
Fixpoint Incr2le_loop (k : nat) (c : Z) (arr : bytes) : bytes :=
  match k with
  | O => arr
  | S i =>
      let c := u16 (c + bz (arr !!! i)) in
      Incr2le_loop i (Z.shiftr c 8) (<[i := zb c]> arr)
  end.

Definition Incr2le (arr : bytes) : bytes := Incr2le_loop (length arr) 1 arr.

(** [Incr2be]: the same carry chain from the first byte to the last;
    [todo] iterations are left and [i] is the current index. *)
Fixpoint Incr2be_loop (todo i : nat) (c : Z) (arr : bytes) : bytes :=
  match todo with
  | O => arr
  | S todo =>
      let c := u16 (c + bz (arr !!! i)) in
      Incr2be_loop todo (S i) (Z.shiftr c 8) (<[i := zb c]> arr)
  end.

Definition Incr2be (arr : bytes) : bytes := Incr2be_loop (length arr) 0 1 arr.

Definition Incr2 (arr : bytes) : bytes := Incr2le arr.

(** [usepgocryptbox] is the constant [true]. *)
Definition usepgocryptbox : bool := true.

(** [for i := 0; i < n; i++ { this.Incr2() }] *)
Definition Incrn2 (n : Z) (arr : bytes) : bytes := Nat.iter (Z.to_nat n) Incr2 arr.

Section Switch.
(** [Incr1] and [Incrn1] call libsodium through cgo. *)
Context (Incr1 : bytes → bytes) (Incrn1 : Z → bytes → bytes).

Definition Incr (arr : bytes) : bytes :=
  if usepgocryptbox then Incr2 arr else Incr1 arr.
Definition Incrn (n : Z) (arr : bytes) : bytes :=
  if usepgocryptbox then Incrn2 n arr else Incrn1 n arr.

End Switch.
End Mintox.

(** ** The loops as arithmetic *)

Lemma take_insert_lt_snoc (l : bytes) i x :
  (i < length l)%nat → take (S i) (<[i := x]> l) = take i l ++ [x].
Proof.
  intros H. rewrite (take_S_r _ _ x) by (by apply list_lookup_insert_eq).
  by rewrite take_insert_ge by lia.
Qed.

Lemma be_val_take_S (l : bytes) i :
  (i < length l)%nat →
  be_val (take (S i) l) = be_val (take i l) * 256 + bz (l !!! i).
Proof.
  intros H. rewrite (take_S_r _ _ (l !!! i)) by (by apply list_lookup_lookup_total_lt).
  apply be_val_snoc.
Qed.

Lemma be_val_take_range (l : bytes) i :
  (i ≤ length l)%nat → 0 ≤ be_val (take i l) < 256 ^ Z.of_nat i.
Proof.
  intros H. pose proof (be_val_range (take i l)) as R.
  unfold zlen in R. rewrite length_take in R.
  by replace (i `min` length l)%nat with i in R by lia.
Qed.

Lemma pow256_pos i : 0 < 256 ^ Z.of_nat i.
Proof. apply Z.pow_pos_nonneg; lia. Qed.

(** [(a * 256 + x) mod 256^(i+1)] splits into its last digit and the rest. *)
Lemma mod_pow256_S a x i :
  0 ≤ x < 256 →
  (a * 256 + x) mod 256 ^ Z.of_nat (S i) = a mod 256 ^ Z.of_nat i * 256 + x.
Proof.
  intros Hx. rewrite Nat2Z.inj_succ, Z.pow_succ_r by lia.
  pose proof (pow256_pos i).
  rewrite Z.rem_mul_r by lia.
  rewrite (Z.add_comm (a * 256)), Z_mod_plus_full, (Z.mod_small x) by lia.
  rewrite Z.div_add, (Z.div_small x), Z.add_0_l by lia. lia.
Qed.

Lemma Incr2le_loop_spec k c (l : bytes) :
  (k ≤ length l)%nat → 0 ≤ c ≤ 255 →
  be_val (take k (Mintox.Incr2le_loop k c l)) =
    (be_val (take k l) + c) mod 256 ^ Z.of_nat k ∧
  drop k (Mintox.Incr2le_loop k c l) = drop k l ∧
  length (Mintox.Incr2le_loop k c l) = length l.
Proof.
  revert c l. induction k as [|i IH]; intros c l Hk Hc.
  { cbn [Mintox.Incr2le_loop]. change (256 ^ Z.of_nat 0) with 1.
    rewrite Z.mod_1_r, take_0. auto. }
  cbn [Mintox.Incr2le_loop].
  set (d := bz (l !!! i)). pose proof (bz_range (l !!! i)) as Hd. fold d in Hd.
  assert (u16 (c + d) = c + d) as -> by (apply wrap_u_small; lia).
  rewrite Z.shiftr_div_pow2 by lia. change (2 ^ 8) with 256.
  pose proof (Z.div_lt_upper_bound (c + d) 256 2 ltac:(lia) ltac:(lia)).
  pose proof (Z.div_pos (c + d) 256 ltac:(lia) ltac:(lia)).
  destruct (IH ((c + d) / 256) (<[i:=zb (c + d)]> l)) as (Hv & Hd' & Hl);
    [len|lia|].
  set (l' := Mintox.Incr2le_loop i _ _) in *.
  assert (l' !!! i = zb (c + d)) as Hi.
  { apply list_lookup_total_correct.
    rewrite <- (Nat.add_0_r i), <- lookup_drop, Hd', lookup_drop, Nat.add_0_r.
    apply list_lookup_insert_eq. lia. }
  split_and!.
  - rewrite be_val_take_S, Hi, Hv, take_insert_ge, bz_zb by len.
    rewrite be_val_take_S by lia. fold d.
    replace (be_val (take i l) * 256 + d + c)
      with ((be_val (take i l) + (c + d) / 256) * 256 + (c + d) mod 256)
      by (pose proof (Z.div_mod (c + d) 256); lia).
    rewrite mod_pow256_S; [lia|apply Z.mod_pos_bound; lia].
  - rewrite <- (Nat.add_1_r i), <- !drop_drop, Hd', !drop_drop.
    rewrite drop_insert_lt by lia. done.
  - rewrite Hl. len.
Qed.

Lemma incrNonce_loop_eq k (l : bytes) :
  (k ≤ length l)%nat → Tcp.incrNonce_loop k l = Mintox.Incr2le_loop k 1 l.
Proof.
  assert (∀ k l, (k ≤ length l)%nat → Mintox.Incr2le_loop k 0 l = l) as H0.
  { clear. induction k as [|i IH]; intros l Hk; cbn [Mintox.Incr2le_loop]; [done|].
    pose proof (bz_range (l !!! i)) as Hr.
    assert (u16 (0 + bz (l !!! i)) = bz (l !!! i)) as -> by (apply wrap_u_small; lia).
    rewrite Z.shiftr_div_pow2, Z.div_small, zb_bz by (try lia; change (2^8) with 256; lia).
    rewrite list_insert_id by (by apply list_lookup_lookup_total_lt). apply IH. lia. }
  revert l. induction k as [|i IH]; intros l Hk; [done|].
  cbn [Tcp.incrNonce_loop Mintox.Incr2le_loop].
  pose proof (bz_range (l !!! i)) as Hr.
  assert (u16 (1 + bz (l !!! i)) = bz (l !!! i) + 1) as ->
    by (unfold u16; rewrite wrap_u_small; lia).
  rewrite Z.shiftr_div_pow2 by lia. change (2 ^ 8) with 256.
  case_decide as E.
  - apply (f_equal bz) in E. rewrite bz_zb in E. change (bz x00) with 0 in E.
    assert (bz (l !!! i) + 1 = 256) as -> by
      (destruct (decide (bz (l !!! i) = 255)); [lia|rewrite Z.mod_small in E; lia]).
    rewrite Z.div_same by lia. apply IH. len.
  - assert (bz (l !!! i) + 1 < 256).
    { destruct (decide (bz (l !!! i) = 255)) as [F|]; [|lia].
      contradict E. rewrite F. reflexivity. }
    rewrite Z.div_small by lia. rewrite H0; [done|len].
Qed.

Lemma Incr2le_spec (l : bytes) :
  be_val (Mintox.Incr2le l) = (be_val l + 1) mod 256 ^ zlen l ∧
  length (Mintox.Incr2le l) = length l.
Proof.
  destruct (Incr2le_loop_spec (length l) 1 l) as (Hv & _ & Hl); [lia..|].
  unfold Mintox.Incr2le. split; [|done].
  rewrite take_ge in Hv by lia. by rewrite (take_ge l) in Hv by lia.
Qed.

Lemma incrNonce_Incr2le (n : bytes) :
  length n = Tcp.NonceSize → Tcp.incrNonce n = Mintox.Incr2le n.
Proof.
  intros H. unfold Tcp.incrNonce, Mintox.Incr2le. rewrite <- H.
  by apply incrNonce_loop_eq.
Qed.

Lemma length_incrNonce (n : bytes) :
  length n = Tcp.NonceSize → length (Tcp.incrNonce n) = Tcp.NonceSize.
Proof. intros H. rewrite incrNonce_Incr2le by done. by rewrite (proj2 (Incr2le_spec n)). Qed.

Lemma be_val_incrNonce (n : bytes) :
  length n = Tcp.NonceSize →
  be_val (Tcp.incrNonce n) = (be_val n + 1) mod 2 ^ 192.
Proof.
  intros H. rewrite incrNonce_Incr2le by done.
  rewrite (proj1 (Incr2le_spec n)). unfold zlen. by rewrite H.
Qed.

Lemma iter_incrNonce k (n : bytes) :
  length n = Tcp.NonceSize →
  length (Nat.iter k Tcp.incrNonce n) = Tcp.NonceSize ∧
  be_val (Nat.iter k Tcp.incrNonce n) = (be_val n + Z.of_nat k) mod 2 ^ 192.
Proof.
  intros H. induction k as [|k [IHl IHv]].
  - split; [done|]. cbn [Nat.iter]. pose proof (be_val_range n) as R.
    unfold zlen in R. rewrite H in R. rewrite Z.add_0_r, Z.mod_small; [done|].
    exact R.
  - change (Nat.iter (S k) Tcp.incrNonce n)
      with (Tcp.incrNonce (Nat.iter k Tcp.incrNonce n)).
    split; [by apply length_incrNonce|].
    rewrite be_val_incrNonce, IHv, Z.add_mod_idemp_l by done. f_equal. lia.
Qed.

#[export] Hint Resolve length_incrNonce : go.

(** [Incr2be] is the increment of the reversed nonce, that is of a
    little-endian counter. *)
Lemma Incr2be_loop_rev k i c (l : bytes) :
  (i + k = length l)%nat →
  Mintox.Incr2be_loop k i c l = reverse (Mintox.Incr2le_loop k c (reverse l)).
Proof.
  revert i c l. induction k as [|k IH]; intros i c l Hk;
    cbn [Mintox.Incr2be_loop Mintox.Incr2le_loop]; [by rewrite reverse_involutive|].
  assert (reverse l !!! k = l !!! i) as ->.
  { apply list_lookup_total_correct. rewrite reverse_lookup by lia.
    replace (length l - S k)%nat with i by lia.
    apply list_lookup_lookup_total_lt. lia. }
  rewrite IH by len. f_equal. f_equal.
  apply list_eq. intros j.
  destruct (decide (j < length l)%nat) as [Hj|Hj].
  2:{ rewrite !lookup_ge_None_2; [done|..]; rewrite ?length_insert, length_reverse; len. }
  rewrite reverse_lookup by len. rewrite length_insert.
  destruct (decide (j = k)) as [->|Hne].
  - rewrite list_lookup_insert_eq by (rewrite length_reverse; lia).
    replace (length l - S k)%nat with i by lia.
    by rewrite list_lookup_insert_eq by lia.
  - rewrite !list_lookup_insert_ne by lia. by rewrite reverse_lookup by lia.
Qed.

(** ** Properties *)

(** [incrNonce] of go-tox-tcpclient adds one to the nonce read as a
    192-bit big-endian number, modulo 2^192, and keeps its 24 bytes. *)
Theorem incrNonce_is_increment (n : bytes) (H : length n = Tcp.NonceSize) :
  be_val (Tcp.incrNonce n) = (be_val n + 1) mod 2 ^ 192 ∧
  length (Tcp.incrNonce n) = Tcp.NonceSize.
Proof. auto using be_val_incrNonce, length_incrNonce. Qed.

Lemma incrNonce_is_increment_witness :
  be_val (Tcp.incrNonce (replicate 24 xff)) = 0.
Proof.
  rewrite (proj1 (incrNonce_is_increment (replicate 24 xff) eq_refl)).
  vm_compute. reflexivity.
Defined.

(** The nonce increment of mintox (a carry chain over every byte) and the
    one of go-tox-tcpclient (which stops at the first byte that does not wrap)
    are the same function on 24-byte nonces, so that the two ends of a
    connection stay in step; [Incr2be], whose name says big-endian, counts in
    little-endian order. *)
Theorem nonce_increments_agree (n : bytes) (H : length n = Tcp.NonceSize) :
  Mintox.Incr2 n = Tcp.incrNonce n ∧
  Mintox.Incr2be n = reverse (Tcp.incrNonce (reverse n)).
Proof.
  split.
  - by rewrite incrNonce_Incr2le.
  - unfold Mintox.Incr2be. rewrite Incr2be_loop_rev by lia.
    rewrite incrNonce_Incr2le by (by rewrite length_reverse).
    unfold Mintox.Incr2le. by rewrite length_reverse.
Qed.

Lemma nonce_increments_agree_witness :
  Mintox.Incr2 (replicate 23 x00 ++ [xff]) = replicate 22 x00 ++ [x01; x00].
Proof.
  rewrite (proj1 (nonce_increments_agree (replicate 23 x00 ++ [xff]) eq_refl)).
  vm_compute. reflexivity.
Defined.

(** C18: a nonce does not repeat: the nonces after [i] and after [j]
    increments differ whenever [i <> j] and both are below 2^192, so no two
    packets of a session are encrypted under one nonce. *)
Theorem nonce_never_reused (n : bytes) (i j : nat)
    (H : length n = Tcp.NonceSize) (Hij : i ≠ j)
    (Hi : Z.of_nat i < 2 ^ 192) (Hj : Z.of_nat j < 2 ^ 192) :
  Nat.iter i Tcp.incrNonce n ≠ Nat.iter j Tcp.incrNonce n.
Proof.
  intros E. apply (f_equal be_val) in E.
  rewrite !(proj2 (iter_incrNonce _ n H)) in E.
  pose proof (Z.mod_eq (be_val n + Z.of_nat i) (2 ^ 192) ltac:(lia)).
  pose proof (Z.mod_eq (be_val n + Z.of_nat j) (2 ^ 192) ltac:(lia)).
  set (P := 2 ^ 192) in *. assert (0 < P) by (subst P; lia).
  assert (Z.of_nat i - Z.of_nat j =
    P * ((be_val n + Z.of_nat i) / P - (be_val n + Z.of_nat j) / P)) by lia.
  assert ((be_val n + Z.of_nat i) / P - (be_val n + Z.of_nat j) / P = 0) by nia.
  lia.
Qed.

Lemma nonce_never_reused_witness :
  Nat.iter 3 Tcp.incrNonce (replicate 24 xff) ≠
  Nat.iter 0 Tcp.incrNonce (replicate 24 xff).
Proof. apply nonce_never_reused; [reflexivity|lia|lia|lia]. Defined.
