(* ===== verification/GoIO.v ===== *)
(** * Standard-library pieces the program uses

    The parts of Go's [io] and [encoding/hex] the components call, modelled
    once: a reader as the sequence of chunks its [Read] calls deliver,
    [io.ReadFull] over it, a read-write stream, the state-and-error monad the
    stateful code is written in, and hexadecimal text. *)

From S2P Require Import Prelude.
Local Open Scope Z_scope.

(** ** State and error monad *)

(** A call that updates a state [S] and may fail or panic. *)
Definition stm (S E A : Type) : Type := S → outcome E A * S.

#[export] Instance stm_ret {S E} : MRet (stm S E) := fun A a s => (Ret a, s).
#[export] Instance stm_bind {S E} : MBind (stm S E) :=
  fun A B f m s =>
    match m s with
    | (Ret a, s') => f a s'
    | (Fail e, s') => (Fail e, s')
    | (Panic, s') => (Panic, s')
    end.

Definition stm_lift {S E A} (m : outcome E A) : stm S E A := fun s => (m, s).
Definition stm_fail {S E A} (e : E) : stm S E A := fun s => (Fail e, s).

(** The [if err != nil { return wrap(err) }] of a call into another layer. *)
Definition stm_wrap {S E F A} (f : E → F) (m : stm S E A) : stm S F A :=
  fun s => let '(r, s') := m s in (map_err f r, s').

Lemma stm_bind_ret {S E A B} (m : stm S E A) (f : A → stm S E B) s a s' :
  m s = (Ret a, s') → (m ≫= f) s = f a s'.
Proof. intros H. unfold mbind, stm_bind. by rewrite H. Qed.

Lemma stm_bind_fail {S E A B} (m : stm S E A) (f : A → stm S E B) s e s' :
  m s = (Fail e, s') → (m ≫= f) s = (Fail e, s').
Proof. intros H. unfold mbind, stm_bind. by rewrite H. Qed.

Lemma stm_bind_inv {S E A B} (m : stm S E A) (f : A → stm S E B) s b s2 :
  (m ≫= f) s = (Ret b, s2) → ∃ a s1, m s = (Ret a, s1) ∧ f a s1 = (Ret b, s2).
Proof. unfold mbind, stm_bind. destruct (m s) as [[a|e|] s1]; [eauto|done..]. Qed.

Lemma stm_bind_panic {S E A B} (m : stm S E A) (f : A → stm S E B) s s' :
  m s = (Panic, s') → (m ≫= f) s = (Panic, s').
Proof. intros H. unfold mbind, stm_bind. by rewrite H. Qed.

(** ** Readers *)

Inductive io_err : Type :=
| EOF
| ErrUnexpectedEOF
| ErrOther (code : Z).

#[export] Instance io_err_eq_dec : EqDecision io_err.
Proof. solve_decision. Defined.

(** What [Read] will deliver: the chunks in order, then an error for ever. *)
Record reader := Reader { rd_chunks : list bytes; rd_err : io_err }.

(** One call [r.Read(buf)] with [len(buf) = k]. *)
Definition Read (k : nat) (r : reader) : bytes * option io_err * reader :=
  match rd_chunks r with
  | [] => ([], Some (rd_err r), r)
  | c :: cs =>
      if bool_decide (length c ≤ k)%nat then (c, None, Reader cs (rd_err r))
      else (take k c, None, Reader (drop k c :: cs) (rd_err r))
  end.

(** [io.ReadAtLeast] with [min = len(buf)]: [acc] has been read and [need]
    bytes are missing.  The loop follows the chunks, of which each call either
    finishes the request or consumes one. *)
Fixpoint ReadFull_loop (cs : list bytes) (e : io_err) (need : nat) (acc : bytes)
    : outcome io_err bytes * reader :=
  match need with
  | O => (Ret acc, Reader cs e)
  | S _ =>
      match cs with
      | [] =>
          let err := if bool_decide (acc ≠ [] ∧ e = EOF) then ErrUnexpectedEOF else e in
          (Fail err, Reader [] e)
      | c :: cs' =>
          if bool_decide (length c ≤ need)%nat
          then ReadFull_loop cs' e (need - length c) (acc ++ c)
          else (Ret (acc ++ take need c), Reader (drop need c :: cs') e)
      end
  end.

Definition ReadFull (n : nat) : stm reader io_err bytes :=
  fun r => ReadFull_loop (rd_chunks r) (rd_err r) n [].

(** The bytes a reader still has to deliver. *)
Definition pending (r : reader) : bytes := concat (rd_chunks r).

Lemma ReadFull_loop_ok cs e need acc :
  (need ≤ length (concat cs))%nat →
  ∃ cs', ReadFull_loop cs e need acc = (Ret (acc ++ take need (concat cs)), Reader cs' e) ∧
    concat cs' = drop need (concat cs).
Proof.
  revert need acc. induction cs as [|c cs IH]; intros need acc H.
  - cbn in H. destruct need; [|lia]. exists []. by rewrite app_nil_r.
  - destruct need as [|n]; [exists (c :: cs); by rewrite take_0, app_nil_r|].
    cbn [ReadFull_loop concat] in *. rewrite length_app in H.
    case_bool_decide as Hc.
    + destruct (IH (S n - length c)%nat (acc ++ c)) as (cs' & -> & Hcs'); [lia|].
      exists cs'. rewrite take_app_ge, drop_app_ge by lia.
      by rewrite <- app_assoc.
    + exists (drop (S n) c :: cs). cbn [concat].
      by rewrite take_app_le, drop_app_le by lia.
Qed.

Lemma ReadFull_loop_short cs e need acc :
  (length (concat cs) < need)%nat →
  ReadFull_loop cs e need acc =
    (Fail (if bool_decide (acc ++ concat cs ≠ [] ∧ e = EOF)
           then ErrUnexpectedEOF else e), Reader [] e).
Proof.
  revert need acc. induction cs as [|c cs IH]; intros need acc H.
  - destruct need; [cbn in H; lia|]. cbn [ReadFull_loop concat]. by rewrite app_nil_r.
  - cbn [concat] in H. rewrite length_app in H. destruct need as [|n]; [lia|].
    cbn [ReadFull_loop]. rewrite bool_decide_true by lia.
    rewrite IH by lia. cbn [concat]. by rewrite app_assoc.
Qed.

(** [ReadFull] does not depend on how the bytes are cut into chunks. *)
Lemma ReadFull_ok n r :
  (n ≤ length (pending r))%nat →
  ∃ r', ReadFull n r = (Ret (take n (pending r)), r') ∧
    pending r' = drop n (pending r) ∧ rd_err r' = rd_err r.
Proof.
  intros H. destruct r as [cs e].
  destruct (ReadFull_loop_ok cs e n [] H) as (cs' & E & Hc).
  exists (Reader cs' e). unfold ReadFull. cbn [rd_chunks rd_err]. by rewrite E.
Qed.

Lemma ReadFull_app n r l k :
  pending r = l ++ k → length l = n →
  ∃ r', ReadFull n r = (Ret l, r') ∧ pending r' = k ∧ rd_err r' = rd_err r.
Proof.
  intros Hp <-. destruct (ReadFull_ok (length l) r) as (r' & E & Hr & He).
  { rewrite Hp, length_app. lia. }
  exists r'. rewrite E, Hr, Hp. by rewrite take_app_length, drop_app_length.
Qed.

Lemma ReadFull_short n r :
  (length (pending r) < n)%nat →
  ReadFull n r =
    (Fail (if bool_decide (pending r ≠ [] ∧ rd_err r = EOF)
           then ErrUnexpectedEOF else rd_err r), Reader [] (rd_err r)).
Proof. intros H. unfold ReadFull. by rewrite ReadFull_loop_short. Qed.

Lemma ReadFull_consumes n r l r' :
  ReadFull n r = (Ret l, r') → length (pending r) = (n + length (pending r'))%nat.
Proof.
  intros E. destruct (Nat.lt_ge_cases (length (pending r)) n) as [Hlt|Hge].
  - by rewrite ReadFull_short in E.
  - destruct (ReadFull_ok n r Hge) as (r1 & E1 & Hp & _). rewrite E1 in E. injection E as <- <-.
    rewrite Hp, length_drop. lia.
Qed.

(** ** Streams *)

(** An [io.ReadWriter]: what [Read] will deliver, what has been written, and
    the error of [Write] when it is broken. *)
Record duplex := Duplex { d_in : reader; d_out : bytes; d_werr : option io_err }.

(** [Write] on a stream *)
Definition dup_write (p : bytes) : stm duplex io_err Z := fun d =>
  match d_werr d with
  | Some e => (Fail e, d)
  | None => (Ret (zlen p), Duplex (d_in d) (d_out d ++ p) None)
  end.

(** ** Allocation *)

(** The largest allocation of the runtime on 64-bit Linux: [make] panics
    above it. *)
Definition maxAlloc : Z := 2 ^ 48.

(** [make([]byte, n)] for a [uint64] [n] *)
Definition make_u64 {E} (n : Z) : outcome E bytes :=
  if n >? maxAlloc then Panic else Ret (make_bytes (Z.to_nat n)).

(** ** Hexadecimal text ([encoding/hex]) *)

Definition hex_digit (z : Z) : byte :=
  if z <? 10 then zb (48 + z) else zb (87 + z).

Definition hex_value (b : byte) : option Z :=
  let c := bz b in
  if (48 <=? c) && (c <=? 57) then Some (c - 48)
  else if (97 <=? c) && (c <=? 102) then Some (c - 87)
  else if (65 <=? c) && (c <=? 70) then Some (c - 55)
  else None.

(** [hex.EncodeToString] *)
Fixpoint hexEncode (l : bytes) : bytes :=
  match l with
  | [] => []
  | b :: k => hex_digit (bz b / 16) :: hex_digit (bz b mod 16) :: hexEncode k
  end.

(** [hex.DecodeString]; [None] is a non-nil error. *)
Fixpoint hexDecode (s : bytes) : option bytes :=
  match s with
  | [] => Some []
  | [_] => None
  | a :: b :: k =>
      match hex_value a, hex_value b with
      | Some x, Some y => r ← hexDecode k; Some (zb (x * 16 + y) :: r)
      | _, _ => None
      end
  end.

Lemma hex_value_digit z : 0 ≤ z < 16 → hex_value (hex_digit z) = Some z.
Proof.
  intros H. unfold hex_value, hex_digit.
  destruct (z <? 10) eqn:E; zbool; rewrite bz_zb_small by lia;
    repeat match goal with
    | |- context [?a <=? ?b] => destruct (Z.leb_spec a b); try lia
    end; cbn; f_equal; lia.
Qed.

Lemma hexDecode_hexEncode l : hexDecode (hexEncode l) = Some l.
Proof.
  induction l as [|b l IH]; [done|]. cbn [hexEncode hexDecode].
  pose proof (bz_range b).
  rewrite !hex_value_digit; [|apply Z.mod_pos_bound; lia|
    split; [apply Z.div_pos; lia|apply Z.div_lt_upper_bound; lia]].
  rewrite IH. cbn. f_equal. f_equal.
  rewrite <- (zb_bz b) at 3. f_equal. pose proof (Z.div_mod (bz b) 16). lia.
Qed.
