(* ===== verification/Box.v ===== *)
(** * The NaCl box and its wrappers

    [NaclBox] is the interface of the NaCl "box" primitives, which both
    transports take from a third-party package: the operations are parameters
    of everything that encrypts, and [NaclBoxLaws] states the documented
    behaviour the code relies on.  [Gopp] is the interface of the assertion
    helper of the goplusplus package.  [Mintox] translates the wrappers of
    mintox/crypto_core2.go over them.  [ToyBox] is a concrete instance, used to
    show that the laws can hold and to run the models. *)

From S2P Require Import Prelude.
Local Open Scope Z_scope.

(** ** Interfaces *)

Class NaclBox := {
  (** [box.Precompute]: peer's public key, own secret key. *)
  box_precompute : bytes → bytes → bytes;
  (** [box.SealAfterPrecomputation(nil, plain, nonce, key)] *)
  box_seal : bytes → bytes → bytes → bytes;
  (** [box.OpenAfterPrecomputation(nil, cipher, nonce, key)] *)
  box_open : bytes → bytes → bytes → option bytes;
  (** [scalarmult.Base] / [curve25519.ScalarBaseMult] *)
  scalar_base : bytes → bytes;
}.

Definition KeySize : nat := 32.
Definition Overhead : nat := 16.

Class NaclBoxLaws (B : NaclBox) := {
  seal_length m n k : length (box_seal m n k) = (length m + Overhead)%nat;
  open_seal m n k : box_open (box_seal m n k) n k = Some m;
  open_length c n k m :
    box_open c n k = Some m → length c = (length m + Overhead)%nat;
  base_length s : length s = KeySize → length (scalar_base s) = KeySize;
  precompute_length p s :
    length p = KeySize → length s = KeySize → length (box_precompute p s) = KeySize;
  precompute_comm s t :
    length s = KeySize → length t = KeySize →
    box_precompute (scalar_base s) t = box_precompute (scalar_base t) s;
}.

(** [gopp.Assert(cond, ...)]. *)
Class Gopp := gopp_assert : bool → bool.
(** [gopp_assert c] tells whether the call returns; a passing assertion
    returns and a failing one does not. *)
Class GoppLaws (G : Gopp) := {
  assert_pass : gopp_assert true = true;
  assert_fail : gopp_assert false = false;
}.

Definition Assert {E} `{Gopp} (c : bool) : outcome E unit :=
  if gopp_assert c then Ret tt else Panic.

Lemma Assert_true {E} `{GoppLaws} : @Assert E _ true = Ret tt.
Proof. unfold Assert. by rewrite assert_pass. Qed.

Lemma bind_Assert {E A} `{GoppLaws} (c : bool) (f : unit → outcome E A) :
  c = true → (Assert c ≫= f) = f tt.
Proof. intros ->. by rewrite Assert_true. Qed.

Lemma Assert_false {E} `{GoppLaws} : @Assert E _ false = Panic.
Proof. unfold Assert. by rewrite assert_fail. Qed.

(** ** mintox/crypto_core2.go *)

Module Mintox.
Section Wrappers.
Context `{NaclBox} `{Gopp}.

Definition PUBLIC_KEY_SIZE : nat := 32.
Definition NONCE_SIZE : nat := 24.
Definition MAC_SIZE : nat := 16.

Inductive crypt_err : Type := ErrNaclBox (iret : Z).

Definition cbiret2err2 (iret : Z) : option crypt_err :=
  if iret =? 0 then None else Some (ErrNaclBox iret).

(** [NewCryptoKey] asserts the length and copies. *)
Definition NewCryptoKey {E} (b : bytes) : outcome E bytes :=
  _ ← Assert (bool_decide (length b = PUBLIC_KEY_SIZE));
  Ret (copy_into (make_bytes PUBLIC_KEY_SIZE) b).

Definition CBBeforeNm2 {E} (pk sk : bytes) : outcome E bytes :=
  NewCryptoKey (box_precompute pk sk).

Definition CBAfterNm2 (seckey nonce plain : bytes) : bytes * option crypt_err :=
  (box_seal plain nonce seckey, cbiret2err2 0).

Definition CBOpenAfterNm2 (seckey nonce encrypted : bytes) : bytes * option crypt_err :=
  match box_open encrypted nonce seckey with
  | Some plain => (plain, cbiret2err2 0)
  | None => ([], cbiret2err2 1)
  end.

Definition EncryptDataSymmetric2 (seckey nonce plain : bytes) : outcome crypt_err bytes :=
  let '(encrypted, err) := CBAfterNm2 seckey nonce plain in
  match err with
  | Some e => Fail e
  | None =>
      _ ← Assert (bool_decide (length encrypted = length plain + MAC_SIZE)%nat);
      Ret encrypted
  end.

(** The size assertion runs before the error is returned. *)
Definition DecryptDataSymmetric2 (seckey nonce encrypted : bytes) : outcome crypt_err bytes :=
  let '(plain, err) := CBOpenAfterNm2 seckey nonce encrypted in
  _ ← Assert (zlen plain =? zlen encrypted - Z.of_nat MAC_SIZE);
  match err with
  | Some e => Fail e
  | None => Ret plain
  end.

End Wrappers.

Section Facts.
Context `{NaclBoxLaws} `{GoppLaws}.

Lemma NewCryptoKey_ok {E} b :
  length b = PUBLIC_KEY_SIZE → @NewCryptoKey _ E b = Ret b.
Proof.
  intros Hl. unfold NewCryptoKey. rewrite bool_decide_true, Assert_true by done.
  cbn [mbind outcome_bind]. rewrite copy_into_full; [done|]. by rewrite length_make_bytes.
Qed.

Lemma CBBeforeNm2_ok {E} p s :
  length p = KeySize → length s = KeySize →
  @CBBeforeNm2 _ _ E p s = Ret (box_precompute p s).
Proof.
  intros Hp Hs. unfold CBBeforeNm2. apply NewCryptoKey_ok.
  by rewrite precompute_length.
Qed.

Lemma EncryptDataSymmetric2_ok k n m :
  EncryptDataSymmetric2 k n m = Ret (box_seal m n k).
Proof.
  unfold EncryptDataSymmetric2, CBAfterNm2. cbn [cbiret2err2 Z.eqb].
  rewrite bool_decide_true, Assert_true by apply seal_length. done.
Qed.

Lemma DecryptDataSymmetric2_ok k n c m :
  box_open c n k = Some m → DecryptDataSymmetric2 k n c = Ret m.
Proof.
  intros E. unfold DecryptDataSymmetric2, CBOpenAfterNm2. rewrite E.
  apply open_length in E. unfold zlen, MAC_SIZE, Overhead in *.
  replace (_ =? _) with true by (symmetry; apply Z.eqb_eq; lia).
  by rewrite Assert_true.
Qed.

Lemma DecryptDataSymmetric2_bad k n c :
  box_open c n k = None → length c ≠ MAC_SIZE →
  DecryptDataSymmetric2 k n c = Panic.
Proof.
  intros E Hc. unfold DecryptDataSymmetric2, CBOpenAfterNm2. rewrite E.
  unfold zlen, MAC_SIZE in *. cbn [length].
  replace (_ =? _) with false by (symmetry; apply Z.eqb_neq; lia).
  by rewrite Assert_false.
Qed.

End Facts.
End Mintox.

(** ** A concrete instance *)

Module ToyBox.

(** Sixteen tag bytes taken from the key and the nonce, then the text. *)
Definition tag (n k : bytes) : bytes :=
  take 16 (take 8 k ++ take 8 (reverse n) ++ make_bytes 16).

Definition seal (m n k : bytes) : bytes := tag n k ++ m.

Definition open (c n k : bytes) : option bytes :=
  if decide (take 16 c = tag n k) then Some (drop 16 c) else None.

Definition mix (p s : bytes) : bytes := zip_with (fun a b => zb (bz a + bz b)) p s.

#[export] Instance toy_box : NaclBox := {|
  box_precompute := mix;
  box_seal := seal;
  box_open := open;
  scalar_base := id;
|}.

#[export] Instance toy_gopp : Gopp := id.

Lemma tag_length n k : length (tag n k) = 16%nat.
Proof. unfold tag. len. Qed.

Lemma mix_comm p s : mix p s = mix s p.
Proof.
  unfold mix. revert s. induction p as [|a p IH]; intros [|b s]; cbn; auto.
  by rewrite Z.add_comm, IH.
Qed.

#[export] Instance toy_box_laws : NaclBoxLaws toy_box.
Proof.
  split; unfold KeySize, Overhead; cbn.
  - intros. unfold seal. rewrite length_app, tag_length. lia.
  - intros. unfold open, seal. rewrite take_app_exact by apply tag_length.
    rewrite decide_True by done. by rewrite drop_app_exact by apply tag_length.
  - intros c n k m. unfold open. case_decide as E; [|done].
    intros [= <-]. apply (f_equal length) in E. rewrite tag_length in E. len.
  - auto.
  - intros p s Hp Hs. unfold mix. rewrite length_zip_with. lia.
  - intros. apply mix_comm.
Qed.

#[export] Instance toy_gopp_laws : GoppLaws toy_gopp.
Proof. split; reflexivity. Qed.

End ToyBox.
