(* ===== verification/TcpPacket.v ===== *)
(** * Packets of the Tox TCP relay protocol (go-tox-tcpclient/packet.go)

    The plaintext packets ([build*], [parse*], [isDataPacket]), the encrypted
    framing ([encodePacket], [decodePacket]) and the stream reader
    ([PacketReader.ReadPacket]).  The theorems: each parser inverts its builder
    and rejects the packets of the other kinds, encryption and framing
    round-trip over any chunking of the stream with the two nonce counters in
    step, and the sizes for which the framing does not round-trip. *)

From S2P Require Import Prelude Nonce GoIO Box.
Local Open Scope Z_scope.

(** ** Constants *)

Definition NumReservedPorts : Z := 16.
Definition NumClientConnections : Z := 256 - NumReservedPorts.
Definition MaxPacketSize : Z := 2048.
Definition MaxOOBDataLength : Z := 1024.
Definition PublicKeySize : nat := 32.
Definition MacSize : nat := 16.

Definition PacketRoutingRequest : Z := 0.
Definition PacketRoutingResponse : Z := 1.
Definition PacketConnectionNotification : Z := 2.
Definition PacketDisconnectNotification : Z := 3.
Definition PacketPing : Z := 4.
Definition PacketPong : Z := 5.
Definition PacketOOBSend : Z := 6.
Definition PacketOOBRecv : Z := 7.
Definition PacketOnionRequest : Z := 8.
Definition PacketOnionResponse : Z := 9.

Inductive packet_err : Type :=
| ErrPacketTooLarge
| ErrCiphertextTooShort
| ErrDecryptionFailed
| ErrOOBDataTooLarge
| ErrInvalidConnectionID
| ErrIO (e : io_err).

#[export] Instance packet_err_eq_dec : EqDecision packet_err.
Proof. solve_decision. Defined.

(** ** Encryption and framing *)

Section Framing.
Context `{NaclBox}.

(** crypto.go: thin wrappers over the box primitives. *)
Definition beforeNm (pub sec : bytes) : bytes := box_precompute pub sec.
Definition encryptDataSymmetric (shrkey nonce plain : bytes) : bytes :=
  box_seal plain nonce shrkey.
Definition decryptDataSymmetric (shrkey nonce cipher : bytes) : option bytes :=
  box_open cipher nonce shrkey.

(** Both return the packet and the incremented nonce; the caller's nonce is
    updated in place only on success. *)
Definition encodePacket (shrkey nonce plain : bytes) : outcome packet_err (bytes * bytes) :=
  if zlen plain >? MaxPacketSize then Fail ErrPacketTooLarge
  else
    let cipher := encryptDataSymmetric shrkey nonce plain in
    let hdr := be_bytes 2 (u16 (zlen cipher)) in
    Ret (hdr ++ copy_into (make_bytes (length cipher)) cipher, Tcp.incrNonce nonce).

Definition decodePacket (shrkey nonce cipher : bytes) : outcome packet_err (bytes * bytes) :=
  if bool_decide (length cipher < MacSize)%nat then Fail ErrCiphertextTooShort
  else
    match decryptDataSymmetric shrkey nonce cipher with
    | None => Fail ErrDecryptionFailed
    | Some plain => Ret (plain, Tcp.incrNonce nonce)
    end.

End Framing.

(** [PacketReader.ReadPacket]; the buffer has [MaxPacketSize + 2] bytes, so
    both [ReadFull] targets are inside it. *)
Definition ReadPacket : stm reader packet_err bytes :=
  hdr ← stm_wrap ErrIO (ReadFull 2);
  let encLen := be_val hdr in
  if encLen >? MaxPacketSize then stm_fail ErrPacketTooLarge
  else
    body ← stm_wrap ErrIO (ReadFull (Z.to_nat encLen));
    mret (copy_into (make_bytes (Z.to_nat encLen)) body).

(** ** Builders *)

Definition buildRoutingRequest (destPK : bytes) : outcome packet_err bytes :=
  pk ← slice_to destPK PublicKeySize;
  Ret (zb PacketRoutingRequest :: copy_into (make_bytes PublicKeySize) pk).

Definition buildRoutingResponse (connID : Z) (pk : bytes) : outcome packet_err bytes :=
  k ← slice_to pk PublicKeySize;
  Ret (zb PacketRoutingResponse :: zb (u8 (connID + NumReservedPorts))
       :: copy_into (make_bytes PublicKeySize) k).

Definition buildConnNotification (connID : Z) : bytes :=
  [zb PacketConnectionNotification; zb connID].

Definition buildDisconnNotification (connID : Z) : bytes :=
  [zb PacketDisconnectNotification; zb connID].

Definition buildPing (id : Z) : bytes := zb PacketPing :: be_bytes 8 id.

Definition buildPong (id : Z) : bytes := zb PacketPong :: be_bytes 8 id.

Definition buildOOBSend (destPK data : bytes) : outcome packet_err bytes :=
  if zlen data >? MaxOOBDataLength then Fail ErrOOBDataTooLarge
  else
    pk ← slice_to destPK PublicKeySize;
    Ret (zb PacketOOBSend :: copy_into (make_bytes PublicKeySize) pk
         ++ copy_into (make_bytes (length data)) data).

Definition buildOOBRecv (srcPK data : bytes) : outcome packet_err bytes :=
  pk ← slice_to srcPK PublicKeySize;
  Ret (zb PacketOOBRecv :: copy_into (make_bytes PublicKeySize) pk
       ++ copy_into (make_bytes (length data)) data).

Definition buildOnionRequest (data : bytes) : bytes :=
  zb PacketOnionRequest :: copy_into (make_bytes (length data)) data.

Definition buildOnionResponse (data : bytes) : bytes :=
  zb PacketOnionResponse :: copy_into (make_bytes (length data)) data.

Definition buildDataPacket (connID : Z) (data : bytes) : outcome packet_err bytes :=
  if connID >=? NumClientConnections then Fail ErrInvalidConnectionID
  else Ret (zb (u8 (connID + NumReservedPorts))
            :: copy_into (make_bytes (length data)) data).

(** ** Parsers

    A parser returns [None] for [ok = false]. *)

(** [len(plain) < n || plain[0] != t], negated. *)
Definition has_tag (n : nat) (t : Z) (plain : bytes) : bool :=
  bool_decide (n ≤ length plain)%nat &&
  match plain with b :: _ => bz b =? t | [] => false end.

Definition parseRoutingResponse (plain : bytes) : option (Z * bytes) :=
  if has_tag (1 + 1 + PublicKeySize) PacketRoutingResponse plain
  then Some (bz (plain !!! 1%nat), take PublicKeySize (drop 2 plain)) else None.

Definition parseConnNotification (plain : bytes) : option Z :=
  if has_tag 2 PacketConnectionNotification plain
  then Some (bz (plain !!! 1%nat)) else None.

Definition parseDisconnNotification (plain : bytes) : option Z :=
  if has_tag 2 PacketDisconnectNotification plain
  then Some (bz (plain !!! 1%nat)) else None.

Definition parsePing (plain : bytes) : option Z :=
  if has_tag (1 + 8) PacketPing plain
  then Some (be_val (take 8 (drop 1 plain))) else None.

Definition parsePong (plain : bytes) : option Z :=
  if has_tag (1 + 8) PacketPong plain
  then Some (be_val (take 8 (drop 1 plain))) else None.

Definition parseOOBRecv (plain : bytes) : option (bytes * bytes) :=
  if has_tag (1 + PublicKeySize) PacketOOBRecv plain
  then Some (take PublicKeySize (drop 1 plain), drop (1 + PublicKeySize) plain)
  else None.

Definition parseOnionResponse (plain : bytes) : option bytes :=
  if has_tag 1 PacketOnionResponse plain then Some (drop 1 plain) else None.

Definition isDataPacket (plain : bytes) : bool :=
  match plain with b :: _ => bz b >=? NumReservedPorts | [] => false end.

Definition parseDataPacket (plain : bytes) : option (Z * bytes) :=
  match plain with
  | [] => None
  | b :: _ =>
      if bz b <? NumReservedPorts then None
      else Some (u8 (bz b - NumReservedPorts), drop 1 plain)
  end.

(** ** Lemmas *)

Lemma copy_into_make l : copy_into (make_bytes (length l)) l = l.
Proof. apply copy_into_full, length_make_bytes. Qed.

Lemma copy_into_make_n n l : length l = n → copy_into (make_bytes n) l = l.
Proof. intros <-. apply copy_into_make. Qed.

Lemma slice_to_all {E} n l : length l = n → @slice_to E l n = Ret l.
Proof. intros <-. rewrite slice_to_ok by lia. by rewrite firstn_all. Qed.

#[export] Hint Rewrite copy_into_make : go_len.

Lemma has_tag_cons n t z (l : bytes) :
  0 ≤ z < 256 →
  has_tag n t (zb z :: l) = bool_decide (n ≤ S (length l))%nat && (z =? t).
Proof. intros Hz. unfold has_tag. cbn [length]. by rewrite bz_zb_small. Qed.

Lemma be_val_be_bytes_8 z : 0 ≤ z < 2 ^ 64 → be_val (take 8 (be_bytes 8 z)) = z.
Proof.
  intros Hz. rewrite take_ge by (rewrite length_be_bytes; lia).
  rewrite be_val_be_bytes. apply Z.mod_small. exact Hz.
Qed.

Section FramingFacts.
Context `{NaclBoxLaws}.

Lemma encodePacket_ok k n plain :
  zlen plain ≤ MaxPacketSize →
  encodePacket k n plain =
    Ret (be_bytes 2 (zlen plain + 16) ++ box_seal plain n k, Tcp.incrNonce n).
Proof.
  intros Hl. unfold encodePacket, MaxPacketSize in *.
  destruct (zlen plain >? 2048) eqn:E; zbool; [lia|].
  unfold encryptDataSymmetric. rewrite copy_into_make.
  assert (zlen (box_seal plain n k) = zlen plain + 16) as ->.
  { unfold zlen. rewrite seal_length. unfold Overhead. lia. }
  pose proof (zlen_nonneg plain).
  unfold u16. by rewrite wrap_u_small by lia.
Qed.

Lemma decodePacket_seal k n plain :
  decodePacket k n (box_seal plain n k) = Ret (plain, Tcp.incrNonce n).
Proof.
  unfold decodePacket, decryptDataSymmetric.
  rewrite bool_decide_false by (rewrite seal_length; unfold MacSize, Overhead; lia).
  by rewrite open_seal.
Qed.

End FramingFacts.

Lemma encodePacket_nonce `{NaclBox} k n p pkt n' :
  encodePacket k n p = Ret (pkt, n') → n' = Tcp.incrNonce n.
Proof. unfold encodePacket. case_match; congruence. Qed.

Lemma decodePacket_nonce `{NaclBox} k n c p n' :
  decodePacket k n c = Ret (p, n') → n' = Tcp.incrNonce n.
Proof. unfold decodePacket. repeat case_match; congruence. Qed.

Lemma ReadPacket_frame c rest r :
  zlen c ≤ MaxPacketSize → pending r = be_bytes 2 (zlen c) ++ c ++ rest →
  ∃ r', ReadPacket r = (Ret c, r') ∧ pending r' = rest ∧ rd_err r' = rd_err r.
Proof.
  intros Hc Hp. unfold MaxPacketSize in *.
  destruct (ReadFull_app 2 r _ _ Hp (length_be_bytes _ _)) as (r1 & E1 & Hp1 & He1).
  destruct (ReadFull_app (length c) r1 c rest Hp1 eq_refl) as (r2 & E2 & Hp2 & He2).
  exists r2. split; [|split; [done|congruence]].
  unfold ReadPacket. unfold mbind at 1, stm_bind, stm_wrap. rewrite E1.
  cbn [map_err]. rewrite be_val_be_bytes, Z.mod_small
    by (pose proof (zlen_nonneg c); lia).
  unfold MaxPacketSize. destruct (zlen c >? 2048) eqn:E; zbool; [lia|].
  unfold mbind, stm_bind. unfold zlen. rewrite Nat2Z.id, E2. cbn [map_err].
  unfold mret, stm_ret. by rewrite copy_into_make.
Qed.

Lemma ReadPacket_too_large z rest r :
  MaxPacketSize < z < 65536 → pending r = be_bytes 2 z ++ rest →
  ∃ r', ReadPacket r = (Fail ErrPacketTooLarge, r').
Proof.
  intros Hz Hp. unfold MaxPacketSize in *.
  destruct (ReadFull_app 2 r _ _ Hp (length_be_bytes _ _)) as (r1 & E1 & _ & _).
  exists r1. unfold ReadPacket, mbind, stm_bind, stm_wrap. rewrite E1. cbn [map_err].
  rewrite be_val_be_bytes, Z.mod_small by lia. unfold MaxPacketSize.
  destruct (z >? 2048) eqn:E; zbool; [done|lia].
Qed.

(** ** Streams of packets *)

Section Streams.
Context `{NaclBox}.

(** The packets of one direction of a connection: the sender frames the
    plaintexts in order under its nonce counter ... *)
Fixpoint encodeAll (k n : bytes) (plains : list bytes) : outcome packet_err (bytes * bytes) :=
  match plains with
  | [] => Ret ([], n)
  | p :: ps =>
      '(pkt, n1) ← encodePacket k n p;
      '(wire, n2) ← encodeAll k n1 ps;
      Ret (pkt ++ wire, n2)
  end.

(** ... and the receiver reads and decrypts [count] packets under its own. *)
Fixpoint decodeAll (k n : bytes) (count : nat) : stm reader packet_err (list bytes * bytes) :=
  match count with
  | O => mret ([], n)
  | S c =>
      cipher ← ReadPacket;
      '(p, n1) ← stm_lift (decodePacket k n cipher);
      '(ps, n2) ← decodeAll k n1 c;
      mret (p :: ps, n2)
  end.

End Streams.

(** The largest plaintext whose packet [ReadPacket] accepts. *)
Definition MaxPlainSize : Z := MaxPacketSize - Z.of_nat MacSize.

Section StreamFacts.
Context `{NaclBoxLaws}.

Lemma encodeAll_cons k n p ps wire n2 :
  zlen p ≤ MaxPlainSize →
  encodeAll k (Tcp.incrNonce n) ps = Ret (wire, n2) →
  encodeAll k n (p :: ps) =
    Ret (be_bytes 2 (zlen p + 16) ++ box_seal p n k ++ wire, n2).
Proof.
  intros Hp E. cbn [encodeAll]. unfold MaxPlainSize, MaxPacketSize, MacSize in *.
  rewrite encodePacket_ok by (unfold MaxPacketSize; lia).
  cbn [mbind outcome_bind]. rewrite E. cbn [mbind outcome_bind].
  by rewrite <- app_assoc.
Qed.

Lemma decodeAll_cons k n p c rest r :
  zlen p ≤ MaxPlainSize →
  pending r = be_bytes 2 (zlen p + 16) ++ box_seal p n k ++ rest →
  ∃ r1, pending r1 = rest ∧
    decodeAll k n (S c) r =
      ('(ps, n2) ← decodeAll k (Tcp.incrNonce n) c; mret (p :: ps, n2)) r1.
Proof.
  intros Hp Hr. unfold MaxPlainSize, MaxPacketSize, MacSize in *.
  assert (zlen (box_seal p n k) = zlen p + 16) as Hz.
  { unfold zlen. rewrite seal_length. unfold Overhead. lia. }
  rewrite <- Hz in Hr.
  destruct (ReadPacket_frame (box_seal p n k) rest r) as (r1 & E1 & Hr1 & _);
    [unfold MaxPacketSize; lia|done|].
  exists r1. split; [done|]. cbn [decodeAll].
  rewrite (stm_bind_ret _ _ _ _ _ E1).
  rewrite (stm_bind_ret _ _ r1 (p, Tcp.incrNonce n) r1); [done|].
  unfold stm_lift. by rewrite decodePacket_seal.
Qed.

Lemma encode_decode_all k n plains :
  Forall (fun p => zlen p ≤ MaxPlainSize) plains →
  ∃ wire, encodeAll k n plains = Ret (wire, Nat.iter (length plains) Tcp.incrNonce n) ∧
    ∀ r rest, pending r = wire ++ rest →
      ∃ r', decodeAll k n (length plains) r =
        (Ret (plains, Nat.iter (length plains) Tcp.incrNonce n), r') ∧ pending r' = rest.
Proof.
  intros Hall. revert n. induction Hall as [|p ps Hp Hps IH]; intros n.
  { exists []. split; [done|]. intros r rest Hr. exists r. split; [done|]. exact Hr. }
  destruct (IH (Tcp.incrNonce n)) as (wire & Henc & Hdec).
  rewrite <- !Nat.iter_succ_r in *. cbn [length].
  eexists. split; [by apply encodeAll_cons|].
  intros r rest Hr. rewrite <- !app_assoc in Hr.
  destruct (decodeAll_cons k n p (length ps) (wire ++ rest) r Hp Hr) as (r1 & Hr1 & ->).
  destruct (Hdec r1 rest Hr1) as (r' & E & Hr').
  exists r'. split; [|done].
  rewrite (stm_bind_ret _ _ _ _ _ E). done.
Qed.

End StreamFacts.

(** Which of the receiver's parsers accept a plaintext. *)
Definition accepted_by (plain : bytes) : list bool :=
  [bool_decide (is_Some (parseRoutingResponse plain));
   bool_decide (is_Some (parseConnNotification plain));
   bool_decide (is_Some (parseDisconnNotification plain));
   bool_decide (is_Some (parsePing plain));
   bool_decide (is_Some (parsePong plain));
   bool_decide (is_Some (parseOOBRecv plain));
   bool_decide (is_Some (parseOnionResponse plain));
   bool_decide (is_Some (parseDataPacket plain))].

Definition count_true (l : list bool) : nat := length (filter (fun b => b = true) l).

Lemma has_tag_false n t b (l : bytes) :
  bz b ≠ t → has_tag n t (b :: l) = false.
Proof.
  intros Hb. unfold has_tag. apply Z.eqb_neq in Hb. rewrite Hb. apply andb_false_r.
Qed.

(** Each parser on the packets of its builder. *)

Lemma u8_shift connID :
  0 ≤ connID < NumClientConnections →
  u8 (connID + NumReservedPorts) = connID + NumReservedPorts.
Proof.
  unfold NumClientConnections, NumReservedPorts. intros. apply wrap_u_small. lia.
Qed.

Lemma routing_response_rt connID pk :
  length pk = PublicKeySize → 0 ≤ connID < NumClientConnections →
  ∃ p, buildRoutingResponse connID pk = Ret p ∧
       parseRoutingResponse p = Some (connID + NumReservedPorts, pk).
Proof.
  intros Hpk Hc. eexists. unfold buildRoutingResponse.
  rewrite slice_to_all by done. split; [reflexivity|].
  rewrite copy_into_make_n, u8_shift by done. unfold parseRoutingResponse.
  rewrite has_tag_cons by done. cbn [length]. rewrite Hpk.
  rewrite bool_decide_true by (unfold PublicKeySize; lia).
  cbn [andb Z.eqb Pos.eqb PacketRoutingResponse drop]. rewrite drop_0, take_ge by lia.
  unfold NumClientConnections, NumReservedPorts in *.
  cbn -[bz zb]. by rewrite bz_zb_small by lia.
Qed.

Lemma conn_notification_rt connID :
  0 ≤ connID < 256 →
  parseConnNotification (buildConnNotification connID) = Some connID.
Proof.
  intros. unfold parseConnNotification, buildConnNotification.
  rewrite has_tag_cons by done. cbn -[bz zb]. by rewrite bz_zb_small.
Qed.

Lemma disconn_notification_rt connID :
  0 ≤ connID < 256 →
  parseDisconnNotification (buildDisconnNotification connID) = Some connID.
Proof.
  intros. unfold parseDisconnNotification, buildDisconnNotification.
  rewrite has_tag_cons by done. cbn -[bz zb]. by rewrite bz_zb_small.
Qed.

Lemma ping_rt id : 0 ≤ id < 2 ^ 64 → parsePing (buildPing id) = Some id.
Proof.
  intros. unfold parsePing, buildPing. rewrite has_tag_cons, length_be_bytes by done.
  cbn -[be_bytes be_val take]. by rewrite drop_0, be_val_be_bytes_8.
Qed.

Lemma pong_rt id : 0 ≤ id < 2 ^ 64 → parsePong (buildPong id) = Some id.
Proof.
  intros. unfold parsePong, buildPong. rewrite has_tag_cons, length_be_bytes by done.
  cbn -[be_bytes be_val take]. by rewrite drop_0, be_val_be_bytes_8.
Qed.

Lemma oob_recv_rt pk data :
  length pk = PublicKeySize →
  ∃ p, buildOOBRecv pk data = Ret p ∧ parseOOBRecv p = Some (pk, data).
Proof.
  intros Hpk. eexists. unfold buildOOBRecv. rewrite slice_to_all by done.
  split; [reflexivity|].
  rewrite copy_into_make, copy_into_make_n by done. unfold parseOOBRecv.
  rewrite has_tag_cons by done.
  rewrite bool_decide_true by (rewrite length_app, Hpk; lia).
  cbn [andb Z.eqb Pos.eqb PacketOOBRecv Nat.add drop].
  by rewrite drop_0, take_app_exact, drop_app_exact by done.
Qed.

Lemma onion_response_rt data : parseOnionResponse (buildOnionResponse data) = Some data.
Proof.
  unfold parseOnionResponse, buildOnionResponse. rewrite copy_into_make.
  rewrite has_tag_cons by done. rewrite bool_decide_true by lia.
  cbn [andb Z.eqb Pos.eqb PacketOnionResponse drop]. by rewrite drop_0.
Qed.

Lemma data_packet_rt connID data :
  0 ≤ connID < NumClientConnections →
  ∃ p, buildDataPacket connID data = Ret p ∧ isDataPacket p = true ∧
       parseDataPacket p = Some (connID, data).
Proof.
  intros Hc. eexists. unfold buildDataPacket.
  destruct (connID >=? NumClientConnections) eqn:E; zbool; [lia|]. split; [reflexivity|].
  rewrite u8_shift by done. unfold isDataPacket, parseDataPacket.
  unfold NumClientConnections, NumReservedPorts in *.
  rewrite bz_zb_small, copy_into_make by lia.
  destruct (connID + 16 >=? 16) eqn:E1; destruct (connID + 16 <? 16) eqn:E2;
    zbool; try lia. split; [done|].
  replace (connID + 16 - 16) with connID by lia. cbn [drop].
  unfold u8. by rewrite wrap_u_small, drop_0 by lia.
Qed.

(** ** Properties *)

(** Every parser of the client inverts the builder of its packet kind: the
    parsed fields are the built ones.  A routing response carries the
    connection id shifted by the 16 reserved ports (modulo 256), which
    [parseRoutingResponse] leaves shifted, while a data packet's id comes back
    unshifted; ids of data packets are below [NumClientConnections]. *)
Theorem packet_roundtrip (pk data : bytes) (connID id : Z)
    (Hpk : length pk = PublicKeySize) (Hid : 0 ≤ id < 2 ^ 64)
    (Hc : 0 ≤ connID < NumClientConnections) :
  (∃ p, buildRoutingResponse connID pk = Ret p ∧
        parseRoutingResponse p = Some (connID + NumReservedPorts, pk)) ∧
  parseConnNotification (buildConnNotification connID) = Some connID ∧
  parseDisconnNotification (buildDisconnNotification connID) = Some connID ∧
  parsePing (buildPing id) = Some id ∧
  parsePong (buildPong id) = Some id ∧
  (∃ p, buildOOBRecv pk data = Ret p ∧ parseOOBRecv p = Some (pk, data)) ∧
  parseOnionResponse (buildOnionResponse data) = Some data ∧
  (∃ p, buildDataPacket connID data = Ret p ∧ isDataPacket p = true ∧
        parseDataPacket p = Some (connID, data)).
Proof.
  assert (0 ≤ connID < 256) by (unfold NumClientConnections, NumReservedPorts in Hc; lia).
  split_and!; auto using routing_response_rt, conn_notification_rt,
    disconn_notification_rt, ping_rt, pong_rt, oob_recv_rt, onion_response_rt, data_packet_rt.
Qed.

Lemma packet_roundtrip_witness :
  parsePing (buildPing 258) = Some 258 ∧
  ∃ p, buildDataPacket 239 (str "hi") = Ret p ∧ isDataPacket p = true ∧
       parseDataPacket p = Some (239, str "hi").
Proof.
  destruct (packet_roundtrip (replicate 32 x07) (str "hi") 239 258) as
    (_ & _ & _ & Hp & _ & _ & _ & Hd); [reflexivity|lia|unfold NumClientConnections, NumReservedPorts; lia|].
  exact (conj Hp Hd).
Defined.

(** The packet kinds do not overlap: whatever the plaintext, at most one of
    the eight receive-side parsers accepts it. *)
Theorem parsers_disjoint (plain : bytes) : (count_true (accepted_by plain) ≤ 1)%nat.
Proof.
  destruct plain as [|b l]; [vm_compute; lia|].
  unfold accepted_by, parseRoutingResponse, parseConnNotification,
    parseDisconnNotification, parsePing, parsePong, parseOOBRecv,
    parseOnionResponse, parseDataPacket.
  assert (bz b < 16 ∧ (bz b = 1 ∨ bz b = 2 ∨ bz b = 3 ∨ bz b = 4 ∨ bz b = 5 ∨ bz b = 7 ∨
     bz b = 9) ∨ bz b < 16 ∧ bz b ≠ 1 ∧ bz b ≠ 2 ∧ bz b ≠ 3 ∧ bz b ≠ 4 ∧ bz b ≠ 5 ∧
     bz b ≠ 7 ∧ bz b ≠ 9 ∨ 16 ≤ bz b) as Hcase by lia.
  unfold NumReservedPorts.
  destruct Hcase as [[Hl Hb]|Hb].
  - destruct (bz b <? 16) eqn:E; zbool; [|lia].
    destruct Hb as [Hb|[Hb|[Hb|[Hb|[Hb|[Hb|Hb]]]]]];
      rewrite ?(has_tag_false _ PacketRoutingResponse), ?(has_tag_false _ PacketConnectionNotification),
        ?(has_tag_false _ PacketDisconnectNotification), ?(has_tag_false _ PacketPing),
        ?(has_tag_false _ PacketPong), ?(has_tag_false _ PacketOOBRecv),
        ?(has_tag_false _ PacketOnionResponse) by (rewrite Hb; done);
      case_match; vm_compute; lia.
  - rewrite !has_tag_false by (unfold PacketRoutingResponse, PacketConnectionNotification,
      PacketDisconnectNotification, PacketPing, PacketPong, PacketOOBRecv, PacketOnionResponse; lia).
    case_match; vm_compute; lia.
Qed.

(** C24: what one end sends is what the other receives: the packets of a
    sequence of plaintexts of at most 2032 bytes, written one after another
    and cut into arbitrary chunks by the network, are read back as exactly
    those plaintexts in order, with sender and receiver at the same nonce
    afterwards and nothing of the following bytes consumed. *)
Theorem packet_stream_roundtrip `{NaclBoxLaws} (k n : bytes) (plains : list bytes)
    (Hall : Forall (fun p => zlen p ≤ MaxPlainSize) plains) :
  ∃ wire n', encodeAll k n plains = Ret (wire, n') ∧
    n' = Nat.iter (length plains) Tcp.incrNonce n ∧
    ∀ r rest, pending r = wire ++ rest →
      ∃ r', decodeAll k n (length plains) r = (Ret (plains, n'), r') ∧ pending r' = rest.
Proof.
  destruct (encode_decode_all k n plains Hall) as (wire & He & Hd). eauto.
Qed.

Lemma packet_stream_roundtrip_witness :
  ∃ wire n', @encodeAll ToyBox.toy_box (replicate 32 x01) (replicate 24 xff)
      [str "ping"; []; str "pong"] = Ret (wire, n') ∧
    n' = Nat.iter 3 Tcp.incrNonce (replicate 24 xff) ∧
    ∀ r rest, pending r = wire ++ rest →
      ∃ r', @decodeAll ToyBox.toy_box (replicate 32 x01) (replicate 24 xff) 3 r =
        (Ret ([str "ping"; []; str "pong"], n'), r') ∧ pending r' = rest.
Proof.
  apply (@packet_stream_roundtrip ToyBox.toy_box ToyBox.toy_box_laws).
  repeat constructor; vm_compute; discriminate.
Defined.

(** The framing does not round-trip at its upper end: [encodePacket]
    accepts a plaintext of 2033 to 2048 bytes, but the packet it builds
    announces more than [MaxPacketSize] bytes and [ReadPacket] refuses it. *)
Theorem oversized_plain_unreadable `{NaclBoxLaws} (k n plain : bytes)
    (Hlo : MaxPlainSize < zlen plain) (Hhi : zlen plain ≤ MaxPacketSize) :
  ∃ pkt n', encodePacket k n plain = Ret (pkt, n') ∧
    ∀ r rest, pending r = pkt ++ rest →
      ∃ r', ReadPacket r = (Fail ErrPacketTooLarge, r').
Proof.
  unfold MaxPlainSize, MacSize in Hlo.
  eexists _, _. split; [by apply encodePacket_ok|].
  intros r rest Hr. rewrite <- app_assoc in Hr.
  unfold MaxPacketSize in *.
  eapply ReadPacket_too_large; [unfold MaxPacketSize|exact Hr]. lia.
Qed.

Lemma oversized_plain_unreadable_witness :
  ∃ pkt n', @encodePacket ToyBox.toy_box [] [] (replicate 2040 x00) = Ret (pkt, n') ∧
    ∀ r rest, pending r = pkt ++ rest →
      ∃ r', ReadPacket r = (Fail ErrPacketTooLarge, r').
Proof.
  apply (@oversized_plain_unreadable ToyBox.toy_box ToyBox.toy_box_laws).
  - vm_compute. reflexivity.
  - vm_compute. discriminate.
Defined.
