(* ===== verification/TcpHandshake.v ===== *)
(** * The handshake of the Tox TCP relay protocol

    [Client] is go-tox-tcpclient/handshake.go, [Server] is
    [TCPSecureConn.HandleHandshake] of mintox/tcp_server.go and
    [MintoxClient] is [GenerateHandshake] / [HandleHandshake] of
    mintox/tcp_client.go.  Random draws (key pairs, nonces) are arguments.
    The theorems show that either client and the server end with the same
    session key and with crossed nonces, and which replies the client
    rejects. *)

From S2P Require Import Prelude Nonce GoIO Box TcpPacket.
Local Open Scope Z_scope.

Definition NonceSize : nat := 24.
Definition HandshakePlainSize : nat := PublicKeySize + NonceSize.
Definition ServerHandshakeSize : nat := NonceSize + HandshakePlainSize + MacSize.
Definition ClientHandshakeSize : nat := PublicKeySize + ServerHandshakeSize.

Inductive hs_err : Type :=
| ErrGenerateKey
| ErrHandshakeTooShort
| ErrHandshakeDecrypt.

#[export] Instance hs_err_eq_dec : EqDecision hs_err.
Proof. solve_decision. Defined.

(** A key pair as [box.GenerateKey] returns it. *)
Definition keypair `{NaclBox} (pk sk : bytes) : Prop :=
  length sk = KeySize ∧ pk = scalar_base sk.

(** ** go-tox-tcpclient/handshake.go *)

Module Client.
Section Defs.
Context `{NaclBox}.

Record handshakeState := HandshakeState {
  serverPK : bytes;
  selfPK : bytes;
  selfSK : bytes;
  initShr : bytes;
  tempSK : bytes;
  tempPK : bytes;
  initNonce : bytes;
  sentNonce : bytes;
}.

Definition newHandshakeState (spk pk sk : bytes) : handshakeState :=
  {| serverPK := spk; selfPK := pk; selfSK := sk;
     initShr := beforeNm spk sk;
     tempSK := make_bytes 32; tempPK := make_bytes 32;
     initNonce := make_bytes 24; sentNonce := make_bytes 24 |}.

(** [gen] is the result of [generateKeyPair()], [sn] and [inn] the two draws
    of [randomNonce()]. *)
Definition generateClientPacket (gen : option (bytes * bytes)) (sn inn : bytes)
    (hs : handshakeState) : outcome hs_err (bytes * handshakeState) :=
  match gen with
  | None => Fail ErrGenerateKey
  | Some (pk, sk) =>
      let hs1 := {| serverPK := serverPK hs; selfPK := selfPK hs; selfSK := selfSK hs;
                    initShr := initShr hs; tempSK := sk; tempPK := pk;
                    initNonce := inn; sentNonce := sn |} in
      let plain := copy_at PublicKeySize
                     (copy_into (make_bytes HandshakePlainSize) (tempPK hs1))
                     (sentNonce hs1) in
      let enc := encryptDataSymmetric (initShr hs1) inn plain in
      let pkt := copy_at 0 (make_bytes ClientHandshakeSize) (selfPK hs1) in
      let pkt := copy_at PublicKeySize pkt (initNonce hs1) in
      let pkt := copy_at (PublicKeySize + NonceSize) pkt enc in
      Ret (pkt, hs1)
  end.

(** Returns the session key and the server's nonce. *)
Definition handleServerResponse (hs : handshakeState) (resp : bytes)
    : outcome hs_err (bytes * bytes) :=
  if bool_decide (length resp < ServerHandshakeSize)%nat then Fail ErrHandshakeTooShort
  else
    tmpNonce ← slice_to resp NonceSize;
    enc ← slice resp NonceSize ServerHandshakeSize;
    match decryptDataSymmetric (initShr hs) tmpNonce enc with
    | None => Fail ErrHandshakeDecrypt
    | Some plain =>
        pk ← slice_to plain PublicKeySize;
        let servTempPK := copy_into (make_bytes PublicKeySize) pk in
        tl ← slice_from plain PublicKeySize;
        let recvNonce := copy_into (make_bytes 24) tl in
        Ret (beforeNm servTempPK (tempSK hs), recvNonce)
    end.

End Defs.
End Client.

(** ** mintox/tcp_server.go, [HandleHandshake] *)

(** The code prints an error and goes on with the value that came with it,
    which is empty when decryption fails. *)
Definition ErrPrint {E F} (m : outcome E bytes) : outcome F bytes :=
  match m with Ret a => Ret a | Fail _ => Ret [] | Panic => Panic end.

Module Server.
Section Defs.
Context `{NaclBox} `{Gopp}.

(** The fields of [TCPSecureConn] the handshake sets. *)
Record session := Session {
  Pubkey : bytes;
  Shrkey : bytes;
  RecvNonce : bytes;
  SentNonce : bytes;
}.

(** [Seckey] is the server's; [sn], [tn] are the draws of [CBRandomNonce] for
    [SentNonce] and [srvTmpNonce], [(tpk, tsk)] the one of [NewCBKeyPair].
    The result is the session and the bytes written to the socket. *)
Definition HandleHandshake (Seckey sn tn tpk tsk : bytes) (rdbuf : bytes)
    : outcome hs_err (session * bytes) :=
  a ← slice_to rdbuf Mintox.PUBLIC_KEY_SIZE;
  cliPubkey ← Mintox.NewCryptoKey a;
  cliTmpNonce ← slice rdbuf Mintox.PUBLIC_KEY_SIZE
                  (Mintox.PUBLIC_KEY_SIZE + Mintox.NONCE_SIZE);
  shrkey ← Mintox.CBBeforeNm2 cliPubkey Seckey;
  enc ← slice_from rdbuf (Mintox.PUBLIC_KEY_SIZE + Mintox.NONCE_SIZE);
  cliplnpkt ← ErrPrint (Mintox.DecryptDataSymmetric2 shrkey cliTmpNonce enc);
  b ← slice_to cliplnpkt Mintox.PUBLIC_KEY_SIZE;
  hstmppk ← Mintox.NewCryptoKey b;
  recvNonce ← slice cliplnpkt Mintox.PUBLIC_KEY_SIZE
                (Mintox.PUBLIC_KEY_SIZE + Mintox.NONCE_SIZE);
  sessionKey ← Mintox.CBBeforeNm2 hstmppk tsk;
  encpkt ← ErrPrint (Mintox.EncryptDataSymmetric2 shrkey tn (tpk ++ sn));
  Ret ({| Pubkey := cliPubkey; Shrkey := sessionKey;
          RecvNonce := recvNonce; SentNonce := sn |},
       tn ++ encpkt).

End Defs.
End Server.

(** ** mintox/tcp_client.go, [GenerateHandshake] and [HandleHandshake] *)

Module MintoxClient.
Section Defs.
Context `{NaclBox} `{Gopp}.

Record client := TCPClient {
  SelfPubkey : bytes;
  Shrkey : bytes;
  TempSeckey : bytes;
  SentNonce : bytes;
  RecvNonce : bytes;
  TempNonce : bytes;
}.

Definition GenerateHandshake (tpk tsk sn tn : bytes) (c : client)
    : outcome hs_err (bytes * client) :=
  let c1 := {| SelfPubkey := SelfPubkey c; Shrkey := Shrkey c; TempSeckey := tsk;
               SentNonce := sn; RecvNonce := RecvNonce c; TempNonce := tn |} in
  let plain := tpk ++ SentNonce c1 in
  _ ← Assert (bool_decide (length plain = Mintox.PUBLIC_KEY_SIZE + Mintox.NONCE_SIZE)%nat);
  encrypted ← ErrPrint (Mintox.EncryptDataSymmetric2 (Shrkey c1) (TempNonce c1) plain);
  _ ← Assert (bool_decide (length encrypted =
                Mintox.PUBLIC_KEY_SIZE + Mintox.NONCE_SIZE + Mintox.MAC_SIZE)%nat);
  (* self decrypt *)
  let dec := Mintox.DecryptDataSymmetric2 (Shrkey c1) (TempNonce c1) encrypted in
  _ ← match dec with Panic => Panic | _ => Assert (is_ret dec) end;
  let LastPacket := SelfPubkey c1 ++ TempNonce c1 ++ encrypted in
  let wantlen := (Mintox.PUBLIC_KEY_SIZE + Mintox.NONCE_SIZE + Mintox.MAC_SIZE
                  + length plain)%nat in
  _ ← Assert (bool_decide (length LastPacket = wantlen));
  Ret (LastPacket, c1).

Definition HandleHandshake (rdbuf : bytes) (c : client) : outcome hs_err client :=
  temp_nonce ← slice_to rdbuf Mintox.NONCE_SIZE;
  encrypted_serv ← slice_from rdbuf Mintox.NONCE_SIZE;
  plain_resp ← ErrPrint (Mintox.DecryptDataSymmetric2 (Shrkey c) temp_nonce encrypted_serv);
  a ← slice_to plain_resp Mintox.PUBLIC_KEY_SIZE;
  temp_pubkey ← Mintox.NewCryptoKey a;
  recvNonce ← slice_from plain_resp Mintox.PUBLIC_KEY_SIZE;
  shrkey ← Mintox.CBBeforeNm2 temp_pubkey (TempSeckey c);
  Ret {| SelfPubkey := SelfPubkey c; Shrkey := shrkey; TempSeckey := [];
         SentNonce := SentNonce c; RecvNonce := recvNonce; TempNonce := TempNonce c |}.

End Defs.
End MintoxClient.

(** ** Lemmas *)

Section Facts.
Context `{NaclBoxLaws} `{GoppLaws}.

Lemma slice_app3 {E} (a b c : bytes) na nb :
  length a = na → length b = nb →
  @slice E (a ++ b ++ c) na (na + nb) = Ret b.
Proof.
  intros <- <-. rewrite slice_ok by (rewrite !length_app; lia).
  rewrite drop_app_length. by rewrite take_app_exact by lia.
Qed.

Lemma slice_to_app {E} (a b : bytes) n :
  length a = n → @slice_to E (a ++ b) n = Ret a.
Proof.
  intros <-. rewrite slice_to_ok by (rewrite length_app; lia). by rewrite take_app_length.
Qed.

Lemma slice_from_app {E} (a b : bytes) n :
  length a = n → @slice_from E (a ++ b) n = Ret b.
Proof.
  intros <-. rewrite slice_from_ok by (rewrite length_app; lia). by rewrite drop_app_length.
Qed.

(** What a client must have sent: its long-term key, a nonce and, under the
    key it shares with the server, its temporary key and its first nonce. *)
Definition client_hello (pk shr inn tpk sn : bytes) : bytes :=
  pk ++ inn ++ box_seal (tpk ++ sn) inn shr.

(** The server's answer to such a packet. *)
Lemma server_answers ssk csk ctsk ctpk csn cin sn tn stpk stsk :
  length ssk = KeySize → length csk = KeySize →
  length ctsk = KeySize → ctpk = scalar_base ctsk → length stsk = KeySize →
  stpk = scalar_base stsk →
  length csn = NonceSize → length cin = NonceSize →
  Server.HandleHandshake ssk sn tn stpk stsk
    (client_hello (scalar_base csk) (box_precompute (scalar_base ssk) csk) cin ctpk csn) =
  Ret ({| Server.Pubkey := scalar_base csk;
          Server.Shrkey := box_precompute stpk ctsk;
          Server.RecvNonce := csn; Server.SentNonce := sn |},
       tn ++ box_seal (stpk ++ sn) tn (box_precompute (scalar_base ssk) csk)).
Proof.
  intros Hs Hc Ht -> Hst -> Hn Hi. unfold Server.HandleHandshake, client_hello.
  pose proof (base_length csk Hc) as Lc. pose proof (base_length ctsk Ht) as Lt.
  unfold KeySize, NonceSize in *.
  rewrite slice_to_app by done. cbn [mbind outcome_bind].
  rewrite Mintox.NewCryptoKey_ok by done. cbn [mbind outcome_bind].
  rewrite slice_app3 by done. cbn [mbind outcome_bind].
  rewrite Mintox.CBBeforeNm2_ok by done. rewrite (precompute_comm csk ssk) by done.
  cbn [mbind outcome_bind]. rewrite app_assoc, slice_from_app by (rewrite length_app, Lc, Hi; done).
  cbn [mbind outcome_bind].
  rewrite (Mintox.DecryptDataSymmetric2_ok _ _ _ _ (open_seal _ _ _)).
  cbn [mbind outcome_bind ErrPrint]. rewrite slice_to_app by done.
  cbn [mbind outcome_bind]. rewrite Mintox.NewCryptoKey_ok by done.
  cbn [mbind outcome_bind].
  rewrite <- (app_nil_r (scalar_base ctsk ++ csn)), <- app_assoc, slice_app3 by done.
  cbn [mbind outcome_bind]. rewrite Mintox.CBBeforeNm2_ok by done.
  cbn [mbind outcome_bind]. rewrite Mintox.EncryptDataSymmetric2_ok.
  cbn [mbind outcome_bind ErrPrint]. by rewrite (precompute_comm ctsk stsk).
Qed.

(** The client's packet, computed. *)
Lemma generateClientPacket_eq hs pk sk sn inn :
  length (Client.selfPK hs) = KeySize → length pk = KeySize →
  length sn = NonceSize → length inn = NonceSize →
  Client.generateClientPacket (Some (pk, sk)) sn inn hs =
    Ret (client_hello (Client.selfPK hs) (Client.initShr hs) inn pk sn,
         {| Client.serverPK := Client.serverPK hs; Client.selfPK := Client.selfPK hs;
            Client.selfSK := Client.selfSK hs; Client.initShr := Client.initShr hs;
            Client.tempSK := sk; Client.tempPK := pk;
            Client.initNonce := inn; Client.sentNonce := sn |}).
Proof.
  intros Hp Hk Hs Hi. unfold KeySize, NonceSize in *.
  unfold Client.generateClientPacket, encryptDataSymmetric, client_hello.
  cbn [Client.tempPK Client.sentNonce Client.selfPK Client.initNonce Client.initShr].
  replace (copy_at PublicKeySize _ sn) with (pk ++ sn); cycle 1.
  { rewrite copy_into_short, drop_make_bytes by (rewrite length_make_bytes, Hk; cbn; lia).
    rewrite copy_at_make, Hk, Hs by (rewrite ?Hk, ?Hs; vm_compute; lia).
    change (make_bytes _) with (@nil byte). by rewrite app_nil_r. }
  set (enc := box_seal _ _ _).
  assert (length enc = 72%nat) as He
    by (subst enc; rewrite seal_length; len; unfold Overhead; lia).
  change (make_bytes ClientHandshakeSize) with ([] ++ make_bytes ClientHandshakeSize).
  rewrite copy_at_make by (try done; rewrite Hp; cbn; lia). cbn [app].
  rewrite Hp, copy_at_make by (try done; rewrite Hi; cbn; lia).
  rewrite Hi, app_assoc, copy_at_make by (rewrite ?He, ?length_app, ?Hp, ?Hi; vm_compute; lia).
  rewrite He. change (make_bytes _) with (@nil byte) at 1.
  by rewrite app_nil_r, <- app_assoc.
Qed.

(** The client on a reply under the shared key. *)
Lemma handleServerResponse_eq hs spk sn tn :
  length spk = KeySize → length sn = NonceSize → length tn = NonceSize →
  Client.handleServerResponse hs (tn ++ box_seal (spk ++ sn) tn (Client.initShr hs)) =
    Ret (box_precompute spk (Client.tempSK hs), sn).
Proof.
  intros Hk Hs Ht. unfold KeySize, NonceSize in *.
  unfold Client.handleServerResponse, decryptDataSymmetric, beforeNm.
  set (enc := box_seal _ _ _).
  assert (length enc = 72%nat) as He
    by (subst enc; rewrite seal_length; len; unfold Overhead; lia).
  rewrite bool_decide_false by (rewrite length_app, He, Ht; vm_compute; lia).
  rewrite slice_to_app by done. cbn [mbind outcome_bind].
  rewrite <- (app_nil_r (tn ++ enc)), <- app_assoc.
  change ServerHandshakeSize with (NonceSize + 72)%nat.
  rewrite slice_app3 by done. cbn [mbind outcome_bind].
  subst enc. rewrite open_seal, slice_to_app by done. cbn [mbind outcome_bind].
  rewrite slice_from_app by done. cbn [mbind outcome_bind].
  rewrite !copy_into_make_n by done. done.
Qed.

End Facts.

Section MintoxFacts.
Context `{NaclBoxLaws} `{GoppLaws}.

Lemma GenerateHandshake_eq c tpk tsk sn tn :
  length (MintoxClient.SelfPubkey c) = KeySize → length tpk = KeySize →
  length sn = NonceSize → length tn = NonceSize →
  MintoxClient.GenerateHandshake tpk tsk sn tn c =
    Ret (client_hello (MintoxClient.SelfPubkey c) (MintoxClient.Shrkey c) tn tpk sn,
         {| MintoxClient.SelfPubkey := MintoxClient.SelfPubkey c;
            MintoxClient.Shrkey := MintoxClient.Shrkey c; MintoxClient.TempSeckey := tsk;
            MintoxClient.SentNonce := sn; MintoxClient.RecvNonce := MintoxClient.RecvNonce c;
            MintoxClient.TempNonce := tn |}).
Proof.
  intros Hp Ht Hs Hn. unfold KeySize, NonceSize in *.
  unfold MintoxClient.GenerateHandshake, client_hello. cbn [MintoxClient.SelfPubkey
    MintoxClient.Shrkey MintoxClient.SentNonce MintoxClient.TempNonce].
  rewrite bind_Assert by (apply bool_decide_true; rewrite length_app, Ht, Hs; done).
  rewrite Mintox.EncryptDataSymmetric2_ok. cbn [ErrPrint]. rewrite bind_ret.
  rewrite bind_Assert
    by (apply bool_decide_true; rewrite seal_length, length_app, Ht, Hs; done).
  rewrite (Mintox.DecryptDataSymmetric2_ok _ _ _ _ (open_seal _ _ _)).
  cbn [is_ret]. rewrite bind_Assert by done.
  rewrite bind_Assert; [done|]. apply bool_decide_true.
  rewrite !length_app, seal_length, length_app, Hp, Ht, Hs, Hn. done.
Qed.

Lemma MintoxHandleHandshake_eq c spk sn tn :
  length spk = KeySize → length sn = NonceSize → length tn = NonceSize →
  length (MintoxClient.TempSeckey c) = KeySize →
  MintoxClient.HandleHandshake
    (tn ++ box_seal (spk ++ sn) tn (MintoxClient.Shrkey c)) c =
    Ret {| MintoxClient.SelfPubkey := MintoxClient.SelfPubkey c;
           MintoxClient.Shrkey := box_precompute spk (MintoxClient.TempSeckey c);
           MintoxClient.TempSeckey := []; MintoxClient.SentNonce := MintoxClient.SentNonce c;
           MintoxClient.RecvNonce := sn; MintoxClient.TempNonce := MintoxClient.TempNonce c |}.
Proof.
  intros Hk Hs Ht Htk. unfold KeySize, NonceSize in *.
  unfold MintoxClient.HandleHandshake.
  rewrite slice_to_app by done. cbn [mbind outcome_bind].
  rewrite slice_from_app by done. cbn [mbind outcome_bind].
  rewrite (Mintox.DecryptDataSymmetric2_ok _ _ _ _ (open_seal _ _ _)).
  cbn [mbind outcome_bind ErrPrint].
  rewrite slice_to_app by done. cbn [mbind outcome_bind].
  rewrite Mintox.NewCryptoKey_ok by done. cbn [mbind outcome_bind].
  rewrite slice_from_app by done. cbn [mbind outcome_bind].
  by rewrite Mintox.CBBeforeNm2_ok.
Qed.

End MintoxFacts.

(** ** Properties *)

(** C1: the go-tox-tcpclient handshake and the mintox server agree.  The server
    accepts the packet [generateClientPacket] makes and learns the client's
    long-term key; the client accepts the server's answer; both then hold the
    same session key, the server's receive nonce is the client's send nonce and
    the client's receive nonce is the server's send nonce. *)
Theorem handshake_agreement `{NaclBoxLaws} `{GoppLaws}
    (ssk csk tpk tsk csn cin ssn stn stpk stsk : bytes)
    (Hs : length ssk = KeySize) (Hc : length csk = KeySize)
    (Ht : keypair tpk tsk) (Hst : keypair stpk stsk)
    (Hcsn : length csn = NonceSize) (Hcin : length cin = NonceSize)
    (Hssn : length ssn = NonceSize) (Hstn : length stn = NonceSize) :
  ∃ pkt hs sess resp key,
    Client.generateClientPacket (Some (tpk, tsk)) csn cin
      (Client.newHandshakeState (scalar_base ssk) (scalar_base csk) csk) = Ret (pkt, hs) ∧
    length pkt = ClientHandshakeSize ∧
    Server.HandleHandshake ssk ssn stn stpk stsk pkt = Ret (sess, resp) ∧
    length resp = ServerHandshakeSize ∧
    Client.handleServerResponse hs resp = Ret (key, Server.SentNonce sess) ∧
    Server.Shrkey sess = key ∧
    Server.Pubkey sess = scalar_base csk ∧
    Server.RecvNonce sess = Client.sentNonce hs ∧ Client.sentNonce hs = csn.
Proof.
  destruct Ht as [Lt ->], Hst as [Lst ->].
  pose proof (base_length csk Hc) as Lc. pose proof (base_length tsk Lt) as Ltp.
  pose proof (base_length stsk Lst) as Lsp.
  eexists _, _, _, _, _. split_and!.
  - by apply generateClientPacket_eq.
  - unfold client_hello, KeySize, NonceSize in *. cbn [Client.selfPK Client.newHandshakeState].
    rewrite !length_app, seal_length, length_app, Lc, Hcin, Ltp, Hcsn. done.
  - by apply (server_answers ssk csk tsk).
  - unfold KeySize, NonceSize in *.
    rewrite !length_app, seal_length, length_app, Hstn, Lsp, Hssn. done.
  - by apply handleServerResponse_eq.
  - done.
  - done.
  - done.
  - done.
Qed.

Lemma handshake_agreement_witness :
  ∃ pkt hs sess resp key,
    @Client.generateClientPacket ToyBox.toy_box
      (Some (replicate 32 x03, replicate 32 x03)) (replicate 24 x04) (replicate 24 x05)
      (@Client.newHandshakeState ToyBox.toy_box (replicate 32 x01) (replicate 32 x02)
         (replicate 32 x02)) = Ret (pkt, hs) ∧
    length pkt = ClientHandshakeSize ∧
    @Server.HandleHandshake ToyBox.toy_box ToyBox.toy_gopp (replicate 32 x01)
      (replicate 24 x06) (replicate 24 x07) (replicate 32 x08) (replicate 32 x08) pkt
      = Ret (sess, resp) ∧
    length resp = ServerHandshakeSize ∧
    @Client.handleServerResponse ToyBox.toy_box hs resp = Ret (key, Server.SentNonce sess) ∧
    Server.Shrkey sess = key ∧ Server.Pubkey sess = replicate 32 x02 ∧
    Server.RecvNonce sess = Client.sentNonce hs ∧ Client.sentNonce hs = replicate 24 x04.
Proof.
  apply (@handshake_agreement ToyBox.toy_box ToyBox.toy_box_laws
           ToyBox.toy_gopp ToyBox.toy_gopp_laws);
    try reflexivity; split; reflexivity.
Defined.

(** The mintox client and server agree in the same way: the packet of
    [GenerateHandshake] passes all its own assertions, and after
    [HandleHandshake] the client has the server's session key, its send nonce
    as receive nonce, and no temporary secret key any more. *)
Theorem mintox_handshake_agreement `{NaclBoxLaws} `{GoppLaws}
    (ssk csk tpk tsk csn cin ssn stn stpk stsk : bytes) (c : MintoxClient.client)
    (Hs : length ssk = KeySize) (Hc : length csk = KeySize)
    (Hself : MintoxClient.SelfPubkey c = scalar_base csk)
    (Hshr : MintoxClient.Shrkey c = box_precompute (scalar_base ssk) csk)
    (Ht : keypair tpk tsk) (Hst : keypair stpk stsk)
    (Hcsn : length csn = NonceSize) (Hcin : length cin = NonceSize)
    (Hssn : length ssn = NonceSize) (Hstn : length stn = NonceSize) :
  ∃ pkt c1 sess resp c2,
    MintoxClient.GenerateHandshake tpk tsk csn cin c = Ret (pkt, c1) ∧
    Server.HandleHandshake ssk ssn stn stpk stsk pkt = Ret (sess, resp) ∧
    MintoxClient.HandleHandshake resp c1 = Ret c2 ∧
    MintoxClient.Shrkey c2 = Server.Shrkey sess ∧
    MintoxClient.RecvNonce c2 = Server.SentNonce sess ∧
    MintoxClient.SentNonce c2 = Server.RecvNonce sess ∧
    MintoxClient.TempSeckey c2 = [].
Proof.
  destruct Ht as [Lt ->], Hst as [Lst ->].
  pose proof (base_length csk Hc) as Lc. pose proof (base_length tsk Lt) as Ltp.
  pose proof (base_length stsk Lst) as Lsp.
  eexists _, _, _, _, _. split_and!.
  - apply GenerateHandshake_eq; try done. by rewrite Hself.
  - rewrite Hself, Hshr. by apply (server_answers ssk csk tsk).
  - rewrite <- Hshr.
    match goal with |- MintoxClient.HandleHandshake _ ?c1 = _ =>
      by apply (MintoxHandleHandshake_eq c1) end.
  - done.
  - done.
  - done.
  - done.
Qed.

Lemma mintox_handshake_agreement_witness :
  ∃ pkt c1 sess resp c2,
    @MintoxClient.GenerateHandshake ToyBox.toy_box ToyBox.toy_gopp
      (replicate 32 x03) (replicate 32 x03) (replicate 24 x04) (replicate 24 x05)
      {| MintoxClient.SelfPubkey := replicate 32 x02; MintoxClient.Shrkey := replicate 32 x03;
         MintoxClient.TempSeckey := []; MintoxClient.SentNonce := [];
         MintoxClient.RecvNonce := []; MintoxClient.TempNonce := [] |} = Ret (pkt, c1) ∧
    @Server.HandleHandshake ToyBox.toy_box ToyBox.toy_gopp (replicate 32 x01)
      (replicate 24 x06) (replicate 24 x07) (replicate 32 x08) (replicate 32 x08) pkt
      = Ret (sess, resp) ∧
    @MintoxClient.HandleHandshake ToyBox.toy_box ToyBox.toy_gopp resp c1 = Ret c2 ∧
    MintoxClient.Shrkey c2 = Server.Shrkey sess ∧
    MintoxClient.RecvNonce c2 = Server.SentNonce sess ∧
    MintoxClient.SentNonce c2 = Server.RecvNonce sess ∧ MintoxClient.TempSeckey c2 = [].
Proof.
  apply (@mintox_handshake_agreement ToyBox.toy_box ToyBox.toy_box_laws
           ToyBox.toy_gopp ToyBox.toy_gopp_laws) with (csk := replicate 32 x02);
    try reflexivity; split; reflexivity.
Defined.

(** [handleServerResponse] never panics: a reply shorter than
    [ServerHandshakeSize] and a reply that does not open under the shared key
    are errors, and every other reply yields a 32-byte session key and a
    24-byte nonce. *)
Theorem handleServerResponse_total `{NaclBoxLaws} (hs : Client.handshakeState) (resp : bytes)
    (Hsk : length (Client.tempSK hs) = KeySize) :
  Client.handleServerResponse hs resp = Fail ErrHandshakeTooShort ∧
    (length resp < ServerHandshakeSize)%nat ∨
  Client.handleServerResponse hs resp = Fail ErrHandshakeDecrypt ∧
    box_open (take 72 (drop 24 resp)) (take 24 resp) (Client.initShr hs) = None ∨
  ∃ key n, Client.handleServerResponse hs resp = Ret (key, n) ∧
    length key = KeySize ∧ length n = NonceSize.
Proof.
  unfold Client.handleServerResponse, decryptDataSymmetric, beforeNm.
  case_bool_decide as Hlen; [by left|right].
  change ServerHandshakeSize with 96%nat in *. apply not_lt in Hlen.
  change NonceSize with 24%nat.
  rewrite slice_to_ok, bind_ret by lia. rewrite slice_ok, bind_ret by lia.
  change (96 - 24)%nat with 72%nat.
  destruct (box_open _ _ _) as [plain|] eqn:E; [right|by left].
  apply open_length in E. rewrite length_take, length_drop in E.
  change Overhead with 16%nat in E.
  assert (length plain = 56%nat) as Hp by lia.
  rewrite slice_to_ok by (rewrite Hp; vm_compute; lia). cbn [mbind outcome_bind].
  rewrite slice_from_ok by (rewrite Hp; vm_compute; lia). cbn [mbind outcome_bind].
  eexists _, _. split; [done|]. split.
  - apply precompute_length; [|done]. rewrite length_copy_into. apply length_make_bytes.
  - by rewrite length_copy_into, length_make_bytes.
Qed.

Lemma handleServerResponse_total_witness :
  let hs := @Client.newHandshakeState ToyBox.toy_box (replicate 32 x01) (replicate 32 x02)
              (replicate 32 x02) in
  @Client.handleServerResponse ToyBox.toy_box hs (replicate 96 x00) = Fail ErrHandshakeDecrypt.
Proof.
  intros hs.
  destruct (@handleServerResponse_total ToyBox.toy_box ToyBox.toy_box_laws hs
              (replicate 96 x00) eq_refl) as [[_ Hlt]|[[E _]|(key & n & E & _)]].
  - exfalso. revert Hlt. vm_compute. lia.
  - exact E.
  - exfalso. revert E. vm_compute. discriminate.
Defined.
