(* ===== verification/TcpClient.v ===== *)
(** * The TCP relay client (go-tox-tcpclient/tcpclient.go)

    The state of a [TCPClient], its API calls and the bodies of its three
    goroutines ([writeLoop], [readLoop], [pingLoop]).

    Concurrency: every field is read and written under [c.mu]; [sentNonce] is
    written only by the write loop and [recvNonce] only by the read loop once
    [Connect] has returned, so one iteration of a loop is one atomic step of
    the model and the interleavings of the goroutines and of the API calls are
    the sequences of steps of the relation [step].  A channel send that would
    block is the absence of a step ([None]).  When both cases of a [select] are
    ready the runtime picks one: the boolean argument [pick] says which.

    Callbacks that are set and bytes written to the socket are recorded, in
    order, in the field [trace]. *)

From S2P Require Import Prelude Nonce GoIO Box TcpPacket TcpHandshake.
Local Open Scope Z_scope.

(** ** Data *)

Inductive clientStatus : Type :=
| statusNoStatus | statusConnecting | statusUnconfirmed | statusConfirmed
| statusDisconnected.

#[export] Instance clientStatus_eq_dec : EqDecision clientStatus.
Proof. solve_decision. Defined.

(** [connFree = 0], [connOffline = 1], [connOnline = 2] *)
Inductive connStatus : Type := connFree | connOffline | connOnline.

#[export] Instance connStatus_eq_dec : EqDecision connStatus.
Proof. solve_decision. Defined.

Record connSlot := ConnSlot {
  slot_status : connStatus;
  slot_pubkey : bytes;
  slot_number : Z;
}.

Inductive event : Type :=
| EvWire (pkt : bytes)                          (* conn.Write(pkt) *)
| EvRoutingResponse (connID : Z) (pubkey : bytes)
| EvConnectionStatus (connID : Z) (online : bool)
| EvData (connID : Z) (data : bytes)
| EvOOBData (pubkey data : bytes)
| EvDisconnected.

(** Which callbacks are non-nil. *)
Record callbacks := Callbacks {
  OnRoutingResponse : bool;
  OnConnectionStatus : bool;
  OnData : bool;
  OnOOBData : bool;
  OnDisconnected : bool;
}.

Record tcpClient := TCPClient {
  serverPK : bytes;
  selfPK : bytes;
  selfSK : bytes;
  status : clientStatus;
  conn : option reader;        (* the socket; [None] is nil *)
  writeCh : list bytes;        (* oldest first *)
  doneCh : bool;               (* closed *)
  shrkey : bytes;
  sentNonce : bytes;
  recvNonce : bytes;
  pingID : Z;
  lastPinged : Z;              (* nanoseconds *)
  conns : list connSlot;
  cbs : callbacks;
  trace : list event;
}.

Definition writeChCap : nat := 64.
Definition second : Z := 1000000000.
Definition TCPPingFrequency : Z := 30.
Definition TCPPingTimeout : Z := 10.

Inductive client_err : Type :=
| ErrInvalidKey
| ErrPeerNotFound
| ErrPacket (e : packet_err)
| ErrHandshake (e : hs_err)
| ErrDial
| ErrWrite
| ErrRead (e : io_err).

#[export] Instance client_err_eq_dec : EqDecision client_err.
Proof. solve_decision. Defined.

(** *** Field updates *)

Definition with_status (s : clientStatus) (c : tcpClient) : tcpClient :=
  TCPClient (serverPK c) (selfPK c) (selfSK c) s (conn c) (writeCh c) (doneCh c)
    (shrkey c) (sentNonce c) (recvNonce c) (pingID c) (lastPinged c) (conns c) (cbs c) (trace c).
Definition with_conn (k : option reader) (c : tcpClient) : tcpClient :=
  TCPClient (serverPK c) (selfPK c) (selfSK c) (status c) k (writeCh c) (doneCh c)
    (shrkey c) (sentNonce c) (recvNonce c) (pingID c) (lastPinged c) (conns c) (cbs c) (trace c).
Definition with_writeCh (q : list bytes) (c : tcpClient) : tcpClient :=
  TCPClient (serverPK c) (selfPK c) (selfSK c) (status c) (conn c) q (doneCh c)
    (shrkey c) (sentNonce c) (recvNonce c) (pingID c) (lastPinged c) (conns c) (cbs c) (trace c).
Definition with_done (d : bool) (c : tcpClient) : tcpClient :=
  TCPClient (serverPK c) (selfPK c) (selfSK c) (status c) (conn c) (writeCh c) d
    (shrkey c) (sentNonce c) (recvNonce c) (pingID c) (lastPinged c) (conns c) (cbs c) (trace c).
Definition with_keys (k sn rn : bytes) (c : tcpClient) : tcpClient :=
  TCPClient (serverPK c) (selfPK c) (selfSK c) (status c) (conn c) (writeCh c) (doneCh c)
    k sn rn (pingID c) (lastPinged c) (conns c) (cbs c) (trace c).
Definition with_ping (id t : Z) (c : tcpClient) : tcpClient :=
  TCPClient (serverPK c) (selfPK c) (selfSK c) (status c) (conn c) (writeCh c) (doneCh c)
    (shrkey c) (sentNonce c) (recvNonce c) id t (conns c) (cbs c) (trace c).
Definition with_conns (l : list connSlot) (c : tcpClient) : tcpClient :=
  TCPClient (serverPK c) (selfPK c) (selfSK c) (status c) (conn c) (writeCh c) (doneCh c)
    (shrkey c) (sentNonce c) (recvNonce c) (pingID c) (lastPinged c) l (cbs c) (trace c).
Definition emit (on : bool) (e : event) (c : tcpClient) : tcpClient :=
  TCPClient (serverPK c) (selfPK c) (selfSK c) (status c) (conn c) (writeCh c) (doneCh c)
    (shrkey c) (sentNonce c) (recvNonce c) (pingID c) (lastPinged c) (conns c) (cbs c)
    (if on then trace c ++ [e] else trace c).

(** ** Operations *)

Section Ops.
Context `{NaclBox}.

Definition emptySlot : connSlot := ConnSlot connFree (make_bytes PublicKeySize) 0.

Definition emptyConns : list connSlot :=
  replicate (Z.to_nat NumClientConnections) emptySlot.

(** [New]: a key that is not hexadecimal panics. *)
Definition New (spk ssk : bytes) (on : callbacks) : outcome client_err tcpClient :=
  match hexDecode spk with
  | None => Panic
  | Some b1 =>
      match hexDecode ssk with
      | None => Panic
      | Some b2 =>
          let server := copy_into (make_bytes 32) b1 in
          let sk := copy_into (make_bytes 32) b2 in
          Ret (TCPClient server (scalar_base sk) sk statusNoStatus None [] false
                 (make_bytes 32) (make_bytes 24) (make_bytes 24) 0 0
                 emptyConns on [])
      end
  end.

Definition setStatus (s : clientStatus) (c : tcpClient) : tcpClient := with_status s c.

Definition IsConnected (c : tcpClient) : bool := bool_decide (status c = statusConfirmed).

(** [select { case c.writeCh <- plain: case <-c.doneCh: }]; [pick] chooses the
    send when both cases are ready. *)
Definition sendPlaintext (pick : bool) (plain : bytes) (c : tcpClient) : option tcpClient :=
  let room := bool_decide (length (writeCh c) < writeChCap)%nat in
  if room && (negb (doneCh c) || pick) then Some (with_writeCh (writeCh c ++ [plain]) c)
  else if doneCh c then Some c
  else None.

(** [for id == 0 { id = randomUint64() }] over the draws of the generator. *)
Fixpoint first_nonzero (draws : list Z) : option Z :=
  match draws with
  | [] => None
  | id :: ds => if id =? 0 then first_nonzero ds else Some id
  end.

Definition sendPing (draws : list Z) (now : Z) (pick : bool) (c : tcpClient) : option tcpClient :=
  id ← first_nonzero draws;
  sendPlaintext pick (buildPing id) (with_ping id now c).

Definition handleDisconnect (c : tcpClient) : tcpClient :=
  emit (OnDisconnected (cbs c)) EvDisconnected
    (with_status statusDisconnected (with_conn None (with_done true c))).

(** [Close] closes the socket but keeps [c.conn]; a later read or write fails. *)
Definition Close (c : tcpClient) : tcpClient :=
  with_status statusDisconnected (with_done true c).

(** [for i := range c.conns]: the first used slot with this key. *)
Fixpoint findConnID_loop (i : Z) (l : list connSlot) (pubkey : bytes) : option Z :=
  match l with
  | [] => None
  | s :: l' =>
      if bool_decide (slot_status s ≠ connFree) && bool_decide (slot_pubkey s = pubkey)
      then Some (u8 i) else findConnID_loop (i + 1) l' pubkey
  end.

Definition findConnID (c : tcpClient) (pubkey : bytes) : option Z :=
  findConnID_loop 0 (conns c) pubkey.

(** The API calls return an error, or leave the client in the state after
    [sendPlaintext]; [None] inside is a blocked call. *)
Definition RoutingRequest (pick : bool) (pubkey : bytes) (c : tcpClient)
    : outcome client_err (option tcpClient) :=
  match hexDecode pubkey with
  | None => Fail ErrInvalidKey
  | Some b =>
      b32 ← slice_to b PublicKeySize;
      pkt ← map_err ErrPacket (buildRoutingRequest b32);
      Ret (sendPlaintext pick pkt c)
  end.

Definition SendData (pick : bool) (pubkey data : bytes) (c : tcpClient)
    : outcome client_err (option tcpClient) :=
  match hexDecode pubkey with
  | None => Fail ErrInvalidKey
  | Some b =>
      match findConnID c b with
      | None => Fail ErrPeerNotFound
      | Some connID =>
          pkt ← map_err ErrPacket (buildDataPacket connID data);
          Ret (sendPlaintext pick pkt c)
      end
  end.

Definition SendOOB (pick : bool) (pubkey data : bytes) (c : tcpClient)
    : outcome client_err (option tcpClient) :=
  match hexDecode pubkey with
  | None => Fail ErrInvalidKey
  | Some b =>
      b32 ← slice_to b PublicKeySize;
      pkt ← map_err ErrPacket (buildOOBSend b32 data);
      Ret (sendPlaintext pick pkt c)
  end.

Definition SendOnionRequest (pick : bool) (data : bytes) (c : tcpClient)
    : outcome client_err (option tcpClient) :=
  Ret (sendPlaintext pick (buildOnionRequest data) c).

Definition set_slot_status (id : Z) (s : connStatus) (c : tcpClient) : tcpClient :=
  with_conns (alter (fun x => ConnSlot s (slot_pubkey x) (slot_number x)) (Z.to_nat id) (conns c)) c.

Definition DisconnectPeer (pick : bool) (pubkey : bytes) (c : tcpClient)
    : outcome client_err (option tcpClient) :=
  match hexDecode pubkey with
  | None => Fail ErrInvalidKey
  | Some b =>
      match findConnID c b with
      | None => Fail ErrPeerNotFound
      | Some connID =>
          let c1 := set_slot_status connID connFree c in
          Ret (sendPlaintext pick
                 (buildDisconnNotification (u8 (connID + NumReservedPorts))) c1)
      end
  end.

(** [connID >= NumReservedPorts] and [actualID < NumClientConnections] *)
Definition actual_id (connID : Z) : option Z :=
  if connID >=? NumReservedPorts then
    let a := u8 (connID - NumReservedPorts) in
    if a <? NumClientConnections then Some a else None
  else None.

Definition dispatchPacket (pick : bool) (plain : bytes) (c : tcpClient) : option tcpClient :=
  match plain with
  | [] => Some c
  | b :: _ =>
      let t := bz b in
      if t =? PacketPing then
        match parsePing plain with
        | Some id => sendPlaintext pick (buildPong id) c
        | None => Some c
        end
      else if t =? PacketPong then
        match parsePong plain with
        | Some id =>
            if negb (id =? 0) && (id =? pingID c) then Some (with_ping 0 (lastPinged c) c)
            else Some c
        | None => Some c
        end
      else if t =? PacketRoutingResponse then
        match parseRoutingResponse plain with
        | Some (connID, pk) =>
            match actual_id connID with
            | Some a =>
                let c1 := with_conns
                  (alter (fun x => ConnSlot connOffline (copy_into (slot_pubkey x) pk)
                                     (slot_number x)) (Z.to_nat a) (conns c)) c in
                Some (emit (OnRoutingResponse (cbs c)) (EvRoutingResponse a (hexEncode pk)) c1)
            | None => Some c
            end
        | None => Some c
        end
      else if t =? PacketConnectionNotification then
        match parseConnNotification plain ≫= actual_id with
        | Some a =>
            Some (emit (OnConnectionStatus (cbs c)) (EvConnectionStatus a true)
                    (set_slot_status a connOnline c))
        | None => Some c
        end
      else if t =? PacketDisconnectNotification then
        match parseDisconnNotification plain ≫= actual_id with
        | Some a =>
            let online := match conns c !! Z.to_nat a with
                          | Some s => bool_decide (slot_status s = connOnline)
                          | None => false end in
            Some (emit (OnConnectionStatus (cbs c)) (EvConnectionStatus a false)
                    (if online then set_slot_status a connOffline c else c))
        | None => Some c
        end
      else if t =? PacketOOBRecv then
        match parseOOBRecv plain with
        | Some (pk, data) => Some (emit (OnOOBData (cbs c)) (EvOOBData (hexEncode pk) data) c)
        | None => Some c
        end
      else if t =? PacketOnionResponse then Some c
      else if isDataPacket plain then
        match parseDataPacket plain with
        | Some (connID, data) => Some (emit (OnData (cbs c)) (EvData connID data) c)
        | None => Some c
        end
      else Some c
  end.

(** One iteration of a loop: the loop goes on, or its goroutine returns. *)
Inductive loop_result : Type :=
| Continue (c : tcpClient)
| Return (c : tcpClient).

(** What [conn.Write] does: it writes everything, or fails after [n] bytes. *)
Inductive write_result : Type :=
| Wrote
| WriteFailed (n : nat).

(** [writeLoop]: [pick] prefers the queue when the client is also done. *)
Definition writeLoop_body (pick : bool) (wr : write_result) (c : tcpClient)
    : option loop_result :=
  match writeCh c with
  | plain :: q =>
      if negb (doneCh c) || pick then
        let c1 := with_writeCh q c in
        match encodePacket (shrkey c1) (sentNonce c1) plain with
        | Ret (pkt, nonce) =>
            let c2 := with_keys (shrkey c1) nonce (recvNonce c1) c1 in
            match conn c2 with
            | None => Some (Return c2)
            | Some _ =>
                match wr with
                | Wrote => Some (Continue (emit true (EvWire pkt) c2))
                | WriteFailed n =>
                    Some (Return (handleDisconnect (emit true (EvWire (take n pkt)) c2)))
                end
            end
        | _ => Some (Continue c1)
        end
      else Some (Return c)
  | [] => if doneCh c then Some (Return c) else None
  end.

(** [readLoop]: reads from the packet reader of the connection [r] the client
    was started with and returns its next state too. *)
Definition readLoop_body (pick : bool) (r : reader) (c : tcpClient)
    : option (loop_result * reader) :=
  match ReadPacket r with
  | (Ret data, r1) =>
      match decodePacket (shrkey c) (recvNonce c) data with
      | Ret (plain, nonce) =>
          let c1 := with_keys (shrkey c) (sentNonce c) nonce c in
          c2 ← dispatchPacket pick plain c1; Some (Continue c2, r1)
      | _ => Some (Continue c, r1)
      end
  | (_, r1) => Some (Return (handleDisconnect c), r1)
  end.

(** [pingLoop] on a tick at time [now], and on the closed [doneCh]. *)
Definition pingLoop_tick (draws : list Z) (now : Z) (pick : bool) (c : tcpClient)
    : option loop_result :=
  let pid := pingID c in
  let since := now - lastPinged c in
  if negb (pid =? 0) && (since >? TCPPingTimeout * second)
  then Some (Return (handleDisconnect c))
  else if (pid =? 0) && (since >? TCPPingFrequency * second)
  then c1 ← sendPing draws now pick c; Some (Continue c1)
  else Some (Continue c).

(** [Connect]: [gen], [sn], [inn] are the handshake's random draws, [dial] the
    result of [net.DialTimeout], [write_ok] the one of writing the handshake
    packet; then [startIO] starts the loops and the first ping is queued.  The
    state is returned on every path. *)
Definition Connect (gen : option (bytes * bytes)) (sn inn : bytes) (dial : option reader)
    (write_ok : bool) (draws : list Z) (now : Z) (pick : bool) (c : tcpClient)
    : outcome client_err (option tcpClient) * tcpClient :=
  let hs := Client.newHandshakeState (serverPK c) (selfPK c) (selfSK c) in
  match Client.generateClientPacket gen sn inn hs with
  | Panic => (Panic, c)
  | Fail e => (Fail (ErrHandshake e), c)
  | Ret (clientPkt, hs) =>
      match dial with
      | None => (Fail ErrDial, setStatus statusDisconnected c)
      | Some r =>
          let c1 := with_status statusConnecting (with_conn (Some r) c) in
          if negb write_ok then (Fail ErrWrite, setStatus statusDisconnected c1)
          else
            let c2 := setStatus statusUnconfirmed (emit true (EvWire clientPkt) c1) in
            match ReadFull ServerHandshakeSize r with
            | (Ret resp, r1) =>
                match Client.handleServerResponse hs resp with
                | Ret (sk, rn) =>
                    let c3 := with_conn (Some r1) (with_status statusConfirmed
                                (with_keys sk (Client.sentNonce hs) rn c2)) in
                    (Ret (sendPing draws now pick c3), c3)
                | Fail e => (Fail (ErrHandshake e), setStatus statusDisconnected c2)
                | Panic => (Panic, c2)
                end
            | (Fail e, _) => (Fail (ErrRead e), setStatus statusDisconnected c2)
            | (Panic, _) => (Panic, c2)
            end
      end
  end.

End Ops.

Definition result_state (r : loop_result) : tcpClient :=
  match r with Continue c | Return c => c end.

(** ** The client as a transition system *)

Section Steps.
Context `{NaclBox}.

(** One iteration of the read or ping loop, or one API call. *)
Inductive act (c : tcpClient) : tcpClient → Prop :=
| act_read pick rd res rd' :
    readLoop_body pick rd c = Some (res, rd') → act c (result_state res)
| act_ping draws now pick r :
    pingLoop_tick draws now pick c = Some r → act c (result_state r)
| act_close : act c (Close c)
| act_routing pick pk c' : RoutingRequest pick pk c = Ret (Some c') → act c c'
| act_data pick pk data c' : SendData pick pk data c = Ret (Some c') → act c c'
| act_oob pick pk data c' : SendOOB pick pk data c = Ret (Some c') → act c c'
| act_onion pick data c' : SendOnionRequest pick data c = Ret (Some c') → act c c'
| act_disconnect pick pk c' : DisconnectPeer pick pk c = Ret (Some c') → act c c'.

(** Those, one iteration of the write loop, or a (re)connection. *)
Inductive step (c : tcpClient) : tcpClient → Prop :=
| step_act c' : act c c' → step c c'
| step_write pick wr r :
    writeLoop_body pick wr c = Some r → step c (result_state r)
| step_connect gen sn inn dial ok draws now pick c1 c' :
    (∀ pk sk, gen = Some (pk, sk) → keypair pk sk) → length sn = NonceSize →
    Connect gen sn inn dial ok draws now pick c = (Ret (Some c'), c1) → step c c'
| step_connect_fails gen sn inn dial ok draws now pick e c' :
    Connect gen sn inn dial ok draws now pick c = (Fail e, c') → step c c'.

Inductive reachable (c0 : tcpClient) : tcpClient → Prop :=
| reach_init : reachable c0 c0
| reach_step c c' : reachable c0 c → step c c' → reachable c0 c'.

(** Shape of a client: 240 slots with 32-byte keys, 24-byte nonces, a queue
    within its capacity. *)
Record client_inv (c : tcpClient) : Prop := {
  inv_conns : length (conns c) = Z.to_nat NumClientConnections;
  inv_slots : Forall (fun s => length (slot_pubkey s) = PublicKeySize) (conns c);
  inv_sent : length (sentNonce c) = NonceSize;
  inv_recv : length (recvNonce c) = NonceSize;
  inv_queue : (length (writeCh c) ≤ writeChCap)%nat;
}.

End Steps.

(** ** Lemmas *)

Lemma sendPlaintext_inv pick p c c' :
  sendPlaintext pick p c = Some c' → client_inv c → client_inv c'.
Proof.
  unfold sendPlaintext. case_bool_decide; cbn [andb]; intros E [];
    repeat case_match; simplify_eq; constructor; cbn; try done.
  rewrite length_app. cbn. lia.
Qed.

Lemma with_conns_inv l c :
  length l = length (conns c) →
  Forall (fun s => length (slot_pubkey s) = PublicKeySize) l →
  client_inv c → client_inv (with_conns l c).
Proof. intros Hl Hf []. constructor; cbn; congruence || done. Qed.

Lemma alter_slot_inv f i c :
  (∀ s, length (slot_pubkey s) = PublicKeySize → length (slot_pubkey (f s)) = PublicKeySize) →
  client_inv c → client_inv (with_conns (alter f i (conns c)) c).
Proof.
  intros Hf Hc. apply with_conns_inv; [by rewrite length_alter| |done].
  apply Forall_alter; [apply Hc|auto].
Qed.

Lemma set_slot_status_inv i s c : client_inv c → client_inv (set_slot_status i s c).
Proof. apply alter_slot_inv. auto. Qed.

Lemma emit_inv on e c : client_inv c → client_inv (emit on e c).
Proof. intros []. by constructor. Qed.

Lemma with_ping_inv a b c : client_inv c → client_inv (with_ping a b c).
Proof. intros []. by constructor. Qed.

Lemma with_status_inv s c : client_inv c → client_inv (with_status s c).
Proof. intros []. by constructor. Qed.

Lemma with_conn_inv k c : client_inv c → client_inv (with_conn k c).
Proof. intros []. by constructor. Qed.

Lemma with_done_inv d c : client_inv c → client_inv (with_done d c).
Proof. intros []. by constructor. Qed.

Lemma with_keys_inv k sn rn c :
  length sn = NonceSize → length rn = NonceSize → client_inv c → client_inv (with_keys k sn rn c).
Proof. intros ? ? []. by constructor. Qed.

Lemma handleDisconnect_inv c : client_inv c → client_inv (handleDisconnect c).
Proof. intros. by apply emit_inv, with_status_inv, with_conn_inv, with_done_inv. Qed.

Lemma sendPing_inv draws now pick c c' :
  sendPing draws now pick c = Some c' → client_inv c → client_inv c'.
Proof.
  unfold sendPing. destruct (first_nonzero draws); cbn; [|done].
  intros E Hc. eapply sendPlaintext_inv, with_ping_inv; eauto.
Qed.

#[export] Hint Resolve sendPlaintext_inv set_slot_status_inv emit_inv with_ping_inv
  with_status_inv with_conn_inv with_done_inv handleDisconnect_inv sendPing_inv : go.

Lemma dispatchPacket_inv pick plain c c' :
  dispatchPacket pick plain c = Some c' → client_inv c → client_inv c'.
Proof.
  intros E Hc. unfold dispatchPacket in E.
  repeat case_match; simplify_eq; eauto with go.
  apply emit_inv, alter_slot_inv; [|done].
  intros s Hs. cbn. by rewrite length_copy_into.
Qed.

Section StepFacts.
Context `{NaclBoxLaws}.

Lemma writeLoop_inv pick wr c r :
  writeLoop_body pick wr c = Some r → client_inv c → client_inv (result_state r).
Proof.
  intros E Hc. unfold writeLoop_body in E.
  destruct (writeCh c) as [|p q] eqn:Eq; [by repeat case_match; simplify_eq|].
  assert (client_inv (with_writeCh q c)) as Hq.
  { destruct Hc as [? ? ? ? Hl]. rewrite Eq in Hl. constructor; try done. cbn in *. lia. }
  case_match; [|by simplify_eq].
  destruct (encodePacket _ _ _) as [[pkt n]| |] eqn:Ee; simplify_eq; try done.
  apply encodePacket_nonce in Ee as ->. cbn [sentNonce shrkey recvNonce with_writeCh] in E.
  assert (client_inv (with_keys (shrkey c) (Tcp.incrNonce (sentNonce c)) (recvNonce c)
            (with_writeCh q c))) as Hk.
  { destruct Hc as [? ? Hs ? ?]. apply with_keys_inv; [|done|done]. by apply length_incrNonce. }
  repeat case_match; simplify_eq; cbn [result_state]; eauto with go.
Qed.

Lemma readLoop_inv pick rd c res rd' :
  readLoop_body pick rd c = Some (res, rd') → client_inv c → client_inv (result_state res).
Proof.
  intros E Hc. unfold readLoop_body in E.
  destruct (ReadPacket rd) as [[data|e|] r1]; simplify_eq; cbn [result_state]; eauto with go.
  destruct (decodePacket _ _ _) as [[plain n]| |] eqn:Ed; simplify_eq; cbn [result_state]; eauto.
  apply decodePacket_nonce in Ed as ->.
  destruct (dispatchPacket _ _ _) as [c2|] eqn:Edp; simplify_eq/=.
  eapply dispatchPacket_inv; [exact Edp|].
  apply with_keys_inv; [apply Hc| |done]. destruct Hc. by apply length_incrNonce.
Qed.

Lemma pingLoop_inv draws now pick c r :
  pingLoop_tick draws now pick c = Some r → client_inv c → client_inv (result_state r).
Proof.
  intros E Hc. unfold pingLoop_tick in E.
  case_match; [simplify_eq; cbn; eauto with go|].
  case_match; [|by simplify_eq].
  destruct (sendPing _ _ _ _) eqn:Es; simplify_eq/=. eauto with go.
Qed.

Lemma Connect_inv gen sn inn dial ok draws now pick c c1 o :
  (∀ pk sk, gen = Some (pk, sk) → keypair pk sk) → length sn = NonceSize →
  Connect gen sn inn dial ok draws now pick c = (Ret o, c1) →
  client_inv c → client_inv c1 ∧ ∀ c', o = Some c' → client_inv c'.
Proof.
  intros Hgen Hsn E Hc. unfold Connect in E.
  destruct gen as [[pk sk]|]; [|discriminate E].
  destruct (Hgen pk sk eq_refl) as [Hsk Hpk]. cbn [Client.generateClientPacket] in E.
  destruct dial as [r|]; [|discriminate E]. destruct ok; [cbn [negb] in E|discriminate E].
  destruct (ReadFull _ r) as [[resp|e|] r1]; try discriminate E.
  match type of E with context [Client.handleServerResponse ?h resp] =>
    destruct (handleServerResponse_total h resp Hsk) as [[E1 _]|[[E1 _]|(key & n & E1 & Hk & Hn)]]
  end; rewrite E1 in E; try discriminate E.
  injection E as <- <-. cbn [Client.sentNonce].
  match goal with |- client_inv ?x ∧ _ => assert (client_inv x) as Hc1 end.
  { apply with_conn_inv, with_status_inv, with_keys_inv; try done.
    by apply with_status_inv, emit_inv, with_status_inv, with_conn_inv. }
  split; [done|]. intros c' Es. eapply sendPing_inv; [exact Es|done].
Qed.

Lemma Connect_fail_inv gen sn inn dial ok draws now pick c c1 e :
  Connect gen sn inn dial ok draws now pick c = (Fail e, c1) →
  client_inv c → client_inv c1.
Proof.
  intros E Hc. unfold Connect in E.
  repeat case_match; simplify_eq; unfold setStatus; eauto 10 with go.
Qed.

Lemma act_inv c c' : act c c' → client_inv c → client_inv c'.
Proof.
  intros Hs Hc. destruct Hs as
    [pick rd res rd' E|draws now pick r E| |pick pk c' E|pick pk data c' E
    |pick pk data c' E|pick data c' E|pick pk c' E].
  - eapply readLoop_inv; eauto.
  - eapply pingLoop_inv; eauto.
  - unfold Close. eauto with go.
  - unfold RoutingRequest in E. case_match; [|discriminate E].
    apply bind_ret_inv in E as (b & _ & E). apply bind_ret_inv in E as (q & _ & E).
    simplify_eq; eauto with go.
  - unfold SendData in E. repeat case_match; try discriminate E.
    apply bind_ret_inv in E as (q & _ & E). simplify_eq; eauto with go.
  - unfold SendOOB in E. case_match; [|discriminate E].
    apply bind_ret_inv in E as (b & _ & E). apply bind_ret_inv in E as (q & _ & E).
    simplify_eq; eauto with go.
  - unfold SendOnionRequest in E. simplify_eq; eauto with go.
  - unfold DisconnectPeer in E. repeat case_match; simplify_eq; eauto with go.
Qed.

Lemma step_inv c c' : step c c' → client_inv c → client_inv c'.
Proof.
  intros [c1 E|pick wr r E|gen sn inn dial ok draws now pick c1 c2 Hg Hn E
    |gen sn inn dial ok draws now pick e c2 E] Hc.
  - by eapply act_inv.
  - by eapply writeLoop_inv.
  - eapply Connect_inv; eauto.
  - by eapply Connect_fail_inv.
Qed.

Lemma New_inv spk ssk on c : New spk ssk on = Ret c → client_inv c.
Proof.
  unfold New. intros E. repeat case_match; simplify_eq.
  constructor; cbn [conns sentNonce recvNonce writeCh length]; try done;
    [|unfold writeChCap; lia].
  unfold emptyConns. by apply Forall_replicate.
Qed.

Lemma reachable_inv spk ssk on c0 c :
  New spk ssk on = Ret c0 → reachable c0 c → client_inv c.
Proof.
  intros E Hr. induction Hr as [|c c' _ IH Hs]; [by eapply New_inv|].
  by eapply step_inv.
Qed.

End StepFacts.

(** ** The write loop and the wire *)

#[local] Opaque Tcp.incrNonce be_bytes.

Section Wire.
Context `{NaclBox}.

(** [n] iterations of [writeLoop] while writes succeed and the loop keeps
    choosing the queue. *)
Fixpoint writeLoop_run (n : nat) (c : tcpClient) : option tcpClient :=
  match n with
  | O => Some c
  | S n =>
      match writeLoop_body true Wrote c with
      | Some (Continue c1) => writeLoop_run n c1
      | _ => None
      end
  end.

(** The bytes written to the socket. *)
Definition wire_of (l : list event) : bytes :=
  concat (omap (fun e => match e with EvWire p => Some p | _ => None end) l).

(** The plaintexts [encodePacket] accepts. *)
Definition sendable (p : bytes) : bool := zlen p <=? MaxPacketSize.

(** What a step puts at the end of the queue. *)
Definition queued (c c' : tcpClient) : list bytes := drop (length (writeCh c)) (writeCh c').

Definition continues (r : loop_result) : bool :=
  match r with Continue _ => true | Return _ => false end.

(** The life of a client after the [Connect] that left it as [c1], until the
    next [Connect]: [session c1 b q c] says that any interleaving of iterations
    of the one write loop it started ([b] tells that the loop has not
    returned), iterations of the other loops and API calls leads to [c], and
    that [q] is everything that has been in the queue, oldest first. *)
Inductive session (c1 : tcpClient) : bool → list bytes → tcpClient → Prop :=
| session_start : session c1 true (writeCh c1) c1
| session_write pick wr r q c :
    session c1 true q c → writeLoop_body pick wr c = Some r →
    session c1 (continues r) q (result_state r)
| session_act b q c c' :
    session c1 b q c → act c c' → session c1 b (q ++ queued c c') c'.

(** A step that neither writes nor touches what the write loop works with. *)
Record quiet (c c' : tcpClient) : Prop := {
  quiet_queue : writeCh c' = writeCh c ++ queued c c';
  quiet_key : shrkey c' = shrkey c;
  quiet_nonce : sentNonce c' = sentNonce c;
  quiet_wire : wire_of (trace c') = wire_of (trace c);
}.

(** The bytes [wire] the write loop has written under the key [k] from the
    nonce [sn] on, having taken the plaintexts [taken] from the queue: the
    packets of those that fit in a packet, in order.  Once the loop has
    returned, the last of them may be [lost], of which the beginning [part] of
    its packet is written. *)
Definition wrote (k sn : bytes) (b : bool) (taken : list bytes) (wire nonce : bytes) : Prop :=
  ∃ ps lost w part n,
    filter (fun p => sendable p = true) taken = ps ++ lost ∧
    encodeAll k sn ps = Ret (w, n) ∧ wire = w ++ part ∧
    nonce = Nat.iter (length (ps ++ lost)) Tcp.incrNonce sn ∧
    (lost = [] ∧ part = [] ∨
     b = false ∧ ∃ p pkt n', lost = [p] ∧ encodePacket k n p = Ret (pkt, n') ∧
       part `prefix_of` pkt).

End Wire.

Section WireFacts.
Context `{NaclBoxLaws}.

Lemma wire_of_app l k : wire_of (l ++ k) = wire_of l ++ wire_of k.
Proof. unfold wire_of. by rewrite omap_app, concat_app. Qed.

Lemma encodePacket_sendable k n p :
  sendable p = false → encodePacket k n p = Fail ErrPacketTooLarge.
Proof.
  unfold sendable, encodePacket. intros E. zbool.
  rewrite Z.gtb_ltb. by rewrite (proj2 (Z.ltb_lt _ _)).
Qed.

(** One iteration on a non-empty queue. *)
Lemma writeLoop_body_cons p q c :
  writeCh c = p :: q → conn c ≠ None →
  writeLoop_body true Wrote c =
    Some (Continue
      match encodePacket (shrkey c) (sentNonce c) p with
      | Ret (pkt, n) =>
          emit true (EvWire pkt) (with_keys (shrkey c) n (recvNonce c) (with_writeCh q c))
      | _ => with_writeCh q c
      end).
Proof.
  intros Eq Hc. unfold writeLoop_body. rewrite Eq, orb_true_r.
  cbn [shrkey sentNonce recvNonce conn with_writeCh].
  destruct (encodePacket _ _ _) as [[pkt n]| |]; [|done..].
  cbn [conn with_keys with_writeCh]. destruct (conn c); [done|congruence].
Qed.

Lemma writeLoop_run_encodeAll q c :
  writeCh c = q → conn c ≠ None →
  ∃ c' wire n',
    writeLoop_run (length q) c = Some c' ∧ writeCh c' = [] ∧
    encodeAll (shrkey c) (sentNonce c) (filter (fun p => sendable p = true) q)
      = Ret (wire, n') ∧
    wire_of (trace c') = wire_of (trace c) ++ wire ∧ sentNonce c' = n'.
Proof.
  revert c. induction q as [|p q IH]; intros c Eq Hc.
  { exists c, [], (sentNonce c). by rewrite app_nil_r. }
  cbn [length writeLoop_run]. rewrite (writeLoop_body_cons p q c Eq Hc), filter_cons.
  destruct (sendable p) eqn:Es.
  - rewrite decide_True by done. cbn [encodeAll].
    assert (zlen p ≤ MaxPacketSize) as Hp by (unfold sendable in Es; zbool; done).
    rewrite encodePacket_ok by done.
    match goal with |- context [writeLoop_run _ ?x] => destruct (IH x) as
      (c' & wire & n' & Er & Ew & Ee & Et & En); [done|done|] end.
    cbn [shrkey sentNonce emit with_keys with_writeCh trace] in *.
    eexists c', _, n'. split; [done|]. split; [done|]. rewrite bind_ret, Ee, bind_ret.
    split; [reflexivity|]. split; [|done]. rewrite Et, wire_of_app, <- !app_assoc. f_equal.
    unfold wire_of at 1. cbn [omap list_omap concat]. by rewrite app_nil_r.
  - rewrite decide_False by congruence. rewrite encodePacket_sendable by done.
    destruct (IH (with_writeCh q c)) as (c' & wire & n' & Er & Ew & Ee & Et & En); [done..|].
    exists c', wire, n'. done.
Qed.

(** *** Sessions *)

Lemma queued_app c c' l : writeCh c' = writeCh c ++ l → queued c c' = l.
Proof. unfold queued. intros ->. apply drop_app_length. Qed.

Lemma quiet_app c c' l :
  writeCh c' = writeCh c ++ l → shrkey c' = shrkey c → sentNonce c' = sentNonce c →
  wire_of (trace c') = wire_of (trace c) → quiet c c'.
Proof. intros Hq ???. constructor; [by rewrite (queued_app c c' l)|done..]. Qed.

Lemma quiet_trans c c1 c2 : quiet c c1 → quiet c1 c2 → quiet c c2.
Proof.
  intros [H1 ???] [H2 ???]. eapply quiet_app; [|congruence..].
  rewrite H2, H1 at 1. by rewrite <- app_assoc.
Qed.

Lemma quiet_same c c' :
  writeCh c' = writeCh c → shrkey c' = shrkey c → sentNonce c' = sentNonce c →
  wire_of (trace c') = wire_of (trace c) → quiet c c'.
Proof. intros Hq ???. apply (quiet_app c c' []); [by rewrite app_nil_r|done..]. Qed.

Lemma wire_of_emit on e l :
  (∀ pkt, e ≠ EvWire pkt) → wire_of (if on : bool then l ++ [e] else l) = wire_of l.
Proof.
  intros He. destruct on; [|done]. rewrite wire_of_app. destruct e; [by destruct (He pkt)|..];
    apply app_nil_r.
Qed.

Lemma quiet_emitted on e c : (∀ pkt, e ≠ EvWire pkt) → quiet c (emit on e c).
Proof. intros He. apply quiet_same; try done. by apply wire_of_emit. Qed.

Lemma quiet_disconnect c : quiet c (handleDisconnect c).
Proof. apply quiet_same; try done. by apply wire_of_emit. Qed.

Lemma quiet_sendPlaintext pick p c c' : sendPlaintext pick p c = Some c' → quiet c c'.
Proof.
  unfold sendPlaintext. intros E. repeat case_match; simplify_eq; [|by apply quiet_same].
  by eapply quiet_app.
Qed.

Lemma quiet_ping draws now pick c c' : sendPing draws now pick c = Some c' → quiet c c'.
Proof.
  unfold sendPing. destruct (first_nonzero draws) as [id|]; cbn; [|done].
  intros E%quiet_sendPlaintext. eapply quiet_trans; [|exact E]. by apply quiet_same.
Qed.

Lemma quiet_dispatchPacket pick plain c c' : dispatchPacket pick plain c = Some c' → quiet c c'.
Proof.
  unfold dispatchPacket. intros E.
  repeat case_match; simplify_eq; try (by apply quiet_same); try (by eapply quiet_sendPlaintext).
  all: eapply quiet_trans; [|by apply quiet_emitted]; by apply quiet_same.
Qed.

Lemma quiet_read pick rd c res rd' :
  readLoop_body pick rd c = Some (res, rd') → quiet c (result_state res).
Proof.
  intros E. unfold readLoop_body in E.
  destruct (ReadPacket rd) as [[data|e|] r1]; simplify_eq; [|apply quiet_disconnect..].
  destruct (decodePacket _ _ _) as [[plain n]| |]; simplify_eq; [|by apply quiet_same..].
  destruct (dispatchPacket _ _ _) as [c2|] eqn:Ed; simplify_eq/=.
  eapply quiet_trans; [|by eapply quiet_dispatchPacket]. by apply quiet_same.
Qed.

Lemma quiet_tick draws now pick c r :
  pingLoop_tick draws now pick c = Some r → quiet c (result_state r).
Proof.
  intros E. unfold pingLoop_tick in E. repeat case_match; simplify_eq; try by apply quiet_same.
  - apply quiet_disconnect.
  - unfold mbind, option_bind in E. case_match; simplify_eq. by eapply quiet_ping.
Qed.

Lemma act_quiet c c' : act c c' → quiet c c'.
Proof.
  intros [pick rd res rd' E|draws now pick r E| |pick pk x E|pick pk data x E
    |pick pk data x E|pick data x E|pick pk x E].
  - by eapply quiet_read.
  - by eapply quiet_tick.
  - by apply quiet_same.
  - unfold RoutingRequest in E. case_match; [|discriminate E].
    apply bind_ret_inv in E as (b & _ & E). apply bind_ret_inv in E as (q & _ & E).
    simplify_eq. by eapply quiet_sendPlaintext.
  - unfold SendData in E. repeat case_match; try discriminate E.
    apply bind_ret_inv in E as (q & _ & E). simplify_eq. by eapply quiet_sendPlaintext.
  - unfold SendOOB in E. case_match; [|discriminate E].
    apply bind_ret_inv in E as (b & _ & E). apply bind_ret_inv in E as (q & _ & E).
    simplify_eq. by eapply quiet_sendPlaintext.
  - unfold SendOnionRequest in E. simplify_eq. by eapply quiet_sendPlaintext.
  - unfold DisconnectPeer in E. repeat case_match; simplify_eq.
    eapply quiet_trans; [|by eapply quiet_sendPlaintext]. by apply quiet_same.
Qed.

Lemma encodeAll_snoc k n ps w n1 p pkt n2 :
  encodeAll k n ps = Ret (w, n1) → encodePacket k n1 p = Ret (pkt, n2) →
  encodeAll k n (ps ++ [p]) = Ret (w ++ pkt, n2).
Proof.
  revert n w. induction ps as [|p' ps IH]; intros n w E Ep.
  - injection E as <- ->. cbn [encodeAll app]. by rewrite Ep, !bind_ret, app_nil_r.
  - cbn [encodeAll app] in *. destruct (encodePacket k n p') as [[pk0 m]| |]; try discriminate E.
    rewrite bind_ret in *. destruct (encodeAll k m ps) as [[w0 m0]| |] eqn:E0; try discriminate E.
    rewrite bind_ret in E. injection E as <- ->.
    rewrite (IH m w0 E0 Ep), bind_ret. by rewrite <- app_assoc.
Qed.

Lemma encodeAll_nonce k n ps w n1 :
  encodeAll k n ps = Ret (w, n1) → n1 = Nat.iter (length ps) Tcp.incrNonce n.
Proof.
  revert n w. induction ps as [|p ps IH]; intros n w E; [by injection E|].
  cbn [encodeAll] in E. destruct (encodePacket k n p) as [[pk0 m]| |] eqn:Ep; try discriminate E.
  rewrite bind_ret in E. destruct (encodeAll k m ps) as [[w0 m0]| |] eqn:E0; try discriminate E.
  rewrite bind_ret in E. injection E as <- ->. apply encodePacket_nonce in Ep as ->.
  rewrite (IH _ _ E0). cbn [length]. by rewrite Nat.iter_succ_r.
Qed.

(** One iteration of a write loop that has not returned. *)
Lemma writeLoop_wrote pick wr sn c r taken w :
  writeLoop_body pick wr c = Some r → wrote (shrkey c) sn true taken w (sentNonce c) →
  ∃ l out, writeCh c = l ++ writeCh (result_state r) ∧
    shrkey (result_state r) = shrkey c ∧
    wire_of (trace (result_state r)) = wire_of (trace c) ++ out ∧
    wrote (shrkey c) sn (continues r) (taken ++ l) (w ++ out) (sentNonce (result_state r)).
Proof.
  intros E (ps & lost & w0 & part & n & Hf & He & -> & Hn & Hl).
  destruct Hl as [[-> ->]|[? _]]; [|done]. rewrite app_nil_r in *.
  pose proof (encodeAll_nonce _ _ _ _ _ He) as Hi. rewrite <- Hi in Hn.
  assert (∀ b, wrote (shrkey c) sn b taken w0 (sentNonce c)) as Hsame.
  { intros b. exists ps, [], w0, [], n. rewrite !app_nil_r. split_and!; try done; [|by left].
    congruence. }
  unfold writeLoop_body in E. destruct (writeCh c) as [|p q] eqn:Eq.
  { case_match; simplify_eq. exists [], []. rewrite !app_nil_r. cbn. auto. }
  destruct (negb (doneCh c) || pick);
    [|simplify_eq; exists [], []; rewrite !app_nil_r; cbn; auto].
  cbn [shrkey sentNonce recvNonce conn with_writeCh with_keys] in E. exists [p].
  destruct (sendable p) eqn:Es; cycle 1.
  { rewrite encodePacket_sendable in E by done. injection E as <-. exists [].
    rewrite !app_nil_r. cbn. split_and!; try done.
    exists ps, [], w0, [], n. rewrite list.filter_app, Hf, list.filter_cons_False by congruence.
    rewrite !app_nil_r. split_and!; try done; [congruence|by left]. }
  assert (zlen p ≤ MaxPacketSize) as Hp by (unfold sendable in Es; zbool; done).
  destruct (encodePacket (shrkey c) (sentNonce c) p) as [[pkt m]| |] eqn:Ep;
    [|by rewrite encodePacket_ok in Ep..].
  pose proof (encodePacket_nonce _ _ _ _ _ Ep) as Hm. rewrite Hn in Ep.
  assert (∀ part, part `prefix_of` pkt →
    wrote (shrkey c) sn false (taken ++ [p]) (w0 ++ part) m) as Hlost.
  { intros part Hpart. exists ps, [p], w0, part, n.
    rewrite list.filter_app, Hf, list.filter_cons_True by done. split_and!; try done.
    - by rewrite Hm, Hn, Hi, length_app, Nat.add_comm.
    - right. eauto 10. }
  assert (wire_of [EvWire pkt] = pkt) as Hw by apply app_nil_r.
  destruct (conn c); [destruct wr as [|k]|]; injection E as <-; cbn [result_state continues].
  - exists pkt. cbn [writeCh emit with_keys with_writeCh shrkey sentNonce trace].
    rewrite wire_of_app, Hw. split_and!; try done.
    exists (ps ++ [p]), [], (w0 ++ pkt), [], m.
    rewrite list.filter_app, Hf, list.filter_cons_True by done. rewrite !app_nil_r.
    split_and!; try done; [by eapply encodeAll_snoc| |by left].
    by rewrite Hm, Hn, Hi, length_app, Nat.add_comm.
  - exists (take k pkt). cbn [writeCh handleDisconnect emit with_status with_conn with_done
      with_keys with_writeCh shrkey sentNonce].
    rewrite (quiet_wire _ _ (quiet_disconnect _)). cbn [trace emit]. rewrite wire_of_app.
    split_and!; try done; [|apply Hlost, prefix_take].
    f_equal. apply app_nil_r.
  - exists []. rewrite app_nil_r. cbn. split_and!; try done.
    apply Hlost, prefix_nil.
Qed.

(** Everything queued in a session is taken by the write loop or still there,
    and the wire holds what the loop took. *)
Lemma session_wrote c1 b q c :
  session c1 b q c →
  shrkey c = shrkey c1 ∧ ∃ taken w,
    q = taken ++ writeCh c ∧ wire_of (trace c) = wire_of (trace c1) ++ w ∧
    wrote (shrkey c1) (sentNonce c1) b taken w (sentNonce c).
Proof.
  induction 1 as [|pick wr r q c _ (Hk & taken & w & -> & Ht & Hw) E
    |b q c c' _ (Hk & taken & w & -> & Ht & Hw) Ha].
  - split; [done|]. exists [], []. rewrite app_nil_r. split_and!; try done.
    exists [], [], [], [], (sentNonce c1). split_and!; try done. by left.
  - rewrite <- Hk in Hw. destruct (writeLoop_wrote _ _ _ _ _ _ _ E Hw)
      as (l & out & Hq & Hk' & Ht' & Hw').
    split; [congruence|]. exists (taken ++ l), (w ++ out).
    rewrite Hq, Ht', Ht, <- !app_assoc, <- Hk. done.
  - apply act_quiet in Ha as [Hq Hk' Hn Hwr]. split; [congruence|].
    exists taken, w. by rewrite Hwr, Hn, <- app_assoc, <- Hq.
Qed.

Lemma session_inv c1 b q c : session c1 b q c → client_inv c1 → client_inv c.
Proof.
  induction 1 as [|pick wr r q c _ IH E|b q c c' _ IH Ha]; intros Hc; [done| |].
  - eapply writeLoop_inv; eauto.
  - eapply act_inv; eauto.
Qed.

End WireFacts.

(** ** Looking up a peer *)

(** [findConnID] returns the lowest used slot that holds the key. *)
Lemma findConnID_loop_Some i l pk id :
  0 ≤ i → i + zlen l ≤ 256 →
  findConnID_loop i l pk = Some id ↔
  ∃ k s, id = i + Z.of_nat k ∧ l !! k = Some s ∧ slot_status s ≠ connFree ∧
    slot_pubkey s = pk ∧
    ∀ j s', (j < k)%nat → l !! j = Some s' → slot_status s' = connFree ∨ slot_pubkey s' ≠ pk.
Proof.
  revert i. induction l as [|s l IH]; intros i Hi Hl.
  { split; [done|]. intros (k & s & _ & E & _). by rewrite lookup_nil in E. }
  rewrite zlen_cons in Hl. pose proof (zlen_nonneg l). cbn [findConnID_loop].
  destruct (bool_decide (slot_status s ≠ connFree) && bool_decide (slot_pubkey s = pk)) eqn:E.
  - apply andb_true_iff in E as [E1%bool_decide_eq_true E2%bool_decide_eq_true].
    unfold u8. rewrite wrap_u_small by lia. split.
    + intros [= <-]. exists 0%nat, s. split_and!; try done; [lia|]. intros j s' Hj. lia.
    + intros ([|k] & s' & -> & Es & H1 & H2 & Hj); [f_equal; lia|].
      destruct (Hj 0%nat s) as [?|?]; [lia|done|congruence..].
  - rewrite IH by lia.
    assert (slot_status s = connFree ∨ slot_pubkey s ≠ pk) as Hs.
    { apply andb_false_iff in E as [E%bool_decide_eq_false|E%bool_decide_eq_false]; [left|by right].
      by destruct (decide (slot_status s = connFree)). }
    split.
    + intros (k & s' & -> & Es & H1 & H2 & Hj). exists (S k), s'. split_and!; try done; [lia|].
      intros [|j] s'' Hlt Es'; [by simplify_eq/=|]. eapply Hj; [|exact Es']. lia.
    + intros ([|k] & s' & -> & Es & H1 & H2 & Hj); [simplify_eq/=; by destruct Hs|].
      exists k, s'. split_and!; try done; [lia|].
      intros j s'' Hlt Es'. apply (Hj (S j) s''); [lia|done].
Qed.

Lemma findConnID_loop_None i l pk :
  findConnID_loop i l pk = None ↔
  ∀ s, s ∈ l → slot_status s = connFree ∨ slot_pubkey s ≠ pk.
Proof.
  revert i. induction l as [|s l IH]; intros i; cbn [findConnID_loop].
  { split; [|done]. intros _ s Hs. by apply elem_of_nil in Hs. }
  case_bool_decide as H1; case_bool_decide as H2; cbn [andb].
  - split; [done|]. intros Ha. exfalso. destruct (Ha s); [constructor|done..].
  - rewrite IH. split.
    + intros Ha s' [->|Hs']%elem_of_cons; [by right|auto].
    + intros Ha s' Hs'. apply Ha. by right.
  - rewrite IH. split.
    + intros Ha s' [->|Hs']%elem_of_cons; [|auto].
      left. by destruct (decide (slot_status s = connFree)).
    + intros Ha s' Hs'. apply Ha. by right.
  - rewrite IH. split.
    + intros Ha s' [->|Hs']%elem_of_cons; [by right|auto].
    + intros Ha s' Hs'. apply Ha. by right.
Qed.

Lemma findConnID_range c pk id :
  client_inv c → findConnID c pk = Some id → 0 ≤ id < NumClientConnections.
Proof.
  intros [Hl _ _ _ _] E. unfold findConnID in E.
  assert (zlen (conns c) = 240) as Hz by (unfold zlen; by rewrite Hl).
  apply findConnID_loop_Some in E as (k & s & -> & Es & _); [|lia..].
  apply lookup_lt_Some in Es. unfold zlen, NumClientConnections, NumReservedPorts in *. lia.
Qed.

(** The packet that carries [data] to the slot [id]. *)
Definition data_packet (id : Z) (data : bytes) : bytes :=
  zb (id + NumReservedPorts) :: data.

Lemma buildDataPacket_eq id data :
  0 ≤ id < NumClientConnections → buildDataPacket id data = Ret (data_packet id data).
Proof.
  intros Hid. unfold buildDataPacket.
  destruct (id >=? NumClientConnections) eqn:E; zbool; [lia|].
  by rewrite u8_shift, copy_into_make.
Qed.

Lemma SendData_eq pick pk data c id b :
  client_inv c → hexDecode pk = Some b → findConnID c b = Some id →
  SendData pick pk data c = Ret (sendPlaintext pick (data_packet id data) c).
Proof.
  intros Hc Eh Ef. unfold SendData. rewrite Eh, Ef, buildDataPacket_eq; [done|].
  by eapply findConnID_range.
Qed.

(** What a routing response does to the client. *)
Lemma dispatch_routing_response pick id pk p c :
  0 ≤ id < NumClientConnections → length pk = PublicKeySize →
  buildRoutingResponse id pk = Ret p →
  dispatchPacket pick p c =
    Some (emit (OnRoutingResponse (cbs c)) (EvRoutingResponse id (hexEncode pk))
      (with_conns (alter (fun x => ConnSlot connOffline (copy_into (slot_pubkey x) pk)
         (slot_number x)) (Z.to_nat id) (conns c)) c)).
Proof.
  intros Hid Hpk Ep.
  destruct (routing_response_rt id pk Hpk Hid) as (p' & Ep' & Hp).
  rewrite Ep in Ep'. injection Ep' as <-.
  unfold buildRoutingResponse in Ep. rewrite slice_to_all, bind_ret in Ep by done.
  injection Ep as <-. unfold dispatchPacket. rewrite bz_zb_small by done.
  cbn [Z.eqb Pos.eqb PacketRoutingResponse PacketPing PacketPong]. rewrite Hp.
  unfold actual_id, NumClientConnections, NumReservedPorts in *.
  destruct (id + 16 >=? 16) eqn:E; zbool; [|lia].
  unfold u8. rewrite wrap_u_small by lia.
  replace (id + 16 - 16) with id by lia.
  destruct (id <? 256 - 16) eqn:E2; zbool; [done|lia].
Qed.

Lemma doneCh_final `{NaclBox} c c' : step c c' → doneCh c = true → doneCh c' = true.
Proof.
  assert (∀ pick p c c', sendPlaintext pick p c = Some c' → doneCh c = true →
            doneCh c' = true) as Hsp.
  { intros pick p x x'. unfold sendPlaintext. intros E Hd.
    repeat case_match; simplify_eq; done. }
  assert (∀ draws now pick c c', sendPing draws now pick c = Some c' → doneCh c = true →
            doneCh c' = true) as Hping.
  { intros draws now pick x x'. unfold sendPing.
    destruct (first_nonzero draws); cbn; [|done]. intros E Hd. by eapply Hsp in E. }
  intros [x [pick rd res rd' E|draws now pick r E| |pick pk x' E|pick pk data x' E
    |pick pk data x' E|pick data x' E|pick pk x' E]|pick wr r E
    |gen sn inn dial ok draws now pick c1 x Hg Hn E|gen sn inn dial ok draws now pick e x E] Hd.
  - unfold readLoop_body in E. repeat case_match; simplify_eq; try done.
    unfold mbind, option_bind in E. case_match eqn:Ed; simplify_eq. cbn [result_state].
    unfold dispatchPacket in Ed. repeat case_match; simplify_eq; eauto.
  - unfold pingLoop_tick in E. repeat case_match; simplify_eq; try done.
    unfold mbind, option_bind in E. case_match; simplify_eq. cbn [result_state]. eauto.
  - done.
  - unfold RoutingRequest in E. case_match; [|discriminate E].
    apply bind_ret_inv in E as (b & _ & E). apply bind_ret_inv in E as (q & _ & E).
    simplify_eq; eauto.
  - unfold SendData in E. repeat case_match; try discriminate E.
    apply bind_ret_inv in E as (q & _ & E). simplify_eq; eauto.
  - unfold SendOOB in E. case_match; [|discriminate E].
    apply bind_ret_inv in E as (b & _ & E). apply bind_ret_inv in E as (q & _ & E).
    simplify_eq; eauto.
  - unfold SendOnionRequest in E. simplify_eq; eauto.
  - unfold DisconnectPeer in E. repeat case_match; simplify_eq; eauto.
  - unfold writeLoop_body in E. repeat case_match; simplify_eq; done.
  - unfold Connect in E. repeat case_match; simplify_eq. eapply Hping; [eassumption|exact Hd].
  - unfold Connect in E. repeat case_match; simplify_eq; done.
Qed.

(** A [Connect] that returns nil confirms the client and queues a ping. *)
Lemma Connect_ret `{NaclBox} gen sn inn dial ok draws now pick c o c2 :
  Connect gen sn inn dial ok draws now pick c = (Ret o, c2) →
  doneCh c2 = doneCh c ∧ status c2 = statusConfirmed ∧ o = sendPing draws now pick c2.
Proof.
  unfold Connect. destruct (Client.generateClientPacket _ _ _ _) as [[pkt hs]| |]; try done.
  destruct dial as [r|]; [|done]. destruct ok; [|done]. cbn [negb].
  destruct (ReadFull _ _) as [[resp| |] r1]; try done.
  destruct (Client.handleServerResponse _ _) as [[sk rn]| |]; try done.
  intros E. injection E as <- <-. done.
Qed.

Lemma sendPing_fields draws now pick c c' :
  sendPing draws now pick c = Some c' → doneCh c' = doneCh c ∧ status c' = status c.
Proof.
  unfold sendPing. destruct (first_nonzero draws) as [id|]; [|done].
  cbn [mbind option_bind]. unfold sendPlaintext.
  intros E. repeat case_match; simplify_eq; done.
Qed.

(** The session starts with the nonce that [Connect] drew. *)
Lemma Connect_nonce `{NaclBox} gen sn inn dial ok draws now pick c c1 c2 :
  Connect gen sn inn dial ok draws now pick c = (Ret (Some c1), c2) → sentNonce c1 = sn.
Proof.
  unfold Connect. destruct gen as [[pk sk]|]; [|done]. cbn [Client.generateClientPacket].
  destruct dial as [r|]; [|done]. destruct ok; [|done]. cbn [negb].
  destruct (ReadFull _ _) as [[resp| |] r1]; try done.
  destruct (Client.handleServerResponse _ _) as [[k rn]| |]; try done.
  intros E. injection E as E <-. by rewrite (quiet_nonce _ _ (quiet_ping _ _ _ _ _ E)).
Qed.

(** ** Properties *)

(** C11: what is queued is what the relay receives.  Draining the queue of a
    connected client empties it and writes one packet per plaintext that
    [encodePacket] accepts (longer ones are dropped without using a nonce); a
    peer that holds the session key and the client's send nonce reads back, from
    any chunking of those bytes, exactly these plaintexts in queue order.
    Condition: no queued plaintext has 2033 to 2048 bytes.  [encodePacket]
    accepts those, but [ReadPacket] refuses their packets
    ([oversized_plain_unreadable]). *)
Theorem write_loop_delivers `{NaclBoxLaws} (c : tcpClient) (Hc : conn c ≠ None)
    (Hq : Forall (fun p => zlen p ≤ MaxPlainSize ∨ MaxPacketSize < zlen p) (writeCh c)) :
  ∃ c' wire,
    writeLoop_run (length (writeCh c)) c = Some c' ∧ writeCh c' = [] ∧
    wire_of (trace c') = wire_of (trace c) ++ wire ∧
    let sent := filter (fun p => sendable p = true) (writeCh c) in
    sentNonce c' = Nat.iter (length sent) Tcp.incrNonce (sentNonce c) ∧
    ∀ r rest, pending r = wire ++ rest →
      ∃ r', decodeAll (shrkey c) (sentNonce c) (length sent) r =
        (Ret (sent, sentNonce c'), r') ∧ pending r' = rest.
Proof.
  destruct (writeLoop_run_encodeAll (writeCh c) c eq_refl Hc)
    as (c' & wire & n' & Er & Ew & Ee & Et & En).
  destruct (encode_decode_all (shrkey c) (sentNonce c)
    (filter (fun p => sendable p = true) (writeCh c))) as (wire2 & Ee2 & Hd).
  { rewrite list.Forall_forall in *. intros p [Hs Hin]%list_elem_of_filter.
    destruct (Hq p Hin); [done|]. unfold sendable in Hs. zbool. lia. }
  rewrite Ee in Ee2. injection Ee2 as <- ->. rewrite <- En in Hd.
  exists c', wire. auto.
Qed.

Lemma write_loop_delivers_witness :
  ∃ c c' wire, @New ToyBox.toy_box (hexEncode (replicate 32 x01)) (hexEncode (replicate 32 x02))
      (Callbacks true true true true true) = Ret c ∧
    let c1 := with_writeCh [str "one"; replicate 2049 x00; str "two"]
                (with_conn (Some (Reader [] EOF)) c) in
    @writeLoop_run ToyBox.toy_box 3 c1 = Some c' ∧ wire_of (trace c') = wire ∧
    ∀ r rest, pending r = wire ++ rest →
      ∃ r', @decodeAll ToyBox.toy_box (shrkey c1) (sentNonce c1) 2 r =
        (Ret ([str "one"; str "two"], sentNonce c'), r') ∧ pending r' = rest.
Proof.
  eexists. destruct (@write_loop_delivers ToyBox.toy_box ToyBox.toy_box_laws
    (with_writeCh [str "one"; replicate 2049 x00; str "two"]
       (with_conn (Some (Reader [] EOF))
          (TCPClient (replicate 32 x01) (replicate 32 x02) (replicate 32 x02) statusNoStatus
             None [] false (make_bytes 32) (make_bytes 24) (make_bytes 24) 0 0
             emptyConns (Callbacks true true true true true) []))))
    as (c' & wire & Er & _ & Ew & _ & Hd).
  - discriminate.
  - constructor; [left; vm_compute; discriminate|].
    constructor; [right; vm_compute; reflexivity|].
    constructor; [left; vm_compute; discriminate|constructor].
  - exists c', wire. split; [vm_compute; reflexivity|].
    split; [exact Er|]. split; [exact Ew|]. exact Hd.
Defined.

(** C6: the wire of a session, in every interleaving.  After a [Connect] that
    drew the nonce [sn], while the write loop it started is the only one, and
    whatever its iterations, those of the read and ping loops and the API calls
    do in any order (until the next [Connect]): what was queued is, in order,
    what the write loop has taken followed by what is still queued, at most 64
    packets; the bytes on the wire are the packets of what was taken (plaintexts
    over 2048 bytes are skipped) under the nonces [sn], [sn + 1], ..., one nonce
    per packet; at most one packet is lost, the one the write loop returned
    with (no connection, or a failed write, of which a beginning may be on the
    wire). *)
Theorem session_wire `{NaclBoxLaws} (gen : option (bytes * bytes)) (sn inn : bytes)
    (dial : option reader) (ok pick : bool) (draws : list Z) (now : Z) (c c1 c2 : tcpClient)
    (Hc : client_inv c) (Hgen : ∀ pk sk, gen = Some (pk, sk) → keypair pk sk)
    (Hsn : length sn = NonceSize)
    (Hcon : Connect gen sn inn dial ok draws now pick c = (Ret (Some c1), c2))
    (b : bool) (q : list bytes) (c3 : tcpClient) (Hs : session c1 b q c3) :
  client_inv c3 ∧ shrkey c3 = shrkey c1 ∧
  ∃ taken w, q = taken ++ writeCh c3 ∧
    wire_of (trace c3) = wire_of (trace c1) ++ w ∧
    wrote (shrkey c1) sn b taken w (sentNonce c3).
Proof.
  split.
  { eapply session_inv; [exact Hs|].
    destruct (Connect_inv _ _ _ _ _ _ _ _ _ _ _ Hgen Hsn Hcon Hc) as [_ Hi]. by apply Hi. }
  rewrite <- (Connect_nonce _ _ _ _ _ _ _ _ _ _ _ Hcon). by apply session_wrote.
Qed.

(** A client that connects, writes its ping, queues an onion request and fails
    after three bytes of it. *)
Lemma session_wire_witness :
  ∃ c c1 c2 c3 w,
    @New ToyBox.toy_box (hexEncode (replicate 32 x01)) (hexEncode (replicate 32 x02))
      (Callbacks true true true true true) = Ret c ∧
    @Connect ToyBox.toy_box (Some (replicate 32 x03, replicate 32 x03)) (replicate 24 x04)
      (replicate 24 x05)
      (Some (Reader [replicate 24 x06 ++ @box_seal ToyBox.toy_box
               (replicate 32 x08 ++ replicate 24 x07) (replicate 24 x06) (replicate 32 x03)] EOF))
      true [9] 0 true c = (Ret (Some c1), c2) ∧
    @session ToyBox.toy_box c1 false [buildPing 9; buildOnionRequest (str "hi")] c3 ∧
    conn c3 = None ∧ wire_of (trace c3) = wire_of (trace c1) ++ w ∧
    @wrote ToyBox.toy_box (shrkey c1) (replicate 24 x04) false
      [buildPing 9; buildOnionRequest (str "hi")] w (sentNonce c3).
Proof.
  destruct (@New ToyBox.toy_box (hexEncode (replicate 32 x01)) (hexEncode (replicate 32 x02))
      (Callbacks true true true true true)) as [c| |] eqn:Ec; [|vm_compute in Ec; discriminate Ec..].
  destruct (@Connect ToyBox.toy_box (Some (replicate 32 x03, replicate 32 x03)) (replicate 24 x04)
      (replicate 24 x05)
      (Some (Reader [replicate 24 x06 ++ @box_seal ToyBox.toy_box
               (replicate 32 x08 ++ replicate 24 x07) (replicate 24 x06) (replicate 32 x03)] EOF))
      true [9] 0 true c) as [[[c1|]| |] c2] eqn:E;
    [|vm_compute in Ec; injection Ec as <-; vm_compute in E; discriminate E..].
  pose proof E as E0. vm_compute in Ec. injection Ec as <-. vm_compute in E. injection E as E1 _.
  pose proof (@session_start ToyBox.toy_box c1) as Hs.
  replace (writeCh c1) with [buildPing 9] in Hs by (rewrite <- E1; vm_compute; reflexivity).
  destruct (@writeLoop_body ToyBox.toy_box true Wrote c1) as [[x|x]|] eqn:Ex;
    [|rewrite <- E1 in Ex; vm_compute in Ex; discriminate Ex..].
  apply (@session_write ToyBox.toy_box _ _ _ _ _ _ Hs) in Ex as Hs1. cbn [result_state continues] in Hs1.
  rewrite <- E1 in Ex. vm_compute in Ex. injection Ex as Ex.
  destruct (sendPlaintext true (buildOnionRequest (str "hi")) x) as [y|] eqn:Ey;
    [|rewrite <- Ex in Ey; vm_compute in Ey; discriminate Ey].
  eapply (@session_act ToyBox.toy_box _ _ _ _ y) in Hs1;
    [|apply (@act_onion ToyBox.toy_box _ true (str "hi")); unfold SendOnionRequest; by rewrite Ey].
  rewrite <- Ex in Ey. vm_compute in Ey. injection Ey as Ey.
  destruct (@writeLoop_body ToyBox.toy_box true (WriteFailed 3) y) as [[z|z]|] eqn:Ez;
    [rewrite <- Ey in Ez; vm_compute in Ez; discriminate Ez| |
     rewrite <- Ey in Ez; vm_compute in Ez; discriminate Ez].
  apply (@session_write ToyBox.toy_box _ _ _ _ _ _ Hs1) in Ez as Hs2.
  replace ([buildPing 9] ++ queued _ y) with [buildPing 9; buildOnionRequest (str "hi")] in Hs2
    by (rewrite <- Ey, <- Ex; vm_compute; reflexivity).
  rewrite <- Ey in Ez. vm_compute in Ez. injection Ez as Ez. cbn [result_state continues] in Hs2.
  pose proof E0 as Ewit.
  eapply (@session_wire ToyBox.toy_box ToyBox.toy_box_laws) in Ewit
    as (_ & _ & taken & w & Hq & Hw & Hwr); cycle 1.
  - apply (@New_inv ToyBox.toy_box (hexEncode (replicate 32 x01)) (hexEncode (replicate 32 x02))
             (Callbacks true true true true true)). vm_compute. reflexivity.
  - intros pk sk E. injection E as <- <-. split; reflexivity.
  - reflexivity.
  - exact Hs2.
  - eexists _, c1, c2, z, w. split; [vm_compute; reflexivity|]. split; [exact E0|].
    split; [exact Hs2|]. split; [rewrite <- Ez; reflexivity|]. split; [exact Hw|].
    replace (writeCh z) with (@nil bytes) in Hq by (rewrite <- Ez; reflexivity).
    rewrite app_nil_r in Hq. by rewrite Hq.
Defined.

(** [SendData] on a reachable client never panics and never fails on the
    connection id: it answers [ErrInvalidKey] exactly when the key is not
    hexadecimal, [ErrPeerNotFound] exactly when no used slot has the key, and
    otherwise queues the data packet of the lowest used slot with that key. *)
Theorem SendData_behaviour `{NaclBox} (pick : bool) (pk data : bytes) (c : tcpClient)
    (Hc : client_inv c) :
  match hexDecode pk with
  | None => SendData pick pk data c = Fail ErrInvalidKey
  | Some b =>
      SendData pick pk data c = Fail ErrPeerNotFound ∧
        (∀ s, s ∈ conns c → slot_status s = connFree ∨ slot_pubkey s ≠ b) ∨
      ∃ k s, conns c !! k = Some s ∧ slot_status s ≠ connFree ∧ slot_pubkey s = b ∧
        (∀ j s', (j < k)%nat → conns c !! j = Some s' →
           slot_status s' = connFree ∨ slot_pubkey s' ≠ b) ∧
        SendData pick pk data c =
          Ret (sendPlaintext pick (data_packet (Z.of_nat k) data) c)
  end.
Proof.
  destruct (hexDecode pk) as [b|] eqn:Eh; [|unfold SendData; by rewrite Eh].
  destruct (findConnID c b) as [id|] eqn:Ef; [right|left].
  - pose proof (SendData_eq pick pk data c id b Hc Eh Ef) as Es.
    unfold findConnID in Ef.
    assert (zlen (conns c) = 240) as Hz by (unfold zlen; by rewrite (inv_conns c Hc)).
    apply findConnID_loop_Some in Ef as (k & s & -> & E1 & E2 & E3 & E4); [|lia..].
    exists k, s. split_and!; done.
  - split; [unfold SendData; by rewrite Eh, Ef|].
    exact (proj1 (findConnID_loop_None _ _ _) Ef).
Qed.

Lemma SendData_behaviour_witness :
  ∃ c, @New ToyBox.toy_box (hexEncode (replicate 32 x01)) (hexEncode (replicate 32 x02))
      (Callbacks true true true true true) = Ret c ∧
    SendData true (hexEncode (replicate 32 x09)) (str "x") c = Fail ErrPeerNotFound.
Proof.
  eexists. split; [vm_compute; reflexivity|].
  match goal with |- SendData _ _ _ ?c = _ =>
    assert (client_inv c) as Hc
      by (apply (@New_inv ToyBox.toy_box (hexEncode (replicate 32 x01))
            (hexEncode (replicate 32 x02)) (Callbacks true true true true true));
          vm_compute; reflexivity);
    pose proof (@SendData_behaviour ToyBox.toy_box true (hexEncode (replicate 32 x09))
                  (str "x") c Hc) as HS
  end.
  rewrite hexDecode_hexEncode in HS.
  destruct HS as [[E _]|(k & s & E & Hs & _)]; [exact E|exfalso].
  apply list_elem_of_lookup_2 in E. apply Hs. clear Hs.
  revert s E. apply list.Forall_forall. vm_compute. repeat constructor.
Defined.

(** The keep-alive.  A tick of [pingLoop] ends the loop exactly when a ping
    has been outstanding for more than ten seconds, and then the client is
    disconnected; a pong that carries the outstanding id clears it, so that the
    next tick does not disconnect, and a pong with another id changes nothing. *)
Theorem keep_alive (c : tcpClient) (draws : list Z) (now id : Z) (pick : bool)
    (Hid : 0 ≤ id < 2 ^ 64) :
  ((∃ c', pingLoop_tick draws now pick c = Some (Return c')) ↔
     pingID c ≠ 0 ∧ TCPPingTimeout * second < now - lastPinged c) ∧
  (∀ c', pingLoop_tick draws now pick c = Some (Return c') →
     status c' = statusDisconnected ∧ doneCh c' = true ∧ conn c' = None) ∧
  (pingID c = id → id ≠ 0 →
     dispatchPacket pick (buildPong id) c = Some (with_ping 0 (lastPinged c) c) ∧
     ∀ c', pingLoop_tick draws now pick (with_ping 0 (lastPinged c) c) ≠ Some (Return c')) ∧
  (pingID c ≠ id → dispatchPacket pick (buildPong id) c = Some c).
Proof.
  assert (dispatchPacket pick (buildPong id) c =
    if negb (id =? 0) && (id =? pingID c) then Some (with_ping 0 (lastPinged c) c)
    else Some c) as Hd.
  { pose proof (pong_rt id Hid) as Hp. unfold dispatchPacket, buildPong in *.
    rewrite Hp, bz_zb_small by done. done. }
  assert (∀ c0 c', pingID c0 = 0 → pingLoop_tick draws now pick c0 ≠ Some (Return c')) as Hz.
  { intros c0 c' E0. unfold pingLoop_tick. rewrite E0. cbn [negb andb Z.eqb].
    destruct (_ >? _); [|done]. by destruct (sendPing _ _ _ _). }
  rewrite Hd. split_and!.
  - split.
    + intros (c' & E). destruct (decide (pingID c = 0)) as [E0|E0]; [by apply Hz in E|].
      split; [done|]. unfold pingLoop_tick in E.
      destruct (pingID c =? 0) eqn:E1; zbool; [done|]. cbn [negb andb] in E.
      destruct (_ >? _) eqn:E2; zbool; [done|discriminate E].
    + intros [E0 E1]. unfold pingLoop_tick. apply Z.eqb_neq in E0. rewrite E0.
      cbn [negb andb]. rewrite Z.gtb_ltb. apply Z.ltb_lt in E1. rewrite E1. eauto.
  - intros c'. clear Hd. unfold pingLoop_tick. case_match; [intros E; by simplify_eq|].
    case_match; [|done]. by destruct (sendPing _ _ _ _).
  - intros <- H0. apply Z.eqb_neq in H0. rewrite H0, Z.eqb_refl. split; [done|].
    intros c'. by apply Hz.
  - intros H0. destruct (id =? pingID c) eqn:E; zbool; [congruence|]. by rewrite andb_false_r.
Qed.

Lemma keep_alive_witness :
  ∃ c, @New ToyBox.toy_box (hexEncode (replicate 32 x01)) (hexEncode (replicate 32 x02))
      (Callbacks true true true true true) = Ret c ∧
    dispatchPacket true (buildPong 77) (with_ping 77 5 c) =
      Some (with_ping 0 5 (with_ping 77 5 c)).
Proof.
  destruct (@New ToyBox.toy_box _ _ _) as [c| |] eqn:Ec; [|vm_compute in Ec; discriminate Ec..].
  exists c. split; [done|].
  destruct (keep_alive (with_ping 77 5 c) [] 0 77 true) as (_ & _ & H & _); [lia|].
  exact (proj1 (H eq_refl ltac:(discriminate))).
Defined.

(** [doneCh] is never reopened: once a client has been disconnected or
    closed, every later state has it closed.  A second [Connect] that succeeds
    therefore reports [IsConnected] on a client whose write loop can return at
    once with its packets unsent. *)
Theorem reconnect_keeps_done `{NaclBox} (gen : option (bytes * bytes)) (sn inn : bytes)
    (dial : option reader) (ok pick : bool) (draws : list Z) (now : Z) (c c1 c2 : tcpClient)
    (Hd : doneCh c = true)
    (Hcon : Connect gen sn inn dial ok draws now pick c = (Ret (Some c1), c2))
    (c3 : tcpClient) (Hr : reachable c1 c3) :
  IsConnected c1 = true ∧ doneCh c3 = true ∧
  writeLoop_body false Wrote c3 = Some (Return c3).
Proof.
  assert (doneCh c1 = true ∧ status c1 = statusConfirmed) as [H1 H2].
  { apply Connect_ret in Hcon as (Ed & Es & Ep). symmetry in Ep.
    apply sendPing_fields in Ep as [Ed' Es']. split; congruence. }
  assert (doneCh c3 = true) as H3.
  { induction Hr as [|x y _ IH Hs]; [done|]. by eapply doneCh_final. }
  split; [unfold IsConnected; by rewrite H2|]. split; [done|].
  unfold writeLoop_body. rewrite H3. by destruct (writeCh c3).
Qed.

Lemma reconnect_keeps_done_witness :
  ∃ c c1 c2, doneCh c = true ∧
    @Connect ToyBox.toy_box (Some (replicate 32 x03, replicate 32 x03)) (replicate 24 x04)
      (replicate 24 x05)
      (Some (Reader [replicate 24 x06 ++ @box_seal ToyBox.toy_box
               (replicate 32 x08 ++ replicate 24 x07) (replicate 24 x06) (replicate 32 x03)] EOF))
      true [9] 0 true c = (Ret (Some c1), c2) ∧
    IsConnected c1 = true ∧ doneCh c1 = true ∧
    @writeLoop_body ToyBox.toy_box false Wrote c1 = Some (Return c1).
Proof.
  exists (TCPClient (replicate 32 x01) (replicate 32 x02) (replicate 32 x02) statusDisconnected
       None [] true (make_bytes 32) (make_bytes 24) (make_bytes 24) 0 0 []
       (Callbacks true true true true true) []).
  destruct (Connect _ _ _ _ _ _ _ _ _) as [[[c1|]| |] c2] eqn:E;
    [|vm_compute in E; discriminate E..].
  exists c1, c2. split; [reflexivity|]. split; [reflexivity|].
  eapply (@reconnect_keeps_done ToyBox.toy_box); [|exact E|apply reach_init].
  reflexivity.
Defined.
