(* ===== verification/Varint.v ===== *)
(** * Varints (relayhub/varint.go over [encoding/binary])

    [encodeVarint], [decodeVarint], [readVarint] and the [byteReader] adapter.
    The theorems: an encoded [uint64] has 1 to 10 bytes and both decoders read
    it back, leaving what follows; every successful decode is within the buffer
    and within 64 bits; the buffer decoder and the stream decoder agree. *)

From S2P Require Import Prelude GoIO.
Local Open Scope Z_scope.

Definition MaxVarintLen64 : nat := 10.

(** ** [encoding/binary] *)

(** [binary.PutUvarint] writes at most [fuel] bytes; ten are enough for 64
    bits ([length_PutUvarint]). *)
Fixpoint PutUvarint (fuel : nat) (x : Z) : bytes :=
  match fuel with
  | O => []
  | S f =>
      if x >=? 128 then zb (Z.lor (u8 x) 128) :: PutUvarint f (Z.shiftr x 7)
      else [zb x]
  end.

(** [binary.Uvarint]: the value and the number of bytes, which is [0] on a
    short buffer and negative on overflow. *)
Fixpoint Uvarint_loop (buf : bytes) (i : nat) (x s : Z) : Z * Z :=
  match buf with
  | [] => (0, 0)
  | b :: buf' =>
      if bool_decide (i = MaxVarintLen64) then (0, - (Z.of_nat i + 1))
      else if bz b <? 128 then
        if bool_decide (i = MaxVarintLen64 - 1)%nat && (bz b >? 1)
        then (0, - (Z.of_nat i + 1))
        else (Z.lor x (u64 (Z.shiftl (bz b) s)), Z.of_nat i + 1)
      else Uvarint_loop buf' (S i) (Z.lor x (u64 (Z.shiftl (Z.land (bz b) 127) s))) (s + 7)
  end.

Definition Uvarint (buf : bytes) : Z * Z := Uvarint_loop buf 0 0 0.

Inductive varint_err : Type :=
| VarintIO (e : io_err)
| VarintOverflow.

#[export] Instance varint_err_eq_dec : EqDecision varint_err.
Proof. solve_decision. Defined.

(** [byteReader.ReadByte] *)
Definition ReadByte : stm reader io_err byte :=
  buf ← ReadFull 1;
  stm_lift (match buf with b :: _ => Ret b | [] => Panic end).

(** [binary.ReadUvarint]: [todo] iterations are left, [i] are done. *)
Fixpoint ReadUvarint_loop (todo i : nat) (x s : Z) : stm reader varint_err Z :=
  match todo with
  | O => stm_fail VarintOverflow
  | S todo =>
      fun r =>
        match ReadByte r with
        | (Fail e, r1) =>
            (Fail (VarintIO (if bool_decide (i ≠ 0%nat ∧ e = EOF)
                             then ErrUnexpectedEOF else e)), r1)
        | (Panic, r1) => (Panic, r1)
        | (Ret b, r1) =>
            if bz b <? 128 then
              if bool_decide (i = MaxVarintLen64 - 1)%nat && (bz b >? 1)
              then (Fail VarintOverflow, r1)
              else (Ret (Z.lor x (u64 (Z.shiftl (bz b) s))), r1)
            else ReadUvarint_loop todo (S i)
                   (Z.lor x (u64 (Z.shiftl (Z.land (bz b) 127) s))) (s + 7) r1
        end
  end.

Definition ReadUvarint : stm reader varint_err Z := ReadUvarint_loop MaxVarintLen64 0 0 0.

(** ** varint.go *)

Definition encodeVarint (v : Z) : bytes := PutUvarint MaxVarintLen64 v.
Definition decodeVarint (data : bytes) : Z * Z := Uvarint data.
Definition readVarint : stm reader varint_err Z := ReadUvarint.

(** ** Arithmetic of the 7-bit groups *)

Lemma group_bits b : 128 ≤ Z.lor (bz b) 128 < 256 ∧ Z.land (Z.lor (bz b) 128) 127 = bz b mod 128.
Proof. destruct b; vm_compute; repeat split; discriminate. Qed.

Lemma bz_more x : bz (zb (Z.lor (u8 x) 128)) = x mod 128 + 128.
Proof.
  assert (u8 x = bz (zb x)) as -> by (by rewrite bz_zb).
  destruct (group_bits (zb x)) as [Hr Hl].
  rewrite bz_zb_small by lia.
  rewrite bz_zb in *. change 127 with (Z.ones 7) in Hl.
  rewrite Z.land_ones in Hl by lia. change (2 ^ 7) with 128 in Hl.
  replace (x mod 256 mod 128) with (x mod 128) in Hl; cycle 1.
  { pose proof (Z.div_mod x 256). rewrite (Z.mod_eq x 256) by lia.
    replace (x - 256 * (x / 256)) with (x + (- (2 * (x / 256))) * 128) by lia.
    by rewrite Z_mod_plus_full. }
  rewrite <- Hl. rewrite (Z.mod_eq (Z.lor _ _) 128) by lia.
  assert (Z.lor (x mod 256) 128 / 128 = 1); [|lia].
  symmetry. apply (Z.div_unique _ _ _ (Z.lor (x mod 256) 128 - 128)); lia.
Qed.

Lemma lor_shiftl_add x b s :
  0 ≤ s → 0 ≤ x < 2 ^ s → Z.lor x (Z.shiftl b s) = x + b * 2 ^ s.
Proof.
  intros Hs Hx. rewrite <- Z.shiftl_mul_pow2 by done.
  assert (Z.land x (Z.shiftl b s) = 0) as Hl.
  { apply Z.bits_inj'. intros n Hn. rewrite Z.land_spec, Z.bits_0.
    destruct (Z.lt_ge_cases n s).
    - rewrite Z.shiftl_spec_low by lia. apply andb_false_r.
    - rewrite <- (Z.mod_small x (2 ^ s)), Z.mod_pow2_bits_high by lia. done. }
  rewrite Z.add_nocarry_lxor, <- Z.lxor_lor by done. done.
Qed.

Lemma land_127 b : 0 ≤ b → Z.land b 127 = b mod 128.
Proof. intros. change 127 with (Z.ones 7). by rewrite Z.land_ones by lia. Qed.

(** ** Round trip *)

Lemma length_PutUvarint fuel x : (length (PutUvarint fuel x) ≤ fuel)%nat.
Proof.
  revert x. induction fuel as [|f IH]; intros x; cbn [PutUvarint length]; [lia|].
  destruct (x >=? 128); cbn [length]; [|lia]. specialize (IH (Z.shiftr x 7)). lia.
Qed.

Lemma PutUvarint_nonempty fuel x : (0 < fuel)%nat → PutUvarint fuel x ≠ [].
Proof. destruct fuel; [lia|]. cbn [PutUvarint]. by destruct (x >=? 128). Qed.

(** The two decoders on the output of the encoder, from the [i]-th group on. *)
Section RoundTrip.
Context (i : nat) (v x : Z).
Context (Hv : 0 ≤ v * 2 ^ (7 * Z.of_nat i) < 2 ^ 64).
Context (Hx : 0 ≤ x < 2 ^ (7 * Z.of_nat i)).

Lemma rt_pos : 0 < 2 ^ (7 * Z.of_nat i).
Proof. apply Z.pow_pos_nonneg; lia. Qed.

Lemma rt_last : i = 9%nat → v < 2.
Proof. intros E. rewrite E in Hv. cbn in Hv. lia. Qed.

Lemma rt_v_nonneg : 0 ≤ v.
Proof. pose proof rt_pos. nia. Qed.

Lemma rt_step_x :
  Z.lor x (u64 (Z.shiftl (Z.land (v mod 128 + 128) 127) (7 * Z.of_nat i))) =
    x + (v mod 128) * 2 ^ (7 * Z.of_nat i).
Proof.
  pose proof rt_pos. pose proof rt_v_nonneg.
  pose proof (Z.mod_pos_bound v 128 ltac:(lia)).
  rewrite land_127, Z.add_mod, Z.mod_same, Z.add_0_r, !Z.mod_mod by lia.
  rewrite Z.shiftl_mul_pow2 by lia.
  unfold u64. rewrite wrap_u_small.
  - rewrite <- Z.shiftl_mul_pow2, lor_shiftl_add by lia.
    by rewrite Z.shiftl_mul_pow2 by lia.
  - pose proof (Z.mod_le v 128). nia.
Qed.

Lemma rt_last_x :
  Z.lor x (u64 (Z.shiftl v (7 * Z.of_nat i))) = x + v * 2 ^ (7 * Z.of_nat i).
Proof.
  pose proof rt_pos. rewrite Z.shiftl_mul_pow2 by lia.
  unfold u64. rewrite wrap_u_small by lia.
  rewrite <- Z.shiftl_mul_pow2, lor_shiftl_add by lia.
  by rewrite Z.shiftl_mul_pow2 by lia.
Qed.

Lemma rt_next :
  128 ≤ v →
  0 ≤ Z.shiftr v 7 * 2 ^ (7 * Z.of_nat (S i)) < 2 ^ 64 ∧
  0 ≤ x + (v mod 128) * 2 ^ (7 * Z.of_nat i) < 2 ^ (7 * Z.of_nat (S i)) ∧
  x + (v mod 128) * 2 ^ (7 * Z.of_nat i) + Z.shiftr v 7 * 2 ^ (7 * Z.of_nat (S i))
    = x + v * 2 ^ (7 * Z.of_nat i).
Proof.
  intros H128. pose proof rt_pos.
  assert (2 ^ (7 * Z.of_nat (S i)) = 128 * 2 ^ (7 * Z.of_nat i)) as ->.
  { replace (7 * Z.of_nat (S i)) with (7 + 7 * Z.of_nat i) by lia.
    by rewrite Z.pow_add_r by lia. }
  rewrite Z.shiftr_div_pow2 by lia. change (2 ^ 7) with 128.
  pose proof (Z.div_mod v 128 ltac:(lia)) as Hdm.
  pose proof (Z.mod_pos_bound v 128 ltac:(lia)). pose proof (Z.div_pos v 128 ltac:(lia) ltac:(lia)).
  set (P := 2 ^ (7 * Z.of_nat i)) in *. set (q := v / 128) in *. set (r := v mod 128) in *.
  assert (q * (128 * P) ≤ v * P) by nia. repeat split; nia.
Qed.

End RoundTrip.

Lemma Uvarint_loop_rt f i v x rest :
  (i + f = 10)%nat → (0 < f)%nat → 0 ≤ v * 2 ^ (7 * Z.of_nat i) < 2 ^ 64 →
  0 ≤ x < 2 ^ (7 * Z.of_nat i) →
  Uvarint_loop (PutUvarint f v ++ rest) i x (7 * Z.of_nat i) =
    (x + v * 2 ^ (7 * Z.of_nat i), Z.of_nat i + zlen (PutUvarint f v)).
Proof.
  revert i v x. induction f as [|f IH]; intros i v x Hi Hf Hv Hx; [lia|].
  pose proof (rt_v_nonneg i v Hv). cbn [PutUvarint].
  destruct (v >=? 128) eqn:E; zbool.
  - assert (i ≠ 9%nat) by (intros ->; pose proof (rt_last 9 v Hv eq_refl); lia).
    rewrite zlen_cons. cbn [app Uvarint_loop].
    rewrite bool_decide_false by (unfold MaxVarintLen64; lia). rewrite bz_more.
    pose proof (Z.mod_pos_bound v 128 ltac:(lia)).
    destruct (v mod 128 + 128 <? 128) eqn:E2; zbool; [lia|].
    rewrite (rt_step_x i v x Hv Hx).
    destruct (rt_next i v x Hv Hx E) as (Hv' & Hx' & Heq).
    replace (7 * Z.of_nat i + 7) with (7 * Z.of_nat (S i)) by lia.
    rewrite IH by (done || lia). f_equal; lia.
  - cbn [app Uvarint_loop]. rewrite bool_decide_false by (unfold MaxVarintLen64; lia).
    rewrite bz_zb_small by lia. destruct (v <? 128) eqn:E2; zbool; [|lia].
    replace (bool_decide _ && _) with false; cycle 1.
    { symmetry. case_bool_decide as E9; [|done]. unfold MaxVarintLen64 in E9.
      pose proof (rt_last i v Hv ltac:(lia)). destruct (v >? 1) eqn:E3; zbool; [lia|done]. }
    by rewrite (rt_last_x i v x Hv Hx).
Qed.

Lemma decodeVarint_encodeVarint v rest :
  0 ≤ v < 2 ^ 64 → decodeVarint (encodeVarint v ++ rest) = (v, zlen (encodeVarint v)).
Proof.
  intros Hv. pose proof (Uvarint_loop_rt 10 0 v 0 rest) as H.
  change (7 * Z.of_nat 0) with 0 in H. change (2 ^ 0) with 1 in H.
  rewrite Z.mul_1_r, !Z.add_0_l in H. apply H; lia.
Qed.

Lemma zlen_encodeVarint v : 1 ≤ zlen (encodeVarint v) ≤ 10.
Proof.
  unfold encodeVarint, zlen.
  pose proof (length_PutUvarint MaxVarintLen64 v).
  pose proof (PutUvarint_nonempty MaxVarintLen64 v ltac:(unfold MaxVarintLen64; lia)).
  unfold MaxVarintLen64 in *. destruct (PutUvarint 10 v); [done|]. cbn [length] in *. lia.
Qed.

(** ** Bounds of a successful decode *)

Lemma lor_bound64 x y : 0 ≤ x < 2 ^ 64 → 0 ≤ y < 2 ^ 64 → 0 ≤ Z.lor x y < 2 ^ 64.
Proof.
  intros Hx Hy. assert (0 ≤ Z.lor x y) by (apply Z.lor_nonneg; lia). split; [done|].
  destruct (Z.eq_dec (Z.lor x y) 0) as [->|]; [lia|].
  apply Z.log2_lt_pow2; [lia|]. rewrite Z.log2_lor by lia.
  apply Z.max_lub_lt.
  - destruct (Z.eq_dec x 0) as [->|]; [cbn; lia|]. apply Z.log2_lt_pow2; lia.
  - destruct (Z.eq_dec y 0) as [->|]; [cbn; lia|]. apply Z.log2_lt_pow2; lia.
Qed.

Lemma u64_range z : 0 ≤ u64 z < 2 ^ 64.
Proof. apply Z.mod_pos_bound. lia. Qed.

Lemma Uvarint_loop_lt buf i x s v n :
  Uvarint_loop buf i x s = (v, n) → 0 < n → Z.of_nat i < n.
Proof.
  revert i x s. induction buf as [|b buf IH]; intros i x s H Hn; [cbn in H; simplify_eq; lia|].
  cbn [Uvarint_loop] in H.
  case_bool_decide; [simplify_eq; lia|].
  destruct (bz b <? 128); [destruct (_ && _); simplify_eq; lia|].
  apply IH in H; lia.
Qed.

Lemma Uvarint_loop_bounds buf i x s v n :
  (i ≤ 10)%nat → 0 ≤ x < 2 ^ 64 → Uvarint_loop buf i x s = (v, n) → 0 < n →
  0 ≤ v < 2 ^ 64 ∧ Z.of_nat i < n ≤ 10 ∧ n ≤ Z.of_nat i + zlen buf.
Proof.
  revert i x s. induction buf as [|b buf IH]; intros i x s Hi Hx H Hn; [cbn in H; simplify_eq; lia|].
  cbn [Uvarint_loop] in H. rewrite zlen_cons. unfold MaxVarintLen64 in *.
  case_bool_decide; [simplify_eq; lia|].
  destruct (bz b <? 128).
  - destruct (_ && _); simplify_eq; [lia|]. unfold zlen.
    split; [|lia]. apply lor_bound64; auto using u64_range.
  - apply IH in H; [lia|lia| |lia]. apply lor_bound64; auto using u64_range.
Qed.

Lemma decodeVarint_bounds data v n :
  decodeVarint data = (v, n) → 0 < n → 0 ≤ v < 2 ^ 64 ∧ 1 ≤ n ≤ 10 ∧ n ≤ zlen data.
Proof.
  intros H Hn. apply (Uvarint_loop_bounds data 0 0 0) in H; try done; lia.
Qed.

(** ** The stream decoder reads what the buffer decoder reads *)

Lemma ReadByte_cons r b k :
  pending r = b :: k →
  ∃ r', ReadByte r = (Ret b, r') ∧ pending r' = k ∧ rd_err r' = rd_err r.
Proof.
  intros Hp. destruct (ReadFull_app 1 r [b] k) as (r' & E & ? & ?); [done..|].
  exists r'. unfold ReadByte, mbind, stm_bind. rewrite E. done.
Qed.

Lemma ReadUvarint_loop_agrees todo i x s r v n :
  (i + todo = 10)%nat →
  Uvarint_loop (pending r) i x s = (v, n) → 0 < n →
  ∃ r', ReadUvarint_loop todo i x s r = (Ret v, r') ∧
    pending r' = drop (Z.to_nat (n - Z.of_nat i)) (pending r) ∧ rd_err r' = rd_err r.
Proof.
  revert i x s r. induction todo as [|t IH]; intros i x s r Hi H Hn.
  - destruct (pending r) as [|b k]; cbn [Uvarint_loop] in H; [simplify_eq; lia|].
    rewrite bool_decide_true in H by (unfold MaxVarintLen64; lia). simplify_eq. lia.
  - destruct (pending r) as [|b k] eqn:Hp; cbn [Uvarint_loop] in H; [simplify_eq; lia|].
    rewrite bool_decide_false in H by (unfold MaxVarintLen64; lia).
    destruct (ReadByte_cons r b k Hp) as (r1 & E1 & Hp1 & He1).
    cbn [ReadUvarint_loop]. rewrite E1. unfold MaxVarintLen64 in *.
    destruct (bz b <? 128).
    + destruct (_ && _); simplify_eq; [lia|]. exists r1. split; [done|].
      replace (Z.to_nat _) with 1%nat by lia. done.
    + rewrite <- Hp1 in H. destruct (IH (S i) _ _ r1 ltac:(lia) H Hn) as (r' & E & Hp' & He').
      exists r'. rewrite E. split; [done|]. split; [|by rewrite He'].
      rewrite Hp', Hp1.
      apply Uvarint_loop_lt in H; [|done].
      by replace (Z.to_nat (n - Z.of_nat i)) with (S (Z.to_nat (n - Z.of_nat (S i)))) by lia.
Qed.

Lemma readVarint_none r :
  pending r = [] → readVarint r = (Fail (VarintIO (rd_err r)), Reader [] (rd_err r)).
Proof.
  intros Hp. unfold readVarint, ReadUvarint. cbn [ReadUvarint_loop MaxVarintLen64].
  unfold ReadByte, mbind, stm_bind. rewrite ReadFull_short by (rewrite Hp; cbn; lia).
  rewrite Hp. rewrite !bool_decide_false by tauto. done.
Qed.

Lemma ReadByte_consumes r b r' :
  ReadByte r = (Ret b, r') → length (pending r) = S (length (pending r')).
Proof.
  unfold ReadByte. intros H. apply stm_bind_inv in H as (l & r1 & E & H).
  apply ReadFull_consumes in E. unfold stm_lift in H. destruct l; [done|].
  injection H as _ <-. lia.
Qed.

Lemma ReadUvarint_loop_consumes todo i x s r v r' :
  ReadUvarint_loop todo i x s r = (Ret v, r') → (length (pending r') < length (pending r))%nat.
Proof.
  revert i x s r. induction todo as [|t IH]; intros i x s r H; [done|].
  cbn [ReadUvarint_loop] in H. destruct (ReadByte r) as [[b|e|] r1] eqn:E; [|done..].
  apply ReadByte_consumes in E. destruct (bz b <? 128).
  - destruct (_ && _); [done|]. injection H as _ <-. lia.
  - apply IH in H. lia.
Qed.

Lemma readVarint_consumes r v r' :
  readVarint r = (Ret v, r') → (length (pending r') < length (pending r))%nat.
Proof. apply ReadUvarint_loop_consumes. Qed.

Lemma readVarint_agrees r v n :
  decodeVarint (pending r) = (v, n) → 0 < n →
  ∃ r', readVarint r = (Ret v, r') ∧ pending r' = drop (Z.to_nat n) (pending r) ∧
    rd_err r' = rd_err r.
Proof.
  intros H Hn.
  destruct (ReadUvarint_loop_agrees 10 0 0 0 r v n eq_refl H Hn) as (r' & E & Hp & He).
  exists r'. rewrite Z.sub_0_r in Hp. done.
Qed.

Lemma readVarint_encodeVarint r v rest :
  0 ≤ v < 2 ^ 64 → pending r = encodeVarint v ++ rest →
  ∃ r', readVarint r = (Ret v, r') ∧ pending r' = rest ∧ rd_err r' = rd_err r.
Proof.
  intros Hv Hp. pose proof (zlen_encodeVarint v).
  destruct (readVarint_agrees r v (zlen (encodeVarint v))) as (r' & E & Hp' & He).
  - rewrite Hp. by apply decodeVarint_encodeVarint.
  - lia.
  - exists r'. split; [done|]. split; [|done]. rewrite Hp', Hp. unfold zlen.
    by rewrite Nat2Z.id, drop_app_length.
Qed.

(** Every [uint64] encodes to between 1 and 10 bytes that both decoders turn
    back into the same value, whatever follows it: [decodeVarint] reports exactly
    the encoded length, and [readVarint] leaves exactly the following bytes in
    the stream, however the stream is chunked. *)
Theorem varint_roundtrip v rest r :
  0 ≤ v < 2 ^ 64 → pending r = encodeVarint v ++ rest →
  1 ≤ zlen (encodeVarint v) ≤ 10 ∧
  decodeVarint (encodeVarint v ++ rest) = (v, zlen (encodeVarint v)) ∧
  ∃ r', readVarint r = (Ret v, r') ∧ pending r' = rest.
Proof.
  intros Hv Hp. split; [apply zlen_encodeVarint|].
  split; [by apply decodeVarint_encodeVarint|].
  destruct (readVarint_encodeVarint r v rest Hv Hp) as (r' & ? & ? & _). eauto.
Qed.

Lemma varint_roundtrip_witness :
  decodeVarint (encodeVarint 300 ++ str "x") = (300, 2) ∧
  ∃ r', readVarint (Reader [encodeVarint 300; str "x"] EOF) = (Ret 300, r') ∧
    pending r' = str "x".
Proof.
  destruct (varint_roundtrip 300 (str "x") (Reader [encodeVarint 300; str "x"] EOF))
    as (_ & H & Hr); [lia|vm_compute; reflexivity|].
  split; [exact H|exact Hr].
Defined.

(** A varint that [decodeVarint] accepts ([n > 0]) lies inside the buffer,
    takes at most 10 bytes and fits in 64 bits, and [readVarint] on a stream with
    these bytes returns the same value and consumes the same number of bytes.
    (On bytes that [decodeVarint] rejects the two may report different errors.) *)
Theorem varint_decoders_agree r v n :
  decodeVarint (pending r) = (v, n) → 0 < n →
  0 ≤ v < 2 ^ 64 ∧ 1 ≤ n ≤ 10 ∧ n ≤ zlen (pending r) ∧
  ∃ r', readVarint r = (Ret v, r') ∧ pending r' = drop (Z.to_nat n) (pending r).
Proof.
  intros H Hn. destruct (decodeVarint_bounds _ _ _ H Hn) as (? & ? & ?).
  destruct (readVarint_agrees r v n H Hn) as (r' & ? & ? & _). eauto 7.
Qed.

Lemma varint_decoders_agree_witness :
  ∃ r', readVarint (Reader [[x80]; [x80; x00; x05]] EOF) = (Ret 0, r') ∧ pending r' = [x05].
Proof.
  destruct (varint_decoders_agree (Reader [[x80]; [x80; x00; x05]] EOF) 0 3)
    as (_ & _ & _ & H); [vm_compute; reflexivity|lia|exact H].
Defined.
