(* ===== verification/Base58.v ===== *)
(** * Base58 peer identifiers (relayhub/base58.go)

    [base58Encode], [base58Decode] and the decoding table that [init] fills.
    [math/big] integers are [Z]; [SetBytes] and [Bytes] are the big-endian
    value and its digits.  The theorems: the two functions are inverse to each
    other, in both directions, leading zero bytes included. *)

From S2P Require Import Prelude.
Local Open Scope Z_scope.

(** ** Positional numbers *)

(** The digits of [n] in base [b], least significant first, as the division
    loops produce them; [fuel] bounds the number of digits. *)
Fixpoint digits (b : Z) (fuel : nat) (n : Z) : list Z :=
  match fuel with
  | O => []
  | S f => if n >? 0 then n mod b :: digits b f (n / b) else []
  end.

(** The value of a digit sequence, most significant first. *)
Definition dval (b : Z) (ds : list Z) : Z := foldl (λ n d, n * b + d) 0 ds.

(** One digit at least is divided off per bit. *)
Definition bits_fuel (n : Z) : nat := S (Z.to_nat (Z.log2 n)).

(** ** The alphabet and its table *)

Definition base58Alphabet : bytes :=
  str "123456789ABCDEFGHJKLMNPQRSTUVWXYZabcdefghijkmnopqrstuvwxyz".

Definition alphabet_at (d : Z) : byte := nth (Z.to_nat d) base58Alphabet x31.

(** [init]: all entries [-1], then the index of every letter of the alphabet. *)
Definition base58DecodeTab : list Z :=
  foldl (λ tab i, <[Z.to_nat (bz (alphabet_at (Z.of_nat i))) := Z.of_nat i]> tab)
    (replicate 256 (-1)) (seq 0 58).

(** The entry of a character.  The source ranges over runes: a byte below
    0x80 is its own rune, and any other byte starts a rune of at least 0x80,
    for which the table has no entry or the entry [-1]. *)
Definition tab_at (c : byte) : Z := nth (Z.to_nat (bz c)) base58DecodeTab (-1).

(** ** base58Encode *)

Fixpoint base58Encode_loop (fuel : nat) (n : Z) (chars : bytes) : bytes :=
  match fuel with
  | O => chars
  | S f =>
      if n >? 0
      then base58Encode_loop f (n / 58) (chars ++ [alphabet_at (n mod 58)])
      else chars
  end.

(** The number of leading bytes equal to [c]. *)
Fixpoint leading (c : byte) (l : bytes) : nat :=
  match l with
  | [] => O
  | x :: k => if bool_decide (x = c) then S (leading c k) else O
  end.

(** [new(big.Int).SetBytes] *)
Definition SetBytes (data : bytes) : Z := dval 256 (map bz data).

(** [big.Int.Bytes]: no leading zero byte. *)
Definition big_Bytes (n : Z) : bytes := reverse (map zb (digits 256 (bits_fuel n) n)).

Definition base58Encode (data : bytes) : bytes :=
  if bool_decide (data = []) then []
  else
    let n := SetBytes data in
    let chars := base58Encode_loop (bits_fuel n) n [] in
    reverse (chars ++ replicate (leading x00 data) (alphabet_at 0)).

(** ** base58Decode *)

Inductive base58_err : Type :=
| Base58Empty
| Base58Invalid (c : byte).

Fixpoint base58Decode_loop (s : bytes) (n : Z) : outcome base58_err Z :=
  match s with
  | [] => Ret n
  | c :: s' =>
      if tab_at c =? -1 then Fail (Base58Invalid c)
      else base58Decode_loop s' (n * 58 + tab_at c)
  end.

Definition base58Decode (s : bytes) : outcome base58_err bytes :=
  if bool_decide (s = []) then Fail Base58Empty
  else
    n ← base58Decode_loop s 0;
    let leadingZeros := leading (alphabet_at 0) s in
    let data := big_Bytes n in
    Ret (copy_at leadingZeros (make_bytes (leadingZeros + length data)) data).

(** ** Normal digit sequences are unique *)

Definition norm (b : Z) (ds : list Z) : Prop :=
  Forall (λ d, 0 ≤ d < b) ds ∧ match ds with [] => True | d :: _ => d ≠ 0 end.

Lemma dval_snoc b ds d : dval b (ds ++ [d]) = dval b ds * b + d.
Proof. unfold dval. by rewrite foldl_app. Qed.

Lemma dval_nonneg b ds : 2 ≤ b → Forall (λ d, 0 ≤ d < b) ds → 0 ≤ dval b ds.
Proof.
  intros Hb. induction ds as [|d ds IH] using rev_ind; intros H; [done|].
  apply Forall_app in H as [H Hd]. inversion Hd; subst.
  rewrite dval_snoc. specialize (IH H). nia.
Qed.

Lemma norm_snoc b ds d : norm b (ds ++ [d]) → norm b ds ∧ 0 ≤ d < b ∧ (ds = [] → d ≠ 0).
Proof.
  intros [H Hh]. apply Forall_app in H as [H Hd]. inversion Hd; subst.
  repeat split; try done || lia.
  - by destruct ds.
  - by intros ->.
Qed.

Lemma norm_pos b ds : 2 ≤ b → norm b ds → ds ≠ [] → 0 < dval b ds.
Proof.
  intros Hb. induction ds as [|d ds IH] using rev_ind; intros H Hn; [done|].
  apply norm_snoc in H as (H & Hd & Hz). rewrite dval_snoc.
  destruct (decide (ds = [])) as [->|Hds].
  - specialize (Hz eq_refl). cbn. lia.
  - specialize (IH H Hds). nia.
Qed.

Lemma norm_unique b ds es :
  2 ≤ b → norm b ds → norm b es → dval b ds = dval b es → ds = es.
Proof.
  intros Hb. revert es. induction ds as [|d ds IH] using rev_ind; intros es Hd He Hv.
  - destruct (decide (es = [])) as [->|Hne]; [done|].
    pose proof (norm_pos b es Hb He Hne). cbn in Hv. lia.
  - induction es as [|e es _] using rev_ind.
    { pose proof (norm_pos b (ds ++ [d]) Hb Hd ltac:(by destruct ds)). cbn in *. lia. }
    apply norm_snoc in Hd as (Hd & ? & _). apply norm_snoc in He as (He & ? & _).
    rewrite !dval_snoc in Hv.
    assert (dval b ds = dval b es) as Hq
      by (destruct (Z.lt_trichotomy (dval b ds) (dval b es)) as [|[|]]; nia).
    rewrite (IH es) by done. do 2 f_equal. rewrite Hq in Hv. lia.
Qed.

Lemma digits_norm b fuel n :
  2 ≤ b → 0 ≤ n < 2 ^ Z.of_nat fuel →
  norm b (reverse (digits b fuel n)) ∧ dval b (reverse (digits b fuel n)) = n.
Proof.
  intros Hb. revert n. induction fuel as [|f IH]; intros n Hn.
  { cbn in *. repeat split; [constructor|lia]. }
  cbn [digits]. destruct (n >? 0) eqn:E; zbool.
  2:{ cbn. repeat split; [constructor|lia]. }
  pose proof (Z.div_mod n b ltac:(lia)) as Hdm. pose proof (Z.mod_pos_bound n b ltac:(lia)).
  assert (0 ≤ n / b < 2 ^ Z.of_nat f) as Hq.
  { split; [apply Z.div_pos; lia|]. apply Z.div_lt_upper_bound; [lia|].
    rewrite Nat2Z.inj_succ, Z.pow_succ_r in Hn by lia. nia. }
  destruct (IH _ Hq) as [[Hf Hh] Hv]. rewrite reverse_cons, dval_snoc, Hv.
  split; [|lia]. split.
  - apply Forall_app. split; [done|]. by constructor.
  - destruct (reverse (digits b f (n / b))) eqn:Er; [|done].
    cbn in *. lia.
Qed.

Lemma bits_fuel_enough n : 0 ≤ n → 0 ≤ n < 2 ^ Z.of_nat (bits_fuel n).
Proof.
  intros H. split; [done|]. unfold bits_fuel.
  destruct (Z.eq_dec n 0) as [->|]; [cbn; lia|].
  rewrite Nat2Z.inj_succ, Z2Nat.id by apply Z.log2_nonneg.
  apply Z.log2_spec. lia.
Qed.

(** ** Letters and digits *)

Lemma length_alphabet : length base58Alphabet = 58%nat.
Proof. reflexivity. Qed.

Lemma tab_alphabet d : 0 ≤ d < 58 → tab_at (alphabet_at d) = d.
Proof.
  intros H. rewrite <- (Z2Nat.id d) by lia. assert (Z.to_nat d < 58)%nat as Hk by lia.
  generalize dependent (Z.to_nat d). intros k Hk. clear H.
  do 58 (destruct k as [|k]; [vm_compute; reflexivity|]). lia.
Qed.

Lemma alphabet_tab c : tab_at c ≠ -1 → 0 ≤ tab_at c < 58 ∧ alphabet_at (tab_at c) = c.
Proof. destruct c; vm_compute; intuition (congruence || discriminate). Qed.

Lemma alphabet_zero d : 0 ≤ d < 58 → alphabet_at d = alphabet_at 0 ↔ d = 0.
Proof.
  intros H. split; [|by intros ->]. intros E.
  rewrite <- (tab_alphabet d H), E. reflexivity.
Qed.

(** ** Leading zeros *)

Lemma leading_app c l : ∃ k, l = replicate (leading c l) c ++ k ∧
  match k with [] => True | x :: _ => x ≠ c end.
Proof.
  induction l as [|x l (k & IH & Hk)]; [by exists []|]. cbn [leading].
  case_bool_decide as E; [|by exists (x :: l)].
  exists k. split; [|done]. cbn [replicate app]. by rewrite <- IH, E.
Qed.

Lemma leading_replicate c n k :
  match k with [] => True | x :: _ => x ≠ c end →
  leading c (replicate n c ++ k) = n.
Proof.
  intros Hk. induction n as [|n IH]; cbn [replicate app leading].
  - destruct k; [done|]. cbn. by rewrite bool_decide_false.
  - rewrite bool_decide_true by done. by rewrite IH.
Qed.

Lemma dval_zeros b n ds : dval b (replicate n 0 ++ ds) = dval b ds.
Proof.
  unfold dval. rewrite foldl_app. f_equal.
  induction n as [|n IH]; [done|]. cbn [replicate foldl]. by rewrite Z.add_0_r.
Qed.

(** ** What the loops compute *)

Lemma base58Encode_loop_digits fuel n chars :
  base58Encode_loop fuel n chars = chars ++ map alphabet_at (digits 58 fuel n).
Proof.
  revert n chars. induction fuel as [|f IH]; intros n chars; cbn [base58Encode_loop digits].
  - by rewrite app_nil_r.
  - destruct (n >? 0); [|by rewrite app_nil_r]. rewrite IH. cbn [map]. by rewrite <- app_assoc.
Qed.

Lemma base58Decode_loop_letters ds n :
  Forall (λ d, 0 ≤ d < 58) ds →
  base58Decode_loop (map alphabet_at ds) n = Ret (foldl (λ n d, n * 58 + d) n ds).
Proof.
  intros H. revert n. induction H as [|d ds Hd _ IH]; intros n; [done|].
  cbn [map base58Decode_loop foldl]. rewrite tab_alphabet by done.
  destruct (d =? -1) eqn:E; zbool; [lia|]. apply IH.
Qed.

Lemma base58Decode_loop_inv s n m :
  base58Decode_loop s n = Ret m →
  ∃ ds, s = map alphabet_at ds ∧ Forall (λ d, 0 ≤ d < 58) ds.
Proof.
  revert n. induction s as [|c s IH]; intros n H; [by exists []|].
  cbn [base58Decode_loop] in H. destruct (tab_at c =? -1) eqn:E; [done|]. zbool.
  destruct (alphabet_tab c E) as [Hr Hc]. destruct (IH _ H) as (ds & -> & Hds).
  exists (tab_at c :: ds). split; [|by constructor]. cbn [map]. by rewrite Hc.
Qed.

(** The digits of the two bases, most significant first. *)
Definition be_digits (b n : Z) : list Z := reverse (digits b (bits_fuel n) n).

Lemma be_digits_norm b n :
  2 ≤ b → 0 ≤ n → norm b (be_digits b n) ∧ dval b (be_digits b n) = n.
Proof. intros. apply digits_norm; [done|]. by apply bits_fuel_enough. Qed.

Lemma be_digits_dval b ds : 2 ≤ b → norm b ds → be_digits b (dval b ds) = ds.
Proof.
  intros Hb Hn. destruct (be_digits_norm b (dval b ds)) as [H1 H2]; [done| |].
  - apply dval_nonneg; [done|apply Hn].
  - by apply (norm_unique b).
Qed.

Lemma big_Bytes_digits n : big_Bytes n = map zb (be_digits 256 n).
Proof. symmetry. apply (fmap_reverse zb). Qed.

Lemma base58Encode_shape data :
  data ≠ [] →
  base58Encode data =
    map alphabet_at (replicate (leading x00 data) 0 ++ be_digits 58 (SetBytes data)).
Proof.
  intros H. unfold base58Encode. rewrite bool_decide_false by done.
  rewrite base58Encode_loop_digits. cbn [app].
  rewrite reverse_app, reverse_replicate, map_app.
  f_equal; [symmetry; apply (fmap_replicate alphabet_at)|].
  symmetry. apply (fmap_reverse alphabet_at).
Qed.

Lemma base58Decode_shape ds :
  ds ≠ [] → Forall (λ d, 0 ≤ d < 58) ds →
  base58Decode (map alphabet_at ds) =
    Ret (replicate (leading (alphabet_at 0) (map alphabet_at ds)) x00 ++
         map zb (be_digits 256 (dval 58 ds))).
Proof.
  intros Hn H. unfold base58Decode.
  rewrite bool_decide_false by (by destruct ds).
  rewrite base58Decode_loop_letters by done. rewrite bind_ret, big_Bytes_digits.
  f_equal. set (z := leading _ _). set (l := map zb _).
  assert (make_bytes (z + length l) = make_bytes z ++ make_bytes (length l)) as ->
    by apply replicate_add.
  rewrite copy_at_make; [|apply length_make_bytes|done].
  by rewrite Nat.sub_diag, app_nil_r.
Qed.

(** The letters of a normal digit sequence do not start with the zero letter. *)
Lemma leading_letters n ds :
  norm 58 ds →
  leading (alphabet_at 0) (map alphabet_at (replicate n 0 ++ ds)) = n.
Proof.
  intros [Hf Hh]. rewrite map_app.
  replace (map alphabet_at (replicate n 0)) with (replicate n (alphabet_at 0))
    by (symmetry; apply (fmap_replicate alphabet_at)).
  apply leading_replicate. destruct ds as [|d ds]; [done|]. cbn [map].
  inversion Hf; subst. by rewrite alphabet_zero.
Qed.

Lemma leading_digits ds :
  Forall (λ d, 0 ≤ d < 58) ds →
  ∃ es, ds = replicate (leading (alphabet_at 0) (map alphabet_at ds)) 0 ++ es ∧ norm 58 es.
Proof.
  induction 1 as [|d ds Hd Hds (es & IH & Hn)]; [exists []; repeat split; constructor|].
  cbn [map leading]. case_bool_decide as E.
  - apply alphabet_zero in E as ->; [|done]. exists es.
    split; [|done]. cbn [replicate app]. by rewrite <- IH.
  - exists (d :: ds). repeat split; [by constructor|]. by intros ->.
Qed.

Lemma norm_bytes k : match k with [] => True | x :: _ => x ≠ x00 end → norm 256 (map bz k).
Proof.
  intros H. split.
  - apply list.Forall_forall. intros z Hz. apply list_elem_of_fmap in Hz as (b & -> & _).
    apply bz_range.
  - destruct k as [|x k]; [done|]. cbn [map]. intros E. apply H.
    by rewrite <- (zb_bz x), E.
Qed.

Lemma norm_letters n ds : norm 58 ds → Forall (λ d, 0 ≤ d < 58) (replicate n 0 ++ ds).
Proof.
  intros [H _]. apply Forall_app. split; [|done].
  apply list.Forall_forall. intros d Hd. apply elem_of_replicate in Hd as [-> _]. lia.
Qed.

Lemma map_zb_bz k : map zb (map bz k) = k.
Proof. induction k as [|b k IH]; [done|]. cbn. by rewrite zb_bz, IH. Qed.

Lemma map_bz_zb ds : Forall (λ d, 0 ≤ d < 256) ds → map bz (map zb ds) = ds.
Proof. induction 1 as [|d ds Hd _ IH]; [done|]. cbn. by rewrite bz_zb_small, IH. Qed.

Lemma SetBytes_zeros n k : SetBytes (replicate n x00 ++ k) = dval 256 (map bz k).
Proof.
  unfold SetBytes. rewrite map_app.
  replace (map bz (replicate n x00)) with (replicate n 0)
    by (symmetry; apply (fmap_replicate bz)).
  apply dval_zeros.
Qed.

Lemma base58Decode_base58Encode data :
  data ≠ [] → base58Decode (base58Encode data) = Ret data.
Proof.
  intros Hd. rewrite base58Encode_shape by done.
  destruct (leading_app x00 data) as (k & Ek & Hk).
  set (z := leading x00 data) in *. rewrite Ek, SetBytes_zeros.
  pose proof (norm_bytes k Hk) as Hnk.
  pose proof (dval_nonneg 256 (map bz k) ltac:(lia) (proj1 Hnk)) as Hpos.
  destruct (be_digits_norm 58 (dval 256 (map bz k))) as [Hn Hv]; [lia|done|].
  rewrite base58Decode_shape; [|intros E|by apply norm_letters].
  - rewrite leading_letters, dval_zeros, Hv, be_digits_dval, map_zb_bz by (done || lia). done.
  - apply app_eq_nil in E as [Ez Ed]. apply Hd. rewrite Ek.
    rewrite Ed in Hv. apply (f_equal length) in Ez. rewrite length_replicate in Ez. cbn in Ez. rewrite Ez. destruct k as [|x k]; [done|].
    pose proof (norm_pos 256 (map bz (x :: k)) ltac:(lia) Hnk ltac:(done)).
    cbn in Hv |- *. cbn in H. lia.
Qed.

(** ** Properties *)

(** Decoding the base58 text of any non-empty byte string gives back the byte
    string, leading zero bytes included. *)
Theorem base58_decode_encode data :
  data ≠ [] → base58Decode (base58Encode data) = Ret data.
Proof. apply base58Decode_base58Encode. Qed.

Lemma base58_decode_encode_witness :
  base58Decode (base58Encode [x00; x00; x12; x20; xff]) = Ret [x00; x00; x12; x20; xff].
Proof. apply (base58_decode_encode [x00; x00; x12; x20; xff]). discriminate. Defined.

(** Whatever text [base58Decode] accepts is the canonical text of the bytes it
    returns: encoding them again gives the same text, so two different texts
    never decode to the same peer identifier. *)
Theorem base58_encode_decode s data :
  base58Decode s = Ret data → base58Encode data = s.
Proof.
  intros H. destruct (decide (s = [])) as [->|Hs]; [discriminate|].
  pose proof H as H'. unfold base58Decode in H'. rewrite bool_decide_false in H' by done.
  apply bind_ret_inv in H' as (m & Hm & _).
  apply base58Decode_loop_inv in Hm as (ds & -> & Hds). clear m.
  assert (ds ≠ []) as Hne by (by intros ->).
  rewrite base58Decode_shape in H by done. injection H as <-.
  destruct (leading_digits ds Hds) as (es & Eds & Hes).
  set (z := leading _ _) in *. rewrite Eds, dval_zeros.
  destruct (be_digits_norm 256 (dval 58 es)) as [Hn Hv];
    [lia|apply dval_nonneg; [lia|apply Hes]|].
  set (k := be_digits 256 (dval 58 es)) in *.
  rewrite base58Encode_shape.
  - rewrite SetBytes_zeros, map_bz_zb by apply Hn. rewrite Hv, be_digits_dval by (done || lia).
    rewrite leading_replicate; [done|]. clearbody k. destruct k as [|d k']; [done|]. cbn [map].
    destruct Hn as [Hf Hh]. apply Forall_inv in Hf. intros E. apply Hh.
    rewrite <- (bz_zb_small d), E by done. done.
  - intros E. apply app_eq_nil in E as [Ez Ek]. apply Hne. rewrite Eds.
    apply (f_equal length) in Ez. rewrite length_replicate in Ez. cbn in Ez. rewrite Ez.
    apply map_eq_nil in Ek. rewrite Ek in Hv.
    destruct es as [|e es]; [done|].
    pose proof (norm_pos 58 (e :: es) ltac:(lia) Hes ltac:(done)). cbn in Hv, H. lia.
Qed.

Lemma base58_encode_decode_witness :
  base58Encode [x00; x00; x39] = str "11z".
Proof. apply (base58_encode_decode (str "11z")). vm_compute. reflexivity. Defined.
