(* ===== verification/GoText.v ===== *)
(** * Text and number formats of the standard library

    The parts of [encoding/binary] (little endian), [strings], [strconv],
    [bytes.Reader] and [net] that the bootstrap and key components call:
    little-endian numbers, searching and trimming, decimal numbers, reading
    from a byte slice, and the textual form of an IP address. *)

From stdpp Require Import strings pretty.
From S2P Require Import Prelude GoIO.
Local Open Scope Z_scope.

(** ** Little-endian numbers ([encoding/binary.LittleEndian]) *)

Definition le_bytes (n : nat) (z : Z) : bytes := reverse (be_bytes n z).
Definition le_val (l : bytes) : Z := be_val (reverse l).

Lemma length_le_bytes n z : length (le_bytes n z) = n.
Proof. unfold le_bytes. by rewrite length_reverse, length_be_bytes. Qed.

Lemma le_val_le_bytes n z : le_val (le_bytes n z) = z mod 256 ^ Z.of_nat n.
Proof. unfold le_val, le_bytes. rewrite reverse_involutive. apply be_val_be_bytes. Qed.

Lemma le_val_range l : 0 ≤ le_val l < 256 ^ zlen l.
Proof.
  unfold le_val. pose proof (be_val_range (reverse l)) as H.
  unfold zlen in *. by rewrite length_reverse in H.
Qed.

Lemma le_bytes_le_val l : le_bytes (length l) (le_val l) = l.
Proof.
  unfold le_bytes, le_val. rewrite <- (length_reverse l), be_bytes_be_val.
  apply reverse_involutive.
Qed.

#[export] Hint Rewrite length_le_bytes : go_len.

(** ** Strings *)

(** [strings.HasPrefix(s, p)] *)
Fixpoint HasPrefix (p s : bytes) : bool :=
  match p, s with
  | [], _ => true
  | a :: p', b :: s' => bool_decide (a = b) && HasPrefix p' s'
  | _ :: _, [] => false
  end.

(** [strings.Index(s, sub)]; [None] is -1. *)
Fixpoint Index (sub s : bytes) : option nat :=
  if HasPrefix sub s then Some O
  else match s with [] => None | _ :: s' => S <$> Index sub s' end.

(** [strings.IndexByte(s, c)]; [None] is -1. *)
Fixpoint IndexByte (c : byte) (s : bytes) : option nat :=
  match s with
  | [] => None
  | b :: s' => if bool_decide (b = c) then Some O else S <$> IndexByte c s'
  end.

Fixpoint drop_while (f : byte → bool) (s : bytes) : bytes :=
  match s with
  | [] => []
  | b :: s' => if f b then drop_while f s' else s
  end.

(** [strings.TrimRight(s, cut)] for a cut set of ASCII characters *)
Definition TrimRight (cut : byte → bool) (s : bytes) : bytes :=
  reverse (drop_while cut (reverse s)).

(** [strings.TrimLeft(s, cut)] *)
Definition TrimLeft (cut : byte → bool) (s : bytes) : bytes := drop_while cut s.

(** [strings.Join(parts, sep)] *)
Fixpoint Join (sep : bytes) (parts : list bytes) : bytes :=
  match parts with
  | [] => []
  | [p] => p
  | p :: ps => p ++ sep ++ Join sep ps
  end.

(** [fmt.Sprintf("%d", z)] *)
Definition itoa (z : Z) : bytes := str (pretty z).

Lemma str_inj s t : str s = str t → s = t.
Proof.
  intros H. rewrite <- (String.string_of_list_byte_of_string s), <- (String.string_of_list_byte_of_string t).
  unfold str in H. by rewrite H.
Qed.

Lemma itoa_inj x y : itoa x = itoa y → x = y.
Proof. intros H. apply str_inj in H. by apply (inj pretty) in H. Qed.

Lemma HasPrefix_app p s : HasPrefix p (p ++ s) = true.
Proof. induction p as [|a p IH]; cbn; [done|]. by rewrite bool_decide_true, IH. Qed.

Lemma HasPrefix_spec p s : HasPrefix p s = true ↔ ∃ k, s = p ++ k.
Proof.
  split; [|intros [k ->]; apply HasPrefix_app].
  revert s. induction p as [|a p IH]; intros [|b s] H; cbn in *; [by eauto..|done|].
  apply andb_true_iff in H as [H1 H2]. apply bool_decide_eq_true in H1 as ->.
  destruct (IH s H2) as [k ->]. by exists k.
Qed.

Lemma Index_lt sub s i : Index sub s = Some i → (i + length sub ≤ length s)%nat.
Proof.
  revert i. induction s as [|b s IH]; intros i H; cbn [Index] in H.
  - destruct (HasPrefix sub []) eqn:E; [|done]. injection H as <-.
    apply HasPrefix_spec in E as [k E]. apply (f_equal length) in E. len.
  - destruct (HasPrefix sub (b :: s)) eqn:E.
    + injection H as <-. apply HasPrefix_spec in E as [k E]. apply (f_equal length) in E. len.
    + destruct (Index sub s) as [j|]; [|done]. injection H as <-.
      specialize (IH j eq_refl). cbn [length]. lia.
Qed.

Lemma IndexByte_app c l s :
  c ∉ l → IndexByte c (l ++ c :: s) = Some (length l).
Proof.
  induction l as [|b l IH]; cbn; intros H; [by rewrite bool_decide_true|].
  apply not_elem_of_cons in H as [H1 H2].
  rewrite bool_decide_false by congruence. by rewrite IH.
Qed.

Lemma IndexByte_lt c s i : IndexByte c s = Some i → (i < length s)%nat.
Proof.
  revert i. induction s as [|b s IH]; intros i H; cbn in H; [done|].
  destruct (bool_decide (b = c)); [injection H as <-; cbn; lia|].
  destruct (IndexByte c s) as [j|]; [|done]. injection H as <-.
  specialize (IH j eq_refl). cbn [length]. lia.
Qed.

Lemma drop_while_length f s : (length (drop_while f s) ≤ length s)%nat.
Proof. induction s as [|b s IH]; cbn; [lia|]. destruct (f b); cbn; lia. Qed.

Lemma drop_while_all f l s : forallb f l = true → drop_while f (l ++ s) = drop_while f s.
Proof.
  induction l as [|b l IH]; cbn; intros H; [done|].
  apply andb_true_iff in H as [H1 H2]. by rewrite H1, IH.
Qed.

Lemma drop_while_stop f b s : f b = false → drop_while f (b :: s) = b :: s.
Proof. cbn. by intros ->. Qed.

(** Trimming a padded string that does not end in a character of the set. *)
Lemma TrimRight_pad f l b p :
  f b = false → forallb f p = true → TrimRight f (l ++ b :: p) = l ++ [b].
Proof.
  intros Hb Hp. unfold TrimRight.
  replace (l ++ b :: p) with ((l ++ [b]) ++ p) by (by rewrite <- app_assoc).
  rewrite reverse_app, drop_while_all.
  - rewrite reverse_snoc, drop_while_stop by done. rewrite <- reverse_snoc. apply reverse_involutive.
  - rewrite <- Hp. clear. induction p as [|x p IH]; [done|].
    rewrite reverse_cons, forallb_app, IH. cbn. by rewrite andb_true_r, andb_comm.
Qed.

(** [strings.ToUpper] and [strings.ToLower] of ASCII text, by byte *)
Definition to_upper (b : byte) : byte :=
  if (97 <=? bz b) && (bz b <=? 122) then zb (bz b - 32) else b.
Definition to_lower (b : byte) : byte :=
  if (65 <=? bz b) && (bz b <=? 90) then zb (bz b + 32) else b.

(** [hex.DecodeString] with the bytes decoded before an error, which it returns
    too; [false] is an error. *)
Fixpoint hex_DecodeString (s : bytes) : bytes * bool :=
  match s with
  | [] => ([], true)
  | [_] => ([], false)
  | a :: b :: k =>
      match hex_value a, hex_value b with
      | Some x, Some y => let '(r, ok) := hex_DecodeString k in (zb (x * 16 + y) :: r, ok)
      | _, _ => ([], false)
      end
  end.

Lemma hex_value_upper z : 0 ≤ z < 16 → hex_value (to_upper (hex_digit z)) = Some z.
Proof.
  intros Hz. assert (∃ n, z = Z.of_nat n ∧ (n < 16)%nat) as (n & -> & Hn)
    by (exists (Z.to_nat z); lia).
  do 16 (destruct n as [|n]; [vm_compute; reflexivity|]). lia.
Qed.

Lemma hex_DecodeString_upper l : hex_DecodeString (map to_upper (hexEncode l)) = (l, true).
Proof.
  induction l as [|b l IH]; [done|]. cbn [hexEncode map hex_DecodeString].
  pose proof (bz_range b).
  rewrite !hex_value_upper; [|apply Z.mod_pos_bound; lia|
    split; [apply Z.div_pos; lia|apply Z.div_lt_upper_bound; lia]].
  rewrite IH. do 2 f_equal. rewrite <- (zb_bz b) at 3. f_equal.
  pose proof (Z.div_mod (bz b) 16). lia.
Qed.

(** ** [bytes.Reader]

    The state is the unread part; a position beyond the end reads as empty. *)

Definition br_ReadByte : stm bytes io_err byte := fun r =>
  match r with [] => (Fail EOF, []) | b :: r' => (Ret b, r') end.

Definition br_ReadFull (n : nat) : stm bytes io_err bytes := fun r =>
  if bool_decide (n ≤ length r)%nat then (Ret (take n r), drop n r)
  else (Fail (if bool_decide (r = []) then EOF else ErrUnexpectedEOF), []).

Lemma br_ReadFull_app n l k : length l = n → br_ReadFull n (l ++ k) = (Ret l, k).
Proof.
  intros H. unfold br_ReadFull. rewrite bool_decide_true by len.
  by rewrite take_app_exact, drop_app_exact.
Qed.

Lemma br_ReadFull_short n r :
  (length r < n)%nat →
  br_ReadFull n r = (Fail (if bool_decide (r = []) then EOF else ErrUnexpectedEOF), []).
Proof. intros H. unfold br_ReadFull. by rewrite bool_decide_false by lia. Qed.

(** ** IP addresses ([net.IP], a byte slice of 4 or 16 bytes) *)

Definition v4InV6Prefix : bytes := make_bytes 10 ++ [xff; xff].

(** [ip.To4()] and [ip.To16()]; [None] is [nil]. *)
Definition To4 (ip : bytes) : option bytes :=
  if bool_decide (length ip = 4%nat) then Some ip
  else if bool_decide (length ip = 16%nat) && HasPrefix v4InV6Prefix ip then Some (drop 12 ip)
  else None.

Definition To16 (ip : bytes) : option bytes :=
  if bool_decide (length ip = 4%nat) then Some (v4InV6Prefix ++ ip)
  else if bool_decide (length ip = 16%nat) then Some ip
  else None.

Fixpoint groups16 (ip : bytes) : list Z :=
  match ip with
  | a :: b :: k => (bz a * 256 + bz b) :: groups16 k
  | _ => []
  end.

(** Four hexadecimal digits without leading zeros. *)
Definition hex16 (z : Z) : bytes :=
  let ds := [z / 4096 mod 16; z / 256 mod 16; z / 16 mod 16] in
  let fix strip l := match l with d :: l' => if d =? 0 then strip l' else l | [] => [] end in
  map hex_digit (strip ds ++ [z mod 16]).

Fixpoint zero_run (gs : list Z) : nat :=
  match gs with g :: gs' => if g =? 0 then S (zero_run gs') else O | [] => O end.

(** The first longest run of at least two zero groups: its start and length. *)
Fixpoint longest_run (i : nat) (gs : list Z) (best : option (nat * nat)) : option (nat * nat) :=
  match gs with
  | [] => best
  | _ :: gs' =>
      let l := zero_run gs in
      let cur := match best with Some (_, k) => k | None => O end in
      longest_run (S i) gs'
        (if bool_decide (2 ≤ l ∧ cur < l)%nat then Some (i, l) else best)
  end.

Definition colon : bytes := [x3a].

Definition string6 (ip : bytes) : bytes :=
  let gs := groups16 ip in
  match longest_run 0 gs None with
  | None => Join colon (map hex16 gs)
  | Some (i, l) =>
      Join colon (map hex16 (take i gs)) ++ colon ++ colon ++
      Join colon (map hex16 (drop (i + l) gs))
  end.

Definition string4 (ip : bytes) : bytes := Join [x2e] (map (itoa ∘ bz) ip).

(** [ip.String()] *)
Definition IP_String (ip : bytes) : bytes :=
  if bool_decide (ip = []) then str "<nil>"
  else if bool_decide (length ip ≠ 4%nat ∧ length ip ≠ 16%nat) then x3f :: hexEncode ip
  else match To4 ip with Some p4 => string4 p4 | None => string6 ip end.

(** [net.JoinHostPort(host, port)] *)
Definition JoinHostPort (host port : bytes) : bytes :=
  if bool_decide (x3a ∈ host ∨ x25 ∈ host) then [x5b] ++ host ++ [x5d] ++ colon ++ port
  else host ++ colon ++ port.

Lemma length_To16 ip ip' : To16 ip = Some ip' → length ip' = 16%nat.
Proof.
  unfold To16. intros H. repeat case_bool_decide; simplify_eq; unfold v4InV6Prefix; len.
Qed.

Example IP_String_v4 : IP_String (map zb [10; 0; 0; 255]) = str "10.0.0.255".
Proof. vm_compute. reflexivity. Qed.

Example IP_String_v6 :
  IP_String (map zb [32; 1; 13; 184; 0; 0; 0; 0; 0; 1; 0; 0; 0; 0; 0; 1]) =
  str "2001:db8::1:0:0:1".
Proof. vm_compute. reflexivity. Qed.

Example JoinHostPort_v6 : JoinHostPort (IP_String (make_bytes 16)) (itoa 80) = str "[::]:80".
Proof. vm_compute. reflexivity. Qed.

(** A check of all the bytes *)
Lemma forall_bytes (P : byte → bool) :
  forallb (λ n, P (zb (Z.of_nat n))) (seq 0 256) = true → ∀ b, P b = true.
Proof.
  intros Hf b. pose proof (bz_range b) as Hb. rewrite <- (zb_bz b).
  rewrite <- (Z2Nat.id (bz b)) by lia. eapply (proj1 (forallb_forall _ _) Hf).
  apply in_seq. lia.
Qed.

(** The host of an IPv4 address is not bracketed, that of an IPv6 address is. *)
Definition plain_host (l : bytes) : bool :=
  negb (HasPrefix [x5b] l) && negb (bool_decide (l = [])) &&
  forallb (λ x, negb (bz x =? 58) && negb (bz x =? 37)) l.

Lemma itoa_byte b :
  ∃ c l, itoa (bz b) = c :: l ∧ c ≠ x5b ∧ (x3a ∉ c :: l) ∧ (x25 ∉ c :: l).
Proof.
  pose proof (forall_bytes (λ b, plain_host (itoa (bz b))) ltac:(vm_compute; reflexivity) b) as Hb.
  cbn beta in Hb. unfold plain_host in Hb. apply andb_true_iff in Hb as [Hb Hf].
  apply andb_true_iff in Hb as [Hp Hn]. destruct (itoa (bz b)) as [|c l]; [done|].
  exists c, l. split; [done|]. split.
  - intros ->. done.
  - pose proof (proj1 (forallb_forall _ _) Hf) as Hx.
    split; intros Hi%list_elem_of_In; apply Hx in Hi; done.
Qed.

Lemma elem_of_Join x sep ps :
  x ∈ Join sep ps → x ∈ sep ∨ ∃ p, p ∈ ps ∧ x ∈ p.
Proof.
  induction ps as [|p [|q ps] IH]; cbn [Join].
  - by intros ?%not_elem_of_nil.
  - intros Hx. right. exists p. split; [by left|done].
  - rewrite !elem_of_app. intros [Hx|[Hx|Hx]]; [right; exists p; split; [by left|done]|by left|].
    destruct (IH Hx) as [?|(r & Hr & ?)]; [by left|]. right. exists r. split; [by right|done].
Qed.

Lemma v4_not_bracketed ip port :
  length ip = 4%nat → HasPrefix [x5b] (JoinHostPort (IP_String ip) port) = false.
Proof.
  intros Hl. unfold IP_String. rewrite bool_decide_false by (by intros ->).
  rewrite bool_decide_false by lia. unfold To4. rewrite bool_decide_true by done.
  unfold JoinHostPort. rewrite bool_decide_false.
  - destruct ip as [|b ip]; [done|]. destruct (itoa_byte b) as (c & l & E & Hc & _).
    unfold string4. cbn [map]. unfold compose. rewrite E.
    destruct (map _ ip); cbn; by rewrite bool_decide_false.
  - assert (∀ x, x ∈ string4 ip → x ≠ x3a ∧ x ≠ x25) as Hs.
    { intros x Hx. apply elem_of_Join in Hx as [Hx|(p & Hp & Hx)].
      - apply list_elem_of_singleton in Hx as ->. done.
      - apply list_elem_of_In, in_map_iff in Hp as (b & <- & _).
        destruct (itoa_byte b) as (c & l & E & _ & N1 & N2). unfold compose in Hx. rewrite E in Hx.
        split; intros ->; done. }
    intros [Hx|Hx]; apply Hs in Hx as [? ?]; done.
Qed.

Lemma length_groups16 n ip : length ip = (2 * n)%nat → length (groups16 ip) = n.
Proof.
  revert ip. induction n as [|n IH]; intros ip Hl; [by destruct ip|].
  destruct ip as [|a [|b ip]]; [cbn in Hl; lia..|]. cbn in *. rewrite IH; lia.
Qed.

Lemma v6_bracketed ip port :
  length ip = 16%nat → To4 ip = None → HasPrefix [x5b] (JoinHostPort (IP_String ip) port) = true.
Proof.
  intros Hl H4. unfold IP_String. rewrite bool_decide_false by (by intros ->).
  rewrite bool_decide_false by lia. rewrite H4. unfold JoinHostPort. rewrite bool_decide_true; [done|].
  left. unfold string6. destruct (longest_run 0 (groups16 ip) None) as [[i l]|].
  - apply elem_of_app. right. apply elem_of_app. left. by left.
  - assert (length (groups16 ip) = 8%nat) as Hg by (by apply length_groups16).
    destruct (groups16 ip) as [|a [|b gs]]; [done..|]. cbn [map Join].
    apply elem_of_app. right. apply elem_of_app. left. by left.
Qed.

(** ** Bits, and the encodings of RFC 4648 ([encoding/base32], [encoding/base64]) *)

Definition bits_of_byte (b : byte) : list bool :=
  map (Z.testbit (bz b)) [7; 6; 5; 4; 3; 2; 1; 0].

Fixpoint bits_of (l : bytes) : list bool :=
  match l with [] => [] | b :: k => bits_of_byte b ++ bits_of k end.

(** The number written by a bit string, most significant bit first. *)
Definition bits_val (bs : list bool) : Z := foldl (λ n b, 2 * n + Z.b2z b) 0 bs.

(** Groups of [k] bits; the last one is filled up with zeros. *)
Fixpoint bit_groups (fuel k : nat) (bs : list bool) : list (list bool) :=
  match fuel, bs with
  | S f, _ :: _ => (take k bs ++ replicate (k - length bs) false) :: bit_groups f k (drop k bs)
  | _, _ => []
  end.

Record encoding := Enc {
  enc_bits : nat;            (* bits per character *)
  enc_alphabet : bytes;
  enc_group : nat;           (* characters per padded group, 0 without padding *)
}.

Definition base32_Std : encoding := Enc 5 (str "ABCDEFGHIJKLMNOPQRSTUVWXYZ234567") 8.
Definition base64_Std : encoding :=
  Enc 6 (str "ABCDEFGHIJKLMNOPQRSTUVWXYZabcdefghijklmnopqrstuvwxyz0123456789+/") 4.
Definition base64_RawURL : encoding :=
  Enc 6 (str "ABCDEFGHIJKLMNOPQRSTUVWXYZabcdefghijklmnopqrstuvwxyz0123456789-_") 0.

Definition letter (e : encoding) (g : list bool) : byte :=
  nth (Z.to_nat (bits_val g)) (enc_alphabet e) x00.

Definition equals : byte := x3d.

(** The characters before the padding. *)
Definition enc_text (e : encoding) (data : bytes) : bytes :=
  map (letter e) (bit_groups (length (bits_of data)) (enc_bits e) (bits_of data)).

(** [EncodeToString] *)
Definition EncodeToString (e : encoding) (data : bytes) : bytes :=
  let text := enc_text e data in
  let g := enc_group e in
  text ++ replicate (if bool_decide (g = O) then O else (g - length text mod g) mod g)%nat equals.

Lemma length_bits_of l : length (bits_of l) = (8 * length l)%nat.
Proof. induction l as [|b l IH]; [done|]. cbn [bits_of]. rewrite length_app, IH. cbn. lia. Qed.

Lemma bz_testbit_high b n : 8 ≤ n → Z.testbit (bz b) n = false.
Proof.
  intros Hn. pose proof (bz_range b).
  rewrite <- (Z.mod_small (bz b) (2 ^ 8)) by lia. by apply Z.mod_pow2_bits_high.
Qed.

Lemma bits_of_byte_inj a b : bits_of_byte a = bits_of_byte b → a = b.
Proof.
  intros H. apply (inj bz). apply Z.bits_inj'. intros n Hn.
  destruct (Z.lt_ge_cases n 8) as [Hlt|Hge]; [|by rewrite !bz_testbit_high].
  unfold bits_of_byte in H. cbn [map] in H. injection H as B7 B6 B5 B4 B3 B2 B1 B0.
  assert (n = 0 ∨ n = 1 ∨ n = 2 ∨ n = 3 ∨ n = 4 ∨ n = 5 ∨ n = 6 ∨ n = 7) as Hc by lia.
  by destruct Hc as [->|[->|[->|[->|[->|[->|[->| ->]]]]]]].
Qed.

Lemma bits_of_inj l k : bits_of l = bits_of k → l = k.
Proof.
  revert k. induction l as [|a l IH]; intros [|b k] H; [done|discriminate H..|].
  cbn [bits_of] in H. apply app_inj_1 in H as [H1 H2]; [|done].
  f_equal; [by apply bits_of_byte_inj|by apply IH].
Qed.

Lemma bits_val_from n bs : foldl (λ n b, 2 * n + Z.b2z b) n bs = n * 2 ^ zlen bs + bits_val bs.
Proof.
  unfold bits_val. revert n. induction bs as [|b bs IH]; intros n; cbn [foldl].
  { rewrite zlen_nil. cbn. lia. }
  rewrite IH, (IH (2 * 0 + Z.b2z b)), zlen_cons.
  rewrite Z.pow_add_r by (pose proof (zlen_nonneg bs); lia). ring.
Qed.

Lemma bits_val_cons b bs : bits_val (b :: bs) = Z.b2z b * 2 ^ zlen bs + bits_val bs.
Proof. unfold bits_val at 1. cbn [foldl]. rewrite bits_val_from. f_equal; lia. Qed.

Lemma bits_val_range bs : 0 ≤ bits_val bs < 2 ^ zlen bs.
Proof.
  induction bs as [|b bs IH]; [vm_compute; split; congruence|].
  rewrite bits_val_cons, zlen_cons, Z.pow_add_r by (pose proof (zlen_nonneg bs); lia).
  change (2 ^ 1) with 2. destruct b; cbn [Z.b2z]; lia.
Qed.

Lemma bits_val_inj bs cs : length bs = length cs → bits_val bs = bits_val cs → bs = cs.
Proof.
  revert cs. induction bs as [|b bs IH]; intros [|c cs] Hl Hv; try discriminate Hl; [done|].
  injection Hl as Hl. rewrite !bits_val_cons in Hv.
  assert (zlen bs = zlen cs) as Hz by (unfold zlen; lia). rewrite Hz in Hv.
  pose proof (bits_val_range bs) as H1. pose proof (bits_val_range cs) as H2. rewrite Hz in H1.
  assert (b = c) as -> by (destruct b, c; cbn [Z.b2z] in Hv; auto; lia).
  f_equal. apply IH; [done|lia].
Qed.

Lemma bit_groups_length fuel k bs : Forall (λ g, length g = k) (bit_groups fuel k bs).
Proof.
  revert bs. induction fuel as [|f IH]; intros [|b bs]; cbn [bit_groups]; try constructor; [|done].
  rewrite length_app, length_take, length_replicate. cbn [length]. lia.
Qed.

(** Bit strings of one length are determined by their groups. *)
Lemma bit_groups_inj fuel k bs cs :
  (0 < k)%nat → length bs = length cs → (length bs ≤ fuel)%nat →
  bit_groups fuel k bs = bit_groups fuel k cs → bs = cs.
Proof.
  intros Hk. revert bs cs. induction fuel as [|f IH]; intros bs cs Hl Hf H.
  { destruct bs, cs; cbn in *; done || lia. }
  destruct bs as [|b bs], cs as [|c cs]; try discriminate Hl; [done|].
  set (bs' := b :: bs) in *. set (cs' := c :: cs) in *.
  assert (0 < length bs')%nat by (cbn; lia).
  change (bit_groups (S f) k bs') with
    ((take k bs' ++ replicate (k - length bs') false) :: bit_groups f k (drop k bs')) in H.
  change (bit_groups (S f) k cs') with
    ((take k cs' ++ replicate (k - length cs') false) :: bit_groups f k (drop k cs')) in H.
  injection H as H1 H2.
  apply app_inj_1 in H1 as [H1 _]; [|rewrite !length_take; lia].
  rewrite <- (take_drop k bs'), <- (take_drop k cs'), H1. f_equal.
  apply IH; [rewrite !length_drop; lia|rewrite length_drop; lia|done].
Qed.

(** An alphabet of the right size without repetitions. *)
Definition enc_ok (e : encoding) : Prop :=
  (0 < enc_bits e)%nat ∧ zlen (enc_alphabet e) = 2 ^ Z.of_nat (enc_bits e) ∧
  NoDup (enc_alphabet e).

Lemma letter_inj e g h :
  enc_ok e → length g = enc_bits e → length h = enc_bits e →
  letter e g = letter e h → g = h.
Proof.
  intros (_ & Hn & Hd) Hg Hh H. unfold letter in H.
  apply bits_val_inj; [congruence|].
  pose proof (bits_val_range g) as Rg. pose proof (bits_val_range h) as Rh.
  unfold zlen in *. rewrite Hg in Rg. rewrite Hh in Rh. rewrite <- Hn in *.
  apply NoDup_ListNoDup in Hd.
  pose proof (proj1 (List.NoDup_nth _ x00) Hd (Z.to_nat (bits_val g)) (Z.to_nat (bits_val h))
    ltac:(lia) ltac:(lia) H). lia.
Qed.

Lemma letters_inj e gs hs :
  enc_ok e → Forall (λ g, length g = enc_bits e) gs → Forall (λ g, length g = enc_bits e) hs →
  map (letter e) gs = map (letter e) hs → gs = hs.
Proof.
  intros He Hg. revert hs. induction Hg as [|g gs Hg Hgs IH]; intros hs Hh H.
  - by destruct hs.
  - destruct Hh as [|h hs Hh Hhs]; [discriminate H|]. cbn [map] in H. injection H as H1 H2.
    f_equal; [by eapply letter_inj|by apply IH].
Qed.

Lemma bit_groups_count fuel k bs cs :
  length bs = length cs → length (bit_groups fuel k bs) = length (bit_groups fuel k cs).
Proof.
  revert bs cs. induction fuel as [|f IH]; intros [|b bs] [|c cs] H; try discriminate H; [done..|].
  cbn [bit_groups length]. f_equal. apply IH. rewrite !length_drop. by rewrite H.
Qed.

Lemma enc_text_inj e l k :
  enc_ok e → length l = length k → enc_text e l = enc_text e k → l = k.
Proof.
  intros He Hl H. unfold enc_text in H.
  assert (length (bits_of l) = length (bits_of k)) as Hb by (rewrite !length_bits_of; lia).
  rewrite Hb in H. apply bits_of_inj. eapply bit_groups_inj; [apply He|done|by rewrite Hb|].
  apply (letters_inj e); auto using bit_groups_length.
Qed.

Lemma EncodeToString_inj e l k :
  enc_ok e → length l = length k → EncodeToString e l = EncodeToString e k → l = k.
Proof.
  intros He Hl H. apply (enc_text_inj e); [done..|].
  apply app_inj_1 in H as [H _]; [done|].
  unfold enc_text. rewrite !length_map, !length_bits_of, Hl. apply bit_groups_count.
  by rewrite !length_bits_of, Hl.
Qed.

Lemma base32_Std_ok : enc_ok base32_Std.
Proof.
  split_and!; [cbn; lia|done|]. apply (bool_decide_unpack (NoDup _)). vm_compute. done.
Qed.

Lemma base64_Std_ok : enc_ok base64_Std.
Proof.
  split_and!; [cbn; lia|done|]. apply (bool_decide_unpack (NoDup _)). vm_compute. done.
Qed.

Example base32_foobar : EncodeToString base32_Std (str "fooba") = str "MZXW6YTB".
Proof. vm_compute. reflexivity. Qed.

Example base64_foob : EncodeToString base64_Std (str "foob") = str "Zm9vYg==".
Proof. vm_compute. reflexivity. Qed.

Lemma letter_in e g : enc_ok e → length g = enc_bits e → letter e g ∈ enc_alphabet e.
Proof.
  intros (_ & Hn & _) Hg. unfold letter. apply list_elem_of_In, nth_In.
  pose proof (bits_val_range g) as Rg. unfold zlen in *. rewrite Hg, <- Hn in Rg. lia.
Qed.

Lemma enc_text_letters e data : enc_ok e → Forall (λ b, b ∈ enc_alphabet e) (enc_text e data).
Proof.
  intros He. apply Forall_fmap.
  eapply Forall_impl; [|apply bit_groups_length]. intros g Hg. by apply letter_in.
Qed.

Lemma TrimRight_none f l : forallb (λ b, negb (f b)) l = true → TrimRight f l = l.
Proof.
  intros H. unfold TrimRight. destruct l as [|b l _] using rev_ind; [done|].
  rewrite forallb_app in H. apply andb_true_iff in H as [_ H]. cbn in H.
  rewrite andb_true_r, negb_true_iff in H.
  rewrite reverse_snoc, drop_while_stop, <- reverse_snoc by done. apply reverse_involutive.
Qed.

Lemma TrimRight_app f l p :
  forallb (λ b, negb (f b)) l = true → forallb f p = true → TrimRight f (l ++ p) = l.
Proof.
  intros Hl Hp. destruct l as [|b l _] using rev_ind.
  - cbn [app]. unfold TrimRight.
    rewrite <- (app_nil_r (reverse p)), drop_while_all; [done|].
    rewrite forallb_forall in Hp |- *. intros x Hx. apply Hp.
    by apply list_elem_of_In, elem_of_reverse, list_elem_of_In.
  - rewrite <- app_assoc. cbn [app]. apply TrimRight_pad; [|done].
    rewrite forallb_app in Hl. apply andb_true_iff in Hl as [_ Hl]. cbn in Hl.
    by rewrite andb_true_r, negb_true_iff in Hl.
Qed.

Lemma le_val_app l k : le_val (l ++ k) = le_val l + 256 ^ zlen l * le_val k.
Proof.
  unfold le_val. rewrite reverse_app, be_val_app.
  unfold zlen. rewrite length_reverse. lia.
Qed.

Lemma le_val_snoc l b : le_val (l ++ [b]) = le_val l + 256 ^ zlen l * bz b.
Proof.
  rewrite le_val_app. f_equal. f_equal. unfold le_val. cbn. rewrite Z.add_0_r.
  change (256 ^ zlen (@nil byte)) with 1. lia.
Qed.

Lemma le_val_cons b l : le_val (b :: l) = bz b + 256 * le_val l.
Proof.
  change (b :: l) with ([b] ++ l). rewrite le_val_app. f_equal.
  unfold le_val. cbn. change (256 ^ zlen (@nil byte)) with 1. lia.
Qed.
