(* ===== verification/Sha2.v ===== *)
(** * SHA-2 and HMAC ([crypto/sha256], [crypto/sha512], [crypto/hmac])

    The two hash functions share one definition over the word width, the round
    constants and the rotation amounts; [sha256] and [sha512] are its two
    instances, checked below against the digests of "abc" and of the empty
    string.  [hmac_sha256] is the keyed hash on top. *)

From S2P Require Import Prelude GoIO.
Local Open Scope Z_scope.

(** ** The compression function *)

Record sha2_params := Sha2 {
  sh_w : Z;                    (* bits of a word *)
  sh_K : list Z;               (* round constants *)
  sh_H0 : list Z;              (* initial state *)
  sh_S0 : Z * Z * Z;           (* rotations of the upper-case sigmas *)
  sh_S1 : Z * Z * Z;
  sh_s0 : Z * Z * Z;           (* two rotations and a shift *)
  sh_s1 : Z * Z * Z
}.

Section Sha2.
Context (P : sha2_params).

Definition add (x y : Z) : Z := wrap_u (sh_w P) (x + y).

Definition rotr (x n : Z) : Z :=
  Z.lor (Z.shiftr x n) (wrap_u (sh_w P) (Z.shiftl x (sh_w P - n))).

Definition big_sigma (r : Z * Z * Z) (x : Z) : Z :=
  let '(a, b, c) := r in Z.lxor (rotr x a) (Z.lxor (rotr x b) (rotr x c)).

Definition small_sigma (r : Z * Z * Z) (x : Z) : Z :=
  let '(a, b, c) := r in Z.lxor (rotr x a) (Z.lxor (rotr x b) (Z.shiftr x c)).

Definition Ch (x y z : Z) : Z := Z.lxor (Z.land x y) (Z.ldiff z x).
Definition Maj (x y z : Z) : Z := Z.lxor (Z.land x y) (Z.lxor (Z.land x z) (Z.land y z)).

(** The message schedule, newest word first. *)
Fixpoint schedule (n : nat) (ws : list Z) : list Z :=
  match n with
  | O => ws
  | S n' =>
      let x := add (add (small_sigma (sh_s1 P) (nth 1 ws 0)) (nth 6 ws 0))
                   (add (small_sigma (sh_s0 P) (nth 14 ws 0)) (nth 15 ws 0)) in
      schedule n' (x :: ws)
  end.

Definition round (h : list Z) (kw : Z * Z) : list Z :=
  match h with
  | [a; b; c; d; e; f; g; i] =>
      let t1 := add (add i (big_sigma (sh_S1 P) e)) (add (Ch e f g) (add kw.1 kw.2)) in
      let t2 := add (big_sigma (sh_S0 P) a) (Maj a b c) in
      [add t1 t2; a; b; c; add d t1; e; f; g]
  | _ => h
  end.

Definition wbytes : nat := Z.to_nat (sh_w P / 8).

Fixpoint words (n : nat) (l : bytes) : list Z :=
  match n with
  | O => []
  | S n' => be_val (take wbytes l) :: words n' (drop wbytes l)
  end.

Definition compress (h : list Z) (block : bytes) : list Z :=
  let ws := reverse (schedule (length (sh_K P) - 16) (reverse (words 16 block))) in
  zip_with add h (foldl round h (zip (sh_K P) ws)).

Definition block_size : nat := (16 * wbytes)%nat.

(** Padding: a one bit, zeros, and the bit length in two words. *)
Definition pad (m : bytes) : bytes :=
  let zeros :=
    ((block_size - (length m + 1 + 2 * wbytes) mod block_size) mod block_size)%nat in
  m ++ x80 :: make_bytes zeros ++ be_bytes (2 * wbytes) (8 * zlen m).

Fixpoint blocks (n : nat) (h : list Z) (l : bytes) : list Z :=
  match n with
  | O => h
  | S n' => blocks n' (compress h (take block_size l)) (drop block_size l)
  end.

Definition sha2 (m : bytes) : bytes :=
  let l := pad m in
  concat (map (be_bytes wbytes) (blocks (length l / block_size) (sh_H0 P) l)).

Lemma round_length h kw : length h = 8%nat → length (round h kw) = 8%nat.
Proof. destruct h as [|? [|? [|? [|? [|? [|? [|? [|? [|]]]]]]]]]; done. Qed.

Lemma rounds_length ks h : length h = 8%nat → length (foldl round h ks) = 8%nat.
Proof. revert h. induction ks as [|k ks IH]; intros h H; cbn; auto using round_length. Qed.

Lemma compress_length h b : length h = 8%nat → length (compress h b) = 8%nat.
Proof. intros H. unfold compress. rewrite length_zip_with, rounds_length by done. lia. Qed.

Lemma blocks_length n h l : length h = 8%nat → length (blocks n h l) = 8%nat.
Proof. revert h l. induction n as [|n IH]; intros h l H; cbn; auto using compress_length. Qed.

Lemma concat_words_length ws :
  length (concat (map (be_bytes wbytes) ws)) = (length ws * wbytes)%nat.
Proof. induction ws as [|x ws IH]; cbn; [done|]. rewrite length_app, IH, length_be_bytes. lia. Qed.

Lemma sha2_length m : length (sh_H0 P) = 8%nat → length (sha2 m) = (8 * wbytes)%nat.
Proof. intros H. unfold sha2. by rewrite concat_words_length, blocks_length. Qed.
End Sha2.

(** ** SHA-256 and SHA-512

    The constants are those of the standard: the leading bits of the fractional
    parts of the cube roots (round constants) and of the square roots (initial
    state) of the first primes.  They are evaluated when they are defined. *)

Definition divides_none (n : Z) (ps : list Z) : bool :=
  forallb (λ p, negb (n mod p =? 0)) ps.

(** The primes below [n], largest first. *)
Fixpoint primes_below (n : nat) : list Z :=
  match n with
  | O => []
  | S m =>
      let ps := primes_below m in
      if (2 <=? Z.of_nat m) && divides_none (Z.of_nat m) ps then Z.of_nat m :: ps else ps
  end.

Definition first_primes (k : nat) : list Z := take k (reverse (primes_below 420)).

(** The largest [r] below [2 ^ n] with [r ^ 3 <= x], above [acc]. *)
Fixpoint cbrt_bits (n : nat) (x acc : Z) : Z :=
  match n with
  | O => acc
  | S n =>
      let r := acc + 2 ^ Z.of_nat n in
      cbrt_bits n x (if r * r * r <=? x then r else acc)
  end.

Definition frac_cbrt (w p : Z) : Z := wrap_u w (cbrt_bits (Z.to_nat w + 4) (p * 2 ^ (3 * w)) 0).
Definition frac_sqrt (w p : Z) : Z := wrap_u w (Z.sqrt (p * 2 ^ (2 * w))).

Definition K256 : list Z := Eval vm_compute in map (frac_cbrt 32) (first_primes 64).
Definition K512 : list Z := Eval vm_compute in map (frac_cbrt 64) (first_primes 80).
Definition IV256 : list Z := Eval vm_compute in map (frac_sqrt 32) (first_primes 8).
Definition IV512 : list Z := Eval vm_compute in map (frac_sqrt 64) (first_primes 8).

Definition sha256_params : sha2_params :=
  Sha2 32 K256 IV256 (2, 13, 22) (6, 11, 25) (7, 18, 3) (17, 19, 10).

Definition sha512_params : sha2_params :=
  Sha2 64 K512 IV512 (28, 34, 39) (14, 18, 41) (1, 8, 7) (19, 61, 6).

(** [sha256.Sum256] and [sha512.Sum512] *)
Definition sha256 (m : bytes) : bytes := sha2 sha256_params m.
Definition sha512 (m : bytes) : bytes := sha2 sha512_params m.

Lemma length_sha256 m : length (sha256 m) = 32%nat.
Proof. apply (sha2_length sha256_params). reflexivity. Qed.

Lemma length_sha512 m : length (sha512 m) = 64%nat.
Proof. apply (sha2_length sha512_params). reflexivity. Qed.

#[export] Hint Rewrite length_sha256 length_sha512 : go_len.

Example sha256_abc :
  hexEncode (sha256 (str "abc")) =
  str "ba7816bf8f01cfea414140de5dae2223b00361a396177a9cb410ff61f20015ad".
Proof. vm_compute. reflexivity. Qed.

Example sha256_empty :
  hexEncode (sha256 []) =
  str "e3b0c44298fc1c149afbf4c8996fb92427ae41e4649b934ca495991b7852b855".
Proof. vm_compute. reflexivity. Qed.

Example sha512_abc :
  hexEncode (sha512 (str "abc")) =
  str "ddaf35a193617abacc417349ae20413112e6fa4e89a97ea20a9eeee64b55d39a2192992a274fc1a836ba3c23a3feebbd454d4423643ce80e2a9ac94fa54ca49f".
Proof. vm_compute. reflexivity. Qed.

(** ** HMAC *)

Definition xor_with (c : byte) (l : bytes) : bytes :=
  map (λ b, zb (Z.lxor (bz b) (bz c))) l.

(** [hmac.New(sha256.New, key)], [Write(msg)], [Sum(nil)] *)
Definition hmac_sha256 (key msg : bytes) : bytes :=
  let k0 := if bool_decide (64 < length key)%nat then sha256 key else key in
  let k := k0 ++ make_bytes (64 - length k0) in
  sha256 (xor_with x5c k ++ sha256 (xor_with x36 k ++ msg)).

Lemma length_hmac_sha256 key msg : length (hmac_sha256 key msg) = 32%nat.
Proof. apply length_sha256. Qed.

#[export] Hint Rewrite length_hmac_sha256 : go_len.

Example hmac_sha256_vector :
  hexEncode (hmac_sha256 (str "Jefe") (str "what do ya want for nothing?")) =
  str "5bdcc146bf60754e6a042426089575c75a003f089d2739839dec58b964ec3843".
Proof. vm_compute. reflexivity. Qed.
