(* ===== verification/KeyRing.v ===== *)
(** * The keyring (fedkey/keyring.go)

    One 48-byte seed, stored in a text file, from which the keys and node
    identifiers of many networks are derived.  Modelled: the file format and
    [LoadKeyRing] / [Save], key clamping, the deterministic RSA key with its
    number stream and prime search, HKDF and the BLS key, base58 with checksum,
    the address formats and the libp2p peer identifier.  SHA-2 and HMAC are
    those of Sha2.v; the elliptic curves, AES, BLAKE2b, RIPEMD-160, Keccak and
    [ProbablyPrime] are the class [KeyPrims] with the laws [KeyPrimsLaws]. *)

From Stdlib Require Import Zdivisibility.
From S2P Require Import Prelude GoIO GoText Sha2 Varint Base58.
Local Open Scope Z_scope.

Definition SeedBytes : nat := 48.
Definition KeyBytes : nat := 32.

Record KeyRing := mkKeyRing { seed : bytes }.

(** The array [[SeedBytes]byte] of the struct. *)
Definition keyring_wf (kr : KeyRing) : Prop := length (seed kr) = SeedBytes.

(** ** The key file *)

(** The part of the file system the code touches: the contents by path, and
    the errors its calls are about to return. *)
Record fs := Fs {
  files : gmap bytes bytes;
  open_err : option io_err;          (* other than "not exist" *)
  create_err : option io_err;
  write_err : option io_err
}.

Inductive key_err : Type :=
| KeyNotExist
| KeyIO (e : io_err)
| KeyRand (e : io_err)
| KeyGenerate (e : key_err)
| KeySave (e : key_err)
| KeySeedLength
| KeySeedHex
| KeyNoSeed.

(** [rand.Read] into the seed: 48 bytes or an error. *)
Definition GenerateKeyRing (rnd : outcome io_err bytes) : outcome key_err KeyRing :=
  b ← map_err KeyRand rnd; Ret (mkKeyRing (copy_into (make_bytes SeedBytes) b)).

Definition Save (path : bytes) (kr : KeyRing) : stm fs key_err unit := fun s =>
  match create_err s with
  | Some e => (Fail (KeyIO e), s)
  | None =>
      let s1 := Fs (<[path := []]> (files s)) (open_err s) None (write_err s) in
      match write_err s with
      | Some e => (Fail (KeyIO e), s1)
      | None =>
          (Ret (), Fs (<[path := str "seed=" ++ hexEncode (seed kr) ++ [x0a]]> (files s))
                      (open_err s) None None)
      end
  end.

(** *** [bufio.Scanner] over lines *)

(** The lines of a text: the pieces between newlines, and a last piece without
    a newline if it is not empty. *)
Fixpoint split_lines (l cur : bytes) : list bytes :=
  match l with
  | [] => if bool_decide (cur = []) then [] else [cur]
  | b :: k => if bool_decide (b = x0a) then cur :: split_lines k [] else split_lines k (cur ++ [b])
  end.

(** [bufio.MaxScanTokenSize]: a line that fills the buffer ends the scan. *)
Definition MaxScanTokenSize : Z := 65536.

(** [dropCR] *)
Definition drop_cr (l : bytes) : bytes :=
  match list.last l with
  | Some b => if bool_decide (b = x0d) then take (length l - 1) l else l
  | None => l
  end.

Fixpoint scan (ls : list bytes) : list bytes :=
  match ls with
  | [] => []
  | l :: ls' => if zlen l <? MaxScanTokenSize then drop_cr l :: scan ls' else []
  end.

Definition scan_lines (text : bytes) : list bytes := scan (split_lines text []).

(** *** [strings.TrimSpace] *)

(** The UTF-8 encodings of the characters for which [unicode.IsSpace] holds. *)
Definition spaces : list bytes :=
  [[x09]; [x0a]; [x0b]; [x0c]; [x0d]; [x20]; [xc2; x85]; [xc2; xa0]; [xe1; x9a; x80];
   [xe2; x80; x80]; [xe2; x80; x81]; [xe2; x80; x82]; [xe2; x80; x83]; [xe2; x80; x84];
   [xe2; x80; x85]; [xe2; x80; x86]; [xe2; x80; x87]; [xe2; x80; x88]; [xe2; x80; x89];
   [xe2; x80; x8a]; [xe2; x80; xa8]; [xe2; x80; xa9]; [xe2; x80; xaf]; [xe2; x81; x9f];
   [xe3; x80; x80]].

Fixpoint trim_seqs (seqs : list bytes) (fuel : nat) (s : bytes) : bytes :=
  match fuel with
  | O => s
  | S f =>
      match List.find (λ q, HasPrefix q s) seqs with
      | Some q => trim_seqs seqs f (drop (length q) s)
      | None => s
      end
  end.

Definition TrimSpace (s : bytes) : bytes :=
  let l := trim_seqs spaces (length s) s in
  reverse (trim_seqs (map reverse spaces) (length l) (reverse l)).

(** *** [LoadKeyRing] *)

Fixpoint load_lines (ls : list bytes) : outcome key_err KeyRing :=
  match ls with
  | [] => Fail KeyNoSeed
  | line :: ls' =>
      if HasPrefix (str "seed=") line then
        let s := TrimSpace (drop 5 line) in
        if bool_decide (length s ≠ SeedBytes * 2)%nat then Fail KeySeedLength
        else match hexDecode s with
             | Some b => Ret (mkKeyRing (copy_into (make_bytes SeedBytes) b))
             | None => Fail KeySeedHex
             end
      else load_lines ls'
  end.

Definition LoadKeyRing (path : bytes) (create : bool) (rnd : outcome io_err bytes)
    : stm fs key_err KeyRing := fun s =>
  match open_err s with
  | Some e => (Fail (KeyIO e), s)
  | None =>
      match files s !! path with
      | Some text => (load_lines (scan_lines text), s)
      | None =>
          if negb create then (Fail KeyNotExist, s)
          else
            (kr ← stm_wrap KeyGenerate (stm_lift (GenerateKeyRing rnd));
             _ ← stm_wrap KeySave (Save path kr);
             mret kr) s
      end
  end.

Definition raw (kr : KeyRing) : bytes := take KeyBytes (seed kr).

(** ** Cryptographic primitives *)

Class KeyPrims := {
  ed25519_pub : bytes → bytes;            (* public key of a 32-byte seed *)
  x25519_pub : bytes → bytes;             (* public key of a 32-byte scalar *)
  secp_priv : bytes → bytes;              (* PrivKeyFromBytes(b).Serialize() *)
  secp_compressed : bytes → bytes;        (* its public key, both formats *)
  secp_uncompressed : bytes → bytes;
  keccak_sum : bytes → bytes;
  ripemd160_sum : bytes → bytes;
  blake2b_sum256 : bytes → bytes → bytes; (* key, data *)
  blake2b_sum512 : bytes → bytes → bytes;
  aes_keystream : bytes → bytes → nat → byte;  (* AES-CTR: key, counter block *)
  g1_mul_compressed : list Z → bytes;     (* generator times four limbs *)
  ProbablyPrime : Z → bool                (* big.Int.ProbablyPrime(6) *)
}.

(** The documented sizes, and that a prime passes the primality test. *)
Class KeyPrimsLaws (K : KeyPrims) : Prop := {
  ed25519_pub_length s : length (ed25519_pub s) = 32%nat;
  secp_compressed_length s : length (secp_compressed s) = 33%nat;
  secp_uncompressed_length s : length (secp_uncompressed s) = 65%nat;
  prime_passes n : Z.prime n → ProbablyPrime n = true
}.

Section Derive.
Context `{KeyPrims}.

(** *** Plain keys *)

(** [NewKeyFromSeed] and [NewPrivateKey] panic or fail on another length. *)
Definition key32 {E} (b : bytes) : outcome E bytes :=
  if bool_decide (length b = KeyBytes) then Ret b else Panic.

(** [BTDHTKey]: the private key is the seed followed by the public key. *)
Definition BTDHTKey {E} (kr : KeyRing) : outcome E bytes :=
  s ← key32 (raw kr); Ret (s ++ ed25519_pub s).

(** [priv.Public()]: the last 32 bytes of the private key. *)
Definition ed_Public {E} (priv : bytes) : outcome E bytes := slice_from priv 32.

Definition ed25519Pub {E} (kr : KeyRing) : outcome E bytes := BTDHTKey kr ≫= ed_Public.

Definition DrasilKey {E} (kr : KeyRing) : outcome E (bytes * bytes) :=
  priv ← BTDHTKey kr; pub ← ed_Public priv;
  Ret (copy_into (make_bytes 64) priv, pub).

(** [sk[i] = f(sk[i])] *)
Definition update {E} (l : bytes) (i : nat) (f : Z → Z) : outcome E bytes :=
  b ← index l i; Ret (<[i := zb (f (bz b))]> l).

Definition ToxKey {E} (kr : KeyRing) : outcome E bytes :=
  let sk0 := copy_into (make_bytes KeyBytes) (raw kr) in
  sk1 ← update sk0 0 (λ z, Z.land z 248);
  sk2 ← update sk1 31 (λ z, Z.land z 127);
  update sk2 31 (λ z, Z.lor z 64).

Definition I2PDKeys {E} (kr : KeyRing) : outcome E (bytes * bytes) :=
  ed ← BTDHTKey kr; x ← key32 (raw kr); Ret (ed, x).

Definition Secp256k1Priv (kr : KeyRing) : bytes := secp_priv (raw kr).
Definition Secp256k1Pub (kr : KeyRing) : bytes := secp_compressed (raw kr).
Definition Secp256k1PubUncompressed (kr : KeyRing) : bytes := secp_uncompressed (raw kr).
Definition x25519Priv (kr : KeyRing) : bytes := raw kr.
Definition x25519Pub {E} (kr : KeyRing) : outcome E bytes :=
  s ← key32 (x25519Priv kr); Ret (x25519_pub s).

(** [%X] of a byte slice *)
Definition hexUpper (l : bytes) : bytes := map to_upper (hexEncode l).

Definition String_ {E} (kr : KeyRing) : outcome E bytes :=
  xonly ← slice_from (Secp256k1Pub kr) 1;
  edp ← ed25519Pub kr;
  toxSK ← ToxKey kr;
  toxpriv ← key32 toxSK;
  i2p ← I2PDKeys kr;
  ed2 ← ed_Public i2p.1;
  Ret (str "Nostr  (secp256k1): " ++ hexUpper xonly ++ [x0a] ++
       str "BT-DHT (ed25519):   " ++ hexUpper edp ++ [x0a] ++
       str "Tox    (X25519):    " ++ hexUpper (x25519_pub toxpriv) ++ [x0a] ++
       str "I2PD   (Ed25519):  " ++ hexUpper ed2 ++ [x0a] ++
       str "I2PD   (X25519):   " ++ hexUpper (x25519_pub i2p.2) ++ [x0a]).

(** *** Hashes *)

Definition keccak256 (data : bytes) : bytes := keccak_sum data.

(** [blake2b.New256(key)] refuses a key of more than 64 bytes. *)
Definition blake2b256 {E} (key data : bytes) : outcome E bytes :=
  if bool_decide (64 < length key)%nat then Panic else Ret (blake2b_sum256 key data).
Definition blake2b512 {E} (key data : bytes) : outcome E bytes :=
  if bool_decide (64 < length key)%nat then Panic else Ret (blake2b_sum512 key data).

Definition ripemd160Hash (data : bytes) : bytes := ripemd160_sum data.

Definition Sha256d (data : bytes) : bytes := sha256 (sha256 data).

(** *** base32 and base58 *)

Definition base32Encode (data : bytes) : bytes :=
  TrimRight (λ b, bool_decide (b = equals)) (EncodeToString base32_Std data).

(** The division loop collects the digits, lowest first. *)
Fixpoint base58_digits (fuel : nat) (n : Z) (digits : bytes) : bytes :=
  match fuel with
  | O => digits
  | S f =>
      if n >? 0
      then base58_digits f (n / 58) (digits ++ [nth (Z.to_nat (n mod 58)) base58Alphabet x31])
      else digits
  end.

Fixpoint base58_zeros (data digits : bytes) : bytes :=
  match data with
  | b :: k => if bool_decide (b ≠ x00) then digits
              else base58_zeros k (digits ++ [nth 0 base58Alphabet x31])
  | [] => digits
  end.

(** [for i, j := 0, len-1; i < j; i, j = i+1, j-1]: swaps [n] pairs from [i]. *)
Fixpoint swap_ends (n i : nat) (l : bytes) : bytes :=
  match n with
  | O => l
  | S n' =>
      let j := (length l - 1 - i)%nat in
      if bool_decide (i < j)%nat then
        match l !! i, l !! j with
        | Some a, Some b => swap_ends n' (S i) (<[j := a]> (<[i := b]> l))
        | _, _ => l
        end
      else l
  end.

Definition base58Encode (data : bytes) : bytes :=
  let n := SetBytes data in
  let digits := base58_zeros data (base58_digits (bits_fuel n) n []) in
  swap_ends (length digits) 0 digits.

Definition base58Check (version : byte) (data : bytes) : bytes :=
  let payload := version :: data in
  base58Encode (payload ++ take 4 (Sha256d payload)).

Definition bitcoinAddress (pubKeyCompressed : bytes) : bytes :=
  base58Check x00 (ripemd160Hash (sha256 pubKeyCompressed)).

(** *** HKDF and the BLS key *)

Definition hkdfExtract (salt ikm : bytes) : bytes := hmac_sha256 salt ikm.

(** [len(out)] grows by 32 per turn, so [length] turns are enough. *)
Fixpoint hkdfExpand_loop (fuel : nat) (prk t out : bytes) (counter : Z) (length_ : nat) : bytes :=
  match fuel with
  | O => out
  | S f =>
      if bool_decide (length out < length_)%nat then
        let t' := hmac_sha256 prk (t ++ [zb counter]) in
        hkdfExpand_loop f prk t' (out ++ t') (u8 (counter + 1)) length_
      else out
  end.

Definition hkdfExpand (prk : bytes) (length_ : nat) : bytes :=
  take length_ (hkdfExpand_loop length_ prk [] [] 1 length_).

(** [limbs[i] |= uint64(b[len(b)-1-(i*8+j)]) << (j*8)] for j < 8 *)
Definition limb (b : bytes) (i : nat) : Z :=
  foldl (λ acc j,
      if bool_decide (i * 8 + j < length b)%nat
      then Z.lor acc (u64 (Z.shiftl (bz (nth (length b - 1 - (i * 8 + j)) b x00))
                                    (Z.of_nat j * 8)))
      else acc) 0 (seq 0 8).

Definition frFromBytes (b : bytes) : list Z :=
  map (λ i, if bool_decide (i * 8 < length b)%nat then limb b i else 0) (seq 0 4).

(** The order of the BLS12-381 scalar field. *)
Definition bls_q : Z := 0x73eda753299d7d483339d80809a1d80553bda402fffe5bfeffffffff00000001.

(** [sk.FillBytes(buf)]: the big-endian value in the whole buffer; a value that
    does not fit panics. *)
Definition FillBytes {E} (n : nat) (z : Z) : outcome E bytes :=
  if z <? 256 ^ Z.of_nat n then Ret (be_bytes n z) else Panic.

Definition blsKeyGen {E} (ikm : bytes) : outcome E (bytes * bytes) :=
  let prk := hkdfExtract (str "BLS-SIG-KEYGEN-SALT-") ikm in
  let okm := hkdfExpand prk 48 in
  let sk := SetBytes okm mod bls_q in
  skBytes ← FillBytes 32 sk;
  Ret (skBytes, g1_mul_compressed (frFromBytes skBytes)).

Definition ChiaFarmerKey {E} (kr : KeyRing) : outcome E (bytes * bytes) := blsKeyGen (raw kr).
Definition ETH2ValidatorKey {E} (kr : KeyRing) : outcome E (bytes * bytes) := blsKeyGen (raw kr).
Definition AvalancheBLSKey {E} (kr : KeyRing) : outcome E (bytes * bytes) := blsKeyGen (raw kr).

(** *** The deterministic RSA key *)

(** [ctrStream]: an AES-CTR stream at a position, and the buffer it encrypts in
    place, which is zero only before the first read. *)
Record ctrStream := CtrStream {
  cs_key : bytes; cs_iv : bytes; cs_pos : nat; zeroBuf : bytes
}.

Definition xor (a b : byte) : byte := zb (Z.lxor (bz a) (bz b)).

(** [stream.XORKeyStream(b, b)] at position [pos] *)
Definition XORKeyStream (key iv : bytes) (pos : nat) (b : bytes) : bytes :=
  imap (λ i x, xor x (aes_keystream key iv (pos + i))) b.

(** [ctrStream.Read] into [need] bytes: chunks of at most the buffer. *)
Fixpoint ctr_Read (fuel need : nat) (r : ctrStream) : bytes * ctrStream :=
  match fuel, need with
  | S f, S _ =>
      let chunk := Nat.min need (length (zeroBuf r)) in
      let z := XORKeyStream (cs_key r) (cs_iv r) (cs_pos r) (take chunk (zeroBuf r)) in
      let r' := CtrStream (cs_key r) (cs_iv r) (cs_pos r + chunk) (z ++ drop chunk (zeroBuf r)) in
      let '(l, r'') := ctr_Read f (need - chunk) r' in (z ++ l, r'')
  | _, _ => ([], r)
  end.

Definition smallPrimes : list Z :=
  [3; 5; 7; 11; 13; 17; 19; 23; 29; 31; 37; 41; 43; 47; 53; 59; 61; 67; 71; 73; 79; 83; 89;
   97; 101; 103; 107; 109; 113; 127; 131; 137; 139; 149; 151; 157; 163; 167; 173; 179; 181;
   191; 193; 197; 199; 211; 223; 227; 229; 233; 239; 241; 251; 257; 263; 269; 271; 277; 281;
   283; 293; 307; 311; 313; 317; 331; 337; 347; 349; 353; 359; 367; 373; 379; 383; 389; 397;
   401; 409; 419; 421; 431; 433; 439; 443; 449; 457; 461; 463; 467; 479; 487; 491; 499; 503;
   509; 521; 523; 541; 547; 557; 563; 569; 571; 577; 587; 593; 599; 601; 607; 613; 617; 619;
   631; 641; 643; 647; 653; 659; 661; 673; 677; 683; 691; 701; 709; 719; 727; 733; 739; 743;
   751; 757; 761; 769; 773; 787; 797; 809; 811; 821; 823; 827; 829; 839; 853; 857; 859; 863;
   877; 881; 883; 887; 907; 911; 919; 929; 937; 941; 947; 953; 967; 971; 977; 983; 991; 997;
   1009; 1013; 1019; 1021; 1031; 1033; 1039; 1049; 1051; 1061; 1063; 1069; 1087; 1091; 1093;
   1097; 1103; 1109; 1117; 1123; 1129; 1151; 1153; 1163; 1171; 1181; 1187; 1193; 1201; 1213;
   1217; 1223; 1229; 1231; 1237; 1249; 1259; 1277; 1279; 1283; 1289; 1291; 1297; 1301; 1303;
   1307; 1319; 1321; 1327; 1361; 1367; 1373; 1381; 1399; 1409; 1423; 1427; 1429; 1433; 1439;
   1447; 1451; 1453; 1459; 1471; 1481; 1483; 1487; 1489; 1493; 1499; 1511; 1523; 1531; 1543;
   1549; 1553; 1559; 1567; 1571; 1579; 1583; 1597; 1601; 1607; 1609; 1613; 1619; 1621; 1627;
   1637; 1657; 1663; 1667; 1669; 1693; 1697; 1699; 1709; 1721; 1723; 1733; 1741; 1747; 1753;
   1759; 1777; 1783; 1787; 1789; 1801; 1811; 1823; 1831; 1847; 1861; 1867; 1871; 1873; 1877;
   1879; 1889; 1901; 1907; 1913; 1931; 1933; 1949; 1951; 1973; 1979; 1987; 1993; 1997; 1999;
   2003; 2011; 2017; 2027; 2029; 2039; 2053; 2063; 2069; 2081; 2083; 2087; 2089; 2099; 2111;
   2113; 2129; 2131; 2137; 2141; 2143; 2153; 2161; 2179; 2203; 2207; 2213; 2221; 2237; 2239;
   2243; 2251; 2267; 2269; 2273; 2281; 2287; 2293; 2297; 2309; 2311; 2333; 2339; 2341; 2347;
   2351; 2357; 2371; 2377; 2381; 2383; 2389; 2393; 2399; 2411; 2417; 2423; 2437; 2441; 2447;
   2459; 2467; 2473; 2477; 2503; 2521; 2531; 2539; 2543; 2549; 2551; 2557; 2579; 2591; 2593;
   2609; 2617; 2621; 2633; 2647; 2657; 2659; 2663; 2671; 2677; 2683; 2687; 2689; 2693; 2699;
   2707; 2711; 2713; 2719; 2729; 2731; 2741; 2749; 2753; 2767; 2777; 2789; 2791; 2797; 2801;
   2803; 2819; 2833; 2837; 2843; 2851; 2857; 2861; 2879; 2887; 2897; 2903; 2909; 2917; 2927;
   2939; 2953; 2957; 2963; 2969; 2971; 2999; 3001; 3011; 3019; 3023; 3037; 3041; 3049; 3061;
   3067; 3079; 3083; 3089; 3109; 3119; 3121; 3137; 3163; 3167; 3169; 3181; 3187; 3191; 3203;
   3209; 3217; 3221; 3229; 3251; 3253; 3257; 3259; 3271; 3299; 3301; 3307; 3313; 3319; 3323;
   3329; 3331; 3343; 3347; 3359; 3361; 3371; 3373; 3389; 3391; 3407; 3413; 3433; 3449; 3457;
   3461; 3463; 3467; 3469; 3491; 3499; 3511; 3517; 3527; 3529; 3533; 3539; 3541; 3547; 3557;
   3559; 3571; 3581; 3583; 3593; 3607; 3613; 3617; 3623; 3631; 3637; 3643; 3659; 3671; 3673;
   3677; 3691; 3697; 3701; 3709; 3719; 3727; 3733; 3739; 3761; 3767; 3769; 3779; 3793; 3797;
   3803; 3821; 3823; 3833; 3847; 3851; 3853; 3863; 3877; 3881; 3889; 3907; 3911; 3917; 3919;
   3923; 3929; 3931; 3943; 3947; 3967; 3989; 4001; 4003; 4007; 4013; 4019; 4021; 4027; 4049;
   4051; 4057; 4073; 4079; 4091; 4093; 4099; 4111; 4127; 4129; 4133; 4139; 4153; 4157; 4159;
   4177; 4201; 4211; 4217; 4219; 4229; 4231; 4241; 4243; 4253; 4259; 4261; 4271; 4273; 4283;
   4289; 4297; 4327; 4337; 4339; 4349; 4357; 4363; 4373; 4391; 4397; 4409; 4421; 4423; 4441;
   4447; 4451; 4457; 4463; 4481; 4483; 4493; 4507; 4513; 4517; 4519; 4523; 4547; 4549; 4561;
   4567; 4583; 4591; 4597; 4603; 4621; 4637; 4639; 4643; 4649; 4651; 4657; 4663; 4673; 4679;
   4691; 4703; 4721; 4723; 4729; 4733; 4751; 4759; 4783; 4787; 4789; 4793; 4799; 4801; 4813;
   4817; 4831; 4861; 4871; 4877; 4889; 4903; 4909; 4919; 4931; 4933; 4937; 4943; 4951; 4957;
   4967; 4969; 4973; 4987; 4993; 4999].

Definition trialDiv (p : Z) : bool := forallb (λ prime, negb (Z.rem p prime =? 0)) smallPrimes.

(** The number read from a buffer: the excess bits cleared, the top bit and the
    lowest bit set.  [bits] is positive (2048 at both calls). *)
Definition candidate (bits : nat) (b : bytes) : Z :=
  let nbytes := ((bits + 7) / 8)%nat in
  let excess := (nbytes * 8 - bits)%nat in
  let b1 := alter (λ x, zb (Z.lor (Z.land (bz x) (Z.shiftr 255 (Z.of_nat excess))) 128)) 0%nat b in
  SetBytes (alter (λ x, zb (Z.lor (bz x) 1)) (nbytes - 1)%nat b1).

(** The search has no bound in the code: [None] is a run that is not over after
    [fuel] candidates. *)
Fixpoint bigPrime (fuel bits : nat) (r : ctrStream) : option (Z * ctrStream) :=
  match fuel with
  | O => None
  | S f =>
      let nbytes := ((bits + 7) / 8)%nat in
      let '(b, r') := ctr_Read nbytes nbytes r in
      let p := candidate bits b in
      if negb (trialDiv p) then bigPrime f bits r'
      else if ProbablyPrime p then Some (p, r') else bigPrime f bits r'
  end.

(** [new(big.Int).ModInverse(g, n)] for [n > 1]: the extended Euclidean
    algorithm; [None] is [nil]. *)
Fixpoint egcd (fuel : nat) (r0 s0 r1 s1 : Z) : Z * Z :=
  match fuel with
  | O => (r0, s0)
  | S f => if r1 =? 0 then (r0, s0) else egcd f r1 s1 (r0 mod r1) (s0 - r0 / r1 * s1)
  end.

Definition ModInverse (g n : Z) : option Z :=
  let '(d, s) := egcd (Z.to_nat (Z.log2 (n * n)) + 3) n 0 (g mod n) 1 in
  if d =? 1 then Some (s mod n) else None.

Record rsaKey := RsaKey {
  rsa_N : Z; rsa_E : Z; rsa_D : Z; rsa_P : Z; rsa_Q : Z;
  rsa_Dp : Z; rsa_Dq : Z; rsa_Qinv : option Z
}.

Inductive rsa_err : Type := RsaNoInverse.

Definition rsa_of (p0 q0 : Z) : outcome rsa_err rsaKey :=
  let '(p, q) := if p0 <? q0 then (q0, p0) else (p0, q0) in
  let totient := (p - 1) * (q - 1) in
  match ModInverse 65537 totient with
  | None => Fail RsaNoInverse
  | Some d => Ret (RsaKey (p * q) 65537 d p q (d mod (p - 1)) (d mod (q - 1)) (ModInverse q p))
  end.

Definition deterministicRSA4096 (fuel : nat) (r : ctrStream) : option (outcome rsa_err rsaKey) :=
  '(p, r1) ← bigPrime fuel 2048 r;
  '(q, r2) ← bigPrime fuel 2048 r1;
  if p =? q
  then '(q', _) ← bigPrime fuel 2048 r2; Some (rsa_of p q')
  else Some (rsa_of p q).

Definition OpenDHTKey (fuel : nat) (kr : KeyRing) : option (outcome rsa_err rsaKey) :=
  deterministicRSA4096 fuel
    (CtrStream (raw kr) (drop KeyBytes (seed kr)) 0 (make_bytes 4096)).

(** *** Identifiers of ed25519 networks *)

Definition TorV3OnionAddress {E} (kr : KeyRing) : outcome E bytes :=
  pub ← ed25519Pub kr;
  let checksum := sha256 (str ".onion checksum" ++ pub ++ [x03]) in
  let addrData := pub ++ take 2 checksum ++ [x03] in
  Ret (map to_lower (base32Encode addrData) ++ str ".onion").

Definition SSBFeedID {E} (kr : KeyRing) : outcome E bytes :=
  pub ← ed25519Pub kr; Ret ([x40] ++ EncodeToString base64_Std pub ++ str ".ed25519").

Definition HypercoreDiscoveryKey256 {E} (kr : KeyRing) : outcome E bytes :=
  pub ← ed25519Pub kr; blake2b256 (str "HYPERCORE") pub.
Definition HypercoreDiscoveryKey512 {E} (kr : KeyRing) : outcome E bytes :=
  pub ← ed25519Pub kr; blake2b512 (str "HYPERCORE") pub.

(** [%02x%02x] of the byte pairs. *)
Fixpoint hex_pairs (l : bytes) : list bytes :=
  match l with
  | a :: b :: k => hexEncode [a; b] :: hex_pairs k
  | _ => []
  end.

Definition CjdnsIPv6 {E} (kr : KeyRing) : outcome E bytes :=
  pub ← ed25519Pub kr;
  let h := sha512 pub in
  addr ← update (copy_into (make_bytes 16) (take 16 h)) 0
           (λ z, Z.lor (Z.land z 15) 252);
  rest ← slice_from (Join colon (hex_pairs addr)) 2;
  Ret (str "fc" ++ rest).

(** [%x] of one byte *)
Definition hex_min (b : byte) : bytes :=
  if bz b <? 16 then [hex_digit (bz b)] else hexEncode [b].

Fixpoint hex_pairs_min (l : bytes) : list bytes :=
  match l with
  | a :: b :: k => (hex_min a ++ hexEncode [b]) :: hex_pairs_min k
  | _ => []
  end.

Record ygg := Ygg {
  y_temp : bytes; y_done : bool; y_ones : Z; y_bits : Z; y_nBits : Z
}.

(** One turn of the bit loop. *)
Definition ygg_step (buf : bytes) (s : ygg) (idx : nat) : ygg :=
  let r := Z.of_nat (idx mod 8) in
  let bit := Z.shiftr (Z.land (bz (nth (idx / 8) buf x00)) (Z.shiftr 128 r)) (7 - r) in
  if negb (y_done s) && negb (bit =? 0)
  then Ygg (y_temp s) (y_done s) (u8 (y_ones s + 1)) (y_bits s) (y_nBits s)
  else if negb (y_done s) && (bit =? 0)
  then Ygg (y_temp s) true (y_ones s) (y_bits s) (y_nBits s)
  else
    let bits := Z.lor (u8 (Z.shiftl (y_bits s) 1)) bit in
    let nBits := y_nBits s + 1 in
    if nBits =? 8 then Ygg (y_temp s ++ [zb bits]) (y_done s) (y_ones s) 0 0
    else Ygg (y_temp s) (y_done s) (y_ones s) bits nBits.

Definition ygg_addr (pub : bytes) : bytes :=
  let buf := map (λ b, zb (255 - bz b)) (copy_into (make_bytes 32) pub) in
  let s := foldl (ygg_step buf) (Ygg [] false 0 0 0) (seq 0 256) in
  copy_at 2 ([x02; zb (y_ones s)] ++ make_bytes 14) (y_temp s).

Definition YggdrasilIPv6 {E} (kr : KeyRing) : outcome E bytes :=
  pub ← ed25519Pub kr; Ret (Join colon (hex_pairs_min (ygg_addr pub))).

Definition NKNNodeID {E} (kr : KeyRing) : outcome E bytes :=
  pub ← ed25519Pub kr; Ret (hexEncode (sha256 pub)).
Definition GNUnetPeerID {E} (kr : KeyRing) : outcome E bytes :=
  pub ← ed25519Pub kr; Ret (hexEncode (sha512 pub)).
Definition SiaNodeKey {E} (kr : KeyRing) : outcome E bytes :=
  pub ← ed25519Pub kr; Ret (str "ed25519:" ++ hexEncode pub).
Definition TahoeNodeID {E} (kr : KeyRing) : outcome E bytes :=
  pub ← ed25519Pub kr; Ret (str "v0-" ++ base32Encode pub).
Definition TriblerPeerID {E} (kr : KeyRing) : outcome E bytes :=
  pub ← ed25519Pub kr; Ret (hexEncode pub).
Definition StellarNodeID {E} (kr : KeyRing) : outcome E bytes :=
  pub ← ed25519Pub kr; Ret (hexEncode pub).
Definition KayakNetNodeID {E} (kr : KeyRing) : outcome E bytes :=
  pub ← ed25519Pub kr; Ret (hexEncode pub).

(** The keys of these networks are the raw key itself. *)
Definition TorV3SecretKey (kr : KeyRing) : bytes := raw kr.
Definition BitcoinTorKey (kr : KeyRing) : bytes := raw kr.
Definition HandshakeNodeKey (kr : KeyRing) : bytes := raw kr.
Definition OxenServiceNodeKey (kr : KeyRing) : bytes := raw kr.
Definition CardanoKESKey (kr : KeyRing) : bytes := raw kr.
Definition CardanoVRFKey (kr : KeyRing) : bytes := raw kr.
Definition UrbitNetKey (kr : KeyRing) : bytes := raw kr.
Definition UrbitCryptKey (kr : KeyRing) : bytes := raw kr.
Definition TailscaleNodeKey (kr : KeyRing) : bytes := raw kr.
Definition TailscaleMachineKey (kr : KeyRing) : bytes := raw kr.
Definition TailscaleTLK (kr : KeyRing) : bytes := raw kr.

(** *** Identifiers of secp256k1 networks *)

Definition BitcoinV2Key (kr : KeyRing) : bytes := Secp256k1Priv kr.
Definition EthNodeKeyHex (kr : KeyRing) : bytes := hexEncode (Secp256k1Priv kr).
Definition EthNodeID {E} (kr : KeyRing) : outcome E bytes :=
  xy ← slice_from (Secp256k1PubUncompressed kr) 1; Ret (hexEncode xy).
Definition EthENRNodeID {E} (kr : KeyRing) : outcome E bytes :=
  xy ← slice_from (Secp256k1PubUncompressed kr) 1; Ret (keccak256 xy).
Definition LightningNodeID (kr : KeyRing) : bytes := hexEncode (Secp256k1Pub kr).

Definition BitmessageAddress (kr : KeyRing) : bytes :=
  let encSeed := sha256 (drop KeyBytes (seed kr)) in
  let encPub := secp_uncompressed encSeed in
  let merged := Secp256k1PubUncompressed kr ++ encPub in
  base58Check x00 (ripemd160Hash (sha512 merged)).

Definition ZeroNetAddress (kr : KeyRing) : bytes := bitcoinAddress (Secp256k1Pub kr).
Definition AvalancheNodeID (kr : KeyRing) : bytes :=
  str "NodeID-" ++ base58Encode (take 20 (sha256 (Secp256k1Pub kr))).
Definition StorjIdentityKey (kr : KeyRing) : bytes := hexEncode (sha256 (Secp256k1Pub kr)).

(** An RSA key that fails is the empty address. *)
Definition ArweaveAddress (fuel : nat) (kr : KeyRing) : option bytes :=
  r ← OpenDHTKey fuel kr;
  Some match r with
       | Ret k => EncodeToString base64_RawURL (sha256 (big_Bytes (rsa_N k)))
       | _ => []
       end.

(** *** libp2p *)

Fixpoint protoVarint_loop (fuel : nat) (v : Z) (b : bytes) : bytes :=
  match fuel with
  | O => b
  | S f =>
      if v >? 127 then protoVarint_loop f (Z.shiftr v 7) (b ++ [zb (Z.lor (u8 v) 128)])
      else b ++ [zb v]
  end.

(** A [uint64] has at most ten groups of seven bits. *)
Definition protoVarint (v : Z) : bytes := protoVarint_loop 10 v [].

Definition protoLenDelim (field : Z) (data : bytes) : bytes :=
  protoVarint (u64 (field * 8 + 2)) ++ protoVarint (zlen data) ++ data.
Definition protoVarintField (field value : Z) : bytes :=
  protoVarint (u64 (field * 8 + 0)) ++ protoVarint value.
Definition multihashEncode (code : Z) (data : bytes) : bytes :=
  protoVarint code ++ protoVarint (zlen data) ++ data.

Definition Libp2pEd25519 : Z := 0.
Definition Libp2pSecp256k1 : Z := 1.
Definition Libp2pRSA : Z := 2.

Definition peer_id_of (keyType : Z) (pubKeyData : bytes) : bytes :=
  let pubProto := protoVarintField 1 keyType ++ protoLenDelim 2 pubKeyData in
  if zlen pubProto <=? 42 then base58Encode (multihashEncode 0 pubProto)
  else base58Encode (multihashEncode 18 (sha256 pubProto)).

Definition Libp2pPeerID {E} (fuel : nat) (kind : Z) (kr : KeyRing) : option (outcome E bytes) :=
  if kind =? Libp2pEd25519 then Some (pub ← ed25519Pub kr; Ret (peer_id_of 1 pub))
  else if kind =? Libp2pSecp256k1 then Some (Ret (peer_id_of 2 (Secp256k1Pub kr)))
  else if kind =? Libp2pRSA then
    r ← OpenDHTKey fuel kr;
    Some (Ret match r with Ret k => peer_id_of 0 (big_Bytes (rsa_N k)) | _ => [] end)
  else Some (Ret []).

End Derive.

(** ** The key file: proofs *)

Lemma split_lines_line l k cur :
  x0a ∉ l → split_lines (l ++ x0a :: k) cur = (cur ++ l) :: split_lines k [].
Proof.
  revert cur. induction l as [|b l IH]; intros cur Hn; cbn [app split_lines].
  - by rewrite bool_decide_true, app_nil_r.
  - apply not_elem_of_cons in Hn as [H1 H2].
    rewrite bool_decide_false by congruence. rewrite IH by done. by rewrite <- app_assoc.
Qed.

Lemma trim_seqs_none seqs fuel s :
  forallb (λ q, negb (HasPrefix q s)) seqs = true → trim_seqs seqs fuel s = s.
Proof.
  intros H. destruct fuel as [|f]; [done|]. cbn [trim_seqs].
  destruct (List.find _ seqs) as [q|] eqn:E; [|done].
  apply List.find_some in E as [Hi Hq]. rewrite forallb_forall in H.
  specialize (H q Hi). by rewrite Hq in H.
Qed.

(** A hexadecimal digit starts no white space, read from either end. *)
Definition hexish (b : byte) : bool := bool_decide (is_Some (hex_value b)).

Lemma hexish_no_space b s :
  hexish b = true →
  forallb (λ q, negb (HasPrefix q (b :: s))) spaces = true ∧
  forallb (λ q, negb (HasPrefix q (b :: s))) (map reverse spaces) = true.
Proof. destruct b; intros H; vm_compute in H; try discriminate H; by split. Qed.

Lemma TrimSpace_hexish s : forallb hexish s = true → TrimSpace s = s.
Proof.
  intros H. unfold TrimSpace.
  assert (trim_seqs spaces (length s) s = s) as ->.
  { destruct s as [|b s]; [done|]. apply trim_seqs_none. cbn in H.
    apply andb_true_iff in H as [H _]. by apply hexish_no_space. }
  rewrite (trim_seqs_none _ _ (reverse s)); [apply reverse_involutive|].
  destruct s as [|b s] using rev_ind; [done|]. rewrite reverse_snoc.
  rewrite forallb_app in H. apply andb_true_iff in H as [_ H]. cbn in H.
  rewrite andb_true_r in H. by apply hexish_no_space.
Qed.

Lemma hex_digit_hexish z : 0 ≤ z < 16 → hexish (hex_digit z) = true.
Proof. intros H. unfold hexish. by rewrite hex_value_digit. Qed.

Lemma hexEncode_hexish l : forallb hexish (hexEncode l) = true.
Proof.
  induction l as [|b l IH]; [done|]. cbn [hexEncode forallb].
  pose proof (bz_range b).
  rewrite !hex_digit_hexish, IH; [done|apply Z.mod_pos_bound; lia|].
  split; [apply Z.div_pos; lia|apply Z.div_lt_upper_bound; lia].
Qed.

Lemma length_hexEncode l : length (hexEncode l) = (2 * length l)%nat.
Proof. induction l as [|b l IH]; cbn; lia. Qed.

Lemma length_hexDecode s b : hexDecode s = Some b → length s = (2 * length b)%nat.
Proof.
  revert b. induction s as [s IH] using (induction_ltof1 _ (@length byte)). intros b H.
  destruct s as [|x [|y k]]; cbn [hexDecode] in H; [by injection H as <-|done|].
  destruct (hex_value x), (hex_value y); try done.
  destruct (hexDecode k) as [r|] eqn:E; [|done]. cbn in H. injection H as <-.
  apply IH in E; [cbn [length]; lia|]. unfold ltof. cbn. lia.
Qed.

Lemma hexish_not b l : hexish b = false → forallb hexish l = true → b ∉ l.
Proof.
  intros Hb Hl Hi. rewrite forallb_forall in Hl.
  apply list_elem_of_In in Hi. apply Hl in Hi. congruence.
Qed.

(** The line [Save] writes, as [LoadKeyRing] reads it back. *)
Lemma load_saved_line kr k :
  keyring_wf kr →
  load_lines (scan_lines (str "seed=" ++ hexEncode (seed kr) ++ x0a :: k)) = Ret kr.
Proof.
  intros Hw. unfold scan_lines. rewrite app_assoc, split_lines_line; cycle 1.
  { rewrite not_elem_of_app. split; [|apply hexish_not; [done|apply hexEncode_hexish]].
    apply (bool_decide_unpack (_ ∉ _)). vm_compute. done. }
  cbn [app scan]. set (line := str "seed=" ++ hexEncode (seed kr)).
  assert (length line = 101%nat) as Hl.
  { unfold line. rewrite length_app, length_hexEncode, Hw. done. }
  replace (zlen line <? MaxScanTokenSize) with true by (unfold zlen; rewrite Hl; done).
  assert (drop_cr line = line) as ->.
  { clear Hl. unfold drop_cr, line. destruct kr as [sd]. unfold keyring_wf in Hw. cbn [seed] in *.
    destruct sd as [|b s _] using rev_ind; [done|]. assert (∃ c t, hexEncode (s ++ [b]) = t ++ [c]) as (c & t & E).
    { clear. induction s as [|a s (c & t & E)]; [by eexists _, [_]|].
      cbn [app hexEncode]. rewrite E. eexists c, (_ :: _ :: t). done. }
    rewrite E, app_assoc, last_snoc, bool_decide_false; [done|].
    intros ->. pose proof (hexEncode_hexish (s ++ [b])) as H. rewrite E, forallb_app in H.
    apply andb_true_iff in H as [_ H]. done. }
  cbn [load_lines]. unfold line. rewrite HasPrefix_app, drop_app_exact by done.
  rewrite TrimSpace_hexish by apply hexEncode_hexish.
  rewrite bool_decide_false by (rewrite length_hexEncode, Hw; cbn; lia).
  rewrite hexDecode_hexEncode, copy_into_full by (by rewrite length_make_bytes, Hw).
  by destruct kr.
Qed.

Definition fs_ok (s : fs) : Prop :=
  open_err s = None ∧ create_err s = None ∧ write_err s = None.

Lemma Save_ok path kr s :
  fs_ok s →
  Save path kr s =
    (Ret (), Fs (<[path := str "seed=" ++ hexEncode (seed kr) ++ [x0a]]> (files s)) None None None).
Proof. intros (Ho & Hc & Hw). unfold Save. by rewrite Hc, Hw, Ho. Qed.

Lemma load_lines_wf ls kr : load_lines ls = Ret kr → keyring_wf kr.
Proof.
  induction ls as [|l ls IH]; cbn [load_lines]; intros H; [done|].
  destruct (HasPrefix _ l); [|by apply IH]. case_bool_decide; [done|].
  destruct (hexDecode _) as [b|]; [|done]. injection H as <-.
  unfold keyring_wf. cbn [seed]. by rewrite length_copy_into, length_make_bytes.
Qed.

Lemma GenerateKeyRing_wf rnd kr : GenerateKeyRing rnd = Ret kr → keyring_wf kr.
Proof.
  unfold GenerateKeyRing. intros H. apply bind_ret_inv in H as (b & _ & H). injection H as <-.
  unfold keyring_wf. cbn [seed]. by rewrite length_copy_into, length_make_bytes.
Qed.

(** Every keyring [LoadKeyRing] returns has a 48-byte seed and hence a 32-byte
    raw key, whatever the file holds; a file that exists is not changed, and
    without [create] nothing is. *)
Theorem LoadKeyRing_wf path create rnd s r s' :
  LoadKeyRing path create rnd s = (r, s') →
  (∀ kr, r = Ret kr → keyring_wf kr ∧ length (raw kr) = KeyBytes) ∧
  (files s !! path ≠ None ∨ create = false → s' = s).
Proof.
  unfold LoadKeyRing. intros E.
  assert (∀ kr, keyring_wf kr → keyring_wf kr ∧ length (raw kr) = KeyBytes) as Hraw.
  { intros kr Hk. split; [done|]. unfold raw. rewrite length_take, Hk. done. }
  destruct (open_err s); [injection E as <- <-; by split|].
  destruct (files s !! path) as [text|] eqn:Hp.
  { injection E as <- <-. split; [|done]. intros kr Hk. eauto using load_lines_wf. }
  destruct create; cbn [negb] in E; [|injection E as <- <-; by split].
  split; [|intros [H|H]; by exfalso].
  intros kr ->. apply stm_bind_inv in E as (k1 & s1 & E1 & E).
  apply stm_bind_inv in E as (? & s2 & _ & E). injection E as -> _.
  unfold stm_wrap, stm_lift in E1.
  destruct (GenerateKeyRing rnd) as [k| |] eqn:G; cbn in E1; try discriminate E1.
  injection E1 as -> _. eauto using GenerateKeyRing_wf.
Qed.

Lemma LoadKeyRing_wf_witness :
  ∃ kr s, LoadKeyRing (str "k") true (Ret (make_bytes 48)) (Fs ∅ None None None) = (Ret kr, s) ∧
    length (raw kr) = KeyBytes.
Proof.
  eexists _, _. split; [reflexivity|].
  eapply (LoadKeyRing_wf (str "k") true (Ret (make_bytes 48)) (Fs ∅ None None None));
    reflexivity.
Defined.

(** C26: The key file keeps the key.  The first [LoadKeyRing] with [create] on a path
    that does not exist makes a keyring of the 48 random bytes and writes it,
    touching no other file; every later load of that path, with or without
    [create], returns the same keyring.  Likewise [Save] followed by
    [LoadKeyRing] gives the saved keyring back. *)
Theorem keyring_persists path b s kr create rnd :
  fs_ok s → length b = SeedBytes → keyring_wf kr →
  (files s !! path = None →
   ∃ s', LoadKeyRing path true (Ret b) s = (Ret (mkKeyRing b), s') ∧
     LoadKeyRing path create rnd s' = (Ret (mkKeyRing b), s') ∧
     ∀ path', path' ≠ path → files s' !! path' = files s !! path') ∧
  (∃ s', Save path kr s = (Ret (), s') ∧ LoadKeyRing path create rnd s' = (Ret kr, s')).
Proof.
  intros Hs Hb Hk.
  assert (∀ k m, keyring_wf k →
    LoadKeyRing path create rnd
      (Fs (<[path := str "seed=" ++ hexEncode (seed k) ++ [x0a]]> m) None None None) =
    (Ret k, Fs (<[path := str "seed=" ++ hexEncode (seed k) ++ [x0a]]> m) None None None)) as L.
  { intros k m Hwf. unfold LoadKeyRing. cbn [open_err files].
    rewrite lookup_insert_eq, load_saved_line by done. done. }
  split.
  - intros Hp. eexists. split_and!; [|by apply (L (mkKeyRing b))|].
    + unfold LoadKeyRing. pose proof Hs as (Ho & _ & _). rewrite Ho, Hp. cbn [negb].
      unfold GenerateKeyRing. cbn [map_err mbind outcome_bind].
      rewrite copy_into_full by (by rewrite length_make_bytes).
      erewrite stm_bind_ret by reflexivity.
      erewrite stm_bind_ret by (unfold stm_wrap; by rewrite Save_ok).
      reflexivity.
    + intros path' Hne. cbn [files]. by rewrite lookup_insert_ne.
  - eexists. split; [by apply Save_ok|by apply L].
Qed.

Lemma keyring_persists_witness :
  ∃ s', LoadKeyRing (str "k") true (Ret (make_bytes 48)) (Fs ∅ None None None) =
      (Ret (mkKeyRing (make_bytes 48)), s') ∧
    LoadKeyRing (str "k") false (Fail EOF) s' = (Ret (mkKeyRing (make_bytes 48)), s').
Proof.
  destruct (keyring_persists (str "k") (make_bytes 48) (Fs ∅ None None None)
    (mkKeyRing (make_bytes 48)) false (Fail EOF)) as [H _]; [by split_and!|done|done|].
  destruct (H eq_refl) as (s' & E1 & E2 & _). by exists s'.
Defined.

(** A write that fails after the file was created leaves an empty file, and
    from then on loading fails, with [create] too. *)
Lemma failed_save_poisons path b s e rnd :
  files s !! path = None → open_err s = None → create_err s = None → write_err s = Some e →
  length b = SeedBytes →
  ∃ s', LoadKeyRing path true (Ret b) s = (Fail (KeySave (KeyIO e)), s') ∧
    LoadKeyRing path true rnd s' = (Fail KeyNoSeed, s').
Proof.
  intros Hp Ho Hc Hw Hb. eexists. split.
  - unfold LoadKeyRing. rewrite Ho, Hp. cbn [negb].
    erewrite stm_bind_ret by reflexivity.
    erewrite stm_bind_fail; [reflexivity|]. unfold stm_wrap, Save. by rewrite Hc, Hw.
  - unfold LoadKeyRing. cbn [open_err files]. rewrite Ho, lookup_insert_eq. done.
Qed.

(** The example file of the README has 92 hexadecimal digits and is refused. *)
Lemma readme_example_refused :
  load_lines (scan_lines (str
    "seed=aabbccddee00112233445566778899aabbccddee00112233445566778899aabbccddee00112233445566778899aa"
    ++ [x0a])) = Fail KeySeedLength.
Proof. vm_compute. reflexivity. Qed.

(** ** Text encodings: proofs *)

Lemma swap_pair a x m y z :
  <[(length a + S (length m))%nat := x]> (<[length a := y]> (a ++ x :: m ++ y :: z)) =
  ((a ++ [y]) ++ m ++ x :: z : bytes).
Proof.
  rewrite insert_app_r_alt, Nat.sub_diag by lia.
  change (<[O := y]> (x :: m ++ y :: z)) with (y :: m ++ y :: z).
  rewrite insert_app_r_alt by lia.
  replace (length a + S (length m) - length a)%nat with (S (length m)) by lia.
  change (<[S (length m) := x]> (y :: m ++ y :: z))
    with (y :: <[length m := x]> (m ++ y :: z)).
  rewrite insert_app_r_alt, Nat.sub_diag by lia. by rewrite <- app_assoc.
Qed.

(** The two indices have met in the middle when the outer parts are done. *)
Lemma swap_ends_reverse n a m z :
  length a = length z → (length m ≤ n)%nat →
  swap_ends n (length a) (a ++ m ++ z) = a ++ reverse m ++ z.
Proof.
  revert a m z. induction n as [|n IH]; intros a m z Hl Hn.
  { destruct m; [done|cbn in Hn; lia]. }
  destruct m as [|x m]; [|destruct m as [|y m _] using rev_ind].
  - cbn [swap_ends app]. rewrite bool_decide_false; [done|]. rewrite length_app. lia.
  - cbn [swap_ends app]. rewrite bool_decide_false; [done|]. rewrite length_app. cbn. lia.
  - cbn [swap_ends]. set (l := a ++ (x :: m ++ [y]) ++ z).
    assert (length l = (length a + S (length m) + S (length z)))%nat as Hlen.
    { unfold l. rewrite !length_app. cbn. rewrite length_app. cbn. lia. }
    assert (l = a ++ x :: m ++ y :: z) as El by (unfold l; cbn; by rewrite <- app_assoc).
    replace (length l - 1 - length a)%nat with (length a + S (length m))%nat by lia.
    rewrite bool_decide_true by lia.
    assert (l !! length a = Some x) as ->.
    { rewrite El, lookup_app_r, Nat.sub_diag by lia. done. }
    assert (l !! (length a + S (length m))%nat = Some y) as ->.
    { rewrite El, lookup_app_r by lia.
      replace (length a + S (length m) - length a)%nat with (S (length m)) by lia.
      change ((x :: m ++ y :: z) !! S (length m)) with ((m ++ y :: z) !! length m).
      rewrite lookup_app_r, Nat.sub_diag by lia. done. }
    rewrite El, swap_pair.
    replace (S (length a)) with (length (a ++ [y])) by (rewrite length_app; cbn; lia).
    rewrite IH; [|rewrite length_app; cbn; lia|].
    + rewrite (reverse_cons (m ++ [y]) x), reverse_snoc. cbn [app]. by rewrite <- !app_assoc.
    + cbn in Hn. rewrite length_app in Hn. cbn in Hn. lia.
Qed.

Lemma base58_zeros_app data digits :
  base58_zeros data digits = digits ++ replicate (leading x00 data) (alphabet_at 0).
Proof.
  revert digits. induction data as [|b data IH]; intros digits; cbn [base58_zeros leading].
  - by rewrite app_nil_r.
  - destruct (decide (b = x00)) as [->|Hb].
    + rewrite bool_decide_false, bool_decide_true by (done || tauto).
      rewrite IH. cbn [replicate]. by rewrite <- app_assoc.
    + rewrite bool_decide_true, bool_decide_false by done. by rewrite app_nil_r.
Qed.

Lemma base58_digits_loop fuel n chars :
  base58_digits fuel n chars = base58Encode_loop fuel n chars.
Proof.
  revert n chars. induction fuel as [|f IH]; intros n chars; [done|].
  cbn [base58_digits base58Encode_loop]. destruct (n >? 0); [|done]. apply IH.
Qed.

(** The base58 encoder of the keyring is the one of relayhub. *)
Lemma base58Encode_agrees data : base58Encode data = Base58.base58Encode data.
Proof.
  unfold base58Encode, Base58.base58Encode.
  rewrite base58_zeros_app, base58_digits_loop.
  set (l := base58Encode_loop _ _ _ ++ _).
  pose proof (swap_ends_reverse (length l) [] l [] eq_refl (Nat.le_refl _)) as E.
  cbn [app length] in E. rewrite !app_nil_r in E. rewrite E.
  case_bool_decide as Hd; [|done]. unfold l. subst data. done.
Qed.

Lemma protoVarint_loop_agrees fuel v b :
  protoVarint_loop fuel v b = b ++ PutUvarint fuel v.
Proof.
  revert v b. induction fuel as [|f IH]; intros v b; cbn [protoVarint_loop PutUvarint].
  - by rewrite app_nil_r.
  - destruct (v >? 127) eqn:E1, (v >=? 128) eqn:E2; zbool; try lia; [|done].
    rewrite IH. by rewrite <- app_assoc.
Qed.

Lemma protoVarint_agrees v : protoVarint v = encodeVarint v.
Proof. unfold protoVarint. by rewrite protoVarint_loop_agrees. Qed.

(** The encoders the keyring brings along are those of relayhub: its base58
    encoder and its varint encoder are the same functions, so identifiers
    printed by one package are read by the other. *)
Theorem encoders_agree :
  (∀ data, base58Encode data = Base58.base58Encode data) ∧
  (∀ v, protoVarint v = encodeVarint v).
Proof. split; [apply base58Encode_agrees|apply protoVarint_agrees]. Qed.

Lemma base58Decode_keyring data :
  data ≠ [] → base58Decode (base58Encode data) = Ret data.
Proof. rewrite base58Encode_agrees. apply base58Decode_base58Encode. Qed.

Lemma base58Encode_inj a b : a ≠ [] → b ≠ [] → base58Encode a = base58Encode b → a = b.
Proof.
  intros Ha Hb E. apply (f_equal base58Decode) in E.
  rewrite !base58Decode_keyring in E by done. by injection E.
Qed.

Lemma hexEncode_inj a b : hexEncode a = hexEncode b → a = b.
Proof.
  intros E. apply (f_equal hexDecode) in E. rewrite !hexDecode_hexEncode in E. by injection E.
Qed.

Definition upper_or_digit (b : byte) : bool := negb ((97 <=? bz b) && (bz b <=? 122)).

Lemma to_lower_inj a b :
  upper_or_digit a = true → upper_or_digit b = true → to_lower a = to_lower b → a = b.
Proof.
  intros Ha Hb E. apply (inj bz). apply (f_equal bz) in E. revert Ha Hb E.
  unfold to_lower, upper_or_digit. pose proof (bz_range a). pose proof (bz_range b).
  destruct (65 <=? bz a) eqn:?, (bz a <=? 90) eqn:?, (65 <=? bz b) eqn:?, (bz b <=? 90) eqn:?;
    cbn [andb]; zbool; rewrite ?bz_zb_small by lia;
    destruct (97 <=? bz a) eqn:?, (bz a <=? 122) eqn:?, (97 <=? bz b) eqn:?, (bz b <=? 122) eqn:?;
    cbn [andb negb]; intros; try discriminate; zbool; lia.
Qed.

Lemma map_to_lower_inj l k :
  forallb upper_or_digit l = true → forallb upper_or_digit k = true →
  map to_lower l = map to_lower k → l = k.
Proof.
  revert k. induction l as [|a l IH]; intros [|b k] Hl Hk E; try discriminate E; [done|].
  cbn in *. apply andb_true_iff in Hl as [Ha Hl]. apply andb_true_iff in Hk as [Hb Hk].
  injection E as E1 E2. f_equal; [by apply to_lower_inj|by apply IH].
Qed.

Lemma base32_text_ok data f :
  forallb f (enc_alphabet base32_Std) = true → forallb f (enc_text base32_Std data) = true.
Proof.
  intros H. rewrite forallb_forall in H |- *. intros b Hb. apply H.
  pose proof (enc_text_letters base32_Std data base32_Std_ok) as L.
  rewrite list.Forall_forall in L. apply list_elem_of_In, L. by apply list_elem_of_In.
Qed.

Lemma base32Encode_text data : base32Encode data = enc_text base32_Std data.
Proof.
  unfold base32Encode, EncodeToString. apply TrimRight_app.
  - by apply base32_text_ok.
  - generalize (if bool_decide (enc_group base32_Std = 0%nat) then 0%nat else
      ((enc_group base32_Std - length (enc_text base32_Std data) mod enc_group base32_Std)
        mod enc_group base32_Std)%nat) as n.
    induction n as [|n IH]; [done|]. cbn [replicate forallb]. by rewrite IH, bool_decide_true.
Qed.

Lemma base32Encode_inj l k : length l = length k → base32Encode l = base32Encode k → l = k.
Proof. rewrite !base32Encode_text. apply enc_text_inj, base32_Std_ok. Qed.

Lemma base32_lower_inj l k :
  length l = length k → map to_lower (base32Encode l) = map to_lower (base32Encode k) → l = k.
Proof.
  intros Hl E. apply base32Encode_inj; [done|].
  apply map_to_lower_inj; [..|done]; rewrite base32Encode_text; by apply base32_text_ok.
Qed.

Section Ids.
Context {K : KeyPrims} {L : KeyPrimsLaws K}.

Lemma length_raw kr : keyring_wf kr → length (raw kr) = KeyBytes.
Proof. intros H. unfold raw. rewrite length_take, H. done. Qed.

Lemma ed25519Pub_ok {E} kr : keyring_wf kr → @ed25519Pub K E kr = Ret (ed25519_pub (raw kr)).
Proof.
  intros H. unfold ed25519Pub, BTDHTKey, key32.
  rewrite bool_decide_true by (by apply length_raw). cbn [mbind outcome_bind].
  unfold ed_Public. rewrite slice_from_ok by (rewrite length_app, length_raw; cbn; lia || done).
  f_equal. apply drop_app_exact. by apply length_raw.
Qed.

(** The identifiers that show the ed25519 key itself. *)
Definition ed_ids : list (KeyRing → outcome unit bytes) :=
  [TorV3OnionAddress; SSBFeedID; SiaNodeKey; TahoeNodeID; TriblerPeerID; StellarNodeID;
   KayakNetNodeID; λ kr, default (Ret []) (Libp2pPeerID 0 Libp2pEd25519 kr)].

(** The identifiers that show the secp256k1 key itself. *)
Definition secp_ids : list (KeyRing → outcome unit bytes) :=
  [λ kr, Ret (LightningNodeID kr);
   λ kr, default (Ret []) (Libp2pPeerID 0 Libp2pSecp256k1 kr)].

(** What [peer_id_of] encodes for a key of at most 38 bytes: the key in its
    protocol-buffer wrapping, in an identity multihash. *)
Definition key_proto (keyType : Z) (pub : bytes) : bytes :=
  [x08; zb keyType; x12; zb (zlen pub)] ++ pub.

Lemma encodeVarint_small v : 0 ≤ v < 128 → encodeVarint v = [zb v].
Proof.
  intros Hv. unfold encodeVarint. cbn [PutUvarint MaxVarintLen64].
  destruct (v >=? 128) eqn:E; zbool; [lia|done].
Qed.

Lemma peer_id_small keyType pub :
  0 ≤ keyType < 128 → (length pub ≤ 38)%nat →
  peer_id_of keyType pub =
    base58Encode ([x00; zb (zlen (key_proto keyType pub))] ++ key_proto keyType pub).
Proof.
  intros Ht Hl. unfold peer_id_of, protoVarintField, protoLenDelim, multihashEncode.
  rewrite !protoVarint_agrees, !(encodeVarint_small keyType) by lia.
  rewrite (encodeVarint_small (zlen pub)) by (unfold zlen; lia).
  change (encodeVarint (u64 (1 * 8 + 0))) with [x08].
  change (encodeVarint (u64 (2 * 8 + 2))) with [x12].
  change (encodeVarint 0) with [x00].
  change (([x08] ++ [zb keyType]) ++ [x12] ++ [zb (zlen pub)] ++ pub) with (key_proto keyType pub).
  assert (zlen (key_proto keyType pub) = 4 + zlen pub) as Hz by (unfold key_proto; by rewrite zlen_app).
  pose proof (zlen_nonneg pub). assert (zlen pub ≤ 38) by (unfold zlen; lia).
  destruct (zlen (key_proto keyType pub) <=? 42) eqn:E; zbool; [|lia].
  rewrite encodeVarint_small by lia. done.
Qed.

Lemma peer_id_inj t a b :
  0 ≤ t < 128 → (length a ≤ 38)%nat → (length b ≤ 38)%nat →
  peer_id_of t a = peer_id_of t b → a = b.
Proof.
  intros Ht Ha Hb E. rewrite !peer_id_small in E by done.
  apply base58Encode_inj in E; [|done..]. cbn in E. by injection E.
Qed.

(** An identifier determines the public key it stands for: two keyrings with
    the same Tor address, SSB feed, Sia, Tahoe, Tribler, Stellar or KayakNet id,
    or the same ed25519 peer id, have the same ed25519 public key, and
    likewise for the Lightning id and the secp256k1 peer id. *)
Theorem node_ids_injective k1 k2 :
  keyring_wf k1 → keyring_wf k2 →
  (∀ f, f ∈ ed_ids → f k1 = f k2 → ed25519_pub (raw k1) = ed25519_pub (raw k2)) ∧
  (∀ f, f ∈ secp_ids → f k1 = f k2 → Secp256k1Pub k1 = Secp256k1Pub k2).
Proof.
  intros H1 H2.
  assert (length (ed25519_pub (raw k1)) = length (ed25519_pub (raw k2))) as Hl
    by (by rewrite !ed25519_pub_length).
  split; intros f Hf E.
  - unfold ed_ids in Hf. repeat (apply elem_of_cons in Hf as [->|Hf]); [..|by apply elem_of_nil in Hf];
      unfold TorV3OnionAddress, SSBFeedID, SiaNodeKey, TahoeNodeID, TriblerPeerID, StellarNodeID,
        KayakNetNodeID, Libp2pPeerID in E;
      cbn [Z.eqb Libp2pEd25519 default] in E; unfold id in E;
      rewrite !ed25519Pub_ok in E by done; cbn [mbind outcome_bind] in E; injection E as E;
      try (by apply hexEncode_inj).
    + apply app_inj_2 in E as [E _]; [|done]. apply base32_lower_inj in E; [|len; by rewrite Hl].
      by apply app_inj_1 in E as [E _].
    + apply app_inj_2 in E as [E _]; [|done].
      apply EncodeToString_inj in E; auto using base64_Std_ok.
    + by apply base32Encode_inj in E.
    + apply (peer_id_inj 1); rewrite ?ed25519_pub_length; done || lia.
  - unfold secp_ids in Hf. repeat (apply elem_of_cons in Hf as [->|Hf]); [..|by apply elem_of_nil in Hf];
      unfold LightningNodeID, Libp2pPeerID in E; cbn [Z.eqb Libp2pEd25519 Libp2pSecp256k1 default] in E;
      unfold id in E; injection E as E.
    + by apply hexEncode_inj.
    + apply (peer_id_inj 2); unfold Secp256k1Pub; rewrite ?secp_compressed_length; done || lia.
Qed.

(** What the keyring prints, the base58 decoder of relayhub reads: the ed25519
    and secp256k1 peer ids decode to the identity multihash of the wrapped
    public key, and a base58-check address to its version, payload and
    checksum. *)
Theorem printed_ids_readable fuel kr version data :
  keyring_wf kr →
  (∃ text, @Libp2pPeerID K unit fuel Libp2pEd25519 kr = Some (Ret text) ∧
     base58Decode text = Ret ([x00; zb 36] ++ key_proto 1 (ed25519_pub (raw kr)))) ∧
  (∃ text, @Libp2pPeerID K unit fuel Libp2pSecp256k1 kr = Some (Ret text) ∧
     base58Decode text = Ret ([x00; zb 37] ++ key_proto 2 (Secp256k1Pub kr))) ∧
  base58Decode (base58Check version data) =
    Ret (version :: data ++ take 4 (Sha256d (version :: data))).
Proof.
  intros H. split_and!.
  - eexists. split; [unfold Libp2pPeerID; cbn [Z.eqb Libp2pEd25519]; by rewrite ed25519Pub_ok|].
    rewrite peer_id_small by (rewrite ?ed25519_pub_length; lia).
    rewrite base58Decode_keyring by done. unfold key_proto.
    by rewrite zlen_app, (proj2 (zlen_eq_nat _ 32) (ed25519_pub_length _)).
  - eexists. split; [reflexivity|]. unfold Secp256k1Pub.
    rewrite peer_id_small by (rewrite ?secp_compressed_length; lia).
    rewrite base58Decode_keyring by done. unfold key_proto.
    by rewrite zlen_app, (proj2 (zlen_eq_nat _ 33) (secp_compressed_length _)).
  - unfold base58Check. by rewrite base58Decode_keyring.
Qed.
End Ids.

(** An instance of the primitives for the witnesses: keys are their own public
    keys, hashes are truncations, and every number passes as a prime. *)
Module ToyKeys.

Definition fit (n : nat) (l : bytes) : bytes := copy_into (make_bytes n) l.

Lemma length_fit n l : length (fit n l) = n.
Proof. unfold fit. by rewrite length_copy_into, length_make_bytes. Qed.

#[export] Instance toy_prims : KeyPrims := {|
  ed25519_pub := fit 32; x25519_pub := fit 32; secp_priv := fit 32;
  secp_compressed := fit 33; secp_uncompressed := fit 65;
  keccak_sum := fit 32; ripemd160_sum := fit 20;
  blake2b_sum256 _ := fit 32; blake2b_sum512 _ := fit 64;
  aes_keystream key iv n := let z := Z.of_nat n in zb (16 * z * z + z * z * z / 1000);
  g1_mul_compressed l := fit 48 (concat (map (be_bytes 8) l));
  ProbablyPrime _ := true
|}.

#[export] Instance toy_laws : KeyPrimsLaws toy_prims.
Proof. split; [intros s; apply length_fit..|done]. Qed.

Definition ring1 : KeyRing := mkKeyRing (make_bytes 48).
Definition ring2 : KeyRing := mkKeyRing (make_bytes 40 ++ replicate 8 x07).
End ToyKeys.
Import ToyKeys.

Lemma node_ids_injective_witness :
  TorV3OnionAddress (E := unit) ToyKeys.ring1 = TorV3OnionAddress ToyKeys.ring2 ∧
  ed25519_pub (raw ToyKeys.ring1) = ed25519_pub (raw ToyKeys.ring2).
Proof.
  assert (TorV3OnionAddress (E := unit) ToyKeys.ring1 = TorV3OnionAddress ToyKeys.ring2) as E
    by (vm_compute; reflexivity).
  split; [exact E|].
  apply (proj1 (node_ids_injective ToyKeys.ring1 ToyKeys.ring2 eq_refl eq_refl)
    TorV3OnionAddress); [apply list_elem_of_here|exact E].
Defined.

Lemma printed_ids_readable_witness :
  ∃ text, Libp2pPeerID (E := unit) 0 Libp2pEd25519 ToyKeys.ring2 = Some (Ret text) ∧
    base58Decode text = Ret ([x00; zb 36] ++ key_proto 1 (ed25519_pub (raw ToyKeys.ring2))).
Proof. exact (proj1 (printed_ids_readable 0 ToyKeys.ring2 x00 [] eq_refl)). Defined.

(** ** Keys: proofs *)

Lemma clamp_low b : Z.land (bz b) 248 mod 8 = 0 ∧ 0 ≤ Z.land (bz b) 248 < 256.
Proof. destruct b; vm_compute; repeat split; congruence. Qed.

Lemma clamp_high b :
  64 ≤ Z.lor (bz (zb (Z.land (bz b) 127))) 64 < 128.
Proof. destruct b; vm_compute; split; congruence. Qed.

Lemma update_app {E} l x k f i :
  length l = i → @update E (l ++ x :: k) i f = Ret (l ++ zb (f (bz x)) :: k).
Proof.
  intros <-. unfold update, index. rewrite lookup_app_r, Nat.sub_diag by lia.
  cbn [lookup list_lookup mbind outcome_bind].
  by rewrite insert_app_r_alt, Nat.sub_diag by lia.
Qed.

(** The Tox key is the raw key with the five bits of the X25519 clamping
    forced: read as a little-endian number it is a multiple of 8 between 2^254
    and 2^255, and all its other bytes are those of the raw key. *)
Theorem ToxKey_clamped kr :
  keyring_wf kr →
  ∃ sk, @ToxKey unit kr = Ret sk ∧ length sk = KeyBytes ∧
    le_val sk mod 8 = 0 ∧ 2 ^ 254 ≤ le_val sk < 2 ^ 255 ∧
    ∀ i, (0 < i < 31)%nat → sk !! i = raw kr !! i.
Proof.
  intros H. pose proof (length_raw kr H) as Hr. unfold ToxKey.
  rewrite copy_into_full by (by rewrite length_make_bytes).
  destruct (raw kr) as [|a l]; [done|]. destruct l as [|b l _] using rev_ind; [done|].
  assert (length l = 30%nat) as Hl.
  { rewrite length_cons, length_app in Hr. unfold KeyBytes in Hr. cbn [length] in Hr. lia. }
  rewrite (update_app [] a (l ++ [b])) by done. cbn [mbind outcome_bind app].
  set (a' := zb (Z.land (bz a) 248)).
  rewrite (update_app (a' :: l) b []) by (cbn; lia). cbn [mbind outcome_bind].
  set (b1 := zb (Z.land (bz b) 127)).
  rewrite (update_app (a' :: l) b1 []) by (cbn; lia).
  set (b' := zb (Z.lor (bz b1) 64)).
  pose proof (clamp_low a) as [La1 La2]. pose proof (clamp_high b) as Lb. fold b1 in Lb.
  assert (bz a' mod 8 = 0) as Ha by (unfold a'; by rewrite bz_zb_small).
  assert (64 ≤ bz b' < 128) as Hb by (unfold b'; rewrite bz_zb_small; lia).
  exists ((a' :: l) ++ [b']). rewrite le_val_snoc, le_val_cons.
  pose proof (le_val_range l) as Rl. pose proof (bz_range a') as Ra.
  assert (zlen l = 30) as Zl by (unfold zlen; lia). rewrite Zl in Rl.
  rewrite zlen_cons, Zl. change (256 ^ (1 + 30)) with (8 * 2 ^ 245).
  change (256 ^ 30) with (2 ^ 240) in Rl. split_and!; [done|..].
  - cbn [app length]. rewrite length_app, Hl. done.
  - replace (bz a' + 256 * le_val l + 8 * 2 ^ 245 * bz b')
      with (bz a' + (32 * le_val l + 2 ^ 245 * bz b') * 8) by lia.
    by rewrite Z_mod_plus_full.
  - lia.
  - lia.
  - intros [|i] Hi; [lia|]. cbn [app lookup list_lookup].
    change ((l ++ [b']) !! i = (l ++ [b]) !! i). by rewrite !lookup_app_l by lia.
Qed.

Lemma ToxKey_clamped_witness :
  ∃ sk, @ToxKey unit ToyKeys.ring2 = Ret sk ∧ 2 ^ 254 ≤ le_val sk < 2 ^ 255.
Proof.
  destruct (ToxKey_clamped ToyKeys.ring2 eq_refl) as (sk & E & _ & _ & R & _).
  by exists sk.
Defined.

(** *** HKDF *)

(** The blocks of RFC 5869 with an empty [info]: T(0) is empty, T(n+1) is the
    keyed hash of T(n) and the number n+1. *)
Fixpoint hkdf_T (prk : bytes) (n : nat) : bytes :=
  match n with
  | O => []
  | S k => hmac_sha256 prk (hkdf_T prk k ++ [zb (Z.of_nat (S k))])
  end.

Definition hkdf_blocks (prk : bytes) (n : nat) : bytes :=
  concat (map (hkdf_T prk) (seq 1 n)).

Lemma hkdf_blocks_S prk n : hkdf_blocks prk (S n) = hkdf_blocks prk n ++ hkdf_T prk (S n).
Proof.
  unfold hkdf_blocks. rewrite seq_S, map_app, concat_app. cbn [map concat].
  by rewrite app_nil_r.
Qed.

Lemma length_hkdf_blocks prk n : length (hkdf_blocks prk n) = (32 * n)%nat.
Proof.
  induction n as [|n IH]; [done|]. rewrite hkdf_blocks_S, length_app, IH.
  cbn [hkdf_T]. rewrite length_hmac_sha256. lia.
Qed.

Lemma hkdfExpand_loop_blocks fuel prk i len :
  (len ≤ 32 * i + 32 * fuel)%nat →
  ∃ n, hkdfExpand_loop fuel prk (hkdf_T prk i) (hkdf_blocks prk i) (u8 (Z.of_nat i + 1)) len =
    hkdf_blocks prk n ∧ (len ≤ 32 * n)%nat ∧ (i ≤ n)%nat.
Proof.
  revert i. induction fuel as [|f IH]; intros i Hf; cbn [hkdfExpand_loop].
  { exists i. split_and!; lia || done. }
  case_bool_decide as Hc; rewrite length_hkdf_blocks in Hc; [|exists i; split_and!; lia || done].
  assert (hmac_sha256 prk (hkdf_T prk i ++ [zb (u8 (Z.of_nat i + 1))]) = hkdf_T prk (S i)) as ->.
  { cbn [hkdf_T]. do 3 f_equal. unfold u8, wrap_u. rewrite zb_mod. f_equal. lia. }
  rewrite <- hkdf_blocks_S.
  assert (u8 (u8 (Z.of_nat i + 1) + 1) = u8 (Z.of_nat (S i) + 1)) as ->.
  { unfold u8, wrap_u. rewrite Zplus_mod_idemp_l. f_equal. lia. }
  destruct (IH (S i)) as (n & E & Hn & Hi); [lia|]. exists n. split_and!; [done|done|lia].
Qed.

Lemma hkdf_blocks_prefix prk n m :
  (n ≤ m)%nat → ∃ k, hkdf_blocks prk m = hkdf_blocks prk n ++ k.
Proof.
  induction 1 as [|m _ [k E]]; [exists []; by rewrite app_nil_r|].
  rewrite hkdf_blocks_S, E, <- app_assoc. by eexists.
Qed.

Lemma hkdfExpand_prefix prk len m :
  (len ≤ 32 * m)%nat → hkdfExpand prk len = take len (hkdf_blocks prk m).
Proof.
  intros Hm. unfold hkdfExpand.
  destruct (hkdfExpand_loop_blocks len prk 0 len) as (n & E & Hn & _); [lia|].
  change (hkdf_T prk 0) with (@nil byte) in E. change (hkdf_blocks prk 0) with (@nil byte) in E.
  change (u8 (Z.of_nat 0 + 1)) with 1 in E. rewrite E.
  destruct (Nat.le_ge_cases n m) as [H|H];
    destruct (hkdf_blocks_prefix prk _ _ H) as [k ->]; rewrite take_app_le;
    rewrite ?length_hkdf_blocks; done || lia.
Qed.

(** [hkdfExpand] returns exactly the requested number of bytes, and these are
    the first bytes of the blocks T(1), T(2), ... of RFC 5869 with empty info, so
    that a shorter output is a prefix of a longer one. *)
Theorem hkdfExpand_blocks prk len m :
  (len ≤ 32 * m)%nat →
  length (hkdfExpand prk len) = len ∧ hkdfExpand prk len = take len (hkdf_blocks prk m).
Proof.
  intros Hm. rewrite (hkdfExpand_prefix prk len m) by done. split; [|done].
  rewrite length_take, length_hkdf_blocks. lia.
Qed.

Lemma hkdfExpand_blocks_witness :
  length (hkdfExpand (str "prk") 48) = 48%nat ∧
  hkdfExpand (str "prk") 48 = take 48 (hkdf_blocks (str "prk") 2).
Proof. apply (hkdfExpand_blocks (str "prk") 48 2). lia. Defined.

(** *** Limbs *)

Lemma SetBytes_be_val data : SetBytes data = be_val data.
Proof.
  induction data as [|b data IH] using rev_ind; [done|].
  unfold SetBytes in *. rewrite map_app. cbn [map]. by rewrite dval_snoc, IH, be_val_snoc.
Qed.

Lemma lor_byte x b j :
  0 ≤ x < 256 ^ Z.of_nat j → (j < 8)%nat →
  Z.lor x (u64 (Z.shiftl (bz b) (Z.of_nat j * 8))) = x + 256 ^ Z.of_nat j * bz b.
Proof.
  intros Hx Hj. replace (256 ^ Z.of_nat j) with (2 ^ (Z.of_nat j * 8)) in *
    by (rewrite Z.mul_comm, Z.pow_mul_r by lia; done).
  pose proof (bz_range b) as Hb. unfold u64. rewrite wrap_u_small.
  - rewrite lor_shiftl_add by lia. lia.
  - rewrite Z.shiftl_mul_pow2 by lia. split; [apply Z.mul_nonneg_nonneg; lia|].
    apply Z.lt_le_trans with (256 * 2 ^ (Z.of_nat j * 8)); [apply Z.mul_lt_mono_pos_r; lia|].
    change 256 with (2 ^ 8). rewrite <- Z.pow_add_r by lia. apply Z.pow_le_mono_r; lia.
Qed.

Lemma limb_val b i :
  (i * 8 + 8 ≤ length b)%nat → limb b i = le_val (take 8 (drop (i * 8) (reverse b))).
Proof.
  intros Hl. unfold limb.
  assert (∀ n, (n ≤ 8)%nat →
    foldl (λ acc j, if bool_decide (i * 8 + j < length b)%nat
      then Z.lor acc (u64 (Z.shiftl (bz (nth (length b - 1 - (i * 8 + j)) b x00)) (Z.of_nat j * 8)))
      else acc) 0 (seq 0 n) = le_val (take n (drop (i * 8) (reverse b)))) as F;
    [|by apply F].
  induction n as [|n IH]; intros Hn; [done|].
  rewrite seq_S, foldl_app, IH by lia. cbn [foldl]. rewrite bool_decide_true by lia.
  set (l := drop (i * 8) (reverse b)).
  assert (length l = length b - i * 8)%nat as Ll by (unfold l; by rewrite length_drop, length_reverse).
  assert (l !! n = Some (nth (length b - 1 - (i * 8 + n)) b x00)) as Hi.
  { unfold l. rewrite lookup_drop, reverse_lookup, nth_lookup by lia.
    replace (length b - S (i * 8 + n))%nat with (length b - 1 - (i * 8 + n))%nat by lia.
    destruct (lookup_lt_is_Some_2 b (length b - 1 - (i * 8 + n))) as [x ->]; [lia|done]. }
  rewrite (take_S_r _ _ _ Hi), le_val_snoc.
  assert (zlen (take n l) = Z.of_nat n) as Hz by (unfold zlen; rewrite length_take; lia).
  rewrite Hz. apply lor_byte; [|lia]. rewrite <- Hz. apply le_val_range.
Qed.

(** The number that little-endian 64-bit limbs stand for. *)
Definition limbs_val (ls : list Z) : Z := foldr (λ x n, x + 2 ^ 64 * n) 0 ls.

Lemma le_val_limb l n :
  (n * 8 + 8 ≤ length l)%nat →
  le_val (drop (n * 8) l) = le_val (take 8 (drop (n * 8) l)) + 2 ^ 64 * le_val (drop (S n * 8) l).
Proof.
  intros Hl. rewrite <- (take_drop 8 (drop (n * 8) l)) at 1.
  rewrite le_val_app, drop_drop. f_equal.
  rewrite (proj2 (zlen_eq_nat _ 8)) by (rewrite length_take, length_drop; lia).
  change (256 ^ Z.of_nat 8) with (2 ^ 64). do 3 f_equal. lia.
Qed.

(** The limb loop is the conversion from big-endian bytes. *)
Lemma frFromBytes_val b : length b = 32%nat → limbs_val (frFromBytes b) = be_val b.
Proof.
  intros Hb. unfold frFromBytes. cbn [seq map].
  rewrite !bool_decide_true, !limb_val by lia. unfold limbs_val. cbn [foldr].
  assert (be_val b = le_val (drop (0 * 8) (reverse b))) as ->.
  { unfold le_val. by rewrite drop_0, reverse_involutive. }
  assert (length (reverse b) = 32%nat) as Hl by (by rewrite length_reverse).
  rewrite !(le_val_limb (reverse b)) by lia.
  rewrite (drop_ge (reverse b) (4 * 8)) by lia. done.
Qed.

(** [blsKeyGen] always returns a key: its 32 bytes are the 48 bytes of HKDF
    output reduced modulo the group order, and the public key is the generator
    times that same number, as the limb conversion loses nothing. *)
Theorem blsKeyGen_correct `{KeyPrims} ikm :
  ∃ sk limbs, @blsKeyGen _ unit ikm = Ret (sk, g1_mul_compressed limbs) ∧
    length sk = 32%nat ∧ 0 ≤ be_val sk < bls_q ∧ limbs_val limbs = be_val sk ∧
    be_val sk =
      be_val (take 48 (hkdf_blocks (hkdfExtract (str "BLS-SIG-KEYGEN-SALT-") ikm) 2)) mod bls_q.
Proof.
  unfold blsKeyGen. set (prk := hkdfExtract _ _). clearbody prk.
  rewrite (hkdfExpand_prefix prk 48 2) by lia.
  rewrite SetBytes_be_val. set (z := be_val _ mod bls_q).
  assert (0 ≤ z < bls_q) as Hz by (apply Z.mod_pos_bound; reflexivity).
  assert (bls_q < 256 ^ Z.of_nat 32) as Hq by reflexivity.
  unfold FillBytes. destruct (z <? 256 ^ Z.of_nat 32) eqn:Ez; zbool; [|lia].
  cbn [mbind outcome_bind].
  assert (be_val (be_bytes 32 z) = z) as Hv by (rewrite be_val_be_bytes; apply Z.mod_small; lia).
  eexists _, _. split_and!; [reflexivity|apply length_be_bytes|lia|lia| |done].
  apply frFromBytes_val, length_be_bytes.
Qed.

(** *** The Yggdrasil address *)

Lemma bits_of_lookup l i :
  bits_of l !! i = (λ b, Z.testbit (bz b) (7 - Z.of_nat (i mod 8))) <$> l !! (i / 8)%nat.
Proof.
  revert i. induction l as [|b l IH]; intros i; [done|]. cbn [bits_of].
  destruct (Nat.lt_ge_cases i 8) as [Hi|Hi].
  - rewrite lookup_app_l by (cbn; lia). do 8 (destruct i as [|i]; [done|]). lia.
  - rewrite lookup_app_r by (cbn; lia). change (length (bits_of_byte b)) with 8%nat.
    rewrite IH. remember (i - 8)%nat as j eqn:Ej.
    assert (i = (j + 1 * 8)%nat) as -> by lia.
    rewrite Nat.Div0.mod_add, Nat.div_add by lia. by rewrite Nat.add_1_r.
Qed.

(** One turn of the loop on the bit itself. *)
Definition ygg_bit (s : ygg) (b : bool) : ygg :=
  if negb (y_done s) && b then Ygg (y_temp s) (y_done s) (u8 (y_ones s + 1)) (y_bits s) (y_nBits s)
  else if negb (y_done s) then Ygg (y_temp s) true (y_ones s) (y_bits s) (y_nBits s)
  else
    let bits := Z.lor (u8 (Z.shiftl (y_bits s) 1)) (Z.b2z b) in
    if y_nBits s + 1 =? 8 then Ygg (y_temp s ++ [zb bits]) (y_done s) (y_ones s) 0 0
    else Ygg (y_temp s) (y_done s) (y_ones s) bits (y_nBits s + 1).

Lemma masked_bit x r :
  (r < 8)%nat →
  Z.shiftr (Z.land (bz x) (Z.shiftr 128 (Z.of_nat r))) (7 - Z.of_nat r) =
  Z.b2z (Z.testbit (bz x) (7 - Z.of_nat r)).
Proof. intros H. do 8 (destruct r as [|r]; [destruct x; reflexivity|]). lia. Qed.

Lemma ygg_loop buf s :
  foldl (ygg_step buf) s (seq 0 (8 * length buf)) = foldl ygg_bit s (bits_of buf).
Proof.
  assert (bits_of buf = map (λ i, Z.testbit (bz (nth (i / 8) buf x00)) (7 - Z.of_nat (i mod 8)))
                            (seq 0 (8 * length buf))) as ->.
  { apply list_eq. intros i. rewrite bits_of_lookup, list_lookup_fmap.
    destruct (Nat.lt_ge_cases i (8 * length buf)) as [Hi|Hi].
    - rewrite lookup_seq_lt by done. cbn [fmap option_fmap option_map]. rewrite nth_lookup, Nat.add_0_l.
      destruct (lookup_lt_is_Some_2 buf (i / 8)) as [x ->]; [|done].
      apply Nat.Div0.div_lt_upper_bound. lia.
    - rewrite lookup_seq_ge, (lookup_ge_None_2 buf) by (try apply Nat.div_le_lower_bound; lia).
      done. }
  generalize (seq 0 (8 * length buf)) as l. intros l. revert s.
  induction l as [|i l IH]; intros s; [done|]. cbn [map foldl]. rewrite <- IH. f_equal.
  unfold ygg_step, ygg_bit.
  rewrite masked_bit by (apply Nat.mod_upper_bound; lia).
  destruct (Z.testbit _ _), (y_done s); reflexivity.
Qed.

Fixpoint leading_ones (bs : list bool) : nat :=
  match bs with true :: k => S (leading_ones k) | _ => O end.

Lemma ygg_ones bs n t :
  bs = replicate n true ++ false :: t → (n < 256)%nat →
  foldl ygg_bit (Ygg [] false 0 0 0) bs = foldl ygg_bit (Ygg [] true (Z.of_nat n) 0 0) t.
Proof.
  intros -> Hn.
  assert (∀ m k, (m + k < 256)%nat →
    foldl ygg_bit (Ygg [] false (Z.of_nat m) 0 0) (replicate k true ++ false :: t) =
    foldl ygg_bit (Ygg [] true (Z.of_nat (m + k)) 0 0) t) as F; [|by apply (F O)].
  intros m k. revert m. induction k as [|k IH]; intros m Hm; cbn [replicate app foldl].
  - by rewrite Nat.add_0_r.
  - replace (m + S k)%nat with (S m + k)%nat by lia. rewrite <- IH by lia. f_equal.
    unfold ygg_bit. cbn [y_done negb andb y_temp y_ones y_bits y_nBits]. f_equal.
    unfold u8. rewrite wrap_u_small; lia.
Qed.

(** Complete groups of eight bits as bytes. *)
Fixpoint pack (bs : list bool) : bytes :=
  match bs with
  | b0 :: b1 :: b2 :: b3 :: b4 :: b5 :: b6 :: b7 :: k =>
      zb (bits_val [b0; b1; b2; b3; b4; b5; b6; b7]) :: pack k
  | _ => []
  end.

Lemma ygg_eight temp n b0 b1 b2 b3 b4 b5 b6 b7 :
  foldl ygg_bit (Ygg temp true n 0 0) [b0; b1; b2; b3; b4; b5; b6; b7] =
  Ygg (temp ++ [zb (bits_val [b0; b1; b2; b3; b4; b5; b6; b7])]) true n 0 0.
Proof. destruct b0, b1, b2, b3, b4, b5, b6, b7; reflexivity. Qed.

Lemma ygg_pack bs temp n :
  let s := foldl ygg_bit (Ygg temp true n 0 0) bs in
  y_temp s = temp ++ pack bs ∧ y_ones s = n.
Proof.
  cbv zeta. revert temp. induction bs as [bs IH] using (induction_ltof1 _ (@length bool)).
  intros temp. destruct bs as [|b0 [|b1 [|b2 [|b3 [|b4 [|b5 [|b6 [|b7 k]]]]]]]];
    try (cbn; by rewrite app_nil_r).
  change (b0 :: b1 :: b2 :: b3 :: b4 :: b5 :: b6 :: b7 :: k)
    with ([b0; b1; b2; b3; b4; b5; b6; b7] ++ k) at 1 3.
  rewrite foldl_app, ygg_eight. cbn [pack].
  destruct (IH k ltac:(unfold ltof; cbn; lia) (temp ++ [zb (bits_val [b0; b1; b2; b3; b4; b5; b6; b7])]))
    as [E1 E2]. rewrite E1, E2. by rewrite <- app_assoc.
Qed.

Lemma pack_bits bs k : (8 * k ≤ length bs)%nat → bits_of (take k (pack bs)) = take (8 * k) bs.
Proof.
  revert bs. induction k as [|k IH]; intros bs Hl; [by rewrite !take_0|].
  destruct bs as [|b0 [|b1 [|b2 [|b3 [|b4 [|b5 [|b6 [|b7 bs]]]]]]]]; try (cbn in Hl; lia).
  cbn [pack take bits_of]. rewrite IH by (cbn in Hl; lia).
  replace (8 * S k)%nat with (8 + 8 * k)%nat by lia. cbn [take Nat.add].
  destruct b0, b1, b2, b3, b4, b5, b6, b7; reflexivity.
Qed.

Lemma bits_of_inverted l : bits_of (map (λ b, zb (255 - bz b)) l) = map negb (bits_of l).
Proof.
  induction l as [|b l IH]; [done|]. cbn [map bits_of]. rewrite map_app, IH. f_equal.
  destruct b; reflexivity.
Qed.

Lemma leading_ones_split bs :
  (leading_ones bs < length bs)%nat →
  bs = replicate (leading_ones bs) true ++ false :: drop (S (leading_ones bs)) bs.
Proof.
  induction bs as [|[] bs IH]; cbn [leading_ones length]; intros H; [lia| |done].
  cbn [replicate app drop]. f_equal. apply IH. lia.
Qed.

Lemma length_pack bs : (length (pack bs) = length bs / 8)%nat.
Proof.
  induction bs as [bs IH] using (induction_ltof1 _ (@length bool)).
  destruct bs as [|b0 [|b1 [|b2 [|b3 [|b4 [|b5 [|b6 [|b7 k]]]]]]]]; try done.
  cbn [pack length]. rewrite (IH k) by (unfold ltof; cbn; lia).
  replace (S (S (S (S (S (S (S (S (length k)))))))))  with (length k + 1 * 8)%nat by lia.
  rewrite Nat.div_add by lia. lia.
Qed.

(** A Yggdrasil address commits to the key: after the prefix 0x02 it holds the
    number of leading zero bits of the ed25519 public key and then the 112 bits
    that follow the first one bit, all inverted, for every key with at most 143
    leading zeros. *)
Theorem yggdrasil_address pub :
  let bs := map negb (bits_of pub) in
  let n := leading_ones bs in
  length pub = 32%nat → (n ≤ 143)%nat →
  ∃ body, ygg_addr pub = [x02; zb (Z.of_nat n)] ++ body ∧ length body = 14%nat ∧
    bits_of body = take 112 (drop (S n) bs).
Proof.
  intros bs n Hp Hn. unfold ygg_addr.
  rewrite copy_into_full by (by rewrite length_make_bytes).
  set (buf := map _ pub). assert (bits_of buf = bs) as Eb by apply bits_of_inverted.
  assert (length buf = 32%nat) as Lb by (unfold buf; by rewrite length_map).
  assert (length bs = 256%nat) as Ls by (rewrite <- Eb, length_bits_of, Lb; done).
  pose proof (ygg_loop buf (Ygg [] false 0 0 0)) as EL. rewrite Lb, Eb in EL.
  change (8 * 32)%nat with 256%nat in EL. rewrite EL. clear EL.
  rewrite (ygg_ones bs n (drop (S n) bs)); [|apply leading_ones_split; unfold n in Hn; lia|lia].
  destruct (ygg_pack (drop (S n) bs) [] (Z.of_nat n)) as [-> ->]. cbn [app].
  assert (14 ≤ length (pack (drop (S n) bs)))%nat as Lp.
  { rewrite length_pack, length_drop, Ls. apply Nat.div_le_lower_bound; lia. }
  exists (take 14 (pack (drop (S n) bs))). split_and!.
  - unfold copy_at. set (s := pack _) in *.
    change (drop 2 (x02 :: zb (Z.of_nat n) :: make_bytes 14)) with (make_bytes 14).
    assert (copy_into (make_bytes 14) s = take 14 s) as ->; [|done].
    unfold copy_into. rewrite length_make_bytes.
    by rewrite drop_ge, app_nil_r by (rewrite length_make_bytes; lia).
  - rewrite length_take. lia.
  - rewrite (pack_bits _ 14) by (rewrite length_drop, Ls; lia). done.
Qed.

Lemma yggdrasil_address_witness :
  ∃ body, ygg_addr (replicate 32 x10) = [x02; zb 3] ++ body ∧ length body = 14%nat.
Proof.
  destruct (yggdrasil_address (replicate 32 x10)) as (body & E & L & _);
    [reflexivity|vm_compute; lia|]. exists body. split; [exact E|exact L].
Defined.
