(* ===== verification/KeyRsa.v ===== *)
(** * The deterministic RSA key (fedkey/keyring.go): proofs

    The number theory behind [deterministicRSA4096]: the extended Euclidean
    algorithm computes the inverse, the candidates of [bigPrime] have 2048 bits,
    are odd and have no small factor, the key parameters fit together, and,
    when the two numbers are primes, raising to [E] and then to [D] is the
    identity modulo [N]. *)

From Stdlib Require Import Zdivisibility Zpow_facts Zmod.Zmod.
From S2P Require Import Prelude GoIO GoText Sha2 Varint Base58 KeyRing.
Local Open Scope Z_scope.

(** ** The extended Euclidean algorithm *)

(** [r ≡ s * g (mod n)] for both remainders; the product of the remainders at
    least halves in a turn. *)
Lemma egcd_spec g n fuel r0 s0 r1 s1 d s :
  0 ≤ r1 < r0 → r0 * r1 < 2 ^ Z.of_nat fuel →
  (n | r0 - s0 * g) → (n | r1 - s1 * g) →
  egcd fuel r0 s0 r1 s1 = (d, s) → d = Z.gcd r0 r1 ∧ (n | d - s * g).
Proof.
  revert r0 s0 r1 s1. induction fuel as [|f IH]; intros r0 s0 r1 s1 Hr Hf H0 H1 E;
    cbn [egcd] in E.
  { injection E as <- <-. assert (r1 = 0) as -> by (cbn in Hf; nia).
    rewrite Z.gcd_0_r, Z.abs_eq by lia. done. }
  destruct (r1 =? 0) eqn:Ez; zbool.
  { injection E as <- <-. subst r1. rewrite Z.gcd_0_r, Z.abs_eq by lia. done. }
  pose proof (Z.mod_pos_bound r0 r1 ltac:(lia)) as Hm.
  pose proof (Z.div_mod r0 r1 ltac:(lia)) as Hd.
  assert (1 ≤ r0 / r1) by (apply Z.div_le_lower_bound; lia).
  destruct (IH r1 s1 (r0 mod r1) (s0 - r0 / r1 * s1)) as [Hg Hn]; [lia| |done| |done|].
  - rewrite Nat2Z.inj_succ, Z.pow_succ_r in Hf by lia. nia.
  - replace (r0 mod r1 - (s0 - r0 / r1 * s1) * g)
      with ((r0 - s0 * g) - (r0 / r1) * (r1 - s1 * g)) by lia.
    apply Z.divide_sub_r; [done|]. by apply Z.divide_mul_r.
  - split; [|done]. rewrite Hg. rewrite Z.gcd_comm, Z.gcd_mod by lia. apply Z.gcd_comm.
Qed.

(** [ModInverse] finds the inverse exactly when there is one. *)
Lemma ModInverse_spec g n :
  1 < n →
  match ModInverse g n with
  | Some x => 0 ≤ x < n ∧ (g * x) mod n = 1
  | None => Z.gcd g n ≠ 1
  end.
Proof.
  intros Hn. unfold ModInverse. destruct (egcd _ _ _ _ _) as [d s] eqn:E.
  pose proof (Z.mod_pos_bound g n ltac:(lia)) as Hm.
  apply (egcd_spec g n) in E as [Hd Hs]; [|lia| | |].
  - rewrite Z.gcd_comm, Z.gcd_mod, Z.gcd_comm in Hd by lia.
    destruct (d =? 1) eqn:E1; zbool; [|congruence].
    split; [apply Z.mod_pos_bound; lia|]. rewrite E1 in Hs.
    rewrite Zmult_mod_idemp_r. destruct Hs as [k Hk].
    replace (g * s) with (1 + (- k) * n) by lia. rewrite Z_mod_plus_full. apply Z.mod_small. lia.
  - pose proof (Z.log2_nonneg (n * n)) as Hl. pose proof (Z.log2_spec (n * n) ltac:(nia)) as [_ H2].
    apply Z.lt_le_trans with (2 ^ Z.succ (Z.log2 (n * n))).
    + nia.
    + apply Z.pow_le_mono_r; lia.
  - rewrite Z.mul_0_l, Z.sub_0_r. apply Z.divide_refl.
  - rewrite Z.mul_1_l. exists (- (g / n)). pose proof (Z.div_mod g n). lia.
Qed.

(** ** The number stream *)

Section Stream.
Context {K : KeyPrims}.

Lemma length_XORKeyStream key iv pos b : length (XORKeyStream key iv pos b) = length b.
Proof. apply length_imap. Qed.

Lemma ctr_Read_length fuel need r l r' :
  (0 < length (zeroBuf r))%nat → (need ≤ fuel)%nat →
  ctr_Read fuel need r = (l, r') →
  length l = need ∧ length (zeroBuf r') = length (zeroBuf r) ∧
  cs_pos r' = (cs_pos r + need)%nat.
Proof.
  revert need r l r'. induction fuel as [|f IH]; intros need r l r' Hz Hf E.
  { destruct need; [|lia]. cbn in E. injection E as <- <-. cbn. lia. }
  destruct need as [|need]; [cbn in E; injection E as <- <-; cbn; lia|].
  cbn [ctr_Read] in E. set (chunk := Nat.min (S need) (length (zeroBuf r))) in *.
  set (z := XORKeyStream _ _ _ _) in E.
  assert (length z = chunk) as Lz
    by (unfold z; rewrite length_XORKeyStream, length_take; unfold chunk; lia).
  destruct (ctr_Read f _ _) as [l1 r1] eqn:E1. injection E as <- <-.
  apply IH in E1 as (H1 & H2 & H3); cbn [zeroBuf cs_pos] in *.
  - rewrite length_app, Lz, H1, H2, length_app, length_drop, H3. unfold chunk. lia.
  - rewrite length_app, length_drop, Lz. unfold chunk. lia.
  - unfold chunk. lia.
Qed.

(** What the buffer adds to the key stream: the XOR of the [n]-byte pieces of
    the key stream from [pos] on, [k] of them. *)
Fixpoint xor_pieces (key iv : bytes) (pos n k : nat) (acc : bytes) : bytes :=
  match k with
  | O => acc
  | S k' => xor_pieces key iv (pos + n) n k' (XORKeyStream key iv pos acc)
  end.

(** The [k]-th read of [n] bytes (at most the buffer) is the running XOR of all
    pieces of the key stream so far, not the piece itself: the buffer is zero
    only the first time. *)
Fixpoint reads (n k : nat) (r : ctrStream) : bytes * ctrStream :=
  match k with
  | O => ctr_Read n n r
  | S k' => reads n k' (ctr_Read n n r).2
  end.

Lemma ctr_Read_once n r :
  (0 < n ≤ length (zeroBuf r))%nat →
  let z := XORKeyStream (cs_key r) (cs_iv r) (cs_pos r) (take n (zeroBuf r)) in
  ctr_Read n n r =
    (z, CtrStream (cs_key r) (cs_iv r) (cs_pos r + n) (z ++ drop n (zeroBuf r))).
Proof.
  intros Hn z. destruct n as [|n]; [lia|]. cbn [ctr_Read].
  rewrite Nat.min_l by lia. fold z. rewrite Nat.sub_diag.
  destruct n; cbn [ctr_Read]; by rewrite app_nil_r.
Qed.

Lemma reads_accumulate n k r :
  (0 < n ≤ length (zeroBuf r))%nat →
  (reads n k r).1 =
    xor_pieces (cs_key r) (cs_iv r) (cs_pos r) n (S k) (take n (zeroBuf r)).
Proof.
  revert r. induction k as [|k IH]; intros r Hn; cbn [reads].
  { by rewrite ctr_Read_once. }
  rewrite ctr_Read_once by done. cbn [snd]. set (z := XORKeyStream _ _ _ _).
  assert (length z = n) as Lz
    by (unfold z; rewrite length_XORKeyStream, length_take; lia).
  rewrite IH; cbn [zeroBuf cs_key cs_iv cs_pos].
  - rewrite take_app_exact by done. done.
  - rewrite length_app, Lz, length_drop. lia.
Qed.
End Stream.

(** ** Trial division *)

Definition is_prime (n : Z) : bool :=
  forallb (λ d, negb (n mod d =? 0)) (seqZ 2 (Z.sqrt n - 1)).

Lemma is_prime_spec n : 2 ≤ n → is_prime n = true ↔ Z.prime n.
Proof.
  intros Hn. unfold is_prime, Z.prime. rewrite forallb_forall.
  pose proof (Z.sqrt_spec n ltac:(lia)) as Hs. cbv zeta in Hs. pose proof (Z.sqrt_nonneg n).
  assert (∀ d, In d (seqZ 2 (Z.sqrt n - 1)) ↔ 2 ≤ d ≤ Z.sqrt n) as Hin.
  { intros d. rewrite <- list_elem_of_In, elem_of_seqZ. lia. }
  split.
  - intros H'. split; [lia|]. intros d Hd [e He].
    assert (0 < e) by nia.
    assert (∀ x y, n = x * y → 2 ≤ x ≤ Z.sqrt n → False) as Hx.
    { intros x y Hxy Hr. apply Hin, H' in Hr. apply negb_true_iff, Z.eqb_neq in Hr.
      apply Hr. rewrite Hxy, Z.mul_comm. apply Z.mod_mul. lia. }
    destruct (Z.le_gt_cases d (Z.sqrt n)) as [Hle|Hgt].
    + apply (Hx d e); [by rewrite He, Z.mul_comm|lia].
    + apply (Hx e d); [done|]. set (s := Z.sqrt n) in *. split; [nia|].
      apply Z.nlt_ge. intros Hlt. assert (Z.succ s * Z.succ s ≤ e * d); [|lia].
      apply Z.mul_le_mono_nonneg; lia.
  - intros [_ Hp] d Hd. apply Hin in Hd. apply negb_true_iff, Z.eqb_neq. intros Hm.
    apply (Hp d); [nia|]. apply Z.mod_divide; [lia|done].
Qed.

Lemma smallPrimes_filter : smallPrimes = List.filter is_prime (seqZ 3 4997).
Proof. vm_compute. reflexivity. Qed.

Lemma smallPrimes_spec q : q ∈ smallPrimes ↔ Z.prime q ∧ 2 < q < 5000.
Proof.
  rewrite smallPrimes_filter, list_elem_of_In, filter_In, <- list_elem_of_In, elem_of_seqZ.
  split.
  - intros [Hr Hp]. rewrite is_prime_spec in Hp by lia. lia || (split; [done|lia]).
  - intros [Hp Hr]. rewrite is_prime_spec by lia. split; [lia|done].
Qed.

Lemma trialDiv_spec p :
  trialDiv p = true ↔ ∀ q, Z.prime q → 2 < q < 5000 → ¬ (q | p).
Proof.
  unfold trialDiv. rewrite forallb_forall. split.
  - intros H q Hq Hr Hd. specialize (H q).
    rewrite <- list_elem_of_In, smallPrimes_spec in H. specialize (H (conj Hq Hr)).
    apply negb_true_iff, Z.eqb_neq in H. apply H. apply Z.rem_divide; [lia|done].
  - intros H q Hq. rewrite <- list_elem_of_In, smallPrimes_spec in Hq. destruct Hq as [Hq Hr].
    apply negb_true_iff, Z.eqb_neq. intros Hm. apply (H q Hq Hr).
    apply Z.rem_divide; [lia|done].
Qed.

(** ** The prime search *)

Lemma top_bit b : 128 ≤ Z.lor (Z.land (bz b) 255) 128 < 256.
Proof. destruct b; vm_compute; split; congruence. Qed.

Lemma low_bit b : Z.odd (Z.lor (bz b) 1) = true ∧ 0 ≤ Z.lor (bz b) 1 < 256.
Proof. destruct b; vm_compute; repeat split; congruence. Qed.

(** A 2048-bit candidate is odd and has its top bit set. *)
Lemma candidate_range b :
  length b = 256%nat → 2 ^ 2047 ≤ candidate 2048 b < 2 ^ 2048 ∧ Z.odd (candidate 2048 b) = true.
Proof.
  intros Hb. unfold candidate. rewrite SetBytes_be_val.
  change ((2048 + 7) `div` 8)%nat with 256%nat.
  change (Z.shiftr 255 (Z.of_nat (256 * 8 - 2048))) with 255. change (256 - 1)%nat with 255%nat.
  destruct b as [|x l]; [done|]. destruct l as [|y l _] using rev_ind; [done|].
  assert (length l = 254%nat) as Hl.
  { rewrite length_cons, length_app in Hb. cbn [length] in Hb. lia. }
  change (alter ?f 0%nat (x :: l ++ [y])) with (f x :: l ++ [y]). cbn beta.
  set (x' := zb (Z.lor (Z.land (bz x) 255) 128)).
  change (alter ?f 255%nat (x' :: l ++ [y])) with (x' :: alter f 254%nat (l ++ [y])).
  replace (alter (λ z, zb (Z.lor (bz z) 1)) 254%nat (l ++ [y]))
    with (l ++ [zb (Z.lor (bz y) 1)]); cycle 1.
  { rewrite alter_app_r_alt, Hl by lia. done. }
  set (y' := zb (Z.lor (bz y) 1)).
  pose proof (top_bit x) as Tx. pose proof (low_bit y) as [Ly Ry].
  assert (128 ≤ bz x' < 256) as Hx by (unfold x'; rewrite bz_zb_small; lia).
  assert (Z.odd (bz y') = true) as Hy by (unfold y'; by rewrite bz_zb_small).
  pose proof (bz_range y') as Ryy. pose proof (be_val_range l) as Rl.
  change (x' :: l ++ [y']) with ((x' :: l) ++ [y']). rewrite be_val_snoc. cbn [be_val].
  assert (zlen l = 254) as Zl by (unfold zlen; lia). rewrite Zl in Rl |- *.
  change (256 ^ 254) with (2 ^ 2032) in *. split; [lia|].
  rewrite Z.odd_add, Z.odd_mul, Hy. cbn [Z.odd]. by rewrite andb_false_r.
Qed.

Section Search.
Context {K : KeyPrims}.

(** What [bigPrime] promises about its result. *)
Record prime_candidate (p : Z) : Prop := {
  pc_range : 2 ^ 2047 ≤ p < 2 ^ 2048;
  pc_odd : Z.odd p = true;
  pc_small : ∀ q, Z.prime q → q < 5000 → ¬ (q | p);
  pc_test : ProbablyPrime p = true
}.

Definition stream_ok (r : ctrStream) : Prop := length (zeroBuf r) = 4096%nat.

Lemma bigPrime_S f bits n r :
  ((bits + 7) / 8)%nat = n →
  bigPrime (S f) bits r =
    let '(b, r') := ctr_Read n n r in
    let c := candidate bits b in
    if trialDiv c && ProbablyPrime c then Some (c, r') else bigPrime f bits r'.
Proof.
  intros <-. cbn [bigPrime]. destruct (ctr_Read _ _ r) as [b r'].
  by destruct (trialDiv _).
Qed.

Lemma bytes2048 : ((2048 + 7) / 8)%nat = 256%nat.
Proof. reflexivity. Qed.

Lemma bigPrime_spec fuel r p r' :
  stream_ok r → bigPrime fuel 2048 r = Some (p, r') → prime_candidate p ∧ stream_ok r'.
Proof.
  revert r. induction fuel as [|f IH]; intros r Hr E; [done|].
  rewrite (bigPrime_S f 2048 256 r bytes2048) in E.
  destruct (ctr_Read 256 256 r) as [b r1] eqn:Er. unfold stream_ok in *.
  apply ctr_Read_length in Er as (Hb & Hz & _); [|lia..].
  pose proof (candidate_range b Hb) as [Hc Ho].
  set (c := candidate 2048 b) in *. clearbody c.
  destruct (trialDiv c) eqn:Ht, (ProbablyPrime c) eqn:Hp; cbn [andb] in E;
    try (apply (IH r1); [lia|done]).
  injection E as <- <-. split; [|lia]. split; [done|done| |done].
  intros q Hq Hlt Hd. assert (1 < q) by apply Hq.
  destruct (Z.eq_dec q 2) as [->|]; [|by apply (proj1 (trialDiv_spec c) Ht q); [|lia|]].
  destruct Hd as [k Hk]. rewrite Hk, Z.odd_mul in Ho. by rewrite andb_false_r in Ho.
Qed.

(** The search stops at the first candidate that passes both tests. *)
Lemma bigPrime_finds bits n fuel k r :
  ((bits + 7) / 8)%nat = n →
  (∀ j, (j < k)%nat → let c := candidate bits (reads n j r).1 in
     trialDiv c && ProbablyPrime c = false) →
  (let c := candidate bits (reads n k r).1 in trialDiv c && ProbablyPrime c = true) →
  (k < fuel)%nat →
  bigPrime fuel bits r = Some (candidate bits (reads n k r).1, (reads n k r).2).
Proof.
  intros Hn. cbv zeta. revert fuel r.
  induction k as [|k IH]; intros fuel r Hno Hyes Hf;
    (destruct fuel as [|fuel]; [lia|]); rewrite (bigPrime_S fuel bits n r Hn); cbn [reads] in *.
  - destruct (ctr_Read n n r) as [b r1]. cbn [fst snd] in *. cbv zeta. by rewrite Hyes.
  - pose proof (Hno O ltac:(lia)) as H0. cbn [reads] in H0.
    destruct (ctr_Read n n r) as [b r1] eqn:Er. cbn [fst snd] in *. cbv zeta in *.
    rewrite H0. apply IH; [|done|lia]. intros j Hj. specialize (Hno (S j) ltac:(lia)).
    cbn [reads] in Hno. by rewrite Er in Hno.
Qed.
End Search.

(** ** Fermat's little theorem *)

Lemma fermat p m : Z.prime p → m ^ p mod p = m mod p.
Proof.
  intros Hp. assert (1 < p) by apply Hp.
  pose proof (f_equal Zmod.to_Z (Zmod.fermat (Zmod.of_Z p m) Hp)) as E.
  rewrite Zmod.to_Z_pow_nonneg_r, Zmod.to_Z_of_Z in E by lia.
  rewrite <- Zpower_mod in E by lia. done.
Qed.

(** [m ^ (1 + k (p - 1)) = m] modulo a prime [p]. *)
Lemma fermat_power p m k : Z.prime p → 0 ≤ k → m ^ (1 + k * (p - 1)) mod p = m mod p.
Proof.
  intros Hp Hk. assert (1 < p) by apply Hp. revert k Hk.
  apply natlike_ind; [by rewrite Z.mul_0_l, Z.add_0_r, Z.pow_1_r|]. intros x Hx IH. replace (1 + Z.succ x * (p - 1)) with ((1 + x * (p - 1)) + (p - 1)) by lia.
  rewrite Z.pow_add_r, Zmult_mod, IH, <- Zmult_mod by nia.
  rewrite <- Z.pow_succ_r by lia. replace (Z.succ (p - 1)) with p by lia. by apply fermat.
Qed.

(** ** The key *)

(** The parameters of an RSA key that fit together. *)
Record rsa_wf (k : rsaKey) : Prop := {
  rw_N : rsa_N k = rsa_P k * rsa_Q k;
  rw_E : rsa_E k = 65537;
  rw_order : rsa_Q k ≤ rsa_P k;
  rw_D : 0 ≤ rsa_D k < (rsa_P k - 1) * (rsa_Q k - 1);
  rw_ED : (rsa_E k * rsa_D k) mod ((rsa_P k - 1) * (rsa_Q k - 1)) = 1;
  rw_Dp : rsa_Dp k = rsa_D k mod (rsa_P k - 1);
  rw_Dq : rsa_Dq k = rsa_D k mod (rsa_Q k - 1);
  rw_Qinv : match rsa_Qinv k with
            | Some x => 0 ≤ x < rsa_P k ∧ (rsa_Q k * x) mod rsa_P k = 1
            | None => Z.gcd (rsa_Q k) (rsa_P k) ≠ 1
            end
}.

Lemma rsa_of_wf p q k :
  2 < p → 2 < q → rsa_of p q = Ret k →
  rsa_wf k ∧ (rsa_P k = p ∧ rsa_Q k = q ∨ rsa_P k = q ∧ rsa_Q k = p).
Proof.
  intros Hp Hq E. unfold rsa_of in E.
  set (pq := if p <? q then (q, p) else (p, q)) in E.
  assert (pq.2 ≤ pq.1 ∧ 2 < pq.2 ∧ (pq.1 = p ∧ pq.2 = q ∨ pq.1 = q ∧ pq.2 = p)) as Hpq.
  { unfold pq. destruct (p <? q) eqn:El; zbool; cbn; lia. }
  destruct pq as [P Q]. cbn [fst snd] in Hpq. destruct Hpq as (Ho & H2 & Hpq).
  pose proof (ModInverse_spec 65537 ((P - 1) * (Q - 1)) ltac:(nia)) as HD.
  destruct (ModInverse 65537 ((P - 1) * (Q - 1))) as [d|]; [|done]. injection E as <-.
  pose proof (ModInverse_spec Q P ltac:(lia)) as HQ. destruct HD as [HD1 HD2].
  split; [|done]. by split.
Qed.

(** Decryption undoes encryption when the two numbers are different primes. *)
Lemma rsa_decrypts k m :
  rsa_wf k → Z.prime (rsa_P k) → Z.prime (rsa_Q k) → rsa_P k ≠ rsa_Q k →
  0 ≤ m < rsa_N k → ((m ^ rsa_E k) mod rsa_N k) ^ rsa_D k mod rsa_N k = m.
Proof.
  intros W Pp Pq Hne Hm. destruct W as [HN HE Ho HD HED _ _ _].
  set (P := rsa_P k) in *. set (Q := rsa_Q k) in *. set (E := rsa_E k) in *. set (D := rsa_D k) in *.
  assert (1 < P) by (by destruct Pp). assert (1 < Q) by (by destruct Pq).
  rewrite HN in *. rewrite <- Zpower_mod by lia. rewrite <- Z.pow_mul_r by lia.
  pose proof (Z.div_mod (E * D) ((P - 1) * (Q - 1)) ltac:(nia)) as Hd. rewrite HED in Hd.
  set (c := E * D / ((P - 1) * (Q - 1))) in *.
  assert (0 ≤ c) as Hc by (apply Z.div_pos; nia).
  assert (∀ r s, Z.prime r → 1 < s → (r - 1) * (s - 1) = (P - 1) * (Q - 1) →
    (r | m ^ (E * D) - m)) as Hr.
  { intros r s Hr Hs Hrs. assert (1 < r) by apply Hr. apply Z.mod_divide; [lia|].
    rewrite Zminus_mod. replace (E * D) with (1 + (c * (s - 1)) * (r - 1))
      by (rewrite Hd, <- Hrs; ring).
    rewrite fermat_power by (done || nia). rewrite Z.sub_diag. apply Z.mod_0_l. lia. }
  assert (P * Q | m ^ (E * D) - m) as Hdiv.
  { destruct (Hr P Q) as [x Hx]; [done|lia|lia|]. pose proof (Hr Q P Pq ltac:(lia) ltac:(lia)) as HQ.
    rewrite Hx, Z.divide_prime_mul in HQ by done. destruct HQ as [[y Hy]|HQ].
    - exists y. lia.
    - apply Z.divide_prime_prime in HQ; [|done..]. congruence. }
  destruct Hdiv as [x Hx]. replace (m ^ (E * D)) with (m + x * (P * Q)) by lia.
  rewrite Z_mod_plus_full. by apply Z.mod_small.
Qed.

Section Key.
Context {K : KeyPrims}.

Lemma rsa4096_wf fuel r k :
  stream_ok r → deterministicRSA4096 fuel r = Some (Ret k) →
  rsa_wf k ∧ prime_candidate (rsa_P k) ∧ prime_candidate (rsa_Q k).
Proof.
  intros Hr E. unfold deterministicRSA4096 in E.
  destruct (bigPrime fuel 2048 r) as [[p r1]|] eqn:E1; cbn [mbind option_bind] in E; [|done].
  apply bigPrime_spec in E1 as [Cp Hr1]; [|done].
  destruct (bigPrime fuel 2048 r1) as [[q r2]|] eqn:E2; cbn [mbind option_bind] in E; [|done].
  apply bigPrime_spec in E2 as [Cq Hr2]; [|done].
  assert (∀ q', prime_candidate q' → rsa_of p q' = Ret k →
    rsa_wf k ∧ prime_candidate (rsa_P k) ∧ prime_candidate (rsa_Q k)) as F.
  { intros q' Cq' Ek. pose proof (pc_range _ Cp). pose proof (pc_range _ Cq').
    assert (2 < 2 ^ 2047) by reflexivity.
    apply rsa_of_wf in Ek as [W [[-> ->]|[-> ->]]]; [done..|lia|lia]. }
  destruct (p =? q).
  - destruct (bigPrime fuel 2048 r2) as [[q' r3]|] eqn:E3; cbn [mbind option_bind] in E; [|done].
    apply bigPrime_spec in E3 as [Cq' _]; [|done]. injection E as E. by apply (F q').
  - injection E as E. by apply (F q).
Qed.

(** Candidate [i] of the stream is the first that passes both tests. *)
Definition passes (r : ctrStream) (i : nat) : bool :=
  let c := candidate 2048 (reads 256 i r).1 in trialDiv c && ProbablyPrime c.
Definition first_pass (r : ctrStream) (i : nat) : Prop :=
  (∀ j, (j < i)%nat → passes r j = false) ∧ passes r i = true.

Lemma first_pass_found r i fuel :
  first_pass r i → (i < fuel)%nat →
  bigPrime fuel 2048 r = Some (candidate 2048 (reads 256 i r).1, (reads 256 i r).2).
Proof. intros [Hno Hyes] Hf. by apply (bigPrime_finds 2048 256). Qed.

(** The stream of numbers that a keyring stands for. *)
Definition key_stream (kr : KeyRing) : ctrStream :=
  CtrStream (raw kr) (drop KeyBytes (seed kr)) 0 (make_bytes 4096).

(** C40: [OpenDHTKey] returns: when candidate [i] of the keyring's number stream is the
    first that passes trial division and the primality test, and candidate [j] the first
    of those behind it, as many turns as that are enough, and the key is the one made of
    the two numbers; should they be equal, the second is replaced by the next that
    passes, once and unchecked.  Every key it returns, whatever the turns, has consistent
    parameters, a modulus of at least 4095 bits and two odd factors of 2048 bits without
    a prime factor below 5000 that pass the test. *)
Theorem rsa_search_finds kr i j :
  let r := key_stream kr in
  let p := candidate 2048 (reads 256 i r).1 in
  let r1 := (reads 256 i r).2 in
  let q := candidate 2048 (reads 256 j r1).1 in
  let r2 := (reads 256 j r1).2 in
  first_pass r i → first_pass r1 j →
  (p ≠ q → ∀ fuel, (Nat.max i j < fuel)%nat → OpenDHTKey fuel kr = Some (rsa_of p q)) ∧
  (p = q → ∀ l fuel, first_pass r2 l → (Nat.max (Nat.max i j) l < fuel)%nat →
     OpenDHTKey fuel kr = Some (rsa_of p (candidate 2048 (reads 256 l r2).1))) ∧
  (∀ fuel k, OpenDHTKey fuel kr = Some (Ret k) →
     rsa_wf k ∧ 2 ^ 4094 ≤ rsa_N k < 2 ^ 4096 ∧
     prime_candidate (rsa_P k) ∧ prime_candidate (rsa_Q k)).
Proof.
  intros r p r1 q r2 Hi Hj.
  assert (∀ fuel, (Nat.max i j < fuel)%nat →
    OpenDHTKey fuel kr = if p =? q then '(q', _) ← bigPrime fuel 2048 r2; Some (rsa_of p q')
                         else Some (rsa_of p q)) as Hkey.
  { intros fuel Hf. unfold OpenDHTKey, deterministicRSA4096. fold (key_stream kr). fold r.
    rewrite (first_pass_found r i fuel Hi) by lia. fold p r1. cbn [mbind option_bind].
    rewrite (first_pass_found r1 j fuel Hj) by lia. fold q r2. done. }
  split; [|split].
  - intros Hne fuel Hf. rewrite (Hkey fuel Hf). destruct (p =? q) eqn:E; zbool; done.
  - intros Heq l fuel Hl Hf. rewrite (Hkey fuel) by lia. rewrite (proj2 (Z.eqb_eq p q) Heq).
    by rewrite (first_pass_found r2 l fuel Hl) by lia.
  - intros fuel k E. apply rsa4096_wf in E as (W & Cp & Cq); [|apply length_make_bytes].
    split; [done|]. split; [|done].
    rewrite (rw_N _ W). pose proof (pc_range _ Cp). pose proof (pc_range _ Cq).
    change (2 ^ 4094) with (2 ^ 2047 * 2 ^ 2047). change (2 ^ 4096) with (2 ^ 2048 * 2 ^ 2048).
    split; [apply Z.mul_le_mono_nonneg|apply Z.mul_lt_mono_nonneg]; lia.
Qed.
End Key.

(** C17: The key made of two different odd primes works: its parameters fit together, and
    raising to [E] and then to [D] modulo [N] gives back every message below [N]; no key
    is made exactly when [E] has no inverse modulo [(P-1)(Q-1)].  That the two numbers are
    primes is what the test [ProbablyPrime(6)] does not prove, and that they differ is
    checked once; both are conditions here. *)
Theorem rsa_key_works p q :
  Z.prime p → Z.prime q → 2 < p → 2 < q → p ≠ q →
  match rsa_of p q with
  | Ret k =>
      rsa_wf k ∧ rsa_N k = p * q ∧
      ∀ m, 0 ≤ m < p * q → ((m ^ rsa_E k) mod rsa_N k) ^ rsa_D k mod rsa_N k = m
  | Fail _ => Z.gcd 65537 ((p - 1) * (q - 1)) ≠ 1
  | Panic => False
  end.
Proof.
  intros Pp Pq Hp Hq Hne. destruct (rsa_of p q) as [k| |] eqn:E.
  - destruct (rsa_of_wf p q k Hp Hq E) as [W Hpq]. split; [done|].
    assert (rsa_N k = p * q) as HN by (rewrite (rw_N _ W); destruct Hpq as [[-> ->]|[-> ->]]; lia).
    split; [done|]. intros m Hm. rewrite <- HN in Hm.
    apply rsa_decrypts; [done|..|done]; destruct Hpq as [[E1 E2]|[E1 E2]]; rewrite ?E1, ?E2; done || congruence.
  - unfold rsa_of in E. set (pq := if p <? q then (q, p) else (p, q)) in E.
    assert ((pq.1 - 1) * (pq.2 - 1) = (p - 1) * (q - 1)) as Hpq
      by (unfold pq; destruct (p <? q); cbn; lia).
    destruct pq as [P Q]. cbn [fst snd] in Hpq. rewrite Hpq in E.
    pose proof (ModInverse_spec 65537 ((p - 1) * (q - 1)) ltac:(nia)) as HD.
    destruct (ModInverse 65537 ((p - 1) * (q - 1))); [done|exact HD].
  - unfold rsa_of in E. destruct (if p <? q then _ else _) as [P Q].
    by destruct (ModInverse 65537 _).
Qed.

Lemma rsa_key_works_witness :
  ∃ k, rsa_of 61 53 = Ret k ∧ rsa_N k = 3233 ∧
    ((65 ^ rsa_E k) mod rsa_N k) ^ rsa_D k mod rsa_N k = 65.
Proof.
  assert (rsa_of 61 53 = Ret (RsaKey 3233 65537 2753 61 53 53 49 (Some 38))) as E
    by (vm_compute; reflexivity).
  pose proof (rsa_key_works 61 53) as H. rewrite E in H.
  destruct H as (_ & HN & H); [apply is_prime_spec; [lia|reflexivity]
    |apply is_prime_spec; [lia|reflexivity]|lia|lia|discriminate|].
  eexists. split; [reflexivity|]. split; [exact HN|]. exact (H 65 ltac:(lia)).
Defined.

Import ToyKeys.

(** A run of the search: the second and the third candidate pass. *)
Definition toy_p : Z := Eval vm_compute in
  candidate 2048 (reads 256 1 (CtrStream [] [] 0 (make_bytes 4096))).1.
Definition toy_q : Z := Eval vm_compute in
  candidate 2048 (reads 256 2 (CtrStream [] [] 0 (make_bytes 4096))).1.

Lemma toy_p_found : candidate 2048 (reads 256 1 (key_stream ToyKeys.ring1)).1 = toy_p.
Proof. vm_compute. reflexivity. Qed.

Lemma toy_q_found :
  candidate 2048 (reads 256 0 (reads 256 1 (key_stream ToyKeys.ring1)).2).1 = toy_q.
Proof. vm_compute. reflexivity. Qed.

Lemma toy_first_p : first_pass (key_stream ToyKeys.ring1) 1.
Proof.
  split; [|vm_compute; reflexivity]. intros j Hj. destruct j; [vm_compute; reflexivity|lia].
Qed.

Lemma toy_first_q : first_pass (reads 256 1 (key_stream ToyKeys.ring1)).2 0.
Proof. split; [lia|vm_compute; reflexivity]. Qed.

#[local] Opaque candidate reads.

Lemma rsa_search_finds_witness :
  OpenDHTKey 3 ToyKeys.ring1 = Some (rsa_of toy_p toy_q) ∧ (toy_p =? toy_q) = false.
Proof.
  pose proof (rsa_search_finds ToyKeys.ring1 1 0 toy_first_p toy_first_q) as H.
  cbv zeta in H. rewrite toy_p_found, toy_q_found in H.
  assert ((toy_p =? toy_q) = false) as N by (vm_compute; reflexivity).
  destruct H as [H _]. split; [|exact N].
  assert (Nat.max 1 0 < 3)%nat as F by (cbn; lia).
  exact (H (proj1 (Z.eqb_neq toy_p toy_q) N) 3%nat F).
Defined.
