(* ===== verification/BtcBoot.v ===== *)
(** * The Bitcoin bootstrap node (fedboot/bitcoin_bs.go)

    A node that speaks enough of the Bitcoin wire protocol to find peers and to
    pass a chat key in the user agent: framed messages with a double-SHA256
    checksum, the version message, the two roles of the handshake, the
    [getaddr] exchange, the keep-alive and the loop that serves incoming
    connections, and the orchestration of the bootstrap.  A connection is a
    duplex stream with its two addresses, its deadline and whether it is
    closed.  The theorems: messages survive any fragmentation, the two roles
    complete the handshake and learn each other's key, the loops end, and what
    a hostile peer can do. *)

From S2P Require Import Prelude GoIO GoText Sha2 Varint Base58 KeyRing.
Local Open Scope Z_scope.

Definition bitcoinMagic : Z := 0xD9B4BEF9.
Definition btcProtocolVer : Z := 70015.
Definition btcCmdLen : nat := 12.
Definition btcHeaderLen : nat := 24.
Definition btcServiceNode : Z := 1.
Definition btcServiceChat : Z := Z.shiftl 1 24.

(** ** Connections *)

(** A [net.Addr]: a TCP address, or one of another type, on which the type
    assertion panics. *)
Inductive net_addr : Type :=
| TCPAddr (ip : bytes) (port : Z)
| OtherAddr.

Record conn := Conn {
  c_io : duplex;
  c_local : option net_addr;
  c_remote : option net_addr;
  c_deadline : option Z;
  c_closed : bool
}.

Inductive btc_err : Type :=
| BtcIO (e : io_err)
| BtcBadMagic (magic : Z)
| BtcBadChecksum
| BtcSend (cmd : bytes) (e : btc_err)       (* "send version: %w" *)
| BtcRead (what : bytes) (e : btc_err)      (* "read version: %w" *)
| BtcExpected (want got : bytes)
| BtcDial (e : io_err)
| BtcHandshake (e : btc_err)
| BtcFuel.

Abbreviation cm := (stm conn btc_err).

Definition on_io {A} (m : stm duplex io_err A) : cm A := fun c =>
  let '(r, d) := m (c_io c) in
  (map_err BtcIO r, Conn d (c_local c) (c_remote c) (c_deadline c) (c_closed c)).

Definition dup_ReadFull (n : nat) : stm duplex io_err bytes := fun d =>
  let '(r, rd) := ReadFull n (d_in d) in (r, Duplex rd (d_out d) (d_werr d)).

Definition conn_Write (p : bytes) : cm unit := _ ← on_io (dup_write p); mret ().
Definition conn_ReadFull (n : nat) : cm bytes := on_io (dup_ReadFull n).

(** [SetDeadline(t)] ([None] is [time.Time{}]) and [Close]. *)
Definition SetDeadline (t : option Z) : cm unit := fun c =>
  (Ret (), Conn (c_io c) (c_local c) (c_remote c) t (c_closed c)).
Definition conn_Close : cm unit := fun c =>
  (Ret (), Conn (c_io c) (c_local c) (c_remote c) (c_deadline c) true).
Definition get_conn : cm conn := fun c => (Ret c, c).

(** A call whose error the code drops. *)
Definition drop_err (m : cm unit) : cm unit := fun c =>
  match m c with (Panic, c') => (Panic, c') | (_, c') => (Ret (), c') end.

(** ** Framing *)

Record btcMsg := mkMsg { command : bytes; payload : bytes }.

Definition msg_header (cmd payload : bytes) : bytes :=
  let cmd := if bool_decide (btcCmdLen < length cmd)%nat then take btcCmdLen cmd else cmd in
  let h0 := copy_at 0 (make_bytes btcHeaderLen) (le_bytes 4 bitcoinMagic) in
  let h1 := copy_at 4 h0 cmd in
  let h2 := copy_at 16 h1 (le_bytes 4 (u32 (zlen payload))) in
  if zlen payload >? 0 then copy_at 20 h2 (take 4 (Sha256d payload)) else h2.

Definition btcWriteMsg (cmd payload : bytes) : cm unit :=
  _ ← conn_Write (msg_header cmd payload);
  if zlen payload >? 0 then conn_Write payload else mret ().

Definition btcReadMsg : cm btcMsg :=
  header ← conn_ReadFull btcHeaderLen;
  let magic := le_val (take 4 header) in
  if negb (magic =? bitcoinMagic) then stm_fail (BtcBadMagic magic)
  else
    let cmd := copy_into (make_bytes 12) (take 12 (drop 4 header)) in
    let length_ := le_val (take 4 (drop 16 header)) in
    let chk := take 4 (drop 20 header) in
    if length_ >? 0 then
      payload ← conn_ReadFull (Z.to_nat length_);
      if bool_decide (chk ≠ take 4 (Sha256d payload)) then stm_fail BtcBadChecksum
      else mret (mkMsg cmd payload)
    else mret (mkMsg cmd []).

(** [strings.TrimRight(string(msg.command[:]), "\x00")] *)
Definition cmd_of (m : btcMsg) : bytes := TrimRight (λ b, bool_decide (b = x00)) (command m).

(** ** Numbers and strings of the protocol *)

(** The length read from a [bytes.Reader]: the common part of [btcReadVarInt]
    and [btcReadVarStr]. *)
Definition btcReadVarInt : stm bytes io_err Z :=
  b ← br_ReadByte;
  if bz b =? 253 then t ← br_ReadFull 2; mret (le_val t)
  else if bz b =? 254 then t ← br_ReadFull 4; mret (le_val t)
  else if bz b =? 255 then t ← br_ReadFull 8; mret (le_val t)
  else mret (bz b).

Definition btcWriteVarStr (s : bytes) : bytes :=
  let l := zlen s in
  (if l <? 253 then [zb l]
   else if l <=? 65535 then xfd :: le_bytes 2 (u16 l)
   else xfe :: le_bytes 4 (u32 l)) ++ s.

Definition btcReadVarStr : stm bytes io_err bytes :=
  l ← btcReadVarInt;
  _ ← stm_lift (make_u64 l);
  br_ReadFull (Z.to_nat l).

(** ** The version message *)

(** The 26 bytes of an address: services (zero), IP and port. *)
Definition version_addr {E} (a : option net_addr) : outcome E bytes :=
  match a with
  | None => Ret (make_bytes 26)
  | Some (TCPAddr ip port) =>
      let b := copy_at 8 (make_bytes 26) (default [] (To16 ip)) in
      Ret (copy_at 24 b (be_bytes 2 (u16 port)))
  | Some OtherAddr => Panic
  end.

Definition user_agent (myPub : bytes) : bytes :=
  str "/bitcoin_bs:pubkey=" ++ myPub ++ str "/".

Definition btcBuildVersion {E} (now : Z) (myPub : bytes) (localAddr remoteAddr : option net_addr)
    (nonce : Z) : outcome E bytes :=
  addrRecv ← version_addr remoteAddr;
  addrFrom ← version_addr localAddr;
  Ret (le_bytes 4 btcProtocolVer ++ le_bytes 8 (Z.lor btcServiceNode btcServiceChat) ++
       le_bytes 8 now ++ addrRecv ++ addrFrom ++ le_bytes 8 nonce ++
       btcWriteVarStr (user_agent myPub) ++ le_bytes 4 0 ++ [x00]).

Definition btcParseVersionPubkey {E} (payload : bytes) : outcome E bytes :=
  match btcReadVarStr (drop 80 payload) with
  | (Panic, _) => Panic
  | (Fail _, _) => Ret []
  | (Ret ua, _) =>
      match Index (str "pubkey=") ua with
      | None => Ret []
      | Some idx =>
          p ← slice_from ua (idx + 7);
          let end0 := default (length p) (IndexByte x2f p) in
          let end1 := if bool_decide (128 ≤ end0)%nat then 128%nat else end0 in
          slice_to p end1
      end
  end.

(** ** Handshakes *)

Definition wrap {A} (f : btc_err → btc_err) (m : cm A) : cm A := stm_wrap f m.

Definition c_version : bytes := str "version".
Definition c_verack : bytes := str "verack".

(** [msg, err := btcReadMsg(conn)] and the check of its command. *)
Definition expect_msg (want : bytes) : cm btcMsg :=
  msg ← wrap (BtcRead want) btcReadMsg;
  if bool_decide (cmd_of msg ≠ want) then stm_fail (BtcExpected want (cmd_of msg))
  else mret msg.

(** The version message of this end of the connection; [nonce] are the eight
    random bytes. *)
Definition send_version (now : Z) (nonce myPub : bytes) : cm unit :=
  c ← get_conn;
  v ← stm_lift (btcBuildVersion now myPub (c_local c) (c_remote c) (le_val nonce));
  wrap (BtcSend c_version) (btcWriteMsg c_version v).

Definition clientHandshake (now : Z) (nonce myPub : bytes) : cm bytes :=
  _ ← send_version now nonce myPub;
  msg ← expect_msg c_version;
  peerPub ← stm_lift (btcParseVersionPubkey (payload msg));
  _ ← wrap (BtcSend c_verack) (btcWriteMsg c_verack []);
  _ ← expect_msg c_verack;
  mret peerPub.

Definition serverHandshake (now : Z) (nonce myPub : bytes) : cm bytes :=
  msg ← expect_msg c_version;
  peerPub ← stm_lift (btcParseVersionPubkey (payload msg));
  _ ← send_version now nonce myPub;
  _ ← wrap (BtcSend c_verack) (btcWriteMsg c_verack []);
  _ ← expect_msg c_verack;
  mret peerPub.

(** [connectPeer]: [dial] is the result of [DialContext]. *)
Definition connectPeer (dial : outcome io_err conn) (now timeout : Z) (nonce myPub : bytes)
    : outcome btc_err (conn * bytes) * option conn :=
  match dial with
  | Fail e => (Fail (BtcDial e), None)
  | Panic => (Panic, None)
  | Ret c0 =>
      match (_ ← SetDeadline (Some (now + timeout)); clientHandshake now nonce myPub) c0 with
      | (Ret pub, c1) =>
          let c2 := (SetDeadline None c1).2 in (Ret (c2, pub), Some c2)
      | (Fail e, c1) => (Fail (BtcHandshake e), Some (conn_Close c1).2)
      | (Panic, c1) => (Panic, Some c1)
      end
  end.

(** ** Peer discovery *)

Definition addr_text (buf : bytes) : bytes :=
  JoinHostPort (IP_String (take 16 (drop 8 buf))) (itoa (be_val (take 2 (drop 24 buf)))).

(** The entries: [todo] more fit below the cap of 1000 addresses, [left] are
    announced and not yet read. *)
Fixpoint parse_addrs (todo : nat) (left : Z) (r : bytes) (addrs : list bytes) : list bytes :=
  match todo with
  | O => addrs
  | S todo' =>
      if left <=? 0 then addrs
      else match br_ReadFull 30 r with
           | (Ret buf, r') => parse_addrs todo' (left - 1) r' (addrs ++ [addr_text buf])
           | _ => addrs
           end
  end.

Definition parseAddrMsg (payload : bytes) : list bytes :=
  match btcReadVarInt payload with
  | (Ret count, r) => if count =? 0 then [] else parse_addrs 1000 count r []
  | _ => []
  end.

(** The answer loop; every turn reads a message of at least 24 bytes. *)
Fixpoint request_loop (fuel : nat) : cm (list bytes) :=
  match fuel with
  | O => stm_fail BtcFuel
  | S f =>
      msg ← wrap (BtcRead []) btcReadMsg;
      let cmd := cmd_of msg in
      if bool_decide (cmd = str "addr") then mret (parseAddrMsg (payload msg))
      else if bool_decide (cmd = str "ping") then
        _ ← drop_err (btcWriteMsg (str "pong") []); request_loop f
      else request_loop f
  end.

(** [defer conn.SetDeadline(time.Time{})] *)
Definition defer_no_deadline {A} (m : cm A) : cm A := fun c =>
  let '(r, c') := m c in (r, (SetDeadline None c').2).

Definition read_fuel (c : conn) : nat := S (length (pending (d_in (c_io c)))).

Definition requestAddrs (now timeout : Z) : cm (list bytes) :=
  _ ← SetDeadline (Some (now + timeout));
  defer_no_deadline
    (_ ← wrap (BtcSend (str "getaddr")) (btcWriteMsg (str "getaddr") []);
     c ← get_conn;
     request_loop (read_fuel c)).

(** ** Keep-alive *)

(** One turn after the sleep; [false] ends the loop. *)
Definition keepAlive_turn (now : Z) : cm bool := fun c0 =>
  match (_ ← SetDeadline (Some (now + 10)); btcWriteMsg (str "ping") []) c0 with
  | (Fail _, c1) => (Ret false, (conn_Close c1).2)
  | (Panic, c1) => (Panic, c1)
  | (Ret _, c1) =>
      let '(r, c2) := btcReadMsg c1 in
      let c3 := (SetDeadline None c2).2 in
      match r with
      | Ret _ => (Ret true, c3)
      | Fail _ => (Ret false, (conn_Close c3).2)
      | Panic => (Panic, c3)
      end
  end.

(** The turns at the given times, until one ends the loop. *)
Fixpoint keepAlive (nows : list Z) : cm unit :=
  match nows with
  | [] => mret ()
  | now :: nows' => go ← keepAlive_turn now; if (go : bool) then keepAlive nows' else mret ()
  end.

(** ** Incoming connections *)

Fixpoint serve_loop (fuel : nat) : cm unit :=
  match fuel with
  | O => stm_fail BtcFuel
  | S f => fun c =>
      match btcReadMsg c with
      | (Fail _, c') => (Ret (), c')
      | (Panic, c') => (Panic, c')
      | (Ret msg, c') =>
          let cmd := cmd_of msg in
          (_ ← (if bool_decide (cmd = str "ping") then drop_err (btcWriteMsg (str "pong") [])
                else if bool_decide (cmd = str "getaddr") then drop_err (btcWriteMsg (str "addr") [])
                else mret ());
           serve_loop f) c'
      end
  end.

(** [defer conn.Close()] *)
Definition defer_Close {A} (m : cm A) : cm A := fun c =>
  let '(r, c') := m c in (r, (conn_Close c').2).

Definition btcHandleIncoming (now : Z) (nonce : bytes) : cm unit :=
  defer_Close (fun c0 =>
    match (_ ← SetDeadline (Some (now + 15)); serverHandshake now nonce []) c0 with
    | (Fail _, c1) => (Ret (), c1)
    | (Panic, c1) => (Panic, c1)
    | (Ret _, c1) =>
        (_ ← SetDeadline None; c ← get_conn; serve_loop (read_fuel c)) c1
    end).

(** ** The bootstrap *)

Record SeedResult := mkSeed {
  Host : bytes; Addrs : list bytes; Success : bool; Err : bytes
}.

Definition btcDNSSeds : list bytes :=
  [str "seed.bitcoin.sipa.be"; str "dnsseed.bluematt.me"; str "dnsseed.bitcoin.dashjr.org";
   str "seed.bitcoinstats.com"; str "seed.bitnodes.io"].

(** [lookup] is [LookupIPAddr]: the addresses, or the text of the error. *)
Definition resolveSeed (lookup : bytes → bytes + list bytes) (host : bytes) : SeedResult :=
  match lookup host with
  | inl err => mkSeed host [] false err
  | inr ips =>
      let addrs :=
        map (λ ip, JoinHostPort (IP_String ip) (str "8333"))
            (List.filter (λ ip, bool_decide (is_Some (To4 ip))) ips) in
      if bool_decide (addrs = []) then mkSeed host addrs false (str "no IPv4 addresses resolved")
      else mkSeed host addrs true []
  end.

Definition resolveSeeds (lookup : bytes → bytes + list bytes) : list SeedResult :=
  map (resolveSeed lookup) btcDNSSeds.

Record BsPeerInfo := mkPeer { p_Addr : bytes; p_Pubkey : bytes; p_Conn : conn }.

Record BtcBootResult := mkBoot {
  PubkeyHex : bytes; Seeds : list SeedResult;
  ConnectOK : list BsPeerInfo; ConnectNOK : list bytes; Discovered : nat
}.

Inductive boot_err : Type :=
| BootKeyring (e : key_err)
| BootNoAddresses
| BootNoPeers.

(** What a goroutine of phase 2 does with the result of its [connectPeer], an
    error or a connection with the peer's key. *)
Definition connect_one (acc : list BsPeerInfo * list bytes)
    (r : bytes * (btc_err + conn * bytes)) : list BsPeerInfo * list bytes :=
  match r with
  | (addr, inr (c, pub)) => (acc.1 ++ [mkPeer addr pub c], acc.2)
  | (addr, inl _) => (acc.1, acc.2 ++ [addr])
  end.

(** Phase 2: [finished] is the order in which the goroutines take the locks. *)
Definition connect_phase (finished : list (bytes * (btc_err + conn * bytes)))
    : list BsPeerInfo * list bytes := foldl connect_one ([], []) finished.

(** Phase 3: the set of addresses the peers answered with. *)
Definition discover_phase (answers : list (btc_err + list bytes)) : gset bytes :=
  foldl (λ s r, match r with inr addrs => s ∪ list_to_set addrs | inl _ => s end) ∅ answers.

Section Bootstrap.
Context `{KeyPrims}.

(** [answers] are the results of [requestAddrs] on the connections, in the
    order in which they arrive. *)
Definition BtcBootstrap (KeyFile : bytes) (rnd : outcome io_err bytes)
    (lookup : bytes → bytes + list bytes)
    (finished : list (bytes * (btc_err + conn * bytes)))
    (answers : list (btc_err + list bytes)) : stm fs boot_err BtcBootResult :=
  kr ← stm_wrap BootKeyring (LoadKeyRing KeyFile true rnd);
  let myPub := hexEncode (Secp256k1Pub kr) in
  let seeds := resolveSeeds lookup in
  let totalAddrs := sum_list (map (λ s, if Success s then length (Addrs s) else 0%nat) seeds) in
  if bool_decide (totalAddrs = 0%nat) then stm_fail BootNoAddresses
  else
    let '(oks, noks) := connect_phase finished in
    if bool_decide (oks = []) then stm_fail BootNoPeers
    else mret (mkBoot myPub seeds oks noks (size (discover_phase answers))).

(** The addresses that are dialled. *)
Definition allAddrs (lookup : bytes → bytes + list bytes) : list bytes :=
  concat (map Addrs (resolveSeeds lookup)).
End Bootstrap.

(** ** Framing: proofs *)

Definition set_in (rd : reader) (c : conn) : conn :=
  Conn (Duplex rd (d_out (c_io c)) (d_werr (c_io c))) (c_local c) (c_remote c)
       (c_deadline c) (c_closed c).
Definition add_out (l : bytes) (c : conn) : conn :=
  Conn (Duplex (d_in (c_io c)) (d_out (c_io c) ++ l) (d_werr (c_io c))) (c_local c) (c_remote c)
       (c_deadline c) (c_closed c).

(** The bytes that are still to be read, and whether writing works. *)
Definition c_pending (c : conn) : bytes := pending (d_in (c_io c)).
Definition writable (c : conn) : Prop := d_werr (c_io c) = None.

(** A message as it is on the wire. *)
Definition frame (cmd payload : bytes) : bytes := msg_header cmd payload ++ payload.

Definition checksum (p : bytes) : bytes :=
  if zlen p >? 0 then take 4 (Sha256d p) else make_bytes 4.

Lemma length_checksum p : length (checksum p) = 4%nat.
Proof.
  unfold checksum. destruct (zlen p >? 0); [|done].
  unfold Sha256d. rewrite length_take, length_sha256. done.
Qed.

Lemma make_bytes_app n m : make_bytes (n + m) = make_bytes n ++ make_bytes m.
Proof. apply replicate_add. Qed.

Lemma msg_header_shape cmd p :
  (length cmd ≤ 12)%nat →
  msg_header cmd p =
    le_bytes 4 bitcoinMagic ++ cmd ++ make_bytes (12 - length cmd) ++
    le_bytes 4 (u32 (zlen p)) ++ checksum p.
Proof.
  intros Hc. unfold msg_header. rewrite bool_decide_false by (unfold btcCmdLen; lia).
  change (copy_at 0 (make_bytes btcHeaderLen) (le_bytes 4 bitcoinMagic))
    with (le_bytes 4 bitcoinMagic ++ make_bytes 20).
  rewrite (copy_at_make 4 20 (le_bytes 4 bitcoinMagic)) by (try apply length_le_bytes; lia).
  replace (20 - length cmd)%nat with ((12 - length cmd) + 8)%nat by lia.
  rewrite make_bytes_app, !app_assoc.
  rewrite copy_at_make; [|len|rewrite length_le_bytes; lia].
  rewrite length_le_bytes. change (8 - 4)%nat with 4%nat.
  unfold checksum. destruct (zlen p >? 0); [|by rewrite <- !app_assoc].
  rewrite !app_assoc, copy_at_make; [|len|].
  - rewrite length_take. unfold Sha256d. rewrite length_sha256.
    change (4 - 4 `min` 32)%nat with 0%nat. change (make_bytes 0) with (@nil byte).
    by rewrite app_nil_r, <- !app_assoc.
  - rewrite length_take. lia.
Qed.

Lemma conn_ReadFull_app n c l k :
  c_pending c = l ++ k → length l = n →
  ∃ rd, conn_ReadFull n c = (Ret l, set_in rd c) ∧ pending rd = k ∧
    rd_err rd = rd_err (d_in (c_io c)).
Proof.
  intros Hp Hl. destruct (ReadFull_app n (d_in (c_io c)) l k Hp Hl) as (rd & E & Hk & He).
  exists rd. split; [|done]. unfold conn_ReadFull, on_io, dup_ReadFull. by rewrite E.
Qed.

Lemma conn_Write_ok p c : writable c → conn_Write p c = (Ret (), add_out p c).
Proof.
  intros Hw. unfold writable in Hw. unfold conn_Write.
  erewrite stm_bind_ret; [|unfold on_io, dup_write; rewrite Hw; reflexivity].
  unfold add_out. by rewrite Hw.
Qed.

Lemma add_out_add_out p q c : add_out q (add_out p c) = add_out (p ++ q) c.
Proof. unfold add_out. cbn. by rewrite <- app_assoc. Qed.

Lemma add_out_nil c : add_out [] c = c.
Proof. destruct c as [[] ? ? ? ?]. unfold add_out. cbn. by rewrite app_nil_r. Qed.

Lemma btcWriteMsg_ok cmd p c :
  writable c → btcWriteMsg cmd p c = (Ret (), add_out (frame cmd p) c).
Proof.
  intros Hw. unfold btcWriteMsg. erewrite stm_bind_ret by (by apply conn_Write_ok).
  unfold frame. destruct (zlen p >? 0) eqn:E; zbool.
  - rewrite conn_Write_ok by done. by rewrite add_out_add_out.
  - destruct p; [|rewrite zlen_cons in E; pose proof (zlen_nonneg p); lia].
    by rewrite app_nil_r.
Qed.

(** The header that is read, field by field. *)
Lemma header_fields cmd p (h := msg_header cmd p) :
  (length cmd ≤ 12)%nat → zlen p < 2 ^ 32 →
  length h = 24%nat ∧ le_val (take 4 h) = bitcoinMagic ∧
  take 12 (drop 4 h) = cmd ++ make_bytes (12 - length cmd) ∧
  le_val (take 4 (drop 16 h)) = zlen p ∧ take 4 (drop 20 h) = checksum p.
Proof.
  intros Hc Hp. unfold h. rewrite msg_header_shape by done.
  pose proof (length_checksum p) as Lc. pose proof (zlen_nonneg p).
  set (m := le_bytes 4 bitcoinMagic). set (n := le_bytes 4 (u32 (zlen p))).
  set (pad := cmd ++ make_bytes (12 - length cmd)).
  assert (length m = 4%nat) as Lm by apply length_le_bytes.
  assert (length n = 4%nat) as Ln by apply length_le_bytes.
  assert (length pad = 12%nat) as Lpad by (unfold pad; len).
  replace (m ++ cmd ++ make_bytes (12 - length cmd) ++ n ++ checksum p)
    with (m ++ pad ++ n ++ checksum p) by (unfold pad; by rewrite <- !app_assoc).
  split_and!.
  - rewrite !length_app. lia.
  - rewrite take_app_exact by done. reflexivity.
  - rewrite drop_app_exact by done. by rewrite take_app_exact.
  - rewrite app_assoc, drop_app_exact by (rewrite length_app; lia).
    rewrite take_app_exact by done. unfold n. rewrite le_val_le_bytes.
    change (256 ^ Z.of_nat 4) with (2 ^ 32). unfold u32. rewrite wrap_u_small by lia.
    apply Z.mod_small. lia.
  - rewrite !app_assoc, drop_app_exact by (rewrite !length_app; lia).
    rewrite take_ge by lia. done.
Qed.

Lemma btcReadMsg_ok cmd p k c :
  (length cmd ≤ 12)%nat → zlen p < 2 ^ 32 → c_pending c = frame cmd p ++ k →
  ∃ rd, btcReadMsg c = (Ret (mkMsg (cmd ++ make_bytes (12 - length cmd)) p), set_in rd c) ∧
    pending rd = k ∧ rd_err rd = rd_err (d_in (c_io c)).
Proof.
  intros Hc Hp Hk. destruct (header_fields cmd p Hc Hp) as (Lh & Hm & Hcmd & Hlen & Hchk).
  unfold frame in Hk. rewrite <- app_assoc in Hk.
  destruct (conn_ReadFull_app 24 c _ _ Hk Lh) as (rd & E & Hrd & He).
  unfold btcReadMsg. rewrite (stm_bind_ret _ _ _ _ _ E).
  rewrite Hm, Hlen, Hchk, Hcmd. change (bitcoinMagic =? bitcoinMagic) with true. cbn [negb].
  rewrite copy_into_full by (len).
  destruct (zlen p >? 0) eqn:Ez; zbool.
  - destruct (conn_ReadFull_app (Z.to_nat (zlen p)) (set_in rd c) p k Hrd) as (rd2 & E2 & Hrd2 & He2).
    { unfold zlen. lia. }
    rewrite (stm_bind_ret _ _ _ _ _ E2).
    rewrite bool_decide_false; [exists rd2; split_and!; [done|done|rewrite He2; exact He]|].
    unfold checksum. destruct (zlen p >? 0) eqn:Ez'; zbool; [tauto|lia].
  - destruct p; [|rewrite zlen_cons in Ez; pose proof (zlen_nonneg p); lia].
    exists rd. split_and!; done.
Qed.

(** ** Strings and the version message: proofs *)

Lemma btcReadVarInt_small b k :
  bz b < 253 → btcReadVarInt (b :: k) = (Ret (bz b), k).
Proof.
  intros H. unfold btcReadVarInt. erewrite stm_bind_ret by reflexivity.
  destruct (bz b =? 253) eqn:E1, (bz b =? 254) eqn:E2, (bz b =? 255) eqn:E3; zbool; lia || done.
Qed.

Lemma btcReadVarInt_fd t k :
  length t = 2%nat → btcReadVarInt (xfd :: t ++ k) = (Ret (le_val t), k).
Proof.
  intros H. unfold btcReadVarInt. erewrite stm_bind_ret by reflexivity.
  change (bz xfd =? 253) with true. cbv iota.
  erewrite stm_bind_ret by (by apply br_ReadFull_app). done.
Qed.

Lemma btcReadVarInt_fe t k :
  length t = 4%nat → btcReadVarInt (xfe :: t ++ k) = (Ret (le_val t), k).
Proof.
  intros H. unfold btcReadVarInt. erewrite stm_bind_ret by reflexivity.
  change (bz xfe =? 253) with false. change (bz xfe =? 254) with true. cbv iota.
  erewrite stm_bind_ret by (by apply br_ReadFull_app). done.
Qed.

Lemma btcReadVarInt_ff t k :
  length t = 8%nat → btcReadVarInt (xff :: t ++ k) = (Ret (le_val t), k).
Proof.
  intros H. unfold btcReadVarInt. erewrite stm_bind_ret by reflexivity.
  change (bz xff =? 253) with false. change (bz xff =? 254) with false.
  change (bz xff =? 255) with true. cbv iota.
  erewrite stm_bind_ret by (by apply br_ReadFull_app). done.
Qed.

(** What [btcWriteVarStr] wrote is read back, in each of its three forms. *)
Lemma btcReadVarStr_write s k :
  zlen s < 2 ^ 32 → btcReadVarStr (btcWriteVarStr s ++ k) = (Ret s, k).
Proof.
  intros Hs. pose proof (zlen_nonneg s) as H0.
  assert (btcReadVarInt (btcWriteVarStr s ++ k) = (Ret (zlen s), s ++ k)) as E.
  { unfold btcWriteVarStr. rewrite <- app_assoc.
    destruct (zlen s <? 253) eqn:E1; [|destruct (zlen s <=? 65535) eqn:E2]; zbool; cbn [app].
    - rewrite btcReadVarInt_small; rewrite bz_zb_small by lia; done || lia.
    - rewrite btcReadVarInt_fd by apply length_le_bytes. do 2 f_equal.
      rewrite le_val_le_bytes. unfold u16. rewrite wrap_u_small by lia.
      apply Z.mod_small. change (256 ^ Z.of_nat 2) with 65536. lia.
    - rewrite btcReadVarInt_fe by apply length_le_bytes. do 2 f_equal.
      rewrite le_val_le_bytes. unfold u32. rewrite wrap_u_small by lia.
      apply Z.mod_small. change (256 ^ Z.of_nat 4) with (2 ^ 32). lia. }
  unfold btcReadVarStr. rewrite (stm_bind_ret _ _ _ _ _ E).
  assert (@make_u64 io_err (zlen s) = Ret (make_bytes (Z.to_nat (zlen s)))) as Em.
  { unfold make_u64, maxAlloc. destruct (zlen s >? 2 ^ 48) eqn:Eg; zbool; [lia|done]. }
  rewrite Em. erewrite stm_bind_ret by reflexivity.
  apply br_ReadFull_app. unfold zlen. lia.
Qed.

Lemma length_version_addr {E} a b : @version_addr E a = Ret b → length b = 26%nat.
Proof.
  unfold version_addr. destruct a as [[ip port|]|]; intros H; try done.
  - injection H as <-. unfold copy_at. rewrite !length_app, !length_take, !length_copy_into, !length_drop.
    rewrite !length_app, !length_take, !length_copy_into, !length_drop, length_make_bytes. lia.
  - by injection H as <-.
Qed.

Lemma length_btcWriteVarStr s : (length (btcWriteVarStr s) ≤ 5 + length s)%nat.
Proof.
  unfold btcWriteVarStr. destruct (zlen s <? 253); [|destruct (zlen s <=? 65535)];
    cbn [app length]; rewrite ?length_app, ?length_le_bytes; cbn [length]; lia.
Qed.

Lemma user_agent_parse (pub : bytes) :
  x2f ∉ pub →
  ∃ p, Index (str "pubkey=") (user_agent pub) = Some 12%nat ∧
    user_agent pub = str "/bitcoin_bs:pubkey=" ++ p ∧ p = pub ++ [x2f] ∧
    IndexByte x2f p = Some (length pub).
Proof.
  intros Hn. exists (pub ++ [x2f]). split_and!; [done|done|done|]. by apply IndexByte_app.
Qed.

(** The key in the user agent is found again, cut off at 128 characters. *)
Lemma parse_version {E F} now (pub : bytes) l r nonce v :
  x2f ∉ pub → zlen pub < 2 ^ 31 →
  @btcBuildVersion E now pub l r nonce = Ret v →
  @btcParseVersionPubkey F v = Ret (take 128 pub) ∧ 0 < zlen v < 2 ^ 32.
Proof.
  intros Hn Hl Hv. unfold btcBuildVersion in Hv.
  apply bind_ret_inv in Hv as (a1 & Ha1 & Hv). apply bind_ret_inv in Hv as (a2 & Ha2 & Hv).
  apply (inj Ret) in Hv as <-. apply length_version_addr in Ha1, Ha2.
  set (ua := user_agent pub).
  assert (zlen ua = 20 + zlen pub) as Lua.
  { unfold ua, user_agent. rewrite !zlen_app.
    change (zlen (str "/bitcoin_bs:pubkey=")) with 19. change (zlen (str "/")) with 1. lia. }
  split.
  - unfold btcParseVersionPubkey.
    match goal with |- context [drop 80 (?a ++ ?b ++ ?c ++ ?d ++ ?e ++ ?f ++ ?w ++ ?t)] =>
      replace (a ++ b ++ c ++ d ++ e ++ f ++ w ++ t) with ((a ++ b ++ c ++ d ++ e ++ f) ++ w ++ t)
        by (by rewrite <- !app_assoc) end.
    rewrite drop_app_exact by (rewrite !length_app, !length_le_bytes, Ha1, Ha2; done).
    rewrite btcReadVarStr_write by lia.
    destruct (user_agent_parse pub Hn) as (p & Ex & Eu & Ep & Ei). fold ua in Ex, Eu.
    rewrite Ex, Eu.
    rewrite slice_from_ok by (rewrite length_app; cbn; lia). cbn [mbind outcome_bind].
    rewrite drop_app_exact by done. rewrite Ei. cbn [default].
    unfold id. case_bool_decide as H128.
    + rewrite slice_to_ok by (subst p; len). f_equal. rewrite Ep. by rewrite take_app_le by lia.
    + rewrite slice_to_ok by (subst p; len). f_equal. rewrite Ep, take_app_length.
      by rewrite take_ge by lia.
  - pose proof (length_btcWriteVarStr ua) as Lw.
    rewrite !zlen_app. unfold zlen in *. rewrite !length_le_bytes, Ha1, Ha2. cbn [length]. lia.
Qed.

(** ** Handshakes: proofs *)

Definition cmd_ok (cmd : bytes) : Prop :=
  (length cmd ≤ 12)%nat ∧ ∃ l b, cmd = l ++ [b] ∧ b ≠ x00.

Lemma zeros_cut n : forallb (λ b, bool_decide (b = x00)) (make_bytes n) = true.
Proof. induction n as [|n IH]; [done|]. cbn [make_bytes replicate forallb]. by rewrite bool_decide_true. Qed.

Lemma cmd_of_pad cmd p n : cmd_ok cmd → cmd_of (mkMsg (cmd ++ make_bytes n) p) = cmd.
Proof.
  intros (_ & l & b & -> & Hb). unfold cmd_of. cbn [command]. rewrite <- app_assoc.
  apply TrimRight_pad; [by apply bool_decide_eq_false|apply zeros_cut].
Qed.

Lemma version_ok : cmd_ok c_version.
Proof. split; [cbn; lia|]. by exists (str "versio"), x6e. Qed.

Lemma verack_ok : cmd_ok c_verack.
Proof. split; [cbn; lia|]. by exists (str "verac"), x6b. Qed.

Lemma expect_msg_ok want p k c :
  cmd_ok want → zlen p < 2 ^ 32 → c_pending c = frame want p ++ k →
  ∃ m rd, expect_msg want c = (Ret m, set_in rd c) ∧ payload m = p ∧ pending rd = k.
Proof.
  intros Hw Hp Hk. destruct (btcReadMsg_ok want p k c) as (rd & E & Hrd & _);
    [apply Hw|done|done|].
  eexists _, rd. unfold expect_msg. erewrite stm_bind_ret; cycle 1.
  { unfold wrap, stm_wrap. rewrite E. reflexivity. }
  rewrite cmd_of_pad by done. rewrite bool_decide_false by tauto. done.
Qed.

(** The two addresses of a TCP connection. *)
Definition tcp_conn (c : conn) : Prop :=
  c_local c ≠ Some OtherAddr ∧ c_remote c ≠ Some OtherAddr.

Lemma build_version_total {E} now pub c nonce :
  tcp_conn c → ∃ v, @btcBuildVersion E now pub (c_local c) (c_remote c) nonce = Ret v.
Proof.
  intros [H1 H2]. unfold btcBuildVersion, version_addr.
  destruct (c_local c) as [[]|], (c_remote c) as [[]|]; try done; by eexists.
Qed.

Lemma send_version_ok now nonce pub c v :
  writable c → btcBuildVersion (E := btc_err) now pub (c_local c) (c_remote c) (le_val nonce) = Ret v →
  send_version now nonce pub c = (Ret (), add_out (frame c_version v) c).
Proof.
  intros Hw Hv. unfold send_version. erewrite stm_bind_ret by reflexivity.
  erewrite stm_bind_ret by (unfold stm_lift; by rewrite Hv).
  unfold wrap, stm_wrap. by rewrite btcWriteMsg_ok.
Qed.

Lemma send_verack_ok c :
  writable c →
  wrap (BtcSend c_verack) (btcWriteMsg c_verack []) c = (Ret (), add_out (frame c_verack []) c).
Proof. intros Hw. unfold wrap, stm_wrap. by rewrite btcWriteMsg_ok. Qed.

Lemma stm_lift_ret {S E A} (m : outcome E A) a (s : S) : m = Ret a → stm_lift m s = (Ret a, s).
Proof. by intros ->. Qed.

(** The bytes one side sends in a handshake. *)
Definition hello (v : bytes) : bytes := frame c_version v ++ frame c_verack [].

Lemma clientHandshake_ok now nonce pub c v pv peer k :
  writable c → btcBuildVersion (E := btc_err) now pub (c_local c) (c_remote c) (le_val nonce) = Ret v →
  zlen pv < 2 ^ 32 → btcParseVersionPubkey (E := btc_err) pv = Ret peer →
  c_pending c = hello pv ++ k →
  ∃ rd, clientHandshake now nonce pub c = (Ret peer, add_out (hello v) (set_in rd c)) ∧
    pending rd = k.
Proof.
  intros Hw Hv Hz Hpar Hk. unfold clientHandshake, hello in *. rewrite <- app_assoc in Hk.
  erewrite stm_bind_ret by (by apply send_version_ok).
  destruct (expect_msg_ok c_version pv (frame c_verack [] ++ k) (add_out (frame c_version v) c))
    as (m & rd & E & Hm & Hrd); [apply version_ok|done|done|].
  rewrite (stm_bind_ret _ _ _ _ _ E), Hm.
  erewrite stm_bind_ret by (by apply stm_lift_ret).
  erewrite stm_bind_ret by (by apply send_verack_ok).
  destruct (expect_msg_ok c_verack [] k
    (add_out (frame c_verack []) (set_in rd (add_out (frame c_version v) c))))
    as (m2 & rd2 & E2 & _ & Hrd2); [apply verack_ok|done|done|].
  rewrite (stm_bind_ret _ _ _ _ _ E2). exists rd2. split; [|done].
  unfold mret, stm_ret, add_out, set_in. cbn. by rewrite <- app_assoc.
Qed.

Lemma serverHandshake_ok now nonce pub c v pv peer k :
  writable c → btcBuildVersion (E := btc_err) now pub (c_local c) (c_remote c) (le_val nonce) = Ret v →
  zlen pv < 2 ^ 32 → btcParseVersionPubkey (E := btc_err) pv = Ret peer →
  c_pending c = hello pv ++ k →
  ∃ rd, serverHandshake now nonce pub c = (Ret peer, add_out (hello v) (set_in rd c)) ∧
    pending rd = k.
Proof.
  intros Hw Hv Hz Hpar Hk. unfold serverHandshake, hello in *. rewrite <- app_assoc in Hk.
  destruct (expect_msg_ok c_version pv (frame c_verack [] ++ k) c)
    as (m & rd & E & Hm & Hrd); [apply version_ok|done|done|].
  rewrite (stm_bind_ret _ _ _ _ _ E), Hm.
  erewrite stm_bind_ret by (by apply stm_lift_ret).
  erewrite stm_bind_ret by (by apply send_version_ok).
  erewrite stm_bind_ret by (by apply send_verack_ok).
  destruct (expect_msg_ok c_verack [] k
    (add_out (frame c_verack []) (add_out (frame c_version v) (set_in rd c))))
    as (m2 & rd2 & E2 & _ & Hrd2); [apply verack_ok|done|done|].
  rewrite (stm_bind_ret _ _ _ _ _ E2). exists rd2. split; [|done].
  unfold mret, stm_ret, add_out, set_in. cbn. by rewrite <- app_assoc.
Qed.

(** *** What [btcReadMsg] accepts *)

Lemma conn_ReadFull_inv n c r c' :
  conn_ReadFull n c = (r, c') →
  (∃ rd, c' = set_in rd c) ∧ r ≠ Panic ∧
  (∀ l, r = Ret l → length l = n ∧ c_pending c = l ++ c_pending c') ∧
  (∀ e, r = Fail e → (length (c_pending c) < n)%nat ∧ ∃ io, e = BtcIO io).
Proof.
  unfold conn_ReadFull, on_io, dup_ReadFull. intros E.
  destruct (ReadFull n (d_in (c_io c))) as [r0 rd] eqn:Er. cbn in E. injection E as <- <-.
  split; [by exists rd|]. unfold c_pending. cbn.
  destruct (Nat.lt_ge_cases (length (pending (d_in (c_io c)))) n) as [Hlt|Hge].
  - rewrite ReadFull_short in Er by done. injection Er as <- <-. cbn. split_and!; [done|done|].
    intros e [= <-]. split; [done|by eexists].
  - destruct (ReadFull_ok n (d_in (c_io c)) Hge) as (rd' & E1 & Hp & _). rewrite E1 in Er.
    injection Er as <- <-. cbn. split_and!; [done| |done].
    intros l [= <-]. rewrite Hp, take_drop. split; [|done]. rewrite length_take. lia.
Qed.

(** A message that is returned came with the right magic, length and checksum,
    and consumed exactly its bytes; [btcReadMsg] does not panic. *)
Lemma btcReadMsg_inv c r c' :
  btcReadMsg c = (r, c') →
  (∃ rd, c' = set_in rd c) ∧ r ≠ Panic ∧ r ≠ Fail BtcFuel ∧
  (∀ m, r = Ret m → ∃ h, length h = 24%nat ∧ c_pending c = h ++ payload m ++ c_pending c' ∧
     le_val (take 4 h) = bitcoinMagic ∧ le_val (take 4 (drop 16 h)) = zlen (payload m) ∧
     command m = take 12 (drop 4 h) ∧
     (payload m ≠ [] → take 4 (drop 20 h) = take 4 (Sha256d (payload m)))).
Proof.
  unfold btcReadMsg. intros E.
  destruct (conn_ReadFull btcHeaderLen c) as [r1 c1] eqn:E1.
  destruct (conn_ReadFull_inv _ _ _ _ E1) as ([rd1 ->] & Np & Hr & Hf).
  destruct r1 as [h|e|]; [|rewrite (stm_bind_fail _ _ _ _ _ E1) in E; injection E as <- <-|done].
  2:{ split_and!; [by eexists|done| |done]. destruct (Hf e eq_refl) as [_ [io ->]]. done. }
  destruct (Hr h eq_refl) as [Lh Hp]. rewrite (stm_bind_ret _ _ _ _ _ E1) in E.
  destruct (le_val (take 4 h) =? bitcoinMagic) eqn:Em; cbn [negb] in E; cycle 1.
  { injection E as <- <-. split_and!; [by eexists|done..]. }
  zbool. unfold btcHeaderLen in Lh. rewrite copy_into_full in E by (len).
  destruct (le_val (take 4 (drop 16 h)) >? 0) eqn:El; zbool.
  - destruct (conn_ReadFull (Z.to_nat (le_val (take 4 (drop 16 h)))) (set_in rd1 c))
      as [r2 c2] eqn:E2.
    destruct (conn_ReadFull_inv _ _ _ _ E2) as ([rd2 ->] & Np2 & Hr2 & Hf2).
    destruct r2 as [p|e|]; [|rewrite (stm_bind_fail _ _ _ _ _ E2) in E; injection E as <- <-|done].
    2:{ split_and!; [by exists rd2|done| |done]. destruct (Hf2 e eq_refl) as [_ [io ->]]. done. }
    destruct (Hr2 p eq_refl) as [Lp Hp2]. rewrite (stm_bind_ret _ _ _ _ _ E2) in E.
    case_bool_decide as Hc; injection E as <- <-; (split_and!; [by exists rd2|done..|]); [done|].
    intros m [= <-]. exists h. cbn [payload command]. split_and!; [done| |done| |done|].
    + rewrite Hp. f_equal. exact Hp2.
    + unfold zlen. lia.
    + intros _. exact Hc.
  - injection E as <- <-. split_and!; [by exists rd1|done..|].
    intros m [= <-]. exists h. cbn [payload command].
    pose proof (le_val_range (take 4 (drop 16 h))). split_and!; [done|done|done| |done|done].
    rewrite zlen_nil. lia.
Qed.

(** ** The two roles against each other

    Each side is deterministic, so what it has written after [n] rounds is a function of
    what the other side had written before; a side that needs more input than there is
    stops with the error [would_block]. *)

Definition would_block : io_err := ErrOther 11.

Definition on_input (l : bytes) (c : conn) : conn := set_in (Reader [l] would_block) c.

(** What a run writes *)
Definition written {A} (m : cm A) (c : conn) : bytes :=
  drop (length (d_out (c_io c))) (d_out (c_io (m c).2)).

(** The bytes from the client to the server, and back, after [n] rounds *)
Fixpoint handshake_rounds (client server : cm bytes) (cc sc : conn) (n : nat) : bytes * bytes :=
  match n with
  | O => ([], [])
  | S n =>
      let '(_, s2c) := handshake_rounds client server cc sc n in
      let c2s := written client (on_input s2c cc) in
      (c2s, written server (on_input c2s sc))
  end.

Lemma btcReadMsg_empty c : c_pending c = [] → ∃ e rd, btcReadMsg c = (Fail e, set_in rd c).
Proof.
  intros Hp. destruct (btcReadMsg c) as [[m|e|] c'] eqn:E;
    destruct (btcReadMsg_inv _ _ _ E) as ([rd ->] & Np & _ & H); [|by eexists _, _|done].
  destruct (H m eq_refl) as (h & Lh & Hh & _). rewrite Hp in Hh. apply (f_equal length) in Hh.
  rewrite length_app in Hh. cbn in Hh. lia.
Qed.

Lemma written_out {A} (m : cm A) c r l rd : m c = (r, add_out l (set_in rd c)) → written m c = l.
Proof. intros E. unfold written. rewrite E. cbn. by rewrite drop_app_length. Qed.

Lemma expect_msg_empty want c :
  c_pending c = [] → ∃ e rd, expect_msg want c = (Fail e, set_in rd c).
Proof.
  intros Hp. destruct (btcReadMsg_empty c Hp) as (e & rd & E). eexists _, rd.
  unfold expect_msg, mbind, stm_bind, wrap, stm_wrap. rewrite E. cbn. reflexivity.
Qed.

(** A client that hears nothing has sent its version. *)
Lemma clientHandshake_silent now nonce pub c v :
  writable c → btcBuildVersion (E := btc_err) now pub (c_local c) (c_remote c) (le_val nonce) = Ret v →
  c_pending c = [] → written (clientHandshake now nonce pub) c = frame c_version v.
Proof.
  intros Hw Hv Hk.
  destruct (expect_msg_empty c_version (add_out (frame c_version v) c) Hk) as (e & rd & E).
  apply (written_out _ _ (Fail e) _ rd). unfold clientHandshake.
  erewrite stm_bind_ret by (by apply send_version_ok). unfold mbind, stm_bind. by rewrite E.
Qed.

(** A server that has the client's version has sent its version and verack. *)
Lemma serverHandshake_greeted now nonce pub c v pv peer :
  writable c → btcBuildVersion (E := btc_err) now pub (c_local c) (c_remote c) (le_val nonce) = Ret v →
  zlen pv < 2 ^ 32 → btcParseVersionPubkey (E := btc_err) pv = Ret peer →
  c_pending c = frame c_version pv → written (serverHandshake now nonce pub) c = hello v.
Proof.
  intros Hw Hv Hz Hpar Hk. rewrite <- (app_nil_r (frame _ _)) in Hk.
  destruct (expect_msg_ok c_version pv [] c) as (m & rd & E & Hm & Hrd); [apply version_ok|done|done|].
  destruct (expect_msg_empty c_verack
    (add_out (frame c_verack []) (add_out (frame c_version v) (set_in rd c))) Hrd) as (e & rd2 & E2).
  apply (written_out _ _ (Fail e) _ rd2). unfold serverHandshake.
  rewrite (stm_bind_ret _ _ _ _ _ E), Hm.
  erewrite stm_bind_ret by (by apply stm_lift_ret).
  erewrite stm_bind_ret by (by apply send_version_ok).
  erewrite stm_bind_ret by (by apply send_verack_ok).
  unfold mbind, stm_bind. rewrite E2. unfold add_out, set_in, hello. cbn. by rewrite <- app_assoc.
Qed.

(** C12: The two roles of the Bitcoin handshake, run against each other, both complete:
    neither side is given a byte before the other has written it, and neither waits for
    input that never comes.  From the second round on, the client has learnt the server's
    key and the server the client's (cut off at 128 characters), in any fragmentation of
    the streams; each has written exactly the bytes the other read, and bytes that follow
    are left unread.  The connection is a TCP connection that takes all writes, the keys
    are shorter than 2 GB and have no slash in them. *)
Theorem btc_handshake_agreement cc sc nowC nowS nC nS pubC pubS n :
  writable cc → writable sc → tcp_conn cc → tcp_conn sc →
  x2f ∉ pubC → x2f ∉ pubS → zlen pubC < 2 ^ 31 → zlen pubS < 2 ^ 31 → (2 ≤ n)%nat →
  let client := clientHandshake nowC nC pubC in
  let server := serverHandshake nowS nS pubS in
  let '(c2s, s2c) := handshake_rounds client server cc sc n in
  ∀ rdC rdS restC restS,
    pending rdC = s2c ++ restC → pending rdS = c2s ++ restS →
    ∃ rdC' rdS',
      client (set_in rdC cc) = (Ret (take 128 pubS), add_out c2s (set_in rdC' cc)) ∧
      pending rdC' = restC ∧
      server (set_in rdS sc) = (Ret (take 128 pubC), add_out s2c (set_in rdS' sc)) ∧
      pending rdS' = restS.
Proof.
  intros Wc Ws Tc Ts Nc Ns Lc Ls Hn client server.
  destruct (build_version_total (E := btc_err) nowC pubC cc (le_val nC) Tc) as [vC HvC].
  destruct (build_version_total (E := btc_err) nowS pubS sc (le_val nS) Ts) as [vS HvS].
  destruct (parse_version (F := btc_err) _ _ _ _ _ _ Nc Lc HvC) as [PC ZC].
  destruct (parse_version (F := btc_err) _ _ _ _ _ _ Ns Ls HvS) as [PS ZS].
  assert (∀ rd rest, pending rd = hello vS ++ rest → ∃ rd',
    client (set_in rd cc) = (Ret (take 128 pubS), add_out (hello vC) (set_in rd' cc)) ∧ pending rd' = rest)
    as HC by (intros rd rest Hk; apply (clientHandshake_ok nowC nC pubC (set_in rd cc) vC vS); done || lia).
  assert (∀ rd rest, pending rd = hello vC ++ rest → ∃ rd',
    server (set_in rd sc) = (Ret (take 128 pubC), add_out (hello vS) (set_in rd' sc)) ∧ pending rd' = rest)
    as HS by (intros rd rest Hk; apply (serverHandshake_ok nowS nS pubS (set_in rd sc) vS vC); done || lia).
  assert (handshake_rounds client server cc sc n = (hello vC, hello vS)) as ->.
  { destruct n as [|[|n]]; [lia|lia|].
    assert (∀ l, l = hello vS → written client (on_input l cc) = hello vC) as WC.
    { intros l ->. destruct (HC (Reader [hello vS] would_block) []) as (rd' & E & _);
        [by cbn; rewrite !app_nil_r|].
      exact (written_out client (on_input (hello vS) cc) _ (hello vC) rd' E). }
    assert (written server (on_input (hello vC) sc) = hello vS) as WS.
    { destruct (HS (Reader [hello vC] would_block) []) as (rd' & E & _);
        [by cbn; rewrite !app_nil_r|].
      exact (written_out server (on_input (hello vC) sc) _ (hello vS) rd' E). }
    assert (∀ m, (handshake_rounds client server cc sc m).2 = hello vS →
      handshake_rounds client server cc sc (S m) = (hello vC, hello vS)) as Hstep.
    { intros m. cbn [handshake_rounds]. destruct (handshake_rounds client server cc sc m) as [x y].
      cbn [snd]. intros ->. by rewrite (WC _ eq_refl), WS. }
    clear Hn. induction n as [|n IH]; apply Hstep; [|by rewrite IH].
    cbn [handshake_rounds snd]. unfold client, server.
    rewrite (clientHandshake_silent nowC nC pubC (on_input [] cc) vC Wc HvC eq_refl).
    apply (serverHandshake_greeted nowS nS pubS (on_input (frame c_version vC) sc) vS vC (take 128 pubC));
      [done|done|lia|done|cbn; by rewrite app_nil_r]. }
  intros rdC rdS restC restS HkC HkS.
  destruct (HC rdC restC HkC) as (rdC' & EC & RC). destruct (HS rdS restS HkS) as (rdS' & ES & RS).
  exists rdC', rdS'. done.
Qed.

(** Two ends of a local connection, for the witnesses. *)
Definition end_a : conn :=
  Conn (Duplex (Reader [] EOF) [] None) (Some (TCPAddr (map zb [127; 0; 0; 1]) 8333)) None None false.
Definition end_b : conn :=
  Conn (Duplex (Reader [] EOF) [] None) None (Some (TCPAddr (map zb [127; 0; 0; 1]) 8333)) None false.

Lemma btc_handshake_agreement_witness :
  ∃ ca cb, (clientHandshake 7 (make_bytes 8) (str "02ab") ca).1 = Ret (str "03cd") ∧
    (serverHandshake 9 (make_bytes 8) (str "03cd") cb).1 = Ret (str "02ab").
Proof.
  pose proof (btc_handshake_agreement end_a end_b 7 9 (make_bytes 8) (make_bytes 8)
    (str "02ab") (str "03cd") 2) as H. cbv zeta in H.
  destruct (handshake_rounds _ _ end_a end_b 2) as [oC oS].
  destruct H with (rdC := Reader [oS] EOF) (rdS := Reader [oC] EOF) (restC := @nil byte) (restS := @nil byte)
    as (rdC' & rdS' & EC & _ & ES & _);
    [done|done|by split|by split|by apply (bool_decide_unpack (_ ∉ _))|
     by apply (bool_decide_unpack (_ ∉ _))|done|done|lia|done|done|].
  exists (set_in (Reader [oS] EOF) end_a), (set_in (Reader [oC] EOF) end_b).
  by rewrite EC, ES.
Defined.

(** ** Message streams *)

(** Sending a list of messages, and receiving as many. *)
Fixpoint write_all (ms : list (bytes * bytes)) : cm unit :=
  match ms with
  | [] => mret ()
  | (cmd, p) :: ms' => _ ← btcWriteMsg cmd p; write_all ms'
  end.

Fixpoint read_all (n : nat) : cm (list (bytes * bytes)) :=
  match n with
  | O => mret []
  | S n' => m ← btcReadMsg; ms ← read_all n'; mret ((cmd_of m, payload m) :: ms)
  end.

Definition msg_ok (m : bytes * bytes) : Prop := cmd_ok m.1 ∧ zlen m.2 < 2 ^ 32.

Lemma write_all_ok ms c :
  writable c → write_all ms c = (Ret (), add_out (concat (map (λ m, frame m.1 m.2) ms)) c).
Proof.
  revert c. induction ms as [|[cmd p] ms IH]; intros c Hw; cbn [write_all map concat].
  - by rewrite add_out_nil.
  - erewrite stm_bind_ret by (by apply btcWriteMsg_ok). rewrite IH by done.
    by rewrite add_out_add_out.
Qed.

Lemma read_all_ok ms c k :
  Forall msg_ok ms → c_pending c = concat (map (λ m, frame m.1 m.2) ms) ++ k →
  ∃ rd, read_all (length ms) c = (Ret ms, set_in rd c) ∧ pending rd = k.
Proof.
  intros H. revert c. induction H as [|[cmd p] ms [Hc Hp] _ IH]; intros c Hk;
    cbn [length read_all].
  - exists (d_in (c_io c)). split; [|done]. by destruct c as [[] ? ? ? ?].
  - cbn [map concat fst snd] in *. rewrite <- app_assoc in Hk.
    destruct (btcReadMsg_ok cmd p _ c (proj1 Hc) Hp Hk) as (rd & E & Hrd & _).
    rewrite (stm_bind_ret _ _ _ _ _ E). destruct (IH (set_in rd c) Hrd) as (rd2 & E2 & Hrd2).
    rewrite (stm_bind_ret _ _ _ _ _ E2). exists rd2. split; [|done].
    rewrite cmd_of_pad by done. done.
Qed.

(** Messages survive the wire: a sequence of messages sent by [btcWriteMsg] is
    what [btcReadMsg] delivers, command and payload, in order, from any
    fragmentation of the stream, and what follows stays unread. *)
Theorem btc_messages_roundtrip ms c :
  writable c → Forall msg_ok ms →
  ∃ l, write_all ms c = (Ret (), add_out l c) ∧
    ∀ c2 k, c_pending c2 = l ++ k →
      ∃ rd, read_all (length ms) c2 = (Ret ms, set_in rd c2) ∧ pending rd = k.
Proof.
  intros Hw Hm. eexists. split; [by apply write_all_ok|]. intros c2 k Hk. by apply read_all_ok.
Qed.

Lemma btc_messages_roundtrip_witness :
  ∃ l, write_all [(str "ping", []); (str "tx", str "abc")] end_a = (Ret (), add_out l end_a) ∧
    (read_all 2 (set_in (Reader [take 5 l; drop 5 l] EOF) end_b)).1 =
      Ret [(str "ping", []); (str "tx", str "abc")].
Proof.
  destruct (btc_messages_roundtrip [(str "ping", []); (str "tx", str "abc")] end_a)
    as (l & E & H); [done| |].
  { constructor; [|constructor; [|constructor]].
    - split; [|done]. split; [cbn; lia|]. by exists (str "pin"), x67.
    - split; [|done]. split; [cbn; lia|]. by exists (str "t"), x78. }
  exists l. split; [done|].
  destruct (H (set_in (Reader [take 5 l; drop 5 l] EOF) end_b) []) as (rd & Er & _).
  { unfold c_pending, pending. cbn. by rewrite !app_nil_r, take_drop. }
  cbn [length] in Er. by rewrite Er.
Defined.

(** ** The loops end *)

Lemma btcReadMsg_progress c m c' :
  btcReadMsg c = (Ret m, c') → (24 + length (c_pending c') ≤ length (c_pending c))%nat.
Proof.
  intros E. destruct (btcReadMsg_inv _ _ _ E) as (_ & _ & _ & H).
  destruct (H m eq_refl) as (h & Lh & -> & _). rewrite !length_app. lia.
Qed.

Lemma btcWriteMsg_inv cmd p c r c' :
  btcWriteMsg cmd p c = (r, c') →
  (r = Ret () ∧ writable c ∧ c' = add_out (frame cmd p) c) ∨ (∃ e, r = Fail (BtcIO e) ∧ c' = c).
Proof.
  intros E. destruct (d_werr (c_io c)) as [e|] eqn:Hw.
  - right. exists e. unfold btcWriteMsg, conn_Write, on_io, dup_write in E.
    unfold mbind, stm_bind in E. rewrite Hw in E. cbn in E. injection E as <- <-.
    split; [done|]. by destruct c as [[] ? ? ? ?].
  - left. rewrite btcWriteMsg_ok in E by done. by injection E as <- <-.
Qed.

Lemma drop_write_inv cmd p c :
  ∃ l, drop_err (btcWriteMsg cmd p) c = (Ret (), add_out l c).
Proof.
  unfold drop_err. destruct (btcWriteMsg cmd p c) as [r c'] eqn:E.
  destruct (btcWriteMsg_inv _ _ _ _ _ E) as [(-> & _ & ->)|(e & -> & ->)]; [by eexists|].
  exists []. by rewrite add_out_nil.
Qed.

Lemma request_loop_ends fuel c :
  (length (c_pending c) < fuel)%nat →
  (∃ addrs, (request_loop fuel c).1 = Ret addrs) ∨
  (∃ e, (request_loop fuel c).1 = Fail (BtcRead [] e)).
Proof.
  revert c. induction fuel as [|f IH]; intros c Hf; [lia|]. cbn [request_loop].
  unfold mbind at 1 3, stm_bind at 1 3. unfold wrap, stm_wrap.
  destruct (btcReadMsg c) as [[m|e|] c1] eqn:E; cbn [map_err]; [|right; by eexists|].
  - pose proof (btcReadMsg_progress _ _ _ E). case_bool_decide; [left; by eexists|].
    case_bool_decide; [|apply IH; lia].
    destruct (drop_write_inv (str "pong") [] c1) as [l El].
    rewrite (stm_bind_ret _ _ _ _ _ El). apply IH. change (c_pending (add_out l c1)) with (c_pending c1). lia.
  - destruct (btcReadMsg_inv _ _ _ E) as (_ & Np & _). done.
Qed.

Lemma serve_loop_ends fuel c :
  (length (c_pending c) < fuel)%nat → (serve_loop fuel c).1 = Ret ().
Proof.
  revert c. induction fuel as [|f IH]; intros c Hf; [lia|]. cbn [serve_loop].
  destruct (btcReadMsg c) as [[m|e|] c1] eqn:E; [|done|].
  - pose proof (btcReadMsg_progress _ _ _ E).
    assert (∃ l, (if bool_decide (cmd_of m = str "ping") then drop_err (btcWriteMsg (str "pong") [])
      else if bool_decide (cmd_of m = str "getaddr") then drop_err (btcWriteMsg (str "addr") [])
      else mret ()) c1 = (Ret (), add_out l c1)) as [l El].
    { case_bool_decide; [apply drop_write_inv|]. case_bool_decide; [apply drop_write_inv|].
      exists []. by rewrite add_out_nil. }
    rewrite (stm_bind_ret _ _ _ _ _ El). apply IH.
    change (c_pending (add_out l c1)) with (c_pending c1). lia.
  - destruct (btcReadMsg_inv _ _ _ E) as (_ & Np & _). done.
Qed.

Definition with_deadline (t : option Z) (c : conn) : conn :=
  Conn (c_io c) (c_local c) (c_remote c) t (c_closed c).

(** Both message loops end on every input, whatever the peer sends and however
    it is cut into pieces.  [requestAddrs] returns addresses or an error of
    sending or reading, never panics, and clears the deadline;
    [btcHandleIncoming] closes the connection and returns, unless its
    handshake panics. *)
Theorem btc_loops_end c now timeout nonce :
  (let '(r, c') := requestAddrs now timeout c in
   c_deadline c' = None ∧
   ((∃ addrs, r = Ret addrs) ∨ (∃ e, r = Fail (BtcRead [] e)) ∨
    (∃ e, r = Fail (BtcSend (str "getaddr") e)))) ∧
  (let '(r, c') := btcHandleIncoming now nonce c in
   c_closed c' = true ∧
   (r = Ret () ∨
    r = Panic ∧ (serverHandshake now nonce [] (with_deadline (Some (now + 15)) c)).1 = Panic)).
Proof.
  split.
  - unfold requestAddrs. erewrite stm_bind_ret by reflexivity.
    unfold defer_no_deadline. set (c1 := Conn _ _ _ _ _).
    match goal with |- context [?m c1] => destruct (m c1) as [r c'] eqn:E end.
    split; [done|]. destruct (btcWriteMsg (str "getaddr") [] c1) as [rw c2] eqn:Ew.
    destruct (btcWriteMsg_inv _ _ _ _ _ Ew) as [(-> & _ & ->)|(e & -> & ->)].
    + erewrite stm_bind_ret in E by (unfold wrap, stm_wrap; rewrite Ew; reflexivity).
      erewrite stm_bind_ret in E by reflexivity.
      destruct (request_loop_ends (read_fuel (add_out (frame (str "getaddr") []) c1))
        (add_out (frame (str "getaddr") []) c1)) as [[a Ha]|[e He]];
        [unfold read_fuel, c_pending; lia|rewrite E in Ha|rewrite E in He]; cbn in *; eauto.
    + erewrite stm_bind_fail in E by (unfold wrap, stm_wrap; rewrite Ew; reflexivity).
      injection E as <- <-. eauto.
  - unfold btcHandleIncoming, defer_Close. erewrite stm_bind_ret by reflexivity.
    change (Conn (c_io c) (c_local c) (c_remote c) (Some (now + 15)) (c_closed c))
      with (with_deadline (Some (now + 15)) c).
    destruct (serverHandshake now nonce [] (with_deadline (Some (now + 15)) c)) as [[b|e|] c1] eqn:E.
    + erewrite stm_bind_ret by reflexivity. erewrite stm_bind_ret by reflexivity.
      set (c2 := Conn _ _ _ _ _).
      pose proof (serve_loop_ends (read_fuel c2) c2 ltac:(unfold read_fuel, c_pending; lia)) as Hs.
      destruct (serve_loop (read_fuel c2) c2) as [r c3]. cbn in Hs. subst r. by split; [|left].
    + by split; [|left].
    + by split; [|right].
Qed.

(** ** Hostile peers *)

(** A version message whose user agent announces more than the runtime can
    allocate: 80 bytes, the prefix 0xff and an eight-byte length. *)
Definition hostile_version (pre : bytes) (n : Z) : bytes := pre ++ xff :: le_bytes 8 n.

Lemma hostile_version_panics {E} pre n :
  length pre = 80%nat → maxAlloc < n < 2 ^ 64 →
  @btcParseVersionPubkey E (hostile_version pre n) = Panic.
Proof.
  intros Hl Hn. unfold maxAlloc in Hn. unfold btcParseVersionPubkey, hostile_version.
  rewrite drop_app_exact by done. unfold btcReadVarStr.
  rewrite <- (app_nil_r (le_bytes 8 n)).
  erewrite stm_bind_ret by (apply btcReadVarInt_ff, length_le_bytes).
  rewrite le_val_le_bytes. rewrite Z.mod_small by (change (256 ^ Z.of_nat 8) with (2 ^ 64); lia).
  unfold make_u64, maxAlloc. destruct (n >? 2 ^ 48) eqn:Eg; zbool; [|lia].
  by erewrite stm_bind_panic by reflexivity.
Qed.

(** Any peer can crash the node with one message: a version message of 89 bytes
    whose user-agent length is above the largest allocation makes [make] panic,
    in the handshake of an outgoing connection and in the handler of an
    incoming one, where nothing recovers. *)
Theorem btc_hostile_version_crashes c pre n k now nonce pub :
  writable c → tcp_conn c → length pre = 80%nat → maxAlloc < n < 2 ^ 64 →
  c_pending c = frame c_version (hostile_version pre n) ++ k →
  (clientHandshake now nonce pub c).1 = Panic ∧
  (serverHandshake now nonce pub c).1 = Panic ∧ (btcHandleIncoming now nonce c).1 = Panic.
Proof.
  intros Hw Ht Hl Hn Hk. pose proof (hostile_version_panics (E := btc_err) pre n Hl Hn) as HP.
  assert (zlen (hostile_version pre n) < 2 ^ 32) as Hz.
  { unfold hostile_version, zlen. rewrite length_app, length_cons, length_le_bytes. lia. }
  assert (∀ pub c, c_pending c = frame c_version (hostile_version pre n) ++ k →
    (serverHandshake now nonce pub c).1 = Panic) as HS.
  { intros pub' c' Hk'. unfold serverHandshake.
    destruct (expect_msg_ok c_version _ _ _ version_ok Hz Hk') as (m & rd & E & Hm & _).
    rewrite (stm_bind_ret _ _ _ _ _ E), Hm.
    erewrite stm_bind_panic by (unfold stm_lift; rewrite HP; reflexivity). done. }
  split_and!; [|by apply HS|].
  - unfold clientHandshake.
    destruct (build_version_total (E := btc_err) now pub c (le_val nonce) Ht) as [v Hv].
    erewrite stm_bind_ret by (by apply send_version_ok).
    destruct (expect_msg_ok c_version _ k (add_out (frame c_version v) c) version_ok Hz)
      as (m & rd & E & Hm & _); [done|].
    rewrite (stm_bind_ret _ _ _ _ _ E), Hm.
    erewrite stm_bind_panic by (unfold stm_lift; rewrite HP; reflexivity). done.
  - unfold btcHandleIncoming, defer_Close. erewrite stm_bind_ret by reflexivity.
    match goal with |- context [serverHandshake now nonce [] ?x] =>
      pose proof (HS [] x Hk) as E; destruct (serverHandshake now nonce [] x) as [r c1] end.
    cbn in E. by subst r.
Qed.

Lemma btc_hostile_version_crashes_witness :
  (btcHandleIncoming 0 []
     (set_in (Reader [frame c_version (hostile_version (make_bytes 80) (2 ^ 63))] EOF) end_b)).1 = Panic.
Proof.
  apply (btc_hostile_version_crashes
    (set_in (Reader [frame c_version (hostile_version (make_bytes 80) (2 ^ 63))] EOF) end_b)
    (make_bytes 80) (2 ^ 63) [] 0 [] []); [done|by split|done|done|].
  unfold c_pending, pending. cbn [c_io d_in set_in rd_chunks concat]. done.
Defined.

(** ** Addresses *)

Lemma parse_addrs_bound todo left r addrs :
  (length (parse_addrs todo left r addrs) ≤ length addrs + todo)%nat ∧
  (30 * length (parse_addrs todo left r addrs) ≤ 30 * length addrs + length r)%nat.
Proof.
  revert left r addrs. induction todo as [|n IH]; intros left r addrs; cbn [parse_addrs]; [lia|].
  destruct (left <=? 0); [lia|]. unfold br_ReadFull. case_bool_decide as Hr; [|lia].
  destruct (IH (left - 1) (drop 30 r) (addrs ++ [addr_text (take 30 r)])) as [H1 H2].
  rewrite length_app, length_drop in *. cbn in *. lia.
Qed.

Lemma btcReadVarInt_consumes r n r' :
  btcReadVarInt r = (Ret n, r') → (length r' < length r)%nat.
Proof.
  unfold btcReadVarInt. destruct r as [|b r]; [done|]. erewrite stm_bind_ret by reflexivity.
  intros E. cbn [length].
  assert (∀ k, (t ← br_ReadFull k; mret (le_val t)) r = (Ret n, r') → (length r' ≤ length r)%nat) as F.
  { intros k Ek. apply stm_bind_inv in Ek as (t & r1 & Et & Ek). unfold br_ReadFull in Et.
    case_bool_decide; [|done]. injection Et as <- <-. injection Ek as _ <-. rewrite length_drop. lia. }
  destruct (bz b =? 253); [apply F in E; lia|]. destruct (bz b =? 254); [apply F in E; lia|].
  destruct (bz b =? 255); [apply F in E; lia|]. injection E as _ <-. lia.
Qed.

(** [parseAddrMsg] returns at most 1000 addresses and never more than the
    payload has room for, whatever count it announces, so an announced count
    costs the node nothing. *)
Theorem parseAddrMsg_bounds p :
  (length (parseAddrMsg p) ≤ 1000 ∧ 30 * length (parseAddrMsg p) ≤ length p)%nat.
Proof.
  unfold parseAddrMsg. generalize 1000%nat as cap. intros cap.
  destruct (btcReadVarInt p) as [[n|e|] r] eqn:E; try (cbn; lia).
  destruct (n =? 0); [cbn; lia|]. apply btcReadVarInt_consumes in E.
  destruct (parse_addrs_bound cap n r []) as [H1 H2]. cbn [length] in *. lia.
Qed.

(** An entry of the protocol is a time (4 bytes), services (8), an IP address
    (16) and a port (2).  The code takes the address from offset 8 and the port
    from offset 24: it mixes services and address, and the port is the last two
    groups of the address. *)
Lemma addr_entry_misread time services ip port :
  length time = 4%nat → length services = 8%nat → length ip = 16%nat → length port = 2%nat →
  addr_text (time ++ services ++ ip ++ port) =
    JoinHostPort (IP_String (drop 4 services ++ take 12 ip)) (itoa (be_val (take 2 (drop 12 ip)))).
Proof.
  intros Ht Hs Hi Hp. unfold addr_text. do 3 f_equal.
  - rewrite (drop_app_ge time) by lia. rewrite drop_app_le by lia.
    rewrite take_app_ge by (rewrite length_drop; lia). rewrite Ht, length_drop, Hs. f_equal.
    by rewrite take_app_le by lia.
  - rewrite drop_app_ge by lia. rewrite drop_app_ge by lia. rewrite drop_app_le by lia.
    rewrite take_app_le by (rewrite length_drop; lia). by rewrite Ht, Hs.
Qed.

(** The address 1.2.3.4:8333 of a peer that offers the service 1. *)
Example addr_entry_example :
  parseAddrMsg ([x01] ++ le_bytes 4 0 ++ le_bytes 8 1 ++
                v4InV6Prefix ++ map zb [1; 2; 3; 4] ++ be_bytes 2 8333)
  = [str "[::ffff]:258"].
Proof. vm_compute. reflexivity. Qed.

(** ** Serving and asking *)

(** What the serving loop writes for one message. *)
Definition reply (m : bytes * bytes) : bytes :=
  if bool_decide (m.1 = str "ping") then frame (str "pong") []
  else if bool_decide (m.1 = str "getaddr") then frame (str "addr") []
  else [].

Definition frames (ms : list (bytes * bytes)) : bytes := concat (map (λ m, frame m.1 m.2) ms).

Lemma drop_write_ok cmd p c :
  writable c → drop_err (btcWriteMsg cmd p) c = (Ret (), add_out (frame cmd p) c).
Proof. intros Hw. unfold drop_err. by rewrite btcWriteMsg_ok. Qed.

Lemma serve_loop_answers ms fuel c :
  writable c → Forall msg_ok ms → c_pending c = frames ms → (length ms < fuel)%nat →
  ∃ rd, serve_loop fuel c = (Ret (), add_out (concat (map reply ms)) (set_in rd c)).
Proof.
  intros Hw H. revert fuel c Hw. induction H as [|[cmd p] ms [Hc Hp] _ IH]; intros fuel c Hw Hk Hf;
    (destruct fuel as [|fuel]; [cbn in Hf; lia|]); cbn [serve_loop].
  - destruct (btcReadMsg_empty c Hk) as (e & rd & ->). exists rd. by rewrite add_out_nil.
  - unfold frames in Hk. cbn [map concat fst snd] in *.
    destruct (btcReadMsg_ok cmd p _ c (proj1 Hc) Hp Hk) as (rd & -> & Hrd & _).
    rewrite cmd_of_pad by done. cbn [length] in Hf.
    assert ((if bool_decide (cmd = str "ping") then drop_err (btcWriteMsg (str "pong") [])
      else if bool_decide (cmd = str "getaddr") then drop_err (btcWriteMsg (str "addr") [])
      else mret ()) (set_in rd c) = (Ret (), add_out (reply (cmd, p)) (set_in rd c))) as E.
    { unfold reply. cbn [fst]. case_bool_decide; [by apply drop_write_ok|].
      case_bool_decide; [by apply drop_write_ok|]. by rewrite add_out_nil. }
    rewrite (stm_bind_ret _ _ _ _ _ E).
    destruct (IH fuel (add_out (reply (cmd, p)) (set_in rd c)) Hw Hrd ltac:(lia)) as (rd2 & E2).
    exists rd2. rewrite E2. unfold add_out, set_in. cbn. by rewrite <- app_assoc.
Qed.

Lemma frames_long ms : Forall msg_ok ms → (24 * length ms ≤ length (frames ms))%nat.
Proof.
  induction 1 as [|[cmd p] ms [Hc Hp] _ IH]; [done|]. unfold frames in *. cbn [map concat length fst snd].
  pose proof (proj1 (header_fields cmd p (proj1 Hc) Hp)) as Lh.
  rewrite length_app. assert (24 ≤ length (frame cmd p))%nat; [|lia].
  unfold frame. rewrite length_app. lia.
Qed.

Lemma parse_ret {E} p :
  @btcParseVersionPubkey E p ≠ Panic → ∃ peer, @btcParseVersionPubkey E p = Ret peer.
Proof.
  unfold btcParseVersionPubkey. destruct (btcReadVarStr (drop 80 p)) as [[ua|e|] r];
    [|by eexists|done].
  destruct (Index _ ua) as [n|]; [|by eexists]. unfold slice_from, slice_to.
  case_bool_decide; [|done]. cbn [mbind outcome_bind]. cbv zeta.
  generalize (drop (n + 7) ua) as l. intros l.
  generalize (if bool_decide (128 ≤ default (length l) (IndexByte x2f l))%nat
    then 128%nat else default (length l) (IndexByte x2f l)) as q.
  intros q Hpar. case_bool_decide; [by eexists|done].
Qed.

(** A peer is answered message by message: after the handshake, a node that
    receives any sequence of messages writes one pong per ping, one empty addr
    message per getaddr, in that order, and nothing else, and closes the
    connection when the stream ends. *)
Theorem btc_serves_peer c now nonce v pv ms :
  writable c → btcBuildVersion (E := btc_err) now [] (c_local c) (c_remote c) (le_val nonce) = Ret v →
  zlen pv < 2 ^ 32 → (btcParseVersionPubkey (E := btc_err) pv ≠ Panic) →
  Forall msg_ok ms → c_pending c = hello pv ++ frames ms →
  ∃ rd, btcHandleIncoming now nonce c =
    (Ret (), (conn_Close (with_deadline None
       (add_out (hello v ++ concat (map reply ms)) (set_in rd c)))).2).
Proof.
  intros Hw Hv Hz Hpar Hm Hk.
  assert (∃ peer, btcParseVersionPubkey (E := btc_err) pv = Ret peer) as [peer Hpeer]
    by (by apply parse_ret).
  unfold btcHandleIncoming, defer_Close. erewrite stm_bind_ret by reflexivity.
  destruct (serverHandshake_ok now nonce [] (with_deadline (Some (now + 15)) c) v pv peer (frames ms))
    as (rd & E & Hrd); [done..|].
  change (Conn (c_io c) (c_local c) (c_remote c) (Some (now + 15)) (c_closed c))
    with (with_deadline (Some (now + 15)) c). rewrite E.
  erewrite stm_bind_ret by reflexivity. erewrite stm_bind_ret by reflexivity.
  set (c2 := Conn _ _ _ _ _).
  destruct (serve_loop_answers ms (read_fuel c2) c2) as (rd2 & E2); [done|done|done| |].
  { unfold read_fuel. change (pending (d_in (c_io c2))) with (pending rd). rewrite Hrd.
    pose proof (frames_long ms Hm). lia. }
  rewrite E2. exists rd2. unfold c2, add_out, set_in, with_deadline. cbn.
  by rewrite <- app_assoc.
Qed.

Definition two_asks : list (bytes * bytes) := [(str "ping", []); (str "getaddr", [])].

Lemma btc_serves_peer_witness :
  ∃ v c', btcHandleIncoming 0 []
      (set_in (Reader [hello (make_bytes 80) ++ frames two_asks] EOF) end_b) = (Ret (), c') ∧
    d_out (c_io c') = hello v ++ frame (str "pong") [] ++ frame (str "addr") [] ∧
    c_closed c' = true.
Proof.
  destruct (build_version_total (E := btc_err) 0 [] end_b (le_val [])) as [v Hv]; [by split|].
  destruct (btc_serves_peer
    (set_in (Reader [hello (make_bytes 80) ++ frames two_asks] EOF) end_b) 0 [] v
    (make_bytes 80) two_asks) as (rd & E); [done|exact Hv|done|done| | |].
  { constructor; [|constructor; [|constructor]].
    - split; [|done]. split; [cbn; lia|]. by exists (str "pin"), x67.
    - split; [|done]. split; [cbn; lia|]. by exists (str "getadd"), x72. }
  { unfold c_pending, pending. cbn [c_io d_in set_in rd_chunks concat]. by rewrite app_nil_r. }
  exists v. eexists. split; [exact E|]. by split.
Defined.

(** Asking such a node for addresses gives none: its answer has no count. *)
Lemma requestAddrs_from_node c now timeout k :
  writable c → c_pending c = frame (str "addr") [] ++ k →
  (requestAddrs now timeout c).1 = Ret [].
Proof.
  intros Hw Hk. unfold requestAddrs. erewrite stm_bind_ret by reflexivity.
  unfold defer_no_deadline. set (c1 := Conn _ _ _ _ _).
  assert (wrap (BtcSend (str "getaddr")) (btcWriteMsg (str "getaddr") []) c1 =
    (Ret (), add_out (frame (str "getaddr") []) c1)) as Ew
    by (unfold wrap, stm_wrap; by rewrite btcWriteMsg_ok).
  rewrite (stm_bind_ret _ _ _ _ _ Ew). erewrite stm_bind_ret by reflexivity.
  destruct (btcReadMsg_ok (str "addr") [] k (add_out (frame (str "getaddr") []) c1))
    as (rd & E & _ & _); [cbn; lia|done|done|].
  cbn [request_loop read_fuel].
  erewrite stm_bind_ret by (unfold wrap, stm_wrap; rewrite E; reflexivity).
  rewrite cmd_of_pad; [done|]. split; [cbn; lia|]. by exists (str "add"), x72.
Qed.

(** ** Dialling and the two lists of the bootstrap *)

(** A connection that is given up is closed; one that is handed over has no
    deadline and is as open as it was dialled. *)
Lemma connectPeer_no_leak c0 now timeout nonce pub r c' :
  connectPeer (Ret c0) now timeout nonce pub = (r, Some c') →
  match r with
  | Ret (c, _) => c = c' ∧ c_deadline c' = None
  | Fail _ => c_closed c' = true
  | Panic => True
  end.
Proof.
  unfold connectPeer. intros E. case_match. case_match; by injection E as <- <-.
Qed.

(** Every address dialled ends up in exactly one of the two lists, whatever the
    order in which the goroutines finish. *)
Lemma connect_phase_partition finished :
  map p_Addr (connect_phase finished).1 ++ (connect_phase finished).2 ≡ₚ map fst finished.
Proof.
  unfold connect_phase.
  assert (∀ fin acc,
    map p_Addr (foldl connect_one acc fin).1 ++ (foldl connect_one acc fin).2
    ≡ₚ (map p_Addr acc.1 ++ acc.2) ++ map fst fin) as F; [|apply (F finished ([], []))].
  induction fin as [|[addr [e|[c pub]]] fin IH]; intros acc; cbn [foldl map].
  - by rewrite app_nil_r.
  - rewrite IH. cbn [connect_one fst snd]. solve_Permutation.
  - rewrite IH. cbn [connect_one fst snd]. rewrite map_app. cbn [map p_Addr]. solve_Permutation.
Qed.
