(* ===== verification/CircuitPb.v ===== *)
(** * Circuit-relay messages (relayhub/circuitpb.go, relayhub/circuitv1.go)

    The hand-written protocol-buffer encoder and decoder: records for the
    messages, one encoder and one decoder per message, the [pbDecoder] cursor
    with its [int] arithmetic at 64 bits, and the length-prefixed framing on
    streams.  The theorems: every message decodes to itself, decoding always
    terminates, [readBytes] is specified on every branch (the crafted lengths
    that make it panic included), and framing round trips. *)

From stdpp Require Import pretty.
From S2P Require Import Prelude GoIO Varint.
Local Open Scope Z_scope.

(** ** Constants *)

Definition StatusUnused : Z := 0.
Definition StatusOK : Z := 100.
Definition StatusReservationRefused : Z := 200.
Definition StatusResourceLimitExceeded : Z := 201.
Definition StatusPermissionDenied : Z := 202.
Definition StatusConnectionFailed : Z := 203.
Definition StatusNoReservation : Z := 204.
Definition StatusMalformedMessage : Z := 400.
Definition StatusUnexpectedMessage : Z := 401.

Definition HopTypeReserve : Z := 0.
Definition HopTypeConnect : Z := 1.
Definition HopTypeStatus : Z := 2.

Definition StopTypeConnect : Z := 0.
Definition StopTypeStatus : Z := 1.

(** ** Messages

    A [[]byte] whose [nil] value matters is an [option]. *)

Record Peer := mkPeer { ID : option bytes; Peer_Addrs : list bytes }.

Record Reservation := mkReservation {
  Expire : Z;                       (* uint64 *)
  Resv_Addrs : list bytes;
  Voucher : option bytes
}.

Record Limit := mkLimit { Duration : Z (* uint32 *); Data : Z (* uint64 *) }.

Record HopMessage := mkHop {
  Hop_Type : Z;                     (* int32 *)
  Hop_Peer : option Peer;
  Hop_Reservation : option Reservation;
  Hop_Limit : option Limit;
  Hop_Status : Z                    (* int32 *)
}.

Record StopMessage := mkStop {
  Stop_Type : Z;                    (* int32 *)
  Stop_Peer : option Peer;
  Stop_Limit : option Limit;
  Stop_Status : Z                   (* int32 *)
}.

Record CircuitV1Message := mkV1 {
  V1_Type : Z;                      (* int *)
  SrcPeer : option Peer;
  DstPeer : option Peer;
  Code : Z                          (* int *)
}.

(** ** Encoders *)

Definition encodeTag (field wireType : Z) : bytes :=
  encodeVarint (Z.lor (u64 (Z.shiftl field 3)) (u64 wireType)).

Definition pbEncodeVarintField (field v : Z) : bytes :=
  encodeTag field 0 ++ encodeVarint v.

Definition pbEncodeLengthDelimField (field : Z) (data : bytes) : bytes :=
  encodeTag field 2 ++ encodeVarint (u64 (zlen data)) ++ data.

Fixpoint pbEncodeLengthDelimFields (field : Z) (items : list bytes) : bytes :=
  match items with
  | [] => []
  | item :: items' =>
      (encodeTag field 2 ++ encodeVarint (u64 (zlen item)) ++ item)
        ++ pbEncodeLengthDelimFields field items'
  end.

(** [if b { append(field) }] *)
Definition when (c : bool) (l : bytes) : bytes := if c then l else [].

(** [if p != nil { append(field(encode(p))) }] *)
Definition opt_field {A} (field : Z) (enc : A → bytes) (o : option A) : bytes :=
  match o with
  | Some a => pbEncodeLengthDelimField field (enc a)
  | None => []
  end.

Definition encodePeer (p : option Peer) : bytes :=
  match p with
  | None => []
  | Some p =>
      opt_field 1 id (ID p) ++
      when (bool_decide (0 < length (Peer_Addrs p))%nat)
        (pbEncodeLengthDelimFields 2 (Peer_Addrs p))
  end.

Definition encodeReservation (r : option Reservation) : bytes :=
  match r with
  | None => []
  | Some r =>
      when (Expire r >? 0) (pbEncodeVarintField 1 (Expire r)) ++
      when (bool_decide (0 < length (Resv_Addrs r))%nat)
        (pbEncodeLengthDelimFields 2 (Resv_Addrs r)) ++
      opt_field 3 id (Voucher r)
  end.

Definition encodeLimit (l : option Limit) : bytes :=
  match l with
  | None => []
  | Some l =>
      when (Duration l >? 0) (pbEncodeVarintField 1 (Duration l)) ++
      when (Data l >? 0) (pbEncodeVarintField 2 (Data l))
  end.

Definition encodeHopMessage (msg : HopMessage) : bytes :=
  pbEncodeVarintField 1 (u64 (Hop_Type msg)) ++
  opt_field 2 (λ p, encodePeer (Some p)) (Hop_Peer msg) ++
  opt_field 3 (λ r, encodeReservation (Some r)) (Hop_Reservation msg) ++
  opt_field 4 (λ l, encodeLimit (Some l)) (Hop_Limit msg) ++
  when (Hop_Status msg >? 0) (pbEncodeVarintField 5 (u64 (Hop_Status msg))).

Definition encodeStopMessage (msg : StopMessage) : bytes :=
  pbEncodeVarintField 1 (u64 (Stop_Type msg)) ++
  opt_field 2 (λ p, encodePeer (Some p)) (Stop_Peer msg) ++
  opt_field 3 (λ l, encodeLimit (Some l)) (Stop_Limit msg) ++
  when (Stop_Status msg >? 0) (pbEncodeVarintField 4 (u64 (Stop_Status msg))).

Definition encodeCircuitV1 (msg : CircuitV1Message) : bytes :=
  pbEncodeVarintField 1 (u64 (V1_Type msg)) ++
  opt_field 2 (λ p, encodePeer (Some p)) (SrcPeer msg) ++
  opt_field 3 (λ p, encodePeer (Some p)) (DstPeer msg) ++
  when (Code msg >? 0) (pbEncodeVarintField 4 (u64 (Code msg))).

Fixpoint encodeAddressInfo_addrs (addrs : list bytes) : bytes :=
  match addrs with
  | [] => []
  | addr :: addrs' => pbEncodeLengthDelimField 2 addr ++ encodeAddressInfo_addrs addrs'
  end.

Definition encodeAddressInfo (id : bytes) (addrs : list bytes) : bytes :=
  pbEncodeLengthDelimField 1 id ++ encodeAddressInfo_addrs addrs.

Definition encodePeerRecord (seq : Z) (id : bytes) (addrs : list bytes) : bytes :=
  pbEncodeVarintField 1 seq ++
  pbEncodeLengthDelimField 2 (encodeAddressInfo id addrs).

Definition encodeEnvelope (pubKey payloadType payload signature : bytes) : bytes :=
  pbEncodeLengthDelimField 1 pubKey ++
  pbEncodeLengthDelimField 2 payloadType ++
  pbEncodeLengthDelimField 3 payload ++
  pbEncodeLengthDelimField 4 signature.

(** ** The decoder *)

Record pbDecoder := mkDec { data : bytes; pos : Z }.

Definition newPbDecoder (data : bytes) : pbDecoder := mkDec data 0.

(** The errors: [PbWireType] and [PbNested] carry the field they name;
    [PbFuel] is the fuel of the loop running out, which is never returned
    ([decoders_terminate]). *)
Inductive pb_err : Type :=
| PbVarint
| PbOverflow
| PbEOF
| PbWireType (field wt : Z)
| PbNested (field : Z) (e : pb_err)
| PbFuel.

Abbreviation dec := (stm pbDecoder pb_err).

(** [d.data[d.pos:]] *)
Definition remaining {E} (d : pbDecoder) : outcome E bytes :=
  if (pos d <? 0) || (pos d >? zlen (data d)) then Panic
  else Ret (drop (Z.to_nat (pos d)) (data d)).

Definition advance (n : Z) (d : pbDecoder) : pbDecoder := mkDec (data d) (i64 (pos d + n)).

Definition dec_readVarint : dec Z := fun d =>
  match @remaining pb_err d with
  | Ret l =>
      let '(v, n) := decodeVarint l in
      if n <=? 0 then (Fail PbVarint, d) else (Ret v, advance n d)
  | Fail e => (Fail e, d)
  | Panic => (Panic, d)
  end.

Definition readBytes_body (l : Z) : dec bytes := fun d =>
    if i64 (pos d + i64 l) >? zlen (data d) then (Fail PbOverflow, d)
    else
      match make_u64 l, @remaining pb_err d with
      | Ret b, Ret src => (Ret (copy_into b src), advance (i64 l) d)
      | Fail e, _ | _, Fail e => (Fail e, d)
      | Panic, _ | _, Panic => (Panic, d)
      end.

Definition readBytes : dec bytes := dec_readVarint ≫= readBytes_body.

Definition decodeTag : dec (Z * Z) := fun d =>
  if pos d >=? zlen (data d) then (Fail PbEOF, d)
  else
    match dec_readVarint d with
    | (Ret v, d') => (Ret (i64 (Z.shiftr v 3), i64 (Z.land v 7)), d')
    | (Fail e, d') => (Fail e, d')
    | (Panic, d') => (Panic, d')
    end.

(** The loop all decoders share: [handle field wireType a] is the body of the
    [switch], and an error of [decodeTag] breaks out of the loop. *)
Section Loop.
Context {A : Type} (handle : Z → Z → A → dec A).

Fixpoint pb_loop (fuel : nat) (a : A) : dec A := fun d =>
  match fuel with
  | O => (Fail PbFuel, d)
  | S fuel' =>
      if pos d <? zlen (data d) then
        match decodeTag d with
        | (Fail _, d') => (Ret a, d')
        | (Panic, d') => (Panic, d')
        | (Ret (field, wt), d') => (handle field wt a ≫= pb_loop fuel') d'
        end
      else (Ret a, d)
  end.

(** Each turn of the loop consumes a byte at least. *)
Definition pb_decode (a : A) (data : bytes) : outcome pb_err A :=
  fst (pb_loop (S (length data)) a (newPbDecoder data)).
End Loop.

(** [if wt != want { return nil, fmt.Errorf(...) }] *)
Definition expect (field wt want : Z) : dec unit :=
  if wt =? want then mret () else stm_fail (PbWireType field wt).

(** A call whose error the source drops: the cursor keeps what it did. *)
Definition ignore {A} (m : dec A) : dec unit := fun d =>
  match m d with
  | (Panic, d') => (Panic, d')
  | (_, d') => (Ret (), d')
  end.

(** The [default] branch of every decoder. *)
Definition skip (wt : Z) : dec unit :=
  if wt =? 0 then ignore dec_readVarint
  else if wt =? 2 then ignore readBytes
  else mret ().

(** [fmt.Errorf("...: %w", err)] around a nested decoder. *)
Definition nested (field : Z) (e : pb_err) : pb_err :=
  match e with PbFuel => PbFuel | _ => PbNested field e end.

Definition sub {A} (field : Z) (decode : bytes → outcome pb_err A) (b : bytes) : dec A :=
  stm_lift (map_err (nested field) (decode b)).

Definition peer_field (field wt : Z) (p : Peer) : dec Peer :=
  if field =? 1 then
    _ ← expect 1 wt 2; b ← readBytes;
    mret (mkPeer (Some b) (Peer_Addrs p))
  else if field =? 2 then
    _ ← expect 2 wt 2; addr ← readBytes;
    mret (mkPeer (ID p) (Peer_Addrs p ++ [addr]))
  else
    _ ← skip wt; mret p.

Definition decodePeer (data : bytes) : outcome pb_err Peer :=
  pb_decode peer_field (mkPeer None []) data.

Definition reservation_field (field wt : Z) (r : Reservation) : dec Reservation :=
  if field =? 1 then
    _ ← expect 1 wt 0; v ← dec_readVarint;
    mret (mkReservation v (Resv_Addrs r) (Voucher r))
  else if field =? 2 then
    _ ← expect 2 wt 2; addr ← readBytes;
    mret (mkReservation (Expire r) (Resv_Addrs r ++ [addr]) (Voucher r))
  else if field =? 3 then
    _ ← expect 3 wt 2; b ← readBytes;
    mret (mkReservation (Expire r) (Resv_Addrs r) (Some b))
  else
    _ ← skip wt; mret r.

Definition decodeReservation (data : bytes) : outcome pb_err Reservation :=
  pb_decode reservation_field (mkReservation 0 [] None) data.

Definition limit_field (field wt : Z) (l : Limit) : dec Limit :=
  if field =? 1 then
    _ ← expect 1 wt 0; v ← dec_readVarint;
    mret (mkLimit (u32 v) (Data l))
  else if field =? 2 then
    _ ← expect 2 wt 0; v ← dec_readVarint;
    mret (mkLimit (Duration l) v)
  else
    _ ← skip wt; mret l.

Definition decodeLimit (data : bytes) : outcome pb_err Limit :=
  pb_decode limit_field (mkLimit 0 0) data.

Definition hop_field (field wt : Z) (m : HopMessage) : dec HopMessage :=
  if field =? 1 then
    _ ← expect 1 wt 0; v ← dec_readVarint;
    mret (mkHop (i32 v) (Hop_Peer m) (Hop_Reservation m) (Hop_Limit m) (Hop_Status m))
  else if field =? 2 then
    _ ← expect 2 wt 2; b ← readBytes; peer ← sub 2 decodePeer b;
    mret (mkHop (Hop_Type m) (Some peer) (Hop_Reservation m) (Hop_Limit m) (Hop_Status m))
  else if field =? 3 then
    _ ← expect 3 wt 2; b ← readBytes; resv ← sub 3 decodeReservation b;
    mret (mkHop (Hop_Type m) (Hop_Peer m) (Some resv) (Hop_Limit m) (Hop_Status m))
  else if field =? 4 then
    _ ← expect 4 wt 2; b ← readBytes; limit ← sub 4 decodeLimit b;
    mret (mkHop (Hop_Type m) (Hop_Peer m) (Hop_Reservation m) (Some limit) (Hop_Status m))
  else if field =? 5 then
    _ ← expect 5 wt 0; v ← dec_readVarint;
    mret (mkHop (Hop_Type m) (Hop_Peer m) (Hop_Reservation m) (Hop_Limit m) (i32 v))
  else
    _ ← skip wt; mret m.

Definition decodeHopMessage (data : bytes) : outcome pb_err HopMessage :=
  pb_decode hop_field (mkHop 0 None None None 0) data.

Definition stop_field (field wt : Z) (m : StopMessage) : dec StopMessage :=
  if field =? 1 then
    _ ← expect 1 wt 0; v ← dec_readVarint;
    mret (mkStop (i32 v) (Stop_Peer m) (Stop_Limit m) (Stop_Status m))
  else if field =? 2 then
    _ ← expect 2 wt 2; b ← readBytes; peer ← sub 2 decodePeer b;
    mret (mkStop (Stop_Type m) (Some peer) (Stop_Limit m) (Stop_Status m))
  else if field =? 3 then
    _ ← expect 3 wt 2; b ← readBytes; limit ← sub 3 decodeLimit b;
    mret (mkStop (Stop_Type m) (Stop_Peer m) (Some limit) (Stop_Status m))
  else if field =? 4 then
    _ ← expect 4 wt 0; v ← dec_readVarint;
    mret (mkStop (Stop_Type m) (Stop_Peer m) (Stop_Limit m) (i32 v))
  else
    _ ← skip wt; mret m.

Definition decodeStopMessage (data : bytes) : outcome pb_err StopMessage :=
  pb_decode stop_field (mkStop 0 None None 0) data.

Definition v1_field (field wt : Z) (m : CircuitV1Message) : dec CircuitV1Message :=
  if field =? 1 then
    _ ← expect 1 wt 0; v ← dec_readVarint;
    mret (mkV1 (i64 v) (SrcPeer m) (DstPeer m) (Code m))
  else if field =? 2 then
    _ ← expect 2 wt 2; b ← readBytes; peer ← sub 2 decodePeer b;
    mret (mkV1 (V1_Type m) (Some peer) (DstPeer m) (Code m))
  else if field =? 3 then
    _ ← expect 3 wt 2; b ← readBytes; peer ← sub 3 decodePeer b;
    mret (mkV1 (V1_Type m) (SrcPeer m) (Some peer) (Code m))
  else if field =? 4 then
    _ ← expect 4 wt 0; v ← dec_readVarint;
    mret (mkV1 (V1_Type m) (SrcPeer m) (DstPeer m) (i64 v))
  else
    _ ← skip wt; mret m.

Definition decodeCircuitV1 (data : bytes) : outcome pb_err CircuitV1Message :=
  pb_decode v1_field (mkV1 0 None None 0) data.

(** ** Framing *)

(** [write] is the [Write] of the [io.Writer]. *)
Definition writePbMessage {W E} (write : bytes → stm W E Z) (msg : bytes) : stm W E unit :=
  _ ← write (encodeVarint (u64 (zlen msg)) ++ msg); mret ().

Definition readPbMessage_body (l : Z) : stm reader varint_err bytes := fun r =>
  if l >? maxAlloc then (Panic, r)
  else stm_wrap VarintIO (ReadFull (Z.to_nat l)) r.

Definition readPbMessage : stm reader varint_err bytes := readVarint ≫= readPbMessage_body.

(** ** Status names *)

(** [fmt.Sprintf("UNKNOWN(%d)", s)] *)
Definition unknown (s : Z) : string := ("UNKNOWN(" +:+ pretty s +:+ ")")%string.

Definition statusString (s : Z) : string :=
  if s =? StatusOK then "OK"
  else if s =? StatusReservationRefused then "RESERVATION_REFUSED"
  else if s =? StatusResourceLimitExceeded then "RESOURCE_LIMIT_EXCEEDED"
  else if s =? StatusPermissionDenied then "PERMISSION_DENIED"
  else if s =? StatusConnectionFailed then "CONNECTION_FAILED"
  else if s =? StatusNoReservation then "NO_RESERVATION"
  else if s =? StatusMalformedMessage then "MALFORMED_MESSAGE"
  else if s =? StatusUnexpectedMessage then "UNEXPECTED_MESSAGE"
  else unknown s.

Definition CircuitV1StatusSuccess : Z := 100.
Definition CircuitV1StatusHopNoConnToDst : Z := 260.
Definition CircuitV1StatusHopCantDialDst : Z := 261.
Definition CircuitV1StatusHopCantOpenDstStream : Z := 262.
Definition CircuitV1StatusHopCantSpeakRelay : Z := 270.
Definition CircuitV1StatusHopCantRelayToSelf : Z := 280.
Definition CircuitV1StatusMalformedMessage : Z := 400.

Definition CircuitV1TypeHop : Z := 1.
Definition CircuitV1TypeStop : Z := 2.
Definition CircuitV1TypeStatus : Z := 3.
Definition CircuitV1TypeCanHop : Z := 4.

Definition circuitV1StatusString (code : Z) : string :=
  if code =? CircuitV1StatusSuccess then "SUCCESS"
  else if code =? CircuitV1StatusHopNoConnToDst then "HOP_NO_CONN_TO_DST"
  else if code =? CircuitV1StatusHopCantDialDst then "HOP_CANT_DIAL_DST"
  else if code =? CircuitV1StatusHopCantOpenDstStream then "HOP_CANT_OPEN_DST_STREAM"
  else if code =? CircuitV1StatusHopCantSpeakRelay then "HOP_CANT_SPEAK_RELAY"
  else if code =? CircuitV1StatusHopCantRelayToSelf then "HOP_CANT_RELAY_TO_SELF"
  else if code =? CircuitV1StatusMalformedMessage then "MALFORMED_MESSAGE"
  else unknown code.

(** ** The cursor *)

Definition dec_ok (d : pbDecoder) : Prop :=
  0 ≤ pos d ≤ zlen (data d) ∧ zlen (data d) ≤ maxAlloc.

(** The bytes the cursor has not passed yet. *)
Definition rest (d : pbDecoder) : bytes := drop (Z.to_nat (pos d)) (data d).

Lemma zlen_rest d : dec_ok d → zlen (rest d) = zlen (data d) - pos d.
Proof. intros [H _]. unfold rest, zlen in *. rewrite length_drop. lia. Qed.

Lemma remaining_ok {E} d : dec_ok d → @remaining E d = Ret (rest d).
Proof.
  intros [H _]. unfold remaining.
  destruct (pos d <? 0) eqn:E1; zbool; [lia|].
  destruct (pos d >? zlen (data d)) eqn:E2; zbool; [lia|]. done.
Qed.

Lemma new_ok l : zlen l ≤ maxAlloc → dec_ok (newPbDecoder l).
Proof. intros H. unfold dec_ok, zlen in *. cbn. lia. Qed.

Lemma advance_pos d n : dec_ok d → 0 ≤ n ≤ zlen (rest d) → pos (advance n d) = pos d + n.
Proof.
  intros H Hn. rewrite zlen_rest in Hn by done. destruct H as [? ?]. cbn.
  apply wrap_s_small; unfold maxAlloc in *; lia.
Qed.

Lemma advance_ok d n :
  dec_ok d → 0 ≤ n ≤ zlen (rest d) →
  dec_ok (advance n d) ∧ rest (advance n d) = drop (Z.to_nat n) (rest d).
Proof.
  intros H Hn. pose proof (advance_pos d n H Hn) as Hp.
  pose proof (zlen_rest d H). unfold dec_ok, rest in *. rewrite Hp. cbn [data advance].
  destruct H as [? ?]. split; [lia|]. rewrite drop_drop. f_equal. lia.
Qed.

Lemma advance_app d l k :
  dec_ok d → rest d = l ++ k → dec_ok (advance (zlen l) d) ∧ rest (advance (zlen l) d) = k.
Proof.
  intros H E. destruct (advance_ok d (zlen l) H) as [H1 H2].
  - rewrite E, zlen_app. unfold zlen. lia.
  - split; [done|]. rewrite H2, E. unfold zlen. by rewrite Nat2Z.id, drop_app_length.
Qed.

(** ** The primitive readers *)

Lemma dec_readVarint_ok d :
  dec_ok d →
  dec_readVarint d =
    (let '(v, n) := decodeVarint (rest d) in
     if n <=? 0 then (Fail PbVarint, d) else (Ret v, advance n d)).
Proof. intros H. unfold dec_readVarint. by rewrite remaining_ok. Qed.

Lemma dec_readVarint_app d v k :
  dec_ok d → 0 ≤ v < 2 ^ 64 → rest d = encodeVarint v ++ k →
  dec_readVarint d = (Ret v, advance (zlen (encodeVarint v)) d).
Proof.
  intros H Hv E. rewrite dec_readVarint_ok, E, decodeVarint_encodeVarint by done.
  pose proof (zlen_encodeVarint v). by destruct (_ <=? 0) eqn:E2; zbool; [lia|].
Qed.

(** What [readBytes] does once the length [l] is read. *)
Lemma readBytes_body_spec l d :
  dec_ok d → 0 ≤ l < 2 ^ 64 →
  readBytes_body l d =
    if l <=? zlen (rest d) then (Ret (take (Z.to_nat l) (rest d)), advance l d)
    else if pos d + l <? 2 ^ 63 then (Fail PbOverflow, d)
    else (Panic, d).
Proof.
  intros H Hl. pose proof (zlen_rest d H) as Hr. pose proof H as [Hp Hm].
  unfold readBytes_body. rewrite remaining_ok by done. unfold make_u64, maxAlloc in *.
  assert (i64 (pos d + i64 l) =
          if pos d + l <? 2 ^ 63 then pos d + l else pos d + l - 2 ^ 64) as ->.
  { destruct (pos d + l <? 2 ^ 63) eqn:E; zbool.
    - rewrite (i64_small l) by lia. apply i64_small. lia.
    - destruct (Z.lt_ge_cases l (2 ^ 63)).
      + rewrite (i64_small l) by lia. by rewrite i64_high by lia.
      + rewrite (i64_high l) by lia. rewrite i64_small by lia. lia. }
  destruct (l <=? zlen (rest d)) eqn:E1; zbool.
  - destruct (pos d + l <? 2 ^ 63) eqn:E2; zbool; [|lia].
    destruct (pos d + l >? zlen (data d)) eqn:E3; zbool; [lia|].
    destruct (l >? 2 ^ 48) eqn:E4; zbool; [lia|].
    rewrite i64_small by lia. do 2 f_equal. unfold copy_into.
    rewrite length_make_bytes, drop_make_bytes.
    replace (Z.to_nat l - length (rest d))%nat with 0%nat by (unfold zlen in *; lia).
    cbn. by rewrite app_nil_r.
  - destruct (pos d + l <? 2 ^ 63) eqn:E2; zbool.
    + destruct (pos d + l >? zlen (data d)) eqn:E3; zbool; [done|lia].
    + destruct (pos d + l - 2 ^ 64 >? zlen (data d)) eqn:E3; zbool; [lia|].
      destruct (l >? 2 ^ 48) eqn:E4; zbool; [done|lia].
Qed.

Lemma readBytes_app d b k :
  dec_ok d → rest d = encodeVarint (u64 (zlen b)) ++ b ++ k →
  ∃ d', readBytes d = (Ret b, d') ∧ dec_ok d' ∧ data d' = data d ∧ rest d' = k.
Proof.
  intros H E. assert (zlen b ≤ maxAlloc) as Hb.
  { pose proof (zlen_rest d H) as Hz. destruct H as [? ?].
    rewrite E, !zlen_app in Hz. unfold zlen in *. lia. }
  assert (u64 (zlen b) = zlen b) as Eu.
  { apply wrap_u_small. unfold maxAlloc, zlen in *. lia. }
  rewrite Eu in E.
  assert (0 ≤ zlen b < 2 ^ 64) as Hv by (unfold maxAlloc, zlen in *; lia).
  destruct (advance_app d _ _ H E) as [H1 E1].
  unfold readBytes. erewrite stm_bind_ret by (by eapply dec_readVarint_app).
  rewrite readBytes_body_spec, E1 by done.
  replace (zlen b <=? zlen (b ++ k)) with true
    by (symmetry; apply Z.leb_le; rewrite zlen_app; unfold zlen; lia).
  destruct (advance_app _ _ _ H1 E1) as [H2 E2].
  eexists. split; [|split; [exact H2|split; [done|exact E2]]].
  unfold zlen. by rewrite Nat2Z.id, take_app_length.
Qed.

(** Tags of the fields the messages use. *)
Lemma tag_value f wt :
  0 ≤ f < 2 ^ 32 → 0 ≤ wt < 8 →
  Z.lor (u64 (Z.shiftl f 3)) (u64 wt) = f * 8 + wt.
Proof.
  intros Hf Hw. rewrite Z.shiftl_mul_pow2 by lia. change (2 ^ 3) with 8.
  unfold u64. rewrite !wrap_u_small by lia. rewrite Z.lor_comm.
  replace (f * 8) with (Z.shiftl f 3) at 1 by (by rewrite Z.shiftl_mul_pow2).
  rewrite lor_shiftl_add by lia. change (2 ^ 3) with 8. lia.
Qed.

Lemma decodeTag_app d f wt k :
  dec_ok d → 0 ≤ f < 2 ^ 32 → 0 ≤ wt < 8 → rest d = encodeTag f wt ++ k →
  ∃ d', decodeTag d = (Ret (f, wt), d') ∧ dec_ok d' ∧ data d' = data d ∧ rest d' = k ∧
    pos d < zlen (data d).
Proof.
  intros H Hf Hw E. unfold encodeTag in E. rewrite tag_value in E by done.
  pose proof (zlen_encodeVarint (f * 8 + wt)).
  assert (pos d < zlen (data d)) as Hp.
  { pose proof (zlen_rest d H) as Hz. rewrite E, zlen_app in Hz. unfold zlen in *. lia. }
  destruct (advance_app _ _ _ H E) as [H1 E1].
  eexists. split; [|split; [exact H1|split; [done|split; [exact E1|done]]]].
  unfold decodeTag. destruct (pos d >=? zlen (data d)) eqn:E2; zbool; [lia|].
  rewrite (dec_readVarint_app d (f * 8 + wt) k) by (done || lia).
  rewrite Z.shiftr_div_pow2 by lia. change 7 with (Z.ones 3). rewrite Z.land_ones by lia.
  change (2 ^ 3) with 8. rewrite Z.div_add_l, Z.div_small, Z.add_0_r by lia.
  rewrite Z.add_comm, Z_mod_plus_full, Z.mod_small by lia.
  by rewrite !i64_small by lia.
Qed.

(** ** Decoding what the encoders produce

    [feeds h a l b]: the loop with handler [h], having accumulated [a] and
    finding the bytes [l], consumes them and holds [b]. *)

Section Feeds.
Context {A : Type} (h : Z → Z → A → dec A).

Definition feeds (a : A) (l : bytes) (b : A) : Prop :=
  ∀ d k, dec_ok d → rest d = l ++ k →
  ∃ n d', (n ≤ length l)%nat ∧ dec_ok d' ∧ data d' = data d ∧ rest d' = k ∧
    ∀ fuel, pb_loop h (n + fuel) a d = pb_loop h fuel b d'.

Lemma feeds_nil a : feeds a [] a.
Proof. intros d k H E. exists 0%nat, d. auto. Qed.

Lemma feeds_app a b c l1 l2 : feeds a l1 b → feeds b l2 c → feeds a (l1 ++ l2) c.
Proof.
  intros F1 F2 d k H E. rewrite <- app_assoc in E.
  destruct (F1 d _ H E) as (n1 & d1 & L1 & H1 & D1 & R1 & Q1).
  destruct (F2 d1 _ H1 R1) as (n2 & d2 & L2 & H2 & D2 & R2 & Q2).
  exists (n1 + n2)%nat, d2. rewrite length_app.
  split; [lia|]. split; [done|]. split; [congruence|]. split; [done|].
  intros fuel. by rewrite <- Nat.add_assoc, Q1, Q2.
Qed.

(** One field: its tag, and a payload that the handler reads. *)
Lemma feeds_field a b f wt payload :
  0 ≤ f < 2 ^ 32 → 0 ≤ wt < 8 →
  (∀ d k, dec_ok d → rest d = payload ++ k →
     ∃ d', h f wt a d = (Ret b, d') ∧ dec_ok d' ∧ data d' = data d ∧ rest d' = k) →
  feeds a (encodeTag f wt ++ payload) b.
Proof.
  intros Hf Hw Hh d k H E. rewrite <- app_assoc in E.
  destruct (decodeTag_app d f wt _ H Hf Hw E) as (d1 & T & H1 & D1 & R1 & Hp).
  destruct (Hh d1 k H1 R1) as (d2 & T2 & H2 & D2 & R2).
  exists 1%nat, d2. split.
  { rewrite length_app.
    pose proof (zlen_encodeVarint (Z.lor (u64 (Z.shiftl f 3)) (u64 wt))) as Hz.
    unfold encodeTag, zlen in *. lia. }
  split; [done|]. split; [congruence|]. split; [done|].
  intros fuel. cbn [Nat.add pb_loop].
  destruct (pos d <? zlen (data d)) eqn:E2; zbool; [|lia].
  rewrite T. by erewrite stm_bind_ret.
Qed.

Lemma feeds_varint a b f v :
  0 ≤ f < 2 ^ 32 → 0 ≤ v < 2 ^ 64 →
  (∀ d d', dec_readVarint d = (Ret v, d') → h f 0 a d = (Ret b, d')) →
  feeds a (pbEncodeVarintField f v) b.
Proof.
  intros Hf Hv Hh. apply feeds_field; [done|lia|].
  intros d k H E. destruct (advance_app _ _ _ H E) as [H1 E1].
  eexists. split; [apply Hh; by eapply dec_readVarint_app|done].
Qed.

Lemma feeds_bytes a b f l :
  0 ≤ f < 2 ^ 32 →
  (∀ d d', readBytes d = (Ret l, d') → h f 2 a d = (Ret b, d')) →
  feeds a (pbEncodeLengthDelimField f l) b.
Proof.
  intros Hf Hh. apply feeds_field; [done|lia|].
  intros d k H E. rewrite <- app_assoc in E.
  destruct (readBytes_app d l k H E) as (d' & R & ?). eauto.
Qed.

(** Repeated fields fold over the items. *)
Lemma feeds_repeated (add : A → bytes → A) f items a :
  0 ≤ f < 2 ^ 32 →
  (∀ a l d d', readBytes d = (Ret l, d') → h f 2 a d = (Ret (add a l), d')) →
  feeds a (pbEncodeLengthDelimFields f items) (foldl add a items).
Proof.
  intros Hf Hh. revert a. induction items as [|l items IH]; intros a; [apply feeds_nil|].
  cbn [pbEncodeLengthDelimFields foldl]. eapply feeds_app; [|apply IH].
  apply feeds_bytes; [done|]. eauto.
Qed.

Lemma pb_decode_feeds a b l :
  feeds a l b → zlen l ≤ maxAlloc → pb_decode h a l = Ret b.
Proof.
  intros F Hl. destruct (F (newPbDecoder l) [] (new_ok l Hl)) as (n & d & Ln & H & D & R & Q).
  { by rewrite app_nil_r. }
  unfold pb_decode. replace (S (length l)) with (n + S (length l - n))%nat by lia.
  rewrite Q. cbn [pb_loop].
  pose proof (zlen_rest d H) as Hz. rewrite R in Hz. change (zlen []) with 0 in Hz.
  by destruct (pos d <? zlen (data d)) eqn:E; zbool; [lia|].
Qed.
End Feeds.

(** A handler on a field of its message. *)
Ltac field_of h :=
  intros; unfold h; cbn [Z.eqb Pos.eqb]; unfold expect; cbn [Z.eqb Pos.eqb];
  unfold mbind, stm_bind, mret, stm_ret, sub, stm_lift;
  repeat match goal with
  | H : _ = (Ret _, _) |- _ => rewrite H; clear H
  | H : _ = Ret _ |- _ => rewrite H; clear H
  end; reflexivity.

Lemma zlen_delim f l : zlen l ≤ zlen (pbEncodeLengthDelimField f l).
Proof. unfold pbEncodeLengthDelimField. rewrite !zlen_app. unfold zlen. lia. Qed.

Lemma when_addrs f items :
  when (bool_decide (0 < length items)%nat) (pbEncodeLengthDelimFields f items) =
    pbEncodeLengthDelimFields f items.
Proof. by destruct items. Qed.

(** An optional nested message. *)
Lemma feeds_opt {A B} (h : Z → Z → A → dec A) (a b : A) f (enc : B → bytes)
    (decode : bytes → outcome pb_err B) (o : option B) :
  0 ≤ f < 2 ^ 32 →
  zlen (opt_field f enc o) ≤ maxAlloc →
  (∀ x, o = Some x → zlen (enc x) ≤ maxAlloc → decode (enc x) = Ret x) →
  (o = None → b = a) →
  (∀ x d d', o = Some x → decode (enc x) = Ret x → readBytes d = (Ret (enc x), d') →
     h f 2 a d = (Ret b, d')) →
  feeds h a (opt_field f enc o) b.
Proof.
  intros Hf Hl Hd Hn Hh. destruct o as [x|]; cbn [opt_field] in *.
  - apply feeds_bytes; [done|]. intros d d' R. apply (Hh x); [done| |done].
    apply Hd; [done|]. etransitivity; [apply (zlen_delim f)|done].
  - rewrite Hn by done. apply feeds_nil.
Qed.

Lemma feeds_opt_bytes {A} (h : Z → Z → A → dec A) (a b : A) f (o : option bytes) :
  0 ≤ f < 2 ^ 32 →
  (o = None → b = a) →
  (∀ x d d', o = Some x → readBytes d = (Ret x, d') → h f 2 a d = (Ret b, d')) →
  feeds h a (opt_field f id o) b.
Proof.
  intros Hf Hn Hh. destruct o as [x|]; cbn [opt_field].
  - apply feeds_bytes; [done|]. eauto.
  - rewrite Hn by done. apply feeds_nil.
Qed.

(** A varint field that is left out when zero. *)
Lemma feeds_when {A} (h : Z → Z → A → dec A) (a b : A) f c v :
  0 ≤ f < 2 ^ 32 → 0 ≤ v < 2 ^ 64 →
  (c = false → b = a) →
  (∀ d d', dec_readVarint d = (Ret v, d') → h f 0 a d = (Ret b, d')) →
  feeds h a (when c (pbEncodeVarintField f v)) b.
Proof.
  intros Hf Hv Hc Hh. destruct c; cbn [when].
  - by apply feeds_varint.
  - rewrite Hc by done. apply feeds_nil.
Qed.

(** *** Peer *)

Lemma foldl_peer i l items :
  foldl (λ p x, mkPeer (ID p) (Peer_Addrs p ++ [x])) (mkPeer i l) items = mkPeer i (l ++ items).
Proof.
  revert l. induction items as [|x items IH]; intros l; cbn [foldl]; [by rewrite app_nil_r|].
  rewrite IH. cbn. by rewrite <- app_assoc.
Qed.

Lemma decodePeer_encodePeer p :
  zlen (encodePeer (Some p)) ≤ maxAlloc → decodePeer (encodePeer (Some p)) = Ret p.
Proof.
  intros Hl. apply pb_decode_feeds; [|done]. destruct p as [i l].
  cbn [encodePeer ID Peer_Addrs]. rewrite when_addrs.
  eapply feeds_app; [apply (feeds_opt_bytes _ _ (mkPeer i []))|].
  - lia.
  - by intros ->.
  - intros x d d' -> R. field_of peer_field.
  - replace (mkPeer i l) with
      (foldl (λ p x, mkPeer (ID p) (Peer_Addrs p ++ [x])) (mkPeer i []) l) by apply foldl_peer.
    apply feeds_repeated; [lia|]. field_of peer_field.
Qed.

(** *** Reservation *)

Definition reservation_wf (r : Reservation) : Prop := 0 ≤ Expire r < 2 ^ 64.

Lemma foldl_reservation e l v items :
  foldl (λ r x, mkReservation (Expire r) (Resv_Addrs r ++ [x]) (Voucher r))
    (mkReservation e l v) items = mkReservation e (l ++ items) v.
Proof.
  revert l. induction items as [|x items IH]; intros l; cbn [foldl]; [by rewrite app_nil_r|].
  rewrite IH. cbn. by rewrite <- app_assoc.
Qed.

Lemma decodeReservation_encodeReservation r :
  reservation_wf r → zlen (encodeReservation (Some r)) ≤ maxAlloc →
  decodeReservation (encodeReservation (Some r)) = Ret r.
Proof.
  intros Hw Hl. apply pb_decode_feeds; [|done]. destruct r as [e l v].
  cbn [encodeReservation Expire Resv_Addrs Voucher] in *. rewrite when_addrs.
  eapply feeds_app; [apply (feeds_when _ _ (mkReservation e [] None))|].
  - lia.
  - exact Hw.
  - intros E. red in Hw. cbn in Hw. zbool. f_equal. lia.
  - field_of reservation_field.
  - eapply feeds_app.
    + apply (feeds_repeated _
        (λ r x, mkReservation (Expire r) (Resv_Addrs r ++ [x]) (Voucher r))); [lia|].
      field_of reservation_field.
    + rewrite foldl_reservation. apply feeds_opt_bytes; [lia|by intros ->|].
      intros x d d' -> R. field_of reservation_field.
Qed.

(** *** Limit *)

Definition limit_wf (l : Limit) : Prop := 0 ≤ Duration l < 2 ^ 32 ∧ 0 ≤ Data l < 2 ^ 64.

Lemma decodeLimit_encodeLimit l :
  limit_wf l → zlen (encodeLimit (Some l)) ≤ maxAlloc →
  decodeLimit (encodeLimit (Some l)) = Ret l.
Proof.
  intros [Hd Hx] Hl. apply pb_decode_feeds; [|done]. destruct l as [du da].
  cbn [encodeLimit Duration Data] in *.
  eapply feeds_app; [apply (feeds_when _ _ (mkLimit du 0)); try lia|apply feeds_when; try lia].
  - intros E. zbool. f_equal. lia.
  - intros d d' R. transitivity (@Ret pb_err _ (mkLimit (u32 du) 0), d').
    + field_of limit_field.
    + unfold u32. by rewrite wrap_u_small by lia.
  - intros E. zbool. f_equal. lia.
  - field_of limit_field.
Qed.

(** *** Signed fields

    [uint64(x)] of a signed [x] sign-extends; the conversion back truncates. *)

Lemma i32_u64 z : - 2 ^ 31 ≤ z < 2 ^ 31 → i32 (u64 z) = z.
Proof.
  intros H. unfold i32, u64, wrap_s, wrap_u. change (32 - 1) with 31.
  assert ((z mod 2 ^ 64 + 2 ^ 31) mod 2 ^ 32 = (z + 2 ^ 31) mod 2 ^ 32) as ->.
  { rewrite (Z.mod_eq z (2 ^ 64)) by lia.
    replace (z - 2 ^ 64 * (z / 2 ^ 64) + 2 ^ 31)
      with (z + 2 ^ 31 + (- (2 ^ 32 * (z / 2 ^ 64))) * 2 ^ 32) by lia.
    apply Z_mod_plus_full. }
  rewrite Z.mod_small by lia. lia.
Qed.

Lemma i64_u64 z : - 2 ^ 63 ≤ z < 2 ^ 63 → i64 (u64 z) = z.
Proof. intros H. unfold i64, u64. rewrite wrap_s_wrap_u by lia. apply i64_small. lia. Qed.

(** *** Messages *)

Definition hop_wf (m : HopMessage) : Prop :=
  - 2 ^ 31 ≤ Hop_Type m < 2 ^ 31 ∧ 0 ≤ Hop_Status m < 2 ^ 31 ∧
  (∀ r, Hop_Reservation m = Some r → reservation_wf r) ∧
  (∀ l, Hop_Limit m = Some l → limit_wf l) ∧
  zlen (encodeHopMessage m) ≤ maxAlloc.

Definition stop_wf (m : StopMessage) : Prop :=
  - 2 ^ 31 ≤ Stop_Type m < 2 ^ 31 ∧ 0 ≤ Stop_Status m < 2 ^ 31 ∧
  (∀ l, Stop_Limit m = Some l → limit_wf l) ∧
  zlen (encodeStopMessage m) ≤ maxAlloc.

Definition v1_wf (m : CircuitV1Message) : Prop :=
  - 2 ^ 63 ≤ V1_Type m < 2 ^ 63 ∧ 0 ≤ Code m < 2 ^ 63 ∧
  zlen (encodeCircuitV1 m) ≤ maxAlloc.

(** The bytes of one part of a message are within those of the message. *)
Ltac part_len :=
  repeat match goal with
  | H : zlen (_ ++ _) ≤ _ |- _ => rewrite !zlen_app in H
  end; unfold zlen in *; lia.

Lemma decodeHopMessage_encode m :
  hop_wf m → decodeHopMessage (encodeHopMessage m) = Ret m.
Proof.
  intros (Ht & Hs & Hr & Hl & Hz). apply pb_decode_feeds; [|done].
  destruct m as [t p r l s]. unfold encodeHopMessage in *.
  cbn [Hop_Type Hop_Peer Hop_Reservation Hop_Limit Hop_Status] in *.
  apply (feeds_app _ _ (mkHop t None None None 0)).
  { apply feeds_varint; [lia|apply u64_range|]. intros d d' R.
    rewrite <- (i32_u64 t) by done. field_of hop_field. }
  apply (feeds_app _ _ (mkHop t p None None 0)).
  { apply (feeds_opt _ _ _ _ _ decodePeer); [lia|part_len| |by intros ->|].
    - intros x _ ?. by apply decodePeer_encodePeer.
    - intros x d d' -> ? ?. field_of hop_field. }
  apply (feeds_app _ _ (mkHop t p r None 0)).
  { apply (feeds_opt _ _ _ _ _ decodeReservation); [lia|part_len| |by intros ->|].
    - intros x -> ?. by apply decodeReservation_encodeReservation; [apply Hr|].
    - intros x d d' -> ? ?. field_of hop_field. }
  apply (feeds_app _ _ (mkHop t p r l 0)).
  { apply (feeds_opt _ _ _ _ _ decodeLimit); [lia|part_len| |by intros ->|].
    - intros x -> ?. by apply decodeLimit_encodeLimit; [apply Hl|].
    - intros x d d' -> ? ?. field_of hop_field. }
  apply feeds_when; [lia|apply u64_range| |].
  - intros E. zbool. f_equal. lia.
  - intros d d' R. rewrite <- (i32_u64 s) by lia. field_of hop_field.
Qed.

Lemma decodeStopMessage_encode m :
  stop_wf m → decodeStopMessage (encodeStopMessage m) = Ret m.
Proof.
  intros (Ht & Hs & Hl & Hz). apply pb_decode_feeds; [|done].
  destruct m as [t p l s]. unfold encodeStopMessage in *.
  cbn [Stop_Type Stop_Peer Stop_Limit Stop_Status] in *.
  apply (feeds_app _ _ (mkStop t None None 0)).
  { apply feeds_varint; [lia|apply u64_range|]. intros d d' R.
    rewrite <- (i32_u64 t) by done. field_of stop_field. }
  apply (feeds_app _ _ (mkStop t p None 0)).
  { apply (feeds_opt _ _ _ _ _ decodePeer); [lia|part_len| |by intros ->|].
    - intros x _ ?. by apply decodePeer_encodePeer.
    - intros x d d' -> ? ?. field_of stop_field. }
  apply (feeds_app _ _ (mkStop t p l 0)).
  { apply (feeds_opt _ _ _ _ _ decodeLimit); [lia|part_len| |by intros ->|].
    - intros x -> ?. by apply decodeLimit_encodeLimit; [apply Hl|].
    - intros x d d' -> ? ?. field_of stop_field. }
  apply feeds_when; [lia|apply u64_range| |].
  - intros E. zbool. f_equal. lia.
  - intros d d' R. rewrite <- (i32_u64 s) by lia. field_of stop_field.
Qed.

Lemma decodeCircuitV1_encode m :
  v1_wf m → decodeCircuitV1 (encodeCircuitV1 m) = Ret m.
Proof.
  intros (Ht & Hs & Hz). apply pb_decode_feeds; [|done].
  destruct m as [t p q c]. unfold encodeCircuitV1 in *.
  cbn [V1_Type SrcPeer DstPeer Code] in *.
  apply (feeds_app _ _ (mkV1 t None None 0)).
  { apply feeds_varint; [lia|apply u64_range|]. intros d d' R.
    rewrite <- (i64_u64 t) by done. field_of v1_field. }
  apply (feeds_app _ _ (mkV1 t p None 0)).
  { apply (feeds_opt _ _ _ _ _ decodePeer); [lia|part_len| |by intros ->|].
    - intros x _ ?. by apply decodePeer_encodePeer.
    - intros x d d' -> ? ?. field_of v1_field. }
  apply (feeds_app _ _ (mkV1 t p q 0)).
  { apply (feeds_opt _ _ _ _ _ decodePeer); [lia|part_len| |by intros ->|].
    - intros x _ ?. by apply decodePeer_encodePeer.
    - intros x d d' -> ? ?. field_of v1_field. }
  apply feeds_when; [lia|apply u64_range| |].
  - intros E. zbool. f_equal. lia.
  - intros d d' R. rewrite <- (i64_u64 c) by lia. field_of v1_field.
Qed.

(** ** Decoding arbitrary bytes

    [good P m]: on a well-formed cursor [m] keeps the buffer and the cursor
    well formed, never moves backwards, never reports [PbFuel], and returns
    only values that satisfy [P]. *)

Definition good {A} (P : A → Prop) (m : dec A) : Prop :=
  ∀ d, dec_ok d →
  dec_ok (snd (m d)) ∧ data (snd (m d)) = data d ∧ pos d ≤ pos (snd (m d)) ∧
  match fst (m d) with Ret a => P a | Fail e => e ≠ PbFuel | Panic => True end.

(** The cursor did not move. *)
Ltac unmoved := split; [done|split; [done|split; [lia|done]]].

Lemma good_ret {A} (P : A → Prop) a : P a → good P (mret a).
Proof. intros H d Hd. cbn. unmoved. Qed.

Lemma good_fail {A} (P : A → Prop) e : e ≠ PbFuel → good P (stm_fail e).
Proof. intros H d Hd. cbn. unmoved. Qed.

Lemma good_bind {A B} (P : A → Prop) (Q : B → Prop) (m : dec A) (k : A → dec B) :
  good P m → (∀ a, P a → good Q (k a)) → good Q (m ≫= k).
Proof.
  intros Hm Hk d Hd. destruct (Hm d Hd) as (H1 & H2 & H3 & H4).
  unfold mbind, stm_bind. destruct (m d) as [[a|e|] d1]; cbn [fst snd] in *; [|auto..].
  destruct (Hk a H4 d1 H1) as (K1 & K2 & K3 & K4).
  split; [done|]. split; [congruence|]. split; [lia|done].
Qed.

Lemma good_weaken {A} (P Q : A → Prop) (m : dec A) :
  good P m → (∀ a, P a → Q a) → good Q m.
Proof.
  intros H HPQ d Hd. destruct (H d Hd) as (H1 & H2 & H3 & H4).
  split; [done|]. split; [done|]. split; [done|]. destruct (fst (m d)); auto.
Qed.

Lemma good_advance {A} (P : A → Prop) a d n :
  dec_ok d → 0 ≤ n ≤ zlen (rest d) → P a →
  dec_ok (advance n d) ∧ data (advance n d) = data d ∧ pos d ≤ pos (advance n d) ∧ P a.
Proof.
  intros Hd Hn HP. destruct (advance_ok d n Hd Hn) as [H1 _]. rewrite advance_pos by done.
  unmoved.
Qed.

Lemma good_readVarint : good (λ v, 0 ≤ v < 2 ^ 64) dec_readVarint.
Proof.
  intros d Hd. rewrite dec_readVarint_ok by done.
  destruct (decodeVarint (rest d)) as [v n] eqn:E.
  destruct (n <=? 0) eqn:En; zbool; cbn [fst snd]; [unmoved|].
  destruct (decodeVarint_bounds _ _ _ E En) as (? & ? & ?).
  apply (good_advance (λ v, 0 ≤ v < 2 ^ 64)); [done|lia|done].
Qed.

Lemma good_readBytes : good (λ b, zlen b ≤ maxAlloc) readBytes.
Proof.
  eapply good_bind; [apply good_readVarint|]. intros l Hl d Hd. cbv beta in Hl.
  rewrite readBytes_body_spec by done.
  destruct (l <=? zlen (rest d)) eqn:E1; zbool;
    [|destruct (pos d + l <? 2 ^ 63); cbn [fst snd]; unmoved].
  cbn [fst snd]. apply (good_advance (λ b, zlen b ≤ maxAlloc)); [done|lia|].
  pose proof (zlen_rest d Hd) as Hz. destruct Hd as [? ?].
  unfold zlen in *. rewrite length_take. lia.
Qed.

Lemma good_expect f wt want : good (λ _, True) (expect f wt want).
Proof. unfold expect. destruct (wt =? want); [by apply good_ret|by apply good_fail]. Qed.

Lemma good_ignore {A} (P : A → Prop) (m : dec A) : good P m → good (λ _, True) (ignore m).
Proof.
  intros H d Hd. destruct (H d Hd) as (? & ? & ? & ?). unfold ignore.
  by destruct (m d) as [[]].
Qed.

Lemma good_skip wt : good (λ _, True) (skip wt).
Proof.
  unfold skip. destruct (wt =? 0); [eapply good_ignore, good_readVarint|].
  destruct (wt =? 2); [eapply good_ignore, good_readBytes|]. by apply good_ret.
Qed.

Definition fuel_free {A} (decode : bytes → outcome pb_err A) : Prop :=
  ∀ l, zlen l ≤ maxAlloc → decode l ≠ Fail PbFuel.

Lemma good_sub {A} f (decode : bytes → outcome pb_err A) b :
  fuel_free decode → zlen b ≤ maxAlloc → good (λ _, True) (sub f decode b).
Proof.
  intros Hf Hb d Hd. unfold sub, stm_lift. cbn [fst snd].
  specialize (Hf b Hb). destruct (decode b) as [a|e|]; cbn; [unmoved| |unmoved].
  split; [done|]. split; [done|]. split; [lia|]. by destruct e.
Qed.

Lemma good_decodeTag d :
  dec_ok d → pos d < zlen (data d) →
  match decodeTag d with
  | (Ret _, d') => dec_ok d' ∧ data d' = data d ∧ pos d < pos d'
  | _ => True
  end.
Proof.
  intros Hd Hp. unfold decodeTag. destruct (_ >=? _); [done|].
  rewrite dec_readVarint_ok by done.
  destruct (decodeVarint (rest d)) as [v n] eqn:E.
  destruct (n <=? 0) eqn:En; zbool; [done|].
  destruct (decodeVarint_bounds _ _ _ E En) as (? & ? & ?).
  destruct (advance_ok d n Hd ltac:(lia)) as [? _].
  split; [done|]. split; [done|]. rewrite advance_pos by (done || lia). lia.
Qed.

Lemma pb_loop_terminates {A} (h : Z → Z → A → dec A) :
  (∀ f wt a, good (λ _, True) (h f wt a)) →
  ∀ fuel a d, dec_ok d → zlen (data d) - pos d < Z.of_nat fuel →
  fst (pb_loop h fuel a d) ≠ Fail PbFuel.
Proof.
  intros Hh fuel. induction fuel as [|fuel IH]; intros a d Hd Hf.
  { destruct Hd as [? _]. lia. }
  cbn [pb_loop]. destruct (pos d <? zlen (data d)) eqn:E; zbool; [|done].
  pose proof (good_decodeTag d Hd E) as Ht.
  destruct (decodeTag d) as [[[f wt]|e|] d1]; [|done..].
  destruct Ht as (H1 & D1 & P1). destruct (Hh f wt a d1 H1) as (H2 & D2 & P2 & R2).
  unfold mbind, stm_bind. destruct (h f wt a d1) as [[a2|e2|] d2]; cbn [fst snd] in *.
  - apply IH; [done|]. rewrite D2, D1. lia.
  - congruence.
  - done.
Qed.

Lemma pb_decode_fuel_free {A} (h : Z → Z → A → dec A) a :
  (∀ f wt a, good (λ _, True) (h f wt a)) → fuel_free (pb_decode h a).
Proof.
  intros Hh l Hl. apply pb_loop_terminates; [done|by apply new_ok|].
  cbn. unfold zlen. lia.
Qed.

Create HintDb pb.
#[export] Hint Resolve good_ret good_readVarint good_readBytes good_expect good_skip I : pb.

(** A handler is good because each of its branches is a sequence of good calls. *)
Ltac good_handler h :=
  intros f wt a; unfold h;
  repeat match goal with |- good _ (if ?b then _ else _) => destruct b end;
  repeat (eapply good_bind; [solve [eauto with pb | apply good_sub; eauto with pb]|intros ? ?]);
  auto with pb.

Lemma decodePeer_fuel_free : fuel_free decodePeer.
Proof. apply pb_decode_fuel_free. good_handler peer_field. Qed.

Lemma decodeReservation_fuel_free : fuel_free decodeReservation.
Proof. apply pb_decode_fuel_free. good_handler reservation_field. Qed.

Lemma decodeLimit_fuel_free : fuel_free decodeLimit.
Proof. apply pb_decode_fuel_free. good_handler limit_field. Qed.

#[export] Hint Resolve decodePeer_fuel_free decodeReservation_fuel_free
  decodeLimit_fuel_free : pb.

Lemma decodeHopMessage_fuel_free : fuel_free decodeHopMessage.
Proof. apply pb_decode_fuel_free. good_handler hop_field. Qed.

Lemma decodeStopMessage_fuel_free : fuel_free decodeStopMessage.
Proof. apply pb_decode_fuel_free. good_handler stop_field. Qed.

Lemma decodeCircuitV1_fuel_free : fuel_free decodeCircuitV1.
Proof. apply pb_decode_fuel_free. good_handler v1_field. Qed.

(** ** Unambiguous encodings *)

Lemma encodeVarint_prefix v w k k' :
  0 ≤ v < 2 ^ 64 → 0 ≤ w < 2 ^ 64 → encodeVarint v ++ k = encodeVarint w ++ k' →
  v = w ∧ k = k'.
Proof.
  intros Hv Hw E. pose proof (decodeVarint_encodeVarint v k Hv) as D.
  rewrite E, decodeVarint_encodeVarint in D by done. injection D as -> _.
  by apply app_inv_head in E.
Qed.

Lemma delim_prefix f l l' k k' :
  zlen l < 2 ^ 64 → zlen l' < 2 ^ 64 →
  pbEncodeLengthDelimField f l ++ k = pbEncodeLengthDelimField f l' ++ k' →
  l = l' ∧ k = k'.
Proof.
  intros Hl Hl' E. unfold pbEncodeLengthDelimField in E. rewrite <- !app_assoc in E.
  apply app_inv_head in E. unfold u64 in E.
  rewrite !wrap_u_small in E by (unfold zlen in *; lia).
  apply encodeVarint_prefix in E as [Hlen E]; [|unfold zlen in *; lia..].
  apply app_inj_1 in E; [done|]. unfold zlen in Hlen. lia.
Qed.

Lemma encodeAddressInfo_peer i addrs :
  encodeAddressInfo i addrs = encodePeer (Some (mkPeer (Some i) addrs)).
Proof.
  cbn [encodePeer ID Peer_Addrs opt_field]. rewrite when_addrs. unfold encodeAddressInfo.
  f_equal. induction addrs as [|a addrs IH]; [done|]. cbn. by rewrite IH.
Qed.

(** ** Properties *)

(** C32: Every circuit-v2 hop message within the field widths decodes to itself:
    type (any [int32]), nested peer, reservation and limit (absent or present,
    with empty or non-empty lists), and non-negative status. *)
Theorem hop_message_roundtrip m :
  hop_wf m → decodeHopMessage (encodeHopMessage m) = Ret m.
Proof. apply decodeHopMessage_encode. Qed.

Definition hop_sample : HopMessage :=
  mkHop HopTypeReserve (Some (mkPeer (Some [x12; x20]) [[x01]; []]))
    (Some (mkReservation 1700000000 [[x04; x7f]] (Some [])))
    (Some (mkLimit 120 131072)) StatusOK.

Lemma hop_message_roundtrip_witness :
  hop_wf hop_sample ∧ decodeHopMessage (encodeHopMessage hop_sample) = Ret hop_sample.
Proof.
  assert (hop_wf hop_sample) as H.
  { unfold hop_wf, hop_sample. cbn [Hop_Type Hop_Status Hop_Reservation Hop_Limit].
    split; [|split; [|split; [intros r [= <-]|split; [intros l [= <-]|]]]];
      vm_compute; intuition discriminate. }
  split; [exact H|exact (hop_message_roundtrip hop_sample H)].
Defined.

(** Every circuit-v2 stop message within the field widths decodes to itself. *)
Theorem stop_message_roundtrip m :
  stop_wf m → decodeStopMessage (encodeStopMessage m) = Ret m.
Proof. apply decodeStopMessage_encode. Qed.

Definition stop_sample : StopMessage :=
  mkStop StopTypeConnect (Some (mkPeer None [[x01; x02]])) None StatusConnectionFailed.

Lemma stop_message_roundtrip_witness :
  stop_wf stop_sample ∧ decodeStopMessage (encodeStopMessage stop_sample) = Ret stop_sample.
Proof.
  assert (stop_wf stop_sample) as H.
  { unfold stop_wf, stop_sample. cbn [Stop_Type Stop_Status Stop_Limit].
    split; [|split; [|split; [intros l [=]|]]]; vm_compute; intuition discriminate. }
  split; [exact H|exact (stop_message_roundtrip stop_sample H)].
Defined.

(** Every circuit-v1 message within the field widths decodes to itself, for
    any [int] type and non-negative code. *)
Theorem circuit_v1_roundtrip m :
  v1_wf m → decodeCircuitV1 (encodeCircuitV1 m) = Ret m.
Proof. apply decodeCircuitV1_encode. Qed.

Definition v1_sample : CircuitV1Message :=
  mkV1 1 (Some (mkPeer (Some [x01]) [])) (Some (mkPeer (Some []) [[x05]])) 100.

Lemma circuit_v1_roundtrip_witness :
  v1_wf v1_sample ∧ decodeCircuitV1 (encodeCircuitV1 v1_sample) = Ret v1_sample.
Proof.
  assert (v1_wf v1_sample) as H.
  { repeat split; vm_compute; intuition discriminate. }
  split; [exact H|exact (circuit_v1_roundtrip v1_sample H)].
Defined.

(** Decoding terminates on every input a process can hold: none of the six
    decoders runs out of the fuel [length data + 1], because each turn of the
    loop moves the cursor forward by a byte at least. *)
Theorem decoders_terminate data :
  zlen data ≤ maxAlloc →
  decodePeer data ≠ Fail PbFuel ∧ decodeReservation data ≠ Fail PbFuel ∧
  decodeLimit data ≠ Fail PbFuel ∧ decodeHopMessage data ≠ Fail PbFuel ∧
  decodeStopMessage data ≠ Fail PbFuel ∧ decodeCircuitV1 data ≠ Fail PbFuel.
Proof.
  intros H. split_and!.
  - by apply decodePeer_fuel_free.
  - by apply decodeReservation_fuel_free.
  - by apply decodeLimit_fuel_free.
  - by apply decodeHopMessage_fuel_free.
  - by apply decodeStopMessage_fuel_free.
  - by apply decodeCircuitV1_fuel_free.
Qed.

Lemma decoders_terminate_witness : decodePeer [x0a; xff; x00] ≠ Fail PbFuel.
Proof. apply (decoders_terminate [x0a; xff; x00]). vm_compute. discriminate. Defined.

(** [readBytes] on every branch.  A broken length varint is an error that
    leaves the cursor; a length [l] within the rest of the buffer returns
    exactly these bytes and steps over them; a larger one is the overflow error,
    the cursor then standing behind the length — except that [d.pos+int(l)] wraps
    around when [pos + l >= 2^63], which passes the check and panics in [make]. *)
Theorem readBytes_behaviour d :
  dec_ok d →
  readBytes d =
    let '(l, n) := decodeVarint (rest d) in
    let d1 := advance n d in
    if n <=? 0 then (Fail PbVarint, d)
    else if l <=? zlen (rest d1) then (Ret (take (Z.to_nat l) (rest d1)), advance l d1)
    else if pos d1 + l <? 2 ^ 63 then (Fail PbOverflow, d1)
    else (Panic, d1).
Proof.
  intros H. unfold readBytes, mbind, stm_bind. rewrite dec_readVarint_ok by done.
  destruct (decodeVarint (rest d)) as [l n] eqn:E.
  destruct (n <=? 0) eqn:En; zbool; [done|].
  destruct (decodeVarint_bounds _ _ _ E En) as (? & ? & ?).
  destruct (advance_ok d n H ltac:(lia)) as [? _]. by apply readBytes_body_spec.
Qed.

Lemma readBytes_behaviour_witness :
  readBytes (mkDec [x0a; x02; x41; x42; x43] 1) = (Ret [x41; x42], mkDec [x0a; x02; x41; x42; x43] 4).
Proof.
  rewrite (readBytes_behaviour (mkDec [x0a; x02; x41; x42; x43] 1)).
  - vm_compute. reflexivity.
  - vm_compute. intuition discriminate.
Defined.

(** A message from the network whose peer field announces a length of [2^63]
    or more crashes the decoder: the overflow check [d.pos+int(l) > len(d.data)]
    is passed by a negative [int(l)], and [make] panics. *)
Theorem crafted_length_panics l k :
  2 ^ 63 ≤ l < 2 ^ 64 → zlen k ≤ 2 ^ 47 →
  decodeHopMessage (encodeTag 2 2 ++ encodeVarint l ++ k) = Panic.
Proof.
  intros Hl Hk. set (msg := encodeTag 2 2 ++ encodeVarint l ++ k).
  assert (zlen msg ≤ maxAlloc) as Hz.
  { unfold msg. rewrite !zlen_app. change (zlen (encodeTag 2 2)) with 1.
    pose proof (zlen_encodeVarint l). unfold maxAlloc. lia. }
  pose proof (new_ok msg Hz) as Hd.
  destruct (decodeTag_app (newPbDecoder msg) 2 2 (encodeVarint l ++ k) Hd)
    as (d1 & T & H1 & D1 & R1 & Hp); [lia|lia|done|].
  destruct (advance_app _ _ _ H1 R1) as [H2 R2].
  assert (∃ d', readBytes d1 = (Panic, d')) as (d' & HP); cycle 1.
  { unfold decodeHopMessage, pb_decode. cbn [pb_loop]. apply Z.ltb_lt in Hp.
    rewrite Hp, T. erewrite stm_bind_panic; [done|].
    unfold hop_field. cbn [Z.eqb Pos.eqb].
    erewrite stm_bind_ret by done. by apply stm_bind_panic. }
  exists (advance (zlen (encodeVarint l)) d1).
  unfold readBytes. rewrite (stm_bind_ret _ _ _ _ _ (dec_readVarint_app d1 l k H1 ltac:(lia) R1)).
  rewrite readBytes_body_spec by (done || lia).
  pose proof H2 as [? _]. unfold maxAlloc in *. rewrite R2.
  destruct (l <=? zlen k) eqn:E1; zbool; [lia|].
  destruct (_ + l <? 2 ^ 63) eqn:E2; zbool; [lia|done].
Qed.

Lemma crafted_length_panics_witness :
  decodeHopMessage (encodeTag 2 2 ++ encodeVarint (2 ^ 63) ++ []) = Panic.
Proof. apply (crafted_length_panics (2 ^ 63) []); vm_compute; intuition discriminate. Defined.

(** The framed message on a stream. *)
Definition framed (msg : bytes) : bytes := encodeVarint (u64 (zlen msg)) ++ msg.

Lemma readPbMessage_app msg k r :
  zlen msg ≤ maxAlloc → pending r = framed msg ++ k →
  ∃ r', readPbMessage r = (Ret msg, r') ∧ pending r' = k ∧ rd_err r' = rd_err r.
Proof.
  intros Hm Hp. assert (u64 (zlen msg) = zlen msg) as Eu.
  { apply wrap_u_small. unfold maxAlloc, zlen in *. lia. }
  unfold framed in Hp. rewrite Eu, <- app_assoc in Hp.
  destruct (readVarint_encodeVarint r (zlen msg) (msg ++ k)) as (r1 & E & Hp1 & He1);
    [unfold maxAlloc, zlen in *; lia|done|].
  destruct (ReadFull_app (length msg) r1 msg k Hp1 eq_refl) as (r2 & E2 & Hp2 & He2).
  exists r2. split; [|split; [done|congruence]].
  unfold readPbMessage. erewrite stm_bind_ret by exact E.
  unfold readPbMessage_body. destruct (zlen msg >? maxAlloc) eqn:E3; zbool; [lia|].
  unfold zlen, stm_wrap. by rewrite Nat2Z.id, E2.
Qed.

Lemma readPbMessage_none r :
  pending r = [] → readPbMessage r = (Fail (VarintIO (rd_err r)), Reader [] (rd_err r)).
Proof.
  intros Hp. pose proof (readVarint_none r Hp) as E.
  unfold readPbMessage. by erewrite stm_bind_fail by exact E.
Qed.

Lemma readPbMessage_big l k r :
  maxAlloc < l < 2 ^ 64 → pending r = encodeVarint l ++ k →
  ∃ r', readPbMessage r = (Panic, r').
Proof.
  intros Hl Hp.
  destruct (readVarint_encodeVarint r l k) as (r1 & E & Hp1 & _);
    [unfold maxAlloc in *; lia|done|].
  exists r1. unfold readPbMessage. erewrite stm_bind_ret by exact E.
  unfold readPbMessage_body. destruct (l >? maxAlloc) eqn:E3; zbool; [done|lia].
Qed.

(** A writer that keeps everything written to it. *)
Definition buf_write (p : bytes) : stm bytes io_err Z := fun w => (Ret (zlen p), w ++ p).

(** [readPbMessage] reads back, from any chunking of the stream, exactly the
    message [writePbMessage] sent in one [Write], and leaves what follows; a
    length prefix above the allocation limit, which the peer chooses, panics. *)
Theorem pb_framing_roundtrip msg k r :
  zlen msg ≤ maxAlloc →
  (∀ w, writePbMessage buf_write msg w = (Ret (), w ++ framed msg)) ∧
  (pending r = framed msg ++ k →
     ∃ r', readPbMessage r = (Ret msg, r') ∧ pending r' = k) ∧
  (∀ l, maxAlloc < l < 2 ^ 64 → pending r = encodeVarint l ++ k →
     fst (readPbMessage r) = Panic).
Proof.
  intros Hm. split_and!.
  - done.
  - intros Hp. destruct (readPbMessage_app msg k r Hm Hp) as (r' & ? & ? & _). eauto.
  - intros l Hl Hp. by destruct (readPbMessage_big l k r Hl Hp) as (r' & ->).
Qed.

Lemma pb_framing_roundtrip_witness :
  ∃ r', readPbMessage (Reader [[x02]; [x0a]; [x0b; x0c]] EOF) = (Ret [x0a; x0b], r') ∧
    pending r' = [x0c].
Proof.
  apply (pb_framing_roundtrip [x0a; x0b] [x0c] (Reader [[x02]; [x0a]; [x0b; x0c]] EOF)).
  - vm_compute. discriminate.
  - vm_compute. reflexivity.
Defined.

(** The signed objects of the identify exchange are unambiguous: a peer record
    determines its sequence number, peer id and addresses, and an envelope its
    key, payload type, payload and signature — no two different records share the
    bytes that are signed. *)
Theorem signed_records_injective s i a s' i' a' k t p g k' t' p' g' :
  0 ≤ s < 2 ^ 64 → 0 ≤ s' < 2 ^ 64 →
  zlen (encodePeerRecord s i a) ≤ maxAlloc → zlen (encodePeerRecord s' i' a') ≤ maxAlloc →
  zlen (encodeEnvelope k t p g) ≤ maxAlloc → zlen (encodeEnvelope k' t' p' g') ≤ maxAlloc →
  (encodePeerRecord s i a = encodePeerRecord s' i' a' → s = s' ∧ i = i' ∧ a = a') ∧
  (encodeEnvelope k t p g = encodeEnvelope k' t' p' g' →
     k = k' ∧ t = t' ∧ p = p' ∧ g = g').
Proof.
  intros Hs Hs' HR HR' HE HE'. split; intros E.
  - unfold encodePeerRecord, pbEncodeVarintField in E, HR, HR'. rewrite <- !app_assoc in E.
    apply app_inv_head in E. apply encodeVarint_prefix in E as [-> E]; [|done..].
    rewrite !zlen_app in HR, HR'.
    pose proof (zlen_delim 2 (encodeAddressInfo i a)).
    pose proof (zlen_delim 2 (encodeAddressInfo i' a')).
    pose proof (zlen_encodeVarint s'). change (zlen (encodeTag 1 0)) with 1 in *.
    destruct (delim_prefix 2 (encodeAddressInfo i a) (encodeAddressInfo i' a') [] [])
      as [Ea _]; [unfold maxAlloc in *; lia..|by rewrite !app_nil_r|].
    rewrite !encodeAddressInfo_peer in *.
    apply (f_equal decodePeer) in Ea. rewrite !decodePeer_encodePeer in Ea by lia.
    by injection Ea as -> ->.
  - unfold encodeEnvelope in E, HE, HE'. rewrite !zlen_app in HE, HE'.
    pose proof (zlen_delim 1 k). pose proof (zlen_delim 1 k').
    pose proof (zlen_delim 2 t). pose proof (zlen_delim 2 t').
    pose proof (zlen_delim 3 p). pose proof (zlen_delim 3 p').
    pose proof (zlen_delim 4 g). pose proof (zlen_delim 4 g').
    unfold maxAlloc, zlen in HE, HE', H, H0, H1, H2, H3, H4, H5, H6.
    apply delim_prefix in E as [-> E]; [|unfold zlen; lia..].
    apply delim_prefix in E as [-> E]; [|unfold zlen; lia..].
    apply delim_prefix in E as [-> E]; [|unfold zlen; lia..].
    rewrite <- (app_nil_r (pbEncodeLengthDelimField 4 g)) in E.
    rewrite <- (app_nil_r (pbEncodeLengthDelimField 4 g')) in E.
    apply delim_prefix in E as [-> _]; [done|unfold zlen; lia..].
Qed.

Lemma signed_records_injective_witness :
  bool_decide (encodePeerRecord 1 [x01] [[]] = encodePeerRecord 2 [x01] [[]]) = false.
Proof.
  apply bool_decide_eq_false_2. intros E.
  destruct (signed_records_injective 1 [x01] [[]] 2 [x01] [[]] [] [] [] [] [] [] [] [])
    as [H _]; [vm_compute; intuition discriminate..|].
  destruct (H E) as [E1 _]. discriminate E1.
Defined.

(** *** Status names *)

Lemma append_char_inj c s t :
  String.append s (String.String c "") = String.append t (String.String c "") → s = t.
Proof.
  revert t. induction s as [|a s IH]; intros [|b t] E; [done|exfalso..|].
  - injection E as _ E. by destruct t.
  - injection E as _ E. by destruct s.
  - injection E as -> E. f_equal. by apply IH.
Qed.

Lemma unknown_inj s t : unknown s = unknown t → s = t.
Proof. intros E. injection E as E. apply append_char_inj in E. by apply (inj pretty) in E. Qed.

(** Status codes are told apart in logs and errors: the names of two different
    circuit-v2 status codes differ, and so do those of circuit-v1, unknown codes
    included. *)
Theorem status_names_injective s t :
  (statusString s = statusString t → s = t) ∧
  (circuitV1StatusString s = circuitV1StatusString t → s = t).
Proof.
  split; unfold statusString, circuitV1StatusString.
  all: repeat match goal with
    | |- context [?a =? ?b] => destruct (Z.eqb_spec a b); [subst|]
    end; intros E; try reflexivity; try discriminate E; by apply unknown_inj.
Qed.
