(* ===== verification/Multistream.v ===== *)
(** * Protocol negotiation (relayhub/multistream.go)

    [readMsg], [writeMsg], [msSelect] (the dialling side) and [MSRespond] (the
    listening side) over a duplex stream.  The theorems: the two sides, run
    against each other, agree on the requested protocol; the dialling side
    succeeds only on an answer that names the protocol; "na" answers are
    errors. *)

From S2P Require Import Prelude GoIO Varint CircuitPb.
Local Open Scope Z_scope.

Inductive ms_err : Type :=
| MsRead (e : varint_err)
| MsWrite (e : io_err)
| MsUnexpectedHeader (resp : bytes)
| MsNotAvailable
| MsProtocolNotAvailable
| MsUnexpectedProto (resp : bytes).

Abbreviation ms := (stm duplex ms_err).

Definition msProtoIDs : list bytes :=
  [str "/multistream/1.0.0" ++ [x0a]; str "/multistream-select/1.0.0" ++ [x0a]].

(** ** Messages *)

(** [readMsg]: the varint through a [byteReader], then the body; the same reads
    as [readPbMessage]. *)
Definition readMsg : ms bytes := fun d =>
  match readPbMessage (d_in d) with
  | (r, rd) => (map_err MsRead r, Duplex rd (d_out d) (d_werr d))
  end.

Definition writeMsg (msg : bytes) : ms unit := fun d =>
  match d_werr d with
  | Some e => (Fail (MsWrite e), d)
  | None => (Ret (), Duplex (d_in d) (d_out d ++ encodeVarint (u64 (zlen msg)) ++ msg) None)
  end.

(** [m[:len(m)-1]] of the entries of [msProtoIDs]. *)
Definition trimmed (m : bytes) : bytes := take (length m - 1) m.

Definition newline : bytes := [x0a].
Definition na : bytes := str "na".

Definition is_na (resp : bytes) : bool := bool_decide (resp = na ∨ resp = na ++ newline).

(** [resp == m || resp == trimmed] *)
Definition names (resp m : bytes) : bool := bool_decide (resp = m ∨ resp = trimmed m).

(** ** msSelect *)

(** The header loop: [true] when the peer confirmed a header. *)
Fixpoint msSelect_header (ms_ids : list bytes) : ms bool :=
  match ms_ids with
  | [] => mret false
  | m :: ms_ids' =>
      _ ← writeMsg m;
      resp ← readMsg;
      if names resp m then mret true
      else if is_na resp then msSelect_header ms_ids'
      else if existsb (names resp) msProtoIDs then mret true
      else stm_fail (MsUnexpectedHeader resp)
  end.

Definition msSelect (protoID : bytes) : ms unit :=
  matched ← msSelect_header msProtoIDs;
  if negb matched then stm_fail MsNotAvailable
  else
    _ ← writeMsg (protoID ++ newline);
    resp ← readMsg;
    if is_na resp then stm_fail MsProtocolNotAvailable
    else if bool_decide (resp ≠ protoID ∧ resp ≠ protoID ++ newline)
    then stm_fail (MsUnexpectedProto resp)
    else mret ().

Definition MSSelect (protoID : bytes) : ms unit := msSelect protoID.
Definition MSSelectOver (protoID : bytes) : ms unit := msSelect protoID.

(** ** MSRespond *)

Definition trimNewline (s : bytes) : bytes :=
  match list.last s with
  | Some b => if bool_decide (b = x0a) then take (length s - 1) s else s
  | None => s
  end.

Fixpoint MSRespond_header (msg : bytes) (ms_ids : list bytes) : ms bool :=
  match ms_ids with
  | [] => mret false
  | m :: ms_ids' =>
      if names msg m then _ ← writeMsg m; mret true
      else MSRespond_header msg ms_ids'
  end.

Definition MSRespond : ms bytes :=
  msg ← readMsg;
  matched ← MSRespond_header msg msProtoIDs;
  if negb matched then stm_fail (MsUnexpectedHeader msg)
  else
    proto ← readMsg;
    if is_na proto then stm_fail MsProtocolNotAvailable
    else
      _ ← writeMsg proto;
      mret (trimNewline proto).

(** ** Running the two sides against each other

    Each side is deterministic, so what it has written after [n] rounds is a
    function of what the other side had written before: a side that needs more
    input than there is stops with the error [would_block]. *)

Definition would_block : io_err := ErrOther 11.

Definition on_input (l : bytes) : duplex := Duplex (Reader [l] would_block) [] None.

Fixpoint exchange (protoID : bytes) (n : nat) : bytes * bytes :=
  match n with
  | O => ([], [])
  | S n =>
      let '(_, s2c) := exchange protoID n in
      let c2s := d_out (snd (msSelect protoID (on_input s2c))) in
      (c2s, d_out (snd (MSRespond (on_input c2s))))
  end.

(** ** Lemmas *)

Lemma readMsg_app d msg k :
  zlen msg ≤ maxAlloc → pending (d_in d) = framed msg ++ k →
  ∃ rd, readMsg d = (Ret msg, Duplex rd (d_out d) (d_werr d)) ∧ pending rd = k ∧
    rd_err rd = rd_err (d_in d).
Proof.
  intros Hm Hp. destruct (readPbMessage_app msg k (d_in d) Hm Hp) as (rd & E & Hk & He).
  exists rd. unfold readMsg. by rewrite E.
Qed.

Lemma readMsg_none d :
  pending (d_in d) = [] →
  ∃ rd, readMsg d = (Fail (MsRead (VarintIO (rd_err (d_in d)))), Duplex rd (d_out d) (d_werr d)).
Proof.
  intros Hp. unfold readMsg. rewrite (readPbMessage_none _ Hp). by eexists.
Qed.

Lemma writeMsg_ok msg rd out :
  writeMsg msg (Duplex rd out None) = (Ret (), Duplex rd (out ++ framed msg) None).
Proof. done. Qed.

Lemma trimNewline_newline s : trimNewline (s ++ newline) = s.
Proof.
  unfold trimNewline, newline. rewrite last_snoc, bool_decide_true by done.
  by rewrite length_app, take_app_le, take_ge by (cbn; lia).
Qed.

(** ** The two sides on the streams of the dialogue *)

Definition header : bytes := str "/multistream/1.0.0" ++ newline.

Lemma header_in : msProtoIDs = [header; str "/multistream-select/1.0.0" ++ newline].
Proof. reflexivity. Qed.

Definition proto_ok (protoID : bytes) : Prop :=
  protoID ≠ na ∧ protoID ≠ na ++ newline ∧ zlen protoID < maxAlloc.

Lemma proto_ok_sent protoID :
  proto_ok protoID →
  is_na (protoID ++ newline) = false ∧ zlen (protoID ++ newline) ≤ maxAlloc.
Proof.
  intros (H1 & H2 & H3). split.
  - unfold is_na. apply bool_decide_false. intros [E|E].
    + apply (f_equal list.last) in E. unfold newline in E. rewrite last_snoc in E. discriminate.
    + by apply app_inv_tail in E.
  - rewrite zlen_app. change (zlen newline) with 1. lia.
Qed.

(** The dialling side, when [header] is the next message. *)
Lemma msSelect_header_ok rd out k :
  pending rd = framed header ++ k →
  ∃ rd', msSelect_header msProtoIDs (Duplex rd out None) =
    (Ret true, Duplex rd' (out ++ framed header) None) ∧
    pending rd' = k ∧ rd_err rd' = rd_err rd.
Proof.
  intros Hp.
  destruct (readMsg_app (Duplex rd (out ++ framed header) None) header k)
    as (rd' & E & Hk & He); [vm_compute; discriminate|done|].
  exists rd'. split; [|done]. rewrite header_in. cbn [msSelect_header].
  rewrite (stm_bind_ret _ _ _ _ _ (writeMsg_ok _ _ _)).
  rewrite (stm_bind_ret _ _ _ _ _ E). unfold names. by rewrite bool_decide_true by auto.
Qed.

Lemma msSelect_answered protoID rd out resp k :
  proto_ok protoID → resp = protoID ∨ resp = protoID ++ newline →
  pending rd = framed header ++ framed resp ++ k →
  ∃ rd', msSelect protoID (Duplex rd out None) =
    (Ret (), Duplex rd' (out ++ framed header ++ framed (protoID ++ newline)) None) ∧
    pending rd' = k ∧ rd_err rd' = rd_err rd.
Proof.
  intros Hw Hr Hp. destruct (proto_ok_sent _ Hw) as [Hna Hz].
  destruct (msSelect_header_ok rd out (framed resp ++ k) Hp) as (rd1 & E1 & Hp1 & He1).
  destruct (readMsg_app (Duplex rd1 ((out ++ framed header) ++ framed (protoID ++ newline)) None)
    resp k) as (rd2 & E2 & Hp2 & He2).
  { destruct Hw as (_ & _ & ?). destruct Hr as [->| ->]; lia. }
  { done. }
  exists rd2. rewrite app_assoc. split; [|split; [done|]].
  2:{ cbn in He2. congruence. }
  unfold msSelect.
  rewrite (stm_bind_ret _ _ _ _ _ E1). cbn [negb].
  rewrite (stm_bind_ret _ _ _ _ _ (writeMsg_ok _ _ _)).
  rewrite (stm_bind_ret _ _ _ _ _ E2).
  assert (is_na resp = false) as ->.
  { destruct Hr as [->| ->]; [|done]. destruct Hw as (? & ? & _).
    unfold is_na. apply bool_decide_false. tauto. }
  rewrite bool_decide_false by tauto. done.
Qed.

Lemma msSelect_answered_input protoID :
  proto_ok protoID →
  ∃ rd, msSelect protoID (on_input (framed header ++ framed (protoID ++ newline))) =
    (Ret (), Duplex rd (framed header ++ framed (protoID ++ newline)) None).
Proof.
  intros Hw.
  destruct (msSelect_answered protoID
    (Reader [framed header ++ framed (protoID ++ newline)] would_block) []
    (protoID ++ newline) [] Hw (or_intror eq_refl)) as (rd & E & _).
  { cbn. by rewrite !app_nil_r. }
  exists rd. exact E.
Qed.

(** The dialling side stops where the input stops. *)
Lemma msSelect_starved protoID :
  d_out (snd (msSelect protoID (on_input []))) = framed header.
Proof.
  destruct (readMsg_none (Duplex (Reader [[]] would_block) (framed header) None) eq_refl)
    as (rd & E).
  unfold msSelect. rewrite header_in. cbn [msSelect_header]. unfold on_input.
  erewrite stm_bind_fail; [|rewrite (stm_bind_ret _ _ _ _ _ (writeMsg_ok _ _ _)); cbn [app];
    by apply stm_bind_fail]. done.
Qed.

Lemma msSelect_half protoID :
  d_out (snd (msSelect protoID (on_input (framed header)))) =
    framed header ++ framed (protoID ++ newline).
Proof.
  destruct (msSelect_header_ok (Reader [framed header] would_block) [] [])
    as (rd1 & E1 & Hp1 & _); [done|].
  destruct (readMsg_none (Duplex rd1 (framed header ++ framed (protoID ++ newline)) None) Hp1)
    as (rd & E).
  unfold msSelect, on_input. rewrite (stm_bind_ret _ _ _ _ _ E1). cbn [negb app].
  rewrite (stm_bind_ret _ _ _ _ _ (writeMsg_ok _ _ _)).
  by rewrite (stm_bind_fail _ _ _ _ _ E).
Qed.

Lemma MSRespond_header_ok rd out :
  MSRespond_header header msProtoIDs (Duplex rd out None) =
    (Ret true, Duplex rd (out ++ framed header) None).
Proof.
  rewrite header_in. cbn [MSRespond_header]. unfold names.
  rewrite bool_decide_true by auto. done.
Qed.

Lemma MSRespond_half : d_out (snd (MSRespond (on_input (framed header)))) = framed header.
Proof.
  destruct (readMsg_app (on_input (framed header)) header []) as (rd & E & Hk & _);
    [vm_compute; discriminate|done|].
  destruct (readMsg_none (Duplex rd (framed header) None) Hk) as (rd' & E').
  unfold MSRespond. rewrite (stm_bind_ret _ _ _ _ _ E). cbn [d_out d_werr on_input].
  rewrite (stm_bind_ret _ _ _ _ _ (MSRespond_header_ok _ _)). cbn [negb app].
  by rewrite (stm_bind_fail _ _ _ _ _ E').
Qed.

Lemma MSRespond_asked protoID rd out k :
  proto_ok protoID → pending rd = framed header ++ framed (protoID ++ newline) ++ k →
  ∃ rd', MSRespond (Duplex rd out None) =
    (Ret protoID, Duplex rd' (out ++ framed header ++ framed (protoID ++ newline)) None) ∧
    pending rd' = k ∧ rd_err rd' = rd_err rd.
Proof.
  intros Hw Hp. destruct (proto_ok_sent _ Hw) as [Hna Hz].
  destruct (readMsg_app (Duplex rd out None) header (framed (protoID ++ newline) ++ k))
    as (rd1 & E & Hk & He); [vm_compute; discriminate|done|].
  destruct (readMsg_app (Duplex rd1 (out ++ framed header) None) (protoID ++ newline) k Hz Hk)
    as (rd2 & E2 & Hk2 & He2).
  exists rd2. rewrite app_assoc. split; [|split; [done|]].
  2:{ cbn in He, He2. congruence. }
  unfold MSRespond. rewrite (stm_bind_ret _ _ _ _ _ E). cbn [d_out d_werr].
  rewrite (stm_bind_ret _ _ _ _ _ (MSRespond_header_ok _ _)). cbn [negb].
  rewrite (stm_bind_ret _ _ _ _ _ E2), Hna. cbn [d_out d_werr].
  rewrite (stm_bind_ret _ _ _ _ _ (writeMsg_ok _ _ _)).
  by rewrite trimNewline_newline.
Qed.

Lemma MSRespond_asked_input protoID :
  proto_ok protoID →
  ∃ rd, MSRespond (on_input (framed header ++ framed (protoID ++ newline))) =
    (Ret protoID, Duplex rd (framed header ++ framed (protoID ++ newline)) None).
Proof.
  intros Hw.
  destruct (MSRespond_asked protoID
    (Reader [framed header ++ framed (protoID ++ newline)] would_block) [] [] Hw)
    as (rd & E & _).
  { cbn. by rewrite !app_nil_r. }
  exists rd. exact E.
Qed.

Lemma exchange_fix protoID n :
  proto_ok protoID →
  exchange protoID (S (S n)) =
    (framed header ++ framed (protoID ++ newline), framed header ++ framed (protoID ++ newline)).
Proof.
  intros Hw. destruct (MSRespond_asked_input protoID Hw) as (rd & E).
  assert (∀ c, c = framed header ++ framed (protoID ++ newline) →
    (c, d_out (snd (MSRespond (on_input c)))) =
    (framed header ++ framed (protoID ++ newline), framed header ++ framed (protoID ++ newline)))
    as Hs by (intros c ->; by rewrite E).
  induction n as [|n IH].
  - cbn [exchange]. rewrite msSelect_starved, MSRespond_half. apply Hs, msSelect_half.
  - change (exchange protoID (S (S (S n)))) with
      (let '(_, s2c) := exchange protoID (S (S n)) in
       let c2s := d_out (snd (msSelect protoID (on_input s2c))) in
       (c2s, d_out (snd (MSRespond (on_input c2s))))).
    rewrite IH. apply Hs.
    destruct (msSelect_answered_input protoID Hw) as (rd' & E'). by rewrite E'.
Qed.

(** ** What a successful dial has seen *)

Lemma writeMsg_inv msg d d' :
  writeMsg msg d = (Ret (), d') →
  d_in d' = d_in d ∧ d_out d' = d_out d ++ framed msg ∧ d_werr d' = d_werr d.
Proof.
  unfold writeMsg. destruct (d_werr d) eqn:E; [done|]. intros [= <-]. done.
Qed.

Lemma readMsg_out d : d_out (snd (readMsg d)) = d_out d.
Proof. unfold readMsg. by destruct (readPbMessage (d_in d)). Qed.

Lemma readMsg_out_eq d r d' : readMsg d = (r, d') → d_out d' = d_out d.
Proof. intros E. rewrite <- (readMsg_out d), E. done. Qed.

Lemma msSelect_header_inv ids d d' :
  msSelect_header ids d = (Ret true, d') →
  ∃ k, (1 ≤ k ≤ length ids)%nat ∧ d_out d' = d_out d ++ concat (map framed (take k ids)).
Proof.
  revert d. induction ids as [|m ids IH]; intros d H; [done|].
  cbn [msSelect_header] in H.
  apply stm_bind_inv in H as ([] & d1 & Hw & H). apply writeMsg_inv in Hw as (_ & Ho & _).
  apply stm_bind_inv in H as (resp & d2 & Hr & H). apply readMsg_out_eq in Hr.
  destruct (names resp m).
  { injection H as <-. exists 1%nat. cbn [take map concat length]. rewrite app_nil_r.
    split; [lia|congruence]. }
  destruct (is_na resp).
  { apply IH in H as (k & Hk & Hd). exists (S k). cbn [take map concat length].
    split; [lia|]. rewrite Hd, Hr, Ho. by rewrite app_assoc. }
  destruct (existsb _ _); [|done].
  injection H as <-. exists 1%nat. cbn [take map concat length]. rewrite app_nil_r.
  split; [lia|congruence].
Qed.

Lemma msSelect_inv protoID d d' :
  msSelect protoID d = (Ret (), d') →
  (∃ d1 resp, readMsg d1 = (Ret resp, d') ∧ (resp = protoID ∨ resp = protoID ++ newline)) ∧
  ∃ k, (k = 1%nat ∨ k = 2%nat) ∧
    d_out d' = d_out d ++ concat (map framed (take k msProtoIDs)) ++
               framed (protoID ++ newline).
Proof.
  intros H. unfold msSelect in H. apply stm_bind_inv in H as (matched & d1 & Hh & H).
  destruct matched; [|done]. cbn [negb] in H.
  apply msSelect_header_inv in Hh as (k & Hk & Ho).
  apply stm_bind_inv in H as ([] & d2 & Hw & H). apply writeMsg_inv in Hw as (_ & Ho2 & _).
  apply stm_bind_inv in H as (resp & d3 & Hr & H). pose proof (readMsg_out_eq _ _ _ Hr) as Ho3.
  destruct (is_na resp); [done|]. case_bool_decide as Hn; [done|]. injection H as <-.
  split.
  - exists d2, resp. split; [done|].
    destruct (decide (resp = protoID)); [auto|]. destruct (decide (resp = protoID ++ newline)); [auto|].
    by destruct Hn.
  - exists k. cbn in Hk. split; [lia|]. by rewrite Ho3, Ho2, Ho, <- app_assoc.
Qed.

(** ** Properties *)

(** C35: The dialling side and the listening side, run against each other, agree:
    from the second round of the exchange on (nothing is sent after it), the
    dialling side has succeeded and the listening side has returned exactly the
    protocol that was asked for.  Neither side waits for input that the other
    never sends. *)
Theorem ms_negotiation_agrees protoID n :
  proto_ok protoID → (2 ≤ n)%nat →
  fst (msSelect protoID (on_input (snd (exchange protoID n)))) = Ret () ∧
  fst (MSRespond (on_input (fst (exchange protoID n)))) = Ret protoID.
Proof.
  intros Hw Hn. destruct n as [|[|n]]; [lia|lia|]. rewrite exchange_fix by done. cbn [fst snd].
  destruct (msSelect_answered_input protoID Hw) as (rd & E).
  destruct (MSRespond_asked_input protoID Hw) as (rd' & E'). by rewrite E, E'.
Qed.

Lemma ms_negotiation_agrees_witness :
  fst (msSelect (str "/yamux/1.0.0") (on_input (snd (exchange (str "/yamux/1.0.0") 2)))) = Ret () ∧
  fst (MSRespond (on_input (fst (exchange (str "/yamux/1.0.0") 2)))) = Ret (str "/yamux/1.0.0").
Proof.
  apply (ms_negotiation_agrees (str "/yamux/1.0.0") 2); [|lia].
  repeat split; vm_compute; discriminate.
Defined.

(** Whatever the peer sends, [msSelect] succeeds only if the last message read
    is the requested protocol, with or without the newline, and then it has sent
    one or two multistream headers followed by exactly that request. *)
Theorem msSelect_sound protoID d d' :
  msSelect protoID d = (Ret (), d') →
  (∃ d1 resp, readMsg d1 = (Ret resp, d') ∧ (resp = protoID ∨ resp = protoID ++ newline)) ∧
  ∃ k, (k = 1%nat ∨ k = 2%nat) ∧
    d_out d' = d_out d ++ concat (map framed (take k msProtoIDs)) ++
               framed (protoID ++ newline).
Proof. apply msSelect_inv. Qed.

Lemma msSelect_sound_witness :
  ∃ k, (k = 1%nat ∨ k = 2%nat) ∧
    framed header ++ framed (str "/p" ++ newline) =
      concat (map framed (take k msProtoIDs)) ++ framed (str "/p" ++ newline).
Proof.
  destruct (msSelect (str "/p") (on_input (framed header ++ framed (str "/p")))) as [o d'] eqn:E.
  destruct o as [[]|e|]; [|vm_compute in E; discriminate E..].
  destruct (msSelect_sound _ _ _ E) as [_ (k & Hk & Hd)].
  exists k. split; [exact Hk|]. vm_compute in E. injection E as <-.
  cbn [d_out] in Hd. etransitivity; [|exact Hd]. vm_compute. reflexivity.
Defined.

(** The peer chooses the length prefix of every negotiation message: one above
    the allocation limit makes both [msSelect] and [MSRespond] panic instead of
    returning an error. *)
Theorem ms_length_panics protoID l k :
  maxAlloc < l < 2 ^ 64 →
  fst (msSelect protoID (on_input (encodeVarint l ++ k))) = Panic ∧
  fst (MSRespond (on_input (encodeVarint l ++ k))) = Panic.
Proof.
  intros Hl.
  assert (∀ out, ∃ d, readMsg (Duplex (Reader [encodeVarint l ++ k] would_block) out None)
            = (Panic, d)) as Hp.
  { intros out. unfold readMsg. cbn [d_in].
    destruct (readPbMessage_big l k (Reader [encodeVarint l ++ k] would_block) Hl) as (r & ->);
      [by cbn; rewrite app_nil_r|]. by eexists. }
  split.
  - destruct (Hp (framed header)) as (d & E). unfold msSelect. rewrite header_in.
    cbn [msSelect_header]. unfold on_input.
    erewrite stm_bind_panic; [done|].
    rewrite (stm_bind_ret _ _ _ _ _ (writeMsg_ok _ _ _)). cbn [app]. by apply stm_bind_panic.
  - destruct (Hp []) as (d & E). unfold MSRespond, on_input. by erewrite stm_bind_panic.
Qed.

Lemma ms_length_panics_witness :
  fst (MSRespond (on_input (encodeVarint (2 ^ 60) ++ []))) = Panic.
Proof. apply (ms_length_panics (str "/p") (2 ^ 60) []). vm_compute. intuition. Defined.
