(* ===== verification/RelayStream.v ===== *)
(** * Circuit-relay exchanges (relayhub/relay.go, the stream level)

    The conversations of the relay client on the streams of its yamux session:
    dialling a peer through the relay (circuit v2, then v1), reserving a slot,
    answering incoming streams, ping and identify.  The yamux session is third
    party code: it is the sequence of streams its [Open] will hand out.  The
    theorems: a dial succeeds exactly on an OK status and sends exactly the
    CONNECT request, no failing path leaks an open stream, a reservation is
    stored only from an OK answer, and ping echoes every message. *)

From stdpp Require Import strings.
From S2P Require Import Prelude GoIO Varint CircuitPb Multistream.
Local Open Scope Z_scope.

(** ** Streams and sessions *)

(** A stream of the session, or a connection on it. *)
Record stream := Stream { s_io : duplex; s_closed : bool }.

Inductive relay_err : Type :=
| ENotConnected
| EOpen (e : io_err)
| EMs (e : ms_err)
| EVarint (e : varint_err)
| EWrite (e : io_err)
| ETooLarge
| EPb (e : pb_err)
| EStatusType (t : Z)
| EStatus (name : string)
| ERelayConnect (v2 v1 : relay_err).

Abbreviation st := (stm stream relay_err).

Definition on_duplex {E A} (f : E → relay_err) (m : stm duplex E A) : st A := fun s =>
  let '(r, d) := m (s_io s) in (map_err f r, Stream d (s_closed s)).

Definition on_reader {E A} (f : E → relay_err) (m : stm reader E A) : st A := fun s =>
  let '(r, rd) := m (d_in (s_io s)) in
  (map_err f r, Stream (Duplex rd (d_out (s_io s)) (d_werr (s_io s))) (s_closed s)).

(** [stream.Close()] *)
Definition close : st unit := fun s => (Ret (), Stream (s_io s) true).

(** [if err := m; err != nil { stream.Close(); return err }] *)
Definition or_close {A} (m : st A) : st A := fun s =>
  match m s with
  | (Fail e, s') => (Fail e, Stream (s_io s') true)
  | r => r
  end.

(** [defer stream.Close()] *)
Definition defer_close {A} (m : st A) : st A := fun s =>
  let '(r, s') := m s in (r, Stream (s_io s') true).

(** A call whose error the source drops. *)
Definition drop_err {A} (m : st A) : st unit := fun s =>
  match m s with
  | (Panic, s') => (Panic, s')
  | (_, s') => (Ret (), s')
  end.

Definition st_decode {A} (m : outcome pb_err A) : st A := stm_lift (map_err EPb m).

Definition ms_select (proto : bytes) : st unit := on_duplex EMs (MSSelect proto).
Definition write_pb (msg : bytes) : st unit := on_duplex EWrite (writePbMessage dup_write msg).

(** ** readOnePb *)

Definition readOnePb_body (l : Z) : st bytes :=
  if l >? 4096 then stm_fail ETooLarge
  else on_reader (λ e, EVarint (VarintIO e)) (ReadFull (Z.to_nat l)).

Definition readOnePb : st bytes := on_reader EVarint readVarint ≫= readOnePb_body.

(** ** Dialling *)

Definition hop_proto : bytes := str "/libp2p/circuit/relay/0.2.0/hop".
Definition stop_proto : bytes := str "/libp2p/circuit/relay/0.2.0/stop".
Definition CircuitV1ProtoID : bytes := str "/libp2p/circuit/relay/0.1.0".

Definition connect_msg (dstPeerID : option bytes) : HopMessage :=
  mkHop HopTypeConnect (Some (mkPeer dstPeerID [])) None None 0.

(** The CONNECT conversation, the body of [connectV2Hop] after [Open] and of
    the package-level [ConnectThroughRelay] after [DialContext]. *)
Definition hop_connect (dstPeerID : option bytes) : st unit :=
  _ ← or_close (ms_select hop_proto);
  _ ← or_close (write_pb (encodeHopMessage (connect_msg dstPeerID)));
  respData ← or_close readOnePb;
  resp ← or_close (st_decode (decodeHopMessage respData));
  if negb (Hop_Type resp =? HopTypeStatus) then
    or_close (stm_fail (EStatusType (Hop_Type resp)))
  else if negb (Hop_Status resp =? StatusOK) then
    or_close (stm_fail (EStatus (statusString (Hop_Status resp))))
  else mret ().

Definition v1_hop_msg (id dstPeerID : option bytes) : CircuitV1Message :=
  mkV1 CircuitV1TypeHop (Some (mkPeer id [])) (Some (mkPeer dstPeerID [])) 0.

Definition v1_connect (id dstPeerID : option bytes) : st unit :=
  _ ← or_close (ms_select CircuitV1ProtoID);
  _ ← or_close (write_pb (encodeCircuitV1 (v1_hop_msg id dstPeerID)));
  respData ← or_close readOnePb;
  resp ← or_close (st_decode (decodeCircuitV1 respData));
  if negb (V1_Type resp =? CircuitV1TypeStatus) then
    or_close (stm_fail (EStatusType (V1_Type resp)))
  else if negb (Code resp =? CircuitV1StatusSuccess) then
    or_close (stm_fail (EStatus (circuitV1StatusString (Code resp))))
  else mret ().

(** A session: the results its [Open] will give, and the streams opened so far
    as the conversations left them. *)
Record session := Session { to_open : list (io_err + duplex); opened : list stream }.

Abbreviation sess := (stm session relay_err).

(** [stream, err := s.Open()] followed by the conversation [m] on the stream;
    the result names the stream by its position in [opened]. *)
Definition open_run {A} (m : st A) : sess (nat * A) := fun s =>
  match to_open s with
  | [] => (Fail (EOpen EOF), s)
  | inl e :: rest => (Fail (EOpen e), Session rest (opened s))
  | inr d :: rest =>
      let '(r, s') := m (Stream d false) in
      (a ← r; mret (length (opened s), a), Session rest (opened s ++ [s']))
  end.

Definition connectV2Hop (dstPeerID : option bytes) : sess nat :=
  p ← open_run (hop_connect dstPeerID); mret (fst p).

Definition connectV1Hop (id dstPeerID : option bytes) : sess nat :=
  p ← open_run (v1_connect id dstPeerID); mret (fst p).

(** [RelayClient.ConnectThroughRelay]: circuit v2 first, v1 as the fallback. *)
Definition ConnectThroughRelay_session (id dstPeerID : option bytes) : sess nat := fun s =>
  match connectV2Hop dstPeerID s with
  | (Ret c, s1) => (Ret c, s1)
  | (Panic, s1) => (Panic, s1)
  | (Fail v2Err, s1) =>
      match connectV1Hop id dstPeerID s1 with
      | (Ret c, s2) => (Ret c, s2)
      | (Panic, s2) => (Panic, s2)
      | (Fail v1Err, s2) => (Fail (ERelayConnect v2Err v1Err), s2)
      end
  end.

(** The package-level [ConnectThroughRelay], on a dialled connection. *)
Definition ConnectThroughRelay_dialed (dial : io_err + duplex) (dstPeerID : option bytes)
    : outcome relay_err stream * option stream :=
  match dial with
  | inl e => (Fail (EOpen e), None)
  | inr d =>
      let '(r, s) := hop_connect dstPeerID (Stream d false) in
      (_ ← r; mret s, Some s)
  end.

(** ** Reservations *)

(** [time.Time{}] in seconds. *)
Definition zeroTime : Z := -62135596800.

Record resv := Resv {
  reservationExpiry : Z;
  reservationAddrs : list bytes;
  voucher : option bytes;
  limit : option Limit
}.

Definition new_resv : resv := Resv zeroTime [] None None.

Definition HasReservation (now : Z) (r : resv) : bool :=
  negb (reservationExpiry r =? zeroTime) && (now <? reservationExpiry r).

Definition ReservationAddrs (r : resv) : list bytes := reservationAddrs r.
Definition Voucher_copy (r : resv) : bytes := default [] (voucher r).

Definition reserve_msg : HopMessage := mkHop HopTypeReserve None None None 0.

(** The RESERVE conversation up to the decoded answer. *)
Definition reserve_ask : st HopMessage :=
  _ ← ms_select hop_proto;
  _ ← write_pb (encodeHopMessage reserve_msg);
  respData ← readOnePb;
  st_decode (decodeHopMessage respData).

Definition reserve_conv : st HopMessage :=
  defer_close (
    resp ← reserve_ask;
    if negb (Hop_Type resp =? HopTypeStatus) then stm_fail (EStatusType (Hop_Type resp))
    else if negb (Hop_Status resp =? StatusOK) then
      stm_fail (EStatus (statusString (Hop_Status resp)))
    else mret resp).

(** [c.mu.Lock(); ...; c.mu.Unlock()] of [Reserve]. *)
Definition store_reservation (resp : HopMessage) (r : resv) : resv :=
  let r := match Hop_Reservation resp with
           | Some v => Resv (i64 (Expire v)) (Resv_Addrs v) (Voucher v) (limit r)
           | None => r
           end in
  match Hop_Limit resp with
  | Some l => Resv (reservationExpiry r) (reservationAddrs r) (voucher r) (Some l)
  | None => r
  end.

Definition Reserve (s : option session) (r : resv)
    : outcome relay_err unit * option session * resv :=
  match s with
  | None => (Fail ENotConnected, None, r)
  | Some s =>
      match open_run reserve_conv s with
      | (Ret (_, resp), s') => (Ret (), Some s', store_reservation resp r)
      | (Fail e, s') => (Fail e, Some s', r)
      | (Panic, s') => (Panic, Some s', r)
      end
  end.

Definition refresh_conv : st HopMessage :=
  defer_close (
    resp ← reserve_ask;
    if negb (Hop_Type resp =? HopTypeStatus) || negb (Hop_Status resp =? StatusOK)
    then stm_fail (EStatus "refresh failed")
    else mret resp).

Definition RefreshReservation (s : option session) (r : resv)
    : outcome relay_err unit * option session * resv :=
  match s with
  | None => (Fail ENotConnected, None, r)
  | Some s =>
      match open_run refresh_conv s with
      | (Ret (_, resp), s') =>
          (Ret (), Some s',
           match Hop_Reservation resp with
           | Some v => Resv (i64 (Expire v)) (reservationAddrs r) (voucher r) (limit r)
           | None => r
           end)
      | (Fail e, s') => (Fail e, Some s', r)
      | (Panic, s') => (Panic, Some s', r)
      end
  end.

(** ** Incoming streams *)

(** What [handleIncoming] gives its caller: a connection on the stream, or
    nothing; [handlePing] is started as a goroutine. *)
Inductive incoming : Type := Relayed | NoConn | SpawnPing.

#[export] Instance incoming_eq_dec : EqDecision incoming.
Proof. solve_decision. Defined.

Definition v1_status_msg : CircuitV1Message :=
  mkV1 CircuitV1TypeStatus None None CircuitV1StatusSuccess.

Definition acceptV1Hop : st incoming :=
  data ← readOnePb;
  msg ← st_decode (decodeCircuitV1 data);
  if V1_Type msg =? CircuitV1TypeStop then
    _ ← write_pb (encodeCircuitV1 v1_status_msg);
    mret Relayed
  else if V1_Type msg =? CircuitV1TypeCanHop then
    _ ← drop_err (write_pb (encodeCircuitV1 v1_status_msg));
    _ ← close;
    mret NoConn
  else stm_fail (EStatusType (V1_Type msg)).

Definition stop_status_msg : StopMessage := mkStop StopTypeStatus None None StatusOK.

Definition acceptV2Stop : st incoming :=
  data ← or_close readOnePb;
  msg ← or_close (st_decode (decodeStopMessage data));
  if negb (Stop_Type msg =? StopTypeConnect) then
    or_close (stm_fail (EStatusType (Stop_Type msg)))
  else
    _ ← or_close (write_pb (encodeStopMessage stop_status_msg));
    mret Relayed.

Definition rejectStream : st unit := defer_close (drop_err readOnePb).

(** [strings.TrimRight(s, "\n\r\t ")] *)
Definition is_blank (b : byte) : bool := bool_decide (b ∈ [x0a; x0d; x09; x20]).

Fixpoint trim_blanks (s : bytes) : bytes :=
  match s with
  | [] => []
  | b :: s' =>
      match trim_blanks s' with
      | [] => if is_blank b then [] else [b]
      | t => b :: t
      end
  end.

Section Identify.
(** [ed25519.Sign] with the client's key and [marshalEd25519PubKey] of its
    public key. *)
Context (sign : bytes → bytes) (pubKeyProto : bytes).

Definition envelope_type : bytes := [x81; x06].

Definition buildIdentifyResponse (now : Z) (id : bytes) (pubKey : bytes)
    (protocols : list bytes) : bytes :=
  let pr := encodePeerRecord (u64 now) id [] in
  let sig := sign (str "libp2p-envelope" ++ pubKey ++ envelope_type ++ pr) in
  let env := encodeEnvelope pubKey envelope_type pr sig in
  pbEncodeLengthDelimField 1 pubKey ++
  pbEncodeLengthDelimFields 3 protocols ++
  pbEncodeLengthDelimField 6 (str "relayhub/0.1.0") ++
  pbEncodeLengthDelimField 8 env.

Definition handleIncoming (now : Z) (id : bytes) : st incoming :=
  proto ← on_duplex EMs MSRespond;
  let proto := trim_blanks proto in
  if bool_decide (proto = CircuitV1ProtoID) then acceptV1Hop
  else if bool_decide (proto = stop_proto) then acceptV2Stop
  else if bool_decide (proto = str "/ipfs/id/1.0.0") then
    _ ← drop_err (write_pb (buildIdentifyResponse now id pubKeyProto
                              [CircuitV1ProtoID; str "/ipfs/id/1.0.0"]));
    mret NoConn
  else if bool_decide (proto = str "/ipfs/id/push/1.0.0") then
    _ ← drop_err readOnePb; mret NoConn
  else if bool_decide (proto ∈ [str "/libp2p/autonat/1.0.0"; str "/libp2p/autonat/2/dial-back";
                                str "/libp2p/autonat/2/dial-request"; str "/libp2p/dcutr";
                                str "/ipfs/kad/1.0.0"]) then
    _ ← rejectStream; mret NoConn
  else if bool_decide (proto = str "/ipfs/ping/1.0.0") then mret SpawnPing
  else mret NoConn.
End Identify.

(** [handlePing]: the loop ends with the first error; each turn consumes a byte
    at least, so the pending bytes bound the turns. *)
Fixpoint handlePing_loop (fuel : nat) : st unit :=
  match fuel with
  | O => mret ()
  | S fuel => data ← readOnePb; _ ← write_pb data; handlePing_loop fuel
  end.

Definition handlePing : st unit := fun s =>
  defer_close (drop_err (handlePing_loop (S (length (pending (d_in (s_io s))))))) s.

(** [pullIdentify] on the opened stream. *)
Definition pullIdentify : st unit :=
  defer_close (drop_err (_ ← ms_select (str "/ipfs/id/1.0.0"); readOnePb)).

(** ** Which calls close the stream *)

(** [m] leaves the stream open or closed as it was. *)
Definition keeps {A} (m : st A) : Prop := ∀ s, s_closed (snd (m s)) = s_closed s.

(** From an open stream, [m] leaves it open when it succeeds and closed when it
    fails. *)
Definition tidy {A} (m : st A) : Prop :=
  ∀ s, s_closed s = false →
  match m s with
  | (Ret _, s') => s_closed s' = false
  | (Fail _, s') => s_closed s' = true
  | (Panic, _) => True
  end.

Lemma keeps_duplex {E A} (f : E → relay_err) (m : stm duplex E A) : keeps (on_duplex f m).
Proof. intros s. unfold on_duplex. by destruct (m (s_io s)). Qed.

Lemma keeps_reader {E A} (f : E → relay_err) (m : stm reader E A) : keeps (on_reader f m).
Proof. intros s. unfold on_reader. by destruct (m (d_in (s_io s))). Qed.

Lemma keeps_lift {A} (o : outcome relay_err A) : keeps (stm_lift o).
Proof. done. Qed.

Lemma keeps_fail {A} e : keeps (@stm_fail stream relay_err A e).
Proof. done. Qed.

Lemma keeps_ret {A} (a : A) : keeps (mret a).
Proof. done. Qed.

Lemma keeps_bind {A B} (m : st A) (k : A → st B) :
  keeps m → (∀ a, keeps (k a)) → keeps (m ≫= k).
Proof.
  intros Hm Hk s. specialize (Hm s). unfold mbind, stm_bind.
  destruct (m s) as [[a|e|] s1]; [|done..]. cbn in Hm. by rewrite Hk.
Qed.

Lemma keeps_readOnePb : keeps readOnePb.
Proof.
  apply keeps_bind; [apply keeps_reader|]. intros l. unfold readOnePb_body.
  destruct (l >? 4096); [apply keeps_fail|apply keeps_reader].
Qed.

Lemma tidy_or_close {A} (m : st A) : keeps m → tidy (or_close m).
Proof.
  intros H s Hs. specialize (H s). unfold or_close.
  by destruct (m s) as [[a|e|] s1]; cbn in *; try congruence.
Qed.

Lemma tidy_bind {A B} (m : st A) (k : A → st B) :
  tidy m → (∀ a, tidy (k a)) → tidy (m ≫= k).
Proof.
  intros Hm Hk s Hs. specialize (Hm s Hs). unfold mbind, stm_bind.
  destruct (m s) as [[a|e|] s1]; [|done..]. by apply Hk.
Qed.

Lemma tidy_ret {A} (a : A) : tidy (mret a).
Proof. by intros s Hs. Qed.

Create HintDb relay.
#[export] Hint Resolve keeps_duplex keeps_reader keeps_lift keeps_fail keeps_ret keeps_readOnePb
  tidy_or_close tidy_ret : relay.
#[export] Hint Extern 1 (keeps (ms_select _)) => apply keeps_duplex : relay.
#[export] Hint Extern 1 (keeps (write_pb _)) => apply keeps_duplex : relay.
#[export] Hint Extern 1 (keeps (st_decode _)) => apply keeps_lift : relay.

Ltac tidy_conv :=
  repeat first [apply tidy_bind; [solve [auto with relay]|intros ?] | case_match];
  auto with relay.

Lemma hop_connect_tidy dst : tidy (hop_connect dst).
Proof. unfold hop_connect. tidy_conv. Qed.

Lemma v1_connect_tidy id dst : tidy (v1_connect id dst).
Proof. unfold v1_connect. tidy_conv. Qed.

Lemma acceptV2Stop_tidy : tidy acceptV2Stop.
Proof. unfold acceptV2Stop. tidy_conv. Qed.

(** The streams a dial adds to the session. *)
Lemma open_run_tidy {A} (m : st A) s r s' :
  tidy m → open_run m s = (r, s') →
  ∃ new, opened s' = opened s ++ new ∧
  match r with
  | Ret (c, _) => c = length (opened s) ∧ ∃ x, new = [x] ∧ s_closed x = false
  | Fail _ => Forall (λ x, s_closed x = true) new
  | Panic => True
  end.
Proof.
  intros Ht E. unfold open_run in E. destruct (to_open s) as [|[e|d] k].
  - injection E as <- <-. exists []. by rewrite app_nil_r.
  - injection E as <- <-. exists []. by rewrite app_nil_r.
  - specialize (Ht (Stream d false) eq_refl). destruct (m (Stream d false)) as [[a|e|] x].
    + injection E as <- <-. exists [x]. cbn. eauto.
    + injection E as <- <-. exists [x]. cbn. auto.
    + injection E as <- <-. by exists [x].
Qed.

Lemma dial_tidy {A} (m : st A) s r s' :
  tidy m → (p ← open_run m; mret (fst p)) s = (r, s') →
  ∃ new, opened s' = opened s ++ new ∧
  match r with
  | Ret c => c = length (opened s) ∧ ∃ x, new = [x] ∧ s_closed x = false
  | Fail _ => Forall (λ x, s_closed x = true) new
  | Panic => True
  end.
Proof.
  intros Ht. unfold mbind, stm_bind. intros E. destruct (open_run m s) as [o s1] eqn:Eo.
  apply (open_run_tidy m s o s1 Ht) in Eo as (new & En & H).
  exists new. destruct o as [[c u]|e|]; injection E as <- <-; auto.
Qed.

Lemma ConnectThroughRelay_tidy id dst s r s' :
  ConnectThroughRelay_session id dst s = (r, s') →
  ∃ new, opened s' = opened s ++ new ∧
  match r with
  | Ret c => ∃ tried x, new = tried ++ [x] ∧ c = (length (opened s) + length tried)%nat ∧
      s_closed x = false ∧ Forall (λ y, s_closed y = true) tried
  | Fail _ => Forall (λ y, s_closed y = true) new
  | Panic => True
  end.
Proof.
  unfold ConnectThroughRelay_session. intros E.
  destruct (connectV2Hop dst s) as [o2 s1] eqn:E2.
  apply (dial_tidy _ _ _ _ (hop_connect_tidy dst)) in E2 as (new2 & En2 & H2).
  destruct o2 as [c|e2|].
  - injection E as <- <-. destruct H2 as (-> & x & -> & Hx).
    exists [x]. split; [done|]. exists [], x. rewrite Nat.add_0_r. auto.
  - destruct (connectV1Hop id dst s1) as [o1 s2] eqn:E1.
    apply (dial_tidy _ _ _ _ (v1_connect_tidy id dst)) in E1 as (new1 & En1 & H1).
    rewrite En2 in En1, H1. destruct o1 as [c|e1|]; injection E as <- <-.
    + destruct H1 as (-> & x & -> & Hx). rewrite <- app_assoc in En1.
      exists (new2 ++ [x]). split; [done|]. exists new2, x. by rewrite length_app.
    + exists (new2 ++ new1). rewrite app_assoc. split; [done|]. by apply Forall_app.
    + exists (new2 ++ new1). by rewrite app_assoc.
  - injection E as <- <-. eauto.
Qed.

(** ** The conversations on a given stream *)

Lemma readOnePb_app msg k rd out werr c :
  zlen msg ≤ 4096 → pending rd = framed msg ++ k →
  ∃ rd', readOnePb (Stream (Duplex rd out werr) c) = (Ret msg, Stream (Duplex rd' out werr) c) ∧
    pending rd' = k ∧ rd_err rd' = rd_err rd.
Proof.
  intros Hm Hp. assert (u64 (zlen msg) = zlen msg) as Eu.
  { apply wrap_u_small. unfold zlen in *. lia. }
  unfold framed in Hp. rewrite Eu, <- app_assoc in Hp.
  destruct (readVarint_encodeVarint rd (zlen msg) (msg ++ k)) as (r1 & E & Hp1 & He1);
    [unfold zlen in *; lia|done|].
  destruct (ReadFull_app (length msg) r1 msg k Hp1 eq_refl) as (r2 & E2 & Hp2 & He2).
  exists r2. split; [|split; [done|congruence]].
  unfold readOnePb, mbind, stm_bind, on_reader. cbn [s_io d_in]. rewrite E. cbn.
  unfold readOnePb_body. destruct (zlen msg >? 4096) eqn:E3; zbool; [lia|].
  unfold on_reader. cbn [s_io d_in]. unfold zlen. by rewrite Nat2Z.id, E2.
Qed.

Lemma write_pb_ok msg rd out c :
  write_pb msg (Stream (Duplex rd out None) c) =
    (Ret (), Stream (Duplex rd (out ++ framed msg) None) c).
Proof. done. Qed.

Lemma ms_select_answered protoID rd out resp k c :
  proto_ok protoID → resp = protoID ∨ resp = protoID ++ newline →
  pending rd = framed header ++ framed resp ++ k →
  ∃ rd', ms_select protoID (Stream (Duplex rd out None) c) =
    (Ret (), Stream (Duplex rd' (out ++ framed header ++ framed (protoID ++ newline)) None) c) ∧
    pending rd' = k ∧ rd_err rd' = rd_err rd.
Proof.
  intros Hw Hr Hp. destruct (msSelect_answered _ rd out _ _ Hw Hr Hp) as (rd' & E & ?).
  exists rd'. split; [|done]. unfold ms_select, on_duplex. cbn [s_io].
  unfold MSSelect. by rewrite E.
Qed.

Lemma or_close_ret {A} (m : st A) s a s' : m s = (Ret a, s') → or_close m s = (Ret a, s').
Proof. intros E. unfold or_close. by rewrite E. Qed.

Lemma or_close_inv {A} (m : st A) s a s' : or_close m s = (Ret a, s') → m s = (Ret a, s').
Proof. unfold or_close. by destruct (m s) as [[]]. Qed.

Lemma st_decode_inv {A} (o : outcome pb_err A) s a s' :
  st_decode o s = (Ret a, s') → o = Ret a ∧ s' = s.
Proof. unfold st_decode, stm_lift. destruct o; cbn; intros [= <- <-]; auto. Qed.

Lemma write_pb_inv msg s s' :
  write_pb msg s = (Ret (), s') → d_out (s_io s') = d_out (s_io s) ++ framed msg.
Proof.
  destruct s as [[rd out [e|]] c]; [done|]. rewrite write_pb_ok. by intros [= <-].
Qed.

Lemma on_reader_out {E A} (f : E → relay_err) (m : stm reader E A) s :
  d_out (s_io (snd (on_reader f m s))) = d_out (s_io s).
Proof. unfold on_reader. by destruct (m (d_in (s_io s))). Qed.

Lemma readOnePb_out s r s' : readOnePb s = (r, s') → d_out (s_io s') = d_out (s_io s).
Proof.
  unfold readOnePb, mbind, stm_bind. intros E.
  pose proof (on_reader_out EVarint readVarint s) as H1.
  destruct (on_reader EVarint readVarint s) as [[l|e|] s1]; cbn in H1; [|by simplify_eq..].
  unfold readOnePb_body in E. destruct (l >? 4096); [by injection E as <- <-|].
  rewrite <- H1, <- (on_reader_out (λ e, EVarint (VarintIO e)) (ReadFull (Z.to_nat l)) s1).
  by rewrite E.
Qed.

Lemma ms_select_inv protoID s s' :
  ms_select protoID s = (Ret (), s') →
  ∃ k, (k = 1%nat ∨ k = 2%nat) ∧
    d_out (s_io s') = d_out (s_io s) ++ concat (map framed (take k msProtoIDs)) ++
                      framed (protoID ++ newline).
Proof.
  unfold ms_select, on_duplex. intros E.
  destruct (MSSelect protoID (s_io s)) as [[[]|e|] d] eqn:Em; [|done..].
  injection E as <-. apply msSelect_inv in Em as [_ H]. exact H.
Qed.

Lemma hop_proto_ok : proto_ok hop_proto.
Proof. repeat split; vm_compute; discriminate. Qed.

Lemma stop_proto_ok : proto_ok stop_proto.
Proof. repeat split; vm_compute; discriminate. Qed.

(** An accepting answer of the relay. *)
Definition accepting (resp : HopMessage) : Prop :=
  Hop_Type resp = HopTypeStatus ∧ Hop_Status resp = StatusOK.

(** What the dialling side writes in a successful CONNECT. *)
Definition connect_request (dst : option bytes) : bytes :=
  framed header ++ framed (hop_proto ++ newline) ++ framed (encodeHopMessage (connect_msg dst)).

(** What the relay writes when it accepts. *)
Definition connect_answer (resp : HopMessage) : bytes :=
  framed header ++ framed (hop_proto ++ newline) ++ framed (encodeHopMessage resp).

Lemma reserve_ask_ok rd out c resp k :
  hop_wf resp → zlen (encodeHopMessage resp) ≤ 4096 →
  pending rd = connect_answer resp ++ k →
  ∃ rd', reserve_ask (Stream (Duplex rd out None) c) =
    (Ret resp, Stream (Duplex rd' (out ++ framed header ++ framed (hop_proto ++ newline) ++
                 framed (encodeHopMessage reserve_msg)) None) c) ∧ pending rd' = k.
Proof.
  intros Hw Hl Hp. unfold connect_answer in Hp. rewrite <- !app_assoc in Hp.
  destruct (ms_select_answered hop_proto rd out _ _ c hop_proto_ok (or_intror eq_refl) Hp)
    as (rd1 & E1 & Hp1 & _).
  destruct (readOnePb_app (encodeHopMessage resp) k rd1
    ((out ++ framed header ++ framed (hop_proto ++ newline)) ++ framed (encodeHopMessage reserve_msg))
    None c Hl Hp1) as (rd2 & E2 & Hp2 & _).
  exists rd2. rewrite <- !app_assoc in E2. split; [|done]. unfold reserve_ask.
  rewrite (stm_bind_ret _ _ _ _ _ E1).
  rewrite (stm_bind_ret _ _ _ _ _ (write_pb_ok _ _ _ _)), <- !app_assoc.
  rewrite (stm_bind_ret _ _ _ _ _ E2). unfold st_decode, stm_lift.
  by rewrite decodeHopMessage_encode.
Qed.

Lemma hop_connect_ok dst rd out c resp k :
  hop_wf resp → accepting resp → zlen (encodeHopMessage resp) ≤ 4096 →
  pending rd = connect_answer resp ++ k →
  ∃ rd', hop_connect dst (Stream (Duplex rd out None) c) =
    (Ret (), Stream (Duplex rd' (out ++ connect_request dst) None) c) ∧ pending rd' = k.
Proof.
  intros Hw [Ht Hs] Hl Hp. unfold connect_answer in Hp. rewrite <- !app_assoc in Hp.
  destruct (ms_select_answered hop_proto rd out _ _ c hop_proto_ok (or_intror eq_refl) Hp)
    as (rd1 & E1 & Hp1 & _).
  destruct (readOnePb_app (encodeHopMessage resp) k rd1 (out ++ connect_request dst) None c Hl Hp1)
    as (rd2 & E2 & Hp2 & _).
  exists rd2. split; [|done]. unfold hop_connect.
  rewrite (stm_bind_ret _ _ _ _ _ (or_close_ret _ _ _ _ E1)).
  rewrite (stm_bind_ret _ _ _ _ _ (or_close_ret _ _ _ _ (write_pb_ok _ _ _ _))).
  unfold connect_request in *. rewrite <- !app_assoc in *.
  rewrite (stm_bind_ret _ _ _ _ _ (or_close_ret _ _ _ _ E2)).
  erewrite stm_bind_ret; cycle 1.
  { apply or_close_ret. unfold st_decode, stm_lift. by rewrite decodeHopMessage_encode. }
  by rewrite Ht, Hs.
Qed.

Lemma trim_blanks_snoc s b :
  is_blank b = false → trim_blanks (s ++ [b]) = s ++ [b].
Proof.
  intros H. induction s as [|a s IH]; cbn [app trim_blanks]; [by rewrite H|].
  rewrite IH. by destruct s.
Qed.

(** ** Ping *)

Lemma readOnePb_consumes s a s' :
  readOnePb s = (Ret a, s') →
  (length (pending (d_in (s_io s'))) < length (pending (d_in (s_io s))))%nat.
Proof.
  intros H. apply stm_bind_inv in H as (l & s1 & E1 & E2).
  unfold on_reader in E1. destruct (readVarint (d_in (s_io s))) as [[v|e|] rd] eqn:E; [|done..].
  apply readVarint_consumes in E. injection E1 as <- <-.
  unfold readOnePb_body in E2. destruct (v >? 4096); [done|].
  unfold on_reader in E2. cbn [s_io d_in d_out d_werr] in E2.
  destruct (ReadFull (Z.to_nat v) rd) as [[l|e|] rd2] eqn:E3; [|done..].
  apply ReadFull_consumes in E3. injection E2 as _ <-. cbn. lia.
Qed.

Lemma write_pb_in msg s a s' : write_pb msg s = (Ret a, s') → d_in (s_io s') = d_in (s_io s).
Proof. destruct s as [[rd out [e|]] c]; [done|]. rewrite write_pb_ok. by intros [= _ <-]. Qed.

(** The fuel of [handlePing] is enough: the loop ends with an error. *)
Lemma handlePing_loop_ends fuel s :
  (length (pending (d_in (s_io s))) < fuel)%nat → fst (handlePing_loop fuel s) ≠ Ret ().
Proof.
  revert s. induction fuel as [|fuel IH]; intros s Hf; [lia|]. cbn [handlePing_loop].
  unfold mbind, stm_bind. destruct (readOnePb s) as [[l|e|] s1] eqn:E1; [|done..].
  apply readOnePb_consumes in E1.
  destruct (write_pb l s1) as [[u|e|] s2] eqn:E2; [|done..].
  apply write_pb_in in E2. apply IH. rewrite E2. lia.
Qed.

(** The bytes of a sequence of messages. *)
Definition frames (msgs : list bytes) : bytes := concat (map framed msgs).

Lemma handlePing_loop_echo msgs fuel rd out c :
  Forall (λ m, zlen m ≤ 4096) msgs → (length msgs < fuel)%nat →
  pending rd = frames msgs →
  ∃ e rd', handlePing_loop fuel (Stream (Duplex rd out None) c) =
    (Fail e, Stream (Duplex rd' (out ++ frames msgs) None) c).
Proof.
  intros Hm. revert fuel rd out. induction Hm as [|m msgs Hm _ IH]; intros fuel rd out Hf Hp;
    (destruct fuel as [|fuel]; [cbn in Hf; lia|]); cbn [handlePing_loop].
  - unfold readOnePb. assert (readVarint rd = (Fail (VarintIO (rd_err rd)), Reader [] (rd_err rd)))
      as E by (by apply readVarint_none).
    do 2 eexists. unfold mbind, stm_bind, on_reader. cbn [s_io d_in]. rewrite E.
    cbn [map_err]. unfold frames. cbn [map concat]. by rewrite app_nil_r.
  - destruct (readOnePb_app m (frames msgs) rd out None c Hm Hp) as (rd1 & E1 & Hp1 & _).
    rewrite (stm_bind_ret _ _ _ _ _ E1), (stm_bind_ret _ _ _ _ _ (write_pb_ok _ _ _ _)).
    destruct (IH fuel rd1 (out ++ framed m)) as (e & rd' & E); [cbn in Hf; lia|done|].
    exists e, rd'. rewrite E. unfold frames. cbn [map concat]. by rewrite app_assoc.
Qed.

Lemma frames_length msgs : (length msgs ≤ length (frames msgs))%nat.
Proof.
  induction msgs as [|m msgs IH]; [done|]. unfold frames in *. cbn [map concat length].
  rewrite length_app. unfold framed at 1. rewrite length_app.
  pose proof (zlen_encodeVarint (u64 (zlen m))). unfold zlen in *. lia.
Qed.

(** ** Properties *)

(** A dial through the relay leaks no stream: on failure every stream it opened
    (v2 and v1) is closed, and on success the streams of failed attempts are
    closed and the one returned, the last, is open. *)
Theorem relay_dial_no_leak id dst s r s' :
  ConnectThroughRelay_session id dst s = (r, s') →
  ∃ new, opened s' = opened s ++ new ∧
  match r with
  | Ret c => ∃ tried x, new = tried ++ [x] ∧ c = (length (opened s) + length tried)%nat ∧
      s_closed x = false ∧ Forall (λ y, s_closed y = true) tried
  | Fail _ => Forall (λ y, s_closed y = true) new
  | Panic => True
  end.
Proof. apply ConnectThroughRelay_tidy. Qed.

Definition ok_answer : HopMessage := mkHop HopTypeStatus None None None StatusOK.

Lemma relay_dial_no_leak_witness :
  ∃ x y s', ConnectThroughRelay_session None (Some [x01])
    (Session [inr (on_input []); inr (on_input [])] []) = (Fail x, s') ∧
    opened s' = y ∧ length y = 2%nat ∧ Forall (λ z, s_closed z = true) y.
Proof.
  destruct (ConnectThroughRelay_session None (Some [x01])
    (Session [inr (on_input []); inr (on_input [])] [])) as [r s'] eqn:E.
  pose proof (relay_dial_no_leak _ _ _ _ _ E) as (new & Hn & H).
  vm_compute in E. injection E as <- <-. do 3 eexists. split; [reflexivity|].
  split; [exact Hn|]. cbn in Hn. split; [by rewrite <- Hn|exact H].
Defined.

(** The CONNECT conversation reports success only if the relay's last message
    decodes to a STATUS with code OK; the client has then sent a multistream
    header (or two), the hop protocol request and a CONNECT message that the
    relay's decoder turns back into the destination peer, and nothing else. *)
Theorem hop_connect_sound dst s s' :
  hop_connect dst s = (Ret (), s') →
  (∃ s1 respData resp, readOnePb s1 = (Ret respData, s') ∧
     decodeHopMessage respData = Ret resp ∧ accepting resp) ∧
  ∃ k, (k = 1%nat ∨ k = 2%nat) ∧
    d_out (s_io s') = d_out (s_io s) ++ concat (map framed (take k msProtoIDs)) ++
      framed (hop_proto ++ newline) ++ framed (encodeHopMessage (connect_msg dst)).
Proof.
  intros H. unfold hop_connect in H.
  apply stm_bind_inv in H as ([] & s1 & H1 & H). apply or_close_inv, ms_select_inv in H1
    as (k & Hk & Ho1).
  apply stm_bind_inv in H as ([] & s2 & H2 & H). apply or_close_inv, write_pb_inv in H2.
  apply stm_bind_inv in H as (respData & s3 & H3 & H). apply or_close_inv in H3.
  apply stm_bind_inv in H as (resp & s4 & H4 & H).
  apply or_close_inv, st_decode_inv in H4 as [H4 ->].
  destruct (Hop_Type resp =? HopTypeStatus) eqn:Et; [|done].
  destruct (Hop_Status resp =? StatusOK) eqn:Es; [|done]. zbool. injection H as <-.
  split; [exists s2, respData, resp; unfold accepting; auto|].
  exists k. split; [done|]. rewrite (readOnePb_out _ _ _ H3), H2, Ho1. by rewrite <- !app_assoc.
Qed.

Lemma hop_connect_sound_witness :
  ∃ d, hop_connect (Some [x01]) (Stream (on_input (connect_answer ok_answer)) false) =
         (Ret (), Stream d false) ∧
    ∃ k, (k = 1%nat ∨ k = 2%nat) ∧
      d_out d = concat (map framed (take k msProtoIDs)) ++
        framed (hop_proto ++ newline) ++ framed (encodeHopMessage (connect_msg (Some [x01]))).
Proof.
  destruct (hop_connect (Some [x01]) (Stream (on_input (connect_answer ok_answer)) false))
    as [[[]|e|] [d c]] eqn:E; [|vm_compute in E; discriminate E..].
  destruct (hop_connect_sound _ _ _ E) as [_ H].
  assert (c = false) as -> by (vm_compute in E; injection E as _ <-; reflexivity).
  exists d. split; [reflexivity|exact H].
Defined.

(** Against a relay that accepts (answers the negotiation and sends an OK
    STATUS of at most 4096 bytes), the dial succeeds, has sent exactly the
    CONNECT request, and leaves every byte the peer sends afterwards on the
    returned connection, which is open. *)
Theorem hop_connect_complete dst rd resp k :
  hop_wf resp → accepting resp → zlen (encodeHopMessage resp) ≤ 4096 →
  pending rd = connect_answer resp ++ k →
  ∃ rd', hop_connect dst (Stream (Duplex rd [] None) false) =
    (Ret (), Stream (Duplex rd' (connect_request dst) None) false) ∧ pending rd' = k.
Proof. intros Hw Ha Hl Hp. by apply (hop_connect_ok dst rd [] false resp k). Qed.

Lemma hop_connect_complete_witness :
  ∃ rd', hop_connect (Some [x12]) (Stream (Duplex
      (Reader [connect_answer ok_answer; str "hello"] EOF) [] None) false) =
    (Ret (), Stream (Duplex rd' (connect_request (Some [x12])) None) false) ∧
    pending rd' = str "hello".
Proof.
  apply (hop_connect_complete _ _ ok_answer).
  - split; [|split; [|split; [intros r [=]|split; [intros l [=]|]]]];
      vm_compute; intuition discriminate.
  - split; reflexivity.
  - vm_compute. discriminate.
  - vm_compute. reflexivity.
Defined.

(** A reservation changes the client only through an accepted answer: if
    [Reserve] fails nothing is stored; if it succeeds the stored state is the
    answer's reservation and limit; and in every case the streams it opened are
    closed. *)
Theorem reserve_atomic s r res s' r' :
  Reserve (Some s) r = (res, s', r') →
  (res ≠ Ret () → r' = r) ∧
  (res = Ret () → ∃ resp, accepting resp ∧ r' = store_reservation resp r) ∧
  ∃ s1 new, s' = Some s1 ∧ opened s1 = opened s ++ new ∧
    Forall (λ y, s_closed y = true) new.
Proof.
  intros E. cbn [Reserve] in E. unfold open_run in E.
  destruct (to_open s) as [|[e|d] q].
  1,2: injection E as <- <- <-; split; [done|]; split; [done|];
    eexists _, []; rewrite app_nil_r; auto.
  unfold reserve_conv, defer_close in E.
  set (body := reserve_ask ≫= _) in E.
  destruct (body (Stream d false)) as [[resp|e|] x] eqn:Eb; injection E as <- <- <-.
  - apply stm_bind_inv in Eb as (resp' & s1 & _ & Eb).
    destruct (Hop_Type resp' =? HopTypeStatus) eqn:Et; [|done].
    destruct (Hop_Status resp' =? StatusOK) eqn:Es; [|done]. zbool.
    injection Eb as <- <-. split; [done|]. split; [intros _; exists resp'; done|].
    eexists _, _. split; [done|]. split; [done|]. by constructor.
  - split; [done|]. split; [done|]. eexists _, _. split; [done|]. split; [done|]. by constructor.
  - split; [done|]. split; [done|]. eexists _, _. split; [done|]. split; [done|]. by constructor.
Qed.

Definition resv_answer : HopMessage :=
  mkHop HopTypeStatus None (Some (mkReservation 1700000000 [[x04]] (Some [x09])))
    (Some (mkLimit 120 131072)) StatusOK.

Lemma reserve_atomic_witness :
  ∃ resp, accepting resp ∧
    Resv 1700000000 [[x04]] (Some [x09]) (Some (mkLimit 120 131072)) =
      store_reservation resp new_resv.
Proof.
  destruct (Reserve (Some (Session [inr (on_input (connect_answer resv_answer))] [])) new_resv)
    as [[res s'] r'] eqn:E.
  destruct (reserve_atomic _ _ _ _ _ E) as (_ & H & _).
  vm_compute in E. injection E as <- _ <-. destruct (H eq_refl) as (resp & Ha & Hr).
  exists resp. split; [exact Ha|exact Hr].
Defined.

(** An incoming circuit-v2 stream is accepted end to end: after the protocol
    negotiation and a CONNECT stop message (any peer and limit, at most 4096
    bytes), [handleIncoming] returns a connection, has answered with an OK
    status that the relay's decoder accepts, keeps the stream open, and leaves
    every byte of the remote peer that follows unread. *)
Theorem incoming_stop_accepted sign pubKey now id rd msg k :
  stop_wf msg → Stop_Type msg = StopTypeConnect → zlen (encodeStopMessage msg) ≤ 4096 →
  pending rd = framed header ++ framed (stop_proto ++ newline) ++
               framed (encodeStopMessage msg) ++ k →
  ∃ rd', handleIncoming sign pubKey now id (Stream (Duplex rd [] None) false) =
    (Ret Relayed, Stream (Duplex rd' (framed header ++ framed (stop_proto ++ newline) ++
       framed (encodeStopMessage stop_status_msg)) None) false) ∧ pending rd' = k ∧
    decodeStopMessage (encodeStopMessage stop_status_msg) = Ret stop_status_msg.
Proof.
  intros Hw Ht Hl Hp.
  destruct (MSRespond_asked stop_proto rd [] _ stop_proto_ok Hp) as (rd1 & E1 & Hp1 & _).
  destruct (readOnePb_app (encodeStopMessage msg) k rd1
    (framed header ++ framed (stop_proto ++ newline)) None false Hl Hp1) as (rd2 & E2 & Hp2 & _).
  exists rd2. split; [|split; [done|reflexivity]]. unfold handleIncoming.
  erewrite stm_bind_ret by (unfold on_duplex; cbn [s_io]; rewrite E1; reflexivity).
  change (trim_blanks stop_proto) with stop_proto.
  rewrite bool_decide_false by (vm_compute; discriminate).
  rewrite bool_decide_true by done. cbn [app s_closed]. unfold acceptV2Stop.
  rewrite (stm_bind_ret _ _ _ _ _ (or_close_ret _ _ _ _ E2)).
  erewrite stm_bind_ret; cycle 1.
  { apply or_close_ret. unfold st_decode, stm_lift. by rewrite decodeStopMessage_encode. }
  rewrite Ht. cbn [Z.eqb StopTypeConnect negb].
  rewrite (stm_bind_ret _ _ _ _ _ (or_close_ret _ _ _ _ (write_pb_ok _ _ _ _))).
  by rewrite <- app_assoc.
Qed.

Definition stop_connect_sample : StopMessage :=
  mkStop StopTypeConnect (Some (mkPeer (Some [x01; x02]) [])) (Some (mkLimit 120 0)) 0.

Lemma incoming_stop_accepted_witness :
  ∃ rd', handleIncoming id [] 0 [] (Stream (Duplex (Reader
      [framed header; framed (stop_proto ++ newline); framed (encodeStopMessage stop_connect_sample);
       str "payload"] EOF) [] None) false) =
    (Ret Relayed, Stream (Duplex rd' (framed header ++ framed (stop_proto ++ newline) ++
       framed (encodeStopMessage stop_status_msg)) None) false) ∧ pending rd' = str "payload" ∧
    decodeStopMessage (encodeStopMessage stop_status_msg) = Ret stop_status_msg.
Proof.
  apply (incoming_stop_accepted id [] 0 [] _ stop_connect_sample).
  - split; [|split; [|split; [intros l [= <-]|]]]; vm_compute; intuition discriminate.
  - reflexivity.
  - vm_compute. discriminate.
  - vm_compute. reflexivity.
Defined.

(** The ping service echoes: for every sequence of messages of at most 4096
    bytes the peer sends before it ends the stream, [handlePing] writes back
    exactly the same messages in the same order and closes the stream; and on
    any input whatsoever its loop ends with an error of the stream. *)
Theorem ping_echoes msgs rd c :
  Forall (λ m, zlen m ≤ 4096) msgs → pending rd = frames msgs →
  (∃ rd', handlePing (Stream (Duplex rd [] None) c) =
     (Ret (), Stream (Duplex rd' (frames msgs) None) true)) ∧
  ∀ s, fst (handlePing_loop (S (length (pending (d_in (s_io s))))) s) ≠ Ret ().
Proof.
  intros Hm Hp. split; [|intros s; apply handlePing_loop_ends; lia].
  unfold handlePing. cbn [s_io d_in]. rewrite Hp.
  destruct (handlePing_loop_echo msgs (S (length (frames msgs))) rd [] c) as (e & rd' & E);
    [done|pose proof (frames_length msgs); lia|done|].
  exists rd'. unfold defer_close, drop_err. by rewrite E.
Qed.

Lemma ping_echoes_witness :
  ∃ rd', handlePing (Stream (Duplex (Reader [frames [str "ping"; str ""]] EOF) [] None) false) =
     (Ret (), Stream (Duplex rd' (frames [str "ping"; str ""]) None) true).
Proof.
  apply (ping_echoes [str "ping"; str ""]).
  - repeat constructor; vm_compute; discriminate.
  - vm_compute. reflexivity.
Defined.
