(* ===== verification/RelaySocket.v ===== *)
(** * Relay sockets and the relay client (relayhub/socket.go, relayhub/relay.go)

    A [RelaySocket] is a byte stream over a sequence of relayed connections:
    the writing side rotates to a new connection when the relay's data limit is
    used up, the reading side takes the next connection of the same socket id.
    [hub] is the client with its sockets: the sockets are a heap (a pointer is
    an index), the table [connSockets] maps ids to pointers, and the streams of
    the session are the heap of connections.  The two mutexes are part of the
    state, so that a call that locks a mutex its own goroutine holds is seen to
    block.  Contexts are the boolean "cancelled". *)

From stdpp Require Import strings.
From S2P Require Import Prelude GoIO Varint CircuitPb Multistream RelayStream.
Local Open Scope Z_scope.

(** ** Socket identifiers *)

Definition sock0 : bytes := str "sock0.".
Definition sock_ : bytes := str "sock.".
Definition close_ : bytes := str "close.".

(** The loop of [generateConnID]: [nows] are the texts that successive calls of
    [time.Now().Format] will give; [None] when the loop is still waiting for
    the clock after all of them. *)
Fixpoint generateConnID_loop (lastID cid : bytes) (nows : list bytes)
    : option (bytes * list bytes) :=
  if bool_decide (cid = lastID) then
    match nows with
    | [] => None
    | ts :: nows' => generateConnID_loop lastID (sock_ ++ ts) nows'
    end
  else Some (cid, nows).

(** [generateConnID]: the new identifier is also the new [lastID]. *)
Definition generateConnID (lastID : bytes) (nows : list bytes) : option (bytes * list bytes) :=
  match nows with
  | [] => None
  | ts :: nows' => generateConnID_loop lastID (sock0 ++ ts) nows'
  end.

(** ** State *)

(** A [*RelaySocket] and a [*RelayedConn]: indices into the heap of sockets and
    into the session's streams. *)
Abbreviation sockptr := nat.
Abbreviation conn := nat.

Record socket := Socket {
  sk_id : bytes;
  sk_client : bool;                 (* client != nil *)
  sk_ch : list conn;                (* buffered, 8 *)
  dstPeer : bytes;
  limitBytes : Z;                   (* int64 *)
  cur : option conn;
  writeOnCur : Z;                   (* int64 *)
  cancelled : bool;                 (* ctx.Done() *)
  sk_closed : bool;                 (* closed, and closeOnce done *)
  readTotal : Z;
  writeTotal : Z;
  rotCount : Z;
  closeSignal : bool;               (* buffered, 1 *)
  connOnce : bool                   (* done *)
}.

Record hub := Hub {
  h_id : option bytes;
  h_session : session;              (* its streams are the heap of connections *)
  h_connected : bool;               (* session != nil *)
  h_mu : bool;                      (* held *)
  h_resv : resv;
  h_socks : list socket;            (* the heap *)
  connSockets : gmap bytes sockptr;
  connSocketsMu : bool;             (* held *)
  acceptChan : list sockptr;        (* buffered, 8 *)
  h_listener : option sockptr;
  dispatchRunning : bool;
  watchdog : bool;                  (* watchdogCancel != nil *)
  sessionDone : bool                (* the channel is closed *)
}.

Inductive sock_err : Type :=
| ErrClosedPipe
| ErrNoClient
| ErrRelay (e : relay_err)
| ErrConnWrite (e : io_err)
| SockEOF
| ErrCtx                            (* ctx.Err() *)
| SockRead (e : io_err)
| Blocked.                          (* waits for ever *)

Abbreviation hm := (stm hub sock_err).

Definition act {A} (f : hub → outcome sock_err A * hub) : hm A := f.
Definition modify (f : hub → hub) : hm unit := fun h => (Ret (), f h).
Definition gets {A} (f : hub → A) : hm A := fun h => (Ret (f h), h).

Definition set_session v h := Hub (h_id h) v (h_connected h) (h_mu h) (h_resv h) (h_socks h)
  (connSockets h) (connSocketsMu h) (acceptChan h) (h_listener h) (dispatchRunning h) (watchdog
  h) (sessionDone h).
Definition set_connected v h := Hub (h_id h) (h_session h) v (h_mu h) (h_resv h) (h_socks h)
  (connSockets h) (connSocketsMu h) (acceptChan h) (h_listener h) (dispatchRunning h) (watchdog
  h) (sessionDone h).
Definition set_mu v h := Hub (h_id h) (h_session h) (h_connected h) v (h_resv h) (h_socks h)
  (connSockets h) (connSocketsMu h) (acceptChan h) (h_listener h) (dispatchRunning h) (watchdog
  h) (sessionDone h).
Definition set_socks v h := Hub (h_id h) (h_session h) (h_connected h) (h_mu h) (h_resv h) v
  (connSockets h) (connSocketsMu h) (acceptChan h) (h_listener h) (dispatchRunning h) (watchdog
  h) (sessionDone h).
Definition set_table v h := Hub (h_id h) (h_session h) (h_connected h) (h_mu h) (h_resv h)
  (h_socks h) v (connSocketsMu h) (acceptChan h) (h_listener h) (dispatchRunning h) (watchdog
  h) (sessionDone h).
Definition set_socksMu v h := Hub (h_id h) (h_session h) (h_connected h) (h_mu h) (h_resv h)
  (h_socks h) (connSockets h) v (acceptChan h) (h_listener h) (dispatchRunning h) (watchdog h)
  (sessionDone h).
Definition set_acceptChan v h := Hub (h_id h) (h_session h) (h_connected h) (h_mu h) (h_resv h)
  (h_socks h) (connSockets h) (connSocketsMu h) v (h_listener h) (dispatchRunning h) (watchdog
  h) (sessionDone h).
Definition set_listener v h := Hub (h_id h) (h_session h) (h_connected h) (h_mu h) (h_resv h)
  (h_socks h) (connSockets h) (connSocketsMu h) (acceptChan h) v (dispatchRunning h) (watchdog
  h) (sessionDone h).
Definition set_running v h := Hub (h_id h) (h_session h) (h_connected h) (h_mu h) (h_resv h)
  (h_socks h) (connSockets h) (connSocketsMu h) (acceptChan h) (h_listener h) v (watchdog h)
  (sessionDone h).
Definition set_watchdog v h := Hub (h_id h) (h_session h) (h_connected h) (h_mu h) (h_resv h)
  (h_socks h) (connSockets h) (connSocketsMu h) (acceptChan h) (h_listener h) (dispatchRunning
  h) v (sessionDone h).
Definition set_done v h := Hub (h_id h) (h_session h) (h_connected h) (h_mu h) (h_resv h)
  (h_socks h) (connSockets h) (connSocketsMu h) (acceptChan h) (h_listener h) (dispatchRunning
  h) (watchdog h) v.

(** A nil pointer dereference panics. *)
Definition load (p : sockptr) : hm socket := fun h =>
  match h_socks h !! p with Some s => (Ret s, h) | None => (Panic, h) end.

Definition store (p : sockptr) (f : socket → socket) : hm unit :=
  modify (λ h, set_socks (alter f p (h_socks h)) h).

Definition set_ch l s := Socket (sk_id s) (sk_client s) l (dstPeer s) (limitBytes s) (cur s)
  (writeOnCur s) (cancelled s) (sk_closed s) (readTotal s) (writeTotal s) (rotCount s)
  (closeSignal s) (connOnce s).
Definition set_dst d s := Socket (sk_id s) (sk_client s) (sk_ch s) d (limitBytes s) (cur s)
  (writeOnCur s) (cancelled s) (sk_closed s) (readTotal s) (writeTotal s) (rotCount s)
  (closeSignal s) (connOnce s).
Definition set_cur c s := Socket (sk_id s) (sk_client s) (sk_ch s) (dstPeer s) (limitBytes s) c
  (writeOnCur s) (cancelled s) (sk_closed s) (readTotal s) (writeTotal s) (rotCount s)
  (closeSignal s) (connOnce s).
Definition set_written w s := Socket (sk_id s) (sk_client s) (sk_ch s) (dstPeer s) (limitBytes s)
  (cur s) w (cancelled s) (sk_closed s) (readTotal s) (writeTotal s) (rotCount s) (closeSignal s) (connOnce s).
Definition set_totals r w s := Socket (sk_id s) (sk_client s) (sk_ch s) (dstPeer s) (limitBytes s)
  (cur s) (writeOnCur s) (cancelled s) (sk_closed s) r w (rotCount s) (closeSignal s) (connOnce s).
Definition set_rot n s := Socket (sk_id s) (sk_client s) (sk_ch s) (dstPeer s) (limitBytes s)
  (cur s) (writeOnCur s) (cancelled s) (sk_closed s) (readTotal s) (writeTotal s) n (closeSignal s) (connOnce s).
Definition set_cancelled b s := Socket (sk_id s) (sk_client s) (sk_ch s) (dstPeer s) (limitBytes s)
  (cur s) (writeOnCur s) b (sk_closed s) (readTotal s) (writeTotal s) (rotCount s) (closeSignal s) (connOnce s).
Definition set_closed b s := Socket (sk_id s) (sk_client s) (sk_ch s) (dstPeer s) (limitBytes s)
  (cur s) (writeOnCur s) (cancelled s) b (readTotal s) (writeTotal s) (rotCount s) (closeSignal s) (connOnce s).
Definition set_signal b s := Socket (sk_id s) (sk_client s) (sk_ch s) (dstPeer s) (limitBytes s)
  (cur s) (writeOnCur s) (cancelled s) (sk_closed s) (readTotal s) (writeTotal s) (rotCount s) b (connOnce s).
Definition set_connOnce b s := Socket (sk_id s) (sk_client s) (sk_ch s) (dstPeer s) (limitBytes s)
  (cur s) (writeOnCur s) (cancelled s) (sk_closed s) (readTotal s) (writeTotal s) (rotCount s)
  (closeSignal s) b.

(** ** Locks *)

Definition lock_mu : hm unit := fun h =>
  if h_mu h then (Fail Blocked, h) else (Ret (), set_mu true h).
Definition unlock_mu : hm unit := modify (set_mu false).

Definition lock_socks : hm unit := fun h =>
  if connSocketsMu h then (Fail Blocked, h) else (Ret (), set_socksMu true h).
Definition unlock_socks : hm unit := modify (set_socksMu false).

(** ** Connections *)

(** A conversation on the connection [c]. *)
Definition on_conn {A} (c : conn) (m : st A) : hm A := fun h =>
  let s := h_session h in
  match opened s !! c with
  | None => (Panic, h)
  | Some x =>
      let '(r, x') := m x in
      (map_err ErrRelay r, set_session (Session (to_open s) (<[c := x']> (opened s))) h)
  end.

Definition conn_close (c : conn) : hm unit := on_conn c RelayStream.close.

(** [RelayClient.ConnectThroughRelay] *)
Definition ConnectThroughRelay (dst : bytes) : hm conn :=
  _ ← lock_mu;
  ok ← gets h_connected;
  _ ← unlock_mu;
  if negb ok then stm_fail (ErrRelay ENotConnected)
  else act (fun h =>
    let '(r, s') := ConnectThroughRelay_session (h_id h) (Some dst) (h_session h) in
    (map_err ErrRelay r, set_session s' h)).

(** ** Sockets *)

(** [client] tells whether the client is not nil. *)
Definition newRelaySocketWithID (id : bytes) (client : bool) : hm sockptr :=
  lim ← (if client then
           _ ← lock_mu;
           l ← gets (λ h, limit (h_resv h));
           _ ← unlock_mu;
           mret (match l with Some l => i64 (Data l) | None => 0 end)
         else mret 0);
  act (fun h =>
    (Ret (length (h_socks h)),
     set_socks (h_socks h ++
       [Socket id client [] [] lim None 0 false false 0 0 0 false false]) h)).

(** [NewSocket], with the identifier that [generateConnID] gives. *)
Definition NewSocket (id : bytes) : hm sockptr :=
  p ← newRelaySocketWithID id true;
  _ ← lock_socks;
  _ ← modify (λ h, set_table (<[id := p]> (connSockets h)) h);
  _ ← unlock_socks;
  mret p.

Definition Listen (p : sockptr) : hm unit :=
  s ← load p;
  if negb (sk_client s) then mret ()
  else modify (λ h, match h_listener h with None => set_listener (Some p) h | Some _ => h end).

(** [Accept]: a [select] on the accept queue and the caller's context;
    [prefer_done] is the choice when both are ready. *)
Definition Accept (ctx_done prefer_done : bool) : hm sockptr := fun h =>
  match acceptChan h with
  | p :: l =>
      if ctx_done && prefer_done then (Fail ErrCtx, h) else (Ret p, set_acceptChan l h)
  | [] => (Fail (if ctx_done then ErrCtx else Blocked), h)
  end.

(** [if err := writePbMessage(rc, []byte(id)); err != nil { rc.Close(); return err }] *)
Definition send_id (rc : conn) (id : bytes) : hm unit := on_conn rc (or_close (write_pb id)).

Definition attach (p : sockptr) (rc : conn) : hm unit :=
  store p (λ s, set_written (zlen (sk_id s) + 1) (set_cur (Some rc) s)).

(** [Connect]: the first call replaces the socket's context by a child of the
    caller's, which is cancelled if [ctx_done]. *)
Definition Connect (ctx_done : bool) (p : sockptr) (dst : bytes) : hm conn :=
  _ ← store p (λ s, if connOnce s then s else set_connOnce true (set_cancelled ctx_done s));
  _ ← store p (set_dst dst);
  rc ← ConnectThroughRelay dst;
  s ← load p;
  _ ← send_id rc (sk_id s);
  _ ← attach p rc;
  mret rc.

Definition rotateWrite (p : sockptr) : hm unit :=
  s ← load p;
  _ ← (match cur s with
       | Some c => _ ← conn_close c; store p (λ s, set_rot (rotCount s + 1) s)
       | None => mret ()
       end);
  if negb (sk_client s) then stm_fail ErrNoClient
  else
    rc ← ConnectThroughRelay (dstPeer s);
    _ ← send_id rc (sk_id s);
    attach p rc.

(** [p[:avail]] with a signed [avail] *)
Definition slice_int {E} (l : bytes) (avail : Z) : outcome E bytes :=
  if (avail <? 0) || (avail >? zlen l) then Panic else Ret (take (Z.to_nat avail) l).

(** [s.cur.Write(q)] and the bookkeeping after it; a write that fails is taken to
    have written nothing. *)
Definition write_cur (p : sockptr) (c : conn) (q : bytes) : hm Z := fun h =>
  match on_conn c (on_duplex EWrite (dup_write q)) h with
  | (Ret n, h') =>
      (_ ← store p (λ s, set_totals (readTotal s) (writeTotal s + n)
                           (set_written (writeOnCur s + n) s)); mret n) h'
  | (Fail e, h') =>
      (_ ← conn_close c;
       _ ← store p (λ s, set_rot (rotCount s + 1) (set_cur None s));
       stm_fail e) h'
  | (Panic, h') => (Panic, h')
  end.

Definition Write (p : sockptr) (b : bytes) : hm Z :=
  s ← load p;
  if sk_closed s then stm_fail ErrClosedPipe
  else
    _ ← (if bool_decide (cur s = None) || ((limitBytes s >? 0) && (writeOnCur s >=? limitBytes s))
         then rotateWrite p else mret ());
    s ← load p;
    let rem := limitBytes s - writeOnCur s in
    let avail := if (limitBytes s >? 0) && (rem <? zlen b) then rem else zlen b in
    q ← stm_lift (slice_int b avail);
    match cur s with
    | None => stm_lift Panic
    | Some c => write_cur p c q
    end.

(** [acceptNext]: a [select] over three channels; [sel] chooses among the ready
    ones. *)
Inductive ready : Type := RConn (c : conn) | RCloseSignal | RDone.

Definition acceptNext_ready (s : socket) : list ready :=
  match sk_ch s with c :: _ => [RConn c] | [] => [] end ++
  (if closeSignal s then [RCloseSignal] else []) ++ (if cancelled s then [RDone] else []).

Definition acceptNext (sel : nat) (p : sockptr) : hm unit :=
  s ← load p;
  if negb (sk_client s) then stm_fail ErrNoClient
  else
    let ready := acceptNext_ready s in
    match ready !! (sel mod length ready)%nat with
    | None => stm_fail Blocked
    | Some (RConn c) => store p (λ s, set_cur (Some c) (set_ch (drop 1 (sk_ch s)) s))
    | Some RCloseSignal => _ ← store p (set_signal false); stm_fail SockEOF
    | Some RDone => stm_fail SockEOF
    end.

(** One [conn.Read] into a buffer of [n] bytes. *)
Definition conn_read (c : conn) (n : nat) : hm (bytes * option io_err) :=
  on_conn c (fun x =>
    let '(l, e, rd) := Read n (d_in (s_io x)) in
    (Ret (l, e), Stream (Duplex rd (d_out (s_io x)) (d_werr (s_io x))) (s_closed x))).

(** [Read]: the loop goes round once per connection that ends. *)
Fixpoint Read_loop (fuel : nat) (sel : nat) (p : sockptr) (n : nat) : hm bytes :=
  match fuel with
  | O => stm_fail Blocked
  | S fuel =>
      s ← load p;
      _ ← (if bool_decide (cur s = None) then acceptNext sel p else mret ());
      s ← load p;
      match cur s with
      | None => stm_lift Panic
      | Some c =>
          r ← conn_read c n;
          let '(l, e) := r in
          _ ← store p (λ s, set_totals (readTotal s + zlen l) (writeTotal s) s);
          if bool_decide (e = Some EOF) then
            _ ← conn_close c;
            _ ← store p (λ s, set_rot (rotCount s + 1) (set_cur None s));
            if bool_decide (l ≠ []) then mret l else Read_loop fuel sel p n
          else match e with Some e => stm_fail (SockRead e) | None => mret l end
      end
  end.

Definition sock_Read (sel : nat) (p : sockptr) (n : nat) : hm bytes :=
  s ← load p;
  if sk_closed s then stm_fail ErrClosedPipe
  else Read_loop (S (S (length (sk_ch s)))) sel p n.

Definition Remaining (s : socket) : Z :=
  if limitBytes s <=? 0 then 2 ^ 62 else limitBytes s - writeOnCur s.

Definition signalClose (p : sockptr) : hm unit := store p (set_signal true).

Definition dispatchIncoming (p : sockptr) (c : conn) : hm unit :=
  s ← load p;
  if bool_decide (length (sk_ch s) < 8)%nat
  then store p (λ s, set_ch (sk_ch s ++ [c]) s)
  else conn_close c.

(** [s.id[6:]] *)
Definition id_suffix {E} (id : bytes) : outcome E bytes := slice_from id 6.

(** The close notice to the peer: its errors are dropped. *)
Definition send_close (s : socket) : hm unit :=
  closeID ← stm_lift (suffix ← id_suffix (sk_id s); mret (close_ ++ suffix));
  act (fun h =>
    match ConnectThroughRelay (dstPeer s) h with
    | (Ret rc, h1) => (_ ← on_conn rc (drop_err (write_pb closeID)); conn_close rc) h1
    | (Fail Blocked, h1) => (Fail Blocked, h1)
    | (Fail _, h1) => (Ret (), h1)
    | (Panic, h1) => (Panic, h1)
    end).

(** [RelaySocket.Close] *)
Definition sock_Close (p : sockptr) : hm unit :=
  s ← load p;
  if sk_closed s then mret ()
  else
    _ ← store p (set_closed true);
    _ ← (if bool_decide (dstPeer s ≠ []) && sk_client s then send_close s else mret ());
    _ ← store p (set_cancelled true);
    _ ← (if sk_client s then
           _ ← lock_socks;
           _ ← modify (λ h, set_table (delete (sk_id s) (connSockets h)) h);
           unlock_socks
         else mret ());
    match cur s with
    | Some c => _ ← conn_close c; store p (set_cur None)
    | None => mret ()
    end.

(** ** The client *)

Definition NewRelayClient (id : option bytes) : hub :=
  Hub id (Session [] []) false false new_resv [] ∅ false [] None false false false.

Definition notifySessionDone : hm unit := modify (set_done true).

(** [CompareAndSwap(true, false)], and then the context of the loop is cancelled. *)
Definition stopDispatch : hm unit :=
  modify (λ h, if dispatchRunning h then set_running false h else h).

Definition Start (h : hub) : bool * hub :=
  if dispatchRunning h then (false, h) else (true, set_running true h).

(** [is_closed] is the session's [IsClosed]. *)
Definition Connected (is_closed : bool) (h : hub) : bool := h_connected h && negb is_closed.

Section Dispatch.
Context (sign : bytes → bytes) (pubKeyProto : bytes) (now : Z) (own_id : bytes).

(** The stream [AcceptStream] returned joins the session's streams. *)
Definition accept_stream (d : duplex) : hm conn := act (fun h =>
  let s := h_session h in
  (Ret (length (opened s)), set_session (Session (to_open s) (opened s ++ [Stream d false])) h)).

(** The turns of the loop tell whether it goes on ([continue], [return]). *)

(** [if err != nil { log; c.Close(); continue }] *)
Definition or_drop {A} (c : conn) (m : hm A) (k : A → hm bool) : hm bool := fun h =>
  match m h with
  | (Ret a, h') => k a h'
  | (Fail _, h') => (_ ← conn_close c; mret true) h'
  | (Panic, h') => (Panic, h')
  end.

(** The hand-over of a new socket: [select] on the accept queue and the
    context; [prefer_done] is the choice when both are ready. *)
Definition offer (ctx_done prefer_done : bool) (p : sockptr) (c : conn) : hm bool :=
  n ← gets (λ h, length (acceptChan h));
  if bool_decide (n < 8)%nat && negb (ctx_done && prefer_done) then
    _ ← modify (λ h, set_acceptChan (acceptChan h ++ [p]) h);
    _ ← dispatchIncoming p c;
    mret true
  else if ctx_done then
    _ ← conn_close c; _ ← sock_Close p; _ ← modify (set_running false); mret false
  else stm_fail Blocked.

Definition route (ctx_done prefer_done : bool) (c : conn) (data : bytes) : hm bool :=
  let sockID := trim_blanks data in
  if bool_decide (take 6 sockID = close_) then
    let origID := sock0 ++ drop 6 sockID in
    _ ← lock_socks; sock ← gets (λ h, connSockets h !! origID); _ ← unlock_socks;
    _ ← (match sock with Some p => signalClose p | None => mret () end);
    _ ← conn_close c;
    mret true
  else
    _ ← lock_socks; sock ← gets (λ h, connSockets h !! sockID); _ ← unlock_socks;
    match sock with
    | Some p => _ ← dispatchIncoming p c; mret true
    | None =>
        p ← newRelaySocketWithID sockID true;
        _ ← lock_socks;
        _ ← modify (λ h, set_table (<[sockID := p]> (connSockets h)) h);
        _ ← unlock_socks;
        offer ctx_done prefer_done p c
    end.

(** One turn of [dispatchLoop] on an accepted stream. *)
Definition dispatch_one (ctx_done prefer_done : bool) (d : duplex) : hm bool :=
  c ← accept_stream d;
  or_drop c (on_conn c (handleIncoming sign pubKeyProto now own_id)) (λ inc,
    if bool_decide (inc = Relayed)
    then or_drop c (on_conn c readOnePb) (route ctx_done prefer_done c)
    else mret true).

(** What [acceptStreamWithCtx] gives, turn by turn. *)
Inductive accepted : Type :=
| AccStream (ctx_done prefer_done : bool) (d : duplex)   (* the context at the hand-over *)
| AccErr
| AccCanceled.

Fixpoint dispatch_turns (acc : list accepted) : hm unit :=
  match acc with
  | [] => stm_fail Blocked
  | AccStream ctx_done prefer_done d :: acc' =>
      go_on ← dispatch_one ctx_done prefer_done d;
      if (go_on : bool) then dispatch_turns acc' else mret ()
  | AccErr :: _ => _ ← notifySessionDone; modify (set_running false)
  | AccCanceled :: _ => modify (set_running false)
  end.

Definition dispatchLoop (acc : list accepted) : hm unit :=
  _ ← lock_mu; ok ← gets h_connected; _ ← unlock_mu;
  if negb ok then modify (set_running false) else dispatch_turns acc.
End Dispatch.

(** [for id, sock := range c.connSockets { ...; sock.Close(); delete(...) }] *)
Fixpoint close_sockets (l : list (bytes * sockptr)) : hm unit :=
  match l with
  | [] => mret ()
  | (id, p) :: l' =>
      _ ← sock_Close p;
      _ ← modify (λ h, set_table (delete id (connSockets h)) h);
      close_sockets l'
  end.

(** [session.Close()]: every stream of the session ends. *)
Definition end_stream (x : stream) : stream :=
  Stream (Duplex (Reader [] EOF) (d_out (s_io x)) (Some (ErrOther 0))) true.

Definition session_Close : hm unit :=
  modify (λ h, set_session (Session [] (map end_stream (opened (h_session h)))) h).

(** [RelayClient.Close] *)
Definition client_Close : hm unit :=
  _ ← stopDispatch;
  _ ← notifySessionDone;
  _ ← lock_mu;
  _ ← modify (set_watchdog false);
  _ ← lock_socks;
  l ← gets (λ h, map_to_list (connSockets h));
  _ ← close_sockets l;
  _ ← unlock_socks;
  _ ← modify (set_listener None);
  ok ← gets h_connected;
  _ ← (if (ok : bool) then _ ← session_Close; modify (set_connected false) else mret ());
  unlock_mu.

(** ** Identifiers *)

Lemma generateConnID_loop_fresh lastID cid nows id rest :
  generateConnID_loop lastID cid nows = Some (id, rest) → id ≠ lastID.
Proof.
  revert cid. induction nows as [|ts nows IH]; intros cid H; cbn in H; case_bool_decide as E.
  - done.
  - by injection H as <- <-.
  - by eapply IH.
  - by injection H as <- <-.
Qed.

(** The identifier under which the peer looks the socket up when it receives
    the close notice for [id]. *)
Definition close_target (id : bytes) : bytes := sock0 ++ drop 6 (close_ ++ drop 6 id).

(** ** Effects on the two heaps *)

Lemma set_socks_id h l : h_socks (set_socks l h) = l.
Proof. done. Qed.

Lemma on_conn_socks {A} c (m : st A) h r h' : on_conn c m h = (r, h') → h_socks h' = h_socks h.
Proof.
  unfold on_conn. destruct (opened (h_session h) !! c) as [x|]; [|by intros [= _ <-]].
  destruct (m x). by intros [= _ <-].
Qed.

Lemma on_conn_ret {A} c (m : st A) h a h' :
  on_conn c m h = (Ret a, h') →
  ∃ x x', opened (h_session h) !! c = Some x ∧ m x = (Ret a, x') ∧
    h' = set_session (Session (to_open (h_session h)) (<[c := x']> (opened (h_session h)))) h.
Proof.
  unfold on_conn. destruct (opened (h_session h) !! c) as [x|]; [|done].
  destruct (m x) as [[b|e|] x'] eqn:E; intros [= <- <-]. eauto.
Qed.

Lemma load_inv p h s h' : load p h = (Ret s, h') → h_socks h !! p = Some s ∧ h' = h.
Proof. unfold load. destruct (h_socks h !! p); [|done]. by intros [= <- <-]. Qed.

Lemma load_ok p h s : h_socks h !! p = Some s → load p h = (Ret s, h).
Proof. intros E. unfold load. by rewrite E. Qed.

Lemma ConnectThroughRelay_ret dst h c h' :
  ConnectThroughRelay dst h = (Ret c, h') →
  h_socks h' = h_socks h ∧ ∃ x, opened (h_session h') !! c = Some x ∧ s_closed x = false.
Proof.
  unfold ConnectThroughRelay. intros H.
  apply stm_bind_inv in H as ([] & h1 & H1 & H).
  unfold lock_mu in H1. destruct (h_mu h); [done|]. injection H1 as <-.
  apply stm_bind_inv in H as (ok & h2 & [= <- <-] & H).
  apply stm_bind_inv in H as ([] & h3 & [= <-] & H). cbn [h_connected set_mu] in H.
  destruct (h_connected h); [|done]. cbn [negb] in H. unfold act in H.
  destruct (ConnectThroughRelay_session _ _ _) as [r s'] eqn:E in H.
  destruct r as [c'|e|]; [|done..]. injection H as <- <-. split; [done|].
  apply ConnectThroughRelay_tidy in E as (new & En & tried & x & -> & -> & Hx & _).
  exists x. split; [|done]. cbn [h_session set_session]. rewrite En.
  rewrite app_assoc. rewrite lookup_app_r by (rewrite length_app; lia).
  rewrite length_app, Nat.sub_diag. done.
Qed.

(** The fields of a socket that rotation leaves alone. *)
Definition same_socket (s s' : socket) : Prop :=
  sk_id s' = sk_id s ∧ limitBytes s' = limitBytes s ∧ sk_closed s' = sk_closed s ∧
  dstPeer s' = dstPeer s ∧ sk_client s' = sk_client s.

Lemma send_id_ret rc id h h' :
  send_id rc id h = (Ret (), h') →
  h_socks h' = h_socks h ∧
  ∃ x pre, opened (h_session h') !! rc = Some x ∧ d_out (s_io x) = pre ++ framed id.
Proof.
  intros H. split; [by eapply on_conn_socks|].
  apply on_conn_ret in H as (x & x' & Hx & Hm & ->). apply or_close_inv, write_pb_inv in Hm.
  exists x', (d_out (s_io x)). split; [|done]. cbn. apply list_lookup_insert_eq.
  by eapply lookup_lt_Some.
Qed.

Lemma store_lookup p f h s :
  h_socks h !! p = Some s → h_socks (snd (store p f h)) !! p = Some (f s).
Proof. intros E. unfold store, modify. cbn [snd]. by rewrite set_socks_id, list_lookup_alter_eq, E. Qed.

(** A successful rotation: a fresh connection that carries the socket's id. *)
Lemma rotateWrite_ret p h s h' :
  h_socks h !! p = Some s → rotateWrite p h = (Ret (), h') →
  ∃ s' rc x pre, h_socks h' !! p = Some s' ∧ same_socket s s' ∧ cur s' = Some rc ∧
    writeOnCur s' = zlen (sk_id s) + 1 ∧ opened (h_session h') !! rc = Some x ∧
    d_out (s_io x) = pre ++ framed (sk_id s).
Proof.
  intros Hs H. unfold rotateWrite in H. rewrite (stm_bind_ret _ _ _ _ _ (load_ok _ _ _ Hs)) in H.
  apply stm_bind_inv in H as ([] & h1 & H1 & H).
  assert (∃ s1, h_socks h1 !! p = Some s1 ∧ same_socket s s1) as (s1 & Hs1 & Hsame).
  { destruct (cur s) as [c|]; [|injection H1 as <-; exists s; done].
    apply stm_bind_inv in H1 as ([] & h0 & Hc & [= <-]).
    apply on_conn_socks in Hc. eexists. split; [apply store_lookup; by rewrite Hc|done]. }
  destruct (sk_client s); [|done]. cbn [negb] in H.
  apply stm_bind_inv in H as (rc & h2 & H2 & H). apply ConnectThroughRelay_ret in H2 as (Hk2 & _).
  apply stm_bind_inv in H as ([] & h3 & H3 & H). apply send_id_ret in H3 as (Hk3 & x & pre & Hx & Hd).
  unfold attach, store, modify in H. injection H as <-.
  eexists _, rc, x, pre. cbn [h_socks set_socks h_session].
  rewrite list_lookup_alter_eq, Hk3, Hk2, Hs1. cbn [fmap option_fmap option_map].
  destruct Hsame as (Hid & Hl & Hc & Hds & Hcl).
  split; [done|]. split; [done|]. split; [done|]. cbn. rewrite Hid. done.
Qed.

Lemma dup_write_inv q d n d' :
  dup_write q d = (Ret n, d') → n = zlen q ∧ d_out d' = d_out d ++ q.
Proof. unfold dup_write. destruct (d_werr d); [done|]. by intros [= <- <-]. Qed.

Lemma write_cur_ret p c q h s n h' :
  h_socks h !! p = Some s → write_cur p c q h = (Ret n, h') →
  n = zlen q ∧
  h_socks h' !! p = Some (set_totals (readTotal s) (writeTotal s + n)
                            (set_written (writeOnCur s + n) s)) ∧
  ∃ x x', opened (h_session h) !! c = Some x ∧ opened (h_session h') !! c = Some x' ∧
    d_out (s_io x') = d_out (s_io x) ++ q.
Proof.
  intros Hs H. unfold write_cur in H.
  destruct (on_conn c (on_duplex EWrite (dup_write q)) h) as [[m|e|] h1] eqn:E; [| |done].
  - pose proof (on_conn_socks _ _ _ _ _ E) as Hk.
    apply on_conn_ret in E as (x & x' & Hx & Hm & ->).
    unfold on_duplex in Hm. destruct (dup_write q (s_io x)) as [[m'|e|] d'] eqn:Ed; [|done..].
    injection Hm as <- <-. apply dup_write_inv in Ed as [-> Ho].
    apply stm_bind_inv in H as ([] & h2 & H2 & H). unfold store, modify in H2.
    injection H2 as <-. injection H as <- <-.
    split; [done|]. split.
    { rewrite set_socks_id, list_lookup_alter_eq. cbn [h_socks set_session]. by rewrite Hs. }
    exists x, (Stream d' (s_closed x)). split; [done|]. split; [|exact Ho].
    cbn [h_session set_socks set_session opened].
    apply list_lookup_insert_eq. by eapply lookup_lt_Some.
  - apply stm_bind_inv in H as ([] & h2 & _ & H). by apply stm_bind_inv in H as ([] & ? & _ & H).
Qed.

Definition rotates (s : socket) : bool :=
  bool_decide (cur s = None) || ((limitBytes s >? 0) && (writeOnCur s >=? limitBytes s)).

(** The state in which [Write] hands the data to a connection. *)
Lemma Write_ret p b h s n h' :
  h_socks h !! p = Some s → Write p b h = (Ret n, h') →
  sk_closed s = false ∧
  ∃ h1 s1 c,
    (if rotates s then rotateWrite p h = (Ret (), h1) else h1 = h) ∧
    h_socks h1 !! p = Some s1 ∧ cur s1 = Some c ∧
    (let rem := limitBytes s1 - writeOnCur s1 in
     let avail := if (limitBytes s1 >? 0) && (rem <? zlen b) then rem else zlen b in
     0 ≤ avail ≤ zlen b ∧ write_cur p c (take (Z.to_nat avail) b) h1 = (Ret n, h')).
Proof.
  intros Hs H. unfold Write in H. rewrite (stm_bind_ret _ _ _ _ _ (load_ok _ _ _ Hs)) in H.
  destruct (sk_closed s); [done|]. split; [done|].
  apply stm_bind_inv in H as ([] & h1 & H1 & H). fold (rotates s) in H1.
  apply stm_bind_inv in H as (s1 & h2 & H2 & H). apply load_inv in H2 as [Hs1 ->].
  apply stm_bind_inv in H as (q & h3 & H3 & H). unfold stm_lift in H3.
  injection H3 as Hq <-. unfold slice_int in Hq.
  match type of Hq with (if (?a <? 0) || _ then _ else _) = _ => set (avail := a) in * end.
  destruct (avail <? 0) eqn:E1; [done|]. destruct (avail >? zlen b) eqn:E2; [done|]. zbool.
  injection Hq as <-. destruct (cur s1) as [c|] eqn:Ec; [|done].
  exists h1, s1, c. split; [|done]. destruct (rotates s); [done|by injection H1 as <-].
Qed.

Lemma zlen_framed id : zlen id < 128 → zlen (framed id) = zlen id + 1.
Proof.
  intros H. unfold framed. rewrite zlen_app. unfold u64.
  rewrite wrap_u_small by (unfold zlen in *; lia). unfold encodeVarint, MaxVarintLen64.
  cbn [PutUvarint]. destruct (zlen id >=? 128) eqn:E; zbool; [lia|].
  change (zlen [zb (zlen id)]) with 1. lia.
Qed.

(** ** Properties *)

(** A successful [Write] delivers a prefix of the data, in order, on one
    connection and within the relay's limit.  [n] bytes are appended to the
    connection that is current afterwards — the same one as before, or, when
    there was none or its budget was used up, a fresh one whose first message
    is the socket's identifier — and the bytes counted on it, the identifier's
    frame included, never exceed [limitBytes]. *)
Theorem Write_delivers p b h s n h' :
  h_socks h !! p = Some s → Write p b h = (Ret n, h') →
  ∃ s' c x before, h_socks h' !! p = Some s' ∧ same_socket s s' ∧ cur s' = Some c ∧
    opened (h_session h') !! c = Some x ∧
    0 ≤ n ≤ zlen b ∧ d_out (s_io x) = before ++ take (Z.to_nat n) b ∧
    (limitBytes s > 0 → writeOnCur s' ≤ limitBytes s) ∧
    (limitBytes s ≤ 0 → n = zlen b) ∧
    if rotates s
    then writeOnCur s' = zlen (sk_id s) + 1 + n ∧ ∃ pre, before = pre ++ framed (sk_id s)
    else writeOnCur s' = writeOnCur s + n ∧ cur s = Some c ∧
         ∃ x0, opened (h_session h) !! c = Some x0 ∧ before = d_out (s_io x0).
Proof.
  intros Hs H. destruct (Write_ret _ _ _ _ _ _ Hs H) as (Hcl & h1 & s1 & c & Hrot & Hs1 & Hc & Hw).
  cbv zeta in Hw. destruct Hw as [Ha Hw].
  destruct (write_cur_ret _ _ _ _ _ _ _ Hs1 Hw) as (Hn & Hs' & x & x' & Hx & Hx' & Ho).
  match type of Ha with 0 ≤ ?a ≤ _ => set (avail := a) in * end.
  assert (n = avail) as ->.
  { rewrite Hn. unfold zlen in *. rewrite length_take. lia. }
  assert (same_socket s s1 ∧ if rotates s
    then writeOnCur s1 = zlen (sk_id s) + 1 ∧ ∃ pre, d_out (s_io x) = pre ++ framed (sk_id s)
    else writeOnCur s1 = writeOnCur s ∧ cur s = Some c ∧
         ∃ x0, opened (h_session h) !! c = Some x0 ∧ d_out (s_io x) = d_out (s_io x0)) as [Hss Hb].
  { destruct (rotates s).
    - destruct (rotateWrite_ret _ _ _ _ Hs Hrot) as (s2 & rc & y & pre & H2 & Hsame & Hcur & Hwr & Hy & Hd).
      rewrite Hs1 in H2. injection H2 as <-. rewrite Hc in Hcur. injection Hcur as <-.
      rewrite Hx in Hy. injection Hy as <-. eauto.
    - subst h1. rewrite Hs in Hs1. injection Hs1 as <-. split; [by repeat split|]. eauto. }
  destruct Hss as (Hid & Hl & Hc2 & Hd & Hcl2).
  eexists _, c, x', (d_out (s_io x)). split; [exact Hs'|]. split; [done|]. split; [done|].
  split; [done|]. split; [done|]. split; [done|]. split; [|split].
  - intros Hpos. cbn [writeOnCur set_totals set_written]. unfold avail. rewrite Hl.
    destruct (limitBytes s >? 0) eqn:E1; zbool; [|lia]. cbn [andb].
    destruct (limitBytes s - writeOnCur s1 <? zlen b) eqn:E2; zbool; lia.
  - intros Hneg. unfold avail. rewrite Hl. by destruct (limitBytes s >? 0) eqn:E1; zbool; [lia|].
  - cbn [writeOnCur set_totals set_written]. destruct (rotates s).
    + destruct Hb as [-> ?]. done.
    + destruct Hb as (-> & ? & ?). done.
Qed.

(** A socket on a live session whose relay accepts. *)
Definition sample_hub (lim : Z) : hub :=
  Hub (Some [x01])
    (Session [inr (on_input (connect_answer ok_answer))] []) true false new_resv
    [Socket (sock0 ++ str "20240101.000000.1") true [] [x02] lim None 0 false false 0 0 0 false false]
    ∅ false [] None false false false.

Lemma Write_delivers_witness :
  ∃ h', Write 0 (str "hello") (sample_hub 27) = (Ret 3, h') ∧
  ∃ s' c x before, h_socks h' !! 0%nat = Some s' ∧ cur s' = Some c ∧
    opened (h_session h') !! c = Some x ∧ d_out (s_io x) = before ++ str "hel" ∧
    writeOnCur s' ≤ 27.
Proof.
  destruct (Write 0 (str "hello") (sample_hub 27)) as [o h'] eqn:E.
  assert (o = Ret 3) as -> by (vm_compute in E; injection E as <- _; reflexivity).
  exists h'. split; [reflexivity|].
  destruct (Write_delivers 0 (str "hello") (sample_hub 27) _ 3 h' eq_refl E) as (s' & c & x & before & H1 & _ & H2 & H3 & _ & H4 & H5 & _).
  exists s', c, x, before. split; [exact H1|]. split; [exact H2|]. split; [exact H3|].
  split; [exact H4|]. apply H5. vm_compute. reflexivity.
Defined.

(** A relay that grants fewer bytes than the socket's identifier takes on the
    wire makes writing impossible: once a [Write] has to rotate, it never
    returns normally — the dial fails, or [p[:avail]] is sliced with a negative
    [avail] and panics. *)
Theorem small_limit_never_writes p b h s n h' :
  h_socks h !! p = Some s → 0 < limitBytes s < zlen (sk_id s) + 1 → rotates s = true →
  Write p b h ≠ (Ret n, h').
Proof.
  intros Hs Hl Hr H. destruct (Write_ret _ _ _ _ _ _ Hs H) as (_ & h1 & s1 & c & Hrot & Hs1 & _ & Ha & _).
  rewrite Hr in Hrot.
  destruct (rotateWrite_ret _ _ _ _ Hs Hrot) as (s2 & rc & y & pre & H2 & Hsame & _ & Hwr & _).
  rewrite Hs1 in H2. injection H2 as <-. destruct Hsame as (_ & Hlim & _).
  rewrite Hlim, Hwr in Ha. destruct (limitBytes s >? 0) eqn:E1; zbool; [|lia]. cbn [andb] in Ha.
  destruct (limitBytes s - (zlen (sk_id s) + 1) <? zlen b) eqn:E2; zbool; [lia|].
  unfold zlen in *. lia.
Qed.

Lemma small_limit_never_writes_witness :
  fst (Write 0 (str "hello") (sample_hub 10)) = Panic ∧
  ∀ n h', Write 0 (str "hello") (sample_hub 10) ≠ (Ret n, h').
Proof.
  split; [vm_compute; reflexivity|]. intros n h'.
  apply (small_limit_never_writes 0 (str "hello") (sample_hub 10) _ n h' eq_refl);
    vm_compute; intuition.
Defined.

(** [generateConnID] never repeats the identifier before, but only that one is
    remembered: when the clock gives the same text three times, the third
    identifier is the first one again, because the retry drops the [0] of the
    prefix and so never collides with what comes next. *)
Theorem conn_id_reuse lastID nows id rest ts :
  generateConnID lastID nows = Some (id, rest) → lastID ≠ sock0 ++ ts →
  id ≠ lastID ∧
  (∃ id2, generateConnID lastID [ts] = Some (sock0 ++ ts, []) ∧
     generateConnID (sock0 ++ ts) [ts; ts] = Some (id2, []) ∧
     generateConnID id2 [ts] = Some (sock0 ++ ts, [])).
Proof.
  intros H Hl. split.
  { destruct nows as [|t nows]; [done|]. by eapply generateConnID_loop_fresh. }
  assert (sock_ ++ ts ≠ sock0 ++ ts) as Hne.
  { intros E. apply (f_equal (λ l, nth 4 l x00)) in E. discriminate. }
  exists (sock_ ++ ts). unfold generateConnID, generateConnID_loop.
  rewrite !bool_decide_false, bool_decide_true by (done || congruence). done.
Qed.

Lemma conn_id_reuse_witness :
  ∃ id2, generateConnID [] [str "t"] = Some (sock0 ++ str "t", []) ∧
    generateConnID (sock0 ++ str "t") [str "t"; str "t"] = Some (id2, []) ∧
    generateConnID id2 [str "t"] = Some (sock0 ++ str "t", []).
Proof.
  apply (conn_id_reuse [] [str "u"] (sock0 ++ str "u") [] (str "t")).
  - vm_compute. reflexivity.
  - discriminate.
Defined.

(** The close notice finds the socket exactly for the identifiers of the first
    form: for [sock0.<time>] the peer looks up the same identifier, for the
    retry form [sock.<time>] it looks up another one, so that socket is never
    told that the other side closed. *)
Theorem close_notice_target ts :
  close_target (sock0 ++ ts) = sock0 ++ ts ∧
  close_target (sock_ ++ ts) ≠ sock_ ++ ts.
Proof.
  split; [done|]. unfold close_target. intros E.
  apply (f_equal (λ l, nth 4 l x00)) in E. discriminate.
Qed.

(** The table lists sockets that are not closed. *)
Definition table_open (h : hub) : Prop :=
  ∀ id p, connSockets h !! id = Some p →
  ∃ s, h_socks h !! p = Some s ∧ sk_closed s = false ∧ sk_client s = true ∧
    (6 ≤ length (sk_id s))%nat.

Lemma ConnectThroughRelay_blocked dst h :
  h_mu h = true → ConnectThroughRelay dst h = (Fail Blocked, h).
Proof. intros H. apply stm_bind_fail. unfold lock_mu. by rewrite H. Qed.

Lemma sock_Close_blocked p h s :
  h_socks h !! p = Some s → sk_closed s = false → sk_client s = true →
  (6 ≤ length (sk_id s))%nat → h_mu h = true → connSocketsMu h = true →
  ∃ h', sock_Close p h = (Fail Blocked, h').
Proof.
  intros Hs Hc Hcl Hlen Hmu Hsm. unfold sock_Close.
  rewrite (stm_bind_ret _ _ _ _ _ (load_ok _ _ _ Hs)), Hc, Hcl. cbn [negb].
  erewrite stm_bind_ret by reflexivity. rewrite andb_true_r.
  destruct (bool_decide (dstPeer s ≠ [])).
  - eexists. apply stm_bind_fail. unfold send_close. erewrite stm_bind_ret.
    2:{ unfold stm_lift, id_suffix. rewrite slice_from_ok by lia. reflexivity. }
    unfold act. rewrite ConnectThroughRelay_blocked by exact Hmu. reflexivity.
  - do 2 erewrite stm_bind_ret by reflexivity.
    eexists. apply stm_bind_fail. apply stm_bind_fail. unfold lock_socks.
    cbn [connSocketsMu set_socks]. by rewrite Hsm.
Qed.

Lemma stopDispatch_eq h : stopDispatch h = (Ret (), set_running false h).
Proof.
  unfold stopDispatch, modify. destruct (dispatchRunning h) eqn:E; [done|].
  f_equal. destruct h. cbn in *. by rewrite E.
Qed.

(** [RelayClient.Close] deadlocks whenever a socket is still open: it calls
    [RelaySocket.Close] while it holds [c.mu] and [connSocketsMu], and that call
    locks [c.mu] (to send the close notice) or [connSocketsMu] (to leave the
    table) again.  Without registered sockets it ends: the session is gone, the
    done channel closed, the locks free. *)
Theorem client_Close_behaviour h :
  h_mu h = false → connSocketsMu h = false → table_open h →
  (connSockets h ≠ ∅ → ∃ h', client_Close h = (Fail Blocked, h')) ∧
  (connSockets h = ∅ → ∃ h', client_Close h = (Ret (), h') ∧ (∀ is_closed, Connected is_closed h' = false) ∧
     sessionDone h' = true ∧ dispatchRunning h' = false ∧ h_mu h' = false ∧
     connSocketsMu h' = false).
Proof.
  intros Hmu Hsm Ht. unfold client_Close.
  rewrite (stm_bind_ret _ _ _ _ _ (stopDispatch_eq h)). erewrite stm_bind_ret by reflexivity.
  erewrite stm_bind_ret by (unfold lock_mu; cbn [h_mu set_done set_running]; by rewrite Hmu).
  erewrite stm_bind_ret by reflexivity.
  erewrite stm_bind_ret
    by (unfold lock_socks; cbn [connSocketsMu set_mu set_watchdog set_done set_running]; by rewrite Hsm).
  erewrite stm_bind_ret by reflexivity.
  cbn [connSockets set_socksMu set_mu set_watchdog set_done set_running].
  split; intros Hne.
  - destruct (map_to_list (connSockets h)) as [|[id p] l] eqn:El.
    { by apply map_to_list_empty_iff in El. }
    assert (connSockets h !! id = Some p) as Hp.
    { apply elem_of_map_to_list. rewrite El. left. }
    destruct (Ht id p Hp) as (s & Hs & Hc & Hcl & Hlen).
    match goal with |- ∃ h', _ ?h1 = _ =>
      destruct (sock_Close_blocked p h1 s) as (h' & E); try done end.
    exists h'. apply stm_bind_fail. cbn [close_sockets]. by apply stm_bind_fail.
  - rewrite Hne, map_to_list_empty. cbn [close_sockets].
    do 4 erewrite stm_bind_ret by reflexivity.
    cbn [h_connected set_listener set_socksMu set_mu set_watchdog set_done set_running].
    destruct (h_connected h) eqn:Ec.
    + eexists. split; [reflexivity|]. done.
    + eexists. split; [reflexivity|]. split; [|done]. intros b. unfold Connected. cbn. by rewrite Ec.
Qed.

(** A client with one open socket and one without. *)
Definition open_hub : hub := set_table {[ str "sock0.t" := 0%nat ]}
  (set_socks [Socket (str "sock0.t") true [] [] 0 None 0 false false 0 0 0 false false]
     (NewRelayClient None)).

Lemma client_Close_behaviour_witness :
  ∃ h', client_Close open_hub = (Fail Blocked, h').
Proof.
  apply (client_Close_behaviour open_hub); [reflexivity|reflexivity| |].
  - intros id p H. cbn in H. apply lookup_singleton_Some in H as [_ <-].
    eexists. split; [reflexivity|]. cbn. split; [reflexivity|]. split; [reflexivity|lia].
  - discriminate.
Defined.

Lemma set_mu_same h : h_mu h = false → set_mu false (set_mu true h) = h.
Proof. destruct h. cbn. by intros ->. Qed.

Lemma set_socksMu_same h : connSocketsMu h = false → set_socksMu false (set_socksMu true h) = h.
Proof. destruct h. cbn. by intros ->. Qed.

(** A look-up in the table under its lock. *)
Lemma table_get {A} k (f : option sockptr → hm A) h :
  connSocketsMu h = false →
  (_ ← lock_socks; sock ← gets (λ h, connSockets h !! k); _ ← unlock_socks; f sock) h =
    f (connSockets h !! k) h.
Proof.
  intros Hsm. erewrite stm_bind_ret by (unfold lock_socks; by rewrite Hsm).
  erewrite stm_bind_ret by reflexivity.
  by erewrite stm_bind_ret by (unfold unlock_socks, modify; by rewrite set_socksMu_same).
Qed.

(** A connection with a new identifier. *)
Lemma new_socket_route id c h :
  h_mu h = false → connSocketsMu h = false → (length (acceptChan h) < 8)%nat →
  ∃ h' s,
    (p ← newRelaySocketWithID id true;
     _ ← lock_socks;
     _ ← modify (λ h, set_table (<[id := p]> (connSockets h)) h);
     _ ← unlock_socks;
     offer false false p c) h = (Ret true, h') ∧
    h_socks h' = h_socks h ++ [s] ∧ sk_id s = id ∧ sk_ch s = [c] ∧
    connSockets h' = <[id := length (h_socks h)]> (connSockets h) ∧
    acceptChan h' = acceptChan h ++ [length (h_socks h)] ∧
    h_session h' = h_session h ∧ h_mu h' = false ∧ connSocketsMu h' = false.
Proof.
  intros Hmu Hsm Hch. erewrite stm_bind_ret; cycle 1.
  { unfold newRelaySocketWithID.
    erewrite stm_bind_ret; [reflexivity|].
    erewrite stm_bind_ret by (unfold lock_mu; by rewrite Hmu).
    erewrite stm_bind_ret by reflexivity.
    erewrite stm_bind_ret by (unfold unlock_mu, modify; by rewrite set_mu_same). reflexivity. }
  erewrite stm_bind_ret by (unfold lock_socks; cbn [connSocketsMu set_socks]; by rewrite Hsm).
  do 2 erewrite stm_bind_ret by reflexivity.
  unfold offer. erewrite stm_bind_ret by reflexivity.
  cbn [acceptChan set_socksMu set_table set_socks].
  rewrite bool_decide_true by done. cbn [andb negb]. erewrite stm_bind_ret by reflexivity.
  erewrite stm_bind_ret.
  2:{ unfold dispatchIncoming. erewrite stm_bind_ret.
      2:{ apply load_ok. cbn. rewrite lookup_app_r by lia. by rewrite Nat.sub_diag. }
      cbn [sk_ch length]. rewrite bool_decide_true by lia. reflexivity. }
  eexists _, _. split; [reflexivity|].
  cbn [h_socks set_socks set_acceptChan set_socksMu set_table connSockets acceptChan h_session
       h_mu connSocketsMu].
  split; [rewrite alter_app_r_alt by lia; rewrite Nat.sub_diag; reflexivity|].
  done.
Qed.

(** Incoming connections are routed by the identifier they announce.  A known
    identifier hands the connection to its socket, behind the ones waiting
    there; an unknown one creates exactly one socket of that identifier, enters
    it in the table and in the accept queue and gives it the connection; a
    close notice marks the socket it names.  Nothing else changes. *)
Theorem route_by_id c data h :
  h_mu h = false → connSocketsMu h = false →
  let id := trim_blanks data in
  (take 6 id ≠ close_ →
     (∀ p s, connSockets h !! id = Some p → h_socks h !! p = Some s →
        (length (sk_ch s) < 8)%nat →
        route false false c data h =
          (Ret true, set_socks (alter (λ s, set_ch (sk_ch s ++ [c]) s) p (h_socks h)) h)) ∧
     (connSockets h !! id = None → (length (acceptChan h) < 8)%nat →
        ∃ h' s, route false false c data h = (Ret true, h') ∧
          h_socks h' = h_socks h ++ [s] ∧ sk_id s = id ∧ sk_ch s = [c] ∧
          connSockets h' = <[id := length (h_socks h)]> (connSockets h) ∧
          acceptChan h' = acceptChan h ++ [length (h_socks h)] ∧
          h_session h' = h_session h ∧ h_mu h' = false ∧ connSocketsMu h' = false)) ∧
  (∀ ts p s x, id = close_ ++ ts → connSockets h !! (sock0 ++ ts) = Some p →
     h_socks h !! p = Some s → opened (h_session h) !! c = Some x →
     ∃ h', route false false c data h = (Ret true, h') ∧
       h_socks h' !! p = Some (set_signal true s) ∧
       opened (h_session h') !! c = Some (Stream (s_io x) true)).
Proof.
  intros Hmu Hsm id. split; [intros Hnc; split|].
  - intros p s Hp Hs Hch. unfold route. fold id. rewrite bool_decide_false by done.
    rewrite table_get, Hp by done. erewrite stm_bind_ret; [reflexivity|].
    unfold dispatchIncoming. rewrite (stm_bind_ret _ _ _ _ _ (load_ok _ _ _ Hs)).
    by rewrite bool_decide_true.
  - intros Hp Hch. unfold route. fold id. rewrite bool_decide_false by done.
    rewrite table_get, Hp by done. by apply new_socket_route.
  - intros ts p s x Hid Hp Hs Hx. unfold route. fold id. rewrite Hid.
    rewrite bool_decide_true by reflexivity. change (drop 6 (close_ ++ ts)) with ts.
    rewrite table_get, Hp by done. erewrite stm_bind_ret by reflexivity.
    erewrite stm_bind_ret.
    2:{ unfold conn_close, on_conn. cbn [h_session set_socks]. rewrite Hx. reflexivity. }
    eexists. split; [reflexivity|]. cbn [h_socks set_session set_socks h_session opened].
    split; [by rewrite list_lookup_alter_eq, Hs|].
    apply list_lookup_insert_eq. by eapply lookup_lt_Some.
Qed.

Lemma route_by_id_witness :
  route false false 0 (str "sock0.t") open_hub =
    (Ret true, set_socks (alter (λ s, set_ch (sk_ch s ++ [0%nat]) s) 0%nat (h_socks open_hub)) open_hub).
Proof.
  destruct (route_by_id 0 (str "sock0.t") open_hub eq_refl eq_refl) as [H _].
  destruct H as [H _]; [vm_compute; discriminate|].
  eapply (H 0%nat); [vm_compute; reflexivity|reflexivity|cbn; lia].
Defined.

(** [acceptNext] installs the next incoming connection but keeps the byte count
    of the connection before it: when that count had reached the limit, the
    next [Write] rotates away from the fresh connection before using it. *)
Theorem accept_keeps_count sel p h s c rest :
  h_socks h !! p = Some s → sk_client s = true → sk_ch s = c :: rest → closeSignal s = false →
  cancelled s = false → 0 < limitBytes s ≤ writeOnCur s →
  ∃ h' s', acceptNext sel p h = (Ret (), h') ∧ h_socks h' !! p = Some s' ∧
    cur s' = Some c ∧ sk_ch s' = rest ∧ writeOnCur s' = writeOnCur s ∧ rotates s' = true.
Proof.
  intros Hs Hcl Hch Hsig Hcan Hl. unfold acceptNext.
  rewrite (stm_bind_ret _ _ _ _ _ (load_ok _ _ _ Hs)), Hcl. cbn [negb].
  unfold acceptNext_ready. rewrite Hch, Hsig, Hcan. cbn [app length].
  rewrite Nat.mod_1_r. cbn [lookup list_lookup]. eexists _, _. split; [reflexivity|].
  split; [by apply store_lookup|]. split; [done|]. cbn. rewrite Hch. split; [done|]. split; [done|].
  unfold rotates. cbn. destruct (limitBytes s >? 0) eqn:E1; zbool; [|lia].
  destruct (writeOnCur s >=? limitBytes s) eqn:E2; zbool; [done|lia].
Qed.

Definition accepted_hub : hub :=
  set_socks [Socket (str "sock0.t") true [5%nat] [] 100 None 100 false false 0 0 0 false false]
     (NewRelayClient None).

Lemma accept_keeps_count_witness :
  ∃ h' s', acceptNext 0 0 accepted_hub = (Ret (), h') ∧ h_socks h' !! 0%nat = Some s' ∧
    cur s' = Some 5%nat ∧ sk_ch s' = [] ∧ writeOnCur s' = 100 ∧ rotates s' = true.
Proof.
  apply (accept_keeps_count 0 0 accepted_hub
    (Socket (str "sock0.t") true [5%nat] [] 100 None 100 false false 0 0 0 false false));
    cbn; (reflexivity || lia).
Defined.
