(* ===== verification/Noise.v ===== *)
(** * Secured connections to a relay (relayhub/noise.go, tls.go, relay.go [Connect])

    A noise connection frames encrypted messages with a 16-bit length; [Read] keeps
    what does not fit into the buffer of the caller.  The cipher states and the
    handshake are third-party code, an interface with laws.  On top of it, how a
    client gets its session: noise first, TLS when that fails, then yamux.  The
    theorems: a noise connection is a byte pipe in both directions, whatever the
    buffers and the fragmentation, and which paths leave a connection open. *)

From S2P Require Import Prelude GoIO Varint CircuitPb Multistream RelayStream.
Local Open Scope Z_scope.

(** ** The noise library *)

Class NoiseLib := {
  cstate : Type;                                     (* noise.CipherState *)
  cs_Encrypt : cstate → bytes → option (bytes * cstate);
  cs_Decrypt : cstate → bytes → option (bytes * cstate);
  hstate : Type;                                     (* noise.HandshakeState *)
  hs_New : bytes → bytes → bytes → option hstate;    (* prologue, private and public key *)
  hs_WriteMessage : hstate → option (bytes * option (cstate * cstate) * hstate);
  hs_ReadMessage : hstate → bytes → option hstate;
  X25519 : bytes → option bytes                      (* with the base point *)
}.

Definition overhead : nat := 16.

(** Two cipher states of one direction stay in step: what one encrypts the other
    decrypts, and a message grows by the tag. *)
Class NoiseLibLaws (N : NoiseLib) := {
  in_step : cstate → cstate → Prop;
  decrypt_encrypt e d p c e' :
    in_step e d → cs_Encrypt e p = Some (c, e') →
    length c = (length p + overhead)%nat ∧ ∃ d', cs_Decrypt d c = Some (p, d') ∧ in_step e' d'
}.

Inductive noise_err : Type :=
| NoiseIO (e : io_err)
| NoiseDecrypt
| NoiseEncrypt
| NoiseKey
| NoiseState.

Section Noise.
Context `{NoiseLib}.

Record noiseConn := mkNoise {
  n_conn : duplex;
  n_closed : bool;
  n_enc : cstate;
  n_dec : cstate;
  n_buf : bytes
}.

Definition set_conn (d : duplex) (c : noiseConn) : noiseConn :=
  mkNoise d (n_closed c) (n_enc c) (n_dec c) (n_buf c).

(** [io.ReadFull] on the connection *)
Definition conn_ReadFull (n : nat) (d : duplex) : outcome io_err bytes * duplex :=
  let '(r, rd) := ReadFull n (d_in d) in (r, Duplex rd (d_out d) (d_werr d)).

(** ** [Read] and [Write] *)

Definition noise_Read (k : nat) (c : noiseConn) : outcome noise_err bytes * noiseConn :=
  if bool_decide (0 < length (n_buf c))%nat then
    (Ret (take k (n_buf c)), mkNoise (n_conn c) (n_closed c) (n_enc c) (n_dec c) (drop k (n_buf c)))
  else
    let '(r, d1) := conn_ReadFull 2 (n_conn c) in
    match r with
    | Ret lenBuf =>
        let '(r2, d2) := conn_ReadFull (Z.to_nat (be_val lenBuf)) d1 in
        match r2 with
        | Ret ciphertext =>
            match cs_Decrypt (n_dec c) ciphertext with
            | None => (Fail NoiseDecrypt, set_conn d2 c)
            | Some (plaintext, dec) =>
                (Ret (take k plaintext),
                 mkNoise d2 (n_closed c) (n_enc c) dec
                   (if bool_decide (k < length plaintext)%nat then drop k plaintext else n_buf c))
            end
        | Fail e => (Fail (NoiseIO e), set_conn d2 c)
        | Panic => (Panic, set_conn d2 c)
        end
    | Fail e => (Fail (NoiseIO e), set_conn d1 c)
    | Panic => (Panic, set_conn d1 c)
    end.

Definition maxPlain : nat := Z.to_nat (65535 - 16).

(** The loop of [Write]; the result is the number of bytes written and the
    error.  [fuel] is a turn per byte, each turn takes one at least. *)
Fixpoint noise_Write_loop (fuel : nat) (p : bytes) (total : Z) (c : noiseConn)
    : (Z * option noise_err) * noiseConn :=
  match fuel, p with
  | O, _ | _, [] => ((total, None), c)
  | S fuel, _ =>
      let chunk := take maxPlain p in
      match cs_Encrypt (n_enc c) chunk with
      | None => ((total, Some NoiseEncrypt), c)
      | Some (ciphertext, enc) =>
          let c1 := mkNoise (n_conn c) (n_closed c) enc (n_dec c) (n_buf c) in
          let lenBuf := be_bytes 2 (u16 (zlen ciphertext)) in
          match dup_write lenBuf (n_conn c1) with
          | (Ret _, d1) =>
              match dup_write ciphertext d1 with
              | (Ret _, d2) =>
                  noise_Write_loop fuel (drop (length chunk) p) (total + zlen chunk) (set_conn d2 c1)
              | (Fail e, d2) => ((total, Some (NoiseIO e)), set_conn d2 c1)
              | (Panic, d2) => ((total, None), set_conn d2 c1)
              end
          | (Fail e, d1) => ((total, Some (NoiseIO e)), set_conn d1 c1)
          | (Panic, d1) => ((total, None), set_conn d1 c1)
          end
      end
  end.

Definition noise_Write (p : bytes) (c : noiseConn) : (Z * option noise_err) * noiseConn :=
  noise_Write_loop (length p) p 0 c.

Definition noise_Close (c : noiseConn) : noiseConn :=
  mkNoise (n_conn c) true (n_enc c) (n_dec c) (n_buf c).

(** ** The handshake *)

Definition writeNoiseMsg (msg : bytes) : stm duplex noise_err unit :=
  _ ← stm_wrap NoiseIO (dup_write (be_bytes 2 (u16 (zlen msg))));
  _ ← stm_wrap NoiseIO (dup_write msg);
  mret tt.

Definition readNoiseMsg : stm duplex noise_err bytes :=
  lenBuf ← stm_wrap NoiseIO (conn_ReadFull 2);
  stm_wrap NoiseIO (conn_ReadFull (Z.to_nat (be_val lenBuf))).

(** The clamping of the seed of the private key *)
Definition clamp (seed : bytes) : bytes :=
  let k := copy_into (make_bytes 32) seed in
  let k := alter (λ b, zb (Z.land (bz b) 248)) 0%nat k in
  alter (λ b, zb (Z.lor (Z.land (bz b) 127) 64)) 31%nat k.

Definition prologue : bytes := str "noise-libp2p-static-libs".

Definition or_noise {A} (e : noise_err) (o : option A) : stm duplex noise_err A :=
  stm_lift (match o with Some a => Ret a | None => Fail e end).

(** The three messages of the XX pattern, the first and the last of them ours *)
Definition noiseHandshake (seed : bytes) : stm duplex noise_err (cstate * cstate) :=
  let priv := clamp seed in
  pub ← or_noise NoiseKey (X25519 priv);
  hs ← or_noise NoiseState (hs_New prologue priv pub);
  '(msg1, _, hs1) ← or_noise NoiseState (hs_WriteMessage hs);
  _ ← writeNoiseMsg msg1;
  msg2 ← readNoiseMsg;
  hs2 ← or_noise NoiseState (hs_ReadMessage hs1 msg2);
  '(msg3, keys, _) ← or_noise NoiseState (hs_WriteMessage hs2);
  _ ← writeNoiseMsg msg3;
  or_noise NoiseState keys.

(** ** Getting a session

    A raw connection, what became of it, and what runs on it.  TLS and yamux are
    outside; their results are arguments. *)

Inductive sec_err : Type :=
| SecDial (e : io_err)
| SecMs (e : ms_err)
| SecNoise (e : noise_err)
| SecTls
| SecCert
| SecYamux
| SecBoth (tls : sec_err)
| AlreadyConnected.

Record raw := mkRaw { r_io : duplex; r_closed : bool }.

(** [dialNoise]: the raw connection as it is left, with the noise connection on
    success *)
Definition dialNoise (seed : bytes) (dial : io_err + duplex)
    : option raw * outcome sec_err noiseConn :=
  match dial with
  | inl e => (None, Fail (SecDial e))
  | inr d =>
      match MSSelect (str "/noise") d with
      | (Panic, d1) => (Some (mkRaw d1 false), Panic)
      | (Fail e, d1) => (Some (mkRaw d1 true), Fail (SecMs e))
      | (Ret _, d1) =>
          match noiseHandshake seed d1 with
          | (Ret (enc, dec), d2) => (Some (mkRaw d2 false), Ret (mkNoise d2 false enc dec []))
          | (Fail e, d2) => (Some (mkRaw d2 true), Fail (SecNoise e))
          | (Panic, d2) => (Some (mkRaw d2 false), Panic)
          end
      end
  end.

(** What [newTlsCert] and the handshake of [tls.Client] do *)
Inductive tls_outcome := CertFails | HandshakeFails | Secured (d : duplex).

(** [TLSClient]: the raw connection is closed when the handshake fails, and not
    when the certificate cannot be made. *)
Definition TLSClient (t : tls_outcome) (d : duplex) : raw * outcome sec_err duplex :=
  match t with
  | CertFails => (mkRaw d false, Fail SecCert)
  | HandshakeFails => (mkRaw d true, Fail SecTls)
  | Secured s => (mkRaw d false, Ret s)
  end.

Definition ConnectTLS (t : tls_outcome) (dial : io_err + duplex)
    : option raw * outcome sec_err duplex :=
  match dial with
  | inl e => (None, Fail (SecDial e))
  | inr d =>
      match MSSelect (str "/tls/1.0.0") d with
      | (Panic, d1) => (Some (mkRaw d1 false), Panic)
      | (Fail e, d1) => (Some (mkRaw d1 true), Fail (SecMs e))
      | (Ret _, d1) => let '(r, o) := TLSClient t d1 in (Some r, o)
      end
  end.

(** A secure connection: noise or TLS *)
Inductive secure := OverNoise (c : noiseConn) | OverTls (d : duplex).

(** The client as far as connecting changes it: the heap of its secure
    connections with whether they are closed, the connection under its session, and
    whether the watchdog runs. *)
Record sclient := mkSClient {
  sc_conns : list (secure * bool);
  sc_session : option nat;
  sc_watchdog : bool
}.

Definition new_sclient : sclient := mkSClient [] None false.

Definition close_conn (n : nat) (c : sclient) : sclient :=
  mkSClient (alter (λ x, (x.1, true)) n (sc_conns c)) (sc_session c) (sc_watchdog c).

(** [setupSession] on the secure connection [n], whose plaintext stream is [app];
    [yamux] says that the library makes a session. *)
Definition setupSession (n : nat) (app : duplex) (yamux : bool) (c : sclient)
    : outcome sec_err unit * sclient :=
  match MSSelectOver (str "/yamux/1.0.0") app with
  | (Panic, _) => (Panic, c)
  | (Fail e, _) => (Fail (SecMs e), close_conn n c)
  | (Ret _, _) =>
      if yamux then (Ret tt, mkSClient (sc_conns c) (Some n) (sc_watchdog c))
      else (Fail SecYamux, close_conn n c)
  end.

Definition startWatchdog (c : sclient) : sclient := mkSClient (sc_conns c) (sc_session c) true.

(** The dialling of [Connect]: noise, and TLS on a second connection when noise
    fails *)
Definition dial_secure (seed : bytes) (dial1 dial2 : io_err + duplex) (t : tls_outcome)
    : outcome sec_err secure :=
  match dialNoise seed dial1 with
  | (_, Ret c) => Ret (OverNoise c)
  | (_, Panic) => Panic
  | (_, Fail _) => d ← map_err SecBoth (ConnectTLS t dial2).2; Ret (OverTls d)
  end.

(** [Connect] is cut where it does not hold the mutex: the check, the dialling and
    the set-up. *)
Inductive connect_pc := Checking | Dialling | SettingUp (n : nat) | Connected | Failed (e : sec_err).

(** What the outside gives to the steps of one call *)
Record world := mkWorld {
  w_dial1 : io_err + duplex;
  w_dial2 : io_err + duplex;
  w_tls : tls_outcome;
  w_app : duplex;
  w_yamux : bool
}.

Definition connect_step_with (dialled : outcome sec_err secure) (w : world) (p : connect_pc) (c : sclient)
    : outcome sec_err (connect_pc * sclient) :=
  match p with
  | Checking => Ret (match sc_session c with Some _ => Failed AlreadyConnected | None => Dialling end, c)
  | Dialling =>
      match dialled with
      | Ret s =>
          Ret (SettingUp (length (sc_conns c)),
               mkSClient (sc_conns c ++ [(s, false)]) (sc_session c) (sc_watchdog c))
      | Fail e => Ret (Failed e, c)
      | Panic => Panic
      end
  | SettingUp n =>
      match setupSession n (w_app w) (w_yamux w) c with
      | (Ret _, c1) => Ret (Connected, startWatchdog c1)
      | (Fail e, c1) => Ret (Failed e, c1)
      | (Panic, _) => Panic
      end
  | Connected => Ret (Connected, c)
  | Failed e => Ret (Failed e, c)
  end.

(** [Connect] dials noise and then TLS, the method [ConnectTLS] TLS only. *)
Definition connect_step (seed : bytes) (w : world) : connect_pc → sclient → outcome sec_err (connect_pc * sclient) :=
  connect_step_with (dial_secure seed (w_dial1 w) (w_dial2 w) (w_tls w)) w.

Definition connect_tls_step (w : world) : connect_pc → sclient → outcome sec_err (connect_pc * sclient) :=
  connect_step_with (d ← (ConnectTLS (w_tls w) (w_dial1 w)).2; Ret (OverTls d)) w.

(** A whole call, without others in between *)
Definition call_with (step : connect_pc → sclient → outcome sec_err (connect_pc * sclient)) (c : sclient)
    : outcome sec_err (connect_pc * sclient) :=
  '(p1, c1) ← step Checking c;
  '(p2, c2) ← step p1 c1;
  step p2 c2.

Definition Connect (seed : bytes) (w : world) : sclient → outcome sec_err (connect_pc * sclient) :=
  call_with (connect_step seed w).

Definition client_ConnectTLS (w : world) : sclient → outcome sec_err (connect_pc * sclient) :=
  call_with (connect_tls_step w).

End Noise.

(** ** Noise as a byte pipe *)

Lemma maxPlain_value : Z.of_nat maxPlain = 65519.
Proof. unfold maxPlain. by rewrite Z2Nat.id by lia. Qed.

#[local] Opaque maxPlain.

Section Pipe.
Context `{NoiseLibLaws}.

(** The bytes on the wire for a list of messages, with the cipher states before
    and behind them *)
Inductive wire : cstate → list bytes → bytes → cstate → Prop :=
| wire_nil e : wire e [] [] e
| wire_cons e p c e1 ps w e2 :
    (0 < length p ≤ maxPlain)%nat → cs_Encrypt e p = Some (c, e1) → wire e1 ps w e2 →
    wire e (p :: ps) (be_bytes 2 (zlen c) ++ c ++ w) e2.

Lemma noise_wire_app e1 ps w e2 qs v e3 :
  wire e1 ps w e2 → wire e2 qs v e3 → wire e1 (ps ++ qs) (w ++ v) e3.
Proof. induction 1; intros Hq; cbn; [done|]. rewrite <- !app_assoc. econstructor; eauto. Qed.

Lemma length_cipher e d p c e' :
  in_step e d → (length p ≤ maxPlain)%nat → cs_Encrypt e p = Some (c, e') → 0 ≤ zlen c < 2 ^ 16.
Proof.
  intros Hs Hp Hc. destruct (decrypt_encrypt _ _ _ _ _ Hs Hc) as [Hl _]. unfold zlen, overhead in *.
  pose proof maxPlain_value. lia.
Qed.

(** [Write] puts its argument on the wire. *)
Lemma noise_Write_loop_wire fuel p total c n c' d :
  (length p ≤ fuel)%nat → in_step (n_enc c) d →
  noise_Write_loop fuel p total c = ((n, None), c') →
  n = total + zlen p ∧ ∃ ps w, concat ps = p ∧ wire (n_enc c) ps w (n_enc c') ∧
    d_out (n_conn c') = d_out (n_conn c) ++ w ∧ (∃ d', in_step (n_enc c') d').
Proof.
  revert p total c d. induction fuel as [|f IH]; intros p total c d Hf Hs Hw.
  { destruct p; [|cbn in Hf; lia]. injection Hw as <- <-. rewrite zlen_nil. split; [lia|].
    exists [], []. rewrite app_nil_r. split_and!; [done|constructor|done|by exists d]. }
  cbn [noise_Write_loop] in Hw. destruct p as [|x p0].
  { injection Hw as <- <-. rewrite zlen_nil. split; [lia|].
    exists [], []. rewrite app_nil_r. split_and!; [done|constructor|done|by exists d]. }
  set (p := x :: p0) in *. set (chunk := take maxPlain p) in *.
  destruct (cs_Encrypt (n_enc c) chunk) as [[ct enc]|] eqn:Ec; [|done].
  pose proof maxPlain_value as Hmax.
  assert (0 < length chunk ≤ maxPlain)%nat as Hchunk.
  { unfold chunk, p. rewrite length_take. cbn [length]. lia. }
  destruct (decrypt_encrypt _ _ _ _ _ Hs Ec) as (_ & d1 & _ & Hs1).
  pose proof (length_cipher _ _ _ _ _ Hs (proj2 Hchunk) Ec) as Hlen.
  unfold dup_write in Hw. cbn [n_conn] in Hw. destruct (d_werr (n_conn c)) as [e|]; [discriminate Hw|]. cbn [d_werr d_out d_in] in Hw.
  apply (IH _ _ _ d1) in Hw as (-> & ps & w & Hps & Hwire & Hout & Hd).
  2: { rewrite length_drop. unfold p in Hf |- *. cbn [length] in *. lia. }
  2: { done. }
  cbn [n_enc n_conn d_out set_conn] in *.
  assert (drop (length chunk) p = drop maxPlain p) as Ed.
  { unfold chunk. rewrite length_take. destruct (Nat.le_ge_cases maxPlain (length p)).
    - by rewrite Nat.min_l by lia.
    - rewrite Nat.min_r by lia. by rewrite !drop_ge by lia. }
  split.
  { rewrite Ed. rewrite <- (take_drop maxPlain p) at 2. rewrite zlen_app. unfold chunk. lia. }
  exists (chunk :: ps), (be_bytes 2 (zlen ct) ++ ct ++ w). split_and!; [| | |done].
  - cbn. rewrite Hps, Ed. apply take_drop.
  - econstructor; [done|done|exact Hwire].
  - rewrite Hout. unfold u16. rewrite wrap_u_small by lia. by rewrite <- !app_assoc.
Qed.

(** What a reader will get: [rem] is the plaintext that is still to come, [k] the
    bytes behind it. *)
Definition holds (rem k : bytes) (c : noiseConn) : Prop :=
  ∃ e ps w e', in_step e (n_dec c) ∧ wire e ps w e' ∧
    pending (d_in (n_conn c)) = w ++ k ∧ rem = n_buf c ++ concat ps.

Lemma noise_ReadFull_app n d l k :
  pending (d_in d) = l ++ k → length l = n →
  ∃ d', conn_ReadFull n d = (Ret l, d') ∧ pending (d_in d') = k.
Proof.
  intros Hp Hl. destruct (ReadFull_app n (d_in d) l k Hp Hl) as (rd & E & Hk & _).
  exists (Duplex rd (d_out d) (d_werr d)). unfold conn_ReadFull. by rewrite E.
Qed.

(** [Read] returns a non-empty beginning of it. *)
Lemma noise_Read_holds n rem k c :
  holds rem k c → rem ≠ [] → (0 < n)%nat →
  ∃ got rem' c', noise_Read n c = (Ret got, c') ∧ got ≠ [] ∧ (length got ≤ n)%nat ∧
    rem = got ++ rem' ∧ holds rem' k c'.
Proof.
  intros (e & ps & w & e' & Hs & Hw & Hp & ->) Hne Hn. unfold noise_Read.
  destruct (n_buf c) as [|b buf] eqn:Eb.
  - rewrite bool_decide_false by (cbn; lia). destruct Hw as [e|e p ct e1 ps w e2 Hlen Hc Hw]; [done|].
    destruct (decrypt_encrypt _ _ _ _ _ Hs Hc) as (Hl & d1 & Hd & Hs1).
    pose proof (length_cipher _ _ _ _ _ Hs (proj2 Hlen) Hc) as Hz.
    rewrite <- !app_assoc in Hp.
    destruct (noise_ReadFull_app 2 (n_conn c) _ _ Hp (length_be_bytes _ _)) as (d2 & -> & Hp2).
    rewrite be_val_be_bytes, Z.mod_small by (change (256 ^ Z.of_nat 2) with (2 ^ 16); lia).
    destruct (noise_ReadFull_app (Z.to_nat (zlen ct)) d2 _ _ Hp2) as (d3 & -> & Hp3).
    { unfold zlen. by rewrite Nat2Z.id. }
    rewrite Hd. exists (take n p), (drop n p ++ concat ps). eexists. split; [reflexivity|].
    split_and!.
    + intros E. apply (f_equal length) in E. rewrite length_take in E. cbn in E. lia.
    + rewrite length_take. lia.
    + cbn. by rewrite app_assoc, take_drop.
    + exists e1, ps, w, e2. cbn [n_dec n_conn n_buf]. split_and!; [done|done|done|].
      case_bool_decide; [done|]. by rewrite drop_ge by lia.
  - rewrite bool_decide_true by (cbn; lia). rewrite <- Eb.
    exists (take n (n_buf c)), (drop n (n_buf c) ++ concat ps). eexists. split; [reflexivity|].
    split_and!.
    + rewrite Eb. intros E. apply (f_equal length) in E. rewrite length_take in E. cbn in E. lia.
    + rewrite length_take. lia.
    + by rewrite app_assoc, take_drop.
    + exists e, ps, w, e'. by split_and!.
Qed.

(** Writing several times, and reading with buffers of several sizes *)
Fixpoint noise_writes (ps : list bytes) (c : noiseConn) : option noise_err * noiseConn :=
  match ps with
  | [] => (None, c)
  | p :: ps =>
      match noise_Write p c with
      | ((_, None), c') => noise_writes ps c'
      | ((_, Some e), c') => (Some e, c')
      end
  end.

Fixpoint noise_reads (ns : list nat) (c : noiseConn) : outcome noise_err bytes * noiseConn :=
  match ns with
  | [] => (Ret [], c)
  | n :: ns =>
      match noise_Read n c with
      | (Ret got, c') => let '(r, c2) := noise_reads ns c' in (rest ← r; Ret (got ++ rest), c2)
      | (r, c') => (r, c')
      end
  end.

Lemma noise_writes_wire ps c c' d :
  in_step (n_enc c) d → noise_writes ps c = (None, c') →
  ∃ qs w, concat qs = concat ps ∧ wire (n_enc c) qs w (n_enc c') ∧
    d_out (n_conn c') = d_out (n_conn c) ++ w.
Proof.
  revert c d. induction ps as [|p ps IH]; intros c d Hs Hw; cbn [noise_writes] in Hw.
  { injection Hw as <-. exists [], []. rewrite app_nil_r. split_and!; [done|constructor|done]. }
  destruct (noise_Write p c) as [[n [e|]] c1] eqn:E; [done|].
  destruct (noise_Write_loop_wire _ _ _ _ _ _ d (le_n _) Hs E) as (_ & qs & w & Hq & Hwq & Ho & d1 & Hs1).
  destruct (IH _ _ Hs1 Hw) as (qs2 & w2 & Hq2 & Hw2 & Ho2).
  exists (qs ++ qs2), (w ++ w2). split_and!.
  - cbn. by rewrite concat_app, Hq, Hq2.
  - by eapply noise_wire_app.
  - by rewrite Ho2, Ho, <- app_assoc.
Qed.

(** Reads stay within what was written, and every read before the end returns
    something. *)
Lemma noise_reads_holds ns rem k c :
  holds rem k c → Forall (λ n, (0 < n)%nat) ns →
  (∃ got rem' c', noise_reads ns c = (Ret got, c') ∧ rem = got ++ rem' ∧ holds rem' k c' ∧
     (length ns ≤ length got)%nat) ∨
  (∃ ms ls got c', ns = ms ++ ls ∧ noise_reads ms c = (Ret got, c') ∧ got = rem ∧ holds [] k c').
Proof.
  intros Hh Hn. revert rem c Hh. induction Hn as [|n ns Hn0 Hn IH]; intros rem c Hh.
  { left. exists [], rem, c. by split_and!. }
  destruct (decide (rem = [])) as [->|Hne].
  { right. exists [], (n :: ns), [], c. by split_and!. }
  destruct (noise_Read_holds n rem k c Hh Hne Hn0) as (got & rem' & c1 & E & Hg & _ & -> & Hh1).
  destruct (IH rem' c1 Hh1) as [(got2 & rem2 & c2 & E2 & -> & Hh2 & Hl)|(ms & ls & got2 & c2 & -> & E2 & -> & Hh2)].
  - left. exists (got ++ got2), rem2, c2. cbn [noise_reads]. rewrite E, E2. split_and!; [done|by rewrite app_assoc|done|].
    rewrite length_app. destruct got; [done|]. cbn. lia.
  - right. exists (n :: ms), ls, (got ++ rem'), c2. cbn [noise_reads]. rewrite E, E2. by split_and!.
Qed.
End Pipe.

(** ** Properties *)

(** C13: A noise connection is a byte pipe: whatever sequence of writes the one side
    makes, of any lengths, and whatever buffers the other side reads with, over
    any fragmentation of the wire, the bytes read are a beginning of the bytes
    written; either every read returned something, or the reads up to some point
    returned all that was written. *)
Theorem noise_pipe `{NoiseLibLaws} ps w w' r k ns :
  in_step (n_enc w) (n_dec r) → n_buf r = [] → noise_writes ps w = (None, w') →
  pending (d_in (n_conn r)) = drop (length (d_out (n_conn w))) (d_out (n_conn w')) ++ k →
  Forall (λ n, (0 < n)%nat) ns →
  (∃ got r', noise_reads ns r = (Ret got, r') ∧ got `prefix_of` concat ps ∧ (length ns ≤ length got)%nat) ∨
  (∃ ms ls r', ns = ms ++ ls ∧ noise_reads ms r = (Ret (concat ps), r')).
Proof.
  intros Hs Hb Hw Hp Hn.
  destruct (noise_writes_wire ps w w' _ Hs Hw) as (qs & wb & Hq & Hwire & Ho).
  rewrite Ho, drop_app_length in Hp.
  assert (holds (concat ps) k r) as Hh.
  { exists (n_enc w), qs, wb, (n_enc w'). split_and!; [done|done|done|]. by rewrite Hb, Hq. }
  destruct (noise_reads_holds ns _ _ _ Hh Hn) as
    [(got & rem' & r' & E & Hg & _ & Hl)|(ms & ls & got & r' & -> & E & -> & _)].
  - left. exists got, r'. split_and!; [done|by exists rem'|done].
  - right. by exists ms, ls, r'.
Qed.

(** What a failed dial leaves open: nothing with noise; with TLS the raw
    connection stays open exactly when the certificate cannot be made. *)
Theorem failed_dial_closes `{NoiseLib} seed dial r e :
  (dialNoise seed dial = (Some r, Fail e) → r_closed r = true) ∧
  ∀ t, ConnectTLS t dial = (Some r, Fail e) → r_closed r = true ∨ t = CertFails ∧ r_closed r = false.
Proof.
  split.
  - unfold dialNoise. destruct dial as [x|d]; [done|].
    destruct (MSSelect _ d) as [[u|x|] d1]; [|by intros [= <- _]|done].
    destruct (noiseHandshake seed d1) as [[[a b]|x|] d2]; [done|by intros [= <- _]|done].
  - intros t. unfold ConnectTLS. destruct dial as [x|d]; [done|].
    destruct (MSSelect _ d) as [[u|x|] d1]; [|intros [= <- _]; by left|done].
    destruct t; cbn; intros [= <- _]; [by right|by left].
Qed.

(** The connections that are open are the one under the session. *)
Definition only_session `{NoiseLib} (c : sclient) : Prop :=
  ∀ n x, sc_conns c !! n = Some (x, false) → sc_session c = Some n.

Lemma call_keeps_one `{NoiseLib} dialled w c p c' :
  only_session c → call_with (connect_step_with dialled w) c = Ret (p, c') →
  only_session c' ∧ (∀ n, sc_session c = Some n → p = Failed AlreadyConnected ∧ c' = c) ∧
  (p = Connected → ∃ n, sc_session c' = Some n ∧ sc_watchdog c' = true).
Proof.
  intros Hc. unfold call_with. cbn [connect_step_with mbind outcome_bind].
  destruct (sc_session c) as [n|] eqn:Es.
  { cbn. intros [= <- <-]. split; [done|]. split; [done|]. intros [=]. }
  assert (∀ n x, sc_conns c !! n ≠ Some (x, false)) as Hnone.
  { intros n x Hx. apply Hc in Hx. congruence. }
  cbn [connect_step_with mbind outcome_bind]. destruct dialled as [s|e|]; cbn [mbind outcome_bind connect_step_with].
  2: { intros [= <- <-]. split; [done|]. split; [congruence|]. intros [=]. }
  2: { done. }
  set (c1 := mkSClient _ _ _).
  assert (∀ c2, c2 = close_conn (length (sc_conns c)) c1 → only_session c2) as Hclose.
  { intros c2 -> n x Hx. unfold close_conn in Hx. cbn in Hx. rewrite list_lookup_alter in Hx.
    destruct (decide (length (sc_conns c) = n)) as [<-|Hne].
    - rewrite lookup_app_r, Nat.sub_diag in Hx by lia. cbn in Hx. congruence.
    - apply lookup_snoc_Some in Hx as [[_ Hx]|[? _]]; [by destruct (Hnone n x)|congruence]. }
  unfold setupSession. destruct (MSSelectOver _ _) as [[u|e|] d].
  - destruct (w_yamux w); intros [= <- <-].
    + split; [|split; [congruence|]].
      * intros n x Hx. cbn in Hx. cbn. apply lookup_snoc_Some in Hx as [[_ Hx]|[-> _]]; [by destruct (Hnone n x)|done].
      * intros _. by eexists.
    + split; [by apply Hclose|]. split; [congruence|]. intros [=].
  - intros [= <- <-]. split; [by apply Hclose|]. split; [congruence|]. intros [=].
  - done.
Qed.

(** A call of [Connect] or [ConnectTLS] that nothing interrupts keeps no connection
    open except the one under the session, whether it succeeds or fails at any point; a
    second call fails and changes nothing. *)
Theorem connect_keeps_one `{NoiseLib} seed w c p c' :
  only_session c → Connect seed w c = Ret (p, c') ∨ client_ConnectTLS w c = Ret (p, c') →
  only_session c' ∧ (∀ n, sc_session c = Some n → p = Failed AlreadyConnected ∧ c' = c) ∧
  (p = Connected → ∃ n, sc_session c' = Some n ∧ sc_watchdog c' = true).
Proof. intros Hc [Hr|Hr]; by eapply call_keeps_one. Qed.

(** ** A library with the laws, and two runs *)

Module ToyNoise.

(** A cipher state is a counter; it is appended 16 times as the tag. *)
Definition tag (n : nat) : bytes := replicate 16 (zb (Z.of_nat n)).

#[export] Instance toy_noise : NoiseLib := {|
  cstate := nat;
  cs_Encrypt n p := Some (p ++ tag n, S n);
  cs_Decrypt n c :=
    if bool_decide (drop (length c - 16) c = tag n) then Some (take (length c - 16) c, S n) else None;
  hstate := bool;
  hs_New _ _ _ := Some false;
  hs_WriteMessage h := Some ([x01], if h then Some (0, 0)%nat else None, h);
  hs_ReadMessage _ _ := Some true;
  X25519 k := Some k
|}.

#[export] Instance toy_noise_laws : NoiseLibLaws toy_noise.
Proof.
  refine {| in_step (e d : @cstate toy_noise) := e = d |}.
  intros e d p c e' -> [= <- <-]. cbn [cs_Decrypt toy_noise].
  assert (length (tag d) = 16%nat) as Ht by reflexivity.
  rewrite length_app, Ht. split; [done|]. exists (S d).
  replace (length p + 16 - 16)%nat with (length p) by lia.
  rewrite drop_app_length, take_app_length, bool_decide_true by done. done.
Defined.

Definition fresh (d : duplex) : noiseConn := mkNoise d false (0%nat : @cstate toy_noise) (0%nat : @cstate toy_noise) [].
End ToyNoise.

Import ToyNoise.

Definition sent : noiseConn := Eval vm_compute in (noise_writes [str "hello"; str "!"] (fresh (Duplex (Reader [] EOF) [] None))).2.

Lemma noise_pipe_witness :
  (∃ got r', noise_reads [2; 2; 2; 2]%nat (fresh (Duplex (Reader [take 9 (d_out (n_conn sent)); drop 9 (d_out (n_conn sent))] EOF) [] None)) = (Ret got, r') ∧
     got `prefix_of` concat [str "hello"; str "!"] ∧ (4 ≤ length got)%nat) ∨
  (∃ ms ls r', [2; 2; 2; 2]%nat = ms ++ ls ∧
     noise_reads ms (fresh (Duplex (Reader [take 9 (d_out (n_conn sent)); drop 9 (d_out (n_conn sent))] EOF) [] None)) =
       (Ret (concat [str "hello"; str "!"]), r')).
Proof.
  apply (noise_pipe [str "hello"; str "!"] (fresh (Duplex (Reader [] EOF) [] None)) sent _ [] [2; 2; 2; 2]%nat).
  - reflexivity.
  - reflexivity.
  - reflexivity.
  - reflexivity.
  - repeat constructor.
Defined.

Lemma connect_keeps_one_witness :
  ∃ p c', Connect [] (mkWorld (inl EOF) (inl EOF) CertFails (on_input []) false) new_sclient = Ret (p, c') ∧
    only_session c'.
Proof.
  eexists _, _. split; [reflexivity|].
  apply (connect_keeps_one [] (mkWorld (inl EOF) (inl EOF) CertFails (on_input []) false) new_sclient
           (Failed (SecBoth (SecDial EOF))) new_sclient).
  - intros n x Hx. done.
  - left. reflexivity.
Defined.

(** Two calls whose steps interleave both pass the check: the second session replaces
    the first, whose connection stays open. *)
Definition yamux_answer : bytes := framed header ++ framed (str "/yamux/1.0.0" ++ newline).

Definition tls_world : world :=
  mkWorld (inl EOF) (inr (on_input (framed header ++ framed (str "/tls/1.0.0" ++ newline))))
    (Secured (on_input yamux_answer)) (on_input yamux_answer) true.

Definition two_connects : outcome sec_err (connect_pc * connect_pc * sclient) :=
  '(p1, c1) ← connect_step [] tls_world Checking new_sclient;
  '(q1, c2) ← connect_step [] tls_world Checking c1;
  '(p2, c3) ← connect_step [] tls_world p1 c2;
  '(q2, c4) ← connect_step [] tls_world q1 c3;
  '(p3, c5) ← connect_step [] tls_world p2 c4;
  '(q3, c6) ← connect_step [] tls_world q2 c5;
  Ret (p3, q3, c6).

Theorem two_connects_leak :
  ∃ c', two_connects = Ret (Connected, Connected, c') ∧ ¬ only_session c'.
Proof.
  assert (match two_connects with
          | Ret (Connected, Connected, c) =>
              bool_decide (snd <$> sc_conns c !! 0%nat = Some false) && bool_decide (sc_session c = Some 1%nat)
          | _ => false
          end = true) as E by (vm_compute; reflexivity).
  destruct two_connects as [[[p q] c']| |]; [|discriminate E..].
  destruct p; try discriminate E. destruct q; try discriminate E.
  apply andb_true_iff in E as [E1 E2]. apply bool_decide_eq_true in E1, E2.
  exists c'. split; [done|]. intros Hc. destruct (sc_conns c' !! 0%nat) as [[x b]|] eqn:E; [|done].
  cbn in E1. injection E1 as ->. apply Hc in E. congruence.
Qed.
