(* ===== verification/RelayWatch.v ===== *)
(** * Watching and accepting (relayhub/relay.go)

    The goroutines and loops of the relay client that [RelaySocket] leaves out: the
    probe that asks a new relay whether it can relay, the watchdog that pings the
    relay and announces the end of the session, and [AcceptRelay], which waits for
    the next relayed connection without sockets.  They run on the client of
    [RelaySocket] and the conversations of [RelayStream]. *)

From stdpp Require Import strings.
From S2P Require Import Prelude GoIO Varint Base58 CircuitPb Multistream RelayStream RelaySocket.
Local Open Scope Z_scope.

(** ** Peer ids *)

Definition ParsePeerID (s : bytes) : outcome base58_err bytes := base58Decode s.
Definition PeerID_String (id : bytes) : bytes := base58Encode id.

(** The probe of [setupSession]: the errors of writing, reading and decoding are
    dropped; the answer is only logged. *)
Definition can_hop_msg : CircuitV1Message := mkV1 CircuitV1TypeCanHop None None 0.

Definition probe_conv : st unit :=
  _ ← or_close (ms_select CircuitV1ProtoID);
  _ ← drop_err (write_pb (encodeCircuitV1 can_hop_msg));
  _ ← drop_err (data ← readOnePb; st_decode (decodeCircuitV1 data));
  close.

(** ** The watchdog *)

Definition ping_proto : bytes := str "/ipfs/ping/1.0.0".
Definition ping_msg : bytes := str "ping".

(** What the watchdog does with the stream it opened *)
Definition ping_conv : st unit :=
  _ ← or_close (on_duplex EMs (MSSelectOver ping_proto));
  _ ← drop_err (write_pb ping_msg);
  _ ← drop_err readOnePb;
  close.

(** Starting it: the answer tells whether the goroutine is started. *)
Definition startWatchdog : hm bool :=
  _ ← lock_mu;
  w ← gets watchdog;
  if (w : bool) then _ ← unlock_mu; mret false
  else _ ← modify (set_watchdog true); _ ← unlock_mu; mret true.

(** What the [select] of a turn sees: the cancelled context, or the ticker together
    with the answer of the session's [IsClosed]. *)
Inductive watch_in := WCancel | WTick (is_closed : bool).

(** A turn after a tick; the answer tells whether the loop goes on. *)
Definition watch_turn (is_closed : bool) : hm bool :=
  _ ← lock_mu; ok ← gets h_connected; _ ← unlock_mu;
  if negb ok || is_closed then _ ← notifySessionDone; mret false
  else act (fun h =>
    let '(r, s') := open_run ping_conv (h_session h) in
    (match r with Panic => Panic | _ => Ret true end, set_session s' h)).

Fixpoint watch_loop (ins : list watch_in) : hm unit :=
  match ins with
  | [] => stm_fail Blocked
  | WCancel :: _ => mret ()
  | WTick is_closed :: ins =>
      go_on ← watch_turn is_closed;
      if (go_on : bool) then watch_loop ins else mret ()
  end.

(** ** AcceptRelay *)

Section Accept.
Context (sign : bytes → bytes) (pubKeyProto : bytes) (now : Z) (own_id : bytes).

(** What [acceptStreamWithCtx] gives, turn by turn *)
Inductive accept_in := InStream (d : duplex) | InErr (e : io_err) | InCanceled.

Fixpoint AcceptRelay_turns (ins : list accept_in) : hm conn :=
  match ins with
  | [] => stm_fail Blocked
  | InErr e :: _ => stm_fail (SockRead e)
  | InCanceled :: _ => stm_fail ErrCtx
  | InStream d :: ins =>
      c ← accept_stream d;
      act (fun h =>
        match on_conn c (handleIncoming sign pubKeyProto now own_id) h with
        | (Panic, h') => (Panic, h')
        | (Fail _, h') => (_ ← conn_close c; AcceptRelay_turns ins) h'
        | (Ret Relayed, h') => (Ret c, h')
        | (Ret _, h') => AcceptRelay_turns ins h'
        end)
  end.

Definition AcceptRelay (ins : list accept_in) : hm conn :=
  _ ← lock_mu; ok ← gets h_connected; _ ← unlock_mu;
  if negb ok then stm_fail (ErrRelay ENotConnected) else AcceptRelay_turns ins.

End Accept.

(** ** Conversations that close their stream *)

Definition closes {A} (m : st A) : Prop :=
  ∀ s, s_closed s = false →
  match m s with (Panic, _) => True | (_, s') => s_closed s' = true end.

Lemma closes_or_close {A B} (m : st A) (k : A → st B) :
  keeps m → (∀ a, closes (k a)) → closes (a ← or_close m; k a).
Proof.
  intros Hm Hk s Hs. specialize (Hm s). unfold mbind, stm_bind, or_close.
  destruct (m s) as [[a|e|] s1]; cbn in *; [|done..]. apply Hk. congruence.
Qed.

Lemma keeps_drop_err {A} (m : st A) : keeps m → keeps (drop_err m).
Proof. intros Hm s. specialize (Hm s). unfold drop_err. by destruct (m s) as [[] ?]. Qed.

Lemma closes_after {A B} (m : st A) (k : A → st B) :
  keeps m → (∀ s e, (m s).1 ≠ Fail e) → (∀ a, closes (k a)) → closes (a ← m; k a).
Proof.
  intros Hm Hf Hk s Hs. specialize (Hm s). specialize (Hf s). unfold mbind, stm_bind.
  destruct (m s) as [[a|e|] s1]; cbn in *; [apply Hk; congruence|by destruct (Hf e)|done].
Qed.

Lemma drop_err_no_fail {A} (m : st A) s e : (drop_err m s).1 ≠ Fail e.
Proof. unfold drop_err. by destruct (m s) as [[] ?]. Qed.

Lemma ping_conv_closes : closes ping_conv.
Proof.
  apply closes_or_close; [auto with relay|intros _].
  do 2 (apply closes_after; [apply keeps_drop_err; auto with relay|apply drop_err_no_fail|intros _]).
  by intros s Hs.
Qed.

Lemma probe_conv_closes : closes probe_conv.
Proof.
  apply closes_or_close; [auto with relay|intros _].
  apply closes_after; [apply keeps_drop_err; auto with relay|apply drop_err_no_fail|intros _].
  apply closes_after; [|apply drop_err_no_fail|by intros _ s Hs].
  apply keeps_drop_err, keeps_bind; auto with relay.
Qed.

Definition all_closed (l : list stream) : Prop := Forall (λ x, s_closed x = true) l.

Lemma open_run_closes {A} (m : st A) s r s' :
  closes m → open_run m s = (r, s') → r ≠ Panic →
  ∃ new, opened s' = opened s ++ new ∧ all_closed new.
Proof.
  intros Hm E Hr. unfold open_run in E. destruct (to_open s) as [|[e|d] k].
  - injection E as <- <-. exists []. split; [by rewrite app_nil_r|constructor].
  - injection E as <- <-. exists []. split; [by rewrite app_nil_r|constructor].
  - specialize (Hm (Stream d false) eq_refl). destruct (m (Stream d false)) as [[a|e|] x];
      injection E as <- <-; [..|done]; exists [x]; (split; [done|]); by apply Forall_singleton.
Qed.

(** ** The watchdog: lemmas *)

Lemma lock_gets {A B} (f : hub → A) (k : A → hm B) h :
  h_mu h = false → (_ ← lock_mu; a ← gets f; _ ← unlock_mu; k a) h = k (f (set_mu true h)) h.
Proof.
  intros Hm. unfold mbind, stm_bind, lock_mu, gets, unlock_mu, modify. rewrite Hm. by rewrite set_mu_same.
Qed.

(** A tick of a connected client with an open session *)
Lemma watch_turn_ping h r h' :
  h_mu h = false → h_connected h = true → watch_turn false h = (r, h') → r ≠ Panic →
  r = Ret true ∧ ∃ s new, h' = set_session s h ∧ opened s = opened (h_session h) ++ new ∧ all_closed new.
Proof.
  intros Hm Hc. unfold watch_turn. rewrite lock_gets by done. cbn [h_connected set_mu]. rewrite Hc. cbn [negb orb].
  unfold act. destruct (open_run ping_conv (h_session h)) as [o s] eqn:E. intros [= <- <-] Hr.
  destruct (open_run_closes _ _ _ _ ping_conv_closes E) as (new & ? & ?); [by destruct o|].
  split; [by destruct o|]. by exists s, new.
Qed.

Lemma watch_pings n rest h r h' :
  h_mu h = false → h_connected h = true →
  watch_loop (replicate n (WTick false) ++ rest) h = (r, h') → r ≠ Panic →
  ∃ s new, watch_loop rest (set_session s h) = (r, h') ∧ opened s = opened (h_session h) ++ new ∧ all_closed new.
Proof.
  revert h. induction n as [|n IH]; intros h Hm Hc E Hr; cbn [replicate app watch_loop] in E.
  { exists (h_session h), []. rewrite app_nil_r. split_and!; [by destruct h|done|constructor]. }
  unfold mbind, stm_bind in E. destruct (watch_turn false h) as [o h1] eqn:E1.
  assert (o ≠ Panic) as Ho by (intros ->; congruence).
  destruct (watch_turn_ping h o h1 Hm Hc E1 Ho) as (-> & s & new & -> & Hs & Hn).
  destruct (IH (set_session s h)) as (s2 & new2 & E2 & Hs2 & Hn2); [done|done|done|done|].
  exists s2, (new ++ new2). split; [done|]. cbn [h_session set_session] in Hs2.
  rewrite Hs2, Hs, app_assoc. split; [done|]. by apply Forall_app.
Qed.

(** ** Accepting: lemmas *)

(** The conversation on the stream that was accepted last *)
Lemma on_last {A} (m : st A) s o x h :
  on_conn (length o) m (set_session (Session s (o ++ [x])) h) =
    (map_err ErrRelay (m x).1, set_session (Session s (o ++ [(m x).2])) h).
Proof.
  unfold on_conn. cbn [h_session set_session opened to_open].
  rewrite lookup_app_r, Nat.sub_diag by lia. cbn [lookup list_lookup].
  destruct (m x) as [r y]. cbn [fst snd]. f_equal. unfold set_session. cbn. f_equal. f_equal.
  rewrite <- (Nat.add_0_r (length o)), insert_app_r. done.
Qed.

Section Accepting.
Context (sign : bytes → bytes) (pubKeyProto : bytes) (now : Z) (own_id : bytes).
#[local] Abbreviation handle := (handleIncoming sign pubKeyProto now own_id).

(** What [AcceptRelay] leaves of a stream it does not return: closed when it could
    not be handled *)
Definition left_as (d : duplex) (y : stream) : Prop :=
  match handle (Stream d false) with
  | (Fail _, x) => y = Stream (s_io x) true
  | (Ret Relayed, _) => False
  | (Ret _, x) => y = x
  | (Panic, _) => False
  end.

Lemma AcceptRelay_turns_ret ins h c h' :
  AcceptRelay_turns sign pubKeyProto now own_id ins h = (Ret c, h') →
  ∃ pre d rest ys x, ins = map InStream pre ++ InStream d :: rest ∧
    handle (Stream d false) = (Ret Relayed, x) ∧ Forall2 left_as pre ys ∧
    c = (length (opened (h_session h)) + length pre)%nat ∧
    h' = set_session (Session (to_open (h_session h)) (opened (h_session h) ++ ys ++ [x])) h.
Proof.
  revert h. induction ins as [|[d|e|] ins IH]; intros h; cbn [AcceptRelay_turns]; [done| |done..].
  unfold mbind, stm_bind, accept_stream, act. rewrite on_last.
  destruct (handle (Stream d false)) as [[inc|e|] x] eqn:Ed; cbn [map_err fst snd]; [| |done].
  - destruct (decide (inc = Relayed)) as [->|Hne].
    + intros [= <- <-]. exists [], d, ins, [], x. cbn. by rewrite Nat.add_0_r.
    + intros E. assert (AcceptRelay_turns sign pubKeyProto now own_id ins
        (set_session (Session (to_open (h_session h)) (opened (h_session h) ++ [x])) h) = (Ret c, h')) as E'
        by (by destruct inc). clear E.
      apply IH in E' as (pre & d' & rest & ys & x' & -> & Hx & Hf & -> & ->).
      exists (d :: pre), d', rest, (x :: ys), x'. cbn. rewrite length_app, <- app_assoc. cbn.
      split_and!; [done|done| |lia|done]. constructor; [|done]. unfold left_as. rewrite Ed. by destruct inc.
  - unfold conn_close. rewrite on_last. cbn [close map_err fst snd]. intros E.
    apply IH in E as (pre & d' & rest & ys & x' & -> & Hx & Hf & -> & ->).
    exists (d :: pre), d', rest, (Stream (s_io x) true :: ys), x'. cbn. rewrite length_app, <- app_assoc. cbn.
    split_and!; [done|done| |lia|done]. constructor; [|done]. unfold left_as. by rewrite Ed.
Qed.

End Accepting.

(** ** Properties *)

(** The watchdog of a connected client: however many ticks find the session open,
    each opens one stream at most and leaves none open, whatever the relay answers, and
    none of them announces the end of the session; the first tick that finds the
    session closed announces it and ends the goroutine; a cancelled context ends it
    without an announcement.  Nothing else of the client changes, and the mutex is
    free. *)
Theorem watchdog_announces n stop rest h r h' :
  h_mu h = false → h_connected h = true → stop ≠ WTick false →
  watch_loop (replicate n (WTick false) ++ stop :: rest) h = (r, h') → r ≠ Panic →
  r = Ret () ∧ ∃ s new, opened s = opened (h_session h) ++ new ∧ all_closed new ∧
    h' = match stop with WCancel => set_session s h | WTick _ => set_done true (set_session s h) end.
Proof.
  intros Hm Hc Hs E Hr. apply watch_pings in E as (s & new & E & Ho & Hn); [|done..].
  destruct stop as [|[]]; [| |done]; cbn [watch_loop] in E.
  - injection E as <- <-. split; [done|]. by exists s, new.
  - assert (watch_turn true (set_session s h) = (Ret false, set_done true (set_session s h))) as Et.
    { unfold watch_turn. rewrite lock_gets by done. by rewrite orb_true_r. }
    rewrite (stm_bind_ret _ _ _ _ _ Et) in E. injection E as <- <-. split; [done|]. by exists s, new.
Qed.

(** [AcceptRelay] returns the first accepted stream that is a relayed connection, as
    the conversation left it; every stream that came before it and could not be handled
    is closed, the others are left as their conversation left them, and nothing else of
    the client changes. *)
Theorem accept_first_relayed sign pubKey now id ins h c h' :
  h_mu h = false → AcceptRelay sign pubKey now id ins h = (Ret c, h') →
  h_connected h = true ∧
  ∃ pre d rest ys x, ins = map InStream pre ++ InStream d :: rest ∧
    handleIncoming sign pubKey now id (Stream d false) = (Ret Relayed, x) ∧
    Forall2 (left_as sign pubKey now id) pre ys ∧
    opened (h_session h') = opened (h_session h) ++ ys ++ [x] ∧
    opened (h_session h') !! c = Some x ∧
    h' = set_session (h_session h') h.
Proof.
  intros Hm. unfold AcceptRelay. rewrite lock_gets by done. cbn [h_connected set_mu].
  destruct (h_connected h) eqn:Hc; cbn [negb]; [|done]. intros E. split; [done|].
  apply AcceptRelay_turns_ret in E as (pre & d & rest & ys & x & -> & Hx & Hf & -> & ->).
  exists pre, d, rest, ys, x. cbn [h_session set_session opened]. split_and!; try done.
  rewrite (list.Forall2_length _ _ _ Hf), app_assoc, lookup_app_r by (rewrite length_app; lia).
  rewrite length_app, Nat.sub_diag. done.
Qed.

(** The ping of the watchdog against the ping service of this client: the negotiation
    and the message are what the service echoes, the watchdog reads the echo to its
    last byte and closes the stream. *)
Theorem watchdog_ping_answered rd out resp k c :
  resp = ping_proto ∨ resp = ping_proto ++ newline →
  pending rd = framed header ++ framed resp ++ framed ping_msg ++ k →
  (∃ rd', ping_conv (Stream (Duplex rd out None) c) =
     (Ret (), Stream (Duplex rd' (out ++ framed header ++ framed (ping_proto ++ newline) ++ framed ping_msg) None)
                     true) ∧ pending rd' = k) ∧
  (∃ rd', handlePing (Stream (Duplex (Reader [framed ping_msg] EOF) [] None) false) =
     (Ret (), Stream (Duplex rd' (framed ping_msg) None) true)).
Proof.
  intros Hr Hp. split.
  - assert (proto_ok ping_proto) as Hok by (split_and!; [done|done|vm_compute; done]).
    destruct (ms_select_answered ping_proto rd out resp (framed ping_msg ++ k) c Hok Hr Hp) as (r1 & E1 & Hp1 & _).
    destruct (readOnePb_app ping_msg k r1 (out ++ framed header ++ framed (ping_proto ++ newline) ++ framed ping_msg)
      None c) as (r2 & E2 & Hp2 & _); [vm_compute; discriminate|done|].
    exists r2. split; [|done]. unfold ping_conv. change (on_duplex EMs (MSSelectOver ping_proto)) with (ms_select ping_proto).
    rewrite (stm_bind_ret _ _ _ _ _ (or_close_ret _ _ _ _ E1)). unfold mbind, stm_bind, drop_err.
    rewrite write_pb_ok, <- !app_assoc, E2. done.
  - eexists. vm_compute. reflexivity.
Qed.

(** A peer id that was printed is parsed back. *)
Theorem peer_id_text id : id ≠ [] → ParsePeerID (PeerID_String id) = Ret id.
Proof. apply base58Decode_base58Encode. Qed.

(** The watchdog is started once. *)
Theorem watchdog_once h :
  h_mu h = false →
  startWatchdog h = (Ret (negb (watchdog h)), set_watchdog true h) ∧
  startWatchdog (set_watchdog true h) = (Ret false, set_watchdog true h).
Proof.
  intros Hm. destruct h as [? ? ? mu ? ? ? ? ? ? ? w ?]. cbn in Hm. subst mu. by destruct w.
Qed.

(** ** Witnesses *)

(** A connected client whose session refuses one stream and then opens one on which
    the relay answers. *)
Definition watch_hub : hub :=
  set_connected true (set_session
    (Session [inl EOF; inr (on_input (framed header ++ framed ping_proto ++ framed ping_msg))] [])
    (NewRelayClient None)).

Definition watch_done : hub :=
  Eval vm_compute in (watch_loop (replicate 2 (WTick false) ++ [WTick true]) watch_hub).2.

Lemma watchdog_announces_witness :
  @Ret sock_err unit () = Ret () ∧ ∃ s new,
    opened s = opened (h_session watch_hub) ++ new ∧ all_closed new ∧
    watch_done = set_done true (set_session s watch_hub).
Proof.
  apply (watchdog_announces 2 (WTick true) [] watch_hub (Ret ()) watch_done); [reflexivity|reflexivity|done| |done].
  vm_compute. reflexivity.
Defined.

Definition stop_input : bytes :=
  framed header ++ framed (stop_proto ++ newline) ++ framed (encodeStopMessage stop_connect_sample).

Definition accept_ins : list accept_in := [InStream (on_input []); InStream (on_input stop_input); InCanceled].

Definition accept_hub : hub :=
  Eval vm_compute in (AcceptRelay (λ m, m) [] 0 [] accept_ins watch_hub).2.

Lemma accept_first_relayed_witness :
  h_connected watch_hub = true ∧
  ∃ pre d rest ys x, accept_ins = map InStream pre ++ InStream d :: rest ∧
    handleIncoming (λ m, m) [] 0 [] (Stream d false) = (Ret Relayed, x) ∧
    Forall2 (left_as (λ m, m) [] 0 []) pre ys ∧
    opened (h_session accept_hub) = opened (h_session watch_hub) ++ ys ++ [x] ∧
    opened (h_session accept_hub) !! 1%nat = Some x ∧
    accept_hub = set_session (h_session accept_hub) watch_hub.
Proof.
  apply (accept_first_relayed (λ m, m) [] 0 [] accept_ins watch_hub 1%nat accept_hub); [reflexivity|].
  vm_compute. reflexivity.
Defined.
