(* ===== verification/Detect.v ===== *)
(** * Relay detection (relayhub/detect.go)

    A probe of a relay: TCP, TLS and yamux, then one conversation per stream for
    identify, circuit v1, a v2 reservation, a v2 connection to oneself and the stop
    protocol.  The parsers of the identify message and of binary multiaddresses are
    loops over the rest of the input; they run on fuel, one turn per byte and one
    more, which is always enough.  TLS and yamux are outside: the probe is given
    the connections they produce. *)

From Stdlib Require Import Strings.String.
From stdpp Require Import strings.
From S2P Require Import Prelude GoIO GoText Sha2 Varint KeyRing Base58 CircuitPb Multistream RelayStream.
Local Open Scope Z_scope.

(** ** The identify message *)

Record IdentifyInfo := mkIdentify {
  PeerID : bytes;
  Agent : bytes;
  Protos : list bytes;
  SignedPeerRecord : option bytes
}.

Definition no_info : IdentifyInfo := mkIdentify [] [] [] None.

(** The switch over the field number *)
Definition identify_field (field : Z) (val : bytes) (info : IdentifyInfo) : IdentifyInfo :=
  if field =? 1 then
    mkIdentify (base58Encode ([x12; x20] ++ sha256 val)) (Agent info) (Protos info) (SignedPeerRecord info)
  else if field =? 3 then
    mkIdentify (PeerID info) (Agent info) (Protos info ++ [val]) (SignedPeerRecord info)
  else if field =? 6 then mkIdentify (PeerID info) val (Protos info) (SignedPeerRecord info)
  else if field =? 8 then mkIdentify (PeerID info) (Agent info) (Protos info) (Some val)
  else info.

(** [rest[n:]] for a positive [n] that a varint decoder returned *)
Definition rest_at (n : Z) (b : bytes) : bytes := drop (Z.to_nat n) b.

(** The loop; [None] is fuel that ran out.  A length above the range of [int]
    passes the check [int(l) > len(rest[n:])] as a negative number and makes
    [rest[:l]] panic. *)
Fixpoint parseIdentify_loop (fuel : nat) (rest : bytes) (info : IdentifyInfo)
    : option (outcome unit IdentifyInfo) :=
  match fuel with
  | O => None
  | S fuel =>
      match rest with
      | [] => Some (Ret info)
      | _ =>
          let '(tag, n) := decodeVarint rest in
          if n <=? 0 then Some (Ret info)
          else
            let rest := rest_at n rest in
            let field := i64 (Z.shiftr tag 3) in
            let wt := Z.land tag 7 in
            if negb (wt =? 2) then
              if wt =? 0 then
                let '(_, n) := decodeVarint rest in
                if n <=? 0 then Some (Ret info) else parseIdentify_loop fuel (rest_at n rest) info
              else Some (Ret info)
            else
              let '(l, n) := decodeVarint rest in
              if (n <=? 0) || (i64 l >? zlen (rest_at n rest)) then Some (Ret info)
              else
                let rest := rest_at n rest in
                if l >? zlen rest then Some Panic
                else parseIdentify_loop fuel (drop (Z.to_nat l) rest)
                       (identify_field field (take (Z.to_nat l) rest) info)
      end
  end.

Definition parseIdentify (data : bytes) : option (outcome unit IdentifyInfo) :=
  parseIdentify_loop (S (length data)) data no_info.

(** ** Binary multiaddresses *)

Definition maProtos : list (Z * (string * Z)) :=
  [(0x04, ("ip4", 4)); (0x06, ("tcp", 2)); (0x29, ("ip6", 16)); (0x35, ("dns", -1));
   (0x36, ("dns4", -1)); (0x37, ("dns6", -1)); (0x0111, ("udp", 2)); (0x0118, ("webrtc-direct", 0));
   (0x0119, ("webrtc", 0)); (0x0122, ("p2p-circuit", 0)); (0x01a5, ("p2p", -1)); (0x01bb, ("https", 0));
   (0x01c0, ("tls", 0)); (0x01c6, ("noise", 0)); (0x01cc, ("quic", 0)); (0x01cd, ("quic-v1", 0));
   (0x01d1, ("webtransport", 0)); (0x01d2, ("certhash", -1)); (0x01dd, ("ws", -1)); (0x01de, ("wss", -1))]%string.

Fixpoint maProto_of (code : Z) (ps : list (Z * (string * Z))) : option (string * Z) :=
  match ps with
  | [] => None
  | (k, p) :: ps => if k =? code then Some p else maProto_of code ps
  end.

Definition slash : bytes := str "/".

(** The two-byte groups of an address in [%02x%02x], joined by colons *)
Fixpoint hex_groups (l : bytes) : list bytes :=
  match l with
  | a :: b :: l => hexEncode [a; b] :: hex_groups l
  | _ => []
  end.

(** The switch over the name *)
Definition ma_value (name : string) (val : bytes) : bytes :=
  if bool_decide (name = "ip4"%string) then slash ++ Join (str ".") (map (itoa ∘ bz) val)
  else if bool_decide (name = "ip6"%string) then slash ++ Join (str ":") (hex_groups val)
  else if bool_decide (name ∈ ["tcp"; "udp"]%string) then slash ++ itoa (be_val val)
  else if bool_decide (name = "p2p"%string) then slash ++ base58Encode val
  else if bool_decide (name = "certhash"%string) then slash ++ hexEncode val
  else slash ++ val.

(** Skipping the value of an unknown protocol: [b[m+int(v):]] panics when the sum
    is negative. *)
Definition skip_unknown (b : bytes) : outcome unit bytes :=
  let '(v, m) := decodeVarint b in
  if (m >? 0) && (i64 v <=? zlen b - m) && (i64 v <? 256) then
    let i := m + i64 v in
    if (i <? 0) || (i >? zlen b) then Panic else Ret (drop (Z.to_nat i) b)
  else Ret b.

(** The value of a known protocol and the rest; [None] ends the loop. *)
Definition ma_take (size : Z) (b : bytes) : option (bytes * bytes) :=
  if size >? 0 then
    if zlen b <? size then None else Some (take (Z.to_nat size) b, drop (Z.to_nat size) b)
  else
    let '(v, m) := decodeVarint b in
    if (m <=? 0) || (v >? u64 (zlen b - m)) then None
    else let b := rest_at m b in Some (take (Z.to_nat v) b, drop (Z.to_nat v) b).

Fixpoint MultiaddrString_loop (fuel : nat) (b s : bytes) : option (outcome unit bytes) :=
  match fuel with
  | O => None
  | S fuel =>
      match b with
      | [] => Some (Ret s)
      | _ =>
          let '(code, n) := decodeVarint b in
          if n <=? 0 then Some (Ret s)
          else
            let b := rest_at n b in
            match maProto_of code maProtos with
            | None =>
                match skip_unknown b with
                | Ret b' => MultiaddrString_loop fuel b' (s ++ str "/<proto-" ++ itoa code ++ str ">")
                | _ => Some Panic
                end
            | Some (name, size) =>
                let s := s ++ slash ++ str name in
                if size =? 0 then MultiaddrString_loop fuel b s
                else
                  match ma_take size b with
                  | None => Some (Ret s)
                  | Some (val, b') => MultiaddrString_loop fuel b' (s ++ ma_value name val)
                  end
            end
      end
  end.

Definition MultiaddrString (b : bytes) : option (outcome unit bytes) :=
  MultiaddrString_loop (S (length b)) b [].

(** ** The conversations *)

(** [if err != nil { return dflt }] *)
Definition or_else {A B} (m : st A) (dflt : B) (k : A → st B) : st B := fun s =>
  match m s with
  | (Ret a, s') => k a s'
  | (Fail _, s') => (Ret dflt, s')
  | (Panic, s') => (Panic, s')
  end.

(** [s, err := sess.Open(); if err != nil { return dflt }; defer s.Close()] *)
Definition probe {B} (dflt : B) (m : st B) : sess B := fun s =>
  match open_run (defer_close m) s with
  | (Ret (_, b), s') => (Ret b, s')
  | (Fail _, s') => (Ret dflt, s')
  | (Panic, s') => (Panic, s')
  end.

Definition id_proto : bytes := str "/ipfs/id/1.0.0".

Definition identify_conv : st (option IdentifyInfo) :=
  or_else (ms_select id_proto) None (λ _,
  or_else readOnePb None (λ data,
    match parseIdentify data with
    | Some (Ret info) => mret (Some info)
    | _ => stm_lift Panic
    end)).

Definition detectIdentify : sess (option IdentifyInfo) := probe None identify_conv.

Definition v1_result : Type := bool * Z * string.

Definition can_hop_msg : CircuitV1Message := mkV1 CircuitV1TypeCanHop None None 0.

Definition v1_conv : st v1_result :=
  let no : v1_result := (false, 0, ""%string) in
  or_else (ms_select CircuitV1ProtoID) no (λ _,
  or_else (write_pb (encodeCircuitV1 can_hop_msg)) no (λ _,
  or_else readOnePb (false, 0, circuitV1StatusString 0) (λ respData,
  or_else (st_decode (decodeCircuitV1 respData)) (true, 0, "PARSE_ERROR"%string) (λ resp,
    mret (true, Code resp, circuitV1StatusString (Code resp)))))).

Definition detectV1 : sess v1_result := probe (false, 0, ""%string) v1_conv.

Record hop_result := mkHopResult {
  h_ok : bool;
  h_status : Z;
  h_expire : Z;
  h_limitDur : Z;
  h_limitData : Z;
  h_addrs : list bytes;
  h_voucher : option bytes
}.

Definition no_hop : hop_result := mkHopResult false 0 0 0 0 [] None.

Definition hop_result_of (resp : HopMessage) : hop_result :=
  mkHopResult true (Hop_Status resp)
    (from_option Expire 0 (Hop_Reservation resp))
    (from_option Duration 0 (Hop_Limit resp))
    (from_option Data 0 (Hop_Limit resp))
    (from_option Resv_Addrs [] (Hop_Reservation resp))
    (from_option Voucher None (Hop_Reservation resp)).

Definition v2hop_conv : st hop_result :=
  or_else (ms_select hop_proto) no_hop (λ _,
  or_else (write_pb (encodeHopMessage reserve_msg)) no_hop (λ _,
  or_else readOnePb no_hop (λ respData,
  or_else (st_decode (decodeHopMessage respData)) no_hop (λ resp, mret (hop_result_of resp))))).

Definition detectV2Hop : sess hop_result := probe no_hop v2hop_conv.

Definition computePeerID (pk : bytes) : bytes :=
  [x12; x20] ++ sha256 ([x08; x01; x12; x20] ++ pk).

(** [marshalEd25519PubKey] of relayhub/tls.go *)
Definition marshalEd25519PubKey (pub : bytes) : bytes :=
  [x08; x01] ++ [x12] ++ encodeVarint (zlen pub) ++ pub.

(** [dur] is the time between the request and the answer. *)
Definition v2connect_conv (pub : bytes) (dur : Z) : st (bool * Z * Z) :=
  or_else (ms_select hop_proto) (false, 0, 0) (λ _,
  or_else (write_pb (encodeHopMessage (connect_msg (Some (computePeerID pub))))) (false, 0, 0) (λ _,
  or_else readOnePb (false, 0, dur) (λ respData,
  or_else (st_decode (decodeHopMessage respData)) (false, 0, dur) (λ resp,
    mret (true, Hop_Status resp, dur))))).

Definition detectV2Connect (pub : bytes) (dur : Z) : sess (bool * Z * Z) :=
  probe (false, 0, 0) (v2connect_conv pub dur).

Definition detectV2Stop : sess bool :=
  probe false (or_else (ms_select stop_proto) false (λ _, mret true)).

(** ** [DetectRelay] *)

Record DetectResult := mkDetect {
  TCPOK : bool;
  TCPDuration : Z;
  TLSOK : bool;
  YamuxOK : bool;
  Identify : option IdentifyInfo;          (* IdentifyOK says that it is present *)
  V1 : v1_result;
  V2Hop : hop_result;
  V2Connect : bool * Z * Z;
  V2StopOK : bool
}.

Definition no_detect (tcp : bool) (dur : Z) (tls yam : bool) : DetectResult :=
  mkDetect tcp dur tls yam None (false, 0, ""%string) no_hop (false, 0, 0) false.

(** The conversations on the yamux session, in their order *)
Definition detect_session (pub : bytes) (tcpDur connDur : Z) : sess DetectResult :=
  info ← detectIdentify;
  v1 ← detectV1;
  hop ← detectV2Hop;
  conn ← (if h_status hop =? StatusOK then detectV2Connect pub connDur else mret (false, 0, 0));
  stop ← detectV2Stop;
  mret (mkDetect true tcpDur true true info v1 hop conn stop).

(** What is left open or closed: the connection, the TLS connection on it and the
    streams. *)
Record remains := mkRemains { r_raw : option stream; r_tls : option stream; r_sess : option session }.

Definition close_stream (s : stream) : stream := Stream (s_io s) true.

(** [raw] is the result of the dial, [tls] what TLS makes of the connection,
    [yam] the session that yamux starts. *)
Definition DetectRelay (pub : bytes) (raw : option duplex) (tls : option duplex) (yam : option session)
    (tcpDur connDur : Z) : outcome relay_err DetectResult * remains :=
  match raw with
  | None => (Ret (no_detect false tcpDur false false), mkRemains None None None)
  | Some d =>
      let '(r, s1) := ms_select (str "/tls/1.0.0") (Stream d false) in
      let raw' := Some (close_stream s1) in
      match r with
      | Panic => (Panic, mkRemains raw' None None)
      | Fail _ => (Ret (no_detect true tcpDur false false), mkRemains raw' None None)
      | Ret _ =>
          match tls with
          | None => (Ret (no_detect true tcpDur false false), mkRemains raw' None None)
          | Some d2 =>
              let '(r2, s2) := on_duplex EMs (MSSelectOver (str "/yamux/1.0.0")) (Stream d2 false) in
              let tls' := Some (close_stream s2) in
              match r2 with
              | Panic => (Panic, mkRemains raw' tls' None)
              | Fail _ => (Ret (no_detect true tcpDur true false), mkRemains raw' tls' None)
              | Ret _ =>
                  match yam with
                  | None => (Ret (no_detect true tcpDur true false), mkRemains raw' tls' None)
                  | Some se =>
                      let '(r3, se') := detect_session pub tcpDur connDur se in
                      (r3, mkRemains raw' tls' (Some se'))
                  end
              end
          end
      end
  end.

(** ** The parsers end *)

Lemma length_rest_at n b v :
  decodeVarint b = (v, n) → 0 < n → (length (rest_at n b) < length b)%nat.
Proof.
  intros E Hn. destruct (decodeVarint_bounds _ _ _ E Hn) as (_ & ? & ?). unfold zlen in *.
  unfold rest_at. rewrite length_drop. lia.
Qed.

Lemma length_rest_at_le n b : (length (rest_at n b) ≤ length b)%nat.
Proof. unfold rest_at. rewrite length_drop. lia. Qed.

Lemma parseIdentify_loop_ends fuel b info :
  (length b < fuel)%nat → parseIdentify_loop fuel b info ≠ None.
Proof.
  revert b info. induction fuel as [|f IH]; intros b info Hf; [lia|].
  cbn [parseIdentify_loop]. destruct b as [|x b]; [done|]. set (l := x :: b) in *.
  destruct (decodeVarint l) as [tag n] eqn:E1. destruct (n <=? 0) eqn:En; zbool; [done|].
  pose proof (length_rest_at _ _ _ E1 ltac:(lia)) as H1.
  destruct (negb _).
  - destruct (_ =? 0); [|done]. destruct (decodeVarint (rest_at n l)) as [v n2] eqn:E2.
    destruct (n2 <=? 0); [done|]. apply IH. pose proof (length_rest_at_le n2 (rest_at n l)). lia.
  - destruct (decodeVarint (rest_at n l)) as [v n2]. destruct (_ || _); [done|].
    destruct (v >? _); [done|]. apply IH. rewrite length_drop.
    pose proof (length_rest_at_le n2 (rest_at n l)). lia.
Qed.

Lemma parseIdentify_loop_mono fuel fuel' b info r :
  parseIdentify_loop fuel b info = Some r → (fuel ≤ fuel')%nat →
  parseIdentify_loop fuel' b info = Some r.
Proof.
  revert fuel' b info. induction fuel as [|f IH]; intros f' b info Hr Hf; [done|].
  destruct f' as [|f']; [lia|]. cbn [parseIdentify_loop] in *. destruct b as [|x b]; [done|].
  destruct (decodeVarint (x :: b)) as [tag n]. destruct (n <=? 0); [done|].
  destruct (negb _).
  - destruct (_ =? 0); [|done]. destruct (decodeVarint (rest_at n (x :: b))) as [v n2].
    destruct (n2 <=? 0); [done|]. apply IH; [done|lia].
  - destruct (decodeVarint (rest_at n (x :: b))) as [v n2]. destruct (_ || _); [done|].
    destruct (v >? _); [done|]. apply IH; [done|lia].
Qed.

(** The result does not depend on the fuel, once it is enough. *)
Lemma parseIdentify_any fuel b r :
  parseIdentify_loop fuel b no_info = Some r → parseIdentify b = Some r.
Proof.
  intros Hr. unfold parseIdentify.
  destruct (parseIdentify_loop (S (length b)) b no_info) as [r'|] eqn:E;
    [|by apply parseIdentify_loop_ends in E; [|lia]].
  apply (parseIdentify_loop_mono _ (fuel + S (length b))) in Hr; [|lia].
  apply (parseIdentify_loop_mono _ (fuel + S (length b))) in E; [|lia]. congruence.
Qed.

Lemma length_skip_unknown b b' : skip_unknown b = Ret b' → (length b' ≤ length b)%nat.
Proof.
  unfold skip_unknown. destruct (decodeVarint b) as [v m].
  destruct (_ && _); [|intros [= <-]; done].
  destruct (_ || _); [done|]. intros [= <-]. rewrite length_drop. lia.
Qed.

Lemma length_ma_take size b v b' : ma_take size b = Some (v, b') → (length b' ≤ length b)%nat.
Proof.
  unfold ma_take. destruct (size >? 0).
  - destruct (_ <? _); [done|]. intros [= <- <-]. rewrite length_drop. lia.
  - destruct (decodeVarint b) as [x m]. destruct (_ || _); [done|]. intros [= <- <-].
    rewrite length_drop. pose proof (length_rest_at_le m b). lia.
Qed.

Lemma MultiaddrString_loop_ends fuel b s :
  (length b < fuel)%nat → MultiaddrString_loop fuel b s ≠ None.
Proof.
  revert b s. induction fuel as [|f IH]; intros b s Hf; [lia|].
  cbn [MultiaddrString_loop]. destruct b as [|x b]; [done|]. set (l := x :: b) in *.
  destruct (decodeVarint l) as [code n] eqn:E1. destruct (n <=? 0) eqn:En; zbool; [done|].
  pose proof (length_rest_at _ _ _ E1 ltac:(lia)) as H1.
  destruct (maProto_of code maProtos) as [[name size]|].
  - destruct (size =? 0); [apply IH; lia|].
    destruct (ma_take size (rest_at n l)) as [[v b']|] eqn:E2; [|done].
    apply IH. apply length_ma_take in E2. lia.
  - destruct (skip_unknown (rest_at n l)) as [b'| |] eqn:E2; [|done|done].
    apply IH. apply length_skip_unknown in E2. lia.
Qed.

Lemma MultiaddrString_loop_mono fuel fuel' b s r :
  MultiaddrString_loop fuel b s = Some r → (fuel ≤ fuel')%nat →
  MultiaddrString_loop fuel' b s = Some r.
Proof.
  revert fuel' b s. induction fuel as [|f IH]; intros f' b s Hr Hf; [done|].
  destruct f' as [|f']; [lia|]. cbn [MultiaddrString_loop] in *. destruct b as [|x b]; [done|].
  destruct (decodeVarint (x :: b)) as [code n]. destruct (n <=? 0); [done|].
  destruct (maProto_of code maProtos) as [[name size]|].
  - destruct (size =? 0); [apply IH; [done|lia]|].
    destruct (ma_take size (rest_at n (x :: b))) as [[v b']|]; [|done]. apply IH; [done|lia].
  - destruct (skip_unknown (rest_at n (x :: b))) as [b'| |]; [|done|done]. apply IH; [done|lia].
Qed.

Lemma MultiaddrString_any fuel b r :
  MultiaddrString_loop fuel b [] = Some r → MultiaddrString b = Some r.
Proof.
  intros Hr. unfold MultiaddrString.
  destruct (MultiaddrString_loop (S (length b)) b []) as [r'|] eqn:E;
    [|by apply MultiaddrString_loop_ends in E; [|lia]].
  apply (MultiaddrString_loop_mono _ (fuel + S (length b))) in Hr; [|lia].
  apply (MultiaddrString_loop_mono _ (fuel + S (length b))) in E; [|lia]. congruence.
Qed.

(** ** Fields and components *)

Lemma rest_at_varint v l : rest_at (zlen (encodeVarint v)) (encodeVarint v ++ l) = l.
Proof. unfold rest_at, zlen. by rewrite Nat2Z.id, drop_app_length. Qed.

Lemma varint_not_nil v l : encodeVarint v ++ l ≠ [].
Proof. intros E. pose proof (zlen_encodeVarint v). destruct (encodeVarint v); [unfold zlen in *; cbn in *; lia|done]. Qed.

Lemma tag_parts field : 0 ≤ field < 2 ^ 32 →
  i64 (Z.shiftr (field * 8 + 2) 3) = field ∧ Z.land (field * 8 + 2) 7 = 2.
Proof.
  intros Hf. rewrite Z.shiftr_div_pow2 by lia. change 7 with (Z.ones 3). rewrite Z.land_ones by lia.
  change (2 ^ 3) with 8. rewrite Z.div_add_l, Z.div_small, Z.add_0_r by lia.
  rewrite Z.add_comm, Z_mod_plus_full, Z.mod_small by lia.
  by rewrite i64_small by lia.
Qed.

(** The loop behind a tag of a length-delimited field and its length *)
Lemma parse_length fuel field l rest info :
  0 ≤ field < 2 ^ 32 → 0 ≤ l < 2 ^ 64 →
  parseIdentify_loop (S fuel) (encodeTag field 2 ++ encodeVarint l ++ rest) info =
  if i64 l >? zlen rest then Some (Ret info)
  else if l >? zlen rest then Some Panic
  else parseIdentify_loop fuel (drop (Z.to_nat l) rest)
         (identify_field field (take (Z.to_nat l) rest) info).
Proof.
  intros Hf Hl. unfold encodeTag. rewrite tag_value by lia.
  destruct (tag_parts field Hf) as [E1 E2].
  pose proof (zlen_encodeVarint (field * 8 + 2)) as L1. pose proof (zlen_encodeVarint l) as L2.
  cbn [parseIdentify_loop].
  destruct (encodeVarint (field * 8 + 2) ++ encodeVarint l ++ rest) eqn:E;
    [by apply varint_not_nil in E|rewrite <- E; clear E].
  rewrite decodeVarint_encodeVarint by lia.
  destruct (zlen (encodeVarint (field * 8 + 2)) <=? 0) eqn:En; zbool; [lia|].
  rewrite rest_at_varint, E1, E2. cbn [Z.eqb Pos.eqb negb].
  rewrite decodeVarint_encodeVarint by lia.
  destruct (zlen (encodeVarint l) <=? 0) eqn:En2; zbool; [lia|].
  by rewrite rest_at_varint.
Qed.

Lemma parse_field fuel field val rest info :
  0 ≤ field < 2 ^ 32 → zlen val < 2 ^ 63 →
  parseIdentify_loop (S fuel) (pbEncodeLengthDelimField field val ++ rest) info =
  parseIdentify_loop fuel rest (identify_field field val info).
Proof.
  intros Hf Hv. unfold pbEncodeLengthDelimField. rewrite <- !app_assoc.
  pose proof (zlen_nonneg val). pose proof (zlen_nonneg rest).
  replace (u64 (zlen val)) with (zlen val) by (symmetry; apply wrap_u_small; lia).
  rewrite parse_length by lia. rewrite i64_small, zlen_app by lia.
  destruct (zlen val >? zlen val + zlen rest) eqn:E; zbool; [lia|].
  unfold zlen. by rewrite Nat2Z.id, take_app_length, drop_app_length.
Qed.

Lemma parse_fields fuel field items rest info :
  0 ≤ field < 2 ^ 32 → Forall (λ v, zlen v < 2 ^ 63) items →
  parseIdentify_loop (length items + fuel) (pbEncodeLengthDelimFields field items ++ rest) info =
  parseIdentify_loop fuel rest (foldl (λ i v, identify_field field v i) info items).
Proof.
  intros Hf Hi. revert info. induction Hi as [|v items Hv Hi IH]; intros info; [done|].
  cbn [length Nat.add pbEncodeLengthDelimFields foldl]. rewrite <- app_assoc.
  fold (pbEncodeLengthDelimField field v). rewrite parse_field by done. apply IH.
Qed.

Lemma identify_protos vs info :
  foldl (λ i v, identify_field 3 v i) info vs =
  mkIdentify (PeerID info) (Agent info) (Protos info ++ vs) (SignedPeerRecord info).
Proof.
  revert info. induction vs as [|v vs IH]; intros info; cbn [foldl].
  - rewrite app_nil_r. by destruct info.
  - rewrite IH. cbn. by rewrite <- app_assoc.
Qed.

(** The envelope in an identify answer *)
Definition identify_envelope (sign : bytes → bytes) (now : Z) (id pubKey : bytes) : bytes :=
  let pr := encodePeerRecord (u64 now) id [] in
  encodeEnvelope pubKey envelope_type pr (sign (str "libp2p-envelope" ++ pubKey ++ envelope_type ++ pr)).

(** What [parseIdentify] makes of an identify answer.  The identifier is not read from
    the message: it is the sha256 multihash of the key in it, for every kind of key
    (detect.go:147-150). *)
Definition identify_of (sign : bytes → bytes) (now : Z) (id pubKey : bytes) (protocols : list bytes)
    : IdentifyInfo :=
  mkIdentify (base58Encode ([x12; x20] ++ sha256 pubKey)) (str "relayhub/0.1.0") protocols
    (Some (identify_envelope sign now id pubKey)).

Lemma parseIdentify_response sign now id pubKey protocols :
  zlen pubKey < 2 ^ 63 → Forall (λ v, zlen v < 2 ^ 63) protocols →
  zlen (identify_envelope sign now id pubKey) < 2 ^ 63 →
  parseIdentify (buildIdentifyResponse sign now id pubKey protocols) =
  Some (Ret (identify_of sign now id pubKey protocols)).
Proof.
  intros Hk Hp He. apply (parseIdentify_any (S (length protocols + 3))).
  unfold buildIdentifyResponse. fold (identify_envelope sign now id pubKey).
  rewrite parse_field by (done || lia). rewrite parse_fields by (done || lia).
  rewrite identify_protos. rewrite parse_field by (done || lia).
  rewrite <- (app_nil_r (pbEncodeLengthDelimField 8 _)), parse_field by (done || lia). done.
Qed.

Lemma or_else_ret {A B} (m : st A) (dflt : B) k s a s' :
  m s = (Ret a, s') → or_else m dflt k s = k a s'.
Proof. intros E. unfold or_else. by rewrite E. Qed.

Lemma id_proto_ok : proto_ok id_proto.
Proof. repeat split; vm_compute; discriminate. Qed.

(** The bytes with which a peer of this package answers the identify request *)
Definition identify_answer (msg : bytes) : bytes :=
  framed header ++ framed (id_proto ++ newline) ++ framed msg.

Lemma identify_conv_reads msg rd out c k :
  zlen msg ≤ 4096 → pending rd = identify_answer msg ++ k →
  ∃ rd', identify_conv (Stream (Duplex rd out None) c) =
    (match parseIdentify msg with Some (Ret info) => Ret (Some info) | _ => Panic end,
     Stream (Duplex rd' (out ++ framed header ++ framed (id_proto ++ newline)) None) c) ∧
    pending rd' = k.
Proof.
  intros Hm Hp. unfold identify_answer in Hp. rewrite <- !app_assoc in Hp.
  destruct (ms_select_answered id_proto rd out _ _ c id_proto_ok (or_intror eq_refl) Hp)
    as (rd1 & E1 & Hp1 & _).
  destruct (readOnePb_app msg k rd1 (out ++ framed header ++ framed (id_proto ++ newline)) None c Hm Hp1)
    as (rd2 & E2 & Hp2 & _).
  exists rd2. split; [|done]. unfold identify_conv.
  rewrite (or_else_ret _ _ _ _ _ _ E1), (or_else_ret _ _ _ _ _ _ E2).
  by destruct (parseIdentify msg) as [[]|].
Qed.

(** ** Components of a multiaddress *)

Record component := mkComp { m_code : Z; m_name : string; m_size : Z; m_val : bytes }.

Definition comp_ok (c : component) : Prop :=
  0 ≤ m_code c < 2 ^ 64 ∧ maProto_of (m_code c) maProtos = Some (m_name c, m_size c) ∧
  (0 < m_size c → zlen (m_val c) = m_size c) ∧ (m_size c = 0 → m_val c = []) ∧
  zlen (m_val c) < 2 ^ 63.

Definition comp_bytes (c : component) : bytes :=
  encodeVarint (m_code c) ++
  (if m_size c <? 0 then encodeVarint (zlen (m_val c)) else []) ++ m_val c.

Definition comp_text (c : component) : bytes :=
  slash ++ str (m_name c) ++ (if m_size c =? 0 then [] else ma_value (m_name c) (m_val c)).

Lemma ma_take_comp c rest :
  comp_ok c → m_size c ≠ 0 → zlen (m_val c ++ rest) < 2 ^ 63 →
  ma_take (m_size c) ((if m_size c <? 0 then encodeVarint (zlen (m_val c)) else []) ++ m_val c ++ rest) =
  Some (m_val c, rest).
Proof.
  intros (_ & _ & Hs & _ & Hv) Hz Hall. rewrite zlen_app in Hall. unfold ma_take.
  pose proof (zlen_nonneg (m_val c)) as Hn. pose proof (zlen_nonneg rest) as Hr.
  destruct (m_size c >? 0) eqn:E1; zbool.
  - destruct (m_size c <? 0) eqn:E2; zbool; [lia|]. specialize (Hs ltac:(lia)). cbn [app].
    rewrite zlen_app. destruct (_ <? _) eqn:E3; zbool; [lia|].
    rewrite <- Hs. unfold zlen. by rewrite Nat2Z.id, take_app_length, drop_app_length.
  - destruct (m_size c <? 0) eqn:E2; zbool; [|lia]. rewrite decodeVarint_encodeVarint by lia.
    pose proof (zlen_encodeVarint (zlen (m_val c))) as L. rewrite !zlen_app.
    destruct (_ || _) eqn:E3.
    + apply orb_true_iff in E3 as [E3|E3]; zbool; [lia|]. exfalso. revert E3. unfold u64.
      set (a := zlen (encodeVarint _)) in *. replace (a + (zlen (m_val c) + zlen rest) - a) with (zlen (m_val c) + zlen rest) by lia.
      rewrite wrap_u_small by lia. lia.
    + rewrite rest_at_varint. unfold zlen. by rewrite Nat2Z.id, take_app_length, drop_app_length.
Qed.

Lemma Multiaddr_comps comps s :
  Forall comp_ok comps → zlen (concat (map comp_bytes comps)) < 2 ^ 63 →
  MultiaddrString_loop (S (length comps)) (concat (map comp_bytes comps)) s =
  Some (Ret (s ++ concat (map comp_text comps))).
Proof.
  intros Hok. revert s. induction Hok as [|c comps Hc Hok IH]; intros s Hlen.
  { cbn. by rewrite app_nil_r. }
  pose proof Hc as (Hcode & Hp & Hs & Hz & Hv). pose proof (zlen_encodeVarint (m_code c)) as L.
  cbn [map concat length]. cbn [map concat] in Hlen.
  replace (comp_bytes c) with (encodeVarint (m_code c) ++
    (if m_size c <? 0 then encodeVarint (zlen (m_val c)) else []) ++ m_val c) in * by reflexivity.
  replace (comp_text c) with (slash ++ str (m_name c) ++
    (if m_size c =? 0 then [] else ma_value (m_name c) (m_val c))) by reflexivity.
  rewrite <- !app_assoc in Hlen |- *. rewrite zlen_app in Hlen.
  set (tl := concat (map comp_bytes comps)) in *. set (n := length comps) in *.
  assert (zlen (m_val c ++ tl) < 2 ^ 63 ∧ zlen tl < 2 ^ 63) as [H1 H2].
  { rewrite !zlen_app in Hlen. rewrite zlen_app. unfold zlen in *. lia. }
  remember (S n) as m eqn:Em. cbn [MultiaddrString_loop].
  destruct (encodeVarint (m_code c) ++ _) eqn:E; [by apply varint_not_nil in E|rewrite <- E; clear E].
  rewrite decodeVarint_encodeVarint by lia.
  destruct (zlen (encodeVarint (m_code c)) <=? 0) eqn:En; zbool; [lia|].
  rewrite rest_at_varint, Hp. destruct (m_size c =? 0) eqn:Ez; zbool.
  - rewrite Ez, (Hz Ez). cbn [Z.ltb Z.compare app]. subst m. rewrite IH by done.
    by rewrite <- !app_assoc.
  - rewrite ma_take_comp by done. subst m. rewrite IH by done. by rewrite <- !app_assoc.
Qed.

(** ** Streams are closed *)

Definition all_closed (s : session) : Prop := Forall (λ x, s_closed x = true) (opened s).

Lemma probe_closes {B} (dflt : B) m s : all_closed s → all_closed (probe dflt m s).2.
Proof.
  intros Hs. unfold probe, open_run. destruct (to_open s) as [|[e|d] rest]; [done|done|].
  unfold defer_close. destruct (m (Stream d false)) as [r s1]. unfold all_closed.
  destruct r; cbn; apply Forall_app; (split; [done|by apply Forall_singleton]).
Qed.

Lemma sess_bind_closes {A B} (m : sess A) (k : A → sess B) s :
  (∀ s, all_closed s → all_closed (m s).2) → (∀ a s, all_closed s → all_closed (k a s).2) →
  all_closed s → all_closed ((m ≫= k) s).2.
Proof.
  intros Hm Hk Hs. unfold mbind, stm_bind. specialize (Hm s Hs).
  destruct (m s) as [[a|e|] s']; cbn in *; auto.
Qed.

Lemma detect_session_closes pub d1 d2 s :
  all_closed s → all_closed (detect_session pub d1 d2 s).2.
Proof.
  unfold detect_session. intros Hs.
  apply sess_bind_closes; [by intros; apply probe_closes|clear s Hs; intros info s Hs|done].
  apply sess_bind_closes; [by intros; apply probe_closes|clear s Hs; intros v1 s Hs|done].
  apply sess_bind_closes; [by intros; apply probe_closes|clear s Hs; intros hop s Hs|done].
  apply sess_bind_closes; [|clear s Hs; intros conn s Hs|done].
  - intros s1 H1. destruct (_ =? _); [by apply probe_closes|done].
  - apply sess_bind_closes; [by intros; apply probe_closes|done|done].
Qed.

Lemma response_parts sign now id pubKey protocols :
  zlen (buildIdentifyResponse sign now id pubKey protocols) ≤ 4096 →
  zlen pubKey < 2 ^ 63 ∧ Forall (λ v, zlen v < 2 ^ 63) protocols ∧
  zlen (identify_envelope sign now id pubKey) < 2 ^ 63.
Proof.
  intros Hl. unfold buildIdentifyResponse in Hl. fold (identify_envelope sign now id pubKey) in Hl.
  rewrite !zlen_app in Hl. set (env := identify_envelope sign now id pubKey) in *.
  pose proof (zlen_delim 1 pubKey). pose proof (zlen_delim 8 env).
  pose proof (zlen_nonneg (pbEncodeLengthDelimField 6 (str "relayhub/0.1.0"))).
  pose proof (zlen_nonneg pubKey). pose proof (zlen_nonneg env).
  pose proof (zlen_nonneg (pbEncodeLengthDelimFields 3 protocols)).
  split_and!; [lia| |lia].
  assert (zlen (pbEncodeLengthDelimFields 3 protocols) ≤ 4096) as Hf by lia. clear -Hf.
  induction protocols as [|v vs IH]; constructor; cbn [pbEncodeLengthDelimFields] in Hf; rewrite zlen_app in Hf;
    fold (pbEncodeLengthDelimField 3 v) in Hf; pose proof (zlen_delim 3 v);
    pose proof (zlen_nonneg (pbEncodeLengthDelimFields 3 vs)); pose proof (zlen_nonneg v); [lia|].
  apply IH. lia.
Qed.

(** What a peer of this package writes when it is asked *)
Lemma incoming_identify sign pubKey now id rd k :
  pending rd = framed header ++ framed (id_proto ++ newline) ++ k →
  d_out (s_io (handleIncoming sign pubKey now id (Stream (Duplex rd [] None) false)).2) =
  identify_answer (buildIdentifyResponse sign now id pubKey [CircuitV1ProtoID; id_proto]).
Proof.
  intros Hp. destruct (MSRespond_asked id_proto rd [] _ id_proto_ok Hp) as (rd1 & E1 & _ & _).
  unfold handleIncoming.
  erewrite stm_bind_ret by (unfold on_duplex; cbn [s_io]; rewrite E1; reflexivity).
  change (trim_blanks id_proto) with id_proto.
  rewrite !bool_decide_false by (vm_compute; discriminate).
  rewrite bool_decide_true by done. cbn [app s_closed].
  erewrite stm_bind_ret by (unfold drop_err; rewrite write_pb_ok; reflexivity).
  unfold mret, stm_ret. cbn [snd s_io d_out]. unfold identify_answer. by rewrite <- app_assoc.
Qed.

(** ** Properties *)

Lemma marshal_key pub :
  length pub = 32%nat → marshalEd25519PubKey pub = [x08; x01; x12; x20] ++ pub.
Proof. intros Hl. unfold marshalEd25519PubKey, zlen. by rewrite Hl. Qed.

#[local] Opaque sha256.

(** The sha256 multihash of an Ed25519 key never prints as the identity multihash. *)
Lemma sha256_id_not_identity pub :
  length pub = 32%nat → base58Encode (computePeerID pub) ≠ peer_id_of 1 pub.
Proof.
  intros Hl E. rewrite peer_id_small, base58Encode_agrees in E by lia.
  apply (f_equal base58Decode) in E. unfold computePeerID in E.
  rewrite !base58Decode_base58Encode in E by done. done.
Qed.

(** C14: What a peer of this package answers to the identify request of a probe is
    read by the probe, in any fragmentation: its agent, its protocols and its signed
    record, exactly, when the answer has at most 4096 bytes.  The identifier the probe
    reports is [computePeerID] of the peer's Ed25519 key, the sha256 multihash, in
    base58.  It is never the identifier that [Libp2pPeerID] gives for the same key, the
    identity multihash, under which the commands of the package run their peers: the
    probe reports every such peer under a name nobody can dial. *)
Theorem peer_identified sign pub now id rdp k rd c k' :
  let pubKey := marshalEd25519PubKey pub in
  let protocols := [CircuitV1ProtoID; id_proto] in
  length pub = 32%nat →
  zlen (buildIdentifyResponse sign now id pubKey protocols) ≤ 4096 →
  pending rdp = framed header ++ framed (id_proto ++ newline) ++ k →
  pending rd =
    d_out (s_io (handleIncoming sign pubKey now id (Stream (Duplex rdp [] None) false)).2) ++ k' →
  ∃ info s', identify_conv (Stream (Duplex rd [] None) c) = (Ret (Some info), s') ∧
    d_out (s_io s') = framed header ++ framed (id_proto ++ newline) ∧
    Agent info = str "relayhub/0.1.0" ∧ Protos info = protocols ∧
    SignedPeerRecord info = Some (identify_envelope sign now id pubKey) ∧
    PeerID info = base58Encode (computePeerID pub) ∧ PeerID info ≠ peer_id_of 1 pub.
Proof.
  intros pubKey protocols Hpub Hl Hrp Hr. rewrite (incoming_identify _ _ _ _ _ _ Hrp) in Hr.
  destruct (identify_conv_reads _ rd [] c k' Hl Hr) as (rd' & E & Hk).
  destruct (response_parts _ _ _ _ _ Hl) as (? & ? & ?).
  rewrite parseIdentify_response in E by done. eexists _, _. split; [exact E|].
  cbn [identify_of Agent Protos SignedPeerRecord PeerID].
  assert (base58Encode ([x12; x20] ++ sha256 pubKey) = base58Encode (computePeerID pub)) as ->
    by (unfold pubKey, computePeerID; by rewrite marshal_key).
  split_and!; try done. by apply sha256_id_not_identity.
Qed.

(** A binary multiaddress of known components prints as their texts, one after
    the other. *)
Theorem multiaddr_text comps :
  Forall comp_ok comps → zlen (concat (map comp_bytes comps)) < 2 ^ 63 →
  MultiaddrString (concat (map comp_bytes comps)) = Some (Ret (concat (map comp_text comps))).
Proof. intros Hok Hl. apply (MultiaddrString_any (S (length comps))). by rewrite Multiaddr_comps. Qed.

(** Both parsers end on every input: one turn per byte and one more is enough. *)
Theorem detect_parsers_end data : parseIdentify data ≠ None ∧ MultiaddrString data ≠ None.
Proof.
  split; [apply parseIdentify_loop_ends|apply MultiaddrString_loop_ends]; lia.
Qed.

(** The probe closes what it opened, whatever the relay answers and even when
    it panics: every stream, the TLS connection and the connection. *)
Theorem probe_leaves_nothing_open pub raw tls yam d1 d2 r rem :
  from_option opened [] yam = [] →
  DetectRelay pub raw tls yam d1 d2 = (r, rem) →
  from_option s_closed true (r_raw rem) = true ∧ from_option s_closed true (r_tls rem) = true ∧
  from_option all_closed True (r_sess rem).
Proof.
  intros Hy. unfold DetectRelay. destruct raw as [d|]; [|intros [= <- <-]; done].
  destruct (ms_select _ (Stream d false)) as [[u|e|] s1]; [|intros [= <- <-]; done..].
  destruct tls as [d'|]; [|intros [= <- <-]; done].
  destruct (on_duplex _ _ (Stream d' false)) as [[u2|e|] s2]; [|intros [= <- <-]; done..].
  destruct yam as [se|]; [|intros [= <- <-]; done].
  pose proof (detect_session_closes pub d1 d2 se) as Hc.
  destruct (detect_session pub d1 d2 se) as [r3 se']. intros [= <- <-]. split_and!; [done|done|].
  apply Hc. unfold all_closed. cbn in Hy. by rewrite Hy.
Qed.

(** A relay can end the probing program: a length of at least 2^63 in its
    identify message passes the check as a negative number, and the slice
    expression behind it panics. *)
Theorem identify_length_panics field l rest rd c k :
  0 ≤ field < 2 ^ 32 → 2 ^ 63 ≤ l < 2 ^ 64 → zlen (encodeTag field 2 ++ encodeVarint l ++ rest) ≤ 4096 →
  pending rd = identify_answer (encodeTag field 2 ++ encodeVarint l ++ rest) ++ k →
  (identify_conv (Stream (Duplex rd [] None) c)).1 = Panic.
Proof.
  intros Hf Hl Hm Hp. destruct (identify_conv_reads _ rd [] c k Hm Hp) as (rd' & -> & _). cbn [fst].
  rewrite !zlen_app in Hm. pose proof (zlen_nonneg (encodeTag field 2)). pose proof (zlen_nonneg (encodeVarint l)).
  pose proof (zlen_nonneg rest).
  rewrite (parseIdentify_any 1 _ Panic); [done|]. rewrite parse_length by lia.
  rewrite i64_high by lia. destruct (_ >? _) eqn:E; zbool; [lia|].
  destruct (l >? zlen rest) eqn:E2; zbool; [done|lia].
Qed.

(** An unknown protocol with such a length does the same to [MultiaddrString]. *)
Example multiaddr_length_panics :
  MultiaddrString (encodeVarint 1 ++ encodeVarint (2 ^ 63) ++ [x00]) = Some Panic.
Proof. vm_compute. reflexivity. Qed.

(** ** Witnesses *)

Definition toy_sign (b : bytes) : bytes := take 4 b.

Definition toy_pub : bytes := map (λ n, zb (Z.of_nat n)) (seq 1 32).

Lemma peer_identified_witness :
  ∃ info s', identify_conv (Stream (Duplex (Reader
      (map (λ b, [b]) (identify_answer (buildIdentifyResponse toy_sign 5 [x07]
         (marshalEd25519PubKey toy_pub) [CircuitV1ProtoID; id_proto])))
      EOF) [] None) false) = (Ret (Some info), s') ∧
    Agent info = str "relayhub/0.1.0" ∧ PeerID info = base58Encode (computePeerID toy_pub) ∧
    PeerID info ≠ peer_id_of 1 toy_pub.
Proof.
  destruct (peer_identified toy_sign toy_pub 5 [x07]
           (Reader [framed header; framed (id_proto ++ newline)] EOF) [] (Reader
      (map (λ b, [b]) (identify_answer (buildIdentifyResponse toy_sign 5 [x07]
         (marshalEd25519PubKey toy_pub) [CircuitV1ProtoID; id_proto])))
      EOF) false []) as (info & s' & E & _ & Ha & _ & _ & Hp & Hn).
  - reflexivity.
  - vm_compute. discriminate.
  - vm_compute. reflexivity.
  - vm_compute. reflexivity.
  - exists info, s'. repeat split; [exact E|exact Ha|exact Hp|exact Hn].
Defined.

Definition sample_addr : list component :=
  [mkComp 0x04 "ip4" 4 [x7f; x00; x00; x01]; mkComp 0x06 "tcp" 2 [x0f; xa1];
   mkComp 0x01a5 "p2p" (-1) [x12; x20; x01]; mkComp 0x0122 "p2p-circuit" 0 []].

Lemma multiaddr_text_witness :
  MultiaddrString (concat (map comp_bytes sample_addr)) = Some (Ret (str "/ip4/127.0.0.1/tcp/4001/p2p/7672/p2p-circuit")).
Proof.
  replace (str "/ip4/127.0.0.1/tcp/4001/p2p/7672/p2p-circuit") with (concat (map comp_text sample_addr))
    by (vm_compute; reflexivity).
  apply (multiaddr_text sample_addr).
  - repeat constructor; vm_compute; congruence.
  - vm_compute. reflexivity.
Defined.

Lemma probe_leaves_nothing_open_witness :
  ∃ r rem, DetectRelay [] (Some (Duplex (Reader [] EOF) [] None)) None None 0 0 = (r, rem) ∧
    from_option s_closed true (r_raw rem) = true.
Proof.
  destruct (DetectRelay [] (Some (Duplex (Reader [] EOF) [] None)) None None 0 0) as [r rem] eqn:E.
  exists r, rem. split; [done|].
  apply (probe_leaves_nothing_open [] (Some (Duplex (Reader [] EOF) [] None)) None None 0 0 r rem eq_refl E).
Defined.

Lemma identify_length_panics_witness :
  (identify_conv (Stream (Duplex (Reader
     [identify_answer (encodeTag 1 2 ++ encodeVarint (2 ^ 63) ++ [x00])] EOF) [] None) false)).1 = Panic.
Proof.
  apply (identify_length_panics 1 (2 ^ 63) [x00] _ false []).
  - lia.
  - lia.
  - vm_compute. discriminate.
  - vm_compute. reflexivity.
Defined.
