(* ===== verification/TcpServer.v ===== *)
(** * The TCP relay server (mintox/tcp_server.go): connections and routing

    Each client of the relay is a [TCPSecureConn]; a client asks for routes to
    other clients by public key and gets a connection id for each, under which
    the two exchange data once both have asked.  Connections are a heap, the
    server's table maps public keys to them; the [PeerConnInfo] records of a
    connection are a heap of their own, because two tables (by key and by
    connection id) share them and the peers' handlers update them.  The
    handshake of the server is in TcpHandshake.v. *)

From S2P Require Import Prelude GoIO.
Local Open Scope Z_scope.

Definition NUM_RESERVED_PORTS : Z := 16.
Definition NUM_CLIENT_CONNECTIONS : Z := 256 - NUM_RESERVED_PORTS.
Definition PUBLIC_KEY_SIZE : nat := 32.

Definition TCP_PACKET_ROUTING_REQUEST : Z := 0.
Definition TCP_PACKET_ROUTING_RESPONSE : Z := 1.
Definition TCP_PACKET_CONNECTION_NOTIFICATION : Z := 2.
Definition TCP_PACKET_DISCONNECT_NOTIFICATION : Z := 3.
Definition TCP_PACKET_PING : Z := 4.
Definition TCP_PACKET_PONG : Z := 5.
Definition TCP_PACKET_ONION_RESPONSE : Z := 9.

(** ** State *)

Record PeerConnInfo := mkPCI {
  Pubkey : bytes;
  Status : Z;                       (* uint8: 1 requested, 2 connected *)
  Otherid : Z;                      (* uint8 *)
  Connid : Z                        (* uint8 *)
}.

(** [*PeerConnInfo] of a connection and [*TCPSecureConn]: heap indices. *)
Abbreviation pciptr := nat.
Abbreviation connptr := nat.

Record TCPSecureConn := mkConn {
  c_pk : option bytes;              (* Pubkey.BinStr(); nil before the handshake *)
  pcis : list PeerConnInfo;
  ConnInfos : gmap bytes pciptr;
  ConnInfos2 : gmap Z pciptr;
  ConnIds : gmap Z bool;            (* connid - 16 => used *)
  cwctrlq : list bytes;             (* buffered, 64 *)
  cwdataq : list bytes;             (* buffered, 128 *)
  c_closed : bool;                  (* the socket and the queues are closed *)
  c_onClosed : bool                 (* OnClosed != nil *)
}.

Record TCPServer := mkServer {
  heap : list TCPSecureConn;
  Conns : gmap bytes connptr;
  HSConns : gset connptr
}.

Inductive srv_err : Type :=
| ErrTooLong (n : Z)
| ErrCtrlQueueFull
| ErrDataQueueFull.

Abbreviation sm := (stm TCPServer srv_err).

Definition sm_act {A} (f : TCPServer → outcome srv_err A * TCPServer) : sm A := f.
Definition sm_get {A} (f : TCPServer → A) : sm A := fun s => (Ret (f s), s).

Definition get_conn (c : connptr) : sm TCPSecureConn := sm_act (fun s =>
  match heap s !! c with Some x => (Ret x, s) | None => (Panic, s) end).

Definition upd_conn (c : connptr) (f : TCPSecureConn → TCPSecureConn) : sm unit :=
  sm_act (fun s => (Ret (), mkServer (alter f c (heap s)) (Conns s) (HSConns s))).

Definition get_pci (c : connptr) (i : pciptr) : sm PeerConnInfo :=
  x ← get_conn c; stm_lift (match pcis x !! i with Some p => Ret p | None => Panic end).

(** [this.Pubkey.BinStr()]: panics on the nil key. *)
Definition BinStr (c : connptr) : sm bytes :=
  x ← get_conn c; stm_lift (match c_pk x with Some pk => Ret pk | None => Panic end).

Definition set_pk k x := mkConn k (pcis x) (ConnInfos x) (ConnInfos2 x) (ConnIds x) (cwctrlq x)
  (cwdataq x) (c_closed x) (c_onClosed x).
Definition set_pcis l x := mkConn (c_pk x) l (ConnInfos x) (ConnInfos2 x) (ConnIds x) (cwctrlq x)
  (cwdataq x) (c_closed x) (c_onClosed x).
Definition set_infos m x := mkConn (c_pk x) (pcis x) m (ConnInfos2 x) (ConnIds x) (cwctrlq x)
  (cwdataq x) (c_closed x) (c_onClosed x).
Definition set_infos2 m x := mkConn (c_pk x) (pcis x) (ConnInfos x) m (ConnIds x) (cwctrlq x)
  (cwdataq x) (c_closed x) (c_onClosed x).
Definition set_ids m x := mkConn (c_pk x) (pcis x) (ConnInfos x) (ConnInfos2 x) m (cwctrlq x)
  (cwdataq x) (c_closed x) (c_onClosed x).
Definition set_ctrlq q x := mkConn (c_pk x) (pcis x) (ConnInfos x) (ConnInfos2 x) (ConnIds x) q
  (cwdataq x) (c_closed x) (c_onClosed x).
Definition set_dataq q x := mkConn (c_pk x) (pcis x) (ConnInfos x) (ConnInfos2 x) (ConnIds x)
  (cwctrlq x) q (c_closed x) (c_onClosed x).
Definition set_closed b x := mkConn (c_pk x) (pcis x) (ConnInfos x) (ConnInfos2 x) (ConnIds x)
  (cwctrlq x) (cwdataq x) b (c_onClosed x).
Definition set_onClosed b x := mkConn (c_pk x) (pcis x) (ConnInfos x) (ConnInfos2 x) (ConnIds x)
  (cwctrlq x) (cwdataq x) (c_closed x) b.

Definition upd_pci (c : connptr) (i : pciptr) (f : PeerConnInfo → PeerConnInfo) : sm unit :=
  upd_conn c (λ x, set_pcis (alter f i (pcis x)) x).

(** A call whose error is only printed. *)
Definition err_print {A} (m : sm A) : sm unit := fun s =>
  match m s with
  | (Panic, s') => (Panic, s')
  | (_, s') => (Ret (), s')
  end.

(** A call under [defer func() { recover() }()]. *)
Definition recovered (m : sm unit) : sm unit := fun s =>
  match m s with
  | (Panic, s') => (Ret (), s')
  | r => r
  end.

(** ** Connections *)

(** [initConnids]: [ids[uint8(i)] = false] for the 240 client ids. *)
Definition initConnids : gmap Z bool :=
  list_to_map (map (λ i, (Z.of_nat i, false)) (seq 0 (Z.to_nat NUM_CLIENT_CONNECTIONS))).

(** [NewTCPSecureConn] with the callbacks [startHandshake] sets. *)
Definition NewTCPSecureConn : TCPSecureConn :=
  mkConn None [] ∅ ∅ initConnids [] [] false true.

(** [nextConnid]: the range over the Go map visits the ids in any order;
    [pick] is the position, among the unused ones, of the first it visits. *)
Definition free_ids (ids : gmap Z bool) : list Z :=
  map fst (filter (λ kv, kv.2 = false) (map_to_list ids)).

Definition nextConnid (pick : nat) (c : connptr) : sm Z :=
  x ← get_conn c;
  let free := free_ids (ConnIds x) in
  match free !! (pick mod length free)%nat with
  | None => mret 0
  | Some connid =>
      _ ← upd_conn c (λ x, set_ids (<[connid := true]> (ConnIds x)) x);
      mret (u8 (connid + NUM_RESERVED_PORTS))
  end.

Definition freeConnid (c : connptr) (connid : Z) : sm unit :=
  upd_conn c (λ x, set_ids (<[u8 (connid - NUM_RESERVED_PORTS) := false]> (ConnIds x)) x).

(** ** Queues *)

(** Sending on a closed channel panics. *)
Definition SendCtrlPacket (c : connptr) (data : bytes) : sm unit :=
  x ← get_conn c;
  if zlen data >? 2048 then stm_fail (ErrTooLong (zlen data))
  else if bool_decide (64 ≤ length (cwctrlq x))%nat then stm_fail ErrCtrlQueueFull
  else if c_closed x then stm_lift Panic
  else upd_conn c (λ x, set_ctrlq (cwctrlq x ++ [data]) x).

Definition SendDataPacket (c : connptr) (connid : Z) (data : bytes) : sm unit :=
  x ← get_conn c;
  if zlen data >? 2048 then stm_fail (ErrTooLong (zlen data))
  else if bool_decide (128 ≤ length (cwdataq x))%nat then stm_fail ErrDataQueueFull
  else if c_closed x then stm_lift Panic
  else upd_conn c (λ x, set_dataq (cwdataq x ++ [zb connid :: data]) x).

Definition sendRoutingResponse (c : connptr) (connid : Z) (peerpk : bytes) : sm unit :=
  err_print (SendCtrlPacket c (zb TCP_PACKET_ROUTING_RESPONSE :: zb connid :: peerpk)).

Definition SendConnectNotification (c : connptr) (connid : Z) : sm unit :=
  err_print (SendCtrlPacket c [zb TCP_PACKET_CONNECTION_NOTIFICATION; zb connid]).

Definition SendDisconnectNotification (c : connptr) (connid : Z) : sm unit :=
  err_print (SendCtrlPacket c [zb TCP_PACKET_DISCONNECT_NOTIFICATION; zb connid]).

Definition HandlePingRequest (c : connptr) (rpkt : bytes) : sm unit :=
  rest ← stm_lift (slice_from rpkt 1);
  err_print (SendCtrlPacket c (zb TCP_PACKET_PONG :: rest)).

(** ** Routing *)

(** When both clients have asked for each other, both records are completed and
    both clients are told. *)
Definition complete_route (c : connptr) (i : pciptr) (connid : Z) (mypk peerpk : bytes) : sm unit :=
  peer ← sm_get (λ s, Conns s !! peerpk);
  match peer with
  | None => mret ()
  | Some peerco =>
      px ← get_conn peerco;
      match ConnInfos px !! mypk with
      | None => mret ()
      | Some j =>
          pci2 ← get_pci peerco j;
          _ ← upd_pci c i (λ p, mkPCI (Pubkey p) 2 (Connid pci2) (Connid p));
          _ ← upd_pci peerco j (λ p, mkPCI (Pubkey p) 2 connid (Connid p));
          _ ← SendConnectNotification c connid;
          SendConnectNotification peerco (Connid pci2)
      end
  end.

(** [reqpkt[1 : 1+PUBLIC_KEY_SIZE]] *)
Definition requested_key (reqpkt : bytes) : outcome srv_err bytes :=
  slice reqpkt 1 (1 + PUBLIC_KEY_SIZE).

Definition handleRoutingRequest (pick : nat) (c : connptr) (reqpkt : bytes) : sm unit :=
  peerpk ← stm_lift (requested_key reqpkt);
  mypk ← BinStr c;
  x ← get_conn c;
  if bool_decide (peerpk = mypk) then sendRoutingResponse c 0 peerpk
  else
    known ← (match ConnInfos x !! peerpk with
             | None => mret None
             | Some i => cio ← get_pci c i;
                         mret (if Status cio >? 0 then Some (Connid cio) else None)
             end);
    match known with
    | Some connid => sendRoutingResponse c connid peerpk
    | None =>
        connid ← nextConnid pick c;
        if connid =? 0 then sendRoutingResponse c 0 peerpk
        else
          let i := length (pcis x) in
          _ ← upd_conn c (λ x, set_infos2 (<[connid := i]> (ConnInfos2 x))
                 (set_infos (<[peerpk := i]> (ConnInfos x))
                   (set_pcis (pcis x ++ [mkPCI peerpk 1 0 connid]) x)));
          _ ← sendRoutingResponse c connid peerpk;
          complete_route c i connid mypk peerpk
    end.

Definition HandleRoutingData (c : connptr) (rpkt : bytes) : sm unit :=
  connid ← stm_lift (index rpkt 0);
  x ← get_conn c;
  match ConnInfos2 x !! bz connid with
  | None => mret ()
  | Some i =>
      pci ← get_pci c i;
      peer ← sm_get (λ s, Conns s !! Pubkey pci);
      match peer with
      | None => mret ()
      | Some peerco =>
          px ← get_conn peerco;
          mypk ← BinStr c;
          match ConnInfos px !! mypk with
          | None => mret ()
          | Some j =>
              pci3 ← get_pci peerco j;
              data ← stm_lift (slice_from rpkt 1);
              err_print (SendDataPacket peerco (Connid pci3) data)
          end
      end
  end.

(** [gopp.Assert(ok0, ...)] panics when the id is unknown. *)
Definition HandleDisconnectNotification (c : connptr) (pkt : bytes) : sm unit :=
  connid ← stm_lift (index pkt 1);
  x ← get_conn c;
  match ConnInfos2 x !! bz connid with
  | None => stm_lift Panic
  | Some i =>
      pci0 ← get_pci c i;
      peer ← sm_get (λ s, Conns s !! Pubkey pci0);
      match peer with
      | None => mret ()
      | Some peerco =>
          px ← get_conn peerco;
          match ConnInfos2 px !! Otherid pci0 with
          | None => mret ()
          | Some j =>
              pci2 ← get_pci peerco j;
              _ ← upd_pci peerco j (λ p, mkPCI (Pubkey p) 1 0 (Connid p));
              _ ← upd_pci c i (λ p, mkPCI (Pubkey p) 1 0 (Connid p));
              SendDisconnectNotification peerco (Connid pci2)
          end
      end
  end.

(** A decrypted packet of a confirmed connection: the [switch] of
    [doReadPacket].  The OOB and onion packets have empty cases. *)
Definition handle_packet (pick : nat) (c : connptr) (plnpkt : bytes) : sm unit :=
  b ← stm_lift (index plnpkt 0);
  let ptype := bz b in
  if ptype =? TCP_PACKET_PING then HandlePingRequest c plnpkt
  else if ptype =? TCP_PACKET_ROUTING_REQUEST then handleRoutingRequest pick c plnpkt
  else if ptype =? TCP_PACKET_DISCONNECT_NOTIFICATION then HandleDisconnectNotification c plnpkt
  else if ptype >=? NUM_RESERVED_PORTS then HandleRoutingData c plnpkt
  else mret ().

(** ** The server's tables *)

(** [killAccepted], first loop: the records for the closed key are reset; the
    result is [notifys]. *)
Fixpoint kill_reset (delbinpk : bytes) (cs : list connptr) : sm (list (connptr * Z)) :=
  match cs with
  | [] => mret []
  | ctmp :: cs' =>
      x ← get_conn ctmp;
      match ConnInfos x !! delbinpk with
      | None => kill_reset delbinpk cs'
      | Some i =>
          p ← get_pci ctmp i;
          _ ← upd_pci ctmp i (λ p, mkPCI (Pubkey p) 1 0 (Connid p));
          notifys ← kill_reset delbinpk cs';
          mret ((ctmp, Connid p) :: notifys)
      end
  end.

(** Second loop. *)
Fixpoint kill_notify (notifys : list (connptr * Z)) : sm unit :=
  match notifys with
  | [] => mret ()
  | (ctmp, connid) :: notifys' => _ ← SendDisconnectNotification ctmp connid; kill_notify notifys'
  end.

(** Go ranges over both maps in some order; here it is the one of
    [map_to_list]. *)
Definition killAccepted (c : connptr) : sm unit :=
  delbinpk ← BinStr c;
  cs ← sm_get (λ s, map snd (map_to_list (Conns s)));
  notifys ← kill_reset delbinpk cs;
  kill_notify notifys.

(** [delete(this.HSConns, c.Sock)], [delete(this.Conns, pk)] *)
Definition del_hs (c : connptr) : sm unit :=
  sm_act (fun s => (Ret (), mkServer (heap s) (Conns s) (HSConns s ∖ {[c]}))).
Definition del_conn (pk : bytes) : sm unit :=
  sm_act (fun s => (Ret (), mkServer (heap s) (delete pk (Conns s)) (HSConns s))).

Definition onConnClosed (c : connptr) : sm unit :=
  _ ← del_hs c;
  pk ← BinStr c;
  _ ← del_conn pk;
  killAccepted c.

(** [doClose]: whatever panics, in the callback or because the queues are closed
    already, is recovered from, and the rest of the body is skipped. *)
Definition doClose (c : connptr) : sm unit := recovered (
  x ← get_conn c;
  _ ← (if c_onClosed x then onConnClosed c else mret ());
  _ ← upd_conn c (set_onClosed false);
  if c_closed x then stm_lift Panic else upd_conn c (set_closed true)).

Definition onConnConfirmed (c : connptr) : sm unit :=
  _ ← del_hs c;
  pk ← BinStr c;
  old ← sm_get (λ s, Conns s !! pk);
  _ ← (match old with
       | Some oc => _ ← del_conn pk; _ ← upd_conn oc (set_onClosed false); doClose oc
       | None => mret ()
       end);
  sm_act (fun s => (Ret (), mkServer (heap s) (<[pk := c]> (Conns s)) (HSConns s))).

Definition startHandshake : sm connptr := sm_act (fun s =>
  (Ret (length (heap s)),
   mkServer (heap s ++ [NewTCPSecureConn]) (Conns s) ({[length (heap s)]} ∪ HSConns s))).

(** [HandleHandshake] runs once per connection and sets [this.Pubkey]; the packets
    and keys are in TcpHandshake.v. *)
Definition set_Pubkey (c : connptr) (pk : bytes) : sm unit :=
  upd_conn c (λ x, match c_pk x with None => set_pk (Some pk) x | Some _ => x end).

(** ** Invariant *)

(** The records of a connection: the table by key and the table by id name the
    same records, ids are in the client range and marked as used. *)
Record conn_ok (x : TCPSecureConn) : Prop := {
  ok_by_id : ∀ cid i, ConnInfos2 x !! cid = Some i →
    ∃ p, pcis x !! i = Some p ∧ Connid p = cid ∧ ConnInfos x !! Pubkey p = Some i ∧
      16 ≤ cid ≤ 255 ∧ ConnIds x !! (cid - 16) = Some true;
  ok_by_key : ∀ pk i, ConnInfos x !! pk = Some i →
    ∃ p, pcis x !! i = Some p ∧ Pubkey p = pk ∧ ConnInfos2 x !! Connid p = Some i ∧
      (Status p = 1 ∨ Status p = 2);
  ok_ids : ∀ k b, ConnIds x !! k = Some b → 0 ≤ k < 240
}.

Record srv_ok (s : TCPServer) : Prop := {
  ok_conns : ∀ c x, heap s !! c = Some x → conn_ok x;
  ok_table : ∀ pk c, Conns s !! pk = Some c → ∃ x, heap s !! c = Some x ∧ c_pk x = Some pk
}.

(** [keeps f]: an update that preserves the invariant and the client's key. *)
Definition keeps (f : TCPSecureConn → TCPSecureConn) : Prop :=
  ∀ x, conn_ok x → conn_ok (f x) ∧ (∀ pk, c_pk x = Some pk → c_pk (f x) = Some pk).

(** Connections stay on the heap and keep the key of their client. *)
Definition extends (s s' : TCPServer) : Prop :=
  ∀ c x pk, heap s !! c = Some x → c_pk x = Some pk →
  ∃ x', heap s' !! c = Some x' ∧ c_pk x' = Some pk.

Lemma extends_refl s : extends s s.
Proof. intros c x pk H. eauto. Qed.

Lemma extends_heap s s' : heap s' = heap s → extends s s'.
Proof. intros E c x pk H. rewrite E. eauto. Qed.

Lemma extends_trans s1 s2 s3 : extends s1 s2 → extends s2 s3 → extends s1 s3.
Proof.
  intros H1 H2 c x pk H E. destruct (H1 c x pk H E) as (x2 & Hx2 & E2). eauto.
Qed.

(** [pres m]: the call preserves the invariant of the server. *)
Definition pres {A} (m : sm A) : Prop :=
  ∀ s, srv_ok s → srv_ok (snd (m s)) ∧ extends s (snd (m s)).

Lemma upd_heap_ok f c s :
  srv_ok s →
  (∀ x, heap s !! c = Some x →
     conn_ok (f x) ∧ (∀ pk, c_pk x = Some pk → c_pk (f x) = Some pk)) →
  srv_ok (mkServer (alter f c (heap s)) (Conns s) (HSConns s)) ∧
  extends s (mkServer (alter f c (heap s)) (Conns s) (HSConns s)).
Proof.
  intros [Hc Ht] Hf. split; [split|]; cbn.
  - intros d y H. destruct (decide (c = d)) as [<-|Hne].
    + rewrite list_lookup_alter_eq in H. destruct (heap s !! c) as [x|] eqn:E; [|done].
      injection H as <-. by apply Hf.
    + rewrite list_lookup_alter_ne in H by done. eauto.
  - intros pk d H. destruct (Ht pk d H) as (x & Hx & Hpk).
    destruct (decide (c = d)) as [<-|Hne].
    + exists (f x). rewrite list_lookup_alter_eq, Hx. split; [done|].
      destruct (Hf x Hx) as [_ H']. auto.
    + exists x. by rewrite list_lookup_alter_ne.
  - intros d x pk Hx Hk. destruct (decide (c = d)) as [<-|Hne].
    + exists (f x). cbn. rewrite list_lookup_alter_eq, Hx. split; [done|by apply Hf].
    + exists x. cbn. by rewrite list_lookup_alter_ne.
Qed.

Lemma pres_same {A} (m : sm A) : (∀ s, snd (m s) = s) → pres m.
Proof. intros H s Hs. rewrite H. split; [done|apply extends_refl]. Qed.

Lemma pres_upd c f : keeps f → pres (upd_conn c f).
Proof.
  intros Hf s Hs. apply upd_heap_ok; [done|]. intros x Hx. apply Hf. by eapply ok_conns.
Qed.

Lemma pres_get c : pres (get_conn c).
Proof. apply pres_same. intros s. unfold get_conn, sm_act. by destruct (heap s !! c). Qed.

Lemma pres_lift {A} (o : outcome srv_err A) : pres (stm_lift o).
Proof. by apply pres_same. Qed.

Lemma pres_ret {A} (a : A) : pres (mret a).
Proof. by apply pres_same. Qed.

Lemma pres_fail {A} e : pres (@stm_fail TCPServer srv_err A e).
Proof. by apply pres_same. Qed.

Lemma pres_sm_get {A} (f : TCPServer → A) : pres (sm_get f).
Proof. by apply pres_same. Qed.

Lemma pres_bind {A B} (m : sm A) (k : A → sm B) : pres m → (∀ a, pres (k a)) → pres (m ≫= k).
Proof.
  intros Hm Hk s Hs. destruct (Hm s Hs) as [H1 E1]. unfold mbind, stm_bind.
  destruct (m s) as [[a|e|] s1]; [|done..]. destruct (Hk a s1 H1) as [H2 E2].
  split; [done|]. by eapply extends_trans.
Qed.

Lemma pres_err_print {A} (m : sm A) : pres m → pres (err_print m).
Proof. intros Hm s Hs. specialize (Hm s Hs). unfold err_print. by destruct (m s) as [[]]. Qed.

Lemma keeps_ctrlq q : keeps (λ x, set_ctrlq (q x) x).
Proof. intros x [H1 H2 H3]. split; [by split|done]. Qed.

Lemma keeps_dataq q : keeps (λ x, set_dataq (q x) x).
Proof. intros x [H1 H2 H3]. split; [by split|done]. Qed.

Lemma keeps_onClosed b : keeps (set_onClosed b).
Proof. intros x [H1 H2 H3]. split; [by split|done]. Qed.

Lemma keeps_closed : keeps (set_closed true).
Proof. intros x [H1 H2 H3]. split; [by split|done]. Qed.

Lemma keeps_Pubkey k :
  keeps (λ x, match c_pk x with None => set_pk (Some k) x | Some _ => x end).
Proof.
  intros x Hx. destruct (c_pk x) as [pk|] eqn:E; [by rewrite E|].
  split; [|done]. destruct Hx as [H1 H2 H3]. by split.
Qed.

(** Updating the state of a route, not its key or id. *)
Lemma keeps_pci i (f : PeerConnInfo → PeerConnInfo) :
  (∀ p, Pubkey (f p) = Pubkey p ∧ Connid (f p) = Connid p ∧ (Status (f p) = 1 ∨ Status (f p) = 2)) →
  keeps (λ x, set_pcis (alter f i (pcis x)) x).
Proof.
  intros Hf x [H1 H2 H3].
  assert (∀ j p, pcis x !! j = Some p → ∃ q, alter f i (pcis x) !! j = Some q ∧
    Pubkey q = Pubkey p ∧ Connid q = Connid p ∧
    (Status p = 1 ∨ Status p = 2 → Status q = 1 ∨ Status q = 2)) as Ha.
  { intros j p Hp. destruct (decide (i = j)) as [<-|Hne].
    - exists (f p). rewrite list_lookup_alter_eq, Hp. destruct (Hf p) as (? & ? & ?). auto.
    - exists p. rewrite list_lookup_alter_ne by done. auto. }
  split; [|done]. split; cbn.
  - intros cid j Hj. destruct (H1 cid j Hj) as (p & Hp & Hc & Hk & Hr).
    destruct (Ha j p Hp) as (q & Hq & Epk & Ec & _). exists q. by rewrite Epk, Ec.
  - intros pk j Hj. destruct (H2 pk j Hj) as (p & Hp & Hpk & Hk & Hst).
    destruct (Ha j p Hp) as (q & Hq & Epk & Ec & Est). exists q. rewrite Epk, Ec. auto.
  - done.
Qed.

Create HintDb srv.
#[export] Hint Resolve pres_upd pres_get pres_lift pres_ret pres_fail pres_sm_get pres_err_print
  keeps_ctrlq keeps_dataq keeps_onClosed keeps_closed keeps_Pubkey : srv.
#[export] Hint Extern 1 (pres (upd_pci _ _ _)) =>
  (apply pres_upd, keeps_pci; intros ?; cbn; auto) : srv.

(** Sequences of calls that preserve the invariant. *)
Ltac pres_seq :=
  repeat first
    [ solve [auto with srv]
    | apply pres_bind; [|intros ?]
    | match goal with |- pres (match ?x with _ => _ end) => destruct x end
    | match goal with |- pres (if ?b then _ else _) => destruct b end ].

Lemma pres_SendCtrlPacket c d : pres (SendCtrlPacket c d).
Proof. unfold SendCtrlPacket. pres_seq. Qed.

Lemma pres_SendDataPacket c i d : pres (SendDataPacket c i d).
Proof. unfold SendDataPacket. pres_seq. Qed.

#[export] Hint Resolve pres_SendCtrlPacket pres_SendDataPacket : srv.

Lemma pres_notifications c i pk :
  pres (sendRoutingResponse c i pk) ∧ pres (SendConnectNotification c i) ∧
  pres (SendDisconnectNotification c i).
Proof. split_and!; apply pres_err_print; auto with srv. Qed.

#[export] Hint Extern 1 (pres (sendRoutingResponse _ _ _)) => apply pres_notifications : srv.
#[export] Hint Extern 1 (pres (SendConnectNotification _ _)) =>
  (eapply pres_notifications; exact []) : srv.
#[export] Hint Extern 1 (pres (SendDisconnectNotification _ _)) =>
  (eapply pres_notifications; exact []) : srv.

Lemma pres_get_pci c i : pres (get_pci c i).
Proof. unfold get_pci. pres_seq. Qed.

#[export] Hint Resolve pres_get_pci : srv.

Lemma pres_BinStr c : pres (BinStr c).
Proof. unfold BinStr. pres_seq. Qed.

#[export] Hint Resolve pres_BinStr : srv.

Lemma pres_HandlePingRequest c r : pres (HandlePingRequest c r).
Proof. unfold HandlePingRequest. pres_seq. Qed.

Lemma pres_HandleRoutingData c r : pres (HandleRoutingData c r).
Proof. unfold HandleRoutingData. pres_seq. Qed.

Lemma pres_HandleDisconnectNotification c r : pres (HandleDisconnectNotification c r).
Proof. unfold HandleDisconnectNotification. pres_seq. Qed.

Lemma pres_complete_route c i connid mypk peerpk : pres (complete_route c i connid mypk peerpk).
Proof. unfold complete_route. pres_seq. Qed.

#[export] Hint Resolve pres_HandlePingRequest pres_HandleRoutingData
  pres_HandleDisconnectNotification pres_complete_route : srv.

(** ** Connection ids *)

Lemma elem_of_free_ids ids k : k ∈ free_ids ids ↔ ids !! k = Some false.
Proof.
  unfold free_ids. rewrite list_elem_of_fmap. split.
  - intros ([k' b] & -> & H). apply list_elem_of_filter in H as [Hb H]. cbn in Hb. subst.
    by apply elem_of_map_to_list.
  - intros H. exists (k, false). split; [done|]. apply list_elem_of_filter.
    split; [done|]. by apply elem_of_map_to_list.
Qed.

(** The new record of a connection. *)
Definition add_route (peerpk : bytes) (connid : Z) (i : pciptr) (x : TCPSecureConn) :=
  set_infos2 (<[connid := i]> (ConnInfos2 x))
    (set_infos (<[peerpk := i]> (ConnInfos x))
      (set_pcis (pcis x ++ [mkPCI peerpk 1 0 connid]) x)).

Lemma add_route_ok x k peerpk :
  conn_ok x → ConnIds x !! k = Some false → ConnInfos x !! peerpk = None →
  conn_ok (add_route peerpk (k + 16) (length (pcis x)) (set_ids (<[k := true]> (ConnIds x)) x)).
Proof.
  intros [H1 H2 H3] Hk Hpk. pose proof (H3 _ _ Hk) as Hrange.
  split; cbn.
  - intros cid i H. destruct (decide (cid = k + 16)) as [->|Hne].
    + rewrite lookup_insert_eq in H. injection H as <-.
      eexists. rewrite lookup_app_r, Nat.sub_diag by lia. split; [done|]. cbn.
      rewrite lookup_insert_eq. replace (k + 16 - 16) with k by lia.
      rewrite lookup_insert_eq. split; [done|]. split; [done|]. split; [lia|done].
    + rewrite lookup_insert_ne in H by done. destruct (H1 cid i H) as (p & Hp & Hc & Hi & Hr & Hu).
      exists p. split; [by apply lookup_app_l_Some|]. split; [done|]. split.
      * rewrite lookup_insert_ne; [done|]. intros ->. congruence.
      * split; [done|]. destruct (decide (cid - 16 = k)) as [->|]; [by rewrite lookup_insert_eq|].
        by rewrite lookup_insert_ne.
  - intros pk i H. destruct (decide (pk = peerpk)) as [->|Hne].
    + rewrite lookup_insert_eq in H. injection H as <-.
      eexists. rewrite lookup_app_r, Nat.sub_diag by lia. split; [done|]. cbn.
      rewrite lookup_insert_eq. auto.
    + rewrite lookup_insert_ne in H by done. destruct (H2 pk i H) as (p & Hp & Hq & Hi & Hs).
      exists p. split; [by apply lookup_app_l_Some|]. split; [done|]. split; [|done].
      rewrite lookup_insert_ne; [done|]. intros E.
      destruct (H1 _ _ Hi) as (? & _ & _ & _ & _ & Hu).
      rewrite <- E in Hu. replace (k + 16 - 16) with k in Hu by lia. congruence.
  - intros j b H. destruct (decide (j = k)) as [->|]; [done|].
    rewrite lookup_insert_ne in H by done. eauto.
Qed.

(** [nextConnid]: [0] exactly when no id is free, else an unused id of the
    client range, which is marked as used. *)
Lemma nextConnid_spec pick c s x :
  srv_ok s → heap s !! c = Some x →
  (free_ids (ConnIds x) = [] ∧ nextConnid pick c s = (Ret 0, s)) ∨
  (∃ k, ConnIds x !! k = Some false ∧
    nextConnid pick c s =
      (Ret (k + 16), mkServer (alter (λ x, set_ids (<[k := true]> (ConnIds x)) x) c (heap s))
                       (Conns s) (HSConns s))).
Proof.
  intros Hs Hx. unfold nextConnid. erewrite stm_bind_ret; cycle 1.
  { unfold get_conn, sm_act. by rewrite Hx. }
  destruct (free_ids (ConnIds x) !! _) as [k|] eqn:E.
  - right. exists k. apply list_elem_of_lookup_2, elem_of_free_ids in E. split; [done|].
    erewrite stm_bind_ret by reflexivity.
    pose proof (ok_ids _ (ok_conns _ Hs _ _ Hx) _ _ E).
    assert (u8 (k + NUM_RESERVED_PORTS) = k + 16) as ->; [|done].
    unfold NUM_RESERVED_PORTS, u8. apply wrap_u_small. lia.
  - left. split; [|done]. apply lookup_ge_None in E.
    destruct (free_ids (ConnIds x)) as [|a l]; [done|].
    pose proof (Nat.mod_upper_bound pick (length (a :: l)) ltac:(done)). lia.
Qed.

(** A key without a live record is not in the table at all. *)
Lemma known_spec c s x pk :
  srv_ok s → heap s !! c = Some x →
  ∃ o, (match ConnInfos x !! pk with
        | None => mret None
        | Some i => cio ← get_pci c i; mret (if Status cio >? 0 then Some (Connid cio) else None)
        end : sm (option Z)) s = (Ret o, s) ∧
    match o with
    | None => ConnInfos x !! pk = None
    | Some connid => ∃ i, ConnInfos x !! pk = Some i ∧ ConnInfos2 x !! connid = Some i
    end.
Proof.
  intros Hs Hx. destruct (ConnInfos x !! pk) as [i|] eqn:E; [|by exists None].
  destruct (ok_by_key _ (ok_conns _ Hs _ _ Hx) _ _ E) as (p & Hp & Hpk & Hi & Hst).
  exists (Some (Connid p)). split; [|by exists i].
  assert (get_pci c i s = (Ret p, s)) as G.
  { unfold get_pci. erewrite stm_bind_ret by (unfold get_conn, sm_act; by rewrite Hx).
    unfold stm_lift. by rewrite Hp. }
  rewrite (stm_bind_ret _ _ _ _ _ G).
  destruct (Status p >? 0) eqn:Es; zbool; [done|lia].
Qed.

Lemma pres_handleRoutingRequest pick c r : pres (handleRoutingRequest pick c r).
Proof.
  unfold handleRoutingRequest. apply pres_bind; [auto with srv|intros peerpk].
  apply pres_bind; [auto with srv|intros mypk].
  intros s Hs. destruct (heap s !! c) as [x|] eqn:Hx.
  2:{ erewrite stm_bind_panic by (unfold get_conn, sm_act; by rewrite Hx).
      split; [done|apply extends_refl]. }
  erewrite stm_bind_ret by (unfold get_conn, sm_act; by rewrite Hx).
  destruct (bool_decide (peerpk = mypk)); [by apply pres_notifications|].
  destruct (known_spec c s x peerpk Hs Hx) as (o & Eo & Ho).
  rewrite (stm_bind_ret _ _ _ _ _ Eo). destruct o as [connid|]; [by apply pres_notifications|].
  destruct (nextConnid_spec pick c s x Hs Hx) as [[_ En]|(k & Hk & En)];
    rewrite (stm_bind_ret _ _ _ _ _ En).
  - by apply pres_notifications.
  - pose proof (ok_ids _ (ok_conns _ Hs _ _ Hx) _ _ Hk) as Hr.
    destruct (k + 16 =? 0) eqn:E0; zbool; [lia|].
    erewrite stm_bind_ret by reflexivity.
    assert (pres (_ ← sendRoutingResponse c (k + 16) peerpk;
      complete_route c (length (pcis x)) (k + 16) mypk peerpk)) as Hp by pres_seq.
    cbn [heap Conns HSConns]. rewrite list_alter_alter_eq.
    match goal with |- context [alter ?f c (heap s)] =>
      destruct (upd_heap_ok f c s Hs) as [H1 E1] end.
    { intros y Hy. rewrite Hx in Hy. injection Hy as <-.
      split; [|done]. apply add_route_ok; [by eapply ok_conns|done|done]. }
    destruct (Hp _ H1) as [H2 E2]. split; [exact H2|]. eapply extends_trans; [exact E1|exact E2].
Qed.

#[export] Hint Resolve pres_handleRoutingRequest : srv.

Lemma pres_handle_packet pick c r : pres (handle_packet pick c r).
Proof. unfold handle_packet. cbv zeta. pres_seq. Qed.

(** ** The server's tables *)

Lemma pres_kill_reset pk cs : pres (kill_reset pk cs).
Proof. induction cs as [|c cs IH]; cbn [kill_reset]; pres_seq. Qed.

Lemma pres_kill_notify ns : pres (kill_notify ns).
Proof. induction ns as [|[c i] ns IH]; cbn [kill_notify]; pres_seq. Qed.

Lemma pres_del_hs c : pres (del_hs c).
Proof. intros s [Hc Ht]. split; [by split|by apply extends_heap]. Qed.

Lemma pres_del_conn pk : pres (del_conn pk).
Proof.
  intros s [Hc Ht]. split; [|by apply extends_heap]. split; [done|]. cbn.
  intros k d H. apply lookup_delete_Some in H as [_ H]. eauto.
Qed.

Lemma pres_recovered m : pres m → pres (recovered m).
Proof. intros Hm s Hs. specialize (Hm s Hs). unfold recovered. by destruct (m s) as [[]]. Qed.

#[export] Hint Resolve pres_kill_reset pres_kill_notify pres_del_hs pres_del_conn : srv.

Lemma pres_onConnClosed c : pres (onConnClosed c).
Proof. unfold onConnClosed, killAccepted. pres_seq. Qed.

#[export] Hint Resolve pres_onConnClosed : srv.

Lemma pres_doClose c : pres (doClose c).
Proof. apply pres_recovered. pres_seq. Qed.

#[export] Hint Resolve pres_doClose : srv.

Lemma BinStr_inv c s pk s' :
  BinStr c s = (Ret pk, s') → s' = s ∧ ∃ x, heap s !! c = Some x ∧ c_pk x = Some pk.
Proof.
  unfold BinStr, mbind, stm_bind, get_conn, sm_act, stm_lift.
  destruct (heap s !! c) as [x|]; [|done]. destruct (c_pk x) eqn:E; [|done].
  intros [= -> ->]. eauto.
Qed.

Lemma pres_onConnConfirmed c : pres (onConnConfirmed c).
Proof.
  unfold onConnConfirmed. apply pres_bind; [auto with srv|intros []]. intros s Hs.
  destruct (BinStr c s) as [[pk|e|] s0] eqn:Eb.
  2,3: unfold mbind, stm_bind; rewrite Eb; cbn; pose proof (pres_BinStr c s Hs) as Hp;
    by rewrite Eb in Hp.
  rewrite (stm_bind_ret _ _ _ _ _ Eb). apply BinStr_inv in Eb as (-> & x & Hx & Hpk).
  erewrite stm_bind_ret by reflexivity.
  set (m := match Conns s !! pk with Some _ => _ | None => _ end).
  assert (pres m) as Hm by (unfold m; pres_seq).
  destruct (Hm s Hs) as [H1 E1]. unfold mbind, stm_bind.
  destruct (m s) as [[[]|e|] s1]; [|done..]. cbn [snd] in *. split; [|exact E1].
  destruct H1 as [Hc Ht]. split; [done|]. cbn. intros k d H.
  destruct (decide (k = pk)) as [->|Hne].
  - rewrite lookup_insert_eq in H. injection H as <-. by eapply E1.
  - rewrite lookup_insert_ne in H by done. eauto.
Qed.

Lemma initConnids_range k b : initConnids !! k = Some b → 0 ≤ k < 240.
Proof.
  intros H. apply elem_of_list_to_map_2, list_elem_of_fmap in H as (i & [= -> _] & Hi).
  apply elem_of_seq in Hi. unfold NUM_CLIENT_CONNECTIONS, NUM_RESERVED_PORTS in Hi. lia.
Qed.

Lemma NewTCPSecureConn_ok : conn_ok NewTCPSecureConn.
Proof.
  split; cbn.
  - intros cid i H. by rewrite lookup_empty in H.
  - intros k i H. by rewrite lookup_empty in H.
  - apply initConnids_range.
Qed.

Lemma pres_startHandshake : pres startHandshake.
Proof.
  intros s [Hc Ht]. unfold startHandshake, sm_act. cbn [snd]. split; [split|]; cbn.
  - intros c x H. apply lookup_snoc_Some in H as [[_ H]|[_ <-]]; [eauto|apply NewTCPSecureConn_ok].
  - intros k c H. destruct (Ht k c H) as (x & Hx & E). exists x.
    split; [by apply lookup_app_l_Some|done].
  - intros c x pk H E. exists x. cbn. split; [by apply lookup_app_l_Some|done].
Qed.

(** ** Runs of the server *)

Definition empty_server : TCPServer := mkServer [] ∅ ∅.

(** The events: a client connects, its handshake names its key, its first ping
    confirms it, a decrypted packet of it arrives, its connection closes, and its writer takes a queued packet. *)
Inductive step : TCPServer → TCPServer → Prop :=
| step_accept s : step s (snd (startHandshake s))
| step_handshake c pk s : step s (snd (set_Pubkey c pk s))
| step_confirm c s : step s (snd (onConnConfirmed c s))
| step_packet pick c pkt s : step s (snd (handle_packet pick c pkt s))
| step_close c s : step s (snd (doClose c s))
| step_write_ctrl c s : step s (snd (upd_conn c (λ x, set_ctrlq (drop 1 (cwctrlq x)) x) s))
| step_write_data c s : step s (snd (upd_conn c (λ x, set_dataq (drop 1 (cwdataq x)) x) s)).

Inductive reachable : TCPServer → Prop :=
| reachable_init : reachable empty_server
| reachable_step s s' : reachable s → step s s' → reachable s'.

(** ** Calls on known connections *)

Lemma get_conn_ok c s x : heap s !! c = Some x → get_conn c s = (Ret x, s).
Proof. intros H. unfold get_conn, sm_act. by rewrite H. Qed.

Lemma get_pci_ok c i s x p :
  heap s !! c = Some x → pcis x !! i = Some p → get_pci c i s = (Ret p, s).
Proof.
  intros Hx Hp. unfold get_pci. rewrite (stm_bind_ret _ _ _ _ _ (get_conn_ok _ _ _ Hx)).
  unfold stm_lift. by rewrite Hp.
Qed.

Definition upd (c : connptr) (f : TCPSecureConn → TCPSecureConn) (s : TCPServer) : TCPServer :=
  mkServer (alter f c (heap s)) (Conns s) (HSConns s).

Lemma upd_eq c f s x : heap s !! c = Some x → heap (upd c f s) !! c = Some (f x).
Proof. intros H. cbn [heap upd]. by rewrite list_lookup_alter_eq, H. Qed.

Lemma upd_ne c d f s : c ≠ d → heap (upd c f s) !! d = heap s !! d.
Proof. intros H. cbn [heap upd]. by apply list_lookup_alter_ne. Qed.

(** A control packet on an open connection with room in its queue. *)
Lemma send_ctrl_ok c d s x :
  heap s !! c = Some x → c_closed x = false → (length (cwctrlq x) < 64)%nat → zlen d ≤ 2048 →
  err_print (SendCtrlPacket c d) s = (Ret (), upd c (λ x, set_ctrlq (cwctrlq x ++ [d]) x) s).
Proof.
  intros Hx Hc Hq Hd. unfold err_print, SendCtrlPacket.
  rewrite (stm_bind_ret _ _ _ _ _ (get_conn_ok _ _ _ Hx)).
  destruct (zlen d >? 2048) eqn:E; zbool; [lia|].
  by rewrite bool_decide_false, Hc by lia.
Qed.

Lemma BinStr_ok c s x pk : heap s !! c = Some x → c_pk x = Some pk → BinStr c s = (Ret pk, s).
Proof.
  intros Hx Hk. unfold BinStr. rewrite (stm_bind_ret _ _ _ _ _ (get_conn_ok _ _ _ Hx)).
  unfold stm_lift. by rewrite Hk.
Qed.

Lemma upd_pci_ok c i f s :
  upd_pci c i f s = (Ret (), upd c (λ x, set_pcis (alter f i (pcis x)) x) s).
Proof. done. Qed.

(** Completing a route between two different open connections. *)
Lemma complete_route_ok a b i j connid s x y q pkx pky :
  a ≠ b → heap s !! a = Some x → heap s !! b = Some y →
  Conns s !! pky = Some b → ConnInfos y !! pkx = Some j → pcis y !! j = Some q →
  c_closed x = false → c_closed y = false →
  (length (cwctrlq x) < 64)%nat → (length (cwctrlq y) < 64)%nat →
  ∃ s' x' y',
    complete_route a i connid pkx pky s = (Ret (), s') ∧
    heap s' !! a = Some x' ∧ heap s' !! b = Some y' ∧
    pcis x' = alter (λ p, mkPCI (Pubkey p) 2 (Connid q) (Connid p)) i (pcis x) ∧
    pcis y' = alter (λ p, mkPCI (Pubkey p) 2 connid (Connid p)) j (pcis y) ∧
    cwctrlq x' = cwctrlq x ++ [[zb TCP_PACKET_CONNECTION_NOTIFICATION; zb connid]] ∧
    cwctrlq y' = cwctrlq y ++ [[zb TCP_PACKET_CONNECTION_NOTIFICATION; zb (Connid q)]].
Proof.
  intros Hne Hx Hy Ht Hj Hq Hcx Hcy Hlx Hly. unfold complete_route.
  erewrite stm_bind_ret by reflexivity. rewrite Ht.
  rewrite (stm_bind_ret _ _ _ _ _ (get_conn_ok _ _ _ Hy)), Hj.
  rewrite (stm_bind_ret _ _ _ _ _ (get_pci_ok _ _ _ _ _ Hy Hq)).
  rewrite (stm_bind_ret _ _ _ _ _ (upd_pci_ok _ _ _ _)).
  rewrite (stm_bind_ret _ _ _ _ _ (upd_pci_ok _ _ _ _)).
  match goal with |- context [upd b ?g (upd a ?f s)] => set (fx := f); set (fy := g) end.
  assert (heap (upd b fy (upd a fx s)) !! a = Some (fx x)) as Hx1.
  { rewrite upd_ne by done. by apply upd_eq. }
  assert (heap (upd b fy (upd a fx s)) !! b = Some (fy y)) as Hy1.
  { apply upd_eq. by rewrite upd_ne. }
  unfold SendConnectNotification.
  erewrite stm_bind_ret by (apply (send_ctrl_ok _ _ _ _ Hx1); [done|done|unfold zlen; cbn [length]; lia]).
  set (s1 := upd a _ (upd b fy _)).
  assert (heap s1 !! b = Some (fy y)) as Hy2 by (unfold s1; by rewrite upd_ne).
  rewrite (send_ctrl_ok _ _ _ _ Hy2) by (done || (unfold zlen; cbn [length]; lia)).
  eexists _, _, _. split; [reflexivity|].
  split; [rewrite upd_ne by done; by apply upd_eq|]. split; [by apply upd_eq|].
  done.
Qed.

(** Data for a route whose peer has one back, on open connections with room. *)
Lemma routing_data_ok s a b x y pkx cid i j p q data :
  heap s !! a = Some x → c_pk x = Some pkx → 16 ≤ cid ≤ 255 →
  ConnInfos2 x !! cid = Some i → pcis x !! i = Some p →
  Conns s !! Pubkey p = Some b → heap s !! b = Some y → ConnInfos y !! pkx = Some j →
  pcis y !! j = Some q → c_closed y = false → (length (cwdataq y) < 128)%nat →
  zlen data ≤ 2048 →
  HandleRoutingData a (zb cid :: data) s =
    (Ret (), upd b (λ y, set_dataq (cwdataq y ++ [zb (Connid q) :: data]) y) s).
Proof.
  intros Hx Hpkx Hr Hi Hp Hb Hy Hj Hq Hc Hl Hd.
  unfold HandleRoutingData. erewrite stm_bind_ret by reflexivity.
  rewrite (stm_bind_ret _ _ _ _ _ (get_conn_ok _ _ _ Hx)), bz_zb_small, Hi by lia.
  rewrite (stm_bind_ret _ _ _ _ _ (get_pci_ok _ _ _ _ _ Hx Hp)).
  erewrite stm_bind_ret by reflexivity. rewrite Hb.
  rewrite (stm_bind_ret _ _ _ _ _ (get_conn_ok _ _ _ Hy)).
  rewrite (stm_bind_ret _ _ _ _ _ (BinStr_ok _ _ _ _ Hx Hpkx)), Hj.
  rewrite (stm_bind_ret _ _ _ _ _ (get_pci_ok _ _ _ _ _ Hy Hq)).
  erewrite stm_bind_ret by reflexivity. change (drop 1 (zb cid :: data)) with data.
  unfold err_print, SendDataPacket. rewrite (stm_bind_ret _ _ _ _ _ (get_conn_ok _ _ _ Hy)).
  destruct (zlen data >? 2048) eqn:E; zbool; [lia|].
  by rewrite bool_decide_false, Hc by lia.
Qed.

(** ** Properties *)

(** C7: In every state the server can reach — any interleaving of connecting,
    confirming, packets with arbitrary contents, closing and writing, and any
    order in which Go's map iteration hands out ids — each connection's routes
    are consistent: the table by public key and the table by connection id name
    the same records, every id is in 16..255 and marked as used, and the
    server's table maps each key to a connection of that client. *)
Theorem server_invariant s : reachable s → srv_ok s.
Proof.
  induction 1 as [|s s' _ IH Hstep].
  - split; cbn; intros k x H; [done|by rewrite lookup_empty in H].
  - destruct Hstep.
    + by apply pres_startHandshake.
    + apply (pres_upd c _ (keeps_Pubkey pk) s IH).
    + by apply pres_onConnConfirmed.
    + by apply pres_handle_packet.
    + by apply pres_doClose.
    + apply (pres_upd c _ (keeps_ctrlq (λ x, drop 1 (cwctrlq x))) s IH).
    + apply (pres_upd c _ (keeps_dataq (λ x, drop 1 (cwdataq x))) s IH).
Qed.

Definition pkA : bytes := replicate 32 x0a.
Definition pkB : bytes := replicate 32 x0b.
Definition pkC : bytes := replicate 32 x0c.

(** The server after a client with key [pk] has connected as [c]. *)
Definition connected (c : connptr) (pk : bytes) (s : TCPServer) : TCPServer :=
  snd (onConnConfirmed c (snd (set_Pubkey c pk (snd (startHandshake s))))).

Lemma server_invariant_witness :
  srv_ok (snd (handle_packet 7 0 (zb TCP_PACKET_ROUTING_REQUEST :: pkB)
    (connected 0 pkA empty_server))).
Proof.
  apply (server_invariant _).
  eapply reachable_step; [|apply step_packet].
  eapply reachable_step; [|apply step_confirm].
  eapply reachable_step; [|apply step_handshake].
  eapply reachable_step; [|apply step_accept]. apply reachable_init.
Defined.

(** [nextConnid] refuses (id 0) exactly when all 240 ids are taken, and
    otherwise returns an id of 16..255 that no route of this connection uses. *)
Theorem nextConnid_fresh pick s c x :
  srv_ok s → heap s !! c = Some x →
  ∃ connid s', nextConnid pick c s = (Ret connid, s') ∧
    (connid = 0 ↔ ∀ k, ConnIds x !! k ≠ Some false) ∧
    (connid ≠ 0 → 16 ≤ connid ≤ 255 ∧ ConnInfos2 x !! connid = None).
Proof.
  intros Hs Hx. destruct (nextConnid_spec pick c s x Hs Hx) as [[Hf E]|(k & Hk & E)].
  - eexists _, _. split; [exact E|]. split; [|done]. split; [|done]. intros _ k Hk.
    apply elem_of_free_ids in Hk. rewrite Hf in Hk. by apply not_elem_of_nil in Hk.
  - pose proof (ok_conns _ Hs _ _ Hx) as Hok. pose proof (ok_ids _ Hok _ _ Hk).
    eexists _, _. split; [exact E|]. split.
    + split; [lia|]. intros Hn. by destruct (Hn k).
    + intros _. split; [lia|]. destruct (ConnInfos2 x !! (k + 16)) as [i|] eqn:Ei; [|done].
      destruct (ok_by_id _ Hok _ _ Ei) as (? & _ & _ & _ & _ & Hu).
      replace (k + 16 - 16) with k in Hu by lia. congruence.
Qed.

Lemma nextConnid_fresh_witness :
  ∃ connid s', nextConnid 3 0 (snd (startHandshake empty_server)) = (Ret connid, s') ∧
    (connid = 0 ↔ ∀ k, initConnids !! k ≠ Some false) ∧
    (connid ≠ 0 → 16 ≤ connid ≤ 255 ∧ (∅ : gmap Z pciptr) !! connid = None).
Proof.
  apply (nextConnid_fresh 3 (snd (startHandshake empty_server)) 0 NewTCPSecureConn).
  - split; cbn.
    + intros [|[]] x [= <-]. apply NewTCPSecureConn_ok.
    + intros k x H. by rewrite lookup_empty in H.
  - reflexivity.
Defined.

(** C10: Routed data reaches the right client under the right name: when [a] has a
    route with id [cid] and the client of that route has one back, the payload
    is appended to that client's data queue, prefixed with the id under which
    that client knows [a]; no other connection changes. *)
Theorem routing_data_delivered s a b x y pkx cid i j p q data :
  srv_ok s → heap s !! a = Some x → c_pk x = Some pkx →
  ConnInfos2 x !! cid = Some i → pcis x !! i = Some p →
  Conns s !! Pubkey p = Some b → heap s !! b = Some y → ConnInfos y !! pkx = Some j →
  pcis y !! j = Some q → c_closed y = false → (length (cwdataq y) < 128)%nat →
  zlen data ≤ 2048 →
  HandleRoutingData a (zb cid :: data) s =
    (Ret (), upd b (λ y, set_dataq (cwdataq y ++ [zb (Connid q) :: data]) y) s) ∧
  c_pk y = Some (Pubkey p) ∧ ConnInfos2 y !! Connid q = Some j ∧ Pubkey q = pkx.
Proof.
  intros Hs Hx Hpkx Hi Hp Hb Hy Hj Hq Hc Hl Hd.
  destruct (ok_by_id _ (ok_conns _ Hs _ _ Hx) _ _ Hi) as (p' & _ & _ & _ & Hr & _).
  destruct (ok_table _ Hs _ _ Hb) as (y' & Hy' & Hpk). rewrite Hy in Hy'. injection Hy' as <-.
  destruct (ok_by_key _ (ok_conns _ Hs _ _ Hy) _ _ Hj) as (q' & Hq' & Hkey & Hid & _).
  rewrite Hq in Hq'. injection Hq' as <-. split; [|done].
  by eapply routing_data_ok.
Qed.

(** A connection with one route. *)
Definition one_route (pk peer : bytes) (connid otherid : Z) : TCPSecureConn :=
  mkConn (Some pk) [mkPCI peer 2 otherid connid] {[peer := 0%nat]} {[connid := 0%nat]}
    {[connid - 16 := true; 239 := false]} [] [] false true.

Lemma one_route_ok pk peer connid otherid :
  16 ≤ connid ≤ 254 → conn_ok (one_route pk peer connid otherid).
Proof.
  intros Hc. split; cbn.
  - intros cid i H. apply lookup_singleton_Some in H as [<- <-].
    eexists. split; [reflexivity|]. cbn.
    rewrite lookup_singleton_eq, lookup_insert_eq. split_and!; done || lia.
  - intros k i H. apply lookup_singleton_Some in H as [<- <-].
    eexists. split; [reflexivity|]. cbn. rewrite lookup_singleton_eq. auto.
  - intros k b H. apply lookup_insert_Some in H as [[<- _]|[_ H]]; [lia|].
    apply lookup_singleton_Some in H as [<- _]. lia.
Qed.

(** A and B have asked for each other; both routes are complete. *)
Definition routed : TCPServer :=
  mkServer [one_route pkA pkB 16 20; one_route pkB pkA 20 16] {[pkA := 0%nat; pkB := 1%nat]} ∅.

Lemma routed_ok : srv_ok routed.
Proof.
  split; cbn.
  - intros [|[|]] x E; try discriminate E; injection E as <-; apply one_route_ok; lia.
  - intros k c H. apply lookup_insert_Some in H as [[<- <-]|[_ H]]; [by eexists|].
    apply lookup_singleton_Some in H as [<- <-]. by eexists.
Qed.

Lemma routing_data_delivered_witness :
  HandleRoutingData 0 (zb 16 :: str "hi") routed =
    (Ret (), upd 1 (λ y, set_dataq (cwdataq y ++ [zb 20 :: str "hi"]) y) routed).
Proof.
  apply (routing_data_delivered routed 0 1 (one_route pkA pkB 16 20) (one_route pkB pkA 20 16)
    pkA 16 0 0 (mkPCI pkB 2 20 16) (mkPCI pkA 2 16 20) (str "hi") routed_ok);
    try (vm_compute; reflexivity); [cbn; lia|vm_compute; discriminate].
Defined.

(** A request for a key without a record, up to the completion of the route. *)
Lemma handleRoutingRequest_new pick a s x mypk pk k x1 :
  let s1 := upd a (add_route pk (k + 16) (length (pcis x)))
              (upd a (λ x, set_ids (<[k := true]> (ConnIds x)) x) s) in
  let resp := zb TCP_PACKET_ROUTING_RESPONSE :: zb (k + 16) :: pk in
  heap s !! a = Some x → c_pk x = Some mypk → mypk ≠ pk → length pk = 32%nat → ConnInfos x !! pk = None →
  nextConnid pick a s = (Ret (k + 16), upd a (λ x, set_ids (<[k := true]> (ConnIds x)) x) s) →
  0 ≤ k → heap s1 !! a = Some x1 → c_closed x1 = false → (length (cwctrlq x1) < 64)%nat →
  handleRoutingRequest pick a (zb TCP_PACKET_ROUTING_REQUEST :: pk) s =
  complete_route a (length (pcis x)) (k + 16) mypk pk
    (upd a (λ x, set_ctrlq (cwctrlq x ++ [resp]) x) s1).
Proof.
  intros s1 resp Hx Hmy Hpk Hlen Hno En Hk Hx1 Hc Hq.
  unfold handleRoutingRequest. erewrite stm_bind_ret; cycle 1.
  { unfold stm_lift, requested_key, PUBLIC_KEY_SIZE. rewrite slice_ok by (cbn [length]; lia).
    reflexivity. }
  change (take (1 + 32 - 1) (drop 1 (zb TCP_PACKET_ROUTING_REQUEST :: pk))) with (take 32 pk).
  rewrite take_ge by lia.
  rewrite (stm_bind_ret _ _ _ _ _ (BinStr_ok _ _ _ _ Hx Hmy)).
  rewrite (stm_bind_ret _ _ _ _ _ (get_conn_ok _ _ _ Hx)), bool_decide_false by congruence.
  rewrite Hno. rewrite (stm_bind_ret (mret None) _ s None s eq_refl). cbv beta iota.
  rewrite (stm_bind_ret _ _ _ _ _ En). destruct (k + 16 =? 0) eqn:E0; zbool; [lia|].
  erewrite stm_bind_ret by reflexivity. fold (upd a (λ x, set_ids (<[k := true]> (ConnIds x)) x) s).
  erewrite stm_bind_ret; [reflexivity|]. apply (send_ctrl_ok _ _ _ _ Hx1); [done|done|].
  unfold resp, zlen. cbn [length]. rewrite Hlen. lia.
Qed.

(** C9: Two clients that ask for each other get connected.  When [b] already has a
    record for [a], [a]'s request for [b] gives [a] a fresh id, completes both
    records with each other's ids, answers [a] with the id and then notifies
    both clients, each about its own id. *)
Theorem routing_completes pick s a b x y pkx pky j q :
  srv_ok s → a ≠ b → heap s !! a = Some x → heap s !! b = Some y →
  c_pk x = Some pkx → c_pk y = Some pky → pkx ≠ pky → length pky = 32%nat →
  Conns s !! pky = Some b →
  ConnInfos x !! pky = None → ConnInfos y !! pkx = Some j → pcis y !! j = Some q →
  free_ids (ConnIds x) ≠ [] → c_closed x = false → c_closed y = false →
  (length (cwctrlq x) < 63)%nat → (length (cwctrlq y) < 64)%nat →
  ∃ connid s' x' y', 16 ≤ connid ≤ 255 ∧ ConnInfos2 x !! connid = None ∧
    handleRoutingRequest pick a (zb TCP_PACKET_ROUTING_REQUEST :: pky) s = (Ret (), s') ∧
    heap s' !! a = Some x' ∧ heap s' !! b = Some y' ∧
    pcis x' !! length (pcis x) = Some (mkPCI pky 2 (Connid q) connid) ∧
    pcis y' !! j = Some (mkPCI pkx 2 connid (Connid q)) ∧
    cwctrlq x' = cwctrlq x ++
      [zb TCP_PACKET_ROUTING_RESPONSE :: zb connid :: pky;
       [zb TCP_PACKET_CONNECTION_NOTIFICATION; zb connid]] ∧
    cwctrlq y' = cwctrlq y ++ [[zb TCP_PACKET_CONNECTION_NOTIFICATION; zb (Connid q)]].
Proof.
  intros Hs Hne Hx Hy Hpx Hpy Hpk Hlen Ht Hno Hj Hq Hfree Hcx Hcy Hlx Hly.
  pose proof (ok_conns _ Hs _ _ Hx) as Hok.
  destruct (nextConnid_spec pick a s x Hs Hx) as [[Hf _]|(k & Hk & En)]; [done|].
  pose proof (ok_ids _ Hok _ _ Hk) as Hr.
  destruct (ok_by_key _ (ok_conns _ Hs _ _ Hy) _ _ Hj) as (q' & Hq' & Hkey & _ & _).
  rewrite Hq in Hq'. injection Hq' as <-.
  set (x1 := add_route pky (k + 16) (length (pcis x)) (set_ids (<[k := true]> (ConnIds x)) x)).
  set (resp := zb TCP_PACKET_ROUTING_RESPONSE :: zb (k + 16) :: pky).
  set (s1 := upd a (add_route pky (k + 16) (length (pcis x)))
               (upd a (λ x, set_ids (<[k := true]> (ConnIds x)) x) s)).
  assert (heap s1 !! a = Some x1) as Hx1.
  { apply (upd_eq a (add_route _ _ _) _ (set_ids (<[k := true]> (ConnIds x)) x)).
    exact (upd_eq a (λ x, set_ids (<[k := true]> (ConnIds x)) x) s x Hx). }
  set (s2 := upd a (λ x, set_ctrlq (cwctrlq x ++ [resp]) x) s1).
  assert (heap s2 !! a = Some (set_ctrlq (cwctrlq x ++ [resp]) x1)) as Hx2.
  { exact (upd_eq a (λ x, set_ctrlq (cwctrlq x ++ [resp]) x) s1 x1 Hx1). }
  assert (heap s2 !! b = Some y) as Hy2 by (unfold s2, s1; by rewrite !upd_ne).
  destruct (complete_route_ok a b (length (pcis x)) j (k + 16) s2 _ y q pkx pky Hne Hx2 Hy2)
    as (s' & x' & y' & E & Hx' & Hy' & Px & Py & Qx & Qy); try done.
  { cbn. rewrite length_app. cbn. lia. }
  exists (k + 16), s', x', y'. split; [lia|]. split.
  { destruct (ConnInfos2 x !! (k + 16)) as [i|] eqn:Ei; [|done].
    destruct (ok_by_id _ Hok _ _ Ei) as (? & _ & _ & _ & _ & Hu).
    replace (k + 16 - 16) with k in Hu by lia. congruence. }
  split.
  { rewrite (handleRoutingRequest_new pick a s x pkx pky k x1); try done; cbn; lia. }
  split; [done|]. split; [done|]. rewrite Px, Py, Qx, Qy. cbn.
  split; [|split; [by rewrite list_lookup_alter_eq, Hq, <- Hkey|]].
  - rewrite list_lookup_alter_eq, lookup_app_r, Nat.sub_diag by lia. done.
  - by rewrite <- app_assoc.
Qed.

(** A second client that has asked for a first one, which has not asked yet. *)
Definition half_routed : TCPServer :=
  mkServer [mkConn (Some pkA) [] ∅ ∅ {[0 := false]} [] [] false true; one_route pkB pkA 20 0]
    {[pkA := 0%nat; pkB := 1%nat]} ∅.

Lemma routing_completes_witness :
  ∃ connid s' x' y', 16 ≤ connid ≤ 255 ∧
    handleRoutingRequest 0 0 (zb TCP_PACKET_ROUTING_REQUEST :: pkB) half_routed = (Ret (), s') ∧
    heap s' !! 0%nat = Some x' ∧ heap s' !! 1%nat = Some y' ∧
    pcis y' !! 0%nat = Some (mkPCI pkA 2 connid 20).
Proof.
  assert (srv_ok half_routed) as Hok.
  { split; cbn.
    - intros [|[|]] x E; try discriminate E; injection E as <-; [|apply one_route_ok; lia].
      split; cbn; intros k b H; try (by rewrite lookup_empty in H).
      apply lookup_singleton_Some in H as [<- _]. lia.
    - intros k c H. apply lookup_insert_Some in H as [[<- <-]|[_ H]]; [by eexists|].
      apply lookup_singleton_Some in H as [<- <-]. by eexists. }
  destruct (routing_completes 0 half_routed 0 1
    (mkConn (Some pkA) [] ∅ ∅ {[0 := false]} [] [] false true) (one_route pkB pkA 20 0)
    pkA pkB 0 (mkPCI pkA 2 0 20) Hok) as (connid & s' & x' & y' & H1 & _ & H2 & H3 & H4 & _ & H5 & _);
    try (vm_compute; reflexivity); try (vm_compute; discriminate); try (cbn; lia).
  exists connid, s', x', y'. split; [exact H1|]. split; [exact H2|]. split; [exact H3|].
  split; [exact H4|exact H5].
Defined.

(** ** Where the server trusts too much *)

(** Calls that leave the server's table alone. *)
Definition table_kept {A} (m : sm A) : Prop := ∀ s, Conns (snd (m s)) = Conns s.

Lemma table_kept_bind {A B} (m : sm A) (k : A → sm B) :
  table_kept m → (∀ a, table_kept (k a)) → table_kept (m ≫= k).
Proof.
  intros Hm Hk s. specialize (Hm s). unfold mbind, stm_bind.
  destruct (m s) as [[a|e|] s1]; cbn in *; [|done..]. by rewrite Hk.
Qed.

Lemma table_kept_send c d : table_kept (err_print (SendCtrlPacket c d)).
Proof.
  intros s. unfold err_print, SendCtrlPacket, mbind, stm_bind, get_conn, sm_act.
  destruct (heap s !! c) as [x|]; [|done].
  destruct (zlen d >? 2048); [done|]. destruct (bool_decide _); [done|]. by destruct (c_closed x).
Qed.

Lemma table_kept_get c : table_kept (get_conn c).
Proof. intros s. unfold get_conn, sm_act. by destruct (heap s !! c). Qed.

Lemma table_kept_kill_reset pk cs : table_kept (kill_reset pk cs).
Proof.
  induction cs as [|c cs IH]; [done|]. cbn [kill_reset].
  apply table_kept_bind; [apply table_kept_get|intros x].
  destruct (ConnInfos x !! pk) as [i|]; [|done].
  apply table_kept_bind.
  { apply table_kept_bind; [apply table_kept_get|done]. }
  intros p. apply table_kept_bind; [done|]. intros _. by apply table_kept_bind.
Qed.

Lemma table_kept_kill_notify ns : table_kept (kill_notify ns).
Proof.
  induction ns as [|[c i] ns IH]; [done|]. cbn [kill_notify].
  apply table_kept_bind; [apply table_kept_send|done].
Qed.

(** A connection that closes takes its key out of the server's table even if
    the entry belongs to another connection: closing a second connection of the
    same client, confirmed or not, makes the live one unreachable for routing. *)
Theorem close_evicts_live_connection s c1 c2 y pk :
  Conns s !! pk = Some c1 → heap s !! c2 = Some y → c_pk y = Some pk → c1 ≠ c2 →
  c_onClosed y = true →
  Conns (snd (doClose c2 s)) !! pk = None.
Proof.
  intros Ht Hy Hpk Hne Hc. unfold doClose, recovered.
  rewrite (stm_bind_ret _ _ _ _ _ (get_conn_ok _ _ _ Hy)), Hc.
  set (s1 := snd (onConnClosed c2 s)).
  assert (Conns s1 !! pk = None) as H1.
  { unfold s1, onConnClosed. erewrite stm_bind_ret by reflexivity.
    erewrite stm_bind_ret by (by apply (BinStr_ok _ _ y)).
    erewrite stm_bind_ret by reflexivity. unfold killAccepted.
    erewrite stm_bind_ret by (by apply (BinStr_ok _ _ y)).
    erewrite stm_bind_ret by reflexivity.
    rewrite (table_kept_bind _ _ (table_kept_kill_reset _ _) table_kept_kill_notify). cbn.
    apply lookup_delete_eq. }
  unfold mbind, stm_bind. fold s1. unfold s1 in *.
  destruct (onConnClosed c2 s) as [[[]|e|] s2]; cbn in *; [|done..].
  by destruct (c_closed y).
Qed.

(** A new connection whose handshake has named the key [pk]. *)
Definition identified (pk : bytes) : TCPSecureConn := set_pk (Some pk) NewTCPSecureConn.

Lemma close_evicts_live_connection_witness :
  Conns (snd (doClose 2 (mkServer (heap routed ++ [identified pkB]) (Conns routed) ∅))) !! pkB
    = None.
Proof.
  apply (close_evicts_live_connection
    (mkServer (heap routed ++ [identified pkB]) (Conns routed) ∅) 1 2 (identified pkB) pkB);
    try (vm_compute; reflexivity). discriminate.
Defined.

(** A connection that ends before its handshake is never closed: the callback
    panics on the missing key, [doClose] recovers and skips the rest, so that the
    socket and the queues stay open and only the handshake table forgets it. *)
Theorem abandoned_handshake_leaks s c x :
  heap s !! c = Some x → c_pk x = None → c_onClosed x = true →
  doClose c s = (Ret (), mkServer (heap s) (Conns s) (HSConns s ∖ {[c]})).
Proof.
  intros Hx Hk Hc. unfold doClose, recovered.
  rewrite (stm_bind_ret _ _ _ _ _ (get_conn_ok _ _ _ Hx)), Hc.
  erewrite stm_bind_panic; [done|]. unfold onConnClosed.
  erewrite stm_bind_ret by reflexivity. apply stm_bind_panic. unfold BinStr.
  erewrite stm_bind_ret by (by apply get_conn_ok). unfold stm_lift. by rewrite Hk.
Qed.

Lemma abandoned_handshake_leaks_witness :
  doClose 0 (snd (startHandshake empty_server)) =
    (Ret (), mkServer [NewTCPSecureConn] ∅ (({[0%nat]} ∪ ∅) ∖ {[0%nat]})).
Proof.
  apply (abandoned_handshake_leaks (snd (startHandshake empty_server)) 0 NewTCPSecureConn);
    reflexivity.
Defined.

(** Any confirmed client can crash the server: a disconnect notification for an
    id it never got panics ([gopp.Assert]), as do an empty packet, a
    notification without an id and a routing request shorter than a key. *)
Theorem malformed_packet_panics pick s c x b :
  heap s !! c = Some x → ConnInfos2 x !! bz b = None →
  fst (handle_packet pick c [zb TCP_PACKET_DISCONNECT_NOTIFICATION; b] s) = Panic ∧
  fst (handle_packet pick c [] s) = Panic ∧
  fst (handle_packet pick c [zb TCP_PACKET_DISCONNECT_NOTIFICATION] s) = Panic ∧
  (∀ key, (length key < 32)%nat →
     fst (handle_packet pick c (zb TCP_PACKET_ROUTING_REQUEST :: key) s) = Panic).
Proof.
  intros Hx Hb. split_and!; [|done|done|].
  - unfold handle_packet. erewrite stm_bind_ret by reflexivity. cbv zeta.
    change (bz (zb TCP_PACKET_DISCONNECT_NOTIFICATION)) with 3. cbn [Z.eqb Z.geb Z.compare Pos.eqb
      TCP_PACKET_PING TCP_PACKET_ROUTING_REQUEST TCP_PACKET_DISCONNECT_NOTIFICATION].
    unfold HandleDisconnectNotification. erewrite stm_bind_ret by reflexivity.
    rewrite (stm_bind_ret _ _ _ _ _ (get_conn_ok _ _ _ Hx)), Hb. done.
  - intros key Hk. unfold handle_packet. erewrite stm_bind_ret by reflexivity. cbv zeta.
    change (bz (zb TCP_PACKET_ROUTING_REQUEST)) with 0. cbn [Z.eqb
      TCP_PACKET_PING TCP_PACKET_ROUTING_REQUEST].
    unfold handleRoutingRequest. erewrite stm_bind_panic; [done|].
    unfold stm_lift, requested_key, slice. rewrite bool_decide_false; [done|].
    unfold PUBLIC_KEY_SIZE. cbn [length]. lia.
Qed.

Lemma malformed_packet_panics_witness :
  fst (handle_packet 0 0 [zb TCP_PACKET_DISCONNECT_NOTIFICATION; x63] routed) = Panic.
Proof.
  apply (malformed_packet_panics 0 routed 0 (one_route pkA pkB 16 20) x63);
    vm_compute; reflexivity.
Defined.

(** ** A stale route after a reconnect *)

Inductive event : Type :=
| EvAccept
| EvHandshake (c : connptr) (pk : bytes)
| EvConfirm (c : connptr)
| EvPacket (pick : nat) (c : connptr) (pkt : bytes).

Definition exec (e : event) (s : TCPServer) : TCPServer :=
  match e with
  | EvAccept => snd (startHandshake s)
  | EvHandshake c pk => snd (set_Pubkey c pk s)
  | EvConfirm c => snd (onConnConfirmed c s)
  | EvPacket pick c pkt => snd (handle_packet pick c pkt s)
  end.

Lemma reachable_exec es s : reachable s → reachable (foldl (λ s e, exec e s) s es).
Proof.
  revert s. induction es as [|e es IH]; intros s Hs; [done|]. cbn [foldl]. apply IH.
  eapply reachable_step; [exact Hs|]. destruct e; constructor.
Qed.

Definition request (pk : bytes) : bytes := zb TCP_PACKET_ROUTING_REQUEST :: pk.

(** A and B connect to each other; B's client reconnects and asks for C. *)
Definition reconnected : TCPServer :=
  foldl (λ s e, exec e s) empty_server
    [EvAccept; EvHandshake 0 pkA; EvConfirm 0; EvAccept; EvHandshake 1 pkB; EvConfirm 1;
     EvPacket 0 0 (request pkB); EvPacket 0 1 (request pkA);
     EvAccept; EvHandshake 2 pkB; EvConfirm 2; EvPacket 0 2 (request pkC)].

(** The only id A has, and the records of B's new connection. *)
Definition first_id (c : connptr) (s : TCPServer) : Z :=
  match heap s !! c with
  | Some x => match pcis x with p :: _ => Connid p | [] => 0 end
  | None => 0
  end.

Definition last_ctrl (c : connptr) (s : TCPServer) : option bytes :=
  x ← heap s !! c; list.last (cwctrlq x).

(** Otherid outlives the connection it names.  In a reachable state — A and B
    routed, then B reconnected and asked for C — the disconnect notification
    that A sends for its route to B makes the server tell B's new connection
    that its route to C, a third client, was disconnected. *)
Theorem stale_otherid_hits_third_party :
  reachable reconnected ∧
  last_ctrl 2 (snd (handle_packet 0 0
      [zb TCP_PACKET_DISCONNECT_NOTIFICATION; zb (first_id 0 reconnected)] reconnected)) =
    Some [zb TCP_PACKET_DISCONNECT_NOTIFICATION; zb (first_id 2 reconnected)] ∧
  option_map (map Pubkey) (option_map pcis (heap reconnected !! 2%nat)) = Some [pkC].
Proof.
  split; [apply reachable_exec, reachable_init|].
  split; vm_compute; reflexivity.
Qed.
