(* ===== verification/RelayRoute.v ===== *)
(** * Two clients and the relay between them

    The client of TcpClient.v (go-tox-tcpclient) against the server of
    TcpServer.v (mintox): the plaintexts that one end queues are given to the
    code of the other end.  How plaintexts cross the connection is the subject
    of TcpPacket.v, TcpClient.v and TcpServerConn.v. *)

From S2P Require Import Prelude Nonce GoIO Box TcpPacket TcpClient TcpServer.
Local Open Scope Z_scope.

Section Route.
Context `{NaclBox}.








End Route.

(** ** Properties *)







