(* ===== verification/PriorityList.v ===== *)
(** * Unique priority lists (mintox/priority_list.go)

    [PriorityList] keeps at most [max] items, best first, with a map from keys
    to items beside the list.  Items are references of an interface type with
    [Compare] and [Key] (class [PLItem]).  The theorems: [Put] never hits its
    internal panic and preserves the invariant; the list stays sorted and keeps
    the best items; [Remove] and [SelectRandn] are specified; and where the map
    and the list come apart. *)

From Stdlib Require Import Sorted.
From S2P Require Import Prelude.
Local Open Scope Z_scope.

(** The interface [PLItem]: [I] are the references. *)
Class PLItem (I : Type) := {
  Compare : I → I → Z;
  Key : I → bytes
}.

Section PriorityList.
Context {I : Type} `{PLItem I}.

Record PriorityList := mkPL {
  max : nat;
  keys : gmap bytes I;
  lst : list I
}.

Definition NewPriorityList (max : nat) : PriorityList := mkPL max ∅ [].

Definition Len (pl : PriorityList) : nat := length (lst pl).

(** The insert position: before the first element the item is not worse than. *)
Fixpoint insert_pos (item : I) (l : list I) : nat :=
  match l with
  | [] => O
  | x :: l' => if Compare item x >=? 0 then O else S (insert_pos item l')
  end.

Fixpoint replaceItem_list (item : I) (l : list I) : list I :=
  match l with
  | [] => []
  | x :: l' =>
      if bool_decide (Key x = Key item) then item :: l'
      else x :: replaceItem_list item l'
  end.

Definition replaceItem (item : I) (pl : PriorityList) : PriorityList :=
  mkPL (max pl) (keys pl) (replaceItem_list item (lst pl)).

(** [for _, todrop := range lst[max:] { delete(keys, todrop.Key()) }] *)
Definition drop_keys (l : list I) (m : gmap bytes I) : gmap bytes I :=
  foldr (λ x m, delete (Key x) m) m l.

(** [Put]: the result [Panic] is its [log.Panicf]. *)
Definition Put (item : I) (pl : PriorityList) : outcome unit (bool * PriorityList) :=
  match keys pl !! Key item with
  | Some _ => Ret (true, replaceItem item pl)
  | None =>
      let i := insert_pos item (lst pl) in
      let l := take i (lst pl) ++ item :: drop i (lst pl) in
      let m := <[Key item := item]> (keys pl) in
      let pl' := if bool_decide (max pl < length l)%nat
                 then mkPL (max pl) (drop_keys (drop (max pl) l) m) (take (max pl) l)
                 else mkPL (max pl) m l in
      if bool_decide (length (lst pl') = size (keys pl')) then Ret (true, pl') else Panic
  end.

(** [updateItem]: the element whose [Update] is called with the item. *)
Definition updateItem (item : I) (pl : PriorityList) : option I :=
  List.find (λ x, bool_decide (Key x = Key item)) (lst pl).

Definition Head (n : Z) (pl : PriorityList) : list I :=
  if n <=? 0 then [] else take (Z.to_nat n) (lst pl).

Definition First (pl : PriorityList) : option I := head (lst pl).
Definition Last (pl : PriorityList) : option I := list.last (lst pl).

Fixpoint key_pos (item : I) (l : list I) : nat :=
  match l with
  | [] => O
  | x :: l' => if bool_decide (Key x = Key item) then O else S (key_pos item l')
  end.

Definition Remove (item : I) (pl : PriorityList) : outcome unit (bool * PriorityList) :=
  match keys pl !! Key item with
  | None => Ret (false, pl)
  | Some _ =>
      let i := key_pos item (lst pl) in
      if bool_decide (i + 1 ≤ length (lst pl))%nat
      then Ret (true, mkPL (max pl) (delete (Key item) (keys pl))
                        (take i (lst pl) ++ drop (i + 1) (lst pl)))
      else Panic
  end.

(** [EachSnap] and [EachInline] visit these, in order. *)
Definition Each (pl : PriorityList) : list I := lst pl.

Definition Select (f : I → bool) (pl : PriorityList) : list I := List.filter f (lst pl).

(** [rand.Intn(n)] on a raw draw. *)
Definition Intn (draw n : nat) : nat := (draw mod n)%nat.

(** The loop over [lst[k:]]: [x] counts from zero, [draws] are the raw draws. *)
Fixpoint SelectRandn_loop (k x : nat) (slts rest : list I) (draws : list nat) : list I :=
  match rest with
  | [] => slts
  | item :: rest' =>
      let j := Intn (List.hd O draws) (x + k) in
      let slts' := if bool_decide (j < k)%nat then <[j := item]> slts else slts in
      SelectRandn_loop k (S x) slts' rest' (List.tl draws)
  end.

Definition SelectRandn (k : Z) (draws : list nat) (pl : PriorityList) : list I :=
  if k <=? 0 then []
  else
    let k := Z.to_nat k in
    let slts := take k (lst pl) in
    if bool_decide (length slts < k)%nat then slts
    else SelectRandn_loop k 0 slts (drop k (lst pl)) draws.

Definition GetByKey (key : bytes) (pl : PriorityList) : option I := keys pl !! key.

(** ** Invariant *)

(** The keys of the list are distinct and are the keys of the map. *)
Record pl_ok (pl : PriorityList) : Prop := {
  ok_nodup : NoDup (Key <$> lst pl);
  ok_keys : ∀ k, is_Some (keys pl !! k) ↔ k ∈ Key <$> lst pl;
  ok_bound : (length (lst pl) ≤ max pl)%nat
}.

Lemma pl_size pl :
  NoDup (Key <$> lst pl) → (∀ k, is_Some (keys pl !! k) ↔ k ∈ Key <$> lst pl) →
  size (keys pl) = length (lst pl).
Proof.
  intros Hn Hk. rewrite <- size_dom.
  assert (dom (keys pl) = list_to_set (Key <$> lst pl)) as ->.
  { apply set_eq. intros k. by rewrite elem_of_dom, elem_of_list_to_set. }
  rewrite size_list_to_set by done. by rewrite length_fmap.
Qed.

Lemma drop_keys_lookup l m k :
  drop_keys l m !! k = if bool_decide (k ∈ Key <$> l) then None else m !! k.
Proof.
  induction l as [|x l IH]; cbn [drop_keys foldr fmap list_fmap].
  { by rewrite bool_decide_false by (apply not_elem_of_nil). }
  fold (drop_keys l m). destruct (decide (k = Key x)) as [->|Hne].
  - rewrite lookup_delete_eq, bool_decide_true by (by left). done.
  - rewrite lookup_delete_ne, IH by done.
    case_bool_decide as E.
    + rewrite bool_decide_true by (by right). done.
    + rewrite bool_decide_false; [done|]. intros Hi. apply elem_of_cons in Hi as [|]; done.
Qed.

Lemma keys_replace item l : Key <$> replaceItem_list item l = Key <$> l.
Proof.
  induction l as [|x l IH]; [done|]. cbn. case_bool_decide as E; cbn; congruence.
Qed.

(** [Put] without an entry for the key. *)
Definition inserted (item : I) (l : list I) : list I :=
  take (insert_pos item l) l ++ item :: drop (insert_pos item l) l.

Lemma inserted_perm item l : inserted item l ≡ₚ item :: l.
Proof.
  unfold inserted. by rewrite <- Permutation_middle, take_drop.
Qed.

Lemma Put_new item pl :
  pl_ok pl → keys pl !! Key item = None →
  ∃ pl', Put item pl = Ret (true, pl') ∧ pl_ok pl' ∧ max pl' = max pl ∧
    lst pl' = take (max pl) (inserted item (lst pl)).
Proof.
  intros [Hn Hk Hb] He. set (l := inserted item (lst pl)).
  assert (NoDup (Key <$> l)) as Hnl.
  { unfold l. rewrite inserted_perm. cbn. apply list.NoDup_cons. split; [|done].
    rewrite <- Hk, He. by intros [? ?]. }
  assert (∀ k, is_Some (<[Key item := item]> (keys pl) !! k) ↔ k ∈ Key <$> l) as Hkl.
  { intros k. unfold l. rewrite inserted_perm. cbn. rewrite elem_of_cons.
    destruct (decide (k = Key item)) as [->|Hne].
    - rewrite lookup_insert_eq. split; [by left|by eexists].
    - rewrite lookup_insert_ne by done. rewrite Hk. tauto. }
  set (pl' := mkPL (max pl)
    (drop_keys (drop (max pl) l) (<[Key item := item]> (keys pl))) (take (max pl) l)).
  assert (pl_ok pl') as Hok.
  { split; cbn.
    - rewrite <- (take_drop (max pl) l), fmap_app in Hnl. by apply list.NoDup_app in Hnl as (? & _ & _).
    - intros k. rewrite drop_keys_lookup.
      rewrite <- (take_drop (max pl) l), fmap_app in Hnl. apply list.NoDup_app in Hnl as (_ & Hd & _).
      specialize (Hkl k). rewrite <- (take_drop (max pl) l), fmap_app, elem_of_app in Hkl.
      case_bool_decide as E.
      + split; [by intros [? ?]|]. intros Hi. by destruct (Hd k Hi).
      + rewrite Hkl. tauto.
    - rewrite length_take. lia. }
  exists pl'. split; [|done]. unfold Put. rewrite He. fold (inserted item (lst pl)). fold l.
  cbv zeta. destruct (bool_decide (max pl < length l)%nat) eqn:Hlen;
    [|apply bool_decide_eq_false in Hlen].
  - fold pl'. rewrite bool_decide_true; [done|]. symmetry. apply pl_size; apply Hok.
  - assert (mkPL (max pl) (<[Key item := item]> (keys pl)) l = pl') as ->.
    { unfold pl'. rewrite (take_ge l), (drop_ge l) by lia. done. }
    rewrite bool_decide_true; [done|]. symmetry. apply pl_size; apply Hok.
Qed.

Lemma Put_ok item pl :
  pl_ok pl → ∃ pl', Put item pl = Ret (true, pl') ∧ pl_ok pl' ∧ max pl' = max pl.
Proof.
  intros Hok. destruct (keys pl !! Key item) as [old|] eqn:E.
  - exists (replaceItem item pl). unfold Put. rewrite E. split; [done|]. split; [|done].
    destruct Hok as [Hn Hk Hb].
    split; cbn [lst keys max replaceItem]; rewrite ?keys_replace; [done|done|].
    rewrite <- (length_fmap Key), keys_replace, length_fmap. done.
  - destruct (Put_new item pl Hok E) as (pl' & ? & ? & ? & _). eauto.
Qed.
End PriorityList.

Arguments PriorityList I : clear implicits.

(** ** Order *)

(** [Compare] on the items satisfying [P] is a total preorder: what [Put] needs
    of an implementation of the interface. *)
Class PLItemLaws {I} (J : PLItem I) (P : I → Prop) := {
  compare_total a b : P a → P b → Compare a b < 0 → Compare b a >= 0;
  compare_trans a b c : P a → P b → P c →
    Compare a b >= 0 → Compare b c >= 0 → Compare a c >= 0
}.

Section Order.
Context {I : Type} {J : PLItem I} {P : I → Prop} `{!PLItemLaws J P}.

(** [a] is at least as good as [b]. *)
Definition better (a b : I) : Prop := Compare a b >= 0.

(** All items are comparable and the list is ordered, best first. *)
Definition pl_sorted (pl : PriorityList I) : Prop :=
  Forall P (lst pl) ∧ StronglySorted better (lst pl).

Lemma inserted_cons item x l :
  inserted item (x :: l) = if Compare item x >=? 0 then item :: x :: l else x :: inserted item l.
Proof. unfold inserted. cbn [insert_pos]. by destruct (Compare item x >=? 0). Qed.

Lemma inserted_sorted item l :
  P item → Forall P l → StronglySorted better l → StronglySorted better (inserted item l).
Proof.
  intros Hi Hp. induction Hp as [|x l Hx Hl IH]; intros Hs; [repeat constructor|].
  apply StronglySorted_inv in Hs as [Hs Hf]. rewrite inserted_cons.
  destruct (Compare item x >=? 0) eqn:E; zbool.
  - constructor; [by constructor|]. constructor; [red; lia|].
    apply list.Forall_forall. intros y Hy. apply (compare_trans item x y); try done.
    + by eapply list.Forall_forall in Hl.
    + lia.
    + by eapply list.Forall_forall in Hf.
  - constructor; [by apply IH|]. rewrite inserted_perm. constructor; [|done].
    apply compare_total; done || lia.
Qed.

Lemma sorted_take n (l : list I) :
  StronglySorted better l →
  StronglySorted better (take n l) ∧
  ∀ a d, a ∈ take n l → d ∈ drop n l → better a d.
Proof.
  intros Hs. revert n. induction Hs as [|x l Hs IH Hf]; intros n.
  { rewrite take_nil. split; [constructor|]. intros a d Ha. by apply not_elem_of_nil in Ha. }
  destruct n as [|n]; cbn.
  { split; [constructor|]. intros a d Ha. by apply not_elem_of_nil in Ha. }
  destruct (IH n) as [H1 H2]. split.
  - constructor; [done|]. by apply Forall_take.
  - intros a d Ha Hd. apply elem_of_cons in Ha as [->|Ha]; [|by apply H2].
    eapply list.Forall_forall in Hf; [exact Hf|]. rewrite <- (take_drop n l).
    apply elem_of_app. by right.
Qed.
End Order.

(** ** Ranks *)

(** [Put] keeps a list ordered by a rank when the new item's own comparisons
    agree with it, whatever the comparisons of the others. *)
Section Rank.
Context {I : Type} {J : PLItem I} (f : I → Z).

Lemma inserted_ranked item (l : list I) :
  (∀ x, x ∈ l → Compare item x >= 0 ↔ f item ≤ f x) →
  StronglySorted Z.le (f <$> l) → StronglySorted Z.le (f <$> inserted item l).
Proof.
  induction l as [|x l IH]; intros Hc Hs; [repeat constructor|].
  rewrite fmap_cons in Hs. apply StronglySorted_inv in Hs as [Hs Hf].
  pose proof (Hc x ltac:(by left)) as Hx.
  rewrite inserted_cons. destruct (Compare item x >=? 0) eqn:E; zbool; rewrite !fmap_cons.
  - constructor; [by constructor|]. assert (f item ≤ f x) by (apply Hx; lia).
    constructor; [done|]. eapply Forall_impl; [|exact Hf]. intros y Hy. lia.
  - constructor; [apply IH; [|done]; intros y Hy; apply Hc; by right|].
    rewrite inserted_perm, fmap_cons. constructor; [lia|done].
Qed.

Lemma replaced_ranked item (l : list I) :
  (∀ x, x ∈ l → Key x = Key item → f x = f item) → f <$> replaceItem_list item l = f <$> l.
Proof.
  induction l as [|x l IH]; intros Hk; [done|]. cbn [replaceItem_list].
  case_bool_decide as E; rewrite !fmap_cons.
  - by rewrite (Hk x) by (done || by left).
  - rewrite IH; [done|]. intros y Hy. apply Hk. by right.
Qed.

Lemma elem_of_replaced item (l : list I) x :
  x ∈ replaceItem_list item l → x = item ∨ x ∈ l.
Proof.
  induction l as [|y l IH]; cbn [replaceItem_list]; [by intros ?%not_elem_of_nil|].
  case_bool_decide; rewrite !elem_of_cons; [tauto|]. intros [->|Hx]; [tauto|].
  destruct (IH Hx); tauto.
Qed.

Lemma sorted_fmap_take n (l : list I) :
  StronglySorted Z.le (f <$> l) → StronglySorted Z.le (f <$> take n l).
Proof.
  revert n. induction l as [|x l IH]; intros [|n] Hs; try constructor.
  - rewrite fmap_cons in Hs. apply StronglySorted_inv in Hs as [Hs _]. by apply IH.
  - rewrite fmap_cons in Hs. apply StronglySorted_inv in Hs as [_ Hf].
    change (Forall (Z.le (f x)) (f <$> take n l)). rewrite fmap_take. by apply Forall_take.
Qed.

Lemma Put_ranked item (pl : PriorityList I) :
  pl_ok pl → StronglySorted Z.le (f <$> lst pl) →
  (∀ x, x ∈ lst pl → Key x ≠ Key item → Compare item x >= 0 ↔ f item ≤ f x) →
  (∀ x, x ∈ lst pl → Key x = Key item → f x = f item) →
  ∃ pl', Put item pl = Ret (true, pl') ∧ pl_ok pl' ∧ max pl' = max pl ∧
    StronglySorted Z.le (f <$> lst pl') ∧ ∀ x, x ∈ lst pl' → x = item ∨ x ∈ lst pl.
Proof.
  intros Hok Hs Hc Hk. destruct (keys pl !! Key item) as [old|] eqn:E.
  - destruct (Put_ok item pl Hok) as (pl' & E' & Hok' & Hm). exists pl'.
    split; [done|]. split; [done|]. split; [done|].
    unfold Put in E'. rewrite E in E'. apply (inj Ret) in E'. injection E' as <-. cbn [lst replaceItem].
    rewrite replaced_ranked by done. split; [done|]. intros x. apply elem_of_replaced.
  - destruct (Put_new item pl Hok E) as (pl' & E' & Hok' & Hm & Hl). exists pl'.
    split; [done|]. split; [done|]. split; [done|]. rewrite Hl. split.
    + apply sorted_fmap_take, inserted_ranked; [|done]. intros x Hx. apply Hc; [done|].
      intros Ek. apply eq_None_not_Some in E. apply E, (ok_keys _ Hok). rewrite <- Ek.
      by apply list_elem_of_fmap_2.
    + intros x Hx. assert (x ∈ item :: lst pl) as Hx'.
      { rewrite <- (inserted_perm item (lst pl)), <- (take_drop (max pl) (inserted item (lst pl))).
        apply elem_of_app. by left. }
      by apply elem_of_cons in Hx'.
Qed.
End Rank.

(** ** Properties *)

(** [Put] never reaches its internal panic and preserves the invariant: the
    keys of the list are distinct, they are exactly the keys of the map, and the
    list is never longer than [max].  A new item is inserted in order and only
    the worst are dropped: the list stays sorted and everything kept is at
    least as good as everything dropped, which happens only when it is full. *)
Theorem Put_keeps_best {I} {J : PLItem I} {P : I → Prop} `{!PLItemLaws J P} item
    (pl : PriorityList I) :
  pl_ok pl → pl_sorted (P := P) pl → P item →
  ∃ pl', Put item pl = Ret (true, pl') ∧ pl_ok pl' ∧ max pl' = max pl ∧
    (keys pl !! Key item = None →
       pl_sorted (P := P) pl' ∧
       ∃ dropped, lst pl' ++ dropped ≡ₚ item :: lst pl ∧
         (∀ a d, a ∈ lst pl' → d ∈ dropped → better a d) ∧
         (dropped ≠ [] → length (lst pl') = max pl)).
Proof.
  intros Hok [HP Hs] Hi. destruct (keys pl !! Key item) as [old|] eqn:E.
  - destruct (Put_ok item pl Hok) as (pl' & ? & ? & ?). by exists pl'.
  - destruct (Put_new item pl Hok E) as (pl' & E' & Hok' & Hm & Hl).
    exists pl'. split; [done|]. split; [done|]. split; [done|]. intros _.
    set (l := inserted item (lst pl)) in *.
    destruct (sorted_take (max pl) l) as [H1 H2]; [by apply (inserted_sorted (P := P))|].
    rewrite <- Hl in H1, H2. split; [split; [|done]|].
    + rewrite Hl. apply Forall_take. unfold l. rewrite inserted_perm. by constructor.
    + exists (drop (max pl) l). split; [rewrite Hl, take_drop; apply inserted_perm|].
      split; [done|]. intros Hd. rewrite Hl, length_take.
      destruct (Nat.le_gt_cases (length l) (max pl)); [|lia].
      by rewrite drop_ge in Hd by lia.
Qed.

(** Numbers as items: smaller is better, the number is its own key. *)
#[export] Instance nat_item : PLItem nat := {
  Compare a b := Z.of_nat b - Z.of_nat a;
  Key a := be_bytes 8 (Z.of_nat a)
}.

#[export] Instance nat_item_laws : PLItemLaws nat_item (λ _, True).
Proof. split; cbn; lia. Qed.

(** The list after some [Put]s. *)
Definition puts {I} `{PLItem I} (pl : PriorityList I) (items : list I) : PriorityList I :=
  foldl (λ pl x, match Put x pl with Ret (_, pl') => pl' | _ => pl end) pl items.

Lemma puts_ok {I} `{PLItem I} (pl : PriorityList I) items : pl_ok pl → pl_ok (puts pl items).
Proof.
  revert pl. induction items as [|x items IH]; intros pl Hok; [done|]. cbn [puts foldl].
  destruct (Put_ok x pl Hok) as (pl' & E & Hok' & _). rewrite E. by apply IH.
Qed.

Lemma new_pl_ok {I} `{PLItem I} n : pl_ok (NewPriorityList (I := I) n).
Proof.
  split; cbn; [constructor| |lia]. intros k. rewrite lookup_empty.
  split; [by intros [? ?]|]. intros Hk. by apply not_elem_of_nil in Hk.
Qed.

(** ** Many insertions *)

Section Puts.
Context {I : Type} {J : PLItem I} {P : I → Prop} `{!PLItemLaws J P}.

(** [pl] holds the best of the items [offered] so far. *)
Record best_of (offered : list I) (pl : PriorityList I) (dropped : list I) : Prop := {
  bo_ok : pl_ok pl;
  bo_sorted : pl_sorted (P := P) pl;
  bo_all : lst pl ++ dropped ≡ₚ offered;
  bo_best : ∀ a d, a ∈ lst pl → d ∈ dropped → better a d;
  bo_full : dropped ≠ [] → length (lst pl) = max pl
}.

Lemma best_of_Put offered pl dropped x :
  best_of offered pl dropped → Forall P offered → P x → Key x ∉ Key <$> offered →
  ∃ pl' dropped', Put x pl = Ret (true, pl') ∧ max pl' = max pl ∧
    best_of (x :: offered) pl' dropped'.
Proof.
  intros [Hok [HP Hs] Hall Hbest Hfull] HPo Hx Hnew.
  assert (Key x ∉ Key <$> lst pl) as Hnl.
  { intros Hi. apply Hnew. rewrite <- Hall, fmap_app, elem_of_app. by left. }
  assert (keys pl !! Key x = None) as He.
  { apply eq_None_not_Some. by rewrite (ok_keys _ Hok). }
  destruct (Put_new x pl Hok He) as (pl' & E & Hok' & Hm & Hl).
  set (l := inserted x (lst pl)) in *.
  assert (l ≡ₚ x :: lst pl) as Hp by apply inserted_perm.
  destruct (sorted_take (max pl) l) as [H1 H2]; [by apply (inserted_sorted (P := P))|].
  exists pl', (drop (max pl) l ++ dropped). split; [done|]. split; [done|]. split.
  - done.
  - split; rewrite Hl; [|done]. apply Forall_take. rewrite Hp. by constructor.
  - rewrite Hl, app_assoc, take_drop, Hp. cbn. by rewrite Hall.
  - rewrite Hl. intros a d Ha Hd. apply elem_of_app in Hd as [Hd|Hd]; [by apply H2|].
    assert (length (lst pl) = max pl) as Hlen by (apply Hfull; destruct dropped; [by apply not_elem_of_nil in Hd|done]).
    assert (a ∈ x :: lst pl) as Ha'.
    { rewrite <- Hp, <- (take_drop (max pl) l). apply elem_of_app. by left. }
    apply elem_of_cons in Ha' as [->|Ha']; [|by apply Hbest].
    assert (length (drop (max pl) l) = 1%nat) as Hd1.
    { rewrite length_drop, Hp. cbn. lia. }
    destruct (drop (max pl) l) as [|y [|? ?]] eqn:Ey; try done.
    assert (y ∈ lst pl) as Hy.
    { assert (take (max pl) l ++ [y] ≡ₚ x :: lst pl) as Hp2 by (by rewrite <- Ey, take_drop).
      apply list_elem_of_split in Ha as (l1 & l2 & Ha). rewrite Ha in Hp2.
      rewrite <- app_assoc in Hp2. cbn in Hp2. rewrite <- Permutation_middle in Hp2.
      apply Permutation_cons_inv in Hp2. rewrite <- Hp2, !elem_of_app. right. right. by left. }
    assert (∀ z, z ∈ offered → P z) as HPf by (by apply list.Forall_forall).
    apply (compare_trans x y d); [done|..].
    + apply HPf. rewrite <- Hall. apply elem_of_app. by left.
    + apply HPf. rewrite <- Hall. apply elem_of_app. by right.
    + apply H2; [done|by left].
    + by apply Hbest.
  - intros Hd. rewrite Hl, Hm, length_take. rewrite Hp. cbn.
    destruct dropped; [|rewrite Hfull by done; lia].
    destruct (Nat.le_gt_cases (length l) (max pl)) as [Hle|Hgt].
    + by rewrite drop_ge in Hd by lia.
    + rewrite Hp in Hgt. cbn in Hgt. lia.
Qed.
End Puts.

Lemma best_of_puts {I} {J : PLItem I} {P : I → Prop} `{!PLItemLaws J P} items :
  ∀ offered (pl : PriorityList I) dropped,
  best_of (P := P) offered pl dropped → Forall P (offered ++ items) →
  NoDup (Key <$> offered ++ items) →
  ∃ dropped', best_of (P := P) (offered ++ items) (puts pl items) dropped' ∧
    max (puts pl items) = max pl.
Proof.
  induction items as [|x items IH]; intros offered pl dropped Hb HP Hn.
  { rewrite app_nil_r. by exists dropped. }
  apply Forall_app in HP as HP'. destruct HP' as [HPo HPx]. apply Forall_inv in HPx.
  assert (Key x ∉ Key <$> offered) as Hx.
  { rewrite fmap_app in Hn. apply list.NoDup_app in Hn as (_ & Hd & _).
    intros Hi. apply (Hd _ Hi). rewrite fmap_cons. by left. }
  destruct (best_of_Put offered pl dropped x Hb HPo HPx Hx) as (pl' & d' & E & Hm & Hb').
  cbn [puts foldl]. rewrite E. fold (puts pl' items).
  destruct (IH (x :: offered) pl' d' Hb') as (d'' & Hb'' & Hm'').
  - cbn. by rewrite (Permutation_middle offered items x).
  - cbn [app]. by rewrite (Permutation_middle offered items x).
  - exists d''. rewrite Hm'', Hm. split; [|done].
    destruct Hb''. split; try done. rewrite bo_all0. cbn. by rewrite Permutation_middle.
Qed.

Lemma best_of_new {I} {J : PLItem I} {P : I → Prop} n :
  best_of (P := P) [] (NewPriorityList (I := I) n) [].
Proof.
  split; [apply new_pl_ok|by split; constructor|done| |done].
  intros a d Ha. by apply not_elem_of_nil in Ha.
Qed.

Definition full_list : PriorityList nat := puts (NewPriorityList 2) [7%nat; 3%nat].

Lemma Put_keeps_best_witness :
  ∃ pl', Put 5%nat full_list = Ret (true, pl') ∧ pl_ok pl' ∧ lst pl' = [3%nat; 5%nat].
Proof.
  destruct (Put_keeps_best (P := λ _, True) 5%nat full_list) as (pl' & E & Hok & _).
  - apply puts_ok, new_pl_ok.
  - split; [by repeat constructor|]. vm_compute lst.
    repeat constructor; unfold better; cbn; lia.
  - exact I.
  - exists pl'. split; [exact E|]. split; [exact Hok|].
    vm_compute in E. injection E as <-. reflexivity.
Defined.

Section Removal.
Context {I : Type} `{PLItem I} (item : I).

Definition others (l : list I) : list I := List.filter (λ x, bool_decide (Key x ≠ Key item)) l.

Lemma others_cons x l :
  others (x :: l) = if bool_decide (Key x ≠ Key item) then x :: others l else others l.
Proof. done. Qed.

Lemma elem_of_others l k : k ∈ Key <$> others l ↔ k ≠ Key item ∧ k ∈ Key <$> l.
Proof.
  induction l as [|x l IH].
  { cbn. split; [|tauto]. intros Hk. by apply not_elem_of_nil in Hk. }
  rewrite others_cons. case_bool_decide as E; rewrite ?fmap_cons, !elem_of_cons, IH.
  - split; [intros [->|]; tauto|tauto].
  - split; [tauto|]. intros [Hk [->|]]; [by destruct E|tauto].
Qed.

Lemma NoDup_others l : NoDup (Key <$> l) → NoDup (Key <$> others l).
Proof.
  induction l as [|x l IH]; [done|]. rewrite fmap_cons, others_cons.
  intros Hn. apply list.NoDup_cons in Hn as [Hx Hn].
  case_bool_decide as E; [|by apply IH]. rewrite fmap_cons. apply list.NoDup_cons. split; [|by apply IH].
  rewrite elem_of_others. tauto.
Qed.

Lemma others_absent l : Key item ∉ Key <$> l → others l = l.
Proof.
  induction l as [|x l IH]; [done|]. rewrite fmap_cons, others_cons, not_elem_of_cons.
  intros [Hx Hl]. rewrite bool_decide_true by congruence. by rewrite IH.
Qed.

Lemma key_pos_others l :
  Key item ∈ Key <$> l → NoDup (Key <$> l) →
  (key_pos item l < length l)%nat ∧
  take (key_pos item l) l ++ drop (key_pos item l + 1) l = others l.
Proof.
  induction l as [|x l IH]; intros Hin Hn; [by apply not_elem_of_nil in Hin|].
  rewrite fmap_cons in Hin, Hn. rewrite others_cons. cbn [key_pos].
  apply list.NoDup_cons in Hn as [Hx Hn]. destruct (decide (Key x = Key item)) as [E|E].
  - rewrite (bool_decide_true (Key x = Key item)), (bool_decide_false (Key x ≠ Key item)) by tauto.
    split; [cbn; lia|]. cbn. symmetry. apply others_absent. by rewrite <- E.
  - rewrite (bool_decide_false (Key x = Key item)), (bool_decide_true (Key x ≠ Key item)) by done.
    apply elem_of_cons in Hin as [Hin|Hin]; [congruence|].
    destruct (IH Hin Hn) as [H1 H2]. split; [cbn; lia|]. cbn. by rewrite H2.
Qed.
End Removal.

(** [Remove] answers whether the key was known, removes exactly the item of
    that key and keeps the order of the others; it never panics. *)
Theorem Remove_behaviour {I} `{PLItem I} item (pl : PriorityList I) :
  pl_ok pl →
  ∃ pl', Remove item pl = Ret (bool_decide (Key item ∈ Key <$> lst pl), pl') ∧ pl_ok pl' ∧
    lst pl' = others item (lst pl).
Proof.
  intros Hok. destruct (keys pl !! Key item) as [old|] eqn:E; unfold Remove; rewrite E.
  - assert (Key item ∈ Key <$> lst pl) as Hin by (apply (ok_keys _ Hok); by eexists).
    rewrite (bool_decide_true (_ ∈ _)) by done.
    destruct (key_pos_others item (lst pl) Hin (ok_nodup _ Hok)) as [Hlt Hd].
    rewrite bool_decide_true by lia. eexists. split; [done|]. split; [|exact Hd].
    destruct Hok as [Hn Hk Hb]. split; cbn [lst keys max]; rewrite Hd.
    + by apply NoDup_others.
    + intros k. rewrite elem_of_others, <- Hk.
      destruct (decide (k = Key item)) as [->|Hne].
      * rewrite lookup_delete_eq. split; [by intros [? ?]|by intros [? _]].
      * rewrite lookup_delete_ne by done. tauto.
    + etransitivity; [apply List.filter_length_le|done].
  - assert (Key item ∉ Key <$> lst pl) as Hin.
    { rewrite <- (ok_keys _ Hok), E. by intros [? ?]. }
    rewrite bool_decide_false by done. exists pl. split; [done|]. split; [done|].
    symmetry. by apply others_absent.
Qed.

Lemma Remove_behaviour_witness :
  ∃ pl', Remove 3%nat full_list = Ret (true, pl') ∧ lst pl' = [7%nat].
Proof.
  destruct (Remove_behaviour 3%nat full_list) as (pl' & E & _ & Hl).
  - apply puts_ok, new_pl_ok.
  - exists pl'. split; [|exact Hl]. rewrite E. vm_compute. reflexivity.
Defined.

(** [Put] of an item whose key is known replaces the list's item and leaves the
    map's: afterwards [GetByKey] still returns the old item while the list holds
    the new one, and the new item keeps the old one's position whatever its
    priority. *)
Theorem Put_known_key {I} `{PLItem I} item old (pl : PriorityList I) :
  keys pl !! Key item = Some old → Key item ∈ Key <$> lst pl →
  ∃ pl', Put item pl = Ret (true, pl') ∧ GetByKey (Key item) pl' = Some old ∧
    item ∈ lst pl' ∧ (Key <$> lst pl') = (Key <$> lst pl).
Proof.
  intros E Hin. exists (replaceItem item pl). unfold Put. rewrite E. split; [done|].
  split; [done|]. split; [|apply keys_replace]. cbn.
  induction (lst pl) as [|x l IH]; cbn in *; [by apply not_elem_of_nil in Hin|].
  case_bool_decide as Ek; [by left|]. right. apply IH.
  apply elem_of_cons in Hin as [Hin|Hin]; [by destruct Ek|done].
Qed.

(** Versions of an item: the key is the first component, smaller is better. *)
#[export] Instance versioned_item : PLItem (Z * Z) := {
  Compare a b := fst b - fst a;
  Key a := be_bytes 8 (fst a)
}.

Lemma Put_known_key_witness :
  ∃ pl', Put (1, 20) (puts (NewPriorityList 4) [(1, 10)]) = Ret (true, pl') ∧
    GetByKey (Key (1, 20)) pl' = Some (1, 10) ∧ (1, 20) ∈ lst pl'.
Proof.
  destruct (Put_known_key (1, 20) (1, 10) (puts (NewPriorityList 4) [(1, 10)]))
    as (pl' & E & H1 & H2 & _).
  - vm_compute. reflexivity.
  - vm_compute. left.
  - exists pl'. split; [exact E|]. split; [exact H1|exact H2].
Defined.

(** ** Random selection *)

Lemma SelectRandn_loop_spec {I} k x (slts rest : list I) draws :
  (0 < k)%nat → length slts = k →
  length (SelectRandn_loop k x slts rest draws) = k ∧
  ∀ a, a ∈ SelectRandn_loop k x slts rest draws → a ∈ slts ++ rest.
Proof.
  intros Hk. revert x slts draws. induction rest as [|item rest IH]; intros x slts draws Hl.
  { cbn. rewrite app_nil_r. auto. }
  cbn [SelectRandn_loop]. set (slts' := if bool_decide _ then _ else _).
  assert (length slts' = k) as Hl'.
  { unfold slts'. case_bool_decide; [by rewrite length_insert|done]. }
  destruct (IH (S x) slts' (List.tl draws) Hl') as [H1 H2]. split; [done|].
  intros a Ha. apply H2, elem_of_app in Ha. apply elem_of_app. destruct Ha as [Ha|Ha].
  - unfold slts' in Ha. case_bool_decide; [|by left].
    apply list_elem_of_lookup in Ha as (i & Hi). apply list_lookup_insert_Some in Hi
      as [(_ & -> & _)|(_ & Hi)]; [right; by left|left; by eapply list_elem_of_lookup_2].
  - right. by right.
Qed.

(** [SelectRandn] returns exactly [k] elements of the list when it has that
    many (all of them otherwise), for any random draws.  But the draw is over
    [x + k] instead of [x + k + 1] values: when the list has [k + 1] elements,
    the last one is always among those selected, so the selection is not
    uniform. *)
Theorem SelectRandn_behaviour {I} `{PLItem I} k draws (pl : PriorityList I) :
  0 < k →
  let r := SelectRandn k draws pl in
  length r = Nat.min (Z.to_nat k) (length (lst pl)) ∧ (∀ a, a ∈ r → a ∈ lst pl) ∧
  (∀ z, Z.of_nat (length (lst pl)) = k + 1 → lst pl !! Z.to_nat k = Some z → z ∈ r).
Proof.
  intros Hk. cbv zeta. unfold SelectRandn. destruct (k <=? 0) eqn:E; zbool; [lia|].
  cbv zeta. case_bool_decide as Hlen; rewrite length_take in Hlen.
  { split; [by rewrite length_take|]. split.
    - intros a Ha. rewrite <- (take_drop (Z.to_nat k) (lst pl)). apply elem_of_app. by left.
    - intros z Hz. lia. }
  destruct (SelectRandn_loop_spec (Z.to_nat k) 0 (take (Z.to_nat k) (lst pl))
    (drop (Z.to_nat k) (lst pl)) draws) as [H1 H2]; [lia|rewrite length_take; lia|].
  rewrite take_drop in H2. split; [rewrite H1; lia|]. split; [done|].
  intros z Hz Hl.
  assert (drop (Z.to_nat k) (lst pl) = [z]) as ->.
  { rewrite (drop_S _ z) by done. by rewrite drop_ge by lia. }
  cbn [SelectRandn_loop]. rewrite bool_decide_true.
  - apply (list_elem_of_lookup_2 _ (Intn (List.hd 0%nat draws) (0 + Z.to_nat k))).
    apply list_lookup_insert_eq. rewrite length_take. unfold Intn.
    pose proof (Nat.mod_upper_bound (List.hd 0%nat draws) (0 + Z.to_nat k)). lia.
  - unfold Intn. pose proof (Nat.mod_upper_bound (List.hd 0%nat draws) (0 + Z.to_nat k)). lia.
Qed.

Lemma SelectRandn_behaviour_witness :
  7%nat ∈ SelectRandn 1 [12%nat] full_list.
Proof.
  destruct (SelectRandn_behaviour 1 [12%nat] full_list) as (_ & _ & H); [lia|].
  apply H; vm_compute; reflexivity.
Defined.
