(* ===== verification/Dht.v ===== *)
(** * DHT: closeness, shared keys and packets (mintox/dht.go)

    [IDClosest] compares keys by XOR distance; [NodeFormat] and [ClientData]
    implement the interface of the priority lists with it, so a list of nodes
    holds the nodes closest to its key.  [GetSharedKey] caches the Diffie-Hellman
    results, [CreatePacket] and [Unpacket] are the encrypted DHT packets.  The
    handlers of a node are in DhtNode.v. *)

From Stdlib Require Import Sorted.
From S2P Require Import Prelude Box PriorityList TcpHandshake.
Local Open Scope Z_scope.

Definition PUBLIC_KEY_SIZE : nat := 32.

(** ** Distance *)

(** [byte ^ byte] *)
Definition xor (a b : byte) : byte := zb (Z.lxor (bz a) (bz b)).

(** [IDDistance] *)
Definition IDDistance (pk1 pk2 : bytes) : bytes := zip_with xor pk1 pk2.

(** The loop of [IDClosest] over the first [n] bytes; indexing panics on short
    keys, which [NewCryptoKey] rules out. *)
Fixpoint IDClosest_loop (n : nat) (pk pk1 pk2 : bytes) : outcome unit Z :=
  match n with
  | O => Ret 1
  | S n =>
      match pk, pk1, pk2 with
      | a :: pk, b :: pk1, c :: pk2 =>
          let distance1 := bz (xor a b) in
          let distance2 := bz (xor a c) in
          if distance1 <? distance2 then Ret 0
          else if distance1 >? distance2 then Ret (-1)
          else IDClosest_loop n pk pk1 pk2
      | _, _, _ => Panic
      end
  end.

Definition IDClosest (cmppk pk1 pk2 : bytes) : outcome unit Z :=
  IDClosest_loop PUBLIC_KEY_SIZE cmppk pk1 pk2.

(** ** Items *)

(** Addresses are opaque. *)
Record NodeFormat := mkNode { nf_Pubkey : bytes; nf_Addr : bytes; nf_cmppk : bytes }.

Record ClientData := mkClient {
  cd_Pubkey : bytes;
  cd_Addr : bytes;
  cd_Timestamp : Z;                 (* Assoc.Timestamp *)
  cd_cmppk : bytes
}.

(** The result of a comparison of well-formed keys; see [closest_cases]. *)
Definition closest (cmppk pk1 pk2 : bytes) : Z :=
  match IDClosest cmppk pk1 pk2 with Ret z => z | _ => 0 end.

Definition NodeFormat_Compare (a b : NodeFormat) : Z :=
  closest (nf_cmppk a) (nf_Pubkey a) (nf_Pubkey b).

(** [now.Sub(this.Timestamp) > now.Sub(that.Timestamp)]: [this] was seen
    earlier. *)
Definition ClientData_Compare (a b : ClientData) : Z :=
  let n := closest (cd_cmppk a) (cd_Pubkey a) (cd_Pubkey b) in
  if (n =? 1) && (cd_Timestamp a <? cd_Timestamp b) then -1 else n.

#[export] Instance node_item : PLItem NodeFormat := {
  Compare := NodeFormat_Compare;
  Key := nf_Pubkey
}.

#[export] Instance client_item : PLItem ClientData := {
  Compare := ClientData_Compare;
  Key := cd_Pubkey
}.

(** ** Shared keys and packets *)

(** The maps [SharedKeysRecv] and [SharedKeysSent]: key to [Shrkey]. *)
Abbreviation sharedKeys := (gmap bytes bytes).

Section Packets.
Context `{NaclBox} `{Gopp}.

(** [GetSharedKey] with the DHT's secret key. *)
Definition GetSharedKey (SelfSeckey : bytes) (shrkeys : sharedKeys) (pubkey : bytes)
    : outcome hs_err (bytes * sharedKeys) :=
  match shrkeys !! pubkey with
  | Some shrkey => Ret (shrkey, shrkeys)
  | None =>
      shrkey ← Mintox.CBBeforeNm2 pubkey SelfSeckey;
      Ret (shrkey, <[pubkey := shrkey]> shrkeys)
  end.

(** [CreatePacket]: [nonce] is the draw of [CBRandomNonce]. *)
Definition CreatePacket (nonce pubkey shrkey : bytes) (ptype : Z) (plain : bytes)
    : outcome Mintox.crypt_err bytes :=
  encrypted ← Mintox.EncryptDataSymmetric2 shrkey nonce plain;
  Ret (zb ptype :: pubkey ++ nonce ++ encrypted).

Record unpacked := Unpacked {
  u_ptype : Z; u_pubkey : bytes; u_nonce : bytes; u_plain : outcome Mintox.crypt_err bytes
}.

Definition Unpacket (SelfSeckey : bytes) (sent : sharedKeys) (encpkt : bytes)
    : outcome hs_err (unpacked * sharedKeys) :=
  ptype ← index encpkt 0;
  k ← slice encpkt 1 (1 + PUBLIC_KEY_SIZE);
  pubkey ← Mintox.NewCryptoKey k;
  nonce ← slice encpkt (1 + PUBLIC_KEY_SIZE) (1 + PUBLIC_KEY_SIZE + Mintox.NONCE_SIZE);
  '(shrkey, sent') ← GetSharedKey SelfSeckey sent pubkey;
  enc ← slice_from encpkt (1 + PUBLIC_KEY_SIZE + Mintox.NONCE_SIZE);
  match Mintox.DecryptDataSymmetric2 shrkey nonce enc with
  | Panic => Panic
  | plain => Ret (Unpacked (bz ptype) pubkey nonce plain, sent')
  end.
End Packets.

(** ** Distance as a number *)

Lemma lxor_range a b : 0 ≤ Z.lxor (bz a) (bz b) < 256.
Proof.
  pose proof (bz_range a). pose proof (bz_range b).
  assert (0 ≤ Z.lxor (bz a) (bz b)) by (apply Z.lxor_nonneg; lia). split; [done|].
  destruct (Z.eq_dec (Z.lxor (bz a) (bz b)) 0) as [->|]; [lia|].
  apply (Z.log2_lt_pow2 _ 8); [lia|].
  eapply Z.le_lt_trans; [apply Z.log2_lxor; lia|].
  apply Z.max_lub_lt.
  - destruct (Z.eq_dec (bz a) 0) as [->|]; [cbn; lia|]. apply Z.log2_lt_pow2; lia.
  - destruct (Z.eq_dec (bz b) 0) as [->|]; [cbn; lia|]. apply Z.log2_lt_pow2; lia.
Qed.

Lemma xor_inj a b c : xor a b = xor a c → b = c.
Proof.
  intros E. apply (f_equal bz) in E. unfold xor in E.
  rewrite !bz_zb_small in E by apply lxor_range.
  apply (f_equal (Z.lxor (bz a))) in E. rewrite <- !Z.lxor_assoc, Z.lxor_nilpotent in E.
  rewrite !Z.lxor_0_l in E. by apply bz_inj.
Qed.

Lemma length_IDDistance a b : length a = length b → length (IDDistance a b) = length a.
Proof. intros H. unfold IDDistance. rewrite length_zip_with. lia. Qed.

Lemma IDDistance_inj a b c :
  length b = length a → length c = length a → IDDistance a b = IDDistance a c → b = c.
Proof.
  revert b c. induction a as [|x a IH]; intros [|y b] [|z c] Hb Hc E; try done.
  cbn in E. injection E as E1 E2. apply (xor_inj x) in E1 as ->. f_equal.
  apply IH; [cbn in *; lia..|done].
Qed.

(** The distance of a key from [pk]. *)
Definition dist (pk pk1 : bytes) : Z := be_val (IDDistance pk pk1).

Lemma dist_cons a pk b pk1 :
  length pk1 = length pk →
  dist (a :: pk) (b :: pk1) = bz (xor a b) * 256 ^ zlen pk + dist pk pk1.
Proof.
  intros H. unfold dist, IDDistance. cbn [zip_with be_val]. fold (IDDistance pk pk1).
  unfold zlen. by rewrite length_IDDistance.
Qed.

Lemma dist_range pk pk1 : length pk1 = length pk → 0 ≤ dist pk pk1 < 256 ^ zlen pk.
Proof.
  intros H. pose proof (be_val_range (IDDistance pk pk1)) as R.
  unfold zlen in R. by rewrite length_IDDistance in R by done.
Qed.

Lemma IDClosest_loop_spec n pk pk1 pk2 :
  length pk = n → length pk1 = n → length pk2 = n →
  IDClosest_loop n pk pk1 pk2 =
    Ret (match dist pk pk1 ?= dist pk pk2 with Lt => 0 | Gt => -1 | Eq => 1 end).
Proof.
  revert pk pk1 pk2. induction n as [|n IH]; intros pk pk1 pk2 H H1 H2.
  { destruct pk, pk1, pk2; done. }
  destruct pk as [|a pk], pk1 as [|b pk1], pk2 as [|c pk2]; try done.
  cbn in H, H1, H2. injection H as H. injection H1 as H1. injection H2 as H2.
  cbn [IDClosest_loop]. rewrite !dist_cons by lia.
  pose proof (dist_range pk pk1 ltac:(lia)). pose proof (dist_range pk pk2 ltac:(lia)).
  set (P := 256 ^ zlen pk) in *. set (d1 := bz (xor a b)). set (d2 := bz (xor a c)).
  destruct (d1 <? d2) eqn:E1; zbool.
  { replace (_ ?= _) with Lt; [done|]. symmetry. apply Z.compare_lt_iff. nia. }
  destruct (d1 >? d2) eqn:E2; zbool.
  { replace (_ ?= _) with Gt; [done|]. symmetry. apply Z.compare_gt_iff. nia. }
  assert (d1 = d2) as -> by lia. rewrite IH by done. f_equal.
  destruct (Z.compare_spec (dist pk pk1) (dist pk pk2)) as [E|E|E];
    destruct (Z.compare_spec (d2 * P + dist pk pk1) (d2 * P + dist pk pk2)); done || lia.
Qed.

Lemma dist_eq pk a b :
  length a = length pk → length b = length pk → dist pk a = dist pk b → a = b.
Proof.
  intros Ha Hb E. apply (IDDistance_inj pk); [done..|].
  apply be_val_inj; [by rewrite !length_IDDistance|done].
Qed.

(** ** The items satisfy the laws of the priority list *)

Lemma closest_cases pk a b :
  length pk = PUBLIC_KEY_SIZE → length a = PUBLIC_KEY_SIZE → length b = PUBLIC_KEY_SIZE →
  (closest pk a b = 0 ∧ dist pk a < dist pk b) ∨
  (closest pk a b = 1 ∧ dist pk a = dist pk b) ∨
  (closest pk a b = -1 ∧ dist pk b < dist pk a).
Proof.
  intros H Ha Hb. unfold closest, IDClosest. rewrite IDClosest_loop_spec by done.
  destruct (Z.compare_spec (dist pk a) (dist pk b)); auto with lia.
Qed.

(** Nodes compared with the same key. *)
Definition node_for (pk : bytes) (n : NodeFormat) : Prop :=
  nf_cmppk n = pk ∧ length (nf_Pubkey n) = PUBLIC_KEY_SIZE.

Definition client_for (pk : bytes) (c : ClientData) : Prop :=
  cd_cmppk c = pk ∧ length (cd_Pubkey c) = PUBLIC_KEY_SIZE.

Section Laws.
Context (pk : bytes) (Hpk : length pk = PUBLIC_KEY_SIZE).

Lemma node_compare a b :
  node_for pk a → node_for pk b →
  (Compare a b >= 0 ↔ dist pk (nf_Pubkey a) ≤ dist pk (nf_Pubkey b)).
Proof.
  intros [Ea La] [Eb Lb]. cbn. unfold NodeFormat_Compare. rewrite Ea.
  destruct (closest_cases pk _ _ Hpk La Lb) as [[-> ?]|[[-> ?]|[-> ?]]]; lia.
Qed.

Lemma client_compare a b :
  client_for pk a → client_for pk b →
  (Compare a b >= 0 ↔
     dist pk (cd_Pubkey a) < dist pk (cd_Pubkey b) ∨
     dist pk (cd_Pubkey a) = dist pk (cd_Pubkey b) ∧ cd_Timestamp b ≤ cd_Timestamp a).
Proof.
  intros [Ea La] [Eb Lb]. cbn. unfold ClientData_Compare. rewrite Ea.
  destruct (closest_cases pk _ _ Hpk La Lb) as [[-> ?]|[[-> ?]|[-> ?]]]; cbn; [lia| |lia].
  destruct (cd_Timestamp a <? cd_Timestamp b) eqn:E; zbool; lia.
Qed.

#[local] Instance node_item_laws : PLItemLaws node_item (node_for pk).
Proof.
  split.
  - intros a b Ha Hb. pose proof (node_compare a b Ha Hb). pose proof (node_compare b a Hb Ha). lia.
  - intros a b c Ha Hb Hc. pose proof (node_compare a b Ha Hb).
    pose proof (node_compare b c Hb Hc). pose proof (node_compare a c Ha Hc). lia.
Qed.

#[local] Instance client_item_laws : PLItemLaws client_item (client_for pk).
Proof.
  split.
  - intros a b Ha Hb. pose proof (client_compare a b Ha Hb).
    pose proof (client_compare b a Hb Ha). lia.
  - intros a b c Ha Hb Hc. pose proof (client_compare a b Ha Hb).
    pose proof (client_compare b c Hb Hc). pose proof (client_compare a c Ha Hc). lia.
Qed.
End Laws.

(** ** Packets *)

Section PacketFacts.
Context `{NaclBoxLaws} `{GoppLaws}.

(** Cached keys are the Diffie-Hellman results. *)
Definition keys_ok (sk : bytes) (m : sharedKeys) : Prop :=
  map_Forall (λ pk k, k = box_precompute pk sk) m.

Lemma GetSharedKey_ok sk m pk :
  keys_ok sk m → length sk = KeySize → length pk = KeySize →
  ∃ m', GetSharedKey sk m pk = Ret (box_precompute pk sk, m') ∧ keys_ok sk m' ∧
    m' !! pk = Some (box_precompute pk sk) ∧ m ⊆ m'.
Proof.
  intros Hm Hs Hp. unfold GetSharedKey. destruct (m !! pk) as [k|] eqn:E.
  - pose proof (Hm _ _ E) as Hk. cbn in Hk. subst k. eauto.
  - rewrite Mintox.CBBeforeNm2_ok by done. cbn [mbind outcome_bind].
    eexists. split; [done|]. split; [by apply map_Forall_insert_2|].
    split; [apply lookup_insert_eq|by apply insert_subseteq].
Qed.
End PacketFacts.

(** ** Properties *)

(** [IDClosest] never panics on 32-byte keys and decides the XOR distance:
    it returns 0 exactly when the first key is strictly closer, -1 exactly when
    the second is, and 1 exactly when the two keys are the same. *)
Theorem IDClosest_decides_distance pk pk1 pk2 :
  length pk = PUBLIC_KEY_SIZE → length pk1 = PUBLIC_KEY_SIZE → length pk2 = PUBLIC_KEY_SIZE →
  ∃ r, IDClosest pk pk1 pk2 = Ret r ∧
    (r = 0 ↔ dist pk pk1 < dist pk pk2) ∧
    (r = -1 ↔ dist pk pk2 < dist pk pk1) ∧
    (r = 1 ↔ pk1 = pk2).
Proof.
  intros H H1 H2. unfold IDClosest. rewrite IDClosest_loop_spec by done. eexists. split; [done|].
  destruct (Z.compare_spec (dist pk pk1) (dist pk pk2)) as [E|E|E].
  - apply dist_eq in E; [|congruence..]. subst. intuition lia.
  - split; [lia|]. split; [lia|]. split; [done|]. intros ->. lia.
  - split; [lia|]. split; [lia|]. split; [done|]. intros ->. lia.
Qed.

Definition key_of (z : Z) : bytes := be_bytes 32 z.

Lemma IDClosest_decides_distance_witness :
  ∃ r, IDClosest (key_of 8) (key_of 9) (key_of 3) = Ret r ∧ r = 0.
Proof.
  destruct (IDClosest_decides_distance (key_of 8) (key_of 9) (key_of 3)) as (r & E & H0 & _);
    [reflexivity..|].
  exists r. split; [exact E|]. apply H0. vm_compute. reflexivity.
Defined.

(** A list of [n] places to which nodes with distinct keys are offered, in
    any order, holds the [n] nodes closest to its key, closest first. *)
Theorem closest_nodes_kept pk n (nodes : list NodeFormat) :
  length pk = PUBLIC_KEY_SIZE → Forall (node_for pk) nodes → NoDup (nf_Pubkey <$> nodes) →
  let pl := puts (NewPriorityList n) nodes in
  length (lst pl) = (n `min` length nodes)%nat ∧
  StronglySorted (λ a b, dist pk (nf_Pubkey a) ≤ dist pk (nf_Pubkey b)) (lst pl) ∧
  ∃ dropped, lst pl ++ dropped ≡ₚ nodes ∧
    ∀ a d, a ∈ lst pl → d ∈ dropped → dist pk (nf_Pubkey a) ≤ dist pk (nf_Pubkey d).
Proof.
  intros Hpk HP Hn pl.
  destruct (best_of_puts (J := node_item) (P := node_for pk) (PLItemLaws0 := node_item_laws pk Hpk)
    nodes [] (NewPriorityList n) [] (best_of_new n) HP Hn) as (dropped & [Hok [HPl Hs] Ha Hb Hf] & Hm).
  cbn [app] in Ha. fold pl in Hok, HPl, Hs, Ha, Hb, Hf, Hm. cbn in Hm.
  assert (∀ x, x ∈ nodes → node_for pk x) as HPf by (by apply list.Forall_forall).
  split; [|split].
  - pose proof (ok_bound _ Hok) as Hle. rewrite <- Ha, length_app.
    destruct dropped; cbn; [lia|]. rewrite Hf by done. lia.
  - clear -Hpk HPl Hs. induction Hs as [|x l Hs IH Hl]; [constructor|].
    apply Forall_cons_1 in HPl as [HPx HPl]. constructor; [by apply IH|].
    apply list.Forall_forall. intros y Hy. eapply list.Forall_forall in Hl; [|done].
    eapply list.Forall_forall in HPl; [|done]. by apply (node_compare pk Hpk).
  - exists dropped. split; [done|]. intros a d Hin Hd. apply (node_compare pk Hpk).
    + apply HPf. rewrite <- Ha. apply elem_of_app. by left.
    + apply HPf. rewrite <- Ha. apply elem_of_app. by right.
    + by apply Hb.
Qed.

Definition some_nodes : list NodeFormat :=
  (λ z, mkNode (key_of z) [] (key_of 8)) <$> [1; 9; 3; 10].

Lemma closest_nodes_kept_witness :
  length (lst (puts (NewPriorityList 2) some_nodes)) = 2%nat.
Proof.
  destruct (closest_nodes_kept (key_of 8) 2 some_nodes) as (H & _).
  - reflexivity.
  - repeat constructor.
  - apply (bool_decide_unpack _). vm_compute. exact I.
  - exact H.
Defined.

(** A DHT packet that one node creates for another under their shared key
    is opened by the other: type, sender key, nonce and plaintext come back, and
    the receiver's cache of shared keys stays correct and knows the sender. *)
Theorem dht_packet_roundtrip `{NaclBoxLaws} `{GoppLaws} ska skb sent nonce ptype plain :
  length ska = KeySize → length skb = KeySize → length nonce = Mintox.NONCE_SIZE →
  0 ≤ ptype < 256 → keys_ok skb sent →
  ∃ pkt sent', CreatePacket nonce (scalar_base ska) (box_precompute (scalar_base skb) ska)
      ptype plain = Ret pkt ∧
    Unpacket skb sent pkt =
      Ret (Unpacked ptype (scalar_base ska) nonce (Ret plain), sent') ∧
    keys_ok skb sent' ∧ is_Some (sent' !! scalar_base ska).
Proof.
  intros Ha Hb Hn Ht Hk. pose proof (base_length ska Ha) as La. unfold KeySize in La.
  destruct (GetSharedKey_ok skb sent (scalar_base ska) Hk Hb La) as (sent' & Es & Hk' & Hl & _).
  do 2 eexists. unfold CreatePacket. rewrite Mintox.EncryptDataSymmetric2_ok.
  split; [reflexivity|]. split; [|by eauto]. unfold Unpacket.
  change (?x :: ?a ++ ?b ++ ?c) with ([x] ++ a ++ b ++ c).
  change (index _ 0) with (Ret (E := hs_err) (zb ptype)). cbn [mbind outcome_bind].
  rewrite (slice_app3 [zb ptype] (scalar_base ska) _ 1 PUBLIC_KEY_SIZE) by done. cbn [mbind outcome_bind].
  rewrite Mintox.NewCryptoKey_ok by done. cbn [mbind outcome_bind].
  rewrite (app_assoc [zb ptype]), slice_app3 by (rewrite ?length_app, ?La; done).
  cbn [mbind outcome_bind]. rewrite Es. cbn [mbind outcome_bind].
  rewrite (app_assoc (_ ++ _)), slice_from_app by (rewrite !length_app, La, Hn; done).
  cbn [mbind outcome_bind]. rewrite (precompute_comm ska skb) by done.
  rewrite (Mintox.DecryptDataSymmetric2_ok _ _ _ _ (open_seal _ _ _)).
  by rewrite bz_zb_small by done.
Qed.

Import ToyBox.

Lemma dht_packet_roundtrip_witness :
  ∃ pkt sent', CreatePacket (make_bytes 24) (key_of 5) (box_precompute (key_of 7) (key_of 5))
      2 [zb 1; zb 2] = Ret pkt ∧
    Unpacket (key_of 7) ∅ pkt =
      Ret (Unpacked 2 (key_of 5) (make_bytes 24) (Ret [zb 1; zb 2]), sent').
Proof.
  destruct (dht_packet_roundtrip (key_of 5) (key_of 7) ∅ (make_bytes 24) 2 [zb 1; zb 2])
    as (pkt & sent' & E1 & E2 & _); [reflexivity..|lia|apply map_Forall_empty|].
  exists pkt, sent'. split; [exact E1|exact E2].
Defined.
