(* ===== verification/DhtNode.v ===== *)
(** * A DHT node: tables, requests and answers (mintox/dht.go, dht_private.go,
    ping.go, network.go, bootstrap_node_packets.go)

    The node keeps lists of other nodes, those closest to its own key and those
    closest to the keys of its friends.  The entries are shared objects, so they
    live in a heap and the lists hold pointers; [AddNode] writes into an entry
    that other lists hold too.  [deliver] is the dispatch of a datagram to its
    handler.  Random draws come from the list [draws], the time is an argument.
    The buffer of the goplusplus package is an interface with laws. *)

From Stdlib Require Import Sorted.
From S2P Require Import Prelude GoIO GoText Box TcpHandshake PriorityList Dht.
Local Open Scope Z_scope.

(** ** Interfaces *)

Class GoppDhtBuffer := {
  (** [buf.RBufAt(n)]: the content from offset [n] on; [None] panics. *)
  rbuf_at : Z → bytes → option bytes;
  (** [buf.WBufAt(n)] and a write of [data] *)
  wbuf_write : nat → bytes → bytes → bytes;
  (** [buf.Readn(n)]: the bytes read and the rest *)
  Readn : nat → bytes → bytes * bytes
}.
Class GoppDhtBufferLaws (G : GoppDhtBuffer) := {
  rbuf_at_in n b : 0 ≤ n ≤ zlen b → rbuf_at n b = Some (drop (Z.to_nat n) b);
  wbuf_write_in n data b : (n + length data ≤ length b)%nat →
    wbuf_write n data b = take n b ++ data ++ drop (n + length data) b;
  Readn_in n b : (n ≤ length b)%nat → Readn n b = (take n b, drop n b)
}.

(** ** Constants *)

Definition MAX_FRIEND_CLIENTS : nat := 8.
Definition LCLIENT_LIST : nat := 128 * MAX_FRIEND_CLIENTS.
Definition MAX_CLOSE_TO_BOOTSTRAP_NODES : nat := 8.
Definition MAX_SENT_NODES : nat := 4.
Definition PING_INTERVAL : Z := 60.
Definition PINGS_MISSED_NODE_GOES_BAD : Z := 1.
Definition PING_ROUNDTRIP : Z := 2.
Definition BAD_NODE_TIMEOUT : Z :=
  PING_INTERVAL + PINGS_MISSED_NODE_GOES_BAD * (PING_INTERVAL + PING_ROUNDTRIP).
Definition KILL_NODE_TIMEOUT : Z := BAD_NODE_TIMEOUT + PING_INTERVAL.
Definition GET_NODE_INTERVAL : Z := 20.
Definition MAX_BOOTSTRAP_TIMES : Z := 5.
Definition TOX_AF_INET : Z := 2.
Definition TOX_AF_INET6 : Z := 10.

Definition NET_PACKET_PING_REQUEST : Z := 0.
Definition NET_PACKET_PING_RESPONSE : Z := 1.
Definition NET_PACKET_GET_NODES : Z := 2.
Definition NET_PACKET_SEND_NODES_IPV6 : Z := 4.
Definition NET_PACKET_CRYPTO : Z := 32.
Definition BOOTSTRAP_INFO_PACKET_ID : Z := 240.
Definition MAX_MOTD_LENGTH : Z := 256.

(** ** Addresses *)

Inductive Addr : Type :=
| UDPAddr (IP : bytes) (Port : Z)
| TCPAddr (IP : bytes) (Port : Z).

#[export] Instance Addr_eq_dec : EqDecision Addr.
Proof. solve_decision. Defined.

(** [addr.String()] *)
Definition Addr_String (a : Addr) : bytes :=
  match a with
  | UDPAddr ip p | TCPAddr ip p =>
      JoinHostPort (if bool_decide (ip = []) then [] else IP_String ip) (itoa p)
  end.

(** ** Time *)

(** [newtime.Sub(oldtime)] in nanoseconds saturates; [int(d.Seconds())] cuts
    towards zero. *)
Definition time_Sub (newtime oldtime : Z) : Z :=
  Z.max (- 2 ^ 63) (Z.min (2 ^ 63 - 1) (newtime - oldtime)).

Definition IsTimeout4Time (newtime oldtime timeout : Z) : bool :=
  Z.quot (time_Sub newtime oldtime) 1000000000 >? timeout.

(** ** Entries *)

(** A pointer to an entry *)
Inductive ptr : Type := Ptr (i : nat).

Record IPPTsPng := mkAssoc {
  a_Addr : Addr;
  a_Timestamp : Z;
  a_LastPinged : Z;
  a_RetAddr : Addr;
  a_RetTimestamp : Z
}.

Inductive entry : Type :=
| ENode (Pubkey : bytes) (addr : Addr) (cmppk : bytes)          (* *NodeFormat *)
| EClient (Pubkey : bytes) (Assoc : IPPTsPng) (cmppk : bytes).  (* *ClientData *)

Definition Pubkey (e : entry) : bytes :=
  match e with ENode pk _ _ | EClient pk _ _ => pk end.

Definition cmppk (e : entry) : bytes :=
  match e with ENode _ _ k | EClient _ _ k => k end.

Definition set_cmppk (k : bytes) (e : entry) : entry :=
  match e with ENode pk a _ => ENode pk a k | EClient pk a _ => EClient pk a k end.

Abbreviation heap := (list entry).

Definition at_ptr (h : heap) (p : ptr) : option entry := let '(Ptr i) := p in h !! i.
Definition alloc (e : entry) (h : heap) : ptr * heap := (Ptr (length h), h ++ [e]).
Definition update_ptr (f : entry → entry) (p : ptr) (h : heap) : heap :=
  let '(Ptr i) := p in alter f i h.

Definition pk_of (h : heap) (p : ptr) : bytes := from_option Pubkey [] (at_ptr h p).

(** [Compare] of the two kinds.  Each asserts that the other item is of its own
    kind; no list holds both, see [list_ok]. *)
Definition entry_Compare (a b : entry) : Z :=
  let n := closest (cmppk a) (Pubkey a) (Pubkey b) in
  match a, b with
  | EClient _ s _, EClient _ t _ =>
      if (n =? 1) && (a_Timestamp s <? a_Timestamp t) then -1 else n
  | _, _ => n
  end.

#[export] Instance heap_item (h : heap) : PLItem ptr := {
  Compare a b :=
    match at_ptr h a, at_ptr h b with Some x, Some y => entry_Compare x y | _, _ => 0 end;
  Key := pk_of h
}.

(** ** State *)

Record DHTFriend := mkFriend {
  f_Pubkey : bytes;
  ClientList : PriorityList ptr;
  f_ToBootstrap : PriorityList ptr;
  f_cmppk : bytes
}.

Definition NewDHTFriend (pubkey : bytes) : DHTFriend :=
  mkFriend pubkey (NewPriorityList MAX_FRIEND_CLIENTS) (NewPriorityList MAX_SENT_NODES) pubkey.

(** [FriendsList] is a priority list of which every item compares equal, so the
    last friend comes first; its bound of 2^31 - 1 is not modelled. *)
Record DHT := mkDHT {
  entries : heap;
  SelfPubkey : bytes;
  SelfSeckey : bytes;
  CloseClientList : PriorityList ptr;
  CloseLastGetNodes : Z;
  CloseBootstrapTimes : Z;
  FriendsList : list DHTFriend;
  SharedKeysRecv : sharedKeys;
  SharedKeysSent : sharedKeys;
  ToBootstrap : PriorityList ptr;
  bsinfo : option (Z * bytes);           (* Version and Motd, once set *)
  draws : list (Z * bytes);              (* rand.Uint64() and CBRandomNonce() *)
  sent : list (Addr * bytes)             (* the datagrams written *)
}.

Definition set_entries x d := mkDHT x (SelfPubkey d) (SelfSeckey d) (CloseClientList d)
  (CloseLastGetNodes d) (CloseBootstrapTimes d) (FriendsList d) (SharedKeysRecv d)
  (SharedKeysSent d) (ToBootstrap d) (bsinfo d) (draws d) (sent d).
Definition set_close x d := mkDHT (entries d) (SelfPubkey d) (SelfSeckey d) x
  (CloseLastGetNodes d) (CloseBootstrapTimes d) (FriendsList d) (SharedKeysRecv d)
  (SharedKeysSent d) (ToBootstrap d) (bsinfo d) (draws d) (sent d).
Definition set_times x y d := mkDHT (entries d) (SelfPubkey d) (SelfSeckey d) (CloseClientList d)
  x y (FriendsList d) (SharedKeysRecv d) (SharedKeysSent d) (ToBootstrap d) (bsinfo d) (draws d)
  (sent d).
Definition set_friends x d := mkDHT (entries d) (SelfPubkey d) (SelfSeckey d) (CloseClientList d)
  (CloseLastGetNodes d) (CloseBootstrapTimes d) x (SharedKeysRecv d) (SharedKeysSent d)
  (ToBootstrap d) (bsinfo d) (draws d) (sent d).
Definition set_recv x d := mkDHT (entries d) (SelfPubkey d) (SelfSeckey d) (CloseClientList d)
  (CloseLastGetNodes d) (CloseBootstrapTimes d) (FriendsList d) x (SharedKeysSent d)
  (ToBootstrap d) (bsinfo d) (draws d) (sent d).
Definition set_sent x d := mkDHT (entries d) (SelfPubkey d) (SelfSeckey d) (CloseClientList d)
  (CloseLastGetNodes d) (CloseBootstrapTimes d) (FriendsList d) (SharedKeysRecv d) x
  (ToBootstrap d) (bsinfo d) (draws d) (sent d).
Definition set_boot x d := mkDHT (entries d) (SelfPubkey d) (SelfSeckey d) (CloseClientList d)
  (CloseLastGetNodes d) (CloseBootstrapTimes d) (FriendsList d) (SharedKeysRecv d)
  (SharedKeysSent d) x (bsinfo d) (draws d) (sent d).
Definition set_info x d := mkDHT (entries d) (SelfPubkey d) (SelfSeckey d) (CloseClientList d)
  (CloseLastGetNodes d) (CloseBootstrapTimes d) (FriendsList d) (SharedKeysRecv d)
  (SharedKeysSent d) (ToBootstrap d) x (draws d) (sent d).
Definition set_draws x d := mkDHT (entries d) (SelfPubkey d) (SelfSeckey d) (CloseClientList d)
  (CloseLastGetNodes d) (CloseBootstrapTimes d) (FriendsList d) (SharedKeysRecv d)
  (SharedKeysSent d) (ToBootstrap d) (bsinfo d) x (sent d).
Definition WriteTo (pkt : bytes) (addr : Addr) d := mkDHT (entries d) (SelfPubkey d) (SelfSeckey d)
  (CloseClientList d) (CloseLastGetNodes d) (CloseBootstrapTimes d) (FriendsList d)
  (SharedKeysRecv d) (SharedKeysSent d) (ToBootstrap d) (bsinfo d) (draws d)
  (sent d ++ [(addr, pkt)]).

Definition NewDHT (pk sk : bytes) (rnd : list (Z * bytes)) : DHT :=
  mkDHT [] pk sk (NewPriorityList LCLIENT_LIST) 0 0 [] ∅ ∅
    (NewPriorityList MAX_CLOSE_TO_BOOTSTRAP_NODES) None rnd [].

Definition draw (d : DHT) : (Z * bytes) * DHT :=
  match draws d with
  | [] => ((0, make_bytes Mintox.NONCE_SIZE), d)
  | x :: l => (x, set_draws l d)
  end.

Section Node.
Context `{NaclBox} `{Gopp} `{GoppDhtBuffer}.

(** The errors of the calls are printed; a panic ends the program. *)
Abbreviation res A := (outcome hs_err A).

Definition pl_Put (h : heap) (p : ptr) (pl : PriorityList ptr) : res (PriorityList ptr) :=
  match @Put _ (heap_item h) p pl with
  | Ret (_, pl') => Ret pl'
  | _ => Panic
  end.

(** ** Requests *)

Definition GetSharedKeyRecv (pk : bytes) (d : DHT) : res (bytes * DHT) :=
  '(k, m) ← GetSharedKey (SelfSeckey d) (SharedKeysRecv d) pk; Ret (k, set_recv m d).
Definition GetSharedKeySent (pk : bytes) (d : DHT) : res (bytes * DHT) :=
  '(k, m) ← GetSharedKey (SelfSeckey d) (SharedKeysSent d) pk; Ret (k, set_sent m d).

(** [CreatePacket] with the error printed: nothing is in the packet then. *)
Definition create (nonce pubkey shrkey : bytes) (ptype : Z) (plain : bytes) : res bytes :=
  ErrPrint (CreatePacket nonce pubkey shrkey ptype plain).

(** [gopp.CmpAndSwapN(&pingid, 0, 1)] *)
Definition nonzero (z : Z) : Z := if z =? 0 then 1 else z.

Definition GetNodes (addr : Addr) (pubkey client_id : bytes) (d : DHT) : res DHT :=
  let '((r, nonce), d1) := draw d in
  let plain := client_id ++ be_bytes 8 (nonzero r) in
  '(shrkey, d2) ← GetSharedKeySent pubkey d1;
  pkt ← create nonce (SelfPubkey d2) shrkey NET_PACKET_GET_NODES plain;
  Ret (WriteTo pkt addr d2).

Definition Bootstrap (addr : Addr) (pubkey : bytes) (d : DHT) : res DHT :=
  GetNodes addr pubkey (SelfPubkey d) d.

(** ** Packing addresses *)

Definition pack_ip_port (addr : Addr) : res bytes :=
  let is_ipv6 := HasPrefix (str "[") (Addr_String addr) in
  let net_family := if is_ipv6 then TOX_AF_INET6 else TOX_AF_INET in
  match addr with
  | TCPAddr _ _ => Panic                                (* the type assertion to UDPAddr *)
  | UDPAddr ip port =>
      let ipb := if is_ipv6 then ip else default [] (To4 ip) in
      let buf := zb net_family :: ipb ++ [x00; x00] in
      Ret (wbuf_write (1 + 4) (be_bytes 2 (u16 port)) buf)
  end.

Fixpoint pack_nodes (nodes : list (bytes * Addr)) : res bytes :=
  match nodes with
  | [] => Ret []
  | (pk, a) :: nodes => p ← pack_ip_port a; rest ← pack_nodes nodes; Ret (p ++ pk ++ rest)
  end.

(** ** Answering a request *)

(** The type assertion to [ClientData] of the closures *)
Definition as_client (h : heap) (p : ptr) : res (bytes * IPPTsPng) :=
  match at_ptr h p with
  | Some (EClient pk a _) => Ret (pk, a)
  | _ => Panic
  end.

Fixpoint put_clients (h : heap) (ps : list ptr) (tmplst : PriorityList ptr)
    : res (PriorityList ptr) :=
  match ps with
  | [] => Ret tmplst
  | p :: ps => _ ← as_client h p; t ← pl_Put h p tmplst; put_clients h ps t
  end.

Fixpoint to_nodes (h : heap) (ps : list ptr) : res (list (bytes * Addr)) :=
  match ps with
  | [] => Ret []
  | p :: ps => '(pk, a) ← as_client h p; l ← to_nodes h ps; Ret ((pk, a_Addr a) :: l)
  end.

(** The key asked for is not used; [rnd] are the draws of the selection. *)
Definition get_close_nodes (rnd : list nat) (d : DHT) : res (list (bytes * Addr)) :=
  t ← put_clients (entries d) (Each (CloseClientList d)) (NewPriorityList 1000);
  t ← put_clients (entries d) (concat (map (λ f, Each (ClientList f)) (FriendsList d))) t;
  to_nodes (entries d) (SelectRandn (Z.of_nat MAX_SENT_NODES) rnd t).

Definition sendnodes_ipv6 (rnd : list nat) (addr : Addr) (sbdata shrkey : bytes) (d : DHT) : res DHT :=
  nodes ← get_close_nodes rnd d;
  if bool_decide (nodes = []) then Ret d
  else
    packed ← pack_nodes nodes;
    let buf := zb (zlen nodes) :: packed ++ sbdata in
    let '((_, nonce), d1) := draw d in
    pkt ← create nonce (SelfPubkey d1) shrkey NET_PACKET_SEND_NODES_IPV6 buf;
    Ret (WriteTo pkt addr d1).

(** The parts of a datagram all the handlers take. *)
Definition open_datagram (data : bytes) : res (bytes * bytes * bytes) :=
  k ← slice data 1 (1 + PUBLIC_KEY_SIZE);
  peerpk ← Mintox.NewCryptoKey k;
  nonce ← slice data (1 + PUBLIC_KEY_SIZE) (1 + PUBLIC_KEY_SIZE + Mintox.NONCE_SIZE);
  enc ← slice_from data (1 + PUBLIC_KEY_SIZE + Mintox.NONCE_SIZE);
  Ret (peerpk, nonce, enc).

Definition HandleGetNodes (rnd : list nat) (addr : Addr) (data : bytes) (d : DHT) : res DHT :=
  '(peerpk, nonce, enc) ← open_datagram data;
  '(shrkey, d1) ← GetSharedKeyRecv peerpk d;
  plnpkt ← ErrPrint (Mintox.DecryptDataSymmetric2 shrkey nonce enc);
  s ← slice plnpkt 0 PUBLIC_KEY_SIZE;
  _ ← Mintox.NewCryptoKey s;
  sbdata ← slice_from plnpkt PUBLIC_KEY_SIZE;
  _ ← Assert (bool_decide (length plnpkt = PUBLIC_KEY_SIZE + 8)%nat);
  _ ← Assert (bool_decide (length sbdata = 8%nat));
  sendnodes_ipv6 rnd addr sbdata shrkey d1.

(** ** Taking over nodes *)

(** [n = &*n] does not copy: the entry itself gets the friend's key. *)
Definition AddNode (p : ptr) (hf : heap * DHTFriend) : res (heap * DHTFriend) :=
  let '(h, f) := hf in
  match at_ptr h p with
  | None => Panic
  | Some n =>
      let h1 := if bool_decide (cmppk n ≠ f_cmppk f) then update_ptr (set_cmppk (f_cmppk f)) p h else h in
      cl ← pl_Put h1 p (ClientList f);
      tb ← pl_Put h1 p (f_ToBootstrap f);
      Ret (h1, mkFriend (f_Pubkey f) cl tb (f_cmppk f))
  end.

(** [FriendsList.EachInline(AddNode(nodfmt))] *)
Fixpoint add_to_friends (p : ptr) (h : heap) (fs : list DHTFriend) : res (heap * list DHTFriend) :=
  match fs with
  | [] => Ret (h, [])
  | f :: fs =>
      '(h1, f1) ← AddNode p (h, f);
      '(h2, fs2) ← add_to_friends p h1 fs;
      Ret (h2, f1 :: fs2)
  end.

(** One node of an answer: its address, its key and the rest. *)
Definition read_node (buf : bytes) : res (Addr * bytes * bytes) :=
  let byte0 := match buf with b :: _ => bz b | [] => 0 end in
  let r := drop 1 buf in
  let istcp := Z.land byte0 128 =? 1 in
  let isip6 := Z.land byte0 127 =? 10 in
  let n := if isip6 then 16%nat else 4%nat in
  let ipobj := copy_into (make_bytes n) (take n r) in
  let r := drop n r in
  let port := if bool_decide (length r < 2)%nat then 0 else be_val (take 2 r) in
  let r := drop 2 r in
  let addro := if istcp then TCPAddr ipobj port else UDPAddr ipobj port in
  let '(k, r) := Readn PUBLIC_KEY_SIZE r in
  nodekey ← Mintox.NewCryptoKey k;
  Ret (addro, nodekey, r).

(** The body of the loop of [HandleSendNodesIpv6] *)
Definition process_node (now : Z) (addro : Addr) (nodekey : bytes) (d : DHT) : res DHT :=
  let '(n, h1) := alloc (ENode nodekey addro (SelfPubkey d)) (entries d) in
  tb ← pl_Put h1 n (ToBootstrap d);
  let '(c, h2) := alloc (EClient nodekey (mkAssoc addro now now addro now) (SelfPubkey d)) h1 in
  cc ← pl_Put h2 c (CloseClientList d);
  '(h3, fs) ← add_to_friends n h2 (FriendsList d);
  Ret (set_friends fs (set_close cc (set_boot tb (set_entries h3 d)))).

Fixpoint process_nodes (now : Z) (numNodes : nat) (offset : Z) (plain : bytes) (d : DHT) : res DHT :=
  match numNodes with
  | O => Ret d
  | S n =>
      match rbuf_at offset plain with
      | None => Panic
      | Some tmpbuf =>
          '(addro, nodekey, rest) ← read_node tmpbuf;
          d1 ← process_node now addro nodekey d;
          process_nodes now n (offset + (zlen tmpbuf - zlen rest)) plain d1
      end
  end.

Definition HandleSendNodesIpv6 (now : Z) (data : bytes) (d : DHT) : res DHT :=
  '(pubkey, nonce, encrypted) ← open_datagram data;
  '(shrkey, d1) ← GetSharedKeySent pubkey d;
  plain ← ErrPrint (Mintox.DecryptDataSymmetric2 shrkey nonce encrypted);
  let numNodes := match plain with b :: _ => bz b | [] => 0 end in
  _ ← match rbuf_at (zlen plain - 8) plain with Some _ => Ret tt | None => Panic end;
  process_nodes now (Z.to_nat numNodes) 1 plain d1.

(** ** Friends *)

(** The closure [sltfn] of [AddFriend]: a client that is not bad becomes a new
    entry of the friend's list. *)
Fixpoint select_for_friend (now : Z) (pubkey : bytes) (ps : list ptr)
    (ht : heap * PriorityList ptr) : res (heap * PriorityList ptr) :=
  match ps with
  | [] => Ret ht
  | p :: ps =>
      let '(h, tb) := ht in
      '(pk, a) ← as_client h p;
      if IsTimeout4Time now (a_Timestamp a) BAD_NODE_TIMEOUT
      then select_for_friend now pubkey ps (h, tb)
      else
        let '(n, h1) := alloc (ENode pk (a_Addr a) pubkey) h in
        tb1 ← pl_Put h1 n tb;
        select_for_friend now pubkey ps (h1, tb1)
  end.

Definition AddFriend (now : Z) (pubkey : bytes) (d : DHT) : res DHT :=
  if existsb (λ f, bool_decide (f_Pubkey f = pubkey)) (FriendsList d) then Ret d
  else
    let frndo := NewDHTFriend pubkey in
    '(h, tb) ← select_for_friend now pubkey
      (Each (CloseClientList d) ++ concat (map (λ f, Each (ClientList f)) (FriendsList d)))
      (entries d, f_ToBootstrap frndo);
    Ret (set_friends (mkFriend pubkey (ClientList frndo) tb pubkey :: FriendsList d)
           (set_entries h d)).

(** ** The periodic jobs *)

(** [GetNodes] to every item of a list; [target] has the type assertion. *)
Fixpoint get_all (client_id : bytes) (target : ptr → res (bytes * Addr)) (ps : list ptr) (d : DHT)
    : res DHT :=
  match ps with
  | [] => Ret d
  | p :: ps => '(pk, a) ← target p; d1 ← GetNodes a pk client_id d; get_all client_id target ps d1
  end.

Definition node_target (h : heap) (p : ptr) : res (bytes * Addr) :=
  match at_ptr h p with Some (ENode pk a _) => Ret (pk, a) | _ => Panic end.
Definition client_target (h : heap) (p : ptr) : res (bytes * Addr) :=
  '(pk, a) ← as_client h p; Ret (pk, a_Addr a).

(** The clients of a list that pass a check, the type assertion first. *)
Fixpoint select_clients (h : heap) (f : IPPTsPng → bool) (ps : list ptr) : res (list ptr) :=
  match ps with
  | [] => Ret []
  | p :: ps =>
      '(_, a) ← as_client h p;
      l ← select_clients h f ps;
      Ret (if f a then p :: l else l)
  end.

Definition set_LastPinged (now : Z) (e : entry) : entry :=
  match e with
  | EClient pk a k =>
      EClient pk (mkAssoc (a_Addr a) (a_Timestamp a) now (a_RetAddr a) (a_RetTimestamp a)) k
  | e => e
  end.

(** [i1], [i2] and [i3] are the three draws. *)
Definition doClosest (now : Z) (i1 i2 i3 : nat) (d : DHT) : res DHT :=
  let items := lst (ToBootstrap d) in
  d1 ← (if bool_decide (items = []) then Ret d
        else match items !! (i1 mod length items)%nat with
             | Some p => get_all (SelfPubkey d) (node_target (entries d)) [p] d
             | None => Panic
             end);
  let alive a := negb (IsTimeout4Time now (a_LastPinged a) KILL_NODE_TIMEOUT) in
  need ← select_clients (entries d1) (λ a,
    alive a && IsTimeout4Time now (a_LastPinged a) PING_INTERVAL) (Each (CloseClientList d1));
  good ← select_clients (entries d1) (λ a,
    alive a && negb (IsTimeout4Time now (a_Timestamp a) BAD_NODE_TIMEOUT)) (Each (CloseClientList d1));
  d2 ← (match need !! (i2 mod Nat.max 1 (length need))%nat with
        | Some p =>
            get_all (SelfPubkey d1) (client_target (entries d1)) [p]
              (set_entries (update_ptr (set_LastPinged now) p (entries d1)) d1)
        | None => Ret d1
        end);
  if negb (bool_decide (good = [])) &&
     (IsTimeout4Time now (CloseLastGetNodes d2) GET_NODE_INTERVAL
      || (CloseBootstrapTimes d2 <? MAX_BOOTSTRAP_TIMES))
  then
    let d3 := set_times now (u32 (CloseBootstrapTimes d2 + 1)) d2 in
    match good !! (i3 mod length good)%nat with
    | Some p => get_all (SelfPubkey d3) (client_target (entries d3)) [p] d3
    | None => Panic
    end
  else Ret d2.

(** A friend counts as seen when it is in its own client list; the other two
    lists are searched for the log only, with their type assertions. *)
Definition do_friend (rnd : list nat) (f : DHTFriend) (d : DHT) : res DHT :=
  let h := entries d in
  d1 ← get_all (f_Pubkey f) (node_target h) (Each (f_ToBootstrap f)) d;
  d2 ← get_all (f_Pubkey f) (node_target h) (Each (ClientList f)) d1;
  _ ← select_clients h (λ _, true) (Each (CloseClientList d2));
  if existsb (λ p, bool_decide (pk_of h p = f_Pubkey f)) (Each (ClientList f)) then Ret d2
  else get_all (f_Pubkey f) (client_target h) (SelectRandn 48 rnd (CloseClientList d2)) d2.

Fixpoint do_friends (rnds : list (list nat)) (fs : list DHTFriend) (d : DHT) : res DHT :=
  match fs with
  | [] => Ret d
  | f :: fs => d1 ← do_friend (List.hd [] rnds) f d; do_friends (List.tl rnds) fs d1
  end.

Definition doDHTFriends (rnds : list (list nat)) (d : DHT) : res DHT := do_friends rnds (FriendsList d) d.

(** ** Pings *)

Definition SendPingResponse (source : Addr) (pubkey : bytes) (pingid : Z) (shrkey : bytes) (d : DHT)
    : res DHT :=
  if bool_decide (pubkey = SelfPubkey d) then Ret d
  else
    let '((_, nonce), d1) := draw d in
    encrypted ← ErrPrint (Mintox.EncryptDataSymmetric2 shrkey nonce
                            (zb NET_PACKET_PING_RESPONSE :: be_bytes 8 pingid));
    Ret (WriteTo (zb NET_PACKET_PING_RESPONSE :: SelfPubkey d1 ++ nonce ++ encrypted) source d1).

Definition HandlePingRequest (source : Addr) (packet : bytes) (d : DHT) : res DHT :=
  '(pubkey, nonce, enc) ← open_datagram packet;
  '(shrkey, d1) ← GetSharedKeyRecv pubkey d;
  plain ← ErrPrint (Mintox.DecryptDataSymmetric2 shrkey nonce enc);
  b ← slice_from plain 1;
  let pingid := if bool_decide (length b < 8)%nat then 0 else be_val (take 8 b) in
  SendPingResponse source pubkey pingid shrkey d1.

Definition SendPingRequest (addr : Addr) (pubkey : bytes) (d : DHT) : res DHT :=
  if bool_decide (pubkey = SelfPubkey d) then Ret d
  else
    let '((r, nonce), d1) := draw d in
    '(shrkey, d2) ← GetSharedKeySent pubkey d1;
    encpkt ← ErrPrint (Mintox.EncryptDataSymmetric2 shrkey nonce
                         (zb NET_PACKET_PING_REQUEST :: be_bytes 8 (nonzero r)));
    Ret (WriteTo (zb NET_PACKET_PING_REQUEST :: SelfPubkey d2 ++ nonce ++ encpkt) addr d2).

(** ** The network *)

(** [filler] is the random text of [gopp.RandStrHex(pktlen)]. *)
Definition handleInfoRequest (filler : bytes) (addr : Addr) (d : DHT) : res DHT :=
  let '(version, motd) := default (0, []) (bsinfo d) in
  let pktlen := (1 + 4 + length motd)%nat in
  let buf := wbuf_write 0 [zb BOOTSTRAP_INFO_PACKET_ID] filler in
  let buf := wbuf_write 1 (be_bytes 4 version) buf in
  let buf := wbuf_write (1 + 4) motd buf in
  _ ← Assert (bool_decide (length buf = pktlen));
  Ret (WriteTo buf addr d).

Definition BootstrapSetCallback (version : Z) (motd : bytes) (d : DHT) : bool * DHT :=
  if zlen motd >? MAX_MOTD_LENGTH then (false, d) else (true, set_info (Some (version, motd)) d).

(** [doPoll] on a datagram of at most 2000 bytes: the handler of its type, if
    one is registered. *)
Definition deliver (now : Z) (rnd : list nat) (filler : bytes) (addr : Addr) (data : bytes) (d : DHT)
    : res DHT :=
  match data with
  | [] => Ret d
  | b :: _ =>
      let t := bz b in
      if t =? NET_PACKET_PING_REQUEST then HandlePingRequest addr data d
      else if t =? NET_PACKET_PING_RESPONSE then Ret d
      else if t =? NET_PACKET_GET_NODES then HandleGetNodes rnd addr data d
      else if t =? NET_PACKET_SEND_NODES_IPV6 then HandleSendNodesIpv6 now data d
      else if t =? NET_PACKET_CRYPTO then Ret d
      else if (t =? BOOTSTRAP_INFO_PACKET_ID) && bool_decide (is_Some (bsinfo d))
      then handleInfoRequest filler addr d
      else Ret d
  end.

End Node.

#[local] Opaque LCLIENT_LIST MAX_FRIEND_CLIENTS MAX_SENT_NODES MAX_CLOSE_TO_BOOTSTRAP_NODES.

(** ** The lists *)

Inductive kind : Type := KNode | KClient.
Definition kind_of (e : entry) : kind := match e with ENode _ _ _ => KNode | EClient _ _ _ => KClient end.

(** Later heaps: entries keep their kind and their key, not their [cmppk]. *)
Definition extends (h h' : heap) : Prop :=
  ∀ p e, at_ptr h p = Some e →
    ∃ e', at_ptr h' p = Some e' ∧ Pubkey e' = Pubkey e ∧ kind_of e' = kind_of e.

Lemma heap_extends_refl h : extends h h.
Proof. intros p e E. eauto. Qed.

Lemma heap_extends_trans h1 h2 h3 : extends h1 h2 → extends h2 h3 → extends h1 h3.
Proof.
  intros H1 H2 p e E. destruct (H1 p e E) as (e1 & E1 & K1 & T1).
  destruct (H2 p e1 E1) as (e2 & E2 & K2 & T2). exists e2. split; [done|]. split; congruence.
Qed.

Lemma at_alloc e h p h' :
  alloc e h = (p, h') → at_ptr h' p = Some e ∧ extends h h'.
Proof.
  intros [= <- <-]. split; [cbn; by rewrite lookup_app_r, Nat.sub_diag by lia|].
  intros [i] x E. exists x. cbn in *. split; [|done]. by apply lookup_app_l_Some.
Qed.

Lemma extends_update f p h :
  (∀ e, Pubkey (f e) = Pubkey e ∧ kind_of (f e) = kind_of e) → extends h (update_ptr f p h).
Proof.
  intros Hf [i] e E. destruct p as [j]. cbn in *. destruct (decide (i = j)) as [->|Hne].
  - exists (f e). rewrite list_lookup_alter_eq, E. cbn. split; [done|]. apply Hf.
  - exists e. by rewrite list_lookup_alter_ne.
Qed.

(** A list of entries of one kind, closest to [key] first. *)
Record list_ok (h : heap) (key : bytes) (k : kind) (n : nat) (pl : PriorityList ptr) : Prop := {
  lk_pl : @pl_ok _ (heap_item h) pl;
  lk_max : max pl = n;
  lk_entries : ∀ p, p ∈ lst pl →
    ∃ e, at_ptr h p = Some e ∧ kind_of e = k ∧ length (Pubkey e) = PUBLIC_KEY_SIZE;
  lk_sorted : StronglySorted Z.le ((λ p, dist key (pk_of h p)) <$> lst pl)
}.

Lemma pk_of_at h p e : at_ptr h p = Some e → pk_of h p = Pubkey e.
Proof. intros E. unfold pk_of. by rewrite E. Qed.

Lemma list_ok_extends h h' key k n pl : extends h h' → list_ok h key k n pl → list_ok h' key k n pl.
Proof.
  intros Hx [[Hnd Hkeys Hb] Hm He Hs].
  assert (∀ p, p ∈ lst pl → pk_of h' p = pk_of h p) as Hpk.
  { intros p Hp. destruct (He p Hp) as (e & E & _). destruct (Hx p e E) as (e' & E' & Hk & _).
    by rewrite (pk_of_at _ _ _ E), (pk_of_at _ _ _ E'). }
  assert (∀ A (f : bytes → A), (λ p, f (pk_of h' p)) <$> lst pl = (λ p, f (pk_of h p)) <$> lst pl) as Hmap.
  { intros A f. apply list_fmap_ext. intros i p Hp. by rewrite Hpk by (by eapply list_elem_of_lookup_2). }
  pose proof (Hmap _ (λ x, x)) as Hid. cbn in Hid.
  split; [|done| |].
  - split; cbn [Key heap_item] in *.
    + change (pk_of h' <$> lst pl) with ((λ p, pk_of h' p) <$> lst pl). by rewrite Hid.
    + intros x. rewrite Hkeys. change (pk_of h' <$> lst pl) with ((λ p, pk_of h' p) <$> lst pl).
      by rewrite Hid.
    + done.
  - intros p Hp. destruct (He p Hp) as (e & E & Hk & Hl). destruct (Hx p e E) as (e' & E' & Hk' & Ht).
    exists e'. split; [done|]. split; congruence.
  - by rewrite (Hmap _ (dist key)).
Qed.

Lemma list_ok_new h key k n : list_ok h key k n (NewPriorityList n).
Proof.
  split; [apply new_pl_ok|done| |constructor]. intros p Hp. by apply not_elem_of_nil in Hp.
Qed.

Section Invariant.
Context `{NaclBoxLaws} `{GoppLaws} `{GoppDhtBuffer}.

(** A new entry is compared with the key of the list. *)
Lemma pl_Put_ok h key k n pl p e :
  list_ok h key k n pl → at_ptr h p = Some e → kind_of e = k → cmppk e = key →
  length (Pubkey e) = PUBLIC_KEY_SIZE → length key = PUBLIC_KEY_SIZE →
  ∃ pl', pl_Put h p pl = Ret pl' ∧ list_ok h key k n pl'.
Proof.
  intros [Hok Hm He Hs] E Hk Hc Hl Hkey.
  destruct (@Put_ranked _ (heap_item h) (λ p, dist key (pk_of h p)) p pl Hok Hs)
    as (pl' & Ep & Hok' & Hm' & Hs' & Hin).
  - intros x Hx Hne. destruct (He x Hx) as (y & Ey & Hky & Hly). cbn [Compare Key heap_item] in *.
    rewrite E, Ey. rewrite (pk_of_at _ _ _ E), (pk_of_at _ _ _ Ey) in *.
    unfold entry_Compare. rewrite Hc.
    destruct (closest_cases key (Pubkey e) (Pubkey y) Hkey Hl Hly) as [[-> ?]|[[-> Hd]|[-> ?]]].
    + destruct e, y; cbn in *; lia.
    + apply dist_eq in Hd; [done|congruence..].
    + destruct e, y; cbn in *; lia.
  - intros x Hx Hx2. cbn [Key heap_item] in Hx2. by rewrite Hx2.
  - exists pl'. unfold pl_Put. rewrite Ep. split; [done|]. split; [done|congruence| |done].
    intros x Hx. destruct (Hin x Hx) as [->|Hx']; [by exists e|by apply He].
Qed.

(** ** The node *)

Definition friend_ok (h : heap) (f : DHTFriend) : Prop :=
  length (f_Pubkey f) = PUBLIC_KEY_SIZE ∧ f_cmppk f = f_Pubkey f ∧
  list_ok h (f_Pubkey f) KNode MAX_FRIEND_CLIENTS (ClientList f) ∧
  list_ok h (f_Pubkey f) KNode MAX_SENT_NODES (f_ToBootstrap f).

Record dht_ok (d : DHT) : Prop := {
  dk_self : length (SelfPubkey d) = PUBLIC_KEY_SIZE;
  dk_close : list_ok (entries d) (SelfPubkey d) KClient LCLIENT_LIST (CloseClientList d);
  dk_boot : list_ok (entries d) (SelfPubkey d) KNode MAX_CLOSE_TO_BOOTSTRAP_NODES (ToBootstrap d);
  dk_friends : Forall (friend_ok (entries d)) (FriendsList d);
  dk_recv : keys_ok (SelfSeckey d) (SharedKeysRecv d);
  dk_sent : keys_ok (SelfSeckey d) (SharedKeysSent d)
}.

Lemma friend_ok_extends h h' f : extends h h' → friend_ok h f → friend_ok h' f.
Proof.
  intros Hx (Hl & Hc & Ha & Hb). split; [done|]. split; [done|]. split; by eapply list_ok_extends.
Qed.

Lemma friends_ok_extends h h' fs : extends h h' → Forall (friend_ok h) fs → Forall (friend_ok h') fs.
Proof. intros Hx Hf. eapply Forall_impl; [|exact Hf]. intros f. by apply friend_ok_extends. Qed.

Lemma GetSharedKey_inv sk m pk k m' :
  keys_ok sk m → GetSharedKey sk m pk = Ret (k, m') → keys_ok sk m' ∧ k = box_precompute pk sk.
Proof.
  intros Hm. unfold GetSharedKey. destruct (m !! pk) as [x|] eqn:E.
  - intros [= <- <-]. split; [done|]. by apply Hm in E.
  - intros Hg. apply bind_ret_inv in Hg as (s & Hs & Hg). apply (inj Ret) in Hg.
    injection Hg as <- <-. unfold Mintox.CBBeforeNm2, Mintox.NewCryptoKey in Hs.
    case_bool_decide as Hl; [rewrite Assert_true in Hs|by rewrite Assert_false in Hs].
    cbn [mbind outcome_bind] in Hs. apply (inj Ret) in Hs as <-.
    rewrite copy_into_full by (by rewrite length_make_bytes, Hl).
    split; [by apply map_Forall_insert_2|done].
Qed.

Lemma NewCryptoKey_inv {E} b (k : bytes) :
  Mintox.NewCryptoKey (E := E) b = Ret k → length k = PUBLIC_KEY_SIZE.
Proof.
  unfold Mintox.NewCryptoKey. intros Hk. apply bind_ret_inv in Hk as (u & _ & Hk).
  apply (inj Ret) in Hk as <-. by rewrite length_copy_into, length_make_bytes.
Qed.

(** ** Requests and answers leave the tables alone *)

Definition same_tables (d d' : DHT) : Prop :=
  entries d' = entries d ∧ SelfPubkey d' = SelfPubkey d ∧ SelfSeckey d' = SelfSeckey d ∧
  CloseClientList d' = CloseClientList d ∧ FriendsList d' = FriendsList d ∧
  ToBootstrap d' = ToBootstrap d.

(** [d'] is [d] after some traffic. *)
Definition traffic (d d' : DHT) : Prop :=
  same_tables d d' ∧
  (keys_ok (SelfSeckey d) (SharedKeysRecv d) → keys_ok (SelfSeckey d) (SharedKeysRecv d')) ∧
  (keys_ok (SelfSeckey d) (SharedKeysSent d) → keys_ok (SelfSeckey d) (SharedKeysSent d')).

Lemma traffic_refl d : traffic d d.
Proof. by repeat split. Qed.

Lemma traffic_trans d1 d2 d3 : traffic d1 d2 → traffic d2 d3 → traffic d1 d3.
Proof.
  intros [(E1 & E2 & E3 & E4 & E5 & E6) [R1 S1]] [(F1 & F2 & F3 & F4 & F5 & F6) [R2 S2]].
  rewrite E3 in *. split; [repeat split; congruence|]. split; auto.
Qed.

Lemma traffic_ok d d' : traffic d d' → dht_ok d → dht_ok d'.
Proof.
  intros [(E1 & E2 & E3 & E4 & E5 & E6) [R S]] [K1 K2 K3 K4 K5 K6].
  split; rewrite ?E1, ?E2, ?E3, ?E4, ?E5, ?E6; auto.
Qed.

Lemma traffic_draw d : traffic d (draw d).2.
Proof. unfold draw. destruct (draws d); cbn; [apply traffic_refl|by repeat split]. Qed.

Lemma traffic_WriteTo p a d : traffic d (WriteTo p a d).
Proof. by repeat split. Qed.

Lemma traffic_recv pk d k d' : GetSharedKeyRecv pk d = Ret (k, d') → traffic d d'.
Proof.
  unfold GetSharedKeyRecv. intros Hg. apply bind_ret_inv in Hg as ([k' m] & Hg & Hr).
  apply (inj Ret) in Hr. injection Hr as <- <-. split; [done|]. split; [|done].
  intros Hk. by eapply GetSharedKey_inv.
Qed.

Lemma traffic_sent pk d k d' : GetSharedKeySent pk d = Ret (k, d') → traffic d d'.
Proof.
  unfold GetSharedKeySent. intros Hg. apply bind_ret_inv in Hg as ([k' m] & Hg & Hr).
  apply (inj Ret) in Hr. injection Hr as <- <-. split; [done|]. split; [done|].
  intros Hk. by eapply GetSharedKey_inv.
Qed.

Lemma traffic_GetNodes a pk id d d' : GetNodes a pk id d = Ret d' → traffic d d'.
Proof.
  unfold GetNodes. pose proof (traffic_draw d) as Ht. destruct (draw d) as [[r nonce] d1].
  cbn [snd] in Ht. intros Hg. apply bind_ret_inv in Hg as ([k d2] & Hs & Hg).
  apply bind_ret_inv in Hg as (pkt & _ & Hg). apply (inj Ret) in Hg as <-.
  eapply traffic_trans; [exact Ht|]. eapply traffic_trans; [by eapply traffic_sent|].
  apply traffic_WriteTo.
Qed.

Lemma traffic_get_all id target ps d d' : get_all id target ps d = Ret d' → traffic d d'.
Proof.
  revert d. induction ps as [|p ps IH]; intros d Hg; cbn [get_all] in Hg.
  { apply (inj Ret) in Hg as <-. apply traffic_refl. }
  apply bind_ret_inv in Hg as ([pk a] & _ & Hg). apply bind_ret_inv in Hg as (d1 & H1' & Hg). eapply traffic_trans; [by eapply traffic_GetNodes|].
  by apply IH.
Qed.

Lemma traffic_sendnodes rnd a sb k d d' : sendnodes_ipv6 rnd a sb k d = Ret d' → traffic d d'.
Proof.
  unfold sendnodes_ipv6. intros Hs. apply bind_ret_inv in Hs as (nodes & _ & Hs).
  case_bool_decide; [apply (inj Ret) in Hs as <-; apply traffic_refl|].
  apply bind_ret_inv in Hs as (packed & _ & Hs). pose proof (traffic_draw d) as Ht.
  destruct (draw d) as [[r nonce] d1]. cbn [snd] in Ht.
  apply bind_ret_inv in Hs as (pkt & _ & Hs). apply (inj Ret) in Hs as <-.
  eapply traffic_trans; [exact Ht|]. apply traffic_WriteTo.
Qed.

Lemma traffic_HandleGetNodes rnd a data d d' : HandleGetNodes rnd a data d = Ret d' → traffic d d'.
Proof.
  unfold HandleGetNodes. intros Hh. apply bind_ret_inv in Hh as ([[pk nonce] enc] & _ & Hh).
  apply bind_ret_inv in Hh as ([k d1] & Hk & Hh).
  do 6 apply bind_ret_inv in Hh as (? & _ & Hh).
  eapply traffic_trans; [by eapply traffic_recv|by eapply traffic_sendnodes].
Qed.

Lemma traffic_SendPingResponse a pk id k d d' : SendPingResponse a pk id k d = Ret d' → traffic d d'.
Proof.
  unfold SendPingResponse. case_bool_decide; [intros [= <-]; apply traffic_refl|].
  pose proof (traffic_draw d) as Ht. destruct (draw d) as [[r nonce] d1]. cbn [snd] in Ht.
  intros Hs. apply bind_ret_inv in Hs as (pkt & _ & Hs). apply (inj Ret) in Hs as <-.
  eapply traffic_trans; [exact Ht|]. apply traffic_WriteTo.
Qed.

Lemma traffic_HandlePingRequest a data d d' : HandlePingRequest a data d = Ret d' → traffic d d'.
Proof.
  unfold HandlePingRequest. intros Hh. apply bind_ret_inv in Hh as ([[pk nonce] enc] & _ & Hh).
  apply bind_ret_inv in Hh as ([k d1] & Hk & Hh).
  do 2 apply bind_ret_inv in Hh as (? & _ & Hh).
  eapply traffic_trans; [by eapply traffic_recv|by eapply traffic_SendPingResponse].
Qed.

Lemma traffic_SendPingRequest a pk d d' : SendPingRequest a pk d = Ret d' → traffic d d'.
Proof.
  unfold SendPingRequest. case_bool_decide; [intros [= <-]; apply traffic_refl|].
  pose proof (traffic_draw d) as Ht. destruct (draw d) as [[r nonce] d1]. cbn [snd] in Ht.
  intros Hs. apply bind_ret_inv in Hs as ([k d2] & Hk & Hs).
  apply bind_ret_inv in Hs as (pkt & _ & Hs). apply (inj Ret) in Hs as <-.
  eapply traffic_trans; [exact Ht|]. eapply traffic_trans; [by eapply traffic_sent|].
  apply traffic_WriteTo.
Qed.

(** ** Taking over a node *)

Lemma AddNode_ok p e h f :
  friend_ok h f → at_ptr h p = Some e → kind_of e = KNode → length (Pubkey e) = PUBLIC_KEY_SIZE →
  ∃ h' f', AddNode p (h, f) = Ret (h', f') ∧ extends h h' ∧ friend_ok h' f'.
Proof.
  intros (Hl & Hc & Ha & Hb) He Hk Hp. unfold AddNode. rewrite He.
  set (h1 := if bool_decide _ then _ else h).
  assert (extends h h1 ∧ ∃ e1, at_ptr h1 p = Some e1 ∧ kind_of e1 = KNode ∧
    Pubkey e1 = Pubkey e ∧ cmppk e1 = f_Pubkey f) as (Hx & e1 & He1 & Hk1 & Hp1 & Hc1).
  { unfold h1. case_bool_decide as E.
    - split; [apply extends_update; by intros []|]. exists (set_cmppk (f_cmppk f) e).
      split; [destruct p; cbn in *; by rewrite list_lookup_alter_eq, He|].
      rewrite <- Hc. by destruct e.
    - split; [apply heap_extends_refl|]. exists e. rewrite <- Hc. done. }
  rewrite <- Hp1 in Hp.
  destruct (pl_Put_ok h1 (f_Pubkey f) KNode MAX_FRIEND_CLIENTS (ClientList f) p e1)
    as (cl & -> & Hcl); [by eapply list_ok_extends|done..|].
  destruct (pl_Put_ok h1 (f_Pubkey f) KNode MAX_SENT_NODES (f_ToBootstrap f) p e1)
    as (tb & Etb & Htb); [by eapply list_ok_extends|done..|].
  cbn [mbind outcome_bind]. rewrite Etb. do 2 eexists. split; [done|]. split; [done|].
  unfold friend_ok. cbn. done.
Qed.

Lemma add_to_friends_ok p e fs : ∀ h,
  Forall (friend_ok h) fs → at_ptr h p = Some e → kind_of e = KNode →
  length (Pubkey e) = PUBLIC_KEY_SIZE →
  ∃ h' fs', add_to_friends p h fs = Ret (h', fs') ∧ extends h h' ∧ Forall (friend_ok h') fs'.
Proof.
  revert e. induction fs as [|f fs IH]; intros e h Hf He Hk Hp.
  { exists h, []. split; [done|]. split; [apply heap_extends_refl|done]. }
  apply Forall_cons_1 in Hf as [Hf Hfs]. cbn [add_to_friends].
  destruct (AddNode_ok p e h f Hf He Hk Hp) as (h1 & f1 & -> & Hx1 & Hf1).
  destruct (Hx1 p e He) as (e1 & He1 & Hp1 & Hk1).
  destruct (IH e1 h1) as (h2 & fs2 & E2 & Hx2 & Hf2); [by eapply friends_ok_extends|done|congruence..|].
  cbn [mbind outcome_bind]. rewrite E2. do 2 eexists. split; [done|].
  split; [by eapply heap_extends_trans|]. constructor; [by eapply friend_ok_extends|done].
Qed.

(** A node from an answer is taken over without a panic. *)
Lemma process_node_ok now a k d :
  dht_ok d → length k = PUBLIC_KEY_SIZE →
  ∃ d', process_node now a k d = Ret d' ∧ dht_ok d' ∧ SelfPubkey d' = SelfPubkey d.
Proof.
  intros [K1 K2 K3 K4 K5 K6] Hk. unfold process_node.
  destruct (alloc _ (entries d)) as [n h1] eqn:E1. apply at_alloc in E1 as [An X1].
  destruct (pl_Put_ok h1 (SelfPubkey d) KNode MAX_CLOSE_TO_BOOTSTRAP_NODES (ToBootstrap d) n
    (ENode k a (SelfPubkey d))) as (tb & -> & Htb); [by eapply list_ok_extends|done..|].
  cbn [mbind outcome_bind].
  destruct (alloc _ h1) as [c h2] eqn:E2. apply at_alloc in E2 as [Ac X2].
  destruct (pl_Put_ok h2 (SelfPubkey d) KClient LCLIENT_LIST (CloseClientList d) c _
    ltac:(eapply list_ok_extends; [|exact K2]; by eapply heap_extends_trans) Ac) as (cc & Ecc & Hcc);
    [done..|]. rewrite Ecc. cbn [mbind outcome_bind].
  destruct (X2 n _ An) as (e & Ae & Hpe & Hke).
  destruct (add_to_friends_ok n e (FriendsList d) h2) as (h3 & fs & Efs & X3 & Hfs);
    [eapply friends_ok_extends; [|exact K4]; by eapply heap_extends_trans|done|by rewrite Hke|by rewrite Hpe|].
  rewrite Efs. cbn [mbind outcome_bind]. eexists. split; [done|]. split; [|done].
  split; cbn; try done.
  - by eapply list_ok_extends; [exact X3|].
  - eapply list_ok_extends; [|exact Htb]. by eapply heap_extends_trans.
Qed.

Lemma read_node_key buf a k r : read_node buf = Ret (a, k, r) → length k = PUBLIC_KEY_SIZE.
Proof.
  unfold read_node. destruct (Readn _ _) as [x y]. intros Hr.
  apply bind_ret_inv in Hr as (k' & Hk & Hr). apply (inj Ret) in Hr. injection Hr as _ <- _.
  by eapply NewCryptoKey_inv.
Qed.

Lemma process_nodes_ok now n off plain d d' :
  dht_ok d → process_nodes now n off plain d = Ret d' → dht_ok d'.
Proof.
  revert off d. induction n as [|n IH]; intros off d Hd Hp; cbn [process_nodes] in Hp.
  { by apply (inj Ret) in Hp as <-. }
  destruct (rbuf_at off plain) as [buf|]; [|done].
  apply bind_ret_inv in Hp as ([[a k] r] & Hr & Hp). apply read_node_key in Hr.
  destruct (process_node_ok now a k d Hd Hr) as (d1 & E & Hd1 & _). rewrite E in Hp.
  by eapply IH.
Qed.

Lemma HandleSendNodesIpv6_ok now data d d' :
  dht_ok d → HandleSendNodesIpv6 now data d = Ret d' → dht_ok d'.
Proof.
  intros Hd Hh. unfold HandleSendNodesIpv6 in Hh.
  apply bind_ret_inv in Hh as ([[pk nonce] enc] & _ & Hh).
  apply bind_ret_inv in Hh as ([k d1] & Hk & Hh).
  apply bind_ret_inv in Hh as (plain & _ & Hh). apply bind_ret_inv in Hh as (? & _ & Hh).
  eapply process_nodes_ok; [|exact Hh]. eapply traffic_ok; [by eapply traffic_sent|done].
Qed.

(** ** Friends and periodic jobs *)

Lemma select_for_friend_ok now pubkey ps : ∀ h tb h' tb',
  length pubkey = PUBLIC_KEY_SIZE →
  (∀ p e, p ∈ ps → at_ptr h p = Some e → length (Pubkey e) = PUBLIC_KEY_SIZE) →
  (∀ p, p ∈ ps → is_Some (at_ptr h p)) →
  list_ok h pubkey KNode MAX_SENT_NODES tb →
  select_for_friend now pubkey ps (h, tb) = Ret (h', tb') →
  extends h h' ∧ list_ok h' pubkey KNode MAX_SENT_NODES tb'.
Proof.
  induction ps as [|p ps IH]; intros h tb h' tb' Hpk Hlen Hin Htb Hs; cbn [select_for_friend] in Hs.
  { apply (inj Ret) in Hs. injection Hs as <- <-. split; [apply heap_extends_refl|done]. }
  apply bind_ret_inv in Hs as ([pk a] & Hc & Hs). unfold as_client in Hc.
  destruct (at_ptr h p) as [e|] eqn:Ee; [|done]. destruct e as [|pk' a' ck]; [done|].
  apply (inj Ret) in Hc. injection Hc as -> ->.
  destruct (IsTimeout4Time _ _ _).
  { eapply IH; try done; intros; [eapply Hlen; [by right|done]|apply Hin; by right]. }
  destruct (alloc _ h) as [n h1] eqn:Ea. apply at_alloc in Ea as [An X1].
  destruct (pl_Put_ok h1 pubkey KNode MAX_SENT_NODES tb n _
    ltac:(by eapply list_ok_extends) An) as (tb1 & Etb & Htb1); [done|done| |done|].
  { cbn. apply (Hlen p _ ltac:(by left) Ee). }
  rewrite Etb in Hs. cbn [mbind outcome_bind] in Hs.
  destruct (IH h1 tb1 h' tb') as [X2 Htb']; try done.
  - intros q e Hq He. destruct (Hin q ltac:(by right)) as [e0 He0].
    destruct (X1 q e0 He0) as (e1 & He1 & Hk1 & _). rewrite He in He1. injection He1 as <-.
    rewrite Hk1. apply (Hlen q); [by right|done].
  - intros q Hq. destruct (Hin q ltac:(by right)) as [e0 He0].
    destruct (X1 q e0 He0) as (e1 & He1 & _). by eexists.
  - split; [by eapply heap_extends_trans|done].
Qed.

(** What the lists point to. *)
Lemma listed d p :
  dht_ok d →
  p ∈ Each (CloseClientList d) ++ concat (map (λ f, Each (ClientList f)) (FriendsList d)) →
  ∃ e, at_ptr (entries d) p = Some e ∧ length (Pubkey e) = PUBLIC_KEY_SIZE.
Proof.
  intros [K1 K2 K3 K4 K5 K6] Hp. apply elem_of_app in Hp as [Hp|Hp].
  - destruct (lk_entries _ _ _ _ _ K2 p Hp) as (e & E & _ & Hl). by exists e.
  - apply list_elem_of_In, in_concat in Hp as (l & Hl & Hp). apply in_map_iff in Hl as (f & <- & Hf).
    apply list_elem_of_In in Hf. eapply list.Forall_forall in K4; [|exact Hf].
    destruct K4 as (_ & _ & Ha & _). apply list_elem_of_In in Hp.
    destruct (lk_entries _ _ _ _ _ Ha p Hp) as (e & E & _ & He). by exists e.
Qed.

Lemma AddFriend_ok now pubkey d d' :
  dht_ok d → length pubkey = PUBLIC_KEY_SIZE → AddFriend now pubkey d = Ret d' → dht_ok d'.
Proof.
  intros Hd Hpk. unfold AddFriend. destruct (existsb _ _); [by intros [= <-]|]. intros Ha.
  apply bind_ret_inv in Ha as ([h tb] & Hs & Ha). apply (inj Ret) in Ha as <-.
  destruct (select_for_friend_ok now pubkey _ _ _ _ _ Hpk
    (λ p e Hp He, match listed d p Hd Hp with
                  | ex_intro _ e' (conj E L) => eq_ind e' (λ x, length (Pubkey x) = PUBLIC_KEY_SIZE) L e
                      (proj1 (inj_iff Some e' e) (eq_trans (eq_sym E) He)) end)
    (λ p Hp, match listed d p Hd Hp with ex_intro _ e' (conj E _) => mk_is_Some _ e' E end)
    (list_ok_new _ _ _ _) Hs) as [Hx Htb].
  destruct Hd as [K1 K2 K3 K4 K5 K6]. split; cbn; try done.
  - by eapply list_ok_extends.
  - by eapply list_ok_extends.
  - constructor; [|by eapply friends_ok_extends]. split; [done|]. split; [done|]. cbn.
    split; [apply list_ok_new|done].
Qed.

Lemma doClosest_ok now i1 i2 i3 d d' : dht_ok d → doClosest now i1 i2 i3 d = Ret d' → dht_ok d'.
Proof.
  intros Hd Hc. unfold doClosest in Hc. apply bind_ret_inv in Hc as (d1 & H1' & Hc).
  assert (dht_ok d1) as Hd1.
  { destruct (bool_decide (lst (ToBootstrap d) = [])); [by apply (inj Ret) in H1' as <-|].
    destruct (lst (ToBootstrap d) !! _); [|done]. eapply traffic_ok; [by eapply traffic_get_all|done]. }
  clear H1'. apply bind_ret_inv in Hc as (need & _ & Hc). apply bind_ret_inv in Hc as (good & _ & Hc).
  apply bind_ret_inv in Hc as (d2 & H2' & Hc).
  assert (dht_ok d2) as Hd2.
  { destruct (need !! _) as [p|]; [|by apply (inj Ret) in H2' as <-].
    eapply traffic_ok; [by eapply traffic_get_all|].
    assert (extends (entries d1) (update_ptr (set_LastPinged now) p (entries d1))) as Hx
      by (apply extends_update; by intros []).
    destruct Hd1 as [K1 K2 K3 K4 K5 K6]. split; cbn; try done.
    - by eapply list_ok_extends.
    - by eapply list_ok_extends.
    - by eapply friends_ok_extends. }
  clear H2'. destruct (_ && _); [|by apply (inj Ret) in Hc as <-].
  destruct (good !! _) as [p|]; [|done].
  eapply traffic_ok; [by eapply traffic_get_all|]. by destruct Hd2.
Qed.

Lemma do_friends_traffic rnds fs d d' : do_friends rnds fs d = Ret d' → traffic d d'.
Proof.
  revert rnds d. induction fs as [|f fs IH]; intros rnds d Hf; cbn [do_friends] in Hf.
  { apply (inj Ret) in Hf as <-. apply traffic_refl. }
  apply bind_ret_inv in Hf as (d1 & H1' & Hf). eapply traffic_trans; [|by eapply IH].
  unfold do_friend in H1'. apply bind_ret_inv in H1' as (e1 & Ha & H1').
  apply bind_ret_inv in H1' as (e2 & Hb & H1'). apply bind_ret_inv in H1' as (? & _ & H1').
  eapply traffic_trans; [by eapply traffic_get_all|].
  eapply traffic_trans; [by eapply traffic_get_all|].
  destruct (existsb _ _); [apply (inj Ret) in H1' as <-; apply traffic_refl|].
  by eapply traffic_get_all.
Qed.

Lemma deliver_ok now rnd fill a data d d' :
  dht_ok d → deliver now rnd fill a data d = Ret d' → dht_ok d'.
Proof.
  intros Hd. unfold deliver. destruct data as [|b data]; [by intros [= <-]|].
  destruct (_ =? _).
  { intros Hh. eapply traffic_ok; [by eapply traffic_HandlePingRequest|done]. }
  destruct (_ =? _); [by intros [= <-]|].
  destruct (_ =? _).
  { intros Hh. eapply traffic_ok; [by eapply traffic_HandleGetNodes|done]. }
  destruct (_ =? _); [by apply HandleSendNodesIpv6_ok|].
  destruct (_ =? _); [by intros [= <-]|].
  destruct (_ && _); [|by intros [= <-]].
  unfold handleInfoRequest. destruct (default _ _) as [v m]. intros Hh.
  apply bind_ret_inv in Hh as (u & _ & Hh). apply (inj Ret) in Hh as <-.
  eapply traffic_ok; [apply traffic_WriteTo|done].
Qed.

End Invariant.

(** ** Runs *)

Section Runs.
Context `{NaclBox} `{Gopp} `{GoppDhtBuffer}.

Inductive event : Type :=
| EvDatagram (now : Z) (rnd : list nat) (filler : bytes) (addr : Addr) (data : bytes)
| EvAddFriend (now : Z) (pubkey : bytes)
| EvBootstrap (addr : Addr) (pubkey : bytes)
| EvPing (addr : Addr) (pubkey : bytes)
| EvClosest (now : Z) (i1 i2 i3 : nat)
| EvFriends (rnds : list (list nat))
| EvSetInfo (version : Z) (motd : bytes).

Definition exec (e : event) (d : DHT) : outcome hs_err DHT :=
  match e with
  | EvDatagram now rnd filler addr data => deliver now rnd filler addr data d
  | EvAddFriend now pk => AddFriend now pk d
  | EvBootstrap a pk => Bootstrap a pk d
  | EvPing a pk => SendPingRequest a pk d
  | EvClosest now i1 i2 i3 => doClosest now i1 i2 i3 d
  | EvFriends rnds => doDHTFriends rnds d
  | EvSetInfo v m => Ret (BootstrapSetCallback v m d).2
  end.

Fixpoint exec_all (es : list event) (d : DHT) : outcome hs_err DHT :=
  match es with
  | [] => Ret d
  | e :: es => d1 ← exec e d; exec_all es d1
  end.

(** Friends are added by their 32-byte keys. *)
Definition event_ok (e : event) : Prop :=
  match e with EvAddFriend _ pk => length pk = PUBLIC_KEY_SIZE | _ => True end.

End Runs.

Lemma NewDHT_ok `{NaclBox} pk sk rnd : length pk = PUBLIC_KEY_SIZE → dht_ok (NewDHT pk sk rnd).
Proof.
  intros Hpk. split; cbn; [done|apply list_ok_new|apply list_ok_new|constructor|
    apply map_Forall_empty|apply map_Forall_empty].
Qed.

Lemma exec_all_ok `{NaclBoxLaws} `{GoppLaws} `{GoppDhtBuffer} es d0 d :
  dht_ok d0 → Forall event_ok es → exec_all es d0 = Ret d → dht_ok d.
Proof.
  intros Hd0 Hes. revert d0 Hd0.
  induction Hes as [|e es He _ IH]; intros d0 Hd0 Hr.
  { by apply (inj Ret) in Hr as <-. }
  cbn [exec_all] in Hr. apply bind_ret_inv in Hr as (d1 & Hx & Hr).
  apply (IH d1); [|done]. clear IH Hr. destruct e; cbn [exec event_ok] in *.
  - by eapply deliver_ok.
  - by eapply AddFriend_ok.
  - eapply traffic_ok; [by eapply traffic_GetNodes|done].
  - eapply traffic_ok; [by eapply traffic_SendPingRequest|done].
  - by eapply doClosest_ok.
  - eapply traffic_ok; [by eapply do_friends_traffic|done].
  - apply (inj Ret) in Hx as <-. unfold BootstrapSetCallback.
    destruct (_ >? _); cbn; [done|]. by destruct Hd0.
Qed.

(** ** A concrete buffer *)

Module ToyDht.

#[export] Instance toy_buffer : GoppDhtBuffer := {|
  rbuf_at n b := if bool_decide (0 ≤ n ≤ zlen b) then Some (drop (Z.to_nat n) b) else None;
  wbuf_write n data b := take n b ++ data ++ drop (n + length data) b;
  Readn n b := (take n b, drop n b)
|}.

#[export] Instance toy_buffer_laws : GoppDhtBufferLaws toy_buffer.
Proof. split; cbn; [|done..]. intros n b Hn. by rewrite bool_decide_true. Qed.

Definition some_addr : Addr := UDPAddr [zb 10; zb 0; zb 0; zb 7] 33445.
Definition seed_rnd : list (Z * bytes) := [(77, replicate 24 x09); (0, replicate 24 x0a)].

(** What node 5 answers node 7: two nodes. *)
Definition two_nodes : list (bytes * Addr) :=
  [(key_of 9, some_addr); (key_of 1, UDPAddr [zb 10; zb 0; zb 0; zb 8] 443)].
Definition two_packed : bytes :=
  Eval vm_compute in match @pack_nodes toy_buffer two_nodes with Ret b => b | _ => [] end.

(** The answer with [two_nodes], sealed for node 7. *)
Definition answer : bytes :=
  zb NET_PACKET_SEND_NODES_IPV6 :: key_of 5 ++ replicate 24 x09 ++
    ToyBox.seal (zb 2 :: two_packed ++ be_bytes 8 77) (replicate 24 x09)
      (ToyBox.mix (key_of 5) (key_of 7)).

(** Node 7 adds friend 4 and is told of the two nodes. *)
Definition two_events : list event :=
  [EvAddFriend 0 (key_of 4); EvDatagram 0 [] [] some_addr answer;
   EvClosest 200000000000 0 0 0; EvFriends []].

End ToyDht.


Import ToyBox ToyDht.


(** ** Packing and reading addresses *)

Section Wire.
Context `{NaclBoxLaws} `{GoppLaws} `{GoppDhtBufferLaws}.

(** An IPv4 node on the wire *)
Definition node_v4 (n : bytes * Addr) : Prop :=
  length n.1 = PUBLIC_KEY_SIZE ∧
  ∃ ip port, n.2 = UDPAddr ip port ∧ length ip = 4%nat ∧ 0 ≤ port < 65536.

Definition wire_node (pk : bytes) (fam : Z) (ip : bytes) (port : Z) : bytes :=
  zb fam :: ip ++ be_bytes 2 port ++ pk.

Lemma pack_v4 ip port :
  length ip = 4%nat → 0 ≤ port < 65536 →
  pack_ip_port (UDPAddr ip port) = Ret (zb TOX_AF_INET :: ip ++ be_bytes 2 port).
Proof.
  intros Hl Hp. unfold pack_ip_port, Addr_String.
  rewrite bool_decide_false by (by intros ->). change (str "[") with [x5b].
  rewrite v4_not_bracketed by done. unfold To4. rewrite bool_decide_true by done. cbn [from_option id].
  rewrite wbuf_write_in.
  2:{ rewrite length_be_bytes. cbn [length]. rewrite length_app, Hl. cbn. lia. }
  unfold u16. rewrite wrap_u_small by lia. do 4 (destruct ip as [|? ip]; [done|]). by destruct ip.
Qed.

(** The port of an IPv6 node goes over two bytes of its address. *)
Lemma pack_v6 ip port :
  length ip = 16%nat → To4 ip = None → 0 ≤ port < 65536 →
  pack_ip_port (UDPAddr ip port) =
    Ret (zb TOX_AF_INET6 :: (take 4 ip ++ be_bytes 2 port ++ drop 6 ip) ++ [x00; x00]).
Proof.
  intros Hl H4 Hp. unfold pack_ip_port, Addr_String.
  rewrite bool_decide_false by (by intros ->). change (str "[") with [x5b].
  rewrite v6_bracketed by done. rewrite wbuf_write_in.
  2:{ rewrite length_be_bytes. cbn [length]. rewrite length_app, Hl. cbn. lia. }
  unfold u16. rewrite wrap_u_small by lia. do 6 (destruct ip as [|? ip]; [done|]). done.
Qed.

(** Reading a node back *)
Lemma read_wire_node pk fam ip port rest :
  length pk = PUBLIC_KEY_SIZE → 0 ≤ port < 65536 →
  (fam = TOX_AF_INET ∧ length ip = 4%nat ∨ fam = TOX_AF_INET6 ∧ length ip = 16%nat) →
  read_node (wire_node pk fam ip port ++ rest) = Ret (UDPAddr ip port, pk, rest).
Proof.
  intros Hpk Hp Hf. unfold read_node, wire_node. cbn [app drop].
  assert (∃ n, (if Z.land (bz (zb fam)) 127 =? 10 then 16%nat else 4%nat) = n ∧ length ip = n ∧
    (Z.land (bz (zb fam)) 128 =? 1) = false) as (n & -> & Hn & ->).
  { destruct Hf as [[-> ?]|[-> ?]]; eexists; split; done. }
  rewrite drop_0, <- !app_assoc, take_app_exact, drop_app_exact by done.
  rewrite copy_into_full by (by rewrite length_make_bytes).
  rewrite bool_decide_false by (rewrite length_app, length_be_bytes; lia).
  rewrite take_app_exact, drop_app_exact by apply length_be_bytes.
  rewrite be_val_be_bytes, Z.mod_small by lia.
  rewrite Readn_in by (rewrite length_app, Hpk; lia).
  rewrite take_app_exact, drop_app_exact by done.
  by rewrite Mintox.NewCryptoKey_ok by done.
Qed.

(** The nodes of an answer, one after the other *)
Fixpoint take_nodes (now : Z) (nodes : list (bytes * Addr)) (d : DHT) : outcome hs_err DHT :=
  match nodes with
  | [] => Ret d
  | (pk, a) :: nodes => d1 ← process_node now a pk d; take_nodes now nodes d1
  end.

Lemma process_packed now nodes : ∀ pre packed tail d,
  Forall node_v4 nodes → pack_nodes nodes = Ret packed →
  process_nodes now (length nodes) (zlen pre) (pre ++ packed ++ tail) d = take_nodes now nodes d.
Proof.
  induction nodes as [|[pk a] nodes IH]; intros pre packed tail d Hn Hp; [done|].
  apply Forall_cons_1 in Hn as [(Hpk & ip & port & Ha & Hip & Hport) Hn]. cbn [fst snd] in *. subst a.
  cbn [pack_nodes] in Hp. rewrite pack_v4 in Hp by done. cbn [mbind outcome_bind] in Hp.
  apply bind_ret_inv in Hp as (rest & Hr & Hp). apply (inj Ret) in Hp as <-.
  cbn [length process_nodes take_nodes].
  set (node := wire_node pk TOX_AF_INET ip port).
  assert ((zb TOX_AF_INET :: ip ++ be_bytes 2 port) ++ pk ++ rest = node ++ rest) as ->.
  { unfold node, wire_node. cbn [app]. by rewrite <- !app_assoc. }
  rewrite rbuf_at_in by (rewrite zlen_app; pose proof (zlen_nonneg pre);
    pose proof (zlen_nonneg ((node ++ rest) ++ tail)); lia).
  replace (Z.to_nat (zlen pre)) with (length pre) by (unfold zlen; lia).
  rewrite drop_app_length, <- app_assoc.
  unfold node. rewrite read_wire_node by (done || by left). fold node. cbn [mbind outcome_bind].
  destruct (process_node now (UDPAddr ip port) pk d) as [d1| |]; [|done..]. cbn [mbind outcome_bind].
  rewrite <- (IH (pre ++ node) rest tail d1 Hn Hr). f_equal.
  - rewrite !zlen_app. lia.
  - by rewrite <- !app_assoc.
Qed.

Lemma pack_nodes_v4 nodes : Forall node_v4 nodes → ∃ packed, pack_nodes nodes = Ret packed.
Proof.
  induction 1 as [|[pk a] nodes (Hpk & ip & port & Ha & Hip & Hport) _ (packed & IH)]; [by eexists|].
  cbn [fst snd] in *. subst a. cbn [pack_nodes]. rewrite pack_v4 by done. cbn [mbind outcome_bind].
  rewrite IH. by eexists.
Qed.

Lemma open_datagram_ok t pk nonce enc :
  length pk = PUBLIC_KEY_SIZE → length nonce = Mintox.NONCE_SIZE →
  open_datagram (t :: pk ++ nonce ++ enc) = Ret (pk, nonce, enc).
Proof.
  intros Hk Hn. unfold open_datagram. change (t :: pk ++ nonce ++ enc) with ([t] ++ pk ++ nonce ++ enc).
  rewrite (slice_app3 [t] pk _ 1 PUBLIC_KEY_SIZE) by done. cbn [mbind outcome_bind].
  rewrite Mintox.NewCryptoKey_ok by done. cbn [mbind outcome_bind].
  rewrite (app_assoc [t]), slice_app3 by (rewrite ?length_app, ?Hk; done). cbn [mbind outcome_bind].
  by rewrite app_assoc, slice_from_app by (rewrite !length_app, Hk, Hn; done).
Qed.

Lemma take_nodes_ok now nodes : ∀ d,
  Forall node_v4 nodes → dht_ok d → ∃ d', take_nodes now nodes d = Ret d' ∧ dht_ok d'.
Proof.
  induction nodes as [|[pk a] nodes IH]; intros d Hn Hd; [by exists d|].
  apply Forall_cons_1 in Hn as [(Hpk & _) Hn]. cbn [fst take_nodes] in *.
  destruct (process_node_ok now a pk d Hd Hpk) as (d1 & -> & Hd1 & _). cbn [mbind outcome_bind].
  by apply IH.
Qed.

End Wire.

(** C16: The answer to a node request, with up to 255 IPv4 nodes, that one node
    packs and seals is opened by the node that asked and makes it take over
    exactly those nodes, with their keys, addresses and ports and in their
    order, without a panic. *)
Theorem nodes_roundtrip `{NaclBoxLaws} `{GoppLaws} `{GoppDhtBufferLaws}
    now ska nonce nodes packed sbdata pkt d :
  length ska = KeySize → length (SelfSeckey d) = KeySize →
  length nonce = Mintox.NONCE_SIZE → length sbdata = 8%nat →
  dht_ok d → Forall node_v4 nodes → (length nodes < 256)%nat →
  pack_nodes nodes = Ret packed →
  create nonce (scalar_base ska) (box_precompute (scalar_base (SelfSeckey d)) ska)
    NET_PACKET_SEND_NODES_IPV6 (zb (zlen nodes) :: packed ++ sbdata) = Ret pkt →
  ∃ d1 d', GetSharedKeySent (scalar_base ska) d =
      Ret (box_precompute (scalar_base ska) (SelfSeckey d), d1) ∧
    HandleSendNodesIpv6 now pkt d = Ret d' ∧ take_nodes now nodes d1 = Ret d' ∧ dht_ok d'.
Proof.
  intros Hs Hsd Hn Hsb Hd Hv4 Hlen Hp Hc. pose proof (base_length ska Hs) as La.
  destruct (GetSharedKey_ok (SelfSeckey d) (SharedKeysSent d) (scalar_base ska) (dk_sent _ Hd) Hsd La)
    as (m & Em & _). set (d1 := set_sent m d).
  assert (GetSharedKeySent (scalar_base ska) d =
    Ret (box_precompute (scalar_base ska) (SelfSeckey d), d1)) as Eg.
  { unfold GetSharedKeySent. by rewrite Em. }
  assert (dht_ok d1) as Hd1 by (eapply traffic_ok; [by eapply traffic_sent|done]).
  destruct (take_nodes_ok now nodes d1 Hv4 Hd1) as (d' & Et & Hd').
  exists d1, d'. split; [done|]. split; [|done].
  unfold create, CreatePacket in Hc. rewrite Mintox.EncryptDataSymmetric2_ok in Hc.
  cbn in Hc. apply (inj Ret) in Hc as <-. unfold HandleSendNodesIpv6.
  rewrite open_datagram_ok by done. cbn [mbind outcome_bind]. rewrite Eg. cbn [mbind outcome_bind].
  rewrite (precompute_comm (SelfSeckey d) ska) by done.
  rewrite (Mintox.DecryptDataSymmetric2_ok _ _ _ _ (open_seal _ _ _)).
  cbn [ErrPrint mbind outcome_bind].
  set (plain := zb (zlen nodes) :: packed ++ sbdata).
  rewrite rbuf_at_in.
  2:{ unfold plain. rewrite zlen_cons, zlen_app. assert (zlen sbdata = 8) by (unfold zlen; lia).
      pose proof (zlen_nonneg packed). lia. }
  cbn [mbind outcome_bind]. unfold plain. rewrite bz_zb_small by (unfold zlen; lia).
  replace (Z.to_nat (zlen nodes)) with (length nodes) by (unfold zlen; lia). rewrite <- Et.
  exact (process_packed now nodes [zb (zlen nodes)] packed sbdata d1 Hv4 Hp).
Qed.

Lemma nodes_roundtrip_witness :
  ∃ d', HandleSendNodesIpv6 0 answer (NewDHT (key_of 7) (key_of 7) seed_rnd) = Ret d' ∧ dht_ok d'.
Proof.
  assert (pack_nodes two_nodes = Ret two_packed) as Ep by (vm_compute; reflexivity).
  assert (create (replicate 24 x09) (scalar_base (key_of 5))
    (box_precompute (scalar_base (key_of 7)) (key_of 5)) NET_PACKET_SEND_NODES_IPV6
    (zb (zlen two_nodes) :: two_packed ++ be_bytes 8 77) = Ret answer) as Ec by (vm_compute; reflexivity).
  destruct (nodes_roundtrip 0 (key_of 5) (replicate 24 x09) two_nodes two_packed (be_bytes 8 77) answer
    (NewDHT (key_of 7) (key_of 7) seed_rnd)) as (d1 & d' & _ & E & _ & Hd');
    [reflexivity..|by apply NewDHT_ok| |by apply Nat.ltb_lt|exact Ep|exact Ec|].
  - repeat constructor; eexists _, _; (split; [reflexivity|]; split; [reflexivity|lia]).
  - exists d'. split; [exact E|exact Hd'].
Defined.

(** The address of an IPv6 node is corrupted on its way: the port is written
    over the third group of the address, and the node that reads the entry gets
    that address with port 0. *)
Theorem ipv6_nodes_corrupted `{NaclBoxLaws} `{GoppLaws} `{GoppDhtBufferLaws} pk ip port rest packed :
  length pk = PUBLIC_KEY_SIZE → length ip = 16%nat → To4 ip = None → 0 ≤ port < 65536 →
  pack_nodes [(pk, UDPAddr ip port)] = Ret packed →
  read_node (packed ++ rest) =
    Ret (UDPAddr (take 4 ip ++ be_bytes 2 port ++ drop 6 ip) 0, pk, rest).
Proof.
  intros Hpk Hip H4 Hp Hc. cbn [pack_nodes] in Hc. rewrite pack_v6 in Hc by done.
  cbn [mbind outcome_bind] in Hc. apply (inj Ret) in Hc as <-. rewrite app_nil_r.
  set (ip' := take 4 ip ++ be_bytes 2 port ++ drop 6 ip).
  rewrite <- (read_wire_node pk TOX_AF_INET6 ip' 0 rest); [|done|lia|].
  - f_equal. unfold wire_node. cbn [app]. f_equal. by rewrite <- !app_assoc.
  - right. split; [done|]. unfold ip'. rewrite !length_app, length_take, length_drop, length_be_bytes. lia.
Qed.

Lemma ipv6_nodes_corrupted_witness :
  ∃ packed, pack_nodes [(key_of 9, UDPAddr (be_bytes 16 (2 ^ 125)) 33445)] = Ret packed ∧
    read_node packed = Ret (UDPAddr (be_bytes 16 (2 ^ 125 + 33445 * 2 ^ 80)) 0, key_of 9, []).
Proof.
  set (r := pack_nodes _).
  assert (∃ packed, r = Ret packed) as (packed & E) by (vm_compute; by eexists).
  exists packed. split; [exact E|].
  pose proof (ipv6_nodes_corrupted (key_of 9) (be_bytes 16 (2 ^ 125)) 33445 [] packed) as Hr.
  rewrite app_nil_r in Hr. rewrite Hr; [vm_compute; reflexivity|reflexivity..|lia|exact E].
Defined.

(** A ping is answered with its own number: the datagram that one node
    sends as a ping request makes the other send exactly one datagram, back to
    where the request came from, and what it holds under the key the two share
    is a ping response with the number of the request. *)
Theorem ping_answered `{NaclBoxLaws} `{GoppLaws} `{GoppDhtBufferLaws}
    now rnd fill a b r n1 ra z n2 rb daddr saddr a' :
  length (SelfSeckey a) = KeySize → length (SelfSeckey b) = KeySize →
  SelfPubkey a = scalar_base (SelfSeckey a) → SelfPubkey b = scalar_base (SelfSeckey b) →
  SelfPubkey a ≠ SelfPubkey b → dht_ok a → dht_ok b → 0 ≤ r < 2 ^ 64 →
  draws a = (r, n1) :: ra → length n1 = Mintox.NONCE_SIZE →
  draws b = (z, n2) :: rb → length n2 = Mintox.NONCE_SIZE →
  SendPingRequest daddr (SelfPubkey b) a = Ret a' →
  let key := box_precompute (SelfPubkey b) (SelfSeckey a) in
  ∃ pkt b' c, sent a' = sent a ++ [(daddr, pkt)] ∧
    deliver now rnd fill saddr pkt b = Ret b' ∧
    sent b' = sent b ++ [(saddr, zb NET_PACKET_PING_RESPONSE :: SelfPubkey b ++ n2 ++ c)] ∧
    box_open c n2 key = Some (zb NET_PACKET_PING_RESPONSE :: be_bytes 8 (nonzero r)).
Proof.
  intros Ha Hb Ka Kb Hne Hda Hdb Hr Da Hn1 Db Hn2 Hs key.
  assert (length (SelfPubkey a) = KeySize ∧ length (SelfPubkey b) = KeySize) as [La Lb]
    by (rewrite Ka, Kb; split; by apply base_length).
  unfold SendPingRequest in Hs. rewrite bool_decide_false in Hs by congruence.
  unfold draw in Hs. rewrite Da in Hs.
  destruct (GetSharedKey_ok (SelfSeckey a) (SharedKeysSent a) (SelfPubkey b) (dk_sent _ Hda) Ha Lb)
    as (ma & Ema & _).
  unfold GetSharedKeySent in Hs. cbn [SelfSeckey SharedKeysSent set_draws] in Hs. rewrite Ema in Hs.
  cbn [mbind outcome_bind] in Hs. rewrite Mintox.EncryptDataSymmetric2_ok in Hs.
  cbn [ErrPrint mbind outcome_bind] in Hs. apply (inj Ret) in Hs as <-. fold key.
  set (plain := zb NET_PACKET_PING_REQUEST :: be_bytes 8 (nonzero r)).
  destruct (GetSharedKey_ok (SelfSeckey b) (SharedKeysRecv b) (SelfPubkey a) (dk_recv _ Hdb) Hb La)
    as (mb & Emb & _).
  assert (box_precompute (SelfPubkey a) (SelfSeckey b) = key) as Ek
    by (unfold key; rewrite Ka, Kb; by apply precompute_comm).
  rewrite Ek in Emb.
  eexists _, _, (box_seal (zb NET_PACKET_PING_RESPONSE :: be_bytes 8 (nonzero r)) n2 key).
  split; [reflexivity|]. split; [|split; [|apply open_seal]].
  - unfold deliver. cbn [SelfPubkey set_sent set_draws].
    change (bz (zb NET_PACKET_PING_REQUEST) =? NET_PACKET_PING_REQUEST) with true. cbv iota.
    unfold HandlePingRequest. rewrite open_datagram_ok by done. cbn [mbind outcome_bind].
    unfold GetSharedKeyRecv. rewrite Emb. cbn [mbind outcome_bind].
    rewrite (Mintox.DecryptDataSymmetric2_ok _ _ _ _ (open_seal _ _ _)).
    cbn [ErrPrint mbind outcome_bind].
    assert (slice_from (E := hs_err) plain 1 = Ret (be_bytes 8 (nonzero r))) as -> by done.
    cbn [mbind outcome_bind]. rewrite length_be_bytes.
    rewrite take_ge by (by rewrite length_be_bytes). rewrite be_val_be_bytes.
    replace (if bool_decide (8 < 8)%nat then 0 else _) with (nonzero r).
    2:{ rewrite bool_decide_false by lia. rewrite Z.mod_small; [done|].
        change (256 ^ Z.of_nat 8) with (2 ^ 64). unfold nonzero. destruct (r =? 0); lia. }
    unfold SendPingResponse. cbn [SelfPubkey set_recv]. rewrite bool_decide_false by done.
    unfold draw. cbn [draws set_recv]. rewrite Db, Mintox.EncryptDataSymmetric2_ok. reflexivity.
  - reflexivity.
Qed.

Lemma ping_answered_witness :
  ∃ pkt b', deliver 0 [] [] some_addr pkt (NewDHT (key_of 7) (key_of 7) [(0, replicate 24 x0b)]) = Ret b' ∧
    length (sent b') = 1%nat.
Proof.
  set (a := NewDHT (key_of 5) (key_of 5) seed_rnd).
  set (b := NewDHT (key_of 7) (key_of 7) [(0, replicate 24 x0b)]).
  set (r := SendPingRequest some_addr (key_of 7) a).
  assert (∃ a', r = Ret a') as (a' & E).
  { assert (match r with Ret _ => true | _ => false end = true) as Hr by (vm_compute; reflexivity).
    destruct r as [a'| |]; [by exists a'|discriminate..]. }
  destruct (ping_answered 0 [] [] a b 77 (replicate 24 x09) [(0, replicate 24 x0a)] 0
    (replicate 24 x0b) [] some_addr some_addr a') as (pkt & b' & c & _ & Ed & Es & _);
    [reflexivity|reflexivity|reflexivity|reflexivity|by vm_compute|by apply NewDHT_ok|by apply NewDHT_ok|lia|
      reflexivity|reflexivity|reflexivity|reflexivity|exact E|].
  exists pkt, b'. split; [exact Ed|]. rewrite Es. reflexivity.
Defined.

(** ** Crashes *)

Section Crashes.
Context `{NaclBoxLaws} `{GoppLaws} `{GoppDhtBuffer}.

Definition is_node_entry (h : heap) (p : ptr) : Prop := ∃ e, at_ptr h p = Some e ∧ kind_of e = KNode.

Lemma as_client_node h p : is_node_entry h p → as_client h p = Panic.
Proof. intros ([? ? ?|? ? ?] & E & Hk); [|done]. unfold as_client. by rewrite E. Qed.

Lemma pl_Put_no_error h p pl : pl_Put h p pl = Panic ∨ ∃ pl', pl_Put h p pl = Ret pl'.
Proof. unfold pl_Put. destruct (Put p pl) as [[? ?]| |]; eauto. Qed.

Lemma as_client_no_error h p : as_client h p = Panic ∨ ∃ x, as_client h p = Ret x.
Proof. unfold as_client. destruct (at_ptr h p) as [[]|]; eauto. Qed.

(** One node where clients are expected ends the program. *)
Lemma put_clients_panic h p ps t : p ∈ ps → is_node_entry h p → put_clients h ps t = Panic.
Proof.
  intros Hp Hn. revert t. induction ps as [|q ps IH]; intros t; [by apply not_elem_of_nil in Hp|].
  cbn [put_clients]. apply elem_of_cons in Hp as [->|Hp]; [by rewrite as_client_node|].
  destruct (as_client_no_error h q) as [->|[x ->]]; [done|]. cbn [mbind outcome_bind].
  destruct (pl_Put_no_error h q t) as [->|[t' ->]]; [done|]. by apply IH.
Qed.

Lemma select_panic now pk p ps : ∀ h tb,
  p ∈ ps → is_node_entry h p → select_for_friend now pk ps (h, tb) = Panic.
Proof.
  induction ps as [|q ps IH]; intros h tb Hp Hn; [by apply not_elem_of_nil in Hp|].
  cbn [select_for_friend]. apply elem_of_cons in Hp as [->|Hp]; [by rewrite as_client_node|].
  destruct (as_client_no_error h q) as [->|[[k a] ->]]; [done|]. cbn [mbind outcome_bind].
  destruct (IsTimeout4Time _ _ _); [by apply IH|].
  destruct (alloc _ h) as [n h1] eqn:Ea. apply at_alloc in Ea as [_ Hx].
  destruct (pl_Put_no_error h1 n tb) as [->|[tb' ->]]; [done|]. cbn [mbind outcome_bind].
  apply IH; [done|]. destruct Hn as (e & He & Hk). destruct (Hx p e He) as (e' & He' & _ & Hk').
  exists e'. split; [done|congruence].
Qed.

End Crashes.

(** Once a friend's list holds a node, the lists of nodes and of clients
    that the code treats alike end the program: any authentic node request
    makes it crash, and so does adding another friend. *)
Theorem friend_nodes_crash `{NaclBoxLaws} `{GoppLaws} `{GoppDhtBuffer} d f p :
  dht_ok d → length (SelfSeckey d) = KeySize → f ∈ FriendsList d → p ∈ lst (ClientList f) →
  (∀ now rnd fill addr ska nonce search id, length ska = KeySize →
     length nonce = Mintox.NONCE_SIZE → length search = PUBLIC_KEY_SIZE → length id = 8%nat →
     deliver now rnd fill addr
       (zb NET_PACKET_GET_NODES :: scalar_base ska ++ nonce ++
        box_seal (search ++ id) nonce (box_precompute (scalar_base ska) (SelfSeckey d))) d = Panic) ∧
  (∀ now pk, existsb (λ f, bool_decide (f_Pubkey f = pk)) (FriendsList d) = false →
     AddFriend now pk d = Panic).
Proof.
  intros Hd Hs Hf Hp.
  assert (p ∈ concat (map (λ f, Each (ClientList f)) (FriendsList d))) as Hin.
  { apply list_elem_of_In, in_concat. exists (lst (ClientList f)). split; [|by apply list_elem_of_In].
    apply in_map_iff. exists f. split; [done|]. by apply list_elem_of_In. }
  assert (is_node_entry (entries d) p) as Hnode.
  { pose proof (dk_friends _ Hd) as Hfs. eapply list.Forall_forall in Hfs; [|exact Hf].
    destruct Hfs as (_ & _ & Hl & _). destruct (lk_entries _ _ _ _ _ Hl p Hp) as (e & E & K & _).
    by exists e. }
  split.
  - intros now rnd fill addr ska nonce search id Hska Hn Hse Hid.
    pose proof (base_length ska Hska) as La.
    destruct (GetSharedKey_ok (SelfSeckey d) (SharedKeysRecv d) (scalar_base ska) (dk_recv _ Hd) Hs La)
      as (m & Em & _).
    set (pkt := zb NET_PACKET_GET_NODES :: _).
    change (deliver now rnd fill addr pkt d) with (HandleGetNodes rnd addr pkt d). unfold pkt.
    unfold HandleGetNodes. rewrite open_datagram_ok by done.
    cbn [mbind outcome_bind]. unfold GetSharedKeyRecv. rewrite Em. cbn [mbind outcome_bind].
    rewrite (Mintox.DecryptDataSymmetric2_ok _ _ _ _ (open_seal _ _ _)). cbn [ErrPrint mbind outcome_bind].
    assert (slice (E := hs_err) (search ++ id) 0 PUBLIC_KEY_SIZE = Ret search) as ->.
    { rewrite slice_ok by (rewrite length_app, Hse; lia). by rewrite drop_0, Nat.sub_0_r, take_app_exact. }
    cbn [mbind outcome_bind].
    rewrite Mintox.NewCryptoKey_ok by done. cbn [mbind outcome_bind].
    rewrite slice_from_app by done. cbn [mbind outcome_bind].
    rewrite bind_Assert by (apply bool_decide_true; rewrite length_app, Hse, Hid; done).
    rewrite bind_Assert by (by apply bool_decide_true).
    unfold sendnodes_ipv6, get_close_nodes. cbn [entries set_recv CloseClientList FriendsList].
    set (t0 := NewPriorityList _).
    assert (∀ t, put_clients (entries d) (concat (map (λ f, Each (ClientList f)) (FriendsList d))) t
      = Panic) as Hpan by (intros t; by eapply put_clients_panic).
    destruct (put_clients (entries d) (Each (CloseClientList d)) t0) as [t|e|] eqn:Et.
    + cbn [mbind outcome_bind]. by rewrite Hpan.
    + exfalso. revert Et. generalize t0. clear.
      induction (Each (CloseClientList d)) as [|q ps IH]; intros t0; [done|]. cbn [put_clients].
      destruct (as_client_no_error (entries d) q) as [->|[x ->]]; [done|]. cbn [mbind outcome_bind].
      destruct (pl_Put_no_error (entries d) q t0) as [->|[t' ->]]; [done|]. apply IH.
    + done.
  - intros now pk Hnew. unfold AddFriend. rewrite Hnew.
    rewrite (select_panic now pk p); [done| |done]. apply elem_of_app. by right.
Qed.

Lemma friend_nodes_crash_witness :
  ∃ d, exec_all (take 2 two_events) (NewDHT (key_of 7) (key_of 7) seed_rnd) = Ret d ∧
    AddFriend 0 (key_of 3) d = Panic.
Proof.
  set (r := exec_all (take 2 two_events) (NewDHT (key_of 7) (key_of 7) seed_rnd)).
  assert (∃ d f p, r = Ret d ∧ SelfSeckey d = key_of 7 ∧ f ∈ FriendsList d ∧ p ∈ lst (ClientList f) ∧
    existsb (λ f, bool_decide (f_Pubkey f = key_of 3)) (FriendsList d) = false)
    as (d & f & p & E & Hs & Hf & Hp & Hx).
  { assert (match r with
            | Ret d => bool_decide (SelfSeckey d = key_of 7) &&
                negb (existsb (λ f, bool_decide (f_Pubkey f = key_of 3)) (FriendsList d)) &&
                match FriendsList d with
                | f :: _ => negb (bool_decide (lst (ClientList f) = []))
                | [] => false
                end
            | _ => false end = true) as Hr by (vm_compute; reflexivity).
    destruct r as [d| |]; [|discriminate..]. apply andb_prop in Hr as [Hr Hl].
    apply andb_prop in Hr as [Hs Hx]. apply bool_decide_eq_true in Hs. apply negb_true_iff in Hx.
    destruct (FriendsList d) as [|f fs] eqn:Ef; [discriminate|].
    destruct (lst (ClientList f)) as [|p ps] eqn:El; [discriminate|].
    exists d, f, p. rewrite Ef, El. split; [reflexivity|]. split; [exact Hs|].
    split; [by left|]. split; [by left|exact Hx]. }
  exists d. split; [exact E|].
  apply (friend_nodes_crash d f p); [|by rewrite Hs|exact Hf|exact Hp|exact Hx].
  eapply exec_all_ok; [by apply (NewDHT_ok (key_of 7) (key_of 7) seed_rnd)| |exact E].
  repeat constructor.
Defined.

(** A datagram of a type the node handles that is too short for its key and
    nonce ends the program, whoever sent it. *)
Theorem short_datagram_crashes `{NaclBox} `{Gopp} `{GoppDhtBuffer} now rnd fill addr t data d :
  (t = NET_PACKET_PING_REQUEST ∨ t = NET_PACKET_GET_NODES ∨ t = NET_PACKET_SEND_NODES_IPV6) →
  (length data < 56)%nat → deliver now rnd fill addr (zb t :: data) d = Panic.
Proof.
  intros Ht Hl.
  assert (open_datagram (zb t :: data) = Panic) as Ho.
  { unfold open_datagram. destruct (decide (32 ≤ length data)%nat) as [H32|H32].
    - rewrite (slice_ok _ 1) by (unfold PUBLIC_KEY_SIZE; cbn [length]; lia). cbn [mbind outcome_bind].
      unfold Mintox.NewCryptoKey, Assert. destruct (gopp_assert _); [|done]. cbn [mbind outcome_bind].
      rewrite slice_panic; [done|]. unfold PUBLIC_KEY_SIZE, Mintox.NONCE_SIZE. cbn [length]. lia.
    - rewrite (slice_panic _ 1); [done|]. unfold PUBLIC_KEY_SIZE. cbn [length]. lia. }
  unfold deliver, HandlePingRequest, HandleGetNodes, HandleSendNodesIpv6.
  destruct Ht as [-> | [-> | ->]]; cbn [bz]; rewrite Ho; done.
Qed.

Lemma short_datagram_crashes_witness :
  deliver 0 [] [] some_addr (zb NET_PACKET_PING_REQUEST :: make_bytes 55)
    (NewDHT (key_of 7) (key_of 7) []) = Panic.
Proof.
  apply short_datagram_crashes; [by left|]. rewrite length_make_bytes. lia.
Defined.
