(* ===== verification/Onion.v ===== *)
(** * Onion paths and announcements (mintox/onion.go, onion_announce.go)

    A client that wants to be found announces itself to a node in two steps: it
    first gets a ping id, a hash over a secret of the node, a 20-second window,
    the client's key and its address, and then stores an entry by sending the id
    back.  Others search for the entry by its key.  [handleAnnounceRequest] is
    the handler of both, on the state of the announce service and of the DHT
    node below it ([DhtNode.DHT]).  Times are nanoseconds and are arguments. *)

From S2P Require Import Prelude GoIO GoText Box Sha2 TcpHandshake PriorityList Dht DhtNode.
Local Open Scope Z_scope.

(** ** Constants *)

Definition SIZE_IPPORT : nat := 1 + 16 + 2.
Definition ONION_RETURN_1 : nat := Mintox.NONCE_SIZE + SIZE_IPPORT + Mintox.MAC_SIZE.
Definition ONION_RETURN_2 : nat := Mintox.NONCE_SIZE + SIZE_IPPORT + Mintox.MAC_SIZE + ONION_RETURN_1.
Definition ONION_RETURN_3 : nat := Mintox.NONCE_SIZE + SIZE_IPPORT + Mintox.MAC_SIZE + ONION_RETURN_2.
Definition ONION_ANNOUNCE_MAX_ENTRIES : nat := 160.
Definition ONION_ANNOUNCE_TIMEOUT : Z := 300.
Definition ONION_PING_ID_SIZE : nat := 32.
Definition ONION_ANNOUNCE_SENDBACK_DATA_LENGTH : nat := 8.
Definition ONION_ANNOUNCE_REQUEST_SIZE : nat :=
  1 + Mintox.NONCE_SIZE + PUBLIC_KEY_SIZE + ONION_PING_ID_SIZE + PUBLIC_KEY_SIZE + PUBLIC_KEY_SIZE +
  ONION_ANNOUNCE_SENDBACK_DATA_LENGTH + Mintox.MAC_SIZE.
Definition PING_ID_TIMEOUT : Z := 20.
Definition ANNOUNCE_REQUEST_SIZE_RECV : nat := ONION_ANNOUNCE_REQUEST_SIZE + ONION_RETURN_3.
Definition NET_PACKET_ANNOUNCE_REQUEST : Z := 131.
Definition NET_PACKET_ANNOUNCE_RESPONSE : Z := 132.
Definition NET_PACKET_ONION_RECV_3 : Z := 140.

(** ** Paths *)

Record OnionPath := mkPath {
  shrkey1 : bytes; shrkey2 : bytes; shrkey3 : bytes;
  pubkey1 : bytes; pubkey2 : bytes; pubkey3 : bytes;
  addr1 : Addr; nodepk1 : bytes;
  addr2 : Addr; nodepk2 : bytes;
  addr3 : Addr; nodepk3 : bytes
}.

Section Paths.
Context `{NaclBox} `{Gopp}.

(** [NewOnionPath]: [k2] and [k3] are the key pairs drawn. *)
Definition NewOnionPath (d : DHT) (k2 k3 : bytes * bytes) (nodes : list (bytes * Addr))
    : outcome hs_err OnionPath :=
  match nodes with
  | (pk1, a1) :: (pk2, a2) :: (pk3, a3) :: _ =>
      s1 ← Mintox.CBBeforeNm2 pk1 (SelfSeckey d);
      s2 ← Mintox.CBBeforeNm2 pk2 k2.2;
      s3 ← Mintox.CBBeforeNm2 pk3 k3.2;
      Ret (mkPath s1 s2 s3 (SelfPubkey d) k2.1 k3.1 a1 pk1 a2 pk2 a3 pk3)
  | _ => Panic                                      (* nodes[i] *)
  end.

Definition ToNodes (p : OnionPath) : list (bytes * Addr) :=
  [(pubkey1 p, addr1 p); (pubkey2 p, addr2 p); (pubkey3 p, addr3 p)].

End Paths.

(** ** Announcements: state *)

Record Onion_Announce_Entry := mkAnn {
  e_Pubkey : bytes;
  e_RetAddr : Addr;
  e_RetDat : bytes;
  e_DatPubkey : bytes;
  e_Timestamp : Z;
  e_cmppk : bytes
}.

Definition timed_out (now : Z) (e : Onion_Announce_Entry) : bool :=
  IsTimeout4Time now (e_Timestamp e) ONION_ANNOUNCE_TIMEOUT.

Definition ann_Compare (now : Z) (this that : Onion_Announce_Entry) : Z :=
  let t1 := timed_out now this in
  let t2 := timed_out now that in
  if t1 && t2 then 0
  else if t1 then -1
  else if t2 then 1
  else closest (e_cmppk this) (e_Pubkey this) (e_Pubkey that).

#[export] Instance ann_item (now : Z) : PLItem Onion_Announce_Entry := {
  Compare := ann_Compare now;
  Key := e_Pubkey
}.

Record Onion_Announce := mkAnnounce {
  Entries : PriorityList Onion_Announce_Entry;
  SecBytes : bytes;
  ann_SharedKeysRecv : sharedKeys
}.

(** [sec] is the secret key of the pair drawn. *)
Definition NewOnionAnnounce (sec : bytes) : Onion_Announce :=
  mkAnnounce (NewPriorityList ONION_ANNOUNCE_MAX_ENTRIES) sec ∅.

Section Announce.
Context `{NaclBox} `{Gopp} `{GoppDhtBuffer}.

(** [t.Unix()] in seconds, of a time in nanoseconds *)
Definition Unix (t : Z) : Z := t / 1000000000.

Definition generate_ping_id (a : Onion_Announce) (t : Z) (pubkey : bytes) (retaddr : Addr)
    : outcome hs_err bytes :=
  let ts := Z.quot (Unix t) PING_ID_TIMEOUT in
  match retaddr with
  | TCPAddr _ _ => Panic                            (* the type assertion *)
  | UDPAddr ip port =>
      Ret (sha256 (SecBytes a ++ be_bytes 8 ts ++ pubkey ++ ip ++ be_bytes 2 (u16 port)))
  end.

Definition set_Entries (pl : PriorityList Onion_Announce_Entry) (a : Onion_Announce) : Onion_Announce :=
  mkAnnounce pl (SecBytes a) (ann_SharedKeysRecv a).

(** An entry that has timed out is removed. *)
Definition find_in_entries (now : Z) (searchpk : bytes) (a : Onion_Announce)
    : outcome hs_err (option Onion_Announce_Entry * Onion_Announce) :=
  match GetByKey searchpk (Entries a) with
  | None => Ret (None, a)
  | Some item =>
      if timed_out now item then
        match @Remove _ (ann_item now) item (Entries a) with
        | Ret (_, pl) => Ret (None, set_Entries pl a)
        | _ => Panic
        end
      else Ret (Some item, a)
  end.

Definition add_to_entries (now : Z) (self : bytes) (retaddr : Addr) (pubkey datpubkey retdat : bytes)
    (a : Onion_Announce) : outcome hs_err (option Onion_Announce_Entry * Onion_Announce) :=
  let entry := mkAnn pubkey retaddr retdat datpubkey now self in
  match @Put _ (ann_item now) entry (Entries a) with
  | Ret (true, pl) => find_in_entries now pubkey (set_Entries pl a)
  | Ret (false, pl) => Ret (None, set_Entries pl a)
  | _ => Panic
  end.

(** The first part of the answer: whether the entry is stored, and the ping id
    or the data key. *)
Definition ann_status (inentry : option Onion_Announce_Entry) (pktpk datpubkey pingid2 : bytes) : bytes :=
  match inentry with
  | None => zb 0 :: pingid2
  | Some e =>
      if bool_decide (e_Pubkey e = pktpk) then
        if bool_decide (e_DatPubkey e ≠ datpubkey) then zb 0 :: pingid2 else zb 2 :: pingid2
      else zb 1 :: e_DatPubkey e
  end.

(** [SendOnionResponse]; the error of the socket is printed. *)
Definition SendOnionResponse (dest : Addr) (data retdat : bytes) (d : DHT) : DHT :=
  WriteTo (zb NET_PACKET_ONION_RECV_3 :: retdat ++ data) dest d.

Definition handleAnnounceRequest (now : Z) (rnd : list nat) (addr : Addr) (data : bytes)
    (a : Onion_Announce) (d : DHT) : outcome hs_err (Onion_Announce * DHT) :=
  _ ← index data 0;
  _ ← Assert (bool_decide (length data = ANNOUNCE_REQUEST_SIZE_RECV));
  nonce ← slice data 1 (1 + Mintox.NONCE_SIZE);
  k ← slice data (1 + Mintox.NONCE_SIZE) (1 + Mintox.NONCE_SIZE + PUBLIC_KEY_SIZE);
  pktpk ← Mintox.NewCryptoKey k;
  '(shrkey, m) ← GetSharedKey (SelfSeckey d) (ann_SharedKeysRecv a) pktpk;
  let a0 := mkAnnounce (Entries a) (SecBytes a) m in
  let wntsz := (ONION_PING_ID_SIZE + PUBLIC_KEY_SIZE + PUBLIC_KEY_SIZE +
                ONION_ANNOUNCE_SENDBACK_DATA_LENGTH + Mintox.MAC_SIZE)%nat in
  enc ← slice data (1 + Mintox.NONCE_SIZE + PUBLIC_KEY_SIZE)
                   (1 + Mintox.NONCE_SIZE + PUBLIC_KEY_SIZE + wntsz);
  plnpkt ← ErrPrint (Mintox.DecryptDataSymmetric2 shrkey nonce enc);
  pingid ← slice_to plnpkt ONION_PING_ID_SIZE;
  s ← slice plnpkt ONION_PING_ID_SIZE (ONION_PING_ID_SIZE + PUBLIC_KEY_SIZE);
  searchpk ← Mintox.NewCryptoKey s;
  p ← slice plnpkt (ONION_PING_ID_SIZE + PUBLIC_KEY_SIZE) (ONION_PING_ID_SIZE + PUBLIC_KEY_SIZE * 2);
  datpubkey ← Mintox.NewCryptoKey p;
  sbdata ← slice_from plnpkt (ONION_PING_ID_SIZE + PUBLIC_KEY_SIZE * 2);
  retdat ← slice_from data (ANNOUNCE_REQUEST_SIZE_RECV - ONION_RETURN_3);
  pingid1 ← generate_ping_id a0 now pktpk addr;
  pingid2 ← generate_ping_id a0 (now + PING_ID_TIMEOUT * 1000000000) pktpk addr;
  let '((_, rspnonce), d1) := draw d in
  nodes ← get_close_nodes rnd d1;
  '(inentry, a1) ← (if bool_decide (pingid1 = pingid) || bool_decide (pingid2 = pingid)
                    then add_to_entries now (SelfPubkey d1) addr pktpk datpubkey retdat a0
                    else find_in_entries now searchpk a0);
  packed ← pack_nodes nodes;
  encplpkt ← ErrPrint (Mintox.EncryptDataSymmetric2 shrkey rspnonce
                         (ann_status inentry pktpk datpubkey pingid2 ++ packed));
  Ret (a1, SendOnionResponse addr
             (zb NET_PACKET_ANNOUNCE_RESPONSE :: sbdata ++ rspnonce ++ encplpkt) retdat d1).

(** ** The node with its announce service *)

(** The dispatch of [doPoll] with the handler of [NewOnionAnnounce] registered. *)
Definition deliver_all (now : Z) (rnd : list nat) (filler : bytes) (addr : Addr) (data : bytes)
    (s : Onion_Announce * DHT) : outcome hs_err (Onion_Announce * DHT) :=
  let '(a, d) := s in
  match data with
  | b :: _ =>
      if bz b =? NET_PACKET_ANNOUNCE_REQUEST then handleAnnounceRequest now rnd addr data a d
      else d1 ← deliver now rnd filler addr data d; Ret (a, d1)
  | [] => Ret (a, d)
  end.

Definition exec_node (e : event) (s : Onion_Announce * DHT) : outcome hs_err (Onion_Announce * DHT) :=
  match e with
  | EvDatagram now rnd filler addr data => deliver_all now rnd filler addr data s
  | e => d1 ← exec e s.2; Ret (s.1, d1)
  end.

Fixpoint run_node (es : list event) (s : Onion_Announce * DHT) : outcome hs_err (Onion_Announce * DHT) :=
  match es with
  | [] => Ret s
  | e :: es => s1 ← exec_node e s; run_node es s1
  end.

End Announce.

(** ** Invariant *)

Lemma pl_ok_time t t' pl : @pl_ok _ (ann_item t) pl → @pl_ok _ (ann_item t') pl.
Proof. intros [Hn Hk Hb]. split; [exact Hn|exact Hk|exact Hb]. Qed.

Record entries_ok (pl : PriorityList Onion_Announce_Entry) : Prop := {
  eo_pl : @pl_ok _ (ann_item 0) pl;
  eo_max : max pl = ONION_ANNOUNCE_MAX_ENTRIES;
  eo_key : map_Forall (λ k e, e_Pubkey e = k ∧ length k = PUBLIC_KEY_SIZE) (keys pl)
}.

(** Where an entry of the map after [Put] comes from. *)
Lemma Put_entries t e pl pl' b :
  entries_ok pl → length (e_Pubkey e) = PUBLIC_KEY_SIZE →
  @Put _ (ann_item t) e pl = Ret (b, pl') →
  b = true ∧ entries_ok pl' ∧
  (∀ k x, keys pl' !! k = Some x → keys pl !! k = Some x ∨ k = e_Pubkey e ∧ x = e).
Proof.
  intros [Hp Hm Hk] Hl E.
  destruct (@Put_ok _ (ann_item t) e pl (pl_ok_time _ _ _ Hp)) as (pl2 & E2 & Hp2 & Hm2).
  rewrite E in E2. injection E2 as -> ->. split; [done|].
  assert (∀ k x, keys pl2 !! k = Some x → keys pl !! k = Some x ∨ k = e_Pubkey e ∧ x = e) as Hfrom.
  { clear Hp2 Hm2 Hk Hm Hp Hl. intros k x Hx. unfold Put in E. cbn [Key ann_item] in E.
    destruct (keys pl !! e_Pubkey e); [injection E as <-; by left|].
    cbv zeta in E. destruct (bool_decide (length _ = _)); [|done].
    injection E as <-. revert Hx.
    assert (∀ m : gmap bytes Onion_Announce_Entry, <[e_Pubkey e := e]> (keys pl) !! k = Some x ∨ m !! k = None →
      m !! k = Some x → keys pl !! k = Some x ∨ k = e_Pubkey e ∧ x = e) as Hgo.
    { intros m [Hi|Hn] Hx; [|congruence]. apply lookup_insert_Some in Hi as [[? ?]|[_ ?]]; auto. }
    destruct (bool_decide _); cbn [keys].
    - intros Hx. eapply Hgo; [|exact Hx]. rewrite (drop_keys_lookup (H := ann_item t)) in Hx |- *.
      destruct (bool_decide _); [done|by left].
    - intros Hx. eapply Hgo; [by left|exact Hx]. }
  split; [|exact Hfrom]. split; [by eapply pl_ok_time|congruence|].
  intros k x Hx. destruct (Hfrom k x Hx) as [Ho|[-> ->]]; [by apply Hk|done].
Qed.

Lemma find_entries now pk a :
  entries_ok (Entries a) →
  ∃ r a', find_in_entries now pk a = Ret (r, a') ∧ entries_ok (Entries a') ∧
    SecBytes a' = SecBytes a ∧ ann_SharedKeysRecv a' = ann_SharedKeysRecv a ∧
    keys (Entries a') ⊆ keys (Entries a) ∧ keys (Entries a') !! pk = r ∧
    r = match keys (Entries a) !! pk with
        | Some e => if timed_out now e then None else Some e
        | None => None
        end.
Proof.
  intros [Hp Hm Hk]. unfold find_in_entries, GetByKey.
  destruct (keys (Entries a) !! pk) as [e|] eqn:E; [|by exists None, a].
  destruct (timed_out now e); [|by exists (Some e), a].
  destruct (Hk _ _ E) as [<- _].
  destruct (@Remove_behaviour _ (ann_item now) e (Entries a) (pl_ok_time _ _ _ Hp)) as (pl & Er & Hp' & _).
  rewrite Er. eexists None, _. split; [done|].
  unfold Remove in Er. cbn [Key ann_item] in Er. rewrite E in Er.
  destruct (bool_decide (key_pos _ _ + 1 ≤ _)%nat); [|done]. injection Er as _ <-. cbn.
  split; [|split; [done|split; [done|split; [apply delete_subseteq|split; [apply lookup_delete_eq|done]]]]].
  split; [by eapply pl_ok_time|done|]. cbn. by apply map_Forall_delete.
Qed.

Lemma add_entries now self addr pk dat ret a r a' :
  entries_ok (Entries a) → length pk = PUBLIC_KEY_SIZE →
  add_to_entries now self addr pk dat ret a = Ret (r, a') →
  entries_ok (Entries a') ∧ SecBytes a' = SecBytes a ∧ ann_SharedKeysRecv a' = ann_SharedKeysRecv a ∧
  (∀ k x, keys (Entries a') !! k = Some x → keys (Entries a) !! k = Some x ∨
     k = pk ∧ x = mkAnn pk addr ret dat now self).
Proof.
  intros Ho Hl. unfold add_to_entries. destruct (Put _ _) as [[b pl]| |] eqn:E; [|done|done].
  apply Put_entries in E as (-> & Hpl & Hfrom); [|done|done].
  destruct (find_entries now pk (set_Entries pl a) Hpl) as (r2 & a2 & -> & H2 & Hs & Hk & Hsub & _).
  intros [= <- <-]. split; [done|]. split; [done|]. split; [done|].
  intros k x Hx. apply Hfrom. exact (lookup_weaken _ _ _ _ Hx Hsub).
Qed.

Section Runs.
Context `{NaclBoxLaws} `{GoppLaws} `{GoppDhtBuffer}.

Lemma traffic_seckey d d' : traffic d d' → SelfSeckey d' = SelfSeckey d.
Proof. by intros [(_ & _ & Hs & _) _]. Qed.

Lemma process_nodes_seckey now n off plain d d' :
  process_nodes now n off plain d = Ret d' → SelfSeckey d' = SelfSeckey d.
Proof.
  revert off d. induction n as [|n IH]; intros off d Hp; cbn [process_nodes] in Hp.
  { by apply (inj Ret) in Hp as <-. }
  destruct (rbuf_at off plain) as [buf|]; [|done].
  apply bind_ret_inv in Hp as ([[a k] r] & _ & Hp). apply bind_ret_inv in Hp as (d1 & E & Hp).
  rewrite (IH _ _ Hp). clear IH Hp. unfold process_node in E.
  destruct (alloc _ _) as [p h1]. apply bind_ret_inv in E as (tb & _ & E).
  destruct (alloc _ _) as [c h2]. apply bind_ret_inv in E as (cc & _ & E).
  apply bind_ret_inv in E as ([h3 fs] & _ & E). by apply (inj Ret) in E as <-.
Qed.

Lemma deliver_seckey now rnd fill a data d d' :
  deliver now rnd fill a data d = Ret d' → SelfSeckey d' = SelfSeckey d.
Proof.
  unfold deliver. destruct data as [|b data]; [by intros [= <-]|].
  destruct (_ =? _); [intros Hh; by eapply traffic_seckey, traffic_HandlePingRequest|].
  destruct (_ =? _); [by intros [= <-]|].
  destruct (_ =? _); [intros Hh; by eapply traffic_seckey, traffic_HandleGetNodes|].
  destruct (_ =? _).
  { unfold HandleSendNodesIpv6. intros Hh. apply bind_ret_inv in Hh as ([[pk n] e] & _ & Hh).
    apply bind_ret_inv in Hh as ([k d1] & Hk & Hh). apply bind_ret_inv in Hh as (pl & _ & Hh).
    apply bind_ret_inv in Hh as (? & _ & Hh). apply process_nodes_seckey in Hh. rewrite Hh.
    by eapply traffic_seckey, traffic_sent. }
  destruct (_ =? _); [by intros [= <-]|].
  destruct (_ && _); [|by intros [= <-]]. unfold handleInfoRequest. destruct (default _ _) as [v m].
  intros Hh. apply bind_ret_inv in Hh as (u & _ & Hh). by apply (inj Ret) in Hh as <-.
Qed.

Lemma exec_seckey e d d' : exec e d = Ret d' → SelfSeckey d' = SelfSeckey d.
Proof.
  destruct e; cbn [exec].
  - apply deliver_seckey.
  - unfold AddFriend. destruct (existsb _ _); [by intros [= <-]|]. intros Hh.
    apply bind_ret_inv in Hh as ([h tb] & _ & Hh). by apply (inj Ret) in Hh as <-.
  - intros Hh. by eapply traffic_seckey, traffic_GetNodes.
  - intros Hh. by eapply traffic_seckey, traffic_SendPingRequest.
  - unfold doClosest. intros Hc. apply bind_ret_inv in Hc as (d1 & H1' & Hc).
    assert (SelfSeckey d1 = SelfSeckey d) as E1.
    { destruct (bool_decide _); [by apply (inj Ret) in H1' as <-|].
      destruct (lst _ !! _); [|done]. by eapply traffic_seckey, traffic_get_all. }
    apply bind_ret_inv in Hc as (need & _ & Hc). apply bind_ret_inv in Hc as (good & _ & Hc).
    apply bind_ret_inv in Hc as (d2 & H2' & Hc).
    assert (SelfSeckey d2 = SelfSeckey d1) as E2.
    { destruct (need !! _) as [p|]; [|by apply (inj Ret) in H2' as <-].
      apply traffic_get_all, traffic_seckey in H2'. exact H2'. }
    destruct (_ && _); [|apply (inj Ret) in Hc as <-; congruence].
    destruct (good !! _); [|done]. apply traffic_get_all, traffic_seckey in Hc.
    rewrite Hc. cbn. congruence.
  - intros Hh. by eapply traffic_seckey, do_friends_traffic.
  - intros Hh. apply (inj Ret) in Hh as <-. unfold BootstrapSetCallback. by destruct (_ >? _).
Qed.

(** The state of a node with its announce service. *)
Record node_ok (s : Onion_Announce * DHT) : Prop := {
  no_dht : dht_ok s.2;
  no_entries : entries_ok (Entries s.1);
  no_keys : keys_ok (SelfSeckey s.2) (ann_SharedKeysRecv s.1)
}.

Lemma NewCryptoKey_eq {E} b (k : bytes) :
  Mintox.NewCryptoKey (E := E) b = Ret k → k = b ∧ length b = PUBLIC_KEY_SIZE.
Proof.
  destruct (decide (length b = PUBLIC_KEY_SIZE)) as [Hl|Hl].
  - rewrite Mintox.NewCryptoKey_ok by done. by intros [= <-].
  - unfold Mintox.NewCryptoKey. rewrite bool_decide_false, Assert_false by done. done.
Qed.

(** The fields of a request and the key it is opened with. *)
Record opened (data : bytes) (sk : bytes) (nonce pk enc ret plain : bytes) : Prop := {
  op_data : data = take 1 data ++ nonce ++ pk ++ enc ++ ret;
  op_nonce : length nonce = Mintox.NONCE_SIZE;
  op_pk : length pk = PUBLIC_KEY_SIZE;
  op_plain : ErrPrint (Mintox.DecryptDataSymmetric2 (box_precompute pk sk) nonce enc) =
               Ret (E := hs_err) plain
}.

Lemma request_parts (data : bytes) :
  data = take 1 data ++ take 24 (drop 1 data) ++ take 32 (drop 25 data) ++ take 120 (drop 57 data) ++
         drop 177 data.
Proof.
  rewrite <- (drop_take_drop 57 120), <- (drop_take_drop 25 32), <- (drop_take_drop 1 24).
  by rewrite take_drop.
Qed.

(** What a request that was handled held, and what it did. *)
Lemma announce_inv now rnd addr data a d a' d' :
  keys_ok (SelfSeckey d) (ann_SharedKeysRecv a) →
  handleAnnounceRequest now rnd addr data a d = Ret (a', d') →
  ∃ nonce pk enc ret plain m id1 id2 r,
    opened data (SelfSeckey d) nonce pk enc ret plain ∧
    keys_ok (SelfSeckey d) m ∧ traffic d d' ∧
    let a0 := mkAnnounce (Entries a) (SecBytes a) m in
    generate_ping_id a now pk addr = Ret id1 ∧
    generate_ping_id a (now + PING_ID_TIMEOUT * 1000000000) pk addr = Ret id2 ∧
    (if bool_decide (id1 = take ONION_PING_ID_SIZE plain) ||
        bool_decide (id2 = take ONION_PING_ID_SIZE plain)
     then add_to_entries now (SelfPubkey d) addr pk (take 32 (drop 64 plain)) ret a0
     else find_in_entries now (take 32 (drop 32 plain)) a0) = Ret (r, a').
Proof.
  intros Hk Hh. unfold handleAnnounceRequest in Hh.
  apply bind_ret_inv in Hh as (? & _ & Hh). apply bind_ret_inv in Hh as (? & _ & Hh).
  apply bind_ret_inv in Hh as (nonce & Hn & Hh). apply slice_inv in Hn as [Ln ->].
  apply bind_ret_inv in Hh as (k & Hs & Hh). apply slice_inv in Hs as [Lk ->].
  apply bind_ret_inv in Hh as (pk & Hpk & Hh). apply NewCryptoKey_eq in Hpk as [-> Lpk].
  set (pk := take _ _) in *.
  apply bind_ret_inv in Hh as ([shr m] & Hg & Hh).
  apply GetSharedKey_inv in Hg as [Hm ->]; [|done].
  apply bind_ret_inv in Hh as (enc & He & Hh). apply slice_inv in He as [Le ->].
  apply bind_ret_inv in Hh as (plain & Hp & Hh).
  apply bind_ret_inv in Hh as (pingid & Hi & Hh). apply slice_to_inv in Hi as [_ ->].
  apply bind_ret_inv in Hh as (s & Hs & Hh). apply slice_inv in Hs as [_ ->].
  apply bind_ret_inv in Hh as (searchpk & Hs & Hh). apply NewCryptoKey_eq in Hs as [-> _].
  apply bind_ret_inv in Hh as (p & Hd & Hh). apply slice_inv in Hd as [_ ->].
  apply bind_ret_inv in Hh as (dat & Hd & Hh). apply NewCryptoKey_eq in Hd as [-> _].
  apply bind_ret_inv in Hh as (sb & _ & Hh).
  apply bind_ret_inv in Hh as (ret & Hr & Hh). apply slice_from_inv in Hr as [Lr ->].
  apply bind_ret_inv in Hh as (id1 & H1' & Hh). apply bind_ret_inv in Hh as (id2 & H2' & Hh).
  pose proof (traffic_draw d) as Ht. destruct (draw d) as [[z rn] d1]. cbn [snd] in Ht.
  apply bind_ret_inv in Hh as (nodes & _ & Hh). apply bind_ret_inv in Hh as ([r a1] & Hx & Hh).
  apply bind_ret_inv in Hh as (packed & _ & Hh). apply bind_ret_inv in Hh as (c & _ & Hh).
  apply (inj Ret) in Hh. injection Hh as <- <-.
  eexists _, pk, _, _, plain, m, id1, id2, r. split.
  - split; [|..|exact Hp].
    + exact (request_parts data).
    + rewrite length_take, length_drop. unfold Mintox.NONCE_SIZE in *. lia.
    + exact Lpk.
  - split; [exact Hm|]. split; [eapply traffic_trans; [exact Ht|apply traffic_WriteTo]|].
    split; [exact H1'|]. split; [exact H2'|].
    destruct Ht as [(_ & E & _) _]. rewrite <- E. exact Hx.
Qed.

Lemma announce_ok now rnd addr data a d a' d' :
  node_ok (a, d) → handleAnnounceRequest now rnd addr data a d = Ret (a', d') → node_ok (a', d').
Proof.
  intros [Hd He Hk] Hh. cbn [fst snd] in *.
  destruct (announce_inv _ _ _ _ _ _ _ _ Hk Hh) as
    (nonce & pk & enc & ret & plain & m & id1 & id2 & r & Ho & Hm & Ht & _ & _ & Hx).
  assert (entries_ok (Entries a') ∧ ann_SharedKeysRecv a' = m) as [He' <-].
  { destruct (_ || _).
    - by apply add_entries in Hx as (? & _ & ? & _); [|done|apply Ho].
    - destruct (find_entries now (take 32 (drop 32 plain)) (mkAnnounce (Entries a) (SecBytes a) m) He)
        as (r2 & a2 & Ef & ? & _ & ? & _). rewrite Hx in Ef. injection Ef as <- <-. done. }
  split; cbn [fst snd]; [by eapply traffic_ok|done|]. by rewrite (traffic_seckey _ _ Ht).
Qed.

Lemma run_node_ok es s s' :
  node_ok s → Forall event_ok es → run_node es s = Ret s' → node_ok s'.
Proof.
  intros Hs Hes. revert s Hs. induction Hes as [|e es He _ IH]; intros s Hs Hr.
  { by apply (inj Ret) in Hr as <-. }
  cbn [run_node] in Hr. apply bind_ret_inv in Hr as (s1 & Hx & Hr). apply (IH s1); [|done]. clear IH Hr.
  destruct s as [a d].
  assert (∀ e' d1, event_ok e' → exec e' d = Ret d1 → node_ok (a, d1)) as Hexec.
  { intros e' d1 He' Hd1. destruct Hs as [Hd Hn Hk]. split; [|exact Hn|].
    - apply (exec_all_ok [e'] d d1 Hd); [by constructor|]. cbn [exec_all]. by rewrite Hd1.
    - cbn [fst snd] in *. by rewrite (exec_seckey _ _ _ Hd1). }
  destruct e as [now rnd fill addr data| | | | | | ]; cbn [exec_node] in Hx;
    try (apply bind_ret_inv in Hx as (d1 & Hd1 & Hx); apply (inj Ret) in Hx as <-; by eapply Hexec).
  unfold deliver_all in Hx. destruct data as [|b data]; [by apply (inj Ret) in Hx as <-|].
  destruct (_ =? _).
  - destruct s1 as [a1 d1]. by eapply announce_ok.
  - apply bind_ret_inv in Hx as (d1 & Hd1 & Hx). apply (inj Ret) in Hx as <-.
    by apply (Hexec (EvDatagram now rnd fill addr (b :: data))).
Qed.

(** ** Requests of a client *)

Definition announce_request (nonce pk shr pingid search dat sb ret : bytes) : bytes :=
  zb NET_PACKET_ANNOUNCE_REQUEST :: nonce ++ pk ++ box_seal (pingid ++ search ++ dat ++ sb) nonce shr ++ ret.

(** The lengths of the fields. *)
Record fields_ok (nonce pingid search dat sb ret : bytes) : Prop := {
  fo_nonce : length nonce = Mintox.NONCE_SIZE;
  fo_pingid : length pingid = ONION_PING_ID_SIZE;
  fo_search : length search = PUBLIC_KEY_SIZE;
  fo_dat : length dat = PUBLIC_KEY_SIZE;
  fo_sb : length sb = ONION_ANNOUNCE_SENDBACK_DATA_LENGTH;
  fo_ret : length ret = ONION_RETURN_3
}.

(** [d'] is [d] after one answer to [addr], with [text] sealed under [key]. *)
Definition answered (addr : Addr) (ret sb rn key text : bytes) (d d' : DHT) : Prop :=
  d' = WriteTo (zb NET_PACKET_ONION_RECV_3 :: ret ++ zb NET_PACKET_ANNOUNCE_RESPONSE :: sb ++ rn ++
                box_seal text rn key) addr (draw d).2.

Definition ping_id (a : Onion_Announce) (t : Z) (pk ip : bytes) (port : Z) : bytes :=
  sha256 (SecBytes a ++ be_bytes 8 (Z.quot (Unix t) PING_ID_TIMEOUT) ++ pk ++ ip ++ be_bytes 2 (u16 port)).

Definition next_window (now : Z) : Z := now + PING_ID_TIMEOUT * 1000000000.

(** The handler on an authentic request. *)
Lemma announce_run now rnd ip port csk nonce pingid search dat sb ret a d rn nodes packed :
  let pk := scalar_base csk in
  let shr := box_precompute pk (SelfSeckey d) in
  let id1 := ping_id a now pk ip port in
  let id2 := ping_id a (next_window now) pk ip port in
  keys_ok (SelfSeckey d) (ann_SharedKeysRecv a) → length csk = KeySize →
  length (SelfSeckey d) = KeySize → fields_ok nonce pingid search dat sb ret →
  (draw d).1.2 = rn → get_close_nodes rnd d = Ret nodes → pack_nodes nodes = Ret packed →
  ∃ m, keys_ok (SelfSeckey d) m ∧
    let a0 := mkAnnounce (Entries a) (SecBytes a) m in
    ∀ r a1,
    (if bool_decide (id1 = pingid) || bool_decide (id2 = pingid)
     then add_to_entries now (SelfPubkey d) (UDPAddr ip port) pk dat ret a0
     else find_in_entries now search a0) = Ret (r, a1) →
    ∃ d', handleAnnounceRequest now rnd (UDPAddr ip port)
        (announce_request nonce pk shr pingid search dat sb ret) a d = Ret (a1, d') ∧
      answered (UDPAddr ip port) ret sb rn shr (ann_status r pk dat id2 ++ packed) d d'.
Proof.
  intros pk shr id1 id2 Hk Hc Hs [Fn Fp Fs Fd Fb Fr] Hrn Hnodes Hpack.
  assert (length pk = PUBLIC_KEY_SIZE) as Lpk by (by apply base_length).
  destruct (GetSharedKey_ok (SelfSeckey d) (ann_SharedKeysRecv a) pk Hk Hs Lpk) as (m & Eg & Hm & _).
  exists m. split; [done|]. intros a0 r a1 Hx. eexists. split; [|reflexivity].
  unfold announce_request. set (plain := pingid ++ search ++ dat ++ sb).
  set (enc := box_seal plain nonce shr).
  assert (length enc = 120%nat) as Le.
  { unfold enc. rewrite seal_length. unfold plain. rewrite !length_app, Fp, Fs, Fd, Fb. done. }
  unfold handleAnnounceRequest.
  set (t := zb NET_PACKET_ANNOUNCE_REQUEST). change (t :: nonce ++ pk ++ enc ++ ret)
    with ([t] ++ nonce ++ pk ++ enc ++ ret).
  change (index ([t] ++ _) 0) with (Ret (E := hs_err) t). cbn [mbind outcome_bind].
  rewrite bind_Assert.
  2:{ apply bool_decide_true. rewrite !length_app, Fn, Lpk, Le, Fr. done. }
  rewrite (slice_app3 [t] nonce _ 1 Mintox.NONCE_SIZE) by done. cbn [mbind outcome_bind].
  rewrite (app_assoc [t]).
  rewrite (slice_app3 ([t] ++ nonce) pk _ (1 + Mintox.NONCE_SIZE) PUBLIC_KEY_SIZE)
    by (rewrite ?length_app, ?Fn; done). cbn [mbind outcome_bind].
  rewrite Mintox.NewCryptoKey_ok by done. cbn [mbind outcome_bind].
  fold shr in Eg. rewrite Eg. cbn [mbind outcome_bind].
  rewrite (app_assoc ([t] ++ nonce)).
  rewrite (slice_app3 (([t] ++ nonce) ++ pk) enc ret (1 + Mintox.NONCE_SIZE + PUBLIC_KEY_SIZE) 120)
    by (rewrite ?length_app, ?Fn, ?Lpk; done). cbn [mbind outcome_bind].
  assert (Mintox.DecryptDataSymmetric2 shr nonce enc = Ret plain) as ->
    by apply Mintox.DecryptDataSymmetric2_ok, open_seal.
  cbn [ErrPrint mbind outcome_bind]. unfold plain.
  rewrite slice_to_app by done. cbn [mbind outcome_bind].
  rewrite (slice_app3 pingid search _ ONION_PING_ID_SIZE PUBLIC_KEY_SIZE) by done. cbn [mbind outcome_bind].
  rewrite Mintox.NewCryptoKey_ok by done. cbn [mbind outcome_bind].
  rewrite (app_assoc pingid), (slice_app3 (pingid ++ search) dat sb 64 32)
    by (rewrite ?length_app, ?Fp, ?Fs; done). cbn [mbind outcome_bind].
  rewrite Mintox.NewCryptoKey_ok by done. cbn [mbind outcome_bind].
  rewrite (app_assoc (pingid ++ search)), (slice_from_app ((pingid ++ search) ++ dat) sb)
    by (rewrite !length_app, Fp, Fs, Fd; done).
  cbn [mbind outcome_bind]. rewrite (app_assoc (([t] ++ nonce) ++ pk)).
  rewrite slice_from_app by (rewrite !length_app, Fn, Lpk, Le; done). cbn [mbind outcome_bind].
  change (mkAnnounce (Entries a) (SecBytes a) m) with a0.
  change (generate_ping_id a0 now pk (UDPAddr ip port)) with (Ret (E := hs_err) id1).
  change (generate_ping_id a0 _ pk (UDPAddr ip port)) with (Ret (E := hs_err) id2).
  cbn [mbind outcome_bind].
  assert (get_close_nodes rnd (draw d).2 = Ret nodes ∧ SelfPubkey (draw d).2 = SelfPubkey d) as [Hn2 Hp2].
  { rewrite <- Hnodes. unfold draw. by destruct (draws d). }
  unfold answered. destruct (draw d) as [[z rn'] d1]. cbn [fst snd] in *. subst rn'.
  rewrite Hn2. cbn [mbind outcome_bind]. rewrite Hp2, Hx. cbn [mbind outcome_bind].
  rewrite Hpack. cbn [mbind outcome_bind]. rewrite Mintox.EncryptDataSymmetric2_ok. done.
Qed.

(** An answer changes nothing but the draws and what was sent. *)
Lemma answered_frame addr ret sb rn key text d d' :
  answered addr ret sb rn key text d d' →
  draws d' = tail (draws d) ∧ SelfSeckey d' = SelfSeckey d ∧ SelfPubkey d' = SelfPubkey d ∧
  ∀ rnd, get_close_nodes rnd d' = get_close_nodes rnd d.
Proof.
  intros ->. unfold draw. destruct (draws d) as [|x l] eqn:E; cbn [snd]; [|done].
  split; [exact E|done].
Qed.

(** The nodes of an answer, packed. *)
Definition close_nodes (rnd : list nat) (packed : bytes) (d : DHT) : Prop :=
  ∃ nodes, get_close_nodes rnd d = Ret nodes ∧ pack_nodes nodes = Ret packed.

Lemma Put_room t e pl :
  entries_ok pl → keys pl !! e_Pubkey e = None →
  (length (lst pl) < ONION_ANNOUNCE_MAX_ENTRIES)%nat →
  ∃ pl', @Put _ (ann_item t) e pl = Ret (true, pl') ∧ keys pl' = <[e_Pubkey e := e]> (keys pl).
Proof.
  intros [Hp Hm Hk] He Hr.
  destruct (@Put_new _ (ann_item t) e pl (pl_ok_time _ _ _ Hp) He) as (pl' & E & _).
  exists pl'. split; [done|]. unfold Put in E. cbn [Key ann_item] in E. rewrite He in E. cbv zeta in E.
  rewrite (bool_decide_false (max pl < _)%nat) in E.
  - destruct (bool_decide _) in E; [|done]. by injection E as <-.
  - rewrite length_app. cbn [length]. rewrite length_take, length_drop.
    pose proof (ok_bound _ Hp). lia.
Qed.

Lemma fresh_entry t t' e :
  e_Timestamp e = t → t ≤ t' < t + 301 * 1000000000 → timed_out t' e = false.
Proof.
  intros <- Ht. unfold timed_out, IsTimeout4Time, time_Sub, ONION_ANNOUNCE_TIMEOUT.
  rewrite Z.gtb_ltb. apply Z.ltb_ge.
  rewrite Z.min_r, Z.max_r by (change (2 ^ 63) with 9223372036854775808; lia).
  rewrite Z.quot_div_nonneg by lia. apply Z.lt_succ_r, Z.div_lt_upper_bound; lia.
Qed.

(** A ping id is accepted in its own window and in the one before. *)
Lemma window_of t0 t1 a pk ip port :
  0 ≤ t0 → t0 ≤ t1 ≤ next_window t0 →
  ping_id a t1 pk ip port = ping_id a (next_window t0) pk ip port ∨
  ping_id a (next_window t1) pk ip port = ping_id a (next_window t0) pk ip port.
Proof.
  unfold next_window, PING_ID_TIMEOUT. intros Hpos Hle01. unfold ping_id, PING_ID_TIMEOUT.
  assert (∀ t, 0 ≤ t → Z.quot (Unix (t + 20 * 1000000000)) 20 = t / 20000000000 + 1 ∧
    Z.quot (Unix t) 20 = t / 20000000000) as Hq.
  { intros t Ht. unfold Unix.
    assert (0 ≤ t / 1000000000) by (apply Z.div_pos; lia).
    rewrite Z.div_add by lia. rewrite !Z.quot_div_nonneg by lia.
    replace (t / 1000000000 + 20) with (t / 1000000000 + 1 * 20) by lia.
    rewrite Z.div_add by lia. rewrite Z.div_div by lia. change (1000000000 * 20) with 20000000000.
    done. }
  destruct (Hq t0 Hpos) as [E0 _]. destruct (Hq t1 ltac:(lia)) as [E1 E1']. rewrite E0, E1, E1'.
  assert (t0 / 20000000000 ≤ t1 / 20000000000) by (apply Z.div_le_mono; lia).
  assert (t1 / 20000000000 ≤ (t0 + 1 * 20000000000) / 20000000000) as Hle by (apply Z.div_le_mono; lia).
  rewrite Z.div_add in Hle by lia.
  assert (t1 / 20000000000 = t0 / 20000000000 + 1 ∨ t1 / 20000000000 = t0 / 20000000000) as [-> | ->]
    by lia; auto.
Qed.

(** ** What a node does between two requests *)

(** The announce requests among some events *)
Definition is_announce (e : event) : bool :=
  match e with
  | EvDatagram _ _ _ _ (b :: _) => bz b =? NET_PACKET_ANNOUNCE_REQUEST
  | _ => false
  end.
Definition announces (es : list event) : nat := length (List.filter is_announce es).

(** The datagrams arrive between two points in time. *)
Definition arrives (t t' : Z) (e : event) : Prop :=
  match e with EvDatagram now _ _ _ _ => t ≤ now ≤ t' | _ => True end.

Lemma room_size pl : entries_ok pl → size (keys pl) = length (lst pl).
Proof. intros [[Hn Hk _] _ _]. by apply (pl_size (H := ann_item 0)). Qed.

(** A search removes no entry but the one searched for. *)
Lemma find_keeps now pk' pk e a r a' :
  entries_ok (Entries a) → keys (Entries a) !! pk = Some e → timed_out now e = false →
  find_in_entries now pk' a = Ret (r, a') → keys (Entries a') !! pk = Some e.
Proof.
  intros [_ _ Hk] He Ht. unfold find_in_entries, GetByKey, Remove. cbn [Key ann_item].
  destruct (keys (Entries a) !! pk') as [x|] eqn:E; [|by intros [= _ <-]].
  destruct (timed_out now x) eqn:Ex; [|by intros [= _ <-]].
  destruct (Hk _ _ E) as [<- _]. rewrite E. destruct (bool_decide _); [|done].
  intros [= _ <-]. cbn. rewrite lookup_delete_ne; [done|]. intros Hx. rewrite Hx in E. congruence.
Qed.

(** With room, a new announcement removes no entry. *)
Lemma add_keeps now self addr pk' dat ret pk e a r a' :
  entries_ok (Entries a) → length pk' = PUBLIC_KEY_SIZE → keys (Entries a) !! pk = Some e →
  timed_out now e = false → (length (lst (Entries a)) < ONION_ANNOUNCE_MAX_ENTRIES)%nat →
  add_to_entries now self addr pk' dat ret a = Ret (r, a') →
  keys (Entries a') !! pk = Some e ∧ (size (keys (Entries a')) ≤ S (size (keys (Entries a))))%nat.
Proof.
  intros He Hl Hpk Ht Hr. unfold add_to_entries. set (x := mkAnn _ _ _ _ _ _).
  assert (∃ pl, Put (H := ann_item now) x (Entries a) = Ret (true, pl) ∧ keys pl !! pk = Some e ∧
    (size (keys pl) ≤ S (size (keys (Entries a))))%nat ∧ entries_ok pl) as (pl & -> & Hk & Hs & Ho).
  { destruct (keys (Entries a) !! pk') as [old|] eqn:Eo.
    - exists (replaceItem (H := ann_item now) x (Entries a)).
      assert (Put (H := ann_item now) x (Entries a) = Ret (true, replaceItem (H := ann_item now) x (Entries a)))
        as Ep by (unfold Put; cbn [Key ann_item x e_Pubkey]; by rewrite Eo).
      split; [done|]. split; [done|]. split; [cbn; lia|]. by eapply Put_entries in Ep as (_ & ? & _).
    - destruct (Put_room now x (Entries a) He Eo Hr) as (pl & Ep & Ek). exists pl. split; [done|].
      rewrite Ek. cbn [x e_Pubkey]. rewrite lookup_insert_ne by congruence. split; [done|].
      rewrite map_size_insert, Eo. split; [lia|]. by eapply Put_entries in Ep as (_ & ? & _). }
  intros Hf. split; [by eapply (find_keeps _ _ _ _ (set_Entries pl a)) in Hf|].
  destruct (find_entries now pk' (set_Entries pl a) Ho) as (r2 & a2 & E2 & _ & _ & _ & Hsub & _).
  rewrite Hf in E2. injection E2 as <- <-. apply map_subseteq_size in Hsub.
  cbn [set_Entries Entries] in Hsub. lia.
Qed.

Lemma announce_keeps now rnd addr data pk e a d a' d' :
  node_ok (a, d) → keys (Entries a) !! pk = Some e → timed_out now e = false →
  (length (lst (Entries a)) < ONION_ANNOUNCE_MAX_ENTRIES)%nat →
  handleAnnounceRequest now rnd addr data a d = Ret (a', d') →
  keys (Entries a') !! pk = Some e ∧ (size (keys (Entries a')) ≤ S (size (keys (Entries a))))%nat.
Proof.
  intros [_ He Hk] Hpk Ht Hr Hh. cbn [fst snd] in *.
  destruct (announce_inv _ _ _ _ _ _ _ _ Hk Hh) as
    (nonce & pk' & enc & ret & plain & m & id1 & id2 & r & Ho & Hm & _ & _ & _ & Hx).
  destruct (_ || _).
  - eapply (add_keeps _ _ _ _ _ _ _ _ (mkAnnounce (Entries a) (SecBytes a) m)) in Hx; [done..|apply Ho|done|done|done].
  - split; [by eapply (find_keeps _ _ _ _ (mkAnnounce (Entries a) (SecBytes a) m)) in Hx|].
    destruct (find_entries now (take 32 (drop 32 plain)) (mkAnnounce (Entries a) (SecBytes a) m) He)
      as (r2 & a2 & E2 & _ & _ & _ & Hsub & _). rewrite Hx in E2. injection E2 as <- <-.
    apply map_subseteq_size in Hsub. cbn in Hsub. lia.
Qed.

(** The secrets of a node do not change. *)
Lemma exec_node_frame e s s' :
  node_ok s → exec_node e s = Ret s' →
  SecBytes s'.1 = SecBytes s.1 ∧ SelfSeckey s'.2 = SelfSeckey s.2 ∧
  (is_announce e = false → s'.1 = s.1).
Proof.
  destruct s as [a d]. intros [_ He Hk] Hx. cbn [fst snd] in *.
  destruct e as [now rnd fill addr data| | | | | | ]; cbn [exec_node] in Hx;
    try (apply bind_ret_inv in Hx as (d1 & Hd1 & Hx); apply (inj Ret) in Hx as <-; cbn [fst snd];
         split; [done|]; split; [by eapply exec_seckey|done]).
  unfold deliver_all in Hx. destruct data as [|b data]; [by apply (inj Ret) in Hx as <-|].
  cbn [is_announce]. destruct (_ =? _).
  - destruct s' as [a' d']. destruct (announce_inv _ _ _ _ _ _ _ _ Hk Hx) as
      (nonce & pk & enc & ret & plain & m & id1 & id2 & r & Ho & Hm & Ht & _ & _ & Hr).
    cbn [fst snd]. split; [|split; [by apply traffic_seckey|done]]. destruct (_ || _).
    + by apply add_entries in Hr as (_ & ? & _); [|done|apply Ho].
    + destruct (find_entries now (take 32 (drop 32 plain)) (mkAnnounce (Entries a) (SecBytes a) m) He)
        as (r2 & a2 & Ef & _ & ? & _). rewrite Hr in Ef. by injection Ef as <- <-.
  - apply bind_ret_inv in Hx as (d1 & Hd1 & Hx). apply (inj Ret) in Hx as <-. cbn [fst snd].
    split; [done|]. split; [by eapply deliver_seckey|done].
Qed.

Lemma exec_node_ok e s s' : node_ok s → event_ok e → exec_node e s = Ret s' → node_ok s'.
Proof.
  intros Hs He Hx. apply (run_node_ok [e] s s' Hs); [by repeat constructor|].
  cbn [run_node]. by rewrite Hx.
Qed.

Lemma run_node_frame es : ∀ s s',
  node_ok s → Forall event_ok es → run_node es s = Ret s' →
  SecBytes s'.1 = SecBytes s.1 ∧ SelfSeckey s'.2 = SelfSeckey s.2.
Proof.
  induction es as [|e es IH]; intros s s' Hs Hes Hr; cbn [run_node] in Hr.
  { by apply (inj Ret) in Hr as <-. }
  apply list.Forall_cons in Hes as [He Hes]. apply bind_ret_inv in Hr as (s1 & Hx & Hr).
  destruct (exec_node_frame e s s1 Hs Hx) as (E1 & E2 & _).
  destruct (IH s1 s' (exec_node_ok e s s1 Hs He Hx) Hes Hr). split; congruence.
Qed.

(** An entry stays while it has not timed out and the announce requests of the
    meantime find room. *)
Lemma run_node_keeps pk e t' es : ∀ s s',
  node_ok s → Forall event_ok es → Forall (arrives (e_Timestamp e) t') es →
  t' ≤ e_Timestamp e + 300 * 1000000000 → keys (Entries s.1) !! pk = Some e →
  (length (lst (Entries s.1)) + announces es ≤ ONION_ANNOUNCE_MAX_ENTRIES)%nat →
  run_node es s = Ret s' → keys (Entries s'.1) !! pk = Some e.
Proof.
  induction es as [|e' es IH]; intros s s' Hs Hes Hts Ht Hpk Hroom Hr; cbn [run_node] in Hr.
  { by apply (inj Ret) in Hr as <-. }
  apply list.Forall_cons in Hes as [He Hes]. apply list.Forall_cons in Hts as [Ht0 Hts].
  apply bind_ret_inv in Hr as (s1 & Hx & Hr).
  pose proof (exec_node_ok e' s s1 Hs He Hx) as Hs1.
  assert (keys (Entries s1.1) !! pk = Some e ∧
    (length (lst (Entries s1.1)) + announces es ≤ ONION_ANNOUNCE_MAX_ENTRIES)%nat) as [Hk1 Hl1].
  { unfold announces in *. cbn [List.filter] in Hroom. destruct (is_announce e') eqn:Ea.
    - cbn [length] in Hroom. destruct e' as [now rnd fill addr [|b data]| | | | | | ]; try done.
      destruct s as [a d], s1 as [a1 d1]. cbn [exec_node deliver_all is_announce] in *. rewrite Ea in Hx.
      rewrite <- room_size in * by (apply Hs || apply Hs1). cbn [fst snd] in *.
      eapply (announce_keeps _ _ _ _ pk e) in Hx as [? ?]; [split; [done|lia]|done|done| |].
      + apply (fresh_entry (e_Timestamp e)); [done|]. cbn [arrives] in Ht0. lia.
      + rewrite <- room_size by apply Hs. cbn [fst]. lia.
    - destruct (exec_node_frame e' s s1 Hs Hx) as (_ & _ & ->); [done|]. done. }
  by apply (IH s1 s').
Qed.

End Runs.

(** ** A concrete node *)

Module ToyAnnounce.
Import ToyBox ToyDht.

Definition three_nonces : list (Z * bytes) :=
  [(1, replicate 24 x01); (2, replicate 24 x02); (3, replicate 24 x03)].
Definition node7 : DHT := NewDHT (key_of 7) (key_of 7) three_nonces.
Definition ann : Onion_Announce := NewOnionAnnounce (key_of 42).
Definition ret : bytes := replicate 177 x05.
Definition sb : bytes := be_bytes 8 99.
Definition nonce : bytes := replicate 24 x08.
Definition ip : bytes := [zb 10; zb 0; zb 0; zb 7].
Definition t0 : Z := 1000 * 1000000000.
Definition the_id : bytes := Eval vm_compute in ping_id ann (next_window t0) (key_of 5) ip 33445.
(** Client 5 announces itself with the ping id it got. *)
Definition request : bytes :=
  announce_request nonce (key_of 5) (box_precompute (key_of 5) (key_of 7)) the_id (key_of 5) (key_of 50) sb ret.

Lemma node7_ok : node_ok (ann, node7).
Proof.
  split; cbn; [by apply NewDHT_ok| |apply map_Forall_empty].
  split; [apply new_pl_ok|done|apply map_Forall_empty].
Qed.

End ToyAnnounce.

(** A node that runs with its announce service keeps at most 160 announced
    entries, with distinct keys and each filed under its own 32-byte key,
    caches only right shared keys, and its DHT tables stay as they should,
    whatever datagrams, friends and periodic jobs it runs through. *)
Theorem announce_invariant `{NaclBoxLaws} `{GoppLaws} `{GoppDhtBuffer} sec pk sk rnd es s :
  length pk = PUBLIC_KEY_SIZE → Forall event_ok es →
  run_node es (NewOnionAnnounce sec, NewDHT pk sk rnd) = Ret s → node_ok s.
Proof.
  intros Hpk Hes Hr. eapply run_node_ok; [|exact Hes|exact Hr].
  split; cbn; [by apply NewDHT_ok| |apply map_Forall_empty].
  split; [apply new_pl_ok|done|apply map_Forall_empty].
Qed.

Import ToyBox ToyDht ToyAnnounce.

Lemma announce_invariant_witness :
  ∃ s, run_node [EvDatagram t0 [] [] (UDPAddr ip 33445) request; EvAddFriend t0 (key_of 4)]
      (ann, node7) = Ret s ∧ node_ok s ∧ length (lst (Entries s.1)) = 1%nat.
Proof.
  set (r := run_node _ _).
  assert (∃ s, r = Ret s ∧ length (lst (Entries s.1)) = 1%nat) as (s & E & Hl).
  { assert (match r with Ret s => length (lst (Entries s.1)) | _ => 0%nat end = 1%nat) as Hr
      by (vm_compute; reflexivity).
    destruct r as [s| |]; [|discriminate..]. exists s. split; [reflexivity|exact Hr]. }
  exists s. split; [exact E|]. split; [|exact Hl].
  apply (announce_invariant (key_of 42) (key_of 7) (key_of 7) three_nonces
    [EvDatagram t0 [] [] (UDPAddr ip 33445) request; EvAddFriend t0 (key_of 4)]);
    [reflexivity|repeat constructor|exact E].
Defined.

(** C19: An entry is stored only for a request that was opened with the shared key
    of the entry's own public key and that carries a ping id this node makes for
    that key and the address the request came from, in the current or the next
    20-second window; the entry then has that address, the data key of the
    request and the present time.  Every other entry is one that was there. *)
Theorem announce_authorised `{NaclBoxLaws} `{GoppLaws} `{GoppDhtBuffer}
    now rnd addr data a d a' d' k e :
  node_ok (a, d) → handleAnnounceRequest now rnd addr data a d = Ret (a', d') →
  keys (Entries a') !! k = Some e →
  keys (Entries a) !! k = Some e ∨
  ∃ nonce enc ret plain,
    opened data (SelfSeckey d) nonce k enc ret plain ∧
    (generate_ping_id a now k addr = Ret (take 32 plain) ∨
     generate_ping_id a (next_window now) k addr = Ret (take 32 plain)) ∧
    e = mkAnn k addr ret (take 32 (drop 64 plain)) now (SelfPubkey d).
Proof.
  intros [Hd He Hk] Hh Hin. cbn [fst snd] in *.
  destruct (announce_inv _ _ _ _ _ _ _ _ Hk Hh) as
    (nonce & pk & enc & ret & plain & m & id1 & id2 & r & Ho & Hm & Ht & H1' & H2' & Hx).
  destruct (bool_decide (id1 = _) || bool_decide (id2 = _)) eqn:Eid.
  - apply add_entries in Hx as (_ & _ & _ & Hfrom); [|done|apply Ho].
    destruct (Hfrom k e Hin) as [?|[-> ->]]; [by left|right].
    exists nonce, enc, ret, plain. split; [done|]. split; [|done].
    apply orb_prop in Eid as [Eid|Eid]; apply bool_decide_eq_true in Eid; subst; [by left|by right].
  - left. destruct (find_entries now (take 32 (drop 32 plain)) (mkAnnounce (Entries a) (SecBytes a) m) He)
      as (r2 & a2 & Ef & _ & _ & _ & Hsub & _). rewrite Hx in Ef. injection Ef as <- <-.
    exact (lookup_weaken _ _ _ _ Hin Hsub).
Qed.

Lemma announce_authorised_witness :
  ∃ a' d' e, handleAnnounceRequest t0 [] (UDPAddr ip 33445) request ann node7 = Ret (a', d') ∧
    keys (Entries a') !! key_of 5 = Some e ∧ e_RetAddr e = UDPAddr ip 33445 ∧ e_Timestamp e = t0.
Proof.
  set (r := handleAnnounceRequest t0 [] (UDPAddr ip 33445) request ann node7).
  assert (∃ a' d' e, r = Ret (a', d') ∧ keys (Entries a') !! key_of 5 = Some e) as (a' & d' & e & E & Hk).
  { assert (match r with
            | Ret s => match keys (Entries s.1) !! key_of 5 with Some _ => true | None => false end
            | _ => false end = true) as Hr by (vm_compute; reflexivity).
    destruct r as [[a' d']| |]; [|discriminate..]. cbn [fst] in Hr.
    destruct (keys (Entries a') !! key_of 5) as [e|] eqn:Ek; [|discriminate].
    exists a', d', e. split; [reflexivity|exact Ek]. }
  exists a', d', e. split; [exact E|]. split; [exact Hk|].
  destruct (announce_authorised t0 [] (UDPAddr ip 33445) request ann node7 a' d' (key_of 5) e node7_ok E Hk)
    as [Hold|(n & enc & rt & plain & _ & _ & ->)]; [|split; reflexivity].
  change (keys (Entries ann)) with (∅ : gmap bytes Onion_Announce_Entry) in Hold.
  by rewrite lookup_empty in Hold.
Defined.

(** The first request of a client that is not known: it gets a ping id. *)
Lemma announce_asks `{NaclBoxLaws} `{GoppLaws} `{GoppDhtBuffer}
    t rnd ip port csk n pid dat sb ret a d z r rs packed :
  let pk := scalar_base csk in
  let key := box_precompute pk (SelfSeckey d) in
  node_ok (a, d) → length csk = KeySize → length (SelfSeckey d) = KeySize →
  draws d = (z, r) :: rs → close_nodes rnd packed d → fields_ok n pid pk dat sb ret →
  keys (Entries a) !! pk = None →
  ping_id a t pk ip port ≠ pid → ping_id a (next_window t) pk ip port ≠ pid →
  ∃ a' d', handleAnnounceRequest t rnd (UDPAddr ip port)
      (announce_request n pk key pid pk dat sb ret) a d = Ret (a', d') ∧
    answered (UDPAddr ip port) ret sb r key
      ((zb 0 :: ping_id a (next_window t) pk ip port) ++ packed) d d'.
Proof.
  intros pk key [_ _ Hk] Hc Hs Hdr (no & Hno & Hpa) F Hnone I1 I2. cbn [fst snd] in *.
  destruct (announce_run t rnd ip port csk n pid pk dat sb ret a d r no packed) as (m & Hm & R);
    [done|done|done|done|by unfold draw; rewrite Hdr|done|done|].
  eexists _. apply (R None). rewrite !bool_decide_false by done.
  unfold find_in_entries, GetByKey. cbn. by rewrite Hnone.
Qed.

(** The second request, with the ping id: the client is stored. *)
Lemma announce_stores `{NaclBoxLaws} `{GoppLaws} `{GoppDhtBuffer}
    t0 t1 rnd ip port csk n dat sb ret a d z r rs packed :
  let pk := scalar_base csk in
  let key := box_precompute pk (SelfSeckey d) in
  let pid := ping_id a (next_window t0) pk ip port in
  node_ok (a, d) → length csk = KeySize → length (SelfSeckey d) = KeySize →
  draws d = (z, r) :: rs → close_nodes rnd packed d → fields_ok n pid pk dat sb ret →
  keys (Entries a) !! pk = None → (length (lst (Entries a)) < ONION_ANNOUNCE_MAX_ENTRIES)%nat →
  0 ≤ t0 → t0 ≤ t1 ≤ next_window t0 →
  ∃ a' d' e, handleAnnounceRequest t1 rnd (UDPAddr ip port)
      (announce_request n pk key pid pk dat sb ret) a d = Ret (a', d') ∧
    answered (UDPAddr ip port) ret sb r key
      ((zb 2 :: ping_id a (next_window t1) pk ip port) ++ packed) d d' ∧
    keys (Entries a') !! pk = Some e ∧ e_Pubkey e = pk ∧ e_DatPubkey e = dat ∧ e_Timestamp e = t1.
Proof.
  intros pk key pid [_ He Hk] Hc Hs Hdr (no & Hno & Hpa) F Hnone Hroom T0 T1. cbn [fst snd] in *.
  destruct (announce_run t1 rnd ip port csk n pid pk dat sb ret a d r no packed) as (m & Hm & R);
    [done|done|done|done|by unfold draw; rewrite Hdr|done|done|].
  set (e := mkAnn pk (UDPAddr ip port) ret dat t1 (SelfPubkey d)).
  destruct (Put_room t1 e (Entries a) He Hnone Hroom) as (pl & Ep & Kp).
  destruct (R (Some e) (mkAnnounce pl (SecBytes a) m)) as (d' & E & A).
  { match goal with |- (if ?b then _ else _) = _ => assert (b = true) as -> end.
    { destruct (window_of t0 t1 a pk ip port T0 T1) as [W|W];
        apply orb_true_iff; [left|right]; apply bool_decide_eq_true; exact W. }
    unfold add_to_entries. cbn [Entries]. fold pk. fold e. rewrite Ep. unfold find_in_entries, GetByKey.
    cbn [set_Entries Entries]. rewrite Kp. change pk with (e_Pubkey e). rewrite lookup_insert_eq.
    by rewrite (fresh_entry t1) by (done || lia). }
  exists (mkAnnounce pl (SecBytes a) m), d', e. split; [done|]. split.
  - unfold ann_status in A. cbn [e_Pubkey e_DatPubkey e] in A.
    rewrite bool_decide_true, bool_decide_false in A by tauto. exact A.
  - cbn [Entries]. rewrite Kp. change pk with (e_Pubkey e). by rewrite lookup_insert_eq.
Qed.

(** A search for a client that is stored. *)
Lemma announce_searched `{NaclBoxLaws} `{GoppLaws} `{GoppDhtBuffer}
    t rnd ip port ssk n pid pk dat sb ret a d z r rs packed e :
  let spk := scalar_base ssk in
  let key := box_precompute spk (SelfSeckey d) in
  node_ok (a, d) → length ssk = KeySize → length (SelfSeckey d) = KeySize →
  draws d = (z, r) :: rs → close_nodes rnd packed d → fields_ok n pid pk dat sb ret →
  keys (Entries a) !! pk = Some e → e_Pubkey e = pk → spk ≠ pk →
  e_Timestamp e ≤ t ≤ e_Timestamp e + 300 * 1000000000 →
  ping_id a t spk ip port ≠ pid → ping_id a (next_window t) spk ip port ≠ pid →
  ∃ a' d', handleAnnounceRequest t rnd (UDPAddr ip port)
      (announce_request n spk key pid pk dat sb ret) a d = Ret (a', d') ∧
    answered (UDPAddr ip port) ret sb r key ((zb 1 :: e_DatPubkey e) ++ packed) d d'.
Proof.
  intros spk key [_ _ Hk] Hc Hs Hdr (no & Hno & Hpa) F He Hpk Hne Ht I1 I2. cbn [fst snd] in *.
  destruct (announce_run t rnd ip port ssk n pid pk dat sb ret a d r no packed) as (m & Hm & R);
    [done|done|done|done|by unfold draw; rewrite Hdr|done|done|].
  destruct (R (Some e) (mkAnnounce (Entries a) (SecBytes a) m)) as (d' & E & A).
  { rewrite !bool_decide_false by done. unfold find_in_entries, GetByKey. cbn [Entries].
    rewrite He. by rewrite (fresh_entry (e_Timestamp e)) by (done || lia). }
  exists (mkAnnounce (Entries a) (SecBytes a) m), d'. split; [done|].
  unfold ann_status in A. rewrite bool_decide_false in A by (rewrite Hpk; exact (not_eq_sym Hne)). exact A.
Qed.

(** C15: The announcement works, with whatever else the node does in between.  A client
    that is not yet known asks and gets a ping id.  Asked again with it within 20
    seconds, from the same address, the node answers that the client is stored, if it
    has not been stored meanwhile and the list has room.  Whoever searches for the
    client's key in the 300 seconds after that is told the data key of the
    announcement, if the announce requests that arrive in between, by whomever, do not
    fill the list of 160 entries: a full list drops the entry farthest from the node.
    Between the requests the node runs through any events that do not make it panic.
    Each answer goes to where the request came from, with the return data and the
    sendback data of the request, and has nodes of the DHT behind it. *)
Theorem announce_found `{NaclBoxLaws} `{GoppLaws} `{GoppDhtBuffer}
    t0 rnd0 ip port csk n0 pid0 dat sb0 ret0 a d z0 r0 rs0 p0 :
  let pk := scalar_base csk in
  let key := box_precompute pk (SelfSeckey d) in
  let id t := ping_id a t pk ip port in
  node_ok (a, d) → length csk = KeySize → length (SelfSeckey d) = KeySize →
  draws d = (z0, r0) :: rs0 → close_nodes rnd0 p0 d → fields_ok n0 pid0 pk dat sb0 ret0 →
  keys (Entries a) !! pk = None → id t0 ≠ pid0 → id (next_window t0) ≠ pid0 → 0 ≤ t0 →
  ∃ a1 d1,
    handleAnnounceRequest t0 rnd0 (UDPAddr ip port)
      (announce_request n0 pk key pid0 pk dat sb0 ret0) a d = Ret (a1, d1) ∧
    answered (UDPAddr ip port) ret0 sb0 r0 key ((zb 0 :: id (next_window t0)) ++ p0) d d1 ∧
    ∀ es1 a1' d1' t1 rnd1 n1 sb1 ret1 z1 r1 rs1 p1,
      Forall event_ok es1 → run_node es1 (a1, d1) = Ret (a1', d1') →
      keys (Entries a1') !! pk = None →
      (length (lst (Entries a1')) < ONION_ANNOUNCE_MAX_ENTRIES)%nat →
      draws d1' = (z1, r1) :: rs1 → close_nodes rnd1 p1 d1' →
      fields_ok n1 (id (next_window t0)) pk dat sb1 ret1 → t0 ≤ t1 ≤ t0 + 20 * 1000000000 →
      ∃ a2 d2,
        handleAnnounceRequest t1 rnd1 (UDPAddr ip port)
          (announce_request n1 pk key (id (next_window t0)) pk dat sb1 ret1) a1' d1' = Ret (a2, d2) ∧
        answered (UDPAddr ip port) ret1 sb1 r1 key ((zb 2 :: id (next_window t1)) ++ p1) d1' d2 ∧
        ∀ es2 a2' d2' t2 rnd2 ip2 port2 ssk n2 pid2 dat2 sb2 ret2 z2 r2 rs2 p2,
          let spk := scalar_base ssk in
          let skey := box_precompute spk (SelfSeckey d) in
          let id' t := ping_id a t spk ip2 port2 in
          Forall event_ok es2 → Forall (arrives t1 t2) es2 →
          (length (lst (Entries a2)) + announces es2 ≤ ONION_ANNOUNCE_MAX_ENTRIES)%nat →
          run_node es2 (a2, d2) = Ret (a2', d2') →
          t1 ≤ t2 ≤ t1 + 300 * 1000000000 → length ssk = KeySize → spk ≠ pk →
          draws d2' = (z2, r2) :: rs2 → close_nodes rnd2 p2 d2' →
          fields_ok n2 pid2 pk dat2 sb2 ret2 → id' t2 ≠ pid2 → id' (next_window t2) ≠ pid2 →
          ∃ a3 d3,
            handleAnnounceRequest t2 rnd2 (UDPAddr ip2 port2)
              (announce_request n2 spk skey pid2 pk dat2 sb2 ret2) a2' d2' = Ret (a3, d3) ∧
            answered (UDPAddr ip2 port2) ret2 sb2 r2 skey ((zb 1 :: dat) ++ p2) d2' d3.
Proof.
  intros pk key id Hok Hc Hs Hdr G0 F0 Hnone I1 I2 T0.
  destruct (announce_asks t0 rnd0 ip port csk n0 pid0 dat sb0 ret0 a d z0 r0 rs0 p0)
    as (a1 & d1 & E1 & A1); [done..|].
  exists a1, d1. split; [done|]. split; [done|].
  intros es1 a1' d1' t1 rnd1 n1 sb1 ret1 z1 r1 rs1 p1 Hes1 Hr1 Hnone1 Hroom1 Hdr1 G1 F1 T1.
  pose proof (announce_ok _ _ _ _ _ _ _ _ Hok E1) as Hok1.
  destruct (exec_node_frame (EvDatagram t0 rnd0 [] (UDPAddr ip port)
    (announce_request n0 pk key pid0 pk dat sb0 ret0)) (a, d) (a1, d1) Hok E1) as (S1 & K1 & _).
  destruct (run_node_frame es1 (a1, d1) (a1', d1') Hok1 Hes1 Hr1) as (S1' & K1').
  pose proof (run_node_ok _ _ _ Hok1 Hes1 Hr1) as Hok1'. cbn [fst snd] in S1, K1, S1', K1'.
  assert (∀ t k x y, ping_id a1' t k x y = ping_id a t k x y) as Hid1
    by (intros; unfold ping_id; by rewrite S1', S1).
  destruct (announce_stores t0 t1 rnd1 ip port csk n1 dat sb1 ret1 a1' d1' z1 r1 rs1 p1)
    as (a2 & d2 & e & E2 & A2 & Hk2 & Epk & Edat & Ets);
    [done|done|by rewrite K1', K1|done|done|by rewrite Hid1|done|done|done|
     unfold next_window, PING_ID_TIMEOUT; lia|].
  rewrite !Hid1, K1', K1 in E2, A2. exists a2, d2. split; [done|]. split; [done|].
  intros es2 a2' d2' t2 rnd2 ip2 port2 ssk n2 pid2 dat2 sb2 ret2 z2 r2 rs2 p2 spk skey id'
    Hes2 Har2 Hroom2 Hr2 T2 Hsk Hne Hdr2 G2 F2 I3 I4.
  pose proof (announce_ok _ _ _ _ _ _ _ _ Hok1' E2) as Hok2.
  destruct (exec_node_frame (EvDatagram t1 rnd1 [] (UDPAddr ip port)
    (announce_request n1 pk key (id (next_window t0)) pk dat sb1 ret1)) (a1', d1') (a2, d2) Hok1' E2)
    as (S2 & K2 & _).
  destruct (run_node_frame es2 (a2, d2) (a2', d2') Hok2 Hes2 Hr2) as (S2' & K2').
  pose proof (run_node_ok _ _ _ Hok2 Hes2 Hr2) as Hok2'. cbn [fst snd] in *.
  rewrite <- Ets in Har2, T2.
  pose proof (run_node_keeps pk e t2 es2 (a2, d2) (a2', d2') Hok2 Hes2 Har2 (proj2 T2) Hk2 Hroom2 Hr2)
    as Hk2'. cbn [fst] in Hk2'.
  assert (∀ t k x y, ping_id a2' t k x y = ping_id a t k x y) as Hid2
    by (intros; unfold ping_id; by rewrite S2', S2, S1', S1).
  assert (SelfSeckey d2' = SelfSeckey d) as K by congruence.
  destruct (announce_searched t2 rnd2 ip2 port2 ssk n2 pid2 pk dat2 sb2 ret2 a2' d2' z2 r2 rs2 p2 e)
    as (a3 & d3 & E3 & A3); [done|done|by rewrite K|done|done|done|done|done|done|done|by rewrite Hid2..|].
  rewrite K in E3, A3. rewrite Edat in A3. by exists a3, d3.
Qed.

(** Client 5 asks and announces itself, client 6 announces itself, and then searches for
    client 5. *)
Definition node8 : DHT := NewDHT (key_of 7) (key_of 7) (three_nonces ++ [(4, replicate 24 x04)]).
Definition key5 : bytes := box_precompute (key_of 5) (key_of 7).
Definition key6 : bytes := box_precompute (key_of 6) (key_of 7).
Definition state_of (m : outcome hs_err (Onion_Announce * DHT)) : Onion_Announce * DHT :=
  match m with Ret s => s | _ => (ann, node8) end.
Definition ask5 : bytes := announce_request nonce (key_of 5) key5 (make_bytes 32) (key_of 5) (key_of 50) sb ret.
Definition asked5 : Onion_Announce * DHT :=
  Eval vm_compute in state_of (handleAnnounceRequest t0 [] (UDPAddr ip 33445) ask5 ann node8).
Definition stored5 : Onion_Announce * DHT :=
  Eval vm_compute in state_of (handleAnnounceRequest t0 [] (UDPAddr ip 33445) request asked5.1 asked5.2).
Definition id6 : bytes := Eval vm_compute in ping_id ann (next_window t0) (key_of 6) ip 4000.
Definition between : list event :=
  [EvDatagram t0 [] [] (UDPAddr ip 4000)
     (announce_request nonce (key_of 6) key6 id6 (key_of 6) (key_of 60) sb ret)].
Definition later : Onion_Announce * DHT := Eval vm_compute in state_of (run_node between stored5).

Lemma node8_ok : node_ok (ann, node8).
Proof.
  split; cbn; [by apply NewDHT_ok| |apply map_Forall_empty].
  split; [apply new_pl_ok|done|apply map_Forall_empty].
Qed.

Lemma announce_found_witness :
  length (lst (Entries later.1)) = 2%nat ∧
  ∃ a3 d3,
    handleAnnounceRequest (t0 + 100 * 1000000000) [] (UDPAddr ip 4000)
      (announce_request nonce (key_of 6) key6 (make_bytes 32) (key_of 5) (key_of 60) sb ret)
      later.1 later.2 = Ret (a3, d3) ∧
    answered (UDPAddr ip 4000) ret sb (replicate 24 x04) key6 (zb 1 :: key_of 50) later.2 d3.
Proof.
  split; [vm_compute; reflexivity|].
  destruct (announce_found t0 [] ip 33445 (key_of 5) nonce (make_bytes 32) (key_of 50) sb ret
    ann node8 1 (replicate 24 x01) [(2, replicate 24 x02); (3, replicate 24 x03); (4, replicate 24 x04)] [])
    as (a1 & d1 & E1 & _ & K1).
  - exact node8_ok.
  - reflexivity.
  - reflexivity.
  - reflexivity.
  - exists []. split; vm_compute; reflexivity.
  - split; reflexivity.
  - apply lookup_empty.
  - apply (bool_decide_unpack _). vm_compute. exact I.
  - apply (bool_decide_unpack _). vm_compute. exact I.
  - unfold t0. lia.
  - assert ((a1, d1) = asked5) as H1.
    { apply (inj (@Ret hs_err _)). rewrite <- E1. vm_compute. reflexivity. }
    destruct (K1 [] a1 d1 t0 [] nonce sb ret 2 (replicate 24 x02)
      [(3, replicate 24 x03); (4, replicate 24 x04)] []) as (a2 & d2 & E2 & _ & K2).
    + constructor.
    + reflexivity.
    + replace a1 with asked5.1 by (by rewrite <- H1). vm_compute. reflexivity.
    + replace a1 with asked5.1 by (by rewrite <- H1). apply Nat.ltb_lt. vm_compute. reflexivity.
    + replace d1 with asked5.2 by (by rewrite <- H1). vm_compute. reflexivity.
    + replace d1 with asked5.2 by (by rewrite <- H1). exists []. split; vm_compute; reflexivity.
    + split; [reflexivity|apply length_sha256|reflexivity..].
    + lia.
    + assert ((a2, d2) = stored5) as H2.
      { apply (inj (@Ret hs_err _)). rewrite <- E2. replace a1 with asked5.1 by (by rewrite <- H1).
        replace d1 with asked5.2 by (by rewrite <- H1). vm_compute. reflexivity. }
      destruct (K2 between later.1 later.2 (t0 + 100 * 1000000000) [] ip 4000 (key_of 6) nonce
        (make_bytes 32) (key_of 60) sb ret 4 (replicate 24 x04) [] []) as (a3 & d3 & E3 & A3).
      * repeat constructor.
      * repeat constructor; cbn [arrives between]; lia.
      * replace a2 with stored5.1 by (by rewrite <- H2). apply Nat.leb_le. vm_compute. reflexivity.
      * rewrite H2. vm_compute. reflexivity.
      * lia.
      * reflexivity.
      * apply (bool_decide_unpack _). vm_compute. exact I.
      * vm_compute. reflexivity.
      * exists []. split; vm_compute; reflexivity.
      * split; reflexivity.
      * apply (bool_decide_unpack _). vm_compute. exact I.
      * apply (bool_decide_unpack _). vm_compute. exact I.
      * exists a3, d3. split; [exact E3|exact A3].
Defined.

(** Announcing again does not refresh an entry: the one found is the first, with
    its old data key and time, so that it is gone 300 seconds after the first
    announcement. *)
Lemma reannounce_keeps_old `{NaclBox} now self addr pk dat ret old a :
  entries_ok (Entries a) → keys (Entries a) !! pk = Some old →
  ∃ a', add_to_entries now self addr pk dat ret a =
      Ret (if timed_out now old then None else Some old, a') ∧
    keys (Entries a') !! pk = if timed_out now old then None else Some old.
Proof.
  intros He Hold. unfold add_to_entries.
  set (e := mkAnn pk addr ret dat now self).
  assert (@Put _ (ann_item now) e (Entries a) =
    Ret (true, @replaceItem _ (ann_item now) e (Entries a))) as Ep.
  { unfold Put. cbn [Key ann_item e e_Pubkey]. by rewrite Hold. }
  rewrite Ep. apply Put_entries in Ep as (_ & He' & _);
    [|done|by destruct (eo_key _ He _ _ Hold)].
  destruct (find_entries now pk (set_Entries (@replaceItem _ (ann_item now) e (Entries a)) a) He')
    as (r & a' & -> & _ & _ & _ & _ & Hr & ->).
  exists a'. cbn [Entries set_Entries replaceItem keys] in *. rewrite Hold in *. done.
Qed.

(** The keys of a path are shared with its three nodes, but [ToNodes] lists the
    sender's keys in place of those of the nodes. *)
Lemma onion_path_keys `{NaclBoxLaws} `{GoppLaws} d k2 k3 ns1 ns2 ns3 a1 a2 a3 rest :
  length (SelfSeckey d) = KeySize → length k2 = KeySize → length k3 = KeySize →
  length ns1 = KeySize → length ns2 = KeySize → length ns3 = KeySize →
  SelfPubkey d = scalar_base (SelfSeckey d) →
  ∃ p, NewOnionPath d (scalar_base k2, k2) (scalar_base k3, k3)
      ((scalar_base ns1, a1) :: (scalar_base ns2, a2) :: (scalar_base ns3, a3) :: rest) = Ret p ∧
    shrkey1 p = box_precompute (pubkey1 p) ns1 ∧ shrkey2 p = box_precompute (pubkey2 p) ns2 ∧
    shrkey3 p = box_precompute (pubkey3 p) ns3 ∧
    ToNodes p = [(SelfPubkey d, a1); (scalar_base k2, a2); (scalar_base k3, a3)].
Proof.
  intros Hs H2 H3 N1 N2 N3 Hpk. unfold NewOnionPath. cbn [snd].
  rewrite !Mintox.CBBeforeNm2_ok by (done || by apply base_length). cbn [mbind outcome_bind fst].
  eexists. split; [done|]. cbn. rewrite Hpk. split; [|split; [|split; [|done]]]; by apply precompute_comm.
Qed.
