(* ===== verification/TcpServerConn.v ===== *)
(** * A connection of the relay server: bytes in, packets out
    (mintox/tcp_server.go, the read and write loops of [TCPSecureConn])

    The read loop collects what the socket delivers in a ring buffer and takes
    the handshake and the encrypted packets out of it; what it hands on is
    recorded as the list [out], the calls into the model of TcpServer.v.  The
    ring buffer is third-party code, an interface with laws.  The theorems: a
    client's handshake and packets come out as its plaintexts in order, from
    any chunking that keeps the handshake together; a handshake in pieces and an
    unauthentic packet crash the server; what the write loop sends is what the
    client reads; and the ping goroutine can seal two packets under one nonce. *)

From S2P Require Import Prelude Nonce GoIO Box TcpPacket TcpHandshake.
Local Open Scope Z_scope.

(** ** The ring buffer *)

Class Ring := {
  ring : Type;
  ring_new : Z → ring;                        (* NewRing(New(n)) *)
  ring_Len : ring → Z;
  ring_Cap : ring → Z;
  ring_Write : bytes → ring → Z * ring;       (* the count *)
  ring_Read : nat → ring → bytes * ring       (* into a buffer of that length *)
}.

(** A ring holds its unread bytes as long as they are at most [ring_size]. *)
Class RingLaws (R : Ring) := {
  contents : ring → bytes;
  ring_size : ring → Z;
  contents_new n : contents (ring_new n) = [] ∧ ring_size (ring_new n) = n;
  Len_contents r : ring_Len r = zlen (contents r);
  Cap_size r : ring_size r ≤ ring_Cap r;
  Write_fits b r : zlen (contents r) + zlen b ≤ ring_size r →
    ∃ r', ring_Write b r = (zlen b, r') ∧ contents r' = contents r ++ b ∧
      ring_size r' = ring_size r;
  Read_contents n r :
    ∃ r', ring_Read n r = (take n (contents r), r') ∧ contents r' = drop n (contents r) ∧
      ring_size r' = ring_size r
}.

(** ** State *)

Inductive status : Type := NO_STATUS | UNCONFIRMED | CONFIRMED.

#[export] Instance status_eq_dec : EqDecision status.
Proof. solve_decision. Defined.

(** What the read loop does with what it read. *)
Inductive output : Type :=
| OReply (resp : bytes)             (* Sock.Write in HandleHandshake *)
| OConfirm (plnpkt : bytes)         (* HandlePingRequest, then OnConfirmed *)
| OPacket (plnpkt : bytes).         (* the switch over the packet types *)

Section Conn.
Context `{NaclBox} `{Gopp} `{Ring}.

Record conn := mkConn {
  Status : status;
  sess : option Server.session;     (* Pubkey, Shrkey, RecvNonce, SentNonce *)
  crbuf : ring;
  nxtpktlen : Z;                    (* uint16, a local of runReadLoop *)
  out : list output
}.

Definition new_conn : conn := mkConn NO_STATUS None (ring_new (1024 * 1024)) 0 [].

Inductive conn_err : Type := OutOfFuel | EHandshake (e : hs_err).

(** ** Packets *)

Definition CreatePacket (s : Server.session) (plain : bytes) : outcome conn_err bytes :=
  encdat ← ErrPrint (Mintox.EncryptDataSymmetric2 (Server.Shrkey s) (Server.SentNonce s) plain);
  Ret (be_bytes 2 (u16 (zlen encdat)) ++ encdat).

(** The nonce advances whether or not the packet could be opened. *)
Definition Unpacket (s : Server.session) (encpkt : bytes)
    : outcome conn_err (bytes * Server.session) :=
  enc ← slice_from encpkt 2;
  plnpkt ← ErrPrint (Mintox.DecryptDataSymmetric2 (Server.Shrkey s) (Server.RecvNonce s) enc);
  Ret (plnpkt, Server.Session (Server.Pubkey s) (Server.Shrkey s)
                 (Nonce.Mintox.Incr2 (Server.RecvNonce s)) (Server.SentNonce s)).

(** ** Reading *)

(** The first [switch] of [doReadPacket]: the bytes of the next packet, [None]
    when it is not complete yet. *)
Definition take_packet (c : conn) : outcome conn_err (option bytes * conn) :=
  match Status c with
  | NO_STATUS =>
      let n := ((Mintox.PUBLIC_KEY_SIZE + Mintox.NONCE_SIZE) * 2 + Mintox.MAC_SIZE)%nat in
      let '(rdbuf, r) := ring_Read n (crbuf c) in
      _ ← Assert (bool_decide (length rdbuf = n));
      Ret (Some rdbuf, mkConn (Status c) (sess c) r (Z.of_nat n) (out c))
  | _ =>
      if (nxtpktlen c =? 0) && (ring_Len (crbuf c) <? 2) then Ret (None, c)
      else
        let c1 :=
          if nxtpktlen c =? 0 then
            let '(b, r) := ring_Read 2 (crbuf c) in
            mkConn (Status c) (sess c) r (be_val (copy_into (make_bytes 2) b)) (out c)
          else c in
        if ring_Len (crbuf c1) <? nxtpktlen c1 then Ret (None, c1)
        else
          let size := u16 (2 + nxtpktlen c1) in
          if size <? 2 then Panic                      (* rdbuf[2:] *)
          else
            let '(body, r) := ring_Read (Z.to_nat (size - 2)) (crbuf c1) in
            _ ← Assert (zlen body + 2 =? size);
            Ret (Some (be_bytes 2 (nxtpktlen c1) ++ body),
                 mkConn (Status c1) (sess c1) r (nxtpktlen c1) (out c1))
  end.

(** [Seckey] is the server's key, the others are the draws of the handshake. *)
Context (Seckey sn tn tpk tsk : bytes).

(** The second [switch] of [doReadPacket], and [*nxtpktlen = 0]. *)
Definition handle (rdbuf : bytes) (c : conn) : outcome conn_err conn :=
  match Status c with
  | NO_STATUS =>
      '(s, resp) ← map_err EHandshake (Server.HandleHandshake Seckey sn tn tpk tsk rdbuf);
      Ret (mkConn UNCONFIRMED (Some s) (crbuf c) 0 (out c ++ [OReply resp]))
  | st =>
      s ← (match sess c with Some s => Ret s | None => Panic end);
      '(plnpkt, s') ← Unpacket s rdbuf;
      _ ← index plnpkt 0;
      let o := if bool_decide (st = UNCONFIRMED) then OConfirm plnpkt else OPacket plnpkt in
      Ret (mkConn CONFIRMED (Some s') (crbuf c) 0 (out c ++ [o]))
  end.

(** [doReadPacket]: every turn that goes on takes a byte at least. *)
Fixpoint doReadPacket (fuel : nat) (c : conn) : outcome conn_err conn :=
  match fuel with
  | O => Fail OutOfFuel
  | S fuel =>
      '(pkt, c1) ← take_packet c;
      match pkt with
      | None => Ret c1
      | Some rdbuf => c2 ← handle rdbuf c1; doReadPacket fuel c2
      end
  end.

(** One turn of [runReadLoop] on the bytes of a successful [c.Read]. *)
Definition feed (chunk : bytes) (c : conn) : outcome conn_err conn :=
  let rn := zlen chunk in
  _ ← Assert (ring_Len (crbuf c) + rn <=? ring_Cap (crbuf c));
  let '(wn, r) := ring_Write chunk (crbuf c) in
  _ ← Assert (wn =? rn);
  doReadPacket (S (Z.to_nat (ring_Len r)))
    (mkConn (Status c) (sess c) r (nxtpktlen c) (out c)).

Fixpoint runReadLoop (chunks : list bytes) (c : conn) : outcome conn_err conn :=
  match chunks with
  | [] => Ret c
  | chunk :: chunks' => c' ← feed chunk c; runReadLoop chunks' c'
  end.
End Conn.

Arguments conn {_}.
Arguments new_conn {_}.

(** ** The client's stream *)

Section Wire.
Context `{NaclBoxLaws}.

(** The packets of [ps] under the nonces from [n] on. *)
Fixpoint wire (k n : bytes) (ps : list bytes) {struct ps} : bytes :=
  match ps with
  | [] => []
  | p :: ps => be_bytes 2 (zlen p + 16) ++ box_seal p n k ++ wire k (Tcp.incrNonce n) ps
  end.

Lemma encodeAll_wire k n ps :
  Forall (λ p, zlen p ≤ MaxPlainSize) ps →
  encodeAll k n ps = Ret (wire k n ps, Nat.iter (length ps) Tcp.incrNonce n).
Proof.
  intros Hp. revert n. induction Hp as [|p ps Hp _ IH]; intros n; [done|].
  cbn [length wire]. rewrite Nat.iter_succ_r. by apply encodeAll_cons.
Qed.

Lemma zlen_seal m n k : zlen (box_seal m n k) = zlen m + 16.
Proof. unfold zlen. rewrite seal_length. unfold Overhead. lia. Qed.
End Wire.

#[local] Opaque Tcp.incrNonce Nonce.Mintox.Incr2 Nonce.Mintox.Incr2le.

Section ConnFacts.
Context `{NaclBoxLaws} `{GoppLaws} `{RingLaws}.

(** What a connection that waits for [ps] hands on. *)
Definition events (st : status) (ps : list bytes) : list output :=
  match st, ps with
  | UNCONFIRMED, p :: ps => OConfirm p :: map OPacket ps
  | _, _ => map OPacket ps
  end.

Definition after (st : status) (ps : list bytes) : status :=
  match ps with [] => st | _ => CONFIRMED end.

Lemma events_app st ps1 ps2 : events st (ps1 ++ ps2) = events st ps1 ++ events (after st ps1) ps2.
Proof. destruct st, ps1; cbn; rewrite ?map_app; done. Qed.

Lemma events_nil st : events st [] = [].
Proof. by destruct st. Qed.

Lemma after_app st ps1 ps2 : after (after st ps1) ps2 = after st (ps1 ++ ps2).
Proof. by destruct ps1, ps2. Qed.

(** The length prefix that has been taken out of the buffer already. *)
Definition hdr (c : conn) : bytes := if nxtpktlen c =? 0 then [] else be_bytes 2 (nxtpktlen c).

(** The longest plaintext whose packet the server can read: it adds 2 to the
    length in 16 bits. *)
Definition maxBody : Z := 65517.

(** The packets of [ps] are what is left of the stream: a length prefix, the
    buffer, and the bytes [future] still to come. *)
Record waits (c : conn) (s : Server.session) (future : bytes) (ps : list bytes) : Prop := {
  w_sess : sess c = Some s;
  w_status : Status c ≠ NO_STATUS;
  w_nonce : length (Server.RecvNonce s) = Tcp.NonceSize;
  w_bytes : hdr c ++ contents (crbuf c) ++ future = wire (Server.Shrkey s) (Server.RecvNonce s) ps;
  w_sizes : Forall (λ p, 1 ≤ zlen p ≤ maxBody) ps;
  w_size : ring_size (crbuf c) = 1024 * 1024;
  w_range : 0 ≤ nxtpktlen c < 65536
}.

Lemma take_packet_short_header c :
  Status c ≠ NO_STATUS → nxtpktlen c = 0 → (length (contents (crbuf c)) < 2)%nat →
  take_packet c = Ret (None, c).
Proof.
  intros Hs Hn Hl. unfold take_packet. rewrite Hn, Len_contents.
  destruct (Status c); [done| |]; (destruct (zlen _ <? 2) eqn:E; zbool; [done|unfold zlen in *; lia]).
Qed.

(** A header in the buffer is taken out first. *)
Lemma take_packet_header c l k :
  Status c ≠ NO_STATUS → nxtpktlen c = 0 → contents (crbuf c) = l ++ k → length l = 2%nat →
  be_val l ≠ 0 →
  ∃ r, contents r = k ∧ ring_size r = ring_size (crbuf c) ∧
    take_packet c = take_packet (mkConn (Status c) (sess c) r (be_val l) (out c)).
Proof.
  intros Hs Hn Hc Hl Hz. destruct (Read_contents 2 (crbuf c)) as (r & E & Hk & Hsz).
  rewrite Hc, take_app_exact in E by done. rewrite Hc, drop_app_exact in Hk by done.
  exists r. split; [done|]. split; [done|]. unfold take_packet at 1.
  assert ((zlen (contents (crbuf c)) <? 2) = false) as E2.
  { apply Z.ltb_ge. rewrite Hc, zlen_app. unfold zlen. lia. }
  rewrite Len_contents, Hn, E2, E. cbn [Z.eqb andb].
  rewrite copy_into_full by (rewrite length_make_bytes; done).
  destruct (be_val l =? 0) eqn:E0; zbool; [done|].
  unfold take_packet. cbn [Status crbuf nxtpktlen sess out].
  destruct (Status c); [done| |]; destruct (be_val l =? 0) eqn:E1; zbool; done.
Qed.

(** With the length known: the packet, when it is complete. *)
Lemma take_packet_body c :
  Status c ≠ NO_STATUS → 0 < nxtpktlen c < 65534 →
  if decide (zlen (contents (crbuf c)) < nxtpktlen c) then take_packet c = Ret (None, c)
  else ∃ r, contents r = drop (Z.to_nat (nxtpktlen c)) (contents (crbuf c)) ∧
    ring_size r = ring_size (crbuf c) ∧
    take_packet c =
      Ret (Some (be_bytes 2 (nxtpktlen c) ++
                 take (Z.to_nat (nxtpktlen c)) (contents (crbuf c))),
           mkConn (Status c) (sess c) r (nxtpktlen c) (out c)).
Proof.
  intros Hs Hn. destruct (Read_contents (Z.to_nat (nxtpktlen c)) (crbuf c)) as (r & E & Hk & Hsz).
  assert ((nxtpktlen c =? 0) = false) as E0 by (apply Z.eqb_neq; lia).
  assert (u16 (2 + nxtpktlen c) = 2 + nxtpktlen c) as Eu by (apply wrap_u_small; lia).
  case_decide as Hl.
  - unfold take_packet. rewrite E0. cbn [andb]. rewrite Len_contents.
    destruct (Status c); [done| |]; destruct (zlen _ <? _) eqn:E1; zbool; done || lia.
  - exists r. split; [done|]. split; [done|]. unfold take_packet. rewrite E0. cbn [andb].
    rewrite Len_contents, Eu.
    replace (2 + nxtpktlen c - 2) with (nxtpktlen c) by lia. rewrite E.
    rewrite (bind_Assert (zlen (take _ _) + 2 =? _)).
    2:{ apply Z.eqb_eq. unfold zlen in *. rewrite length_take. lia. }
    destruct (Status c); [done| |];
      (destruct (zlen (contents (crbuf c)) <? _) eqn:E1; zbool; [lia|]);
      destruct (2 + nxtpktlen c <? 2) eqn:E2; zbool; done || lia.
Qed.

(** A complete packet that the client sealed is handed on. *)
Lemma handle_sealed Seckey sn tn tpk tsk c s p hd :
  Status c ≠ NO_STATUS → sess c = Some s → length hd = 2%nat → 1 ≤ zlen p →
  handle Seckey sn tn tpk tsk (hd ++ box_seal p (Server.RecvNonce s) (Server.Shrkey s)) c =
  Ret (mkConn CONFIRMED
    (Some (Server.Session (Server.Pubkey s) (Server.Shrkey s)
             (Nonce.Mintox.Incr2 (Server.RecvNonce s)) (Server.SentNonce s)))
    (crbuf c) 0 (out c ++ events (Status c) [p])).
Proof.
  intros Hs Hsess Hh Hp. unfold handle. rewrite Hsess.
  destruct p as [|b p]; [unfold zlen in Hp; cbn in Hp; lia|].
  assert (Unpacket s (hd ++ box_seal (b :: p) (Server.RecvNonce s) (Server.Shrkey s)) =
    Ret (b :: p, Server.Session (Server.Pubkey s) (Server.Shrkey s)
             (Nonce.Mintox.Incr2 (Server.RecvNonce s)) (Server.SentNonce s))) as EU.
  { unfold Unpacket. rewrite slice_from_app by done. cbn [mbind outcome_bind].
    by rewrite (Mintox.DecryptDataSymmetric2_ok _ _ _ _ (open_seal _ _ _)). }
  destruct (Status c); [done| |]; cbn [mbind outcome_bind]; rewrite EU; done.
Qed.

(** ** Taking packets out of the buffer *)

Lemma app_split {A} (l1 l2 a b : list A) :
  l1 ++ l2 = a ++ b → (length a ≤ length l1)%nat → ∃ k, l1 = a ++ k ∧ k ++ l2 = b.
Proof.
  intros E Hl. exists (drop (length a) l1).
  assert (take (length a) l1 = a) as Ha.
  { rewrite <- (take_app_le l1 l2) by done. rewrite E. by rewrite take_app_length. }
  split; [by rewrite <- Ha at 1; rewrite take_drop|].
  rewrite <- (drop_app_le l1 l2) by done. rewrite E. by rewrite drop_app_length.
Qed.

(** The session after [i] packets have been opened. *)
Definition advanced (i : nat) (s : Server.session) : Server.session :=
  Server.Session (Server.Pubkey s) (Server.Shrkey s)
    (Nat.iter i Tcp.incrNonce (Server.RecvNonce s)) (Server.SentNonce s).

Lemma advanced_S i s : advanced i (advanced 1 s) = advanced (S i) s.
Proof.
  unfold advanced. cbn [Server.Pubkey Server.Shrkey Server.RecvNonce Server.SentNonce].
  by rewrite (Nat.iter_succ_r i Tcp.incrNonce).
Qed.

Lemma advanced_add i j s : advanced i (advanced j s) = advanced (i + j) s.
Proof.
  unfold advanced. cbn [Server.Pubkey Server.Shrkey Server.RecvNonce Server.SentNonce].
  by rewrite (Nat.iter_add i j Tcp.incrNonce).
Qed.

Context (Seckey sn tn tpk tsk : bytes).
Abbreviation doRead := (doReadPacket Seckey sn tn tpk tsk).

(** The result of draining the buffer: the packets [ps1] have been handed on
    and [ps2] are still incomplete. *)
Definition drained (fuel : nat) (c : conn) (s : Server.session) (future : bytes)
    (ps : list bytes) : Prop :=
  ∃ c' ps1 ps2, ps = ps1 ++ ps2 ∧ doRead fuel c = Ret c' ∧
    waits c' (advanced (length ps1) s) future ps2 ∧
    Status c' = after (Status c) ps1 ∧ out c' = out c ++ events (Status c) ps1 ∧
    (future = [] → ps2 = []) ∧ zlen (contents (crbuf c')) ≤ 65536.

Lemma drained_stop fuel c s future ps :
  waits c s future ps → take_packet c = Ret (None, c) →
  (future = [] → ps = []) → zlen (contents (crbuf c)) ≤ 65536 → drained (S fuel) c s future ps.
Proof.
  intros Hw Ht Hf Hl. exists c, [], ps. cbn [doReadPacket]. rewrite Ht. cbn.
  split; [done|]. split; [done|]. split; [|by rewrite events_nil, app_nil_r].
  by destruct s.
Qed.

(** The length of the next packet is known. *)
Lemma drained_body fuel c s future ps :
  (∀ c s ps, waits c s future ps → (length (contents (crbuf c)) < fuel)%nat →
     drained fuel c s future ps) →
  waits c s future ps → nxtpktlen c ≠ 0 → (length (contents (crbuf c)) < S fuel)%nat →
  drained (S fuel) c s future ps.
Proof.
  intros IH Hw Hn Hf. destruct Hw as [Hs Hst Hno Hb Hp Hsz Hr] eqn:Ew. clear Ew.
  unfold hdr in Hb. destruct (nxtpktlen c =? 0) eqn:E0; zbool; [done|].
  destruct ps as [|p ps]; [by apply (f_equal length) in Hb; rewrite length_app, length_be_bytes in Hb|].
  apply Forall_cons_1 in Hp as [Hpl Hps]. cbn [wire] in Hb.
  unfold maxBody in Hpl.
  apply app_inj_1 in Hb as [Eh Hb]; [|by rewrite !length_be_bytes].
  apply (f_equal be_val) in Eh. rewrite !be_val_be_bytes, !Z.mod_small in Eh by lia.
  pose proof (take_packet_body c Hst ltac:(lia)) as Ht. rewrite Eh in Ht.
  pose proof (zlen_seal p (Server.RecvNonce s) (Server.Shrkey s)) as Hls.
  case_decide as Hl.
  - apply drained_stop; [done|done| |lia]. intros ->. rewrite app_nil_r in Hb.
    rewrite Hb, zlen_app, Hls in Hl. pose proof (zlen_nonneg (wire (Server.Shrkey s)
      (Tcp.incrNonce (Server.RecvNonce s)) ps)). lia.
  - destruct Ht as (r & Hk & Hrs & Ht).
    destruct (app_split _ _ _ _ Hb) as (k & Hc & Hw2); [unfold zlen in *; lia|].
    rewrite Hc in Ht, Hk. rewrite take_app_exact in Ht by (unfold zlen in *; lia).
    rewrite drop_app_exact in Hk by (unfold zlen in *; lia).
    set (c2 := mkConn CONFIRMED (Some (advanced 1 s)) r 0 (out c ++ events (Status c) [p])).
    assert (waits c2 (advanced 1 s) future ps) as W2.
    { split; cbn; [done|done|by apply length_incrNonce|by rewrite Hk|done|congruence|lia]. }
    destruct (IH c2 _ ps W2) as (c' & ps1 & ps2 & E1 & E2 & E3 & E4 & E5 & E6 & E7).
    { cbn. rewrite Hk. rewrite Hc, length_app in Hf. unfold zlen in *. lia. }
    exists c', (p :: ps1), ps2. split; [by rewrite E1|]. split.
    { cbn [doReadPacket]. rewrite Ht. cbn [mbind outcome_bind].
      rewrite (handle_sealed _ _ _ _ _ _ s); [|done|done|apply length_be_bytes|lia].
      cbn [mbind outcome_bind crbuf Status out]. rewrite <- E2. do 2 f_equal.
      unfold c2, advanced. cbn. by rewrite incrNonce_Incr2le. }
    split; [|split; [|split; [|done]]].
    + cbn [length]. by rewrite <- advanced_S.
    + rewrite E4. cbn. by destruct ps1.
    + rewrite E5. cbn [out c2 Status]. rewrite <- app_assoc. f_equal.
      change (p :: ps1) with ([p] ++ ps1). by rewrite (events_app _ [p]).
Qed.

Lemma wire_short k n ps :
  (length (wire k n ps) < 2)%nat → ps = [].
Proof. destruct ps; [done|]. cbn [wire]. rewrite length_app, length_be_bytes. lia. Qed.

Lemma doReadPacket_drains fuel c s future ps :
  waits c s future ps → (length (contents (crbuf c)) < fuel)%nat → drained fuel c s future ps.
Proof.
  revert c s ps. induction fuel as [|fuel IH]; intros c s ps Hw Hf; [lia|].
  destruct (decide (nxtpktlen c = 0)) as [Hn|Hn]; [|by apply drained_body].
  pose proof Hw as [Hs Hst Hno Hb Hp Hsz Hr].
  unfold hdr in Hb. rewrite Hn in Hb. cbn [Z.eqb app] in Hb.
  destruct (Nat.lt_ge_cases (length (contents (crbuf c))) 2) as [Hl|Hl].
  { apply drained_stop; [done|by apply take_packet_short_header| |unfold zlen; lia].
    intros ->. rewrite app_nil_r in Hb. apply (wire_short (Server.Shrkey s) (Server.RecvNonce s)).
    by rewrite <- Hb. }
  destruct ps as [|p ps].
  { apply (f_equal length) in Hb. rewrite length_app in Hb. cbn in Hb. lia. }
  cbn [wire] in Hb. destruct (app_split _ _ _ _ Hb) as (k & Hc & Hk); [by rewrite length_be_bytes|].
  pose proof (Forall_inv Hp) as Hpl. cbv beta in Hpl.
  unfold maxBody in Hpl.
  assert (be_val (be_bytes 2 (zlen p + 16)) = zlen p + 16) as Ev
    by (rewrite be_val_be_bytes; apply Z.mod_small; lia).
  destruct (take_packet_header c _ k Hst Hn Hc (length_be_bytes _ _)) as (r & Hrk & Hrs & Ht); [lia|].
  rewrite Ev in Ht. set (c1 := mkConn _ _ r _ _) in Ht.
  assert (waits c1 s future (p :: ps)) as W1.
  { split; cbn [c1 sess Status crbuf nxtpktlen]; [done|done|done| |done|congruence|lia].
    unfold hdr. cbn [c1 nxtpktlen crbuf]. destruct (zlen p + 16 =? 0) eqn:E; zbool; [lia|].
    cbn [wire]. by rewrite Hrk, Hk. }
  destruct (drained_body fuel c1 s future (p :: ps) IH W1) as (c' & ps1 & ps2 & E1 & E2 & E3).
  { cbn. lia. }
  { cbn. rewrite Hrk. rewrite Hc, length_app in Hf. lia. }
  exists c', ps1, ps2. split; [done|]. split; [|done].
  rewrite <- E2. cbn [doReadPacket]. by rewrite Ht.
Qed.

(** ** Chunks *)

(** A chunk that fits into the ring goes to [doReadPacket]. *)
Lemma feed_eq chunk c :
  zlen (contents (crbuf c)) + zlen chunk ≤ ring_size (crbuf c) →
  ∃ r, contents r = contents (crbuf c) ++ chunk ∧ ring_size r = ring_size (crbuf c) ∧
    feed Seckey sn tn tpk tsk chunk c =
      doRead (S (length (contents r))) (mkConn (Status c) (sess c) r (nxtpktlen c) (out c)).
Proof.
  intros Hl. destruct (Write_fits chunk (crbuf c) Hl) as (r & Ew & Hc & Hsz).
  exists r. split; [done|]. split; [done|]. unfold feed. pose proof (Cap_size (crbuf c)).
  rewrite bind_Assert by (apply Z.leb_le; rewrite Len_contents; lia). rewrite Ew.
  rewrite bind_Assert by (by apply Z.eqb_eq). rewrite Len_contents. unfold zlen.
  by rewrite Nat2Z.id.
Qed.

Lemma feed_drains chunk c s future ps :
  waits c s (chunk ++ future) ps → zlen (contents (crbuf c)) ≤ 65536 → zlen chunk ≤ 3000 →
  ∃ c' ps1 ps2, ps = ps1 ++ ps2 ∧ feed Seckey sn tn tpk tsk chunk c = Ret c' ∧
    waits c' (advanced (length ps1) s) future ps2 ∧
    Status c' = after (Status c) ps1 ∧ out c' = out c ++ events (Status c) ps1 ∧
    (future = [] → ps2 = []) ∧ zlen (contents (crbuf c')) ≤ 65536.
Proof.
  intros [Hs Hst Hno Hb Hp Hsz Hr] Hc Hl.
  destruct (feed_eq chunk c) as (r & Hk & Hrs & ->); [lia|].
  set (c1 := mkConn _ _ r _ _).
  assert (waits c1 s future ps) as W1.
  { split; cbn [c1 sess Status crbuf nxtpktlen]; [done|done|done| |done|congruence|done].
    unfold hdr in *. cbn [c1 nxtpktlen crbuf]. by rewrite Hk, <- app_assoc. }
  by destruct (doReadPacket_drains _ c1 s future ps W1 (Nat.lt_succ_diag_r _))
    as (c' & ps1 & ps2 & ?); exists c', ps1, ps2.
Qed.

Lemma runReadLoop_drains chunks : ∀ c s ps,
  waits c s (concat chunks) ps → zlen (contents (crbuf c)) ≤ 65536 →
  (concat chunks = [] → ps = []) → Forall (λ k, zlen k ≤ 3000) chunks →
  ∃ c', runReadLoop Seckey sn tn tpk tsk chunks c = Ret c' ∧
    waits c' (advanced (length ps) s) [] [] ∧
    Status c' = after (Status c) ps ∧ out c' = out c ++ events (Status c) ps.
Proof.
  induction chunks as [|k chunks IH]; intros c s ps Hw Hc He Hk.
  { rewrite (He eq_refl) in *. exists c. split; [done|]. split; [by destruct s|].
    by rewrite events_nil, app_nil_r. }
  apply Forall_cons_1 in Hk as [Hk Hks]. cbn [concat] in Hw.
  destruct (feed_drains k c s (concat chunks) ps Hw Hc Hk)
    as (c1 & ps1 & ps2 & -> & E & W1 & Hst & Ho & He1 & Hc1).
  destruct (IH c1 _ ps2 W1 Hc1 He1 Hks) as (c' & E' & W' & Hst' & Ho').
  exists c'. cbn [runReadLoop]. rewrite E. cbn [mbind outcome_bind]. split; [done|].
  rewrite advanced_add in W'. rewrite length_app, Nat.add_comm. split; [done|].
  rewrite Hst', Hst, after_app. split; [done|].
  by rewrite Ho', Ho, Hst, <- app_assoc, <- events_app.
Qed.

(** The handshake in the first chunk, whole. *)
Lemma feed_hello hello rest s resp :
  length hello = 128%nat →
  Server.HandleHandshake Seckey sn tn tpk tsk hello = Ret (s, resp) →
  zlen (hello ++ rest) ≤ 3000 →
  ∃ r, contents r = rest ∧ ring_size r = 1024 * 1024 ∧
    feed Seckey sn tn tpk tsk (hello ++ rest) new_conn =
      doRead (length (hello ++ rest)) (mkConn UNCONFIRMED (Some s) r 0 [OReply resp]).
Proof.
  intros Hh E Hl. destruct (contents_new (1024 * 1024)) as [Hn1 Hn2].
  destruct (feed_eq (hello ++ rest) new_conn) as (r & Hk & Hrs & Ef).
  { cbn [crbuf new_conn]. rewrite Hn1, Hn2. unfold zlen in *. cbn [length]. lia. }
  cbn [crbuf new_conn] in Hk, Hrs. rewrite Hn1 in Hk. cbn [app] in Hk. rewrite Hn2 in Hrs.
  destruct (Read_contents 128 r) as (r' & Er & Hk' & Hrs').
  rewrite Hk, take_app_exact in Er by done. rewrite Hk, drop_app_exact in Hk' by done.
  exists r'. split; [done|]. split; [congruence|]. rewrite Ef, Hk. cbn [doReadPacket].
  unfold take_packet. cbn [Status new_conn crbuf].
  change ((Mintox.PUBLIC_KEY_SIZE + Mintox.NONCE_SIZE) * 2 + Mintox.MAC_SIZE)%nat with 128%nat.
  rewrite Er, bind_Assert by (by apply bool_decide_eq_true). cbn [mbind outcome_bind].
  unfold handle. cbn [Status]. rewrite E. cbn [map_err mbind outcome_bind]. done.
Qed.

End ConnFacts.

(** ** Writing *)

Section Write.
Context `{NaclBox} `{Gopp}.

Record writer := mkWriter {
  w_session : Server.session;
  cwctrlq : list bytes;
  cwdataq : list bytes;
  w_up : bool;                      (* Sock.Write succeeds *)
  w_wire : bytes                    (* what it has written *)
}.

Definition incr_sent (s : Server.session) : Server.session :=
  Server.Session (Server.Pubkey s) (Server.Shrkey s) (Server.RecvNonce s)
    (Nonce.Mintox.Incr2 (Server.SentNonce s)).

(** [WritePacket]; [false] is a write error. *)
Definition WritePacket (data : bytes) (w : writer) : outcome conn_err (bool * writer) :=
  encpkt ← CreatePacket (w_session w) data;
  if w_up w
  then Ret (true, mkWriter (incr_sent (w_session w)) (cwctrlq w) (cwdataq w) (w_up w)
                    (w_wire w ++ encpkt))
  else Ret (false, w).

Definition set_ctrl q w := mkWriter (w_session w) q (cwdataq w) (w_up w) (w_wire w).
Definition set_data q w := mkWriter (w_session w) (cwctrlq w) q (w_up w) (w_wire w).

(** What a turn has written: packets with the queue they came from ([true] for
    the control queue). *)
Abbreviation item := (bool * bytes)%type.

(** [flushCtrl] *)
Fixpoint flushCtrl (q : list bytes) (w : writer) : outcome conn_err (bool * list item * writer) :=
  match q with
  | [] => Ret (true, [], w)
  | data :: q' =>
      '(ok, w1) ← WritePacket data (set_ctrl q' w);
      if (ok : bool)
      then '(ok', l, w2) ← flushCtrl q' w1; Ret (ok', (true, data) :: l, w2)
      else Ret (false, [], w1)
  end.

(** [select] on the two queues: [pick] prefers the control queue. *)
Definition next_packet (pick : bool) (w : writer) : option (item * writer) :=
  match cwctrlq w, cwdataq w with
  | c :: q, [] => Some ((true, c), set_ctrl q w)
  | [], d :: q => Some ((false, d), set_data q w)
  | c :: q, d :: q' =>
      Some (if pick then ((true, c), set_ctrl q w) else ((false, d), set_data q' w))
  | [], [] => None
  end.

(** One turn of [runWriteLoop] on open queues; [None] when it waits; the boolean
    tells whether it goes on. *)
Definition write_turn (pick : bool) (w : writer)
    : option (outcome conn_err (bool * list item * writer)) :=
  match next_packet pick w with
  | None => None
  | Some ((ctrlq, data), w1) => Some (
      '(ok, w2) ← WritePacket data w1;
      if negb ok then Ret (false, [], w2)
      else if (ctrlq : bool) then Ret (true, [(ctrlq, data)], w2)
      else '(ok', l, w3) ← flushCtrl (cwctrlq w2) w2; Ret (ok', (ctrlq, data) :: l, w3))
  end.

Fixpoint runWriteLoop (picks : list bool) (w : writer)
    : outcome conn_err (list item * writer) :=
  match picks with
  | [] => Ret ([], w)
  | pick :: picks' =>
      match write_turn pick w with
      | None => Ret ([], w)
      | Some m =>
          '(go_on, l, w1) ← m;
          if (go_on : bool)
          then '(l', w2) ← runWriteLoop picks' w1; Ret (l ++ l', w2)
          else Ret (l, w1)
      end
  end.

(** [MakePingPacket]: the draw [pingid], made non-zero. *)
Definition MakePingPacket (pingid : Z) (s : Server.session) : outcome conn_err bytes :=
  CreatePacket s (zb 4 :: be_bytes 8 (if pingid =? 0 then 1 else pingid)).
End Write.

(** What the items of a queue are. *)
Definition from (ctrl : bool) (l : list (bool * bytes)) : list bytes :=
  map snd (List.filter (λ i, Bool.eqb (fst i) ctrl) l).

Section WriteFacts.
Context `{NaclBoxLaws} `{GoppLaws}.

Lemma CreatePacket_ok s p :
  zlen p ≤ MaxPlainSize →
  CreatePacket s p =
    Ret (be_bytes 2 (zlen p + 16) ++ box_seal p (Server.SentNonce s) (Server.Shrkey s)).
Proof.
  intros Hp. unfold CreatePacket. rewrite Mintox.EncryptDataSymmetric2_ok.
  cbn [ErrPrint mbind outcome_bind]. rewrite zlen_seal.
  unfold MaxPlainSize, MaxPacketSize, MacSize in Hp. pose proof (zlen_nonneg p).
  unfold u16. by rewrite wrap_u_small by lia.
Qed.

(** The session after [i] packets have been written. *)
Definition sent (i : nat) (s : Server.session) : Server.session :=
  Server.Session (Server.Pubkey s) (Server.Shrkey s) (Server.RecvNonce s)
    (Nat.iter i Tcp.incrNonce (Server.SentNonce s)).

Lemma sent_S i s : sent i (sent 1 s) = sent (S i) s.
Proof.
  unfold sent. cbn [Server.Pubkey Server.Shrkey Server.RecvNonce Server.SentNonce].
  by rewrite (Nat.iter_succ_r i Tcp.incrNonce).
Qed.

Lemma sent_add i j s : sent i (sent j s) = sent (i + j) s.
Proof.
  unfold sent. cbn [Server.Pubkey Server.Shrkey Server.RecvNonce Server.SentNonce].
  by rewrite (Nat.iter_add i j Tcp.incrNonce).
Qed.

Lemma wire_app k n ps qs :
  wire k n (ps ++ qs) = wire k n ps ++ wire k (Nat.iter (length ps) Tcp.incrNonce n) qs.
Proof.
  revert n. induction ps as [|p ps IH]; intros n; [done|]. cbn [app wire length].
  rewrite IH, (Nat.iter_succ_r (length ps) Tcp.incrNonce), <- !app_assoc. done.
Qed.

(** [w'] is [w] after the items [l] have been written. *)
Record wrote (w : writer) (l : list (bool * bytes)) (w' : writer) : Prop := {
  wr_session : w_session w' = sent (length l) (w_session w);
  wr_wire : w_wire w' = w_wire w ++
    wire (Server.Shrkey (w_session w)) (Server.SentNonce (w_session w)) (map snd l);
  wr_ctrl : cwctrlq w = from true l ++ cwctrlq w';
  wr_data : cwdataq w = from false l ++ cwdataq w';
  wr_up : w_up w' = w_up w
}.

Definition ready_writer (w : writer) : Prop :=
  w_up w = true ∧ length (Server.SentNonce (w_session w)) = Tcp.NonceSize ∧
  Forall (λ p, zlen p ≤ MaxPlainSize) (cwctrlq w) ∧
  Forall (λ p, zlen p ≤ MaxPlainSize) (cwdataq w).

Lemma wrote_nil w : wrote w [] w.
Proof. split; cbn; rewrite ?app_nil_r; try done. by destruct (w_session w). Qed.

Lemma from_app b l l' : from b (l ++ l') = from b l ++ from b l'.
Proof. unfold from. by rewrite List.filter_app, map_app. Qed.

Lemma wrote_trans w l w1 l' w2 : wrote w l w1 → wrote w1 l' w2 → wrote w (l ++ l') w2.
Proof.
  intros [S1 W1 C1 D1 U1] [S2 W2 C2 D2 U2]. split.
  - by rewrite S2, S1, sent_add, length_app, Nat.add_comm.
  - rewrite W2, W1, S1, map_app, wire_app, length_map, <- app_assoc. done.
  - by rewrite C1, C2, from_app, app_assoc.
  - by rewrite D1, D2, from_app, app_assoc.
  - congruence.
Qed.

Lemma wrote_ready w l w' : wrote w l w' → ready_writer w → ready_writer w'.
Proof.
  intros [S1 W1 C1 D1 U1] (Hu & Hn & Hc & Hd). rewrite C1 in Hc. rewrite D1 in Hd.
  apply Forall_app in Hc as [_ Hc]. apply Forall_app in Hd as [_ Hd].
  split; [congruence|]. rewrite S1. split; [|done]. by apply iter_incrNonce.
Qed.

(** One packet of either queue. *)
Lemma WritePacket_ok w b p w0 :
  w_up w = true → length (Server.SentNonce (w_session w)) = Tcp.NonceSize →
  zlen p ≤ MaxPlainSize →
  w_session w0 = w_session w → w_wire w0 = w_wire w → w_up w0 = w_up w →
  cwctrlq w = from true [(b, p)] ++ cwctrlq w0 →
  cwdataq w = from false [(b, p)] ++ cwdataq w0 →
  ∃ w', WritePacket p w0 = Ret (true, w') ∧ wrote w [(b, p)] w' ∧
    cwctrlq w' = cwctrlq w0.
Proof.
  intros Hu Hn Hp Es Ew Eu Ec Ed. unfold WritePacket. rewrite Es, CreatePacket_ok by done.
  cbn [mbind outcome_bind]. rewrite Eu, Hu. eexists. split; [done|]. split; [|done].
  split; cbn [w_session w_wire cwctrlq cwdataq w_up]; [|by rewrite Ew; cbn; rewrite app_nil_r|done|done|congruence].
  unfold incr_sent, sent. f_equal. symmetry. by apply incrNonce_Incr2le.
Qed.

Lemma flushCtrl_ok q : ∀ w,
  ready_writer w → cwctrlq w = q →
  ∃ l w', flushCtrl q w = Ret (true, l, w') ∧ wrote w l w' ∧ cwctrlq w' = [].
Proof.
  induction q as [|d q IH]; intros w Hw Hq.
  { exists [], w. split; [done|]. split; [apply wrote_nil|done]. }
  pose proof Hw as (Hu & Hn & Hc & Hd). rewrite Hq in Hc.
  destruct (WritePacket_ok w true d (set_ctrl q w) Hu Hn (Forall_inv Hc))
    as (w1 & E1 & W1 & Eq1); try done.
  destruct (IH w1 (wrote_ready _ _ _ W1 Hw) Eq1) as (l & w2 & E2 & W2 & Eq2).
  exists ((true, d) :: l), w2. cbn [flushCtrl]. rewrite E1. cbn [mbind outcome_bind].
  rewrite E2. split; [done|]. split; [|done]. by apply (wrote_trans w [(true, d)] w1).
Qed.

Lemma next_packet_ok pick w :
  match next_packet pick w with
  | None => cwctrlq w = [] ∧ cwdataq w = []
  | Some ((b, p), w0) =>
      w_session w0 = w_session w ∧ w_wire w0 = w_wire w ∧ w_up w0 = w_up w ∧
      cwctrlq w = from true [(b, p)] ++ cwctrlq w0 ∧ cwdataq w = from false [(b, p)] ++ cwdataq w0
  end.
Proof.
  unfold next_packet. destruct (cwctrlq w) as [|c q] eqn:Ec, (cwdataq w) as [|d q'] eqn:Ed;
    [done|cbn; rewrite ?Ec, ?Ed; done..|]. destruct pick; cbn; rewrite ?Ec, ?Ed; done.
Qed.

Lemma write_turn_ok pick w :
  ready_writer w →
  match write_turn pick w with
  | None => cwctrlq w = [] ∧ cwdataq w = []
  | Some m => ∃ l w', m = Ret (true, l, w') ∧ wrote w l w' ∧ l ≠ []
  end.
Proof.
  intros Hw. pose proof Hw as (Hu & Hn & Hc & Hd). pose proof (next_packet_ok pick w) as Hnext.
  unfold write_turn. destruct (next_packet pick w) as [[[b p] w0]|]; [|done].
  destruct Hnext as (Es & Ew & Eu & Ec & Ed).
  assert (zlen p ≤ MaxPlainSize) as Hp.
  { destruct b; [rewrite Ec in Hc; exact (Forall_inv Hc)|rewrite Ed in Hd; exact (Forall_inv Hd)]. }
  destruct (WritePacket_ok w b p w0 Hu Hn Hp Es Ew Eu Ec Ed) as (w1 & E1 & W1 & Eq1).
  rewrite E1. cbn [mbind outcome_bind negb]. destruct b; [by eexists _, _|].
  destruct (flushCtrl_ok _ w1 (wrote_ready _ _ _ W1 Hw) eq_refl) as (l & w2 & E2 & W2 & _).
  rewrite E2. eexists _, w2. split; [done|]. split; [|done].
  by apply (wrote_trans w [(false, p)] w1).
Qed.

Lemma length_from l : (length (from true l) + length (from false l) = length l)%nat.
Proof.
  unfold from. rewrite !length_map. induction l as [|[[] p] l IH]; cbn; lia.
Qed.

Lemma runWriteLoop_ok picks : ∀ w,
  ready_writer w →
  ∃ l w', runWriteLoop picks w = Ret (l, w') ∧ wrote w l w' ∧
    ((length (cwctrlq w) + length (cwdataq w) ≤ length picks)%nat →
       cwctrlq w' = [] ∧ cwdataq w' = []).
Proof.
  induction picks as [|pick picks IH]; intros w Hw.
  { exists [], w. split; [done|]. split; [apply wrote_nil|].
    destruct (cwctrlq w), (cwdataq w); cbn; done || lia. }
  cbn [runWriteLoop]. pose proof (write_turn_ok pick w Hw) as Ht.
  destruct (write_turn pick w) as [m|].
  - destruct Ht as (l & w1 & -> & W1 & Hne). cbn [mbind outcome_bind].
    destruct (IH w1 (wrote_ready _ _ _ W1 Hw)) as (l' & w2 & E2 & W2 & Hl).
    rewrite E2. cbn [mbind outcome_bind]. exists (l ++ l'), w2. split; [done|].
    split; [by eapply wrote_trans|]. intros Hlen. apply Hl.
    destruct W1 as [_ _ C1 D1 _]. rewrite C1, D1, !length_app in Hlen.
    pose proof (length_from l). destruct l; [done|]. cbn [length] in *. lia.
  - exists [], w. split; [done|]. split; [apply wrote_nil|done].
Qed.

End WriteFacts.

(** ** Two goroutines, one nonce *)

(** [runWriteLoop] and [doPingLoop] both seal, write and then increment
    [SentNonce], without a lock.  The write loop seals the packets of its queues,
    the ping loop the packets of [MakePingPacket] and nothing else. *)
Section Race.
Context `{NaclBox} `{Gopp}.

Inductive pc : Type := Idle | Sealed (encpkt : bytes) | Written.

Inductive goroutine : Type := WriteLoop | PingLoop.

Record race := mkRace {
  r_session : Server.session;
  r_queue : list bytes;             (* in the order the write loop takes them *)
  r_write : pc;
  r_ping : pc;
  r_wire : list bytes               (* packets on the socket *)
}.

Definition pc_of (t : goroutine) (s : race) : pc :=
  match t with WriteLoop => r_write s | PingLoop => r_ping s end.

Definition set_pc (t : goroutine) (p : pc) (s : race) : race :=
  match t with
  | WriteLoop => mkRace (r_session s) (r_queue s) p (r_ping s) (r_wire s)
  | PingLoop => mkRace (r_session s) (r_queue s) (r_write s) p (r_wire s)
  end.

Inductive race_step : goroutine → race → race → Prop :=
| race_take plain rest encpkt s :
    r_write s = Idle → r_queue s = plain :: rest → CreatePacket (r_session s) plain = Ret encpkt →
    race_step WriteLoop s (mkRace (r_session s) rest (Sealed encpkt) (r_ping s) (r_wire s))
| race_tick pingid encpkt s :
    r_ping s = Idle → 0 ≤ pingid < 2 ^ 64 → MakePingPacket pingid (r_session s) = Ret encpkt →
    race_step PingLoop s (set_pc PingLoop (Sealed encpkt) s)
| race_write t encpkt s :
    pc_of t s = Sealed encpkt →
    race_step t s (set_pc t Written (mkRace (r_session s) (r_queue s) (r_write s) (r_ping s)
                                       (r_wire s ++ [encpkt])))
| race_incr t s :
    pc_of t s = Written →
    race_step t s (set_pc t Idle (mkRace (incr_sent (r_session s)) (r_queue s) (r_write s)
                                    (r_ping s) (r_wire s))).

Inductive race_run (P : goroutine → Prop) (s : race) : race → Prop :=
| run_refl : race_run P s s
| run_step t s1 s2 : P t → race_run P s s1 → race_step t s1 s2 → race_run P s s2.
End Race.

Lemma Forall_from (P : bytes → Prop) l :
  Forall P (from true l) → Forall P (from false l) → Forall P (map snd l).
Proof.
  unfold from. induction l as [|[[] p] l IH]; cbn; intros H1 H2; [done|..].
  - constructor; [exact (Forall_inv H1)|]. apply IH; [exact (Forall_inv_tail H1)|done].
  - constructor; [exact (Forall_inv H2)|]. apply IH; [done|exact (Forall_inv_tail H2)].
Qed.

Section RaceFacts.
Context `{NaclBoxLaws} `{GoppLaws}.

Lemma CreatePacket_total s p : ∃ pkt, CreatePacket s p = Ret pkt.
Proof.
  unfold CreatePacket. rewrite Mintox.EncryptDataSymmetric2_ok. by eexists.
Qed.

(** The state of a lone write loop after some of the packets [l]. *)
Record alone (s0 : Server.session) (l : list bytes) (s : race) : Prop := {
  al_wire : ∀ i pkt, r_wire s !! i = Some pkt →
    ∃ p, l !! i = Some p ∧ CreatePacket (sent i s0) p = Ret pkt;
  al_pc : match r_write s with
          | Idle => r_session s = sent (length (r_wire s)) s0 ∧
              r_queue s = drop (length (r_wire s)) l
          | Sealed pkt => r_session s = sent (length (r_wire s)) s0 ∧
              r_queue s = drop (S (length (r_wire s))) l ∧
              ∃ p, l !! length (r_wire s) = Some p ∧
                CreatePacket (sent (length (r_wire s)) s0) p = Ret pkt
          | Written => ∃ i, length (r_wire s) = S i ∧ r_session s = sent i s0 ∧
              r_queue s = drop (S i) l
          end
}.

Lemma incr_sent_S s0 i :
  length (Server.SentNonce s0) = Tcp.NonceSize → incr_sent (sent i s0) = sent (S i) s0.
Proof.
  intros Hn. unfold incr_sent, sent. cbn. f_equal. symmetry. apply incrNonce_Incr2le.
  by apply iter_incrNonce.
Qed.

Lemma race_run_inv s0 l :
  length (Server.SentNonce s0) = Tcp.NonceSize →
  ∀ s, race_run (λ t, t = WriteLoop) (mkRace s0 l Idle Idle []) s → alone s0 l s.
Proof.
  intros Hn s Hrun. induction Hrun as [|t s1 s2 -> _ IH Hstep].
  { split; cbn; [done|]. by destruct s0. }
  destruct IH as [Hw Hp]. inversion Hstep as [p rest pkt s Hpc Hq Hc|pkt s|t pkt s Hpc|t s Hpc];
    subst; cbn in Hpc; rewrite Hpc in Hp; (split; cbn; [try exact Hw|]).
  - destruct Hp as [Hs Hd]. split; [done|]. rewrite Hq in Hd.
    assert (l !! length (r_wire s1) = Some p) as Hl.
    { rewrite <- (Nat.add_0_r (length (r_wire s1))), <- lookup_drop, <- Hd. done. }
    split; [by rewrite (drop_S _ _ _ Hl) in Hd; injection Hd as ->|].
    exists p. split; [done|]. by rewrite <- Hs.
  - destruct Hp as (_ & _ & p & Hl & Hp). intros i k Hi.
    apply lookup_snoc_Some in Hi as [[_ Hi]|[-> <-]]; eauto.
  - destruct Hp as (Hs & Hd & _). exists (length (r_wire s1)). rewrite length_app. cbn.
    split; [lia|done].
  - destruct Hp as (i & Hl & -> & Hd). rewrite Hl, Hd. split; [by apply incr_sent_S|done].
Qed.
End RaceFacts.

(** ** Termination of the read loop *)

Section Ends.
Context `{NaclBox} `{GoppLaws} `{RingLaws}.

(** A turn that goes on has taken a byte at least. *)
Definition progress (c : conn) (m : outcome conn_err (option bytes * conn)) : Prop :=
  match m with
  | Ret (Some _, c1) => (length (contents (crbuf c1)) < length (contents (crbuf c)))%nat
  | Fail _ => False
  | _ => True
  end.

Lemma Assert_progress c b (k : unit → outcome conn_err (option bytes * conn)) :
  (b = true → progress c (k tt)) → progress c (Assert b ≫= k).
Proof.
  destruct b; [rewrite Assert_true|rewrite Assert_false]; cbn; auto.
Qed.

(** The part of [take_packet] behind the length. *)
Lemma body_progress c c1 :
  0 ≤ nxtpktlen c1 < 65536 →
  (length (contents (crbuf c1)) ≤ length (contents (crbuf c)))%nat →
  (nxtpktlen c1 = 0 → (length (contents (crbuf c1)) < length (contents (crbuf c)))%nat) →
  progress c (if ring_Len (crbuf c1) <? nxtpktlen c1 then Ret (None, c1)
              else let size := u16 (2 + nxtpktlen c1) in
                if size <? 2 then Panic
                else let '(body, r) := ring_Read (Z.to_nat (size - 2)) (crbuf c1) in
                  _ ← Assert (zlen body + 2 =? size);
                  Ret (Some (be_bytes 2 (nxtpktlen c1) ++ body),
                       mkConn (Status c1) (sess c1) r (nxtpktlen c1) (out c1))).
Proof.
  intros Hn Hl Hz. rewrite Len_contents. destruct (_ <? nxtpktlen c1); [exact I|]. cbv zeta.
  destruct (u16 (2 + nxtpktlen c1) <? 2) eqn:E2; zbool; [exact I|].
  destruct (Read_contents (Z.to_nat (u16 (2 + nxtpktlen c1) - 2)) (crbuf c1)) as (r & -> & Hk & _).
  apply Assert_progress. intros Ha. apply Z.eqb_eq in Ha. cbn [progress crbuf].
  rewrite Hk, length_drop. unfold zlen in Ha. rewrite length_take in Ha.
  destruct (decide (nxtpktlen c1 = 0)) as [E|E]; [specialize (Hz E); lia|].
  assert (u16 (2 + nxtpktlen c1) ≠ 2); [|lia].
  unfold u16, wrap_u in *. intros Hu.
  destruct (Z.lt_ge_cases (2 + nxtpktlen c1) (2 ^ 16)) as [Hs|Hs].
  - rewrite Z.mod_small in Hu by lia. lia.
  - replace (2 + nxtpktlen c1) with (nxtpktlen c1 - 65534 + 1 * 2 ^ 16) in Hu by lia.
    rewrite Z.mod_add, Z.mod_small in Hu by lia. lia.
Qed.

Lemma take_packet_progress c : 0 ≤ nxtpktlen c < 65536 → progress c (take_packet c).
Proof.
  intros Hn. unfold take_packet. destruct (Status c).
  { destruct (Read_contents ((Mintox.PUBLIC_KEY_SIZE + Mintox.NONCE_SIZE) * 2 + Mintox.MAC_SIZE)
      (crbuf c)) as (r & -> & Hk & _). apply Assert_progress. intros Ha.
    apply bool_decide_eq_true in Ha. cbn [progress crbuf]. rewrite Hk, length_drop.
    rewrite length_take in Ha. revert Ha.
    change ((Mintox.PUBLIC_KEY_SIZE + Mintox.NONCE_SIZE) * 2 + Mintox.MAC_SIZE)%nat with 128%nat.
    lia. }
  all: destruct (nxtpktlen c =? 0) eqn:E; zbool; cbn [andb]; [|by apply body_progress; lia].
  all: rewrite Len_contents; destruct (_ <? 2) eqn:E2; zbool; [exact I|].
  all: destruct (Read_contents 2 (crbuf c)) as (r & -> & Hk & _).
  all: unfold zlen in E2; apply body_progress; cbn [nxtpktlen crbuf];
    [|rewrite Hk, length_drop; lia..].
  all: match goal with |- 0 ≤ be_val ?l < _ => pose proof (be_val_range l) as Hv end;
    unfold zlen in Hv; rewrite length_copy_into, length_make_bytes in Hv; exact Hv.
Qed.

Lemma handle_result Seckey sn tn tpk tsk b c :
  match handle Seckey sn tn tpk tsk b c with
  | Ret c2 => crbuf c2 = crbuf c ∧ nxtpktlen c2 = 0
  | Fail e => e ≠ OutOfFuel
  | Panic => True
  end.
Proof.
  assert (∀ st, match (s ← (match sess c with Some s => Ret s | None => Panic end);
      '(plnpkt, s') ← Unpacket s b; _ ← index plnpkt 0;
      let o := if bool_decide (st = UNCONFIRMED) then OConfirm plnpkt else OPacket plnpkt in
      Ret (mkConn CONFIRMED (Some s') (crbuf c) 0 (out c ++ [o])) : outcome conn_err conn) with
    | Ret c2 => crbuf c2 = crbuf c ∧ nxtpktlen c2 = 0
    | Fail e => e ≠ OutOfFuel
    | Panic => True
    end) as Hrest.
  { intros st. destruct (sess c) as [s|]; cbn [mbind outcome_bind]; [|done].
    unfold Unpacket, slice_from. destruct (bool_decide (2 ≤ length b)%nat); cbn [mbind outcome_bind]; [|done].
    destruct (Mintox.DecryptDataSymmetric2 _ _ _) as [pl| |]; cbn [ErrPrint mbind outcome_bind]; [|done..].
    unfold index. by destruct (pl !! 0%nat). }
  unfold handle. destruct (Status c); [|apply Hrest..].
  destruct (Server.HandleHandshake _ _ _ _ _ _) as [[s r]|e|]; cbn; done.
Qed.

Lemma doReadPacket_ends Seckey sn tn tpk tsk fuel : ∀ c,
  0 ≤ nxtpktlen c < 65536 → (length (contents (crbuf c)) < fuel)%nat →
  doReadPacket Seckey sn tn tpk tsk fuel c ≠ Fail OutOfFuel.
Proof.
  induction fuel as [|fuel IH]; intros c Hn Hf; [lia|]. cbn [doReadPacket].
  pose proof (take_packet_progress c Hn) as Hp.
  destruct (take_packet c) as [[[b|] c1]|e|]; cbn [mbind outcome_bind progress] in *; [|done..].
  pose proof (handle_result Seckey sn tn tpk tsk b c1) as Hh.
  destruct (handle _ _ _ _ _ b c1) as [c2|e|]; cbn [mbind outcome_bind]; [|congruence|done].
  destruct Hh as [Eb En]. apply IH; [lia|]. rewrite Eb. lia.
Qed.
End Ends.

(** ** A ring buffer *)

Module ListRing.
#[export] Instance list_ring : Ring := {|
  ring := bytes * Z;
  ring_new n := ([], n);
  ring_Len r := zlen (fst r);
  ring_Cap r := snd r;
  ring_Write b r := (zlen b, (fst r ++ b, snd r));
  ring_Read n r := (take n (fst r), (drop n (fst r), snd r));
|}.

#[export, program] Instance list_ring_laws : RingLaws list_ring := {|
  contents := fst;
  ring_size := snd;
|}.
Next Obligation. done. Qed.
Next Obligation. done. Qed.
Next Obligation. cbn. lia. Qed.
Next Obligation. cbn. eauto. Qed.
Next Obligation. cbn. eauto. Qed.
End ListRing.

(** ** Properties *)

(** The server on a client's handshake and packets, in any chunking that keeps
    the handshake together. *)
Lemma server_reads_stream `{NaclBoxLaws} `{GoppLaws} `{RingLaws}
    ssk csk tsk csn cin ssn stn stsk ps chunk chunks :
  length ssk = KeySize → length csk = KeySize → length tsk = KeySize → length stsk = KeySize →
  length csn = NonceSize → length cin = NonceSize →
  let shr := box_precompute (scalar_base ssk) csk in
  let k := box_precompute (scalar_base stsk) tsk in
  let hello := client_hello (scalar_base csk) shr cin (scalar_base tsk) csn in
  Forall (λ p, 1 ≤ zlen p ≤ maxBody) ps →
  concat (chunk :: chunks) = hello ++ wire k csn ps → (length hello ≤ length chunk)%nat →
  Forall (λ k, zlen k ≤ 3000) (chunk :: chunks) →
  ∃ c, runReadLoop ssk ssn stn (scalar_base stsk) stsk (chunk :: chunks) new_conn = Ret c ∧
    out c = OReply (stn ++ box_seal (scalar_base stsk ++ ssn) stn shr) :: events UNCONFIRMED ps ∧
    Status c = after UNCONFIRMED ps ∧ contents (crbuf c) = [] ∧
    sess c = Some (Server.Session (scalar_base csk) k (Nat.iter (length ps) Tcp.incrNonce csn) ssn).
Proof.
  intros Hs Hc Lt Lst Hcsn Hcin shr key hello Hps Hcat Hlen Hk.
  pose proof (base_length csk Hc) as Lc. pose proof (base_length tsk Lt) as Ltp.
  assert (length hello = 128%nat) as Hh.
  { unfold hello, client_hello, KeySize, NonceSize in *.
    rewrite !length_app, seal_length, length_app, Lc, Hcin, Ltp, Hcsn. done. }
  pose proof (server_answers ssk csk tsk _ csn cin ssn stn _ stsk Hs Hc Lt eq_refl Lst eq_refl
    Hcsn Hcin) as Hans. fold shr in Hans. fold hello in Hans.
  match type of Hans with _ = Ret (?s0, ?resp0) => set (s := s0) in *; set (resp := resp0) in * end.
  cbn [concat] in Hcat. destruct (app_split _ _ _ _ Hcat Hlen) as (rest & -> & Hr).
  apply Forall_cons_1 in Hk as [Hk Hks].
  destruct (feed_hello ssk ssn stn _ stsk hello rest s resp Hh Hans Hk) as (r & Hrc & Hrs & Ef).
  set (c0 := mkConn UNCONFIRMED (Some s) r 0 [OReply resp]) in *.
  assert (waits c0 s (concat chunks) ps) as W0.
  { split; cbn [c0 sess Status crbuf nxtpktlen]; [done|done|done| |done|done|lia].
    unfold hdr. cbn [nxtpktlen c0 Z.eqb app crbuf]. by rewrite Hrc, Hr. }
  destruct (doReadPacket_drains ssk ssn stn (scalar_base stsk) stsk (length (hello ++ rest)) c0 s
    (concat chunks) ps W0) as (c1 & ps1 & ps2 & -> & E1 & W1 & St1 & O1 & Hf1 & Hl1).
  { cbn [c0 crbuf]. rewrite Hrc, length_app. lia. }
  destruct (runReadLoop_drains ssk ssn stn (scalar_base stsk) stsk chunks c1 _ ps2 W1 Hl1 Hf1 Hks)
    as (c & E & W & St & O). rewrite advanced_add in W.
  exists c. cbn [runReadLoop]. rewrite Ef, E1.
  cbn [mbind outcome_bind]. split; [done|]. rewrite O, O1, St, St1. cbn [c0 out Status].
  rewrite <- app_assoc, <- events_app, after_app. split; [done|]. split; [done|].
  destruct W as [Ws _ _ Wb _ _ _]. rewrite app_nil_r in Wb. cbn [wire] in Wb.
  apply app_eq_nil in Wb as [_ Wb]. split; [done|].
  rewrite length_app, Nat.add_comm. done.
Qed.

(** C2: The relay server understands the relay client, end to end.  When a client
    sends its handshake and then packets of 1 to 2032 bytes, and the network
    cuts the stream anywhere behind the handshake, the server's read loop
    answers the handshake with a reply from which the client derives the key it
    seals with, confirms the client on the first packet, hands on all the
    others in order, and ends with an empty buffer, the client's key and a
    receive nonce equal to the client's send nonce. *)
Theorem server_reads_client `{NaclBoxLaws} `{GoppLaws} `{RingLaws}
    ssk csk tpk tsk csn cin ssn stn stpk stsk pkt hs ps w n chunk chunks :
  length ssk = KeySize → length csk = KeySize → keypair tpk tsk → keypair stpk stsk →
  length csn = NonceSize → length cin = NonceSize → length ssn = NonceSize →
  length stn = NonceSize →
  Client.generateClientPacket (Some (tpk, tsk)) csn cin
    (Client.newHandshakeState (scalar_base ssk) (scalar_base csk) csk) = Ret (pkt, hs) →
  Forall (λ p, 1 ≤ zlen p ≤ MaxPlainSize) ps →
  encodeAll (beforeNm stpk tsk) csn ps = Ret (w, n) →
  concat (chunk :: chunks) = pkt ++ w → (length pkt ≤ length chunk)%nat →
  Forall (λ k, zlen k ≤ 3000) (chunk :: chunks) →
  ∃ c s resp, runReadLoop ssk ssn stn stpk stsk (chunk :: chunks) new_conn = Ret c ∧
    out c = OReply resp :: events UNCONFIRMED ps ∧
    Client.handleServerResponse hs resp = Ret (beforeNm stpk tsk, ssn) ∧
    Status c = after UNCONFIRMED ps ∧ contents (crbuf c) = [] ∧
    sess c = Some s ∧ Server.Pubkey s = scalar_base csk ∧ Server.RecvNonce s = n.
Proof.
  intros Hs Hc [Lt ->] [Lst ->] Hcsn Hcin Hssn Hstn Hg Hps Henc Hcat Hlen Hk.
  pose proof (base_length csk Hc) as Lc. pose proof (base_length tsk Lt) as Ltp.
  pose proof (base_length stsk Lst) as Lsp.
  rewrite generateClientPacket_eq in Hg by done. injection Hg as <- <-.
  cbn [Client.selfPK Client.initShr Client.newHandshakeState] in *. unfold beforeNm in *.
  rewrite encodeAll_wire in Henc by (eapply Forall_impl; [|exact Hps]; cbn; lia).
  injection Henc as <- <-.
  destruct (server_reads_stream ssk csk tsk csn cin ssn stn stsk ps chunk chunks)
    as (c & E & O & St & Wb & Ws); try done.
  { eapply Forall_impl; [|exact Hps]. cbn. unfold MaxPlainSize, MaxPacketSize, MacSize, maxBody. lia. }
  eexists c, _, _. split; [done|]. split; [done|]. split; [by apply handleServerResponse_eq|].
  done.
Qed.

Import ToyBox ListRing.

Definition w_state : outcome hs_err (bytes * Client.handshakeState) :=
  Client.generateClientPacket (Some (replicate 32 x03, replicate 32 x03)) (replicate 24 x04)
    (replicate 24 x05) (Client.newHandshakeState (replicate 32 x01) (replicate 32 x02)
       (replicate 32 x02)).
Definition w_hello : bytes := match w_state with Ret (p, _) => p | _ => [] end.
Definition w_hs : Client.handshakeState :=
  match w_state with
  | Ret (_, hs) => hs
  | _ => Client.newHandshakeState [] [] []
  end.
Definition w_plains : list bytes := [buildPing 7; str "x"].
Definition w_sent : bytes :=
  match encodeAll (beforeNm (replicate 32 x08) (replicate 32 x03)) (replicate 24 x04) w_plains with
  | Ret (w, _) => w
  | _ => []
  end.

Lemma server_reads_client_witness :
  ∃ c resp, runReadLoop (replicate 32 x01) (replicate 24 x06) (replicate 24 x07) (replicate 32 x08)
      (replicate 32 x08) [w_hello ++ take 1 w_sent; drop 1 w_sent] new_conn = Ret c ∧
    out c = [OReply resp; OConfirm (buildPing 7); OPacket (str "x")].
Proof.
  edestruct (server_reads_client (replicate 32 x01) (replicate 32 x02) (replicate 32 x03)
    (replicate 32 x03) (replicate 24 x04) (replicate 24 x05) (replicate 24 x06) (replicate 24 x07)
    (replicate 32 x08) (replicate 32 x08) w_hello w_hs w_plains w_sent
    (Nat.iter 2 Tcp.incrNonce (replicate 24 x04)) (w_hello ++ take 1 w_sent)
    [drop 1 w_sent]) as (c & s & resp & E & O & _);
    [reflexivity|reflexivity|split; reflexivity|split; reflexivity|reflexivity|reflexivity
    |reflexivity|reflexivity|vm_compute; reflexivity| | | | | |exists c, resp; split; [exact E|exact O]].
  - repeat constructor; vm_compute; discriminate.
  - vm_compute. reflexivity.
  - vm_compute. reflexivity.
  - vm_compute. lia.
  - repeat constructor; vm_compute; discriminate.
Defined.

(** What the server's write loop sends is what the client reads.  However the
    runtime chooses between the two queues, the loop writes packets of at most
    2032 bytes in the order of each queue; with a turn for every queued packet it
    empties both; and a client that holds the session key and the server's send
    nonce reads back, from any chunking, exactly the packets in the order
    written. *)
Theorem server_writes_delivered `{NaclBoxLaws} `{GoppLaws} picks w :
  ready_writer w → w_wire w = [] →
  ∃ l w', runWriteLoop picks w = Ret (l, w') ∧
    cwctrlq w = from true l ++ cwctrlq w' ∧ cwdataq w = from false l ++ cwdataq w' ∧
    ((length (cwctrlq w) + length (cwdataq w) ≤ length picks)%nat →
       cwctrlq w' = [] ∧ cwdataq w' = []) ∧
    ∀ r rest, pending r = w_wire w' ++ rest →
      ∃ r', decodeAll (Server.Shrkey (w_session w)) (Server.SentNonce (w_session w)) (length l) r =
        (Ret (map snd l, Server.SentNonce (w_session w')), r') ∧ pending r' = rest.
Proof.
  intros Hw Hnil. destruct (runWriteLoop_ok picks w Hw) as (l & w' & E & [Ws Ww Wc Wd Wu] & Hl).
  exists l, w'. split; [done|]. split; [done|]. split; [done|]. split; [done|].
  rewrite Hnil in Ww. cbn [app] in Ww. intros r rest Hr.
  destruct Hw as (_ & _ & Hc & Hd). rewrite Wc in Hc. rewrite Wd in Hd.
  apply Forall_app in Hc as [Hc _]. apply Forall_app in Hd as [Hd _].
  assert (Forall (λ p, zlen p ≤ MaxPlainSize) (map snd l)) as Hall by (by apply Forall_from).
  destruct (encode_decode_all (Server.Shrkey (w_session w)) (Server.SentNonce (w_session w))
    (map snd l) Hall) as (wi & E1 & E2). rewrite encodeAll_wire in E1 by done. injection E1 as <-.
  rewrite Ww in Hr. destruct (E2 r rest Hr) as (r' & E3 & Hp). rewrite length_map in E3.
  exists r'. rewrite E3, Ws. done.
Qed.

Definition sample_writer : writer :=
  mkWriter (Server.Session (replicate 32 x02) (replicate 32 x0b) (replicate 24 x04)
              (replicate 24 x06)) [str "c1"; str "c2"] [str "d1"] true [].

Lemma server_writes_delivered_witness :
  ∃ l w', runWriteLoop [false; true; true] sample_writer = Ret (l, w') ∧
    cwctrlq w' = [] ∧ cwdataq w' = [].
Proof.
  destruct (server_writes_delivered [false; true; true] sample_writer)
    as (l & w' & E & _ & _ & H & _).
  - split; [reflexivity|]. split; [reflexivity|]. split; repeat constructor; vm_compute; discriminate.
  - reflexivity.
  - exists l, w'. split; [exact E|]. apply H. cbn. lia.
Defined.

(** C31: A connection uses a new nonce for every packet as long as its write loop
    is the only goroutine that writes: in every such run the [i]-th packet on the
    socket is the [i]-th packet the loop took from its queues, sealed under the
    first nonce plus [i].  With the ping loop beside it this fails: whatever
    packet is queued first and whatever ping id is drawn, there is a run in which
    the loops seal that packet and the ping of [MakePingPacket] under the same
    nonce and write both. *)
Theorem nonce_per_packet `{NaclBoxLaws} `{GoppLaws} s0 l :
  length (Server.SentNonce s0) = Tcp.NonceSize →
  (∀ s, race_run (λ t, t = WriteLoop) (mkRace s0 l Idle Idle []) s →
     ∀ i pkt, r_wire s !! i = Some pkt →
       ∃ p, l !! i = Some p ∧ CreatePacket (sent i s0) p = Ret pkt) ∧
  (∀ p rest pingid, l = p :: rest → 0 ≤ pingid < 2 ^ 64 →
     ∃ s pkt1 pkt2, race_run (λ _, True) (mkRace s0 l Idle Idle []) s ∧
       r_wire s = [pkt1; pkt2] ∧
       CreatePacket s0 p = Ret pkt1 ∧ MakePingPacket pingid s0 = Ret pkt2).
Proof.
  intros Hn. split.
  - intros s Hrun. apply (race_run_inv s0 l Hn s Hrun).
  - intros p rest pingid -> Hid. destruct (CreatePacket_total s0 p) as (pkt1 & E1).
    assert (∃ pkt2, MakePingPacket pingid s0 = Ret pkt2) as (pkt2 & E2)
      by apply CreatePacket_total.
    eexists (mkRace s0 rest Written Written [pkt1; pkt2]), pkt1, pkt2.
    split; [|done]. set (start := mkRace s0 (p :: rest) Idle Idle []).
    assert (race_run (λ _, True) start (mkRace s0 rest (Sealed pkt1) Idle [])) as R1.
    { apply (run_step _ _ WriteLoop start); [done|apply run_refl|].
      by apply (race_take p rest pkt1 start). }
    assert (race_run (λ _, True) start (mkRace s0 rest (Sealed pkt1) (Sealed pkt2) [])) as R2.
    { eapply (run_step _ _ PingLoop); [done|exact R1|].
      by apply (race_tick pingid pkt2 (mkRace s0 rest (Sealed pkt1) Idle [])). }
    assert (race_run (λ _, True) start (mkRace s0 rest Written (Sealed pkt2) [pkt1])) as R3.
    { eapply (run_step _ _ WriteLoop); [done|exact R2|].
      by apply (race_write WriteLoop pkt1 (mkRace s0 rest (Sealed pkt1) (Sealed pkt2) [])). }
    eapply (run_step _ _ PingLoop); [done|exact R3|].
    by apply (race_write PingLoop pkt2 (mkRace s0 rest Written (Sealed pkt2) [pkt1])).
Qed.

(** A pong that answers the client, and a ping, under one nonce *)
Lemma nonce_per_packet_witness :
  ∃ s pkt1 pkt2, race_run (λ _, True)
      (mkRace (w_session sample_writer) [zb 5 :: be_bytes 8 7] Idle Idle []) s ∧
    r_wire s = [pkt1; pkt2] ∧
    CreatePacket (w_session sample_writer) (zb 5 :: be_bytes 8 7) = Ret pkt1 ∧
    MakePingPacket 99 (w_session sample_writer) = Ret pkt2.
Proof.
  by eapply (nonce_per_packet (w_session sample_writer) [zb 5 :: be_bytes 8 7]).
Defined.

(** The read loop always comes to an end: draining the buffer never runs out of
    the turns that the number of buffered bytes allows, whatever the bytes are. *)
Theorem read_loop_terminates `{NaclBox} `{GoppLaws} `{RingLaws} Seckey sn tn tpk tsk chunk c :
  0 ≤ nxtpktlen c < 65536 → feed Seckey sn tn tpk tsk chunk c ≠ Fail OutOfFuel.
Proof.
  intros Hn. unfold feed, Assert. destruct (gopp_assert _); [|done]. cbn [mbind outcome_bind].
  destruct (ring_Write chunk (crbuf c)) as [wn r]. destruct (gopp_assert _); [|done].
  cbn [mbind outcome_bind]. apply doReadPacket_ends; [done|]. cbn [crbuf].
  rewrite Len_contents. unfold zlen. lia.
Qed.

Lemma read_loop_terminates_witness :
  ∃ r, feed [] [] [] [] [] (str "x") (mkConn CONFIRMED None (ring_new 10) 0 []) = r ∧
    r ≠ Fail OutOfFuel.
Proof.
  eexists. split; [reflexivity|].
  apply (read_loop_terminates [] [] [] [] [] (str "x") (mkConn CONFIRMED None (ring_new 10) 0 [])).
  cbn. lia.
Defined.

(** A handshake that arrives in pieces crashes the server: the first chunk is
    asserted to hold all 128 bytes of it. *)
Theorem fragmented_handshake_panics `{NaclBoxLaws} `{GoppLaws} `{RingLaws}
    Seckey sn tn tpk tsk chunk :
  (length chunk < 128)%nat → feed Seckey sn tn tpk tsk chunk new_conn = Panic.
Proof.
  intros Hl. destruct (contents_new (1024 * 1024)) as [Hn1 Hn2].
  destruct (feed_eq Seckey sn tn tpk tsk chunk new_conn) as (r & Hk & _ & ->).
  { cbn [crbuf new_conn]. rewrite Hn1, Hn2. unfold zlen. cbn [length]. lia. }
  cbn [crbuf new_conn] in Hk. rewrite Hn1 in Hk. cbn [app] in Hk.
  destruct (Read_contents 128 r) as (r' & Er & _). cbn [doReadPacket].
  unfold take_packet. cbn [Status new_conn crbuf].
  change ((Mintox.PUBLIC_KEY_SIZE + Mintox.NONCE_SIZE) * 2 + Mintox.MAC_SIZE)%nat with 128%nat.
  rewrite Er, bool_decide_false, Assert_false; [done|]. rewrite Hk, length_take. lia.
Qed.

Lemma fragmented_handshake_panics_witness :
  feed [] [] [] [] [] (make_bytes 100) new_conn = Panic.
Proof. apply (fragmented_handshake_panics [] [] [] [] [] (make_bytes 100)). cbn. lia. Defined.

(** A packet that does not open under the session key crashes the server. *)
Theorem forged_packet_panics `{NaclBoxLaws} `{GoppLaws} `{RingLaws}
    Seckey sn tn tpk tsk c s x :
  Status c ≠ NO_STATUS → sess c = Some s → nxtpktlen c = 0 → contents (crbuf c) = [] →
  ring_size (crbuf c) = 1024 * 1024 → 1 ≤ zlen x ≤ 2998 →
  box_open x (Server.RecvNonce s) (Server.Shrkey s) = None →
  feed Seckey sn tn tpk tsk (be_bytes 2 (zlen x) ++ x) c = Panic.
Proof.
  intros Hst Hs Hn Hc Hsz Hx Ho.
  destruct (feed_eq Seckey sn tn tpk tsk (be_bytes 2 (zlen x) ++ x) c) as (r & Hk & Hrs & ->).
  { rewrite Hc, Hsz, zlen_app. unfold zlen. rewrite length_be_bytes. cbn [length]. unfold zlen in *. lia. }
  rewrite Hc in Hk. cbn [app] in Hk. cbn [doReadPacket].
  assert (be_val (be_bytes 2 (zlen x)) = zlen x) as Ev
    by (rewrite be_val_be_bytes; apply Z.mod_small; lia).
  destruct (take_packet_header (mkConn (Status c) (sess c) r (nxtpktlen c) (out c)) _ x Hst Hn Hk
    (length_be_bytes _ _)) as (r1 & Hk1 & _ & ->); [lia|]. rewrite Ev.
  pose proof (take_packet_body (mkConn (Status c) (sess c) r1 (zlen x) (out c)) Hst) as Ht.
  cbn [nxtpktlen crbuf Status sess out] in *. specialize (Ht ltac:(lia)). rewrite Hk1 in Ht.
  rewrite decide_False in Ht by lia. destruct Ht as (r2 & _ & _ & ->). cbn [mbind outcome_bind].
  rewrite take_ge by (unfold zlen; lia). unfold handle. cbn [Status sess]. rewrite Hs.
  assert (∀ k : bytes * Server.session → outcome conn_err conn,
    (∀ s', k ([], s') = Panic) →
    (Unpacket s (be_bytes 2 (zlen x) ++ x) ≫= k) = Panic) as HU.
  { intros k Hk0. unfold Unpacket. rewrite slice_from_app by apply length_be_bytes.
    cbn [mbind outcome_bind]. destruct (decide (length x = Mintox.MAC_SIZE)) as [H16|H16].
    - unfold Mintox.DecryptDataSymmetric2, Mintox.CBOpenAfterNm2. rewrite Ho.
      rewrite bind_Assert by (unfold zlen; rewrite H16; done). apply Hk0.
    - by rewrite Mintox.DecryptDataSymmetric2_bad. }
  destruct (Status c); [done| |]; cbn [mbind outcome_bind]; rewrite HU; done.
Qed.

Lemma forged_packet_panics_witness :
  feed [] [] [] [] [] (be_bytes 2 20 ++ make_bytes 20)
    (mkConn CONFIRMED (Some (w_session sample_writer)) (ring_new (1024 * 1024)) 0 []) = Panic.
Proof.
  apply (forged_packet_panics [] [] [] [] []
    (mkConn CONFIRMED (Some (w_session sample_writer)) (ring_new (1024 * 1024)) 0 [])
    (w_session sample_writer) (make_bytes 20));
    try reflexivity; [discriminate|vm_compute; intuition discriminate].
Defined.
