(* ===== verification/BiMap.v ===== *)
(** * Two-way maps (mintox/bimap.go)

    [BiMap] keeps a map and its inverse behind one lock.  The theorems: the
    exact condition under which [Insert] keeps the two maps inverse to each
    other, that deletions keep them so, and that a refused change leaves the
    reader lock taken, so that the next writer waits for ever. *)

From S2P Require Import Prelude.
Local Open Scope Z_scope.

Section BiMap.
Context {K V : Type} `{Countable K} `{Countable V}.

(** [readers] counts the reader locks that are held between two calls: the
    panic of a refused change is raised before its [RUnlock]. *)
Record BiMap := mkBiMap {
  readers : nat;
  immutable : bool;
  forward : gmap K V;
  inverse : gmap V K
}.

Definition NewBiMap : BiMap := mkBiMap 0 false ∅ ∅.

(** The result of a call: [Blocked] waits for the lock, [Panicked] leaves the
    state given. *)
Inductive call (A : Type) :=
| Done (r : A) (b : BiMap)
| Panicked (b : BiMap)
| Blocked.
Arguments Done {A}.
Arguments Panicked {A}.
Arguments Blocked {A}.

(** [RLock] and, on the path that does not panic, [RUnlock], then [Lock]. *)
Definition guarded {A} (b : BiMap) (f : BiMap → A * BiMap) : call A :=
  if immutable b then Panicked (mkBiMap (S (readers b)) (immutable b) (forward b) (inverse b))
  else
    match readers b with
    | O => let '(r, b') := f b in Done r b'
    | S _ => Blocked
    end.

Definition Insert (k : K) (v : V) (b : BiMap) : call unit :=
  guarded b (λ b, (tt, mkBiMap (readers b) (immutable b)
                         (<[k := v]> (forward b)) (<[v := k]> (inverse b)))).

Definition Exists (k : K) (b : BiMap) : bool := bool_decide (is_Some (forward b !! k)).
Definition ExistsInverse (v : V) (b : BiMap) : bool := bool_decide (is_Some (inverse b !! v)).

Definition Get (k : K) (b : BiMap) : option V :=
  if Exists k b then forward b !! k else None.
Definition GetInverse (v : V) (b : BiMap) : option K :=
  if ExistsInverse v b then inverse b !! v else None.

(** The early return for an absent key comes before [Lock]. *)
Definition Delete (k : K) (b : BiMap) : call unit :=
  if negb (immutable b) && negb (Exists k b) then Done tt b
  else guarded b (λ b,
    match Get k b with
    | Some val => (tt, mkBiMap (readers b) (immutable b)
                         (delete k (forward b)) (delete val (inverse b)))
    | None => (tt, b)
    end).

Definition DeleteInverse (v : V) (b : BiMap) : call unit :=
  if negb (immutable b) && negb (ExistsInverse v b) then Done tt b
  else guarded b (λ b,
    match GetInverse v b with
    | Some key => (tt, mkBiMap (readers b) (immutable b)
                         (delete key (forward b)) (delete v (inverse b)))
    | None => (tt, b)
    end).

Definition Size (b : BiMap) : nat := size (forward b).

Definition MakeImmutable (b : BiMap) : call unit :=
  match readers b with
  | O => Done tt (mkBiMap O true (forward b) (inverse b))
  | S _ => Blocked
  end.

(** ** Invariant *)

Definition bijective (b : BiMap) : Prop :=
  ∀ k v, forward b !! k = Some v ↔ inverse b !! v = Some k.

(** A map that can be changed and whose lock is free. *)
Definition open (b : BiMap) : Prop := immutable b = false ∧ readers b = O.

Lemma Get_forward k b : Get k b = forward b !! k.
Proof.
  unfold Get, Exists. case_bool_decide as E; [done|].
  apply eq_None_not_Some in E. by rewrite E.
Qed.

Lemma GetInverse_inverse v b : GetInverse v b = inverse b !! v.
Proof.
  unfold GetInverse, ExistsInverse. case_bool_decide as E; [done|].
  apply eq_None_not_Some in E. by rewrite E.
Qed.

Lemma guarded_open {A} b (f : BiMap → A * BiMap) :
  open b → guarded b f = Done (f b).1 (f b).2.
Proof. intros [E1 E2]. unfold guarded. rewrite E1, E2. by destruct (f b). Qed.

(** Removing a pair from both maps. *)
Lemma bijective_delete b k v :
  bijective b → forward b !! k = Some v →
  bijective (mkBiMap (readers b) (immutable b) (delete k (forward b)) (delete v (inverse b))).
Proof.
  intros Hb Hk k' v'. cbn. rewrite !lookup_delete_Some, (Hb k' v').
  split; intros [Hne E]; (split; [|done]); intros ->.
  - apply Hne. apply Hb in Hk. congruence.
  - apply Hne. apply Hb in E. congruence.
Qed.

(** Inserting a pair keeps the maps inverse exactly when neither side is in use
    for something else. *)
Lemma bijective_insert b k v r i :
  bijective b →
  (bijective (mkBiMap r i (<[k := v]> (forward b)) (<[v := k]> (inverse b))) ↔
   (∀ v', forward b !! k = Some v' → v' = v) ∧ (∀ k', forward b !! k' = Some v → k' = k)).
Proof.
  intros Hb. split.
  - intros Hn. split.
    + intros v' Hv. destruct (decide (v' = v)) as [|Hne]; [done|].
      specialize (Hn k v'). cbn in Hn. rewrite lookup_insert_eq, lookup_insert_ne in Hn by done.
      apply Hb, Hn in Hv. congruence.
    + intros k' Hk. destruct (decide (k' = k)) as [|Hne]; [done|].
      specialize (Hn k' v). cbn in Hn. rewrite lookup_insert_eq, lookup_insert_ne in Hn by done.
      apply Hn in Hk. congruence.
  - intros [H1 H2] k' v'. cbn.
    destruct (decide (k' = k)) as [->|Hk], (decide (v' = v)) as [->|Hv];
      rewrite ?lookup_insert_eq, ?lookup_insert_ne by done.
    + done.
    + split; [congruence|]. intros E. apply Hb, H1 in E. done.
    + split; [|congruence]. intros E. by apply H2 in E.
    + apply Hb.
Qed.
End BiMap.

Arguments BiMap K V {_ _ _ _}.
Arguments Done {K V _ _ _ _ A}.
Arguments Panicked {K V _ _ _ _ A}.
Arguments Blocked {K V _ _ _ _ A}.

(** ** Properties *)

(** On a map that is open and bijective, [Insert] always returns and binds
    the pair in both directions; the maps stay inverse to each other exactly when
    neither the key nor the value was bound to something else. *)
Theorem Insert_bijective `{Countable K} `{Countable V} k v (b : BiMap K V) :
  open b → bijective b →
  ∃ b', Insert k v b = Done tt b' ∧ open b' ∧
    Get k b' = Some v ∧ GetInverse v b' = Some k ∧
    (bijective b' ↔
      (∀ v', Get k b = Some v' → v' = v) ∧ (∀ k', Get k' b = Some v → k' = k)).
Proof.
  intros Ho Hb. eexists. unfold Insert. rewrite guarded_open by done. split; [done|]. cbn.
  split; [done|]. rewrite Get_forward, GetInverse_inverse. cbn. rewrite !lookup_insert_eq.
  split; [done|]. split; [done|].
  rewrite bijective_insert by done. by setoid_rewrite Get_forward.
Qed.

(** The map 1 <-> 10. *)
Definition one_pair : BiMap nat nat := mkBiMap 0 false {[1%nat := 10%nat]} {[10%nat := 1%nat]}.

Lemma one_pair_bijective : bijective one_pair.
Proof.
  intros k v. cbn. rewrite !lookup_singleton_Some. split; by intros [-> ->].
Qed.

Lemma Insert_bijective_witness :
  ∃ b', Insert 2%nat 10%nat one_pair = Done tt b' ∧ ~ bijective b'.
Proof.
  destruct (Insert_bijective 2%nat 10%nat one_pair) as (b' & E & _ & _ & _ & Hb).
  - by split.
  - apply one_pair_bijective.
  - exists b'. split; [exact E|]. rewrite Hb. intros [_ H2]. by specialize (H2 1%nat eq_refl).
Defined.

(** [Delete] and [DeleteInverse] always return on an open map, keep it
    bijective and remove exactly one pair, from both maps; deleting what is
    absent changes nothing. *)
Theorem Delete_bijective `{Countable K} `{Countable V} k v (b : BiMap K V) :
  open b → bijective b →
  (∃ b', Delete k b = Done tt b' ∧ open b' ∧ bijective b' ∧ forward b' = delete k (forward b)) ∧
  (∃ b', DeleteInverse v b = Done tt b' ∧ open b' ∧ bijective b' ∧
     inverse b' = delete v (inverse b)).
Proof.
  intros Ho Hb. destruct Ho as [Ei Er]. split.
  - unfold Delete, Exists. rewrite Ei. cbn [negb andb]. destruct (forward b !! k) as [w|] eqn:E.
    + rewrite bool_decide_true by eauto. cbn [negb]. rewrite guarded_open, Get_forward, E by done.
      eexists. split; [done|]. split; [done|]. split; [by apply bijective_delete|done].
    + rewrite bool_decide_false by (by intros [? ?]). exists b. split; [done|].
      split; [done|]. split; [done|]. by rewrite delete_id.
  - unfold DeleteInverse, ExistsInverse. rewrite Ei. cbn [negb andb].
    destruct (inverse b !! v) as [w|] eqn:E.
    + rewrite bool_decide_true by eauto. cbn [negb].
      rewrite guarded_open, GetInverse_inverse, E by done. apply Hb in E as E'.
      eexists. split; [done|]. split; [done|]. split; [by apply bijective_delete|done].
    + rewrite bool_decide_false by (by intros [? ?]). exists b. split; [done|].
      split; [done|]. split; [done|]. by rewrite delete_id.
Qed.

Lemma Delete_bijective_witness :
  ∃ b', Delete 1%nat one_pair = Done tt b' ∧ bijective b' ∧ Size b' = 0%nat.
Proof.
  destruct (Delete_bijective 1%nat 10%nat one_pair) as ((b' & E & _ & Hb & Hf) & _).
  - by split.
  - apply one_pair_bijective.
  - exists b'. split; [exact E|]. split; [exact Hb|]. unfold Size. rewrite Hf. reflexivity.
Defined.

(** A change of an immutable map panics and leaves its content, but with the
    reader lock taken: the next call that needs the writer lock waits for ever. *)
Theorem refused_change_leaks_lock `{Countable K} `{Countable V} k v (b : BiMap K V) :
  immutable b = true →
  ∃ b', Insert k v b = Panicked b' ∧ Delete k b = Panicked b' ∧ DeleteInverse v b = Panicked b' ∧
    forward b' = forward b ∧ inverse b' = inverse b ∧ MakeImmutable b' = Blocked.
Proof.
  intros E. unfold Insert, Delete, DeleteInverse, guarded. rewrite E. cbn. by eexists.
Qed.

Lemma refused_change_leaks_lock_witness :
  ∃ b, MakeImmutable one_pair = Done tt b ∧ ∃ b', Insert 2%nat 3%nat b = Panicked b' ∧
    MakeImmutable b' = Blocked.
Proof.
  eexists. split; [reflexivity|].
  edestruct (refused_change_leaks_lock (K := nat) (V := nat) 2%nat 3%nat)
    as (b' & E & _ & _ & _ & _ & Hm); [|exists b'; split; [exact E|exact Hm]].
  reflexivity.
Defined.
