(* ===== verification/SendQueue.v ===== *)
(** * The send queue of the relay client (mintox/blocked_priority_queue.go)

    A priority queue with a bound for ordinary senders: [BlockPut] waits while
    the queue is full, [Get] and [Dispose] wake a waiting sender.  The priority
    queue underneath is third-party code, an interface with laws.  The calls
    are cut into the steps between which other goroutines can run, and a run is
    a sequence of such steps.  The theorems: nothing put is lost or doubled and
    the packets that are not put with [Put] stay within the bound up to the
    number of senders, in every interleaving; the most urgent packet leaves
    first; and two schedules in which a sender waits for ever. *)

From S2P Require Import Prelude.
Local Open Scope Z_scope.

(** ** The priority queue *)

Inductive got (A Q : Type) : Type :=
| Items (l : list A) (q : Q)
| GetDisposed                       (* an error: the queue is disposed *)
| GetBlocks.                        (* empty: the call waits *)
Arguments Items {A Q}.
Arguments GetDisposed {A Q}.
Arguments GetBlocks {A Q}.

Class PriorityQueue (A : Type) := {
  pq : Type;
  pq_New : Z → bool → pq;
  pq_Put : list A → pq → bool * pq;        (* [false] is an error *)
  pq_Get : nat → pq → got A pq;
  pq_Len : pq → Z;
  pq_Peek : pq → option A;
  pq_Dispose : pq → pq;
  pq_Disposed : pq → bool
}.

(** [cmp] is [Compare] of the items.  The order among items that compare equal
    is not promised. *)
Class PriorityQueueLaws {A} (cmp : A → A → Z) (P : PriorityQueue A) := {
  pq_items : pq → list A;
  pq_dups : pq → bool;                     (* duplicates are allowed *)
  New_items h d : pq_items (pq_New h d) = [] ∧ pq_dups (pq_New h d) = d ∧
    pq_Disposed (pq_New h d) = false;
  Len_items q : pq_Len q = zlen (pq_items q);
  Put_live l q : pq_Disposed q = false → pq_dups q = true →
    ∃ q', pq_Put l q = (true, q') ∧ pq_items q' ≡ₚ l ++ pq_items q ∧
      pq_dups q' = true ∧ pq_Disposed q' = false;
  Put_disposed l q : pq_Disposed q = true → pq_Put l q = (false, q);
  Get_empty n q : pq_Disposed q = false → pq_items q = [] → pq_Get (S n) q = GetBlocks;
  Get_one q : pq_Disposed q = false → pq_items q ≠ [] →
    ∃ x q', pq_Get 1 q = Items [x] q' ∧ pq_items q ≡ₚ x :: pq_items q' ∧
      Forall (λ y, cmp x y ≤ 0) (pq_items q) ∧
      pq_dups q' = pq_dups q ∧ pq_Disposed q' = false;
  Get_disposed n q : pq_Disposed q = true → pq_Get (S n) q = GetDisposed;
  Dispose_items q : pq_items (pq_Dispose q) = [] ∧ pq_Disposed (pq_Dispose q) = true
}.

(** ** [BlockedPriorityQueue] and its callers *)

Section Queue.
Context {A : Type} `{PriorityQueue A}.

(** A call of a goroutine *)
Inductive qcall : Type :=
| CPut (items : list A)
| CBlockPut (items : list A)
| CGet                              (* Get(1) *)
| CDispose.

Inductive result : Type :=
| RPut (items : list A) (ok : bool)
| RGot (items : list A)
| RGetErr
| RDisposed.

(** Where a goroutine is inside a call. *)
Inductive pc : Type :=
| Idle
| Putting (items : list A)          (* return this.pq.Put(items...) *)
| Checking (items : list A)         (* if this.pq.Len() >= this.hint *)
| Blocking (items : list A)         (* inside the if, not yet receiving *)
| Receiving (items : list A)        (* <-this.subC *)
| Rechecking (items : list A)       (* if this.pq.Len() < this.hint *)
| Getting
| GetSignal (items : list A)        (* the select after pq.Get *)
| Disposing
| DisposeSignal.

Record thread := mkThread { t_pc : pc; t_todo : list qcall; t_log : list result }.

Record BlockedPriorityQueue := mkBPQ {
  queue : pq;
  hint : Z;
  threads : list thread             (* those at [Receiving] wait on subC *)
}.

Definition NewBlockedPriorityQueue (hint : Z) (allowDuplicates : bool) (ts : list thread)
    : BlockedPriorityQueue := mkBPQ (pq_New hint allowDuplicates) hint ts.

Definition is_receiving (t : thread) : bool :=
  match t_pc t with Receiving _ => true | _ => false end.

(** The goroutines that wait on [subC]. *)
Definition receivers (ts : list thread) : list nat :=
  filter (λ i, from_option is_receiving false (ts !! i) = true) (seq 0 (length ts)).

Definition received (t : thread) : thread :=
  match t_pc t with
  | Receiving l => mkThread (Rechecking l) (t_todo t) (t_log t)
  | _ => t
  end.

(** [select { case this.subC <- true: default: }]: the channel has no buffer,
    so one of the goroutines that wait gets the value, if there is any;
    [pick] is the choice of the runtime. *)
Definition signal (pick : nat) (ts : list thread) : list thread :=
  match receivers ts with
  | [] => ts
  | ws => alter received (nth (pick mod length ws) ws 0%nat) ts
  end.

Definition start (c : qcall) : pc :=
  match c with
  | CPut l => Putting l
  | CBlockPut l => Checking l
  | CGet => Getting
  | CDispose => Disposing
  end.

(** The next step of a goroutine up to the next point where another one can
    interfere; [None] when it waits or is done.  The second component is the
    queue after it, the third tells whether it signals. *)
Definition advance (h : Z) (q : pq) (t : thread) : option (thread * pq * bool) :=
  let go p := Some (mkThread p (t_todo t) (t_log t), q, false) in
  let ret r q b := Some (mkThread Idle (t_todo t) (t_log t ++ [r]), q, b) in
  match t_pc t with
  | Idle =>
      match t_todo t with
      | [] => None
      | c :: cs => Some (mkThread (start c) cs (t_log t), q, false)
      end
  | Putting l => let '(ok, q') := pq_Put l q in ret (RPut l ok) q' false
  | Checking l => go (if pq_Len q >=? h then Blocking l else Rechecking l)
  | Blocking l => go (Receiving l)
  | Receiving _ => None
  | Rechecking l => go (if pq_Len q <? h then Putting l else Checking l)
  | Getting =>
      match pq_Get 1 q with
      | Items l q' => Some (mkThread (GetSignal l) (t_todo t) (t_log t), q', false)
      | GetDisposed => ret RGetErr q false
      | GetBlocks => None
      end
  | GetSignal l => ret (RGot l) q true
  | Disposing => Some (mkThread DisposeSignal (t_todo t) (t_log t), pq_Dispose q, false)
  | DisposeSignal => ret RDisposed q true
  end.

(** Goroutine [i] takes its next step. *)
Definition step (i pick : nat) (s : BlockedPriorityQueue) : option BlockedPriorityQueue :=
  t ← threads s !! i;
  '(t', q', sig) ← advance (hint s) (queue s) t;
  let ts := <[i := t']> (threads s) in
  Some (mkBPQ q' (hint s) (if sig : bool then signal pick ts else ts)).

(** A schedule: the steps that cannot be taken are skipped. *)
Definition run (sched : list (nat * nat)) (s : BlockedPriorityQueue) : BlockedPriorityQueue :=
  foldl (λ s '(i, pick), default s (step i pick s)) s sched.

(** No goroutine can move. *)
Definition stuck (s : BlockedPriorityQueue) : bool :=
  forallb (λ t, match advance (hint s) (queue s) t with None => true | Some _ => false end)
    (threads s).

(** ** What the goroutines have put and got *)

Definition res_put (r : result) : list A :=
  match r with RPut l true => l | _ => [] end.
Definition res_got (r : result) : list A :=
  match r with RGot l => l | _ => [] end.

Definition put_of (t : thread) : list A := concat (map res_put (t_log t)).
Definition got_of (t : thread) : list A :=
  concat (map res_got (t_log t)) ++ match t_pc t with GetSignal l => l | _ => [] end.

Definition all_put (s : BlockedPriorityQueue) : list A := concat (map put_of (threads s)).
Definition all_got (s : BlockedPriorityQueue) : list A := concat (map got_of (threads s)).

(** ** The ordinary items

    [Put] omits the length check, "used for most prior one": [exempt] says which
    items are put that way, the others are ordinary. *)
Definition ordinary (exempt : A → bool) (l : list A) : nat :=
  length (filter (λ x, exempt x = false) l).

Definition pc_items (p : pc) : list A :=
  match p with
  | Putting l | Checking l | Blocking l | Receiving l | Rechecking l => l
  | _ => []
  end.
Definition call_items (c : qcall) : list A :=
  match c with CPut l | CBlockPut l => l | _ => [] end.
Definition res_items (r : result) : list A := match r with RPut l _ => l | _ => [] end.

(** Ordinary items of a put that has passed its check *)
Definition putting (exempt : A → bool) (t : thread) : nat :=
  match t_pc t with Putting l => ordinary exempt l | _ => 0 end.

(** The largest number of ordinary items in one call of a goroutine: 1 for a
    goroutine that sends packets one by one, 0 for one that sends none. *)
Definition share (exempt : A → bool) (t : thread) : nat :=
  Nat.max (ordinary exempt (pc_items (t_pc t)))
    (Nat.max (max_list_with (ordinary exempt ∘ call_items) (t_todo t))
       (max_list_with (ordinary exempt ∘ res_items) (t_log t))).

(** [Put] is called with exempt items only; [BlockPut] with any. *)
Definition exempt_call (exempt : A → bool) (c : qcall) : bool :=
  match c with CPut l => forallb exempt l | _ => true end.
Definition exempt_puts (exempt : A → bool) (t : thread) : bool :=
  forallb (exempt_call exempt) (t_todo t).

End Queue.

Arguments qcall A : clear implicits.
Arguments result A : clear implicits.
Arguments pc A : clear implicits.
Arguments thread A : clear implicits.
Arguments BlockedPriorityQueue A {_}.

(** ** Lemmas *)

Section Lists.
Context {A B : Type}.

Lemma concat_map_insert (f : B → list A) ts i t t' x :
  ts !! i = Some t → f t' ≡ₚ x ++ f t →
  concat (map f (<[i := t']> ts)) ≡ₚ x ++ concat (map f ts).
Proof.
  revert i. induction ts as [|u ts IH]; intros [|i] E Hf; simplify_eq/=.
  - by rewrite Hf, app_assoc.
  - rewrite (IH i E Hf), !app_assoc. by rewrite (Permutation_app_comm x).
Qed.

Lemma sum_insert (f : B → nat) ts i t t' :
  ts !! i = Some t →
  (sum_list_with f (<[i := t']> ts) + f t = sum_list_with f ts + f t')%nat.
Proof.
  revert i. induction ts as [|u ts IH]; intros [|i] E; simplify_eq/=; [lia|].
  specialize (IH i E). lia.
Qed.

Lemma sum_le (f g : B → nat) ts :
  (∀ t, f t ≤ g t)%nat → (sum_list_with f ts ≤ sum_list_with g ts)%nat.
Proof. intros Hf. induction ts as [|t ts IH]; cbn; [lia|]. specialize (Hf t). lia. Qed.

Lemma sum_map (f : B → nat) (g : B → B) ts :
  (∀ t, f (g t) = f t) → ∀ j, sum_list_with f (alter g j ts) = sum_list_with f ts.
Proof.
  intros Hf. induction ts as [|t ts IH]; intros [|j]; cbn; try done; by rewrite ?Hf, ?IH.
Qed.

Lemma map_alter_same (f : B → list A) (g : B → B) ts :
  (∀ t, f (g t) = f t) → ∀ j, map f (alter g j ts) = map f ts.
Proof.
  intros Hf. induction ts as [|t ts IH]; intros [|j]; cbn; try done; by rewrite ?Hf, ?IH.
Qed.

Lemma forallb_alter (f : B → bool) (g : B → B) ts :
  (∀ t, f (g t) = f t) → ∀ j, forallb f (alter g j ts) = forallb f ts.
Proof.
  intros Hf. induction ts as [|t ts IH]; intros [|j]; cbn; try done; by rewrite ?Hf, ?IH.
Qed.

Lemma forallb_insert (f : B → bool) ts i t :
  forallb f ts = true → f t = true → forallb f (<[i := t]> ts) = true.
Proof.
  intros Hts Ht. apply forallb_forall. intros x Hx%list_elem_of_In.
  apply list_elem_of_lookup in Hx as [j Hj].
  destruct (decide (i = j)) as [->|Hne].
  - apply list_lookup_insert_Some in Hj as [(_ & <- & _)|[? _]]; done.
  - rewrite list_lookup_insert_ne in Hj by done. eapply (proj1 (forallb_forall _ _) Hts).
    apply list_elem_of_In, list_elem_of_lookup. eauto.
Qed.

Lemma forallb_lookup (f : B → bool) ts i t :
  forallb f ts = true → ts !! i = Some t → f t = true.
Proof.
  intros Hts Ht. eapply (proj1 (forallb_forall _ _) Hts).
  apply list_elem_of_In, list_elem_of_lookup. eauto.
Qed.
End Lists.

Section Facts.
Context {A : Type} {cmp : A → A → Z} `{HP : PriorityQueue A} `{!PriorityQueueLaws cmp HP}.
Implicit Types (s : BlockedPriorityQueue A) (t : thread A) (q : pq).
#[local] Arguments ordinary : simpl never.

Lemma signal_same {B} (f : thread A → list B) pick ts :
  (∀ t, f (received t) = f t) → map f (signal pick ts) = map f ts.
Proof. intros Hf. unfold signal. destruct (receivers ts); [done|]. by apply map_alter_same. Qed.

Lemma signal_sum (f : thread A → nat) pick ts :
  (∀ t, f (received t) = f t) → sum_list_with f (signal pick ts) = sum_list_with f ts.
Proof. intros Hf. unfold signal. destruct (receivers ts); [done|]. by apply sum_map. Qed.

Lemma signal_forallb (f : thread A → bool) pick ts :
  (∀ t, f (received t) = f t) → forallb f (signal pick ts) = forallb f ts.
Proof. intros Hf. unfold signal. destruct (receivers ts); [done|]. by apply forallb_alter. Qed.

Lemma received_facts t :
  put_of (received t) = put_of t ∧ got_of (received t) = got_of t ∧
  (∀ u, putting u (received t) = putting u t ∧ share u (received t) = share u t ∧
        exempt_puts u (received t) = exempt_puts u t).
Proof. by destruct t as [[] ? ?]. Qed.

Lemma max_list_snoc {B} (f : B → nat) l x :
  max_list_with f (l ++ [x]) = Nat.max (max_list_with f l) (f x).
Proof. induction l as [|y l IH]; cbn; [lia|]. rewrite IH. lia. Qed.

Lemma ordinary_nil u : ordinary u ([] : list A) = 0%nat.
Proof. done. Qed.

Lemma ordinary_perm u (l k : list A) : l ≡ₚ k → ordinary u l = ordinary u k.
Proof. intros Hp. unfold ordinary. by rewrite Hp. Qed.

Lemma ordinary_app u (l k : list A) : ordinary u (l ++ k) = (ordinary u l + ordinary u k)%nat.
Proof. unfold ordinary. by rewrite list.filter_app, length_app. Qed.

Lemma ordinary_exempt u (l : list A) : forallb u l = true → ordinary u l = 0%nat.
Proof.
  unfold ordinary. induction l as [|x l IH]; [done|]. cbn [forallb].
  intros [Hx Hl]%andb_true_iff. rewrite list.filter_cons_False; [by apply IH|congruence].
Qed.

Lemma ordinary_le u (l : list A) : Z.of_nat (ordinary u l) ≤ zlen l.
Proof.
  unfold ordinary, zlen. pose proof (length_filter (λ x, u x = false) l). lia.
Qed.

Lemma putting_share u t : (putting u t ≤ share u t)%nat.
Proof. destruct t as [[] ? ?]; unfold putting, share; cbn [t_pc pc_items]; lia. Qed.

(** ** What one step does *)

Lemma advance_live h q t t' q' sig :
  pq_Disposed q = false → pq_dups q = true → advance h q t = Some (t', q', sig) →
  pq_Disposed q' = true ∨
  (pq_dups q' = true ∧ ∃ x y, put_of t' ≡ₚ x ++ put_of t ∧ got_of t' ≡ₚ y ++ got_of t ∧
     x ++ pq_items q ≡ₚ y ++ pq_items q').
Proof.
  intros Hd Hu. destruct t as [p todo log]. unfold advance, put_of, got_of.
  destruct p; cbn [t_pc t_todo t_log].
  all: try done; try (intros [= <- <- <-]; right; split; [done|]; exists [], []; done).
  - destruct todo as [|c cs]; [done|]. intros [= <- <- <-]. right. split; [done|].
    exists [], []. by destruct c.
  - destruct (Put_live (cmp := cmp) items q Hd Hu) as (q1 & -> & Hp & ? & ?).
    intros [= <- <- <-]. right. split; [done|]. exists items, [].
    cbn [t_log t_pc]. rewrite !map_app, !concat_app. cbn. rewrite !app_nil_r.
    split; [apply Permutation_app_comm|done].
  - intros [= <- <- <-]. right. split; [done|]. exists [], [].
    cbn [t_log t_pc]. by destruct (_ >=? _).
  - intros [= <- <- <-]. right. split; [done|]. exists [], [].
    cbn [t_log t_pc]. by destruct (_ <? _).
  - destruct (decide (pq_items q = [])) as [E|E].
    { by rewrite (Get_empty (cmp := cmp) 0 q Hd E). }
    destruct (Get_one (cmp := cmp) q Hd E) as (x & q1 & -> & Hp & _ & Hu' & _).
    intros [= <- <- <-]. right. split; [by rewrite Hu'|]. exists [], [x].
    cbn [t_log t_pc]. rewrite app_nil_r. split; [done|]. split; [by rewrite Permutation_app_comm|done].
  - intros [= <- <- <-]. right. split; [done|]. exists [], [].
    cbn [t_log t_pc]. rewrite !map_app, !concat_app. cbn. by rewrite !app_nil_r.
  - intros [= <- <- <-]. left. apply (Dispose_items (cmp := cmp)).
  - intros [= <- <- <-]. right. split; [done|]. exists [], [].
    cbn [t_log t_pc]. rewrite !map_app, !concat_app. cbn. by rewrite !app_nil_r.
Qed.

Lemma advance_disposed h q t t' q' sig :
  pq_Disposed q = true → advance h q t = Some (t', q', sig) → pq_Disposed q' = true.
Proof.
  intros Hd. destruct t as [p todo log]. unfold advance. destruct p; cbn [t_pc t_todo t_log].
  all: try done; try (by intros [= _ <- _]).
  - destruct todo; [done|]. by intros [= _ <- _].
  - rewrite (Put_disposed (cmp := cmp) items q Hd). by intros [= _ <- _].
  - rewrite (Get_disposed (cmp := cmp) 0 q Hd). by intros [= _ <- _].
  - intros [= _ <- _]. apply (Dispose_items (cmp := cmp)).
Qed.

(** Everything put is in the queue or handed out, until [Dispose]. *)
Definition accounted s : Prop :=
  pq_Disposed (queue s) = true ∨
  (pq_Disposed (queue s) = false ∧ pq_dups (queue s) = true ∧
   all_put s ≡ₚ all_got s ++ pq_items (queue s)).

Lemma accounted_step i pick s s' : accounted s → step i pick s = Some s' → accounted s'.
Proof.
  unfold step. intros Hacc Hs.
  destruct (threads s !! i) as [t|] eqn:Ei; [|done]. cbn in Hs.
  destruct (advance (hint s) (queue s) t) as [[[t' q'] sig]|] eqn:Ea; [|done].
  cbn in Hs. injection Hs as <-.
  assert (∀ (f : thread A → list A), (∀ t, f (received t) = f t) →
    map f (if sig then signal pick (<[i := t']> (threads s)) else <[i := t']> (threads s)) =
    map f (<[i := t']> (threads s))) as Hsig.
  { intros f Hf. destruct sig; [by apply signal_same|done]. }
  destruct Hacc as [Hd|(Hd & Hu & Hp)].
  { left. cbn. by eapply advance_disposed. }
  destruct (pq_Disposed q') eqn:Ed; [by left|]. right. cbn [queue].
  destruct (advance_live _ _ _ _ _ _ Hd Hu Ea) as [Hd'|(Hu' & x & y & Hx & Hy & Hq)]; [congruence|].
  split; [done|]. split; [done|]. unfold all_put, all_got in *. cbn [threads].
  rewrite !Hsig by (intros; apply received_facts).
  rewrite (concat_map_insert put_of _ _ _ _ _ Ei Hx), (concat_map_insert got_of _ _ _ _ _ Ei Hy).
  rewrite Hp, (Permutation_app_comm x), <- app_assoc, (Permutation_app_comm (pq_items _) x), Hq.
  rewrite (Permutation_app_comm y (pq_items q')), app_assoc.
  by rewrite (Permutation_app_comm _ y), app_assoc.
Qed.

(** ** The bound *)

Definition total (f : thread A → nat) s : nat := sum_list_with f (threads s).

(** Senders that have passed the check count as if they had put. *)
Definition within (u : A → bool) s : Prop :=
  forallb (exempt_puts u) (threads s) = true ∧
  (pq_Disposed (queue s) = true ∨
   (pq_Disposed (queue s) = false ∧ pq_dups (queue s) = true ∧
    Z.of_nat (ordinary u (pq_items (queue s))) + Z.of_nat (total (putting u) s) ≤
      hint s - 1 + Z.of_nat (total (share u) s))).

Lemma advance_share h q t t' q' sig u :
  exempt_puts u t = true → advance h q t = Some (t', q', sig) →
  exempt_puts u t' = true ∧ share u t' = share u t.
Proof.
  destruct t as [p todo log]. unfold exempt_puts, advance, share. intros Hb.
  destruct p; cbn [t_pc t_todo t_log] in *.
  all: try done; try (intros [= <- <- <-]; cbn [t_pc t_todo t_log pc_items];
    rewrite ?max_list_snoc; cbn; rewrite ?ordinary_nil; split; [done|]; lia).
  - destruct todo as [|c cs]; [done|]. intros [= <- <- <-]. cbn in *.
    apply andb_true_iff in Hb as [Hc Hcs]. split; [done|]. destruct c; cbn; rewrite ?ordinary_nil; lia.
  - destruct (pq_Put items q) as [ok q1]. intros [= <- <- <-].
    cbn [t_pc t_todo t_log pc_items]. rewrite max_list_snoc. cbn. rewrite ?ordinary_nil. split; [done|]. lia.
  - intros [= <- <- <-]. cbn [t_pc t_todo t_log]. split; [done|]. by destruct (_ >=? _).
  - intros [= <- <- <-]. cbn [t_pc t_todo t_log]. split; [done|]. by destruct (_ <? _).
  - destruct (pq_Get 1 q) as [l q1| |]; [| |done]; intros [= <- <- <-];
      cbn [t_pc t_todo t_log pc_items]; rewrite ?max_list_snoc; cbn; rewrite ?ordinary_nil; (split; [done|]); lia.
Qed.

Lemma advance_bound h q t t' q' sig u :
  exempt_puts u t = true → advance h q t = Some (t', q', sig) →
  pq_Disposed q = false → pq_dups q = true →
  (ordinary u (pq_items q') + putting u t' ≤ ordinary u (pq_items q) + putting u t)%nat ∨
  zlen (pq_items q') ≤ h - 1.
Proof.
  destruct t as [p todo log]. unfold exempt_puts, advance, putting. intros Hb Ha Hd Hu.
  destruct p; cbn [t_pc t_todo t_log] in *.
  all: try done; try (injection Ha as <- <- <-; left; cbn; lia).
  - destruct todo as [|c cs]; [done|]. injection Ha as <- <- <-. cbn in *.
    apply andb_true_iff in Hb as [Hc _]. left. destruct c; cbn in *; try lia.
    rewrite (ordinary_exempt u items Hc). lia.
  - destruct (Put_live (cmp := cmp) items q Hd Hu) as (q2 & E2 & Hp & _).
    rewrite E2 in Ha. injection Ha as <- <- <-. left. cbn [t_pc].
    rewrite (ordinary_perm u _ _ Hp), ordinary_app. lia.
  - injection Ha as <- <- <-. left. destruct (_ >=? _); cbn; lia.
  - injection Ha as <- <- <-. destruct (_ <? _) eqn:E; [right|left; cbn; lia].
    zbool. rewrite (Len_items (cmp := cmp)) in E. lia.
  - left. destruct (decide (pq_items q = [])) as [E|E].
    { by rewrite (Get_empty (cmp := cmp) 0 q Hd E) in Ha. }
    destruct (Get_one (cmp := cmp) q Hd E) as (x & q2 & E2 & Hp & _).
    rewrite E2 in Ha. injection Ha as <- <- <-. cbn [t_pc].
    pose proof (ordinary_app u [x] (pq_items q2)) as Ho. cbn [app] in Ho.
    rewrite (ordinary_perm u _ _ Hp), Ho. lia.
  - injection Ha as <- <- <-. left. cbn [t_pc].
    rewrite (proj1 (Dispose_items (cmp := cmp) q)). rewrite ordinary_nil. lia.
Qed.

(** What a step does to a sum over the goroutines that a signal leaves alone. *)
Lemma step_total (f : thread A → nat) i pick s s' :
  (∀ t, f (received t) = f t) → step i pick s = Some s' →
  ∃ t t' q' sig, threads s !! i = Some t ∧ advance (hint s) (queue s) t = Some (t', q', sig) ∧
    queue s' = q' ∧ hint s' = hint s ∧ (total f s' + f t = total f s + f t')%nat.
Proof.
  intros Hf. unfold step. intros Hs.
  destruct (threads s !! i) as [t|] eqn:Ei; [|done]. cbn in Hs.
  destruct (advance (hint s) (queue s) t) as [[[t' q'] sig]|] eqn:Ea; [|done].
  cbn in Hs. injection Hs as <-. exists t, t', q', sig. do 4 (split; [done|]).
  unfold total. cbn [threads]. pose proof (sum_insert f _ _ _ t' Ei).
  destruct sig; [rewrite signal_sum by done|]; lia.
Qed.

Lemma exempt_step u i pick s s' :
  forallb (exempt_puts u) (threads s) = true → step i pick s = Some s' →
  forallb (exempt_puts u) (threads s') = true ∧ total (share u) s' = total (share u) s.
Proof.
  intros Hb Hs.
  destruct (step_total (share u) i pick s s') as (t & t' & q' & sig & Ei & Ea & _ & _ & Ht);
    [intros; apply received_facts|done|].
  destruct (advance_share _ _ _ _ _ _ u (forallb_lookup _ _ _ _ Hb Ei) Ea) as (Hb' & Hsh).
  split; [|lia]. revert Hs. unfold step. rewrite Ei. cbn. rewrite Ea. cbn. intros [= <-]. cbn [threads].
  assert (forallb (exempt_puts u) (<[i := t']> (threads s)) = true) by (by apply forallb_insert).
  destruct sig; [rewrite signal_forallb; [done|intros; apply received_facts]|done].
Qed.

Lemma within_step u i pick s s' : within u s → step i pick s = Some s' → within u s'.
Proof.
  intros [Hb Hw] Hs. destruct (exempt_step _ _ _ _ _ Hb Hs) as [Hb' Hsh]. split; [done|].
  destruct (step_total (putting u) i pick s s') as (t & t' & q' & sig & Ei & Ea & Eq & Eh & Ht);
    [intros; apply received_facts|done|]. rewrite Eq, Eh, Hsh.
  destruct Hw as [Hd|(Hd & Hu & Hw)]; [left; by eapply advance_disposed|].
  destruct (pq_Disposed q') eqn:Ed; [by left|]. right. split; [done|].
  destruct (advance_live _ _ _ _ _ _ Hd Hu Ea) as [?|(Hu' & _)]; [congruence|]. split; [done|].
  pose proof (sum_le (putting u) (share u) (threads s') (putting_share u)).
  pose proof (ordinary_le u (pq_items q')). unfold total in *.
  destruct (advance_bound _ _ _ _ _ _ u (forallb_lookup _ _ _ _ Hb Ei) Ea Hd Hu); lia.
Qed.

Lemma run_invariant (P : BlockedPriorityQueue A → Prop) sched s :
  (∀ i pick s s', P s → step i pick s = Some s' → P s') → P s → P (run sched s).
Proof.
  intros Hstep. revert s. induction sched as [|[i pick] sched IH]; intros s Hs; [done|].
  cbn. apply IH. destruct (step i pick s) as [s'|] eqn:E; [by eapply Hstep|done].
Qed.

Lemma hint_step i pick s s' : step i pick s = Some s' → hint s' = hint s.
Proof.
  unfold step. destruct (threads s !! i); [|done]. cbn.
  destruct (advance _ _ _) as [[[? ?] ?]|]; [|done]. by intros [= <-].
Qed.

(** A queue as a goroutine finds it before any call. *)
Definition fresh (t : thread A) : bool :=
  match t_pc t, t_log t with Idle, [] => true | _, _ => false end.

Lemma fresh_facts ts :
  forallb fresh ts = true →
  concat (map put_of ts) = [] ∧ concat (map got_of ts) = [] ∧
  ∀ u, sum_list_with (putting u) ts = 0%nat.
Proof.
  induction ts as [|[p todo log] ts IH]; [done|]. cbn. unfold fresh at 1. cbn.
  destruct p; try done. destruct log; [|done]. cbn. intros Hf.
  destruct (IH Hf) as (-> & -> & Hp). done.
Qed.

(** C20: In every interleaving of goroutines that put, get and block on a queue
    that has not been disposed of, every item that a successful [Put] or
    [BlockPut] put in is in the queue or was handed out by [Get], exactly as
    often as it was put. *)
Theorem queue_keeps_items h ts sched :
  forallb fresh ts = true →
  let s := run sched (NewBlockedPriorityQueue h true ts) in
  pq_Disposed (queue s) = false → all_put s ≡ₚ all_got s ++ pq_items (queue s).
Proof.
  intros Hf s Hd. assert (accounted s) as [Hd'|(_ & _ & Hp)]; [|congruence|done].
  apply run_invariant; [by intros; eapply accounted_step|]. right.
  destruct (New_items (cmp := cmp) h true) as (Hi & Hu & Hd0).
  destruct (fresh_facts ts Hf) as (Hp & Hg & _).
  unfold all_put, all_got. cbn. rewrite Hp, Hg, Hi. done.
Qed.

(** C34: The bound holds for every item that is not put with [Put].  Whatever
    [Put], [BlockPut], [Get] and [Dispose] calls the goroutines make, in every
    interleaving: where [Put], which omits the length check, is called with
    exempt items only, at most the bound minus one plus, for each goroutine,
    the largest number of ordinary items in one of its calls are in the queue.
    With one sender of single packets that is the bound itself.  The exempt
    items, control packets in the client, have no bound ([Put_unbounded]). *)
Theorem queue_bounded (exempt : A → bool) h ts sched :
  0 < h → forallb fresh ts = true → forallb (exempt_puts exempt) ts = true →
  let s0 := NewBlockedPriorityQueue h true ts in
  let s := run sched s0 in
  pq_Disposed (queue s) = false →
  Z.of_nat (ordinary exempt (pq_items (queue s))) ≤
    h - 1 + Z.of_nat (total (share exempt) s0).
Proof.
  intros Hh Hf Hb s0 s Hd.
  assert (within exempt s ∧ hint s = h ∧ total (share exempt) s = total (share exempt) s0)
    as ([_ Hw] & Hhint & Hsend).
  { apply (run_invariant
      (λ s, within exempt s ∧ hint s = h ∧ total (share exempt) s = total (share exempt) s0)).
    { intros i pick x x' (Hw & Hx & Ht) Hs. split; [by eapply within_step|].
      rewrite (hint_step _ _ _ _ Hs). split; [done|].
      rewrite (proj2 (exempt_step _ _ _ _ _ (proj1 Hw) Hs)). done. }
    split; [|done]. split; [done|]. right.
    destruct (New_items (cmp := cmp) h true) as (Hi & Hu & Hd0).
    destruct (fresh_facts ts Hf) as (_ & _ & Hp). unfold total in *. cbn in *.
    rewrite Hp, Hi, ordinary_nil. split; [done|]. split; [done|]. lia. }
  destruct Hw as [?|(_ & _ & Hw)]; [congruence|]. rewrite Hhint, Hsend in Hw. lia.
Qed.

(** One goroutine that calls [Put] [n] times leaves [n] items, whatever the
    bound. *)
Lemma Put_unbounded h x n :
  let s := run (replicate (2 * n) (0%nat, 0%nat))
             (NewBlockedPriorityQueue h true [mkThread Idle (replicate n (CPut [x])) []]) in
  pq_Disposed (queue s) = false ∧ zlen (pq_items (queue s)) = Z.of_nat n.
Proof.
  destruct (New_items (cmp := cmp) h true) as (Hi & Hu & Hd). unfold NewBlockedPriorityQueue.
  assert (∀ q k log, pq_Disposed q = false → pq_dups q = true → zlen (pq_items q) = Z.of_nat k →
    let s := run (replicate (2 * n) (0%nat, 0%nat)) (mkBPQ q h [mkThread Idle (replicate n (CPut [x])) log]) in
    pq_Disposed (queue s) = false ∧ zlen (pq_items (queue s)) = Z.of_nat (k + n)) as Hgen.
  { induction n as [|n IH]; intros q k log Hq Hqu Hk.
    { cbn. by rewrite Nat.add_0_r. }
    replace (2 * S n)%nat with (S (S (2 * n)))%nat by lia. cbn [replicate]. cbn.
    destruct (Put_live (cmp := cmp) [x] q Hq Hqu) as (q' & E & Hp & Hqu' & Hq'). rewrite E. cbn.
    replace (k + S n)%nat with (S k + n)%nat by lia. apply (IH q' (S k)); [done..|].
    unfold zlen in *. rewrite Hp. cbn. lia. }
  by apply (Hgen (pq_New h true) 0%nat []); [..|rewrite Hi].
Qed.

End Facts.

(** ** The packets of the client ([sendItem] of mintox/tcp_client.go) *)

Record sendItem := mkItem { Value : bytes; Prior : Z }.

#[export] Instance sendItem_eq_dec : EqDecision sendItem.
Proof. solve_decision. Defined.

(** [Compare] *)
Definition Compare (this item : sendItem) : Z :=
  if Prior this =? Prior item then 0
  else if Prior this >? Prior item then 1 else -1.

Lemma Compare_le x y : Compare x y ≤ 0 ↔ Prior x ≤ Prior y.
Proof.
  unfold Compare. destruct (_ =? _) eqn:E; zbool; [lia|].
  destruct (_ >? _) eqn:E2; zbool; lia.
Qed.

(** ** A concrete priority queue: the first of the most urgent items leaves *)

Module ListQueue.

Record lq := mkLq { lq_items : list sendItem; lq_dups : bool; lq_disposed : bool }.

Fixpoint urgent (x : sendItem) (l : list sendItem) : sendItem * list sendItem :=
  match l with
  | [] => (x, [])
  | y :: k =>
      if Prior y <? Prior x then let '(z, r) := urgent y k in (z, x :: r)
      else let '(z, r) := urgent x k in (z, y :: r)
  end.

Fixpoint extract (n : nat) (l : list sendItem) : list sendItem * list sendItem :=
  match n, l with
  | S n, x :: k =>
      let '(y, r) := urgent x k in let '(ys, r') := extract n r in (y :: ys, r')
  | _, _ => ([], l)
  end.

Definition add (dups : bool) (l : list sendItem) (x : sendItem) : list sendItem :=
  if dups || forallb (λ y, negb (Compare x y =? 0)) l then l ++ [x] else l.

#[export] Instance list_queue : PriorityQueue sendItem := {|
  pq := lq;
  pq_New _ d := mkLq [] d false;
  pq_Put xs q :=
    if lq_disposed q then (false, q)
    else (true, mkLq (foldl (add (lq_dups q)) (lq_items q) xs) (lq_dups q) false);
  pq_Get n q :=
    if lq_disposed q then GetDisposed
    else match lq_items q with
         | [] => GetBlocks
         | l => let '(ys, r) := extract n l in Items ys (mkLq r (lq_dups q) false)
         end;
  pq_Len q := zlen (lq_items q);
  pq_Peek q := match lq_items q with [] => None | x :: k => Some (urgent x k).1 end;
  pq_Dispose q := mkLq [] (lq_dups q) true;
  pq_Disposed := lq_disposed
|}.

Lemma urgent_spec x l :
  let '(y, r) := urgent x l in x :: l ≡ₚ y :: r ∧ Forall (λ z, Prior y ≤ Prior z) (x :: l).
Proof.
  revert x. induction l as [|y l IH]; intros x; cbn [urgent].
  { split; [done|]. repeat constructor; lia. }
  destruct (Prior y <? Prior x) eqn:E; zbool.
  - specialize (IH y). destruct (urgent y l) as [z r]. destruct IH as [Hp Hf].
    split; [rewrite Hp; apply perm_swap|]. constructor; [|done].
    inversion Hf; subst. lia.
  - specialize (IH x). destruct (urgent x l) as [z r]. destruct IH as [Hp Hf].
    split; [by rewrite (perm_swap y x), Hp, perm_swap|].
    inversion Hf; subst. do 2 (constructor; [lia|]). done.
Qed.

Lemma foldl_add_perm xs l : foldl (add true) l xs ≡ₚ xs ++ l.
Proof.
  revert l. induction xs as [|x xs IH]; intros l; [done|]. cbn. rewrite IH.
  rewrite (Permutation_app_comm l [x]). apply Permutation_sym, Permutation_middle.
Qed.

#[export] Instance list_queue_laws : PriorityQueueLaws Compare list_queue.
Proof.
  refine {| pq_items := (lq_items : @pq _ list_queue → list sendItem);
            pq_dups := (lq_dups : @pq _ list_queue → bool) |}; cbn.
  - done.
  - done.
  - intros l [i [] []] Hd Hu; try done. cbn. eexists. split; [done|].
    split; [apply foldl_add_perm|done].
  - intros l [i d []]; done.
  - intros n [i d []]; cbn; [done|]. by intros _ ->.
  - intros [[|x l] d []]; cbn; try done. intros _ _.
    pose proof (urgent_spec x l) as Hu. destruct (urgent x l) as [y r]. destruct Hu as [Hp Hf].
    eexists y, _. split; [done|]. split; [done|]. split; [|done].
    eapply Forall_impl; [|exact Hf]. intros z Hz. by apply Compare_le.
  - intros n [i d []]; done.
  - done.
Defined.

(** A goroutine at the beginning of its calls *)
Definition caller (cs : list (qcall sendItem)) : thread sendItem := mkThread Idle cs [].

Definition pkt (n : Z) : sendItem := mkItem (be_bytes 2 n) 2.

(** [n] steps of goroutine [i]. *)
Definition steps (i n : nat) : list (nat * nat) := replicate n (i, 0%nat).

End ListQueue.
Import ListQueue.

Lemma queue_keeps_items_witness :
  let s := run (steps 0 8 ++ steps 1 2 ++ steps 0 3 ++ steps 1 4)
             (NewBlockedPriorityQueue 32 true
                [caller [CBlockPut [pkt 1]; CPut [pkt 2]; CBlockPut [pkt 3]]; caller [CGet; CGet]]) in
  all_got s = [pkt 1; pkt 2] ∧ all_put s ≡ₚ all_got s ++ pq_items (queue s).
Proof.
  split; [vm_compute; reflexivity|].
  apply queue_keeps_items; vm_compute; reflexivity.
Defined.

(** Two senders of ordinary packets that both pass the check, and a sender of
    control packets that passes none: four packets in a queue with bound 1, of
    which two are ordinary. *)
Lemma queue_bounded_witness :
  let control it := Prior it =? 0 in
  let s0 := NewBlockedPriorityQueue 1 true
              [caller [CBlockPut [pkt 1]]; caller [CBlockPut [pkt 2]];
               caller [CPut [mkItem [] 0]; CPut [mkItem [] 0]]] in
  let s := run (steps 0 3 ++ steps 1 3 ++ steps 0 1 ++ steps 1 1 ++ steps 2 4) s0 in
  zlen (pq_items (queue s)) = 4 ∧ ordinary control (pq_items (queue s)) = 2%nat ∧
  Z.of_nat (ordinary control (pq_items (queue s))) ≤ 1 - 1 + Z.of_nat (total (share control) s0).
Proof.
  split; [vm_compute; reflexivity|]. split; [vm_compute; reflexivity|].
  apply queue_bounded; [lia|vm_compute; reflexivity..].
Defined.

(** ** Order *)

(** The packet that [Get] hands out is at least as urgent as every packet that
    was in the queue. *)
Lemma get_most_urgent `{HP : PriorityQueue sendItem} `{!PriorityQueueLaws Compare HP} h q todo log :
  pq_Disposed q = false → pq_items q ≠ [] →
  ∃ x q', advance h q (mkThread Getting todo log) =
      Some (mkThread (GetSignal [x]) todo log, q', false) ∧
    x ∈ pq_items q ∧ Forall (λ y, Prior x ≤ Prior y) (pq_items q) ∧
    pq_items q ≡ₚ x :: pq_items q'.
Proof.
  intros Hd Hn. destruct (Get_one (cmp := Compare) q Hd Hn) as (x & q' & E & Hp & Hf & _).
  exists x, q'. unfold advance. cbn. rewrite E. split; [done|].
  split; [rewrite Hp; apply list_elem_of_here|]. split; [|done].
  eapply Forall_impl; [|exact Hf]. intros y. apply Compare_le.
Qed.

(** ** Lost wake-ups *)

(** A sender finds the queue full; before it waits on the channel the writer
    takes everything out, and each of its signals finds nobody.  Then the
    sender waits for ever although the queue is empty, and the writer waits for
    a packet. *)
Lemma lost_wakeup :
  ∃ sched,
    let s := run sched (NewBlockedPriorityQueue 32 true
               [caller (replicate 33 (CBlockPut [pkt 0])); caller (replicate 33 CGet)]) in
    stuck s = true ∧ pq_items (queue s) = [] ∧ receivers (threads s) = [0%nat] ∧
    length (all_got s) = 32%nat.
Proof.
  exists (steps 0 130 ++ steps 1 96 ++ steps 0 1 ++ steps 1 1).
  vm_compute. repeat split; reflexivity.
Qed.

(** [Dispose] signals once: of two senders that wait, one waits for ever. *)
Lemma dispose_wakes_one :
  ∃ sched,
    let s := run sched (NewBlockedPriorityQueue 1 true
               [caller [CBlockPut [pkt 0]]; caller [CBlockPut [pkt 1]]; caller [CBlockPut [pkt 2]];
                caller [CDispose]]) in
    stuck s = true ∧ pq_Disposed (queue s) = true ∧ receivers (threads s) = [2%nat].
Proof.
  exists (steps 0 4 ++ steps 1 3 ++ steps 2 3 ++ steps 3 3 ++ steps 1 4).
  vm_compute. repeat split; reflexivity.
Qed.
