(* ===== verification/PeekRing.v ===== *)
(** * The read buffer of the relay client ([PeekableRing] of mintox/tcp_client.go)

    A memory buffer read through a [bufio.Reader], so that the client can look
    at the length of a packet before it takes the packet out.  The memory
    buffer is third-party code, an interface with laws; [bufio] is modelled
    here.  The lemmas give [Peek] and [Read] as functions of the bytes that are
    buffered in either place. *)

From S2P Require Import Prelude GoIO.
Local Open Scope Z_scope.

(** ** The memory buffer *)

Class MemBuffer := {
  membuf : Type;
  mem_New : Z → membuf;                                     (* buffer.New(n) *)
  mem_Len : membuf → Z;
  mem_Cap : membuf → Z;
  mem_Write : bytes → membuf → Z * membuf;                  (* the count *)
  mem_Read : nat → membuf → bytes * option io_err * membuf  (* into that much room *)
}.

(** A read of an empty buffer is at the end of the file; other reads give as
    much as there is and as there is room for. *)
Class MemBufferLaws (M : MemBuffer) := {
  mem_contents : membuf → bytes;
  mem_New_contents n : mem_contents (mem_New n) = [] ∧ mem_Cap (mem_New n) = n;
  mem_Len_contents m : mem_Len m = zlen (mem_contents m);
  mem_Write_fits b m : zlen (mem_contents m) + zlen b ≤ mem_Cap m →
    ∃ m', mem_Write b m = (zlen b, m') ∧ mem_contents m' = mem_contents m ++ b ∧
      mem_Cap m' = mem_Cap m;
  mem_Read_some n m : mem_contents m ≠ [] →
    ∃ m', mem_Read (S n) m = (take (S n) (mem_contents m), None, m') ∧
      mem_contents m' = drop (S n) (mem_contents m) ∧ mem_Cap m' = mem_Cap m;
  mem_Read_empty n m : mem_contents m = [] → mem_Read (S n) m = ([], Some EOF, m)
}.

(** ** [bufio.Reader] over it *)

Inductive peek_err : Type := PeekEOF | ErrBufferFull | PeekOther (e : io_err).

Section Defs.
Context `{MemBuffer}.

(** [rd_buf] is [b.buf[b.r:b.w]]; [fill] moves it to the front, so only its
    length matters. *)
Record PeekableRing := mkRing {
  rd_buf : bytes;
  rd_err : option io_err;
  buf_ : membuf
}.

Definition defaultBufSize : nat := 4096.
Definition maxConsecutiveEmptyReads : nat := 100.
Definition ErrNoProgress : io_err := ErrOther 1.

(** [bufio.NewReader] of a [bufio.Reader] of that size is the same reader. *)
Definition NewPeekableRing : PeekableRing := mkRing [] None (mem_New (1024 * 1024)).

Definition ring_write (p : bytes) (b : PeekableRing) : Z * PeekableRing :=
  let '(n, m) := mem_Write p (buf_ b) in (n, mkRing (rd_buf b) (rd_err b) m).

Definition ring_len (b : PeekableRing) : Z := zlen (rd_buf b) + mem_Len (buf_ b).
Definition ring_cap (b : PeekableRing) : Z := Z.of_nat defaultBufSize + mem_Cap (buf_ b).

(** [readErr] returns the error and clears it. *)
Definition readErr (b : PeekableRing) : option io_err * PeekableRing :=
  (rd_err b, mkRing (rd_buf b) None (buf_ b)).

Fixpoint fill_loop (i : nat) (b : PeekableRing) : PeekableRing :=
  match i with
  | O => mkRing (rd_buf b) (Some ErrNoProgress) (buf_ b)
  | S i =>
      let '(p, err, m) := mem_Read (defaultBufSize - length (rd_buf b)) (buf_ b) in
      let b' := mkRing (rd_buf b ++ p) err m in
      match err with
      | Some _ => b'
      | None => if bool_decide (p ≠ []) then b' else fill_loop i b'
      end
  end.

Definition fill : PeekableRing → PeekableRing := fill_loop maxConsecutiveEmptyReads.

(** The loop of [Peek]: a turn adds a byte or sets the error. *)
Fixpoint peek_loop (fuel n : nat) (b : PeekableRing) : PeekableRing :=
  match fuel with
  | O => b
  | S fuel =>
      if bool_decide (length (rd_buf b) < n)%nat && bool_decide (length (rd_buf b) < defaultBufSize)%nat
         && bool_decide (rd_err b = None)
      then peek_loop fuel n (fill b) else b
  end.

Definition to_peek_err (e : option io_err) : peek_err :=
  match e with None => ErrBufferFull | Some EOF => PeekEOF | Some e => PeekOther e end.

Definition Peek (n : nat) (b : PeekableRing) : (peek_err + bytes) * PeekableRing :=
  let b1 := peek_loop (S (S defaultBufSize)) n b in
  if bool_decide (defaultBufSize < n)%nat then (inl ErrBufferFull, b1)
  else if bool_decide (length (rd_buf b1) < n)%nat then
    let '(err, b2) := readErr b1 in (inl (to_peek_err err), b2)
  else (inr (take n (rd_buf b1)), b1).

(** [Read] into a buffer of length [k] *)
Definition ring_read (k : nat) (b : PeekableRing) : bytes * option io_err * PeekableRing :=
  let copy b := (take k (rd_buf b), None, mkRing (drop k (rd_buf b)) (rd_err b) (buf_ b)) in
  if bool_decide (k = O) then
    if bool_decide (rd_buf b ≠ []) then ([], None, b)
    else let '(e, b') := readErr b in ([], e, b')
  else if bool_decide (rd_buf b = []) then
    match rd_err b with
    | Some _ => let '(e, b') := readErr b in ([], e, b')
    | None =>
        if bool_decide (defaultBufSize ≤ k)%nat then
          let '(p, err, m) := mem_Read k (buf_ b) in (p, err, mkRing [] None m)
        else
          let '(p, err, m) := mem_Read defaultBufSize (buf_ b) in
          if bool_decide (p = []) then ([], err, mkRing [] None m)
          else copy (mkRing p err m)
    end
  else copy b.

End Defs.

Arguments PeekableRing {_}.

(** ** The bytes of both places *)

#[local] Opaque defaultBufSize.

Section Facts.
Context `{MemBufferLaws}.
Implicit Types b : PeekableRing.

Definition unread b : bytes := rd_buf b ++ mem_contents (buf_ b).

(** [b'] holds the same bytes as [b]. *)
Record same_bytes b b' : Prop := {
  sb_unread : unread b' = unread b;
  sb_size : (length (rd_buf b') ≤ defaultBufSize)%nat;
  sb_cap : mem_Cap (buf_ b') = mem_Cap (buf_ b)
}.

(** No error is remembered, which is how [Peek] and [Read] leave it. *)
Record ring_ok b : Prop := {
  rk_size : (length (rd_buf b) ≤ defaultBufSize)%nat;
  rk_err : rd_err b = None
}.

Lemma fill_empty b :
  (length (rd_buf b) < defaultBufSize)%nat → mem_contents (buf_ b) = [] →
  fill b = mkRing (rd_buf b) (Some EOF) (buf_ b).
Proof.
  intros Hl Hm. unfold fill, maxConsecutiveEmptyReads. cbn [fill_loop].
  destruct (defaultBufSize - length (rd_buf b))%nat as [|k] eqn:E; [lia|].
  rewrite (mem_Read_empty k _ Hm). by rewrite app_nil_r.
Qed.

Lemma fill_some b :
  (length (rd_buf b) < defaultBufSize)%nat → mem_contents (buf_ b) ≠ [] →
  ∃ b', fill b = b' ∧ rd_err b' = None ∧ same_bytes b b' ∧
    (length (rd_buf b) < length (rd_buf b'))%nat.
Proof.
  intros Hl Hm. unfold fill, maxConsecutiveEmptyReads. cbn [fill_loop].
  destruct (defaultBufSize - length (rd_buf b))%nat as [|k] eqn:E; [lia|].
  destruct (mem_Read_some k _ Hm) as (m' & -> & Hc & Hcap).
  destruct (mem_contents (buf_ b)) as [|x l] eqn:Em; [done|].
  rewrite bool_decide_true by done. eexists. split; [done|]. split; [done|].
  split; [split|]; cbn [rd_buf buf_].
  - unfold unread. cbn [rd_buf buf_]. by rewrite Hc, Em, <- app_assoc, take_drop.
  - rewrite length_app, length_take. lia.
  - done.
  - rewrite length_app, length_take. cbn [length]. lia.
Qed.

Lemma same_bytes_refl b : (length (rd_buf b) ≤ defaultBufSize)%nat → same_bytes b b.
Proof. by split. Qed.

Lemma same_bytes_trans b1 b2 b3 : same_bytes b1 b2 → same_bytes b2 b3 → same_bytes b1 b3.
Proof. intros [? ? ?] [? ? ?]. split; congruence. Qed.

(** The loop of [Peek] ends with enough bytes, a full buffer, or at the end. *)
Lemma peek_loop_spec fuel n b :
  ring_ok b → (defaultBufSize - length (rd_buf b) + 1 < fuel)%nat →
  let b' := peek_loop fuel n b in
  same_bytes b b' ∧
  ((rd_err b' = None ∧ (n ≤ length (rd_buf b') ∨ defaultBufSize ≤ length (rd_buf b'))%nat) ∨
   (rd_err b' = Some EOF ∧ rd_buf b' = unread b ∧ (length (unread b) < n)%nat)).
Proof.
  revert b. induction fuel as [|fuel IH]; intros b [Hs He] Hf; [lia|]. cbn [peek_loop].
  destruct (bool_decide (length (rd_buf b) < n)%nat) eqn:E1; cycle 1.
  { cbn. apply bool_decide_eq_false in E1. split; [by apply same_bytes_refl|]. left. split; [done|lia]. }
  destruct (bool_decide (length (rd_buf b) < defaultBufSize)%nat) eqn:E2; cycle 1.
  { cbn. apply bool_decide_eq_false in E2. split; [by apply same_bytes_refl|]. left. split; [done|lia]. }
  apply bool_decide_eq_true in E1, E2. rewrite He, bool_decide_true by done. cbn [andb].
  destruct (decide (mem_contents (buf_ b) = [])) as [Hm|Hm].
  - rewrite fill_empty by done. destruct fuel as [|fuel]; [lia|]. cbn [peek_loop rd_err].
    rewrite (bool_decide_false (Some EOF = None)) by done. rewrite andb_false_r.
    unfold unread. rewrite Hm, app_nil_r. cbn [rd_buf rd_err]. split; [by split|]. by right.
  - destruct (fill_some b E2 Hm) as (b1 & -> & He1 & Hsb & Hl).
    destruct (IH b1) as [Hsb' Hb'].
    { split; [apply Hsb|done]. }
    { lia. }
    split; [by eapply same_bytes_trans|]. by rewrite (sb_unread _ _ Hsb) in Hb'.
Qed.

(** [Peek] of something that fits: the bytes if they are there, else the end of
    the file; nothing is lost either way. *)
Lemma Peek_spec n b :
  ring_ok b → (n ≤ defaultBufSize)%nat →
  ∃ b', same_bytes b b' ∧ ring_ok b' ∧
    if decide (n ≤ length (unread b))%nat
    then Peek n b = (inr (take n (unread b)), b') ∧ (n ≤ length (rd_buf b'))%nat
    else Peek n b = (inl PeekEOF, b').
Proof.
  intros Hb Hn. destruct (peek_loop_spec (S (S defaultBufSize)) n b Hb) as [Hsb Hc]; [lia|].
  unfold Peek. set (b1 := peek_loop _ _ _) in *.
  rewrite (bool_decide_false (defaultBufSize < n)%nat) by lia.
  destruct Hc as [(He & Hc)|(He & Hrd & Hl)].
  - assert (n ≤ length (rd_buf b1))%nat as Hle by lia.
    exists b1. split; [done|]. split; [split; [apply Hsb|done]|].
    rewrite <- (sb_unread _ _ Hsb). unfold unread. rewrite decide_True by (rewrite length_app; lia).
    rewrite bool_decide_false by lia. by rewrite take_app_le by lia.
  - exists (mkRing (rd_buf b1) None (buf_ b1)). rewrite decide_False by lia.
    rewrite bool_decide_true by (rewrite Hrd; lia). unfold readErr. rewrite He.
    split; [split; apply Hsb|]. split; [split; [apply Hsb|done]|done].
Qed.

(** A request beyond the size of the buffer is refused however much is there. *)
Lemma Peek_too_long n b :
  (length (rd_buf b) ≤ defaultBufSize)%nat → (rd_err b = None ∨ rd_err b = Some EOF) →
  (defaultBufSize < n)%nat →
  ∃ b', Peek n b = (inl ErrBufferFull, b') ∧ same_bytes b b' ∧
    (rd_err b' = None ∨ rd_err b' = Some EOF) ∧ (length (rd_buf b) ≤ length (rd_buf b'))%nat.
Proof.
  intros Hs He Hn. unfold Peek. rewrite bool_decide_true by done. eexists. split; [done|].
  destruct He as [He|He].
  - destruct (peek_loop_spec (S (S defaultBufSize)) n b) as [Hsb Hc]; [by split|lia|].
    split; [done|]. destruct Hc as [[? ?]|(? & -> & _)]; (split; [auto|]).
    + pose proof (sb_size _ _ Hsb). lia.
    + unfold unread. rewrite length_app. lia.
  - cbn [peek_loop]. rewrite He, (bool_decide_false (Some EOF = None)), andb_false_r by done.
    split; [by apply same_bytes_refl|]. split; [by right|done].
Qed.

(** A remembered error does not matter while there are enough bytes. *)
Lemma Peek_buffered n b :
  (0 < n ≤ length (rd_buf b))%nat → (length (rd_buf b) ≤ defaultBufSize)%nat →
  Peek n b = (inr (take n (rd_buf b)), b).
Proof.
  intros Hn Hs. unfold Peek. cbn [peek_loop].
  rewrite (bool_decide_false (length (rd_buf b) < n)%nat) by lia. cbn [andb].
  rewrite (bool_decide_false (defaultBufSize < n)%nat), bool_decide_false by lia. done.
Qed.

(** [Read] of bytes that are buffered takes them out. *)
Lemma ring_read_buffered k b :
  ring_ok b → (0 < k ≤ length (rd_buf b))%nat →
  ∃ b', ring_read k b = (take k (unread b), None, b') ∧ ring_ok b' ∧
    unread b' = drop k (unread b) ∧ mem_Cap (buf_ b') = mem_Cap (buf_ b).
Proof.
  intros [Hs He] Hk. unfold ring_read. rewrite bool_decide_false by lia.
  rewrite (bool_decide_false (rd_buf b = [])) by (intros E; rewrite E in Hk; cbn in Hk; lia).
  eexists. unfold unread. rewrite take_app_le, drop_app_le by lia. split; [done|].
  split; [|done]. split; cbn; [rewrite length_drop; lia|done].
Qed.

(** [Read] of at most the buffer's size from an empty [bufio.Reader]. *)
Lemma ring_read_direct k b :
  ring_ok b → rd_buf b = [] → (0 < k < defaultBufSize)%nat →
  (length (unread b) ≤ defaultBufSize)%nat →
  ∃ b' e, ring_read k b = (take k (unread b), e, b') ∧ ring_ok b' ∧
    unread b' = drop k (unread b) ∧ mem_Cap (buf_ b') = mem_Cap (buf_ b).
Proof.
  intros [Hs He] Hr Hk Hl. unfold unread in *. rewrite Hr in *. cbn [app] in *.
  unfold ring_read. rewrite bool_decide_false by lia. rewrite Hr, (bool_decide_true ([] = [])) by done.
  rewrite He, bool_decide_false by lia. destruct defaultBufSize as [|d] eqn:Ed; [lia|].
  destruct (decide (mem_contents (buf_ b) = [])) as [Hm|Hm].
  - rewrite (mem_Read_empty d _ Hm), bool_decide_true by done. rewrite Hm, take_nil, drop_nil.
    eexists _, _. split; [done|]. split; [split; cbn; [lia|done]|]. cbn. by rewrite Hm.
  - destruct (mem_Read_some d _ Hm) as (m' & -> & Hc & Hcap).
    rewrite bool_decide_false by (by destruct (mem_contents (buf_ b))).
    rewrite (take_ge (mem_contents (buf_ b)) (S d)) by lia. rewrite drop_ge in Hc by lia.
    eexists _, _. split; [done|]. cbn [rd_buf buf_ rd_err]. rewrite Hc, app_nil_r.
    split; [split; cbn; [rewrite length_drop; lia|done]|]. done.
Qed.

Lemma ring_write_fits p b :
  zlen (mem_contents (buf_ b)) + zlen p ≤ mem_Cap (buf_ b) →
  ∃ b', ring_write p b = (zlen p, b') ∧ unread b' = unread b ++ p ∧
    rd_buf b' = rd_buf b ∧ rd_err b' = rd_err b ∧ mem_Cap (buf_ b') = mem_Cap (buf_ b).
Proof.
  intros Hf. destruct (mem_Write_fits p _ Hf) as (m & E & Hc & Hcap).
  unfold ring_write. rewrite E. eexists. split; [done|]. unfold unread. cbn.
  by rewrite Hc, app_assoc.
Qed.

(** In every state that [Peek], [Read] and [Write] leave behind: *)
Definition ring_inv b : Prop :=
  (length (rd_buf b) ≤ defaultBufSize)%nat ∧ (rd_err b = None ∨ rd_err b = Some EOF).

Lemma Peek_keeps n b r b' :
  ring_inv b → Peek n b = (r, b') → ring_inv b' ∧ unread b' = unread b.
Proof.
  intros [Hs He] E. unfold Peek in E.
  assert (∃ b1, peek_loop (S (S defaultBufSize)) n b = b1 ∧ same_bytes b b1 ∧
    (rd_err b1 = None ∨ rd_err b1 = Some EOF)) as (b1 & E1 & Hsb & He1).
  { destruct He as [He|He].
    - destruct (peek_loop_spec (S (S defaultBufSize)) n b) as [Hsb Hc]; [by split|lia|].
      eexists. split; [done|]. split; [done|]. destruct Hc as [[? _]|[? _]]; auto.
    - exists b. cbn [peek_loop]. rewrite He, (bool_decide_false (Some EOF = None)), andb_false_r by done.
      split; [done|]. split; [by apply same_bytes_refl|by right]. }
  rewrite E1 in E. destruct (bool_decide (defaultBufSize < n)%nat).
  { injection E as _ <-. split; [split; [apply Hsb|done]|apply Hsb]. }
  destruct (bool_decide (length (rd_buf b1) < n)%nat); injection E as _ <-.
  - split; [split; [apply Hsb|by left]|]. apply (sb_unread _ _ Hsb).
  - split; [split; [apply Hsb|done]|apply Hsb].
Qed.

Lemma mem_Read_keeps k m p e m' :
  (0 < k)%nat → mem_Read k m = (p, e, m') →
  mem_contents m = p ++ mem_contents m' ∧ (length p ≤ k)%nat ∧
  (e = None ∨ e = Some EOF ∧ p = []).
Proof.
  intros Hk E. destruct k as [|k]; [lia|].
  destruct (decide (mem_contents m = [])) as [Hm|Hm].
  - rewrite (mem_Read_empty k m Hm) in E. injection E as <- <- <-. cbn. split; [done|]. split; [lia|auto].
  - destruct (mem_Read_some k m Hm) as (m2 & E2 & Hc & _). rewrite E in E2. injection E2 as -> -> ->.
    rewrite Hc, take_drop, length_take. split; [done|]. split; [lia|by left].
Qed.

(** [Read] hands out the first bytes, as many as it says. *)
Lemma ring_read_keeps k b rd e b' :
  ring_inv b → (0 < k)%nat → (0 < defaultBufSize)%nat → ring_read k b = (rd, e, b') →
  ring_inv b' ∧ unread b = rd ++ unread b'.
Proof.
  intros [Hs He] Hk Hd E. unfold ring_read in E. rewrite bool_decide_false in E by lia.
  destruct (bool_decide (rd_buf b = [])) eqn:Eb; cycle 1.
  { injection E as <- _ <-. unfold ring_inv, unread. cbn [rd_buf rd_err buf_].
    rewrite app_assoc, take_drop, length_drop. split; [split; [lia|done]|done]. }
  apply bool_decide_eq_true in Eb. unfold unread. rewrite Eb. cbn [app].
  destruct (rd_err b) as [x|] eqn:Er.
  { injection E as <- _ <-. unfold ring_inv. cbn. rewrite Eb. cbn. split; [split; [lia|by left]|done]. }
  destruct (bool_decide (defaultBufSize ≤ k)%nat).
  - destruct (mem_Read k (buf_ b)) as [[p x] m] eqn:Em. injection E as <- _ <-.
    destruct (mem_Read_keeps _ _ _ _ _ Hk Em) as (Hc & _ & _). cbn.
    split; [split; cbn; [lia|by left]|done].
  - destruct (mem_Read defaultBufSize (buf_ b)) as [[p x] m] eqn:Em.
    destruct (mem_Read_keeps _ _ _ _ _ Hd Em) as (Hc & Hp & Hx).
    destruct (bool_decide (p = [])) eqn:Ep.
    + apply bool_decide_eq_true in Ep. subst p. injection E as <- _ <-. cbn.
      split; [split; cbn; [lia|by left]|done].
    + injection E as <- _ <-. unfold ring_inv. cbn [rd_buf rd_err buf_].
      rewrite app_assoc, take_drop, length_drop. split; [split; [lia|]|done].
      destruct Hx as [->|[-> _]]; auto.
Qed.

Lemma ring_write_keeps p b n b' :
  ring_inv b → ring_write p b = (n, b') → ring_inv b'.
Proof.
  unfold ring_write. destruct (mem_Write p (buf_ b)) as [k m]. intros Hi [= _ <-]. exact Hi.
Qed.

End Facts.
