(* ===== verification/MintoxTcpClient.v ===== *)
(** * The relay client of mintox (mintox/tcp_client.go)

    [TCPClient] with its read and write goroutines, its ping goroutine and the
    sending operations.  A read turn takes what the socket delivered through
    the buffer of PeekRing.v and handles every complete packet; the sending
    operations put packets into the queue of SendQueue.v, which the write
    goroutine seals and writes.  Callbacks are recorded in [trace].  [sys] is
    the client with its goroutines; [exec] runs one of their turns.  The
    handshake is the one of TcpHandshake.v. *)

From S2P Require Import Prelude Nonce GoIO GoText Box TcpPacket TcpHandshake BiMap TcpServer TcpServerConn SendQueue PeekRing.
Local Open Scope Z_scope.

(** ** Interfaces *)

(** [gopp.Buffer.RBufAt(n)], the bytes from offset [n] on *)
Class GoppBuffer := RBufAt : nat → bytes → bytes.
Class GoppBufferLaws (G : GoppBuffer) := {
  RBufAt_drop n b : (n ≤ length b)%nat → RBufAt n b = drop n b
}.

(** [rudp.PfxByteArray], a packet buffer with room in front *)
Class PfxByteArray := {
  pfx : Type;
  pfx_Get : pfx;                              (* rudp.PfxBuffp().Get() *)
  pfx_Copy : bytes → pfx → pfx;
  PPU8 : Z → pfx → pfx;                       (* one byte in front *)
  FullData : pfx → bytes
}.
Class PfxByteArrayLaws (P : PfxByteArray) := {
  FullData_Copy d : zlen d ≤ 2048 → FullData (pfx_Copy d pfx_Get) = d;
  FullData_PPU8 c d : zlen d ≤ 2048 → FullData (PPU8 c (pfx_Copy d pfx_Get)) = zb c :: d
}.

(** ** Status *)

Definition TCP_CLIENT_NO_STATUS : Z := 0.
Definition TCP_CLIENT_PROXY_HTTP_CONNECTING : Z := 1.
Definition TCP_CLIENT_PROXY_SOCKS5_CONNECTING : Z := 2.
Definition TCP_CLIENT_PROXY_SOCKS5_UNCONFIRMED : Z := 3.
Definition TCP_CLIENT_CONNECTING : Z := 4.
Definition TCP_CLIENT_UNCONFIRMED : Z := 5.
Definition TCP_CLIENT_CONFIRMED : Z := 6.
Definition TCP_CLIENT_DISCONNECTED : Z := 7.

Definition tcpstnames : list (Z * bytes) := [
  (TCP_CLIENT_NO_STATUS, str "NO_STATUS");
  (TCP_CLIENT_PROXY_HTTP_CONNECTING, str "PROXY_HTTP_CONNECTING");
  (TCP_CLIENT_PROXY_SOCKS5_CONNECTING, str "PROXY_SOCKS5_CONNECTING");
  (TCP_CLIENT_PROXY_SOCKS5_UNCONFIRMED, str "PROXY_SOCKS5_UNCONFIRMED");
  (TCP_CLIENT_CONNECTING, str "CONNECTING");
  (TCP_CLIENT_UNCONFIRMED, str "UNCONFIRMED");
  (TCP_CLIENT_CONFIRMED, str "CONFIRMED");
  (TCP_CLIENT_DISCONNECTED, str "DISCONNECTED")].

Definition tcpstname (status : Z) : bytes :=
  match list_find (λ p, p.1 = status) tcpstnames with
  | Some (_, (_, name)) => name
  | None => str "Unknown"
  end.

Definition TCP_PACKET_OOB_SEND : Z := 6.
Definition TCP_PACKET_OOB_RECV : Z := 7.
Definition TCP_PACKET_ONION_REQUEST : Z := 8.

(** ** State *)

(** Which callbacks are set. *)
Record callbacks := mkCallbacks {
  RoutingResponseFunc : bool;
  RoutingStatusFunc : bool;
  RoutingDataFunc : bool;
  OnReservedData : bool;
  OnConfirmed : bool;
  OnClosed : bool;
  OnNetRecv : bool;
  OnNetSent : bool
}.

Inductive event : Type :=
| EvConfirmed
| EvDoPing                                            (* go this.doPing() *)
| EvClosed
| EvNetRecv (n : Z)
| EvNetSent (n : Z)
| EvRoutingResponse (connid : Z) (pubkey : bytes)
| EvRoutingStatus (number connid status : Z)
| EvRoutingData (number connid : Z) (data : bytes)
| EvReservedData (number connid : Z) (data : bytes).

#[export] Instance event_eq_dec : EqDecision event.
Proof. solve_decision. Defined.

Inductive cli_err : Type :=
| ErrTooLong (len : Z)
| ErrStatus (name : bytes)              (* Cannot send data status is ... *)
| ErrNotConnected
| ErrNotConfirmed
| ErrInvalidPrior (prior : Z)
| ErrQueueDisposed
| ErrInvalidPong (pongid id : Z)
| ErrDial (e : io_err)
| ErrHandshake (e : hs_err)
| Waits                                 (* the call waits in the queue *)
| OutOfTurns.

Section Client.
Context `{NaclBox} `{Gopp} `{GoppBuffer} `{PfxByteArray} `{MemBuffer} `{HPQ : PriorityQueue sendItem}.

(** A socket that is broken or closed: every [Write] returns [b_err]; the next
    one still writes up to [b_left] bytes, and [b_part] is what failed writes
    have written. *)
Record broken := mkBroken {
  b_err : io_err;
  b_left : nat;
  b_part : bytes
}.

(** [core] has the keys and nonces; [net_out] is what the writes that succeeded
    have written. *)
Record TCPClient := mkTCPClient {
  core : MintoxClient.client;
  tc_status : Z;
  PingRequestId : Z;
  crbuf : PeekableRing;
  sendq : pq;
  conns : BiMap Z bytes;
  connected : bool;                     (* conn != nil *)
  conn_err : option broken;
  net_out : bytes;
  cbs : callbacks;
  trace : list event
}.

Definition set_core x c := mkTCPClient x (tc_status c) (PingRequestId c) (crbuf c) (sendq c)
  (conns c) (connected c) (conn_err c) (net_out c) (cbs c) (trace c).
Definition setStatus x c := mkTCPClient (core c) x (PingRequestId c) (crbuf c) (sendq c)
  (conns c) (connected c) (conn_err c) (net_out c) (cbs c) (trace c).
Definition set_ping x c := mkTCPClient (core c) (tc_status c) x (crbuf c) (sendq c)
  (conns c) (connected c) (conn_err c) (net_out c) (cbs c) (trace c).
Definition set_crbuf x c := mkTCPClient (core c) (tc_status c) (PingRequestId c) x (sendq c)
  (conns c) (connected c) (conn_err c) (net_out c) (cbs c) (trace c).
Definition set_sendq x c := mkTCPClient (core c) (tc_status c) (PingRequestId c) (crbuf c) x
  (conns c) (connected c) (conn_err c) (net_out c) (cbs c) (trace c).
Definition set_conns x c := mkTCPClient (core c) (tc_status c) (PingRequestId c) (crbuf c) (sendq c)
  x (connected c) (conn_err c) (net_out c) (cbs c) (trace c).
Definition set_net x y z c := mkTCPClient (core c) (tc_status c) (PingRequestId c) (crbuf c) (sendq c)
  (conns c) x y z (cbs c) (trace c).
Definition emit (on : bool) e c := mkTCPClient (core c) (tc_status c) (PingRequestId c) (crbuf c)
  (sendq c) (conns c) (connected c) (conn_err c) (net_out c) (cbs c)
  (if on then trace c ++ [e] else trace c).

Definition isConnecting c : bool := tc_status c =? TCP_CLIENT_CONNECTING.
Definition isConfirmed c : bool := tc_status c =? TCP_CLIENT_CONFIRMED.
Definition isUnconfirmed c : bool := tc_status c =? TCP_CLIENT_UNCONFIRMED.

(** ** Keys *)

Definition ToHex (b : bytes) : bytes := map to_upper (hexEncode b).

(** The error of [hex.DecodeString] is printed and what it decoded is used. *)
Definition NewCryptoKeyFromHex {E} (key : bytes) : outcome E bytes :=
  let '(keybin, _) := hex_DecodeString key in
  _ ← Assert (bool_decide (length keybin = Mintox.PUBLIC_KEY_SIZE));
  Ret keybin.

Definition SetKeyPair {E} (serv_pubkey pubkey seckey : bytes) (c : MintoxClient.client)
    : outcome E MintoxClient.client :=
  pk ← NewCryptoKeyFromHex (ToHex pubkey);
  sk ← NewCryptoKeyFromHex (ToHex seckey);
  shr ← Mintox.CBBeforeNm2 serv_pubkey sk;
  Ret (MintoxClient.TCPClient pk shr (MintoxClient.TempSeckey c) (MintoxClient.SentNonce c)
         (MintoxClient.RecvNonce c) (MintoxClient.TempNonce c)).

(** The shared key is computed in [SetKeyPair] and once more here. *)
Definition NewTCPClient {E} (serv_pubkey self_pubkey self_seckey : bytes) (cb : callbacks)
    : outcome E TCPClient :=
  k ← SetKeyPair serv_pubkey self_pubkey self_seckey (MintoxClient.TCPClient [] [] [] [] [] []);
  sk ← NewCryptoKeyFromHex (ToHex self_seckey);
  shr ← Mintox.CBBeforeNm2 serv_pubkey sk;
  Ret (mkTCPClient
         (MintoxClient.TCPClient (MintoxClient.SelfPubkey k) shr [] [] [] [])
         TCP_CLIENT_NO_STATUS 0 NewPeekableRing (pq_New 32 true) NewBiMap false None [] cb []).

(** ** Packets *)

Definition map_core (f : MintoxClient.client → MintoxClient.client) c := set_core (f (core c)) c.

Definition incr_sent (k : MintoxClient.client) : MintoxClient.client :=
  MintoxClient.TCPClient (MintoxClient.SelfPubkey k) (MintoxClient.Shrkey k)
    (MintoxClient.TempSeckey k) (Nonce.Mintox.Incr2 (MintoxClient.SentNonce k))
    (MintoxClient.RecvNonce k) (MintoxClient.TempNonce k).

Definition incr_recv (k : MintoxClient.client) : MintoxClient.client :=
  MintoxClient.TCPClient (MintoxClient.SelfPubkey k) (MintoxClient.Shrkey k)
    (MintoxClient.TempSeckey k) (MintoxClient.SentNonce k)
    (Nonce.Mintox.Incr2 (MintoxClient.RecvNonce k)) (MintoxClient.TempNonce k).

Definition CreatePacket (plain : bytes) (c : TCPClient) : outcome cli_err bytes :=
  encdat ← ErrPrint (Mintox.EncryptDataSymmetric2 (MintoxClient.Shrkey (core c))
                       (MintoxClient.SentNonce (core c)) plain);
  Ret (be_bytes 2 (u16 (zlen encdat)) ++ encdat).

(** The nonce advances whether or not the packet could be opened. *)
Definition Unpacket (encpkt : bytes) (c : TCPClient) : outcome cli_err (bytes * TCPClient) :=
  enc ← slice_from encpkt 2;
  plnpkt ← ErrPrint (Mintox.DecryptDataSymmetric2 (MintoxClient.Shrkey (core c))
                       (MintoxClient.RecvNonce (core c)) enc);
  Ret (plnpkt, map_core incr_recv c).

(** [conn.Write]: the count, or the error, possibly after a part of [b] *)
Definition conn_Write (b : bytes) (c : TCPClient) : (io_err + Z) * TCPClient :=
  match conn_err c with
  | Some k =>
      (inl (b_err k),
       set_net (connected c) (Some (mkBroken (b_err k) 0 (b_part k ++ take (b_left k) b)))
         (net_out c) c)
  | None => (inr (zlen b), set_net (connected c) None (net_out c ++ b) c)
  end.

Definition WritePacket (data : bytes) (c : TCPClient) : outcome cli_err ((io_err + Z) * TCPClient) :=
  encpkt ← CreatePacket data c;
  let '(r, c1) := conn_Write encpkt c in
  match r with
  | inl e => Ret (inl e, c1)
  | inr wn => Ret (inr wn, map_core incr_sent c1)
  end.

(** ** Sending *)

(** [BlockPut] when nobody else touches the queue *)
Definition BlockPut (it : sendItem) (q : pq) : outcome cli_err pq :=
  if pq_Len q >=? 32 then Fail Waits
  else let '(ok, q') := pq_Put [it] q in if ok : bool then Ret q' else Fail ErrQueueDisposed.

Definition Put (it : sendItem) (q : pq) : outcome cli_err pq :=
  let '(ok, q') := pq_Put [it] q in if ok : bool then Ret q' else Fail ErrQueueDisposed.

Definition implSendPacket (prior : Z) (datbuf : pfx) (c : TCPClient) : outcome cli_err TCPClient :=
  if (prior <? 0) || (prior >? 2) then Fail (ErrInvalidPrior prior)
  else
    let item := mkItem (FullData datbuf) prior in
    q ← (if prior =? 0 then Put item (sendq c) else BlockPut item (sendq c));
    Ret (set_sendq q c).

Definition send_guard (data : bytes) (c : TCPClient) : outcome cli_err unit :=
  if zlen data >? 2048 then Fail (ErrTooLong (zlen data))
  else if negb (isConfirmed c) then Fail (ErrStatus (tcpstname (tc_status c)))
  else Ret tt.

Definition SendCtrlPacket (data : bytes) (c : TCPClient) : outcome cli_err TCPClient :=
  _ ← send_guard data c;
  implSendPacket 0 (pfx_Copy data pfx_Get) c.

Definition SendDataPacket (connid : Z) (data : bytes) (prior : bool) (c : TCPClient)
    : outcome cli_err TCPClient :=
  _ ← send_guard data c;
  implSendPacket (if prior then 1 else 2) (PPU8 connid (pfx_Copy data pfx_Get)) c.

Definition SendRoutingRequest (pubkey : bytes) : TCPClient → outcome cli_err TCPClient :=
  SendCtrlPacket (zb TCP_PACKET_ROUTING_REQUEST :: pubkey).

Definition ConnectPeer (pubkey : bytes) (c : TCPClient) : outcome cli_err TCPClient :=
  if negb (connected c) then Fail ErrNotConnected
  else if negb (isConfirmed c) then Fail ErrNotConfirmed
  else pk ← NewCryptoKeyFromHex pubkey; SendRoutingRequest pk c.

Definition SendOOBPacket (pubkey data : bytes) : TCPClient → outcome cli_err TCPClient :=
  SendCtrlPacket (zb TCP_PACKET_OOB_SEND :: pubkey ++ data).

Definition SendConnectNotification (connid : Z) : TCPClient → outcome cli_err TCPClient :=
  SendCtrlPacket [zb TCP_PACKET_CONNECTION_NOTIFICATION; zb connid].

Definition SendDisconnectNotification (connid : Z) : TCPClient → outcome cli_err TCPClient :=
  SendCtrlPacket [zb TCP_PACKET_DISCONNECT_NOTIFICATION; zb connid].

Definition SendOnionRequest (data : bytes) : TCPClient → outcome cli_err TCPClient :=
  SendCtrlPacket (zb TCP_PACKET_ONION_REQUEST :: data).

(** A call whose error is printed. *)
Definition printed (m : outcome cli_err TCPClient) (c : TCPClient) : outcome cli_err TCPClient :=
  match m with Ret c' => Ret c' | Fail _ => Ret c | Panic => Panic end.

(** [draw] is [rand.Uint64()]. *)
Definition MakePingPacket2 (draw : Z) (c : TCPClient) : bytes * TCPClient :=
  let pingid := if draw =? 0 then 1 else draw in
  (zb TCP_PACKET_PING :: be_bytes 8 pingid, set_ping pingid c).

Definition CreatePingPacket (draw : Z) (c : TCPClient) : outcome cli_err (bytes * TCPClient) :=
  let '(pingpkt, c1) := MakePingPacket2 draw c in
  encpkt ← CreatePacket pingpkt c1;
  Ret (encpkt, c1).

(** [binary.Read] of a [uint64]; too few bytes leave the variable 0. *)
Definition read_u64 (b : bytes) : Z :=
  if bool_decide (length b < 8)%nat then 0 else be_val (take 8 b).

(** ** Handlers *)

Definition HandlePingResponse (rpkt : bytes) (c : TCPClient) : outcome cli_err TCPClient :=
  let pongid := read_u64 (RBufAt 1 rpkt) in
  _ ← Assert (pongid =? PingRequestId c);
  Ret (set_ping 0 c).

Definition HandlePingResponse2 (rpkt : bytes) (c : TCPClient) : outcome cli_err TCPClient :=
  let pongid := read_u64 (RBufAt 1 rpkt) in
  if negb (pongid =? PingRequestId c) then Fail (ErrInvalidPong pongid (PingRequestId c))
  else Ret (set_ping 0 c).

Definition HandlePingRequest (rpkt : bytes) (c : TCPClient) : outcome cli_err TCPClient :=
  id ← slice_from rpkt 1;
  printed (SendCtrlPacket (zb TCP_PACKET_PONG :: id) c) c.

Definition HandleRoutingResponse (rpkt : bytes) (c : TCPClient) : outcome cli_err TCPClient :=
  t ← index rpkt 0;
  _ ← Assert (bz t =? TCP_PACKET_ROUTING_RESPONSE);
  connid ← index rpkt 1;
  k ← slice rpkt 2 (2 + Mintox.PUBLIC_KEY_SIZE);
  pubkey ← Mintox.NewCryptoKey k;
  match Insert (bz connid) pubkey (conns c) with
  | Done _ b =>
      Ret (emit (RoutingResponseFunc (cbs c)) (EvRoutingResponse (bz connid) pubkey) (set_conns b c))
  | Panicked _ => Panic
  | Blocked => Fail Waits
  end.

Definition HandleRoutingData (rpkt : bytes) (c : TCPClient) : outcome cli_err TCPClient :=
  connid ← index rpkt 0;
  data ← (if RoutingDataFunc (cbs c) then slice_from rpkt 1 else Ret []);
  Ret (emit (RoutingDataFunc (cbs c)) (EvRoutingData 0 (bz connid) data) c).

Definition HandleReservedData (rpkt : bytes) (c : TCPClient) : outcome cli_err TCPClient :=
  connid ← index rpkt 0;
  data ← (if OnReservedData (cbs c) then slice_from rpkt 1 else Ret []);
  Ret (emit (OnReservedData (cbs c)) (EvReservedData 0 (bz connid) data) c).

Definition HandleConnectionNotification (rpkt : bytes) (c : TCPClient) : outcome cli_err TCPClient :=
  connid ← index rpkt 1;
  Ret (emit (RoutingStatusFunc (cbs c)) (EvRoutingStatus 0 (bz connid) 2) c).

Definition HandleDisconnectNotification (rpkt : bytes) (c : TCPClient) : outcome cli_err TCPClient :=
  connid ← index rpkt 1;
  Ret (emit (RoutingStatusFunc (cbs c)) (EvRoutingStatus 0 (bz connid) 1) c).

(** The inner [switch] of [doReadPacket]; [log.Fatalln] ends the program. *)
Definition dispatch (plnpkt : bytes) (c : TCPClient) : outcome cli_err TCPClient :=
  b ← index plnpkt 0;
  let ptype := bz b in
  if ptype =? TCP_PACKET_PING then HandlePingRequest plnpkt c
  else if ptype =? TCP_PACKET_PONG then printed (HandlePingResponse2 plnpkt c) c
  else if ptype =? TCP_PACKET_ROUTING_RESPONSE then HandleRoutingResponse plnpkt c
  else if ptype =? TCP_PACKET_CONNECTION_NOTIFICATION then HandleConnectionNotification plnpkt c
  else if ptype =? TCP_PACKET_DISCONNECT_NOTIFICATION then HandleDisconnectNotification plnpkt c
  else if ptype =? TCP_PACKET_OOB_RECV then Ret c
  else if ptype =? TCP_PACKET_ONION_RESPONSE then Ret c
  else if ptype >=? NUM_RESERVED_PORTS then HandleRoutingData plnpkt c
  else if (ptype >? TCP_PACKET_ONION_RESPONSE) && (ptype <? NUM_RESERVED_PORTS)
  then HandleReservedData plnpkt c
  else Panic.

(** ** Reading *)

(** The first [switch] of [doReadPacket]: the bytes of the next packet; [None]
    leaves the loop, with the error of [Peek] if there is one. *)
Definition take_packet (c : TCPClient) : outcome cli_err (option bytes * TCPClient) :=
  if isConnecting c then
    let pktlen := (Mintox.NONCE_SIZE +
                   (Mintox.PUBLIC_KEY_SIZE + Mintox.NONCE_SIZE + Mintox.MAC_SIZE))%nat in
    let '(rdbuf, _, b) := ring_read pktlen (crbuf c) in
    _ ← Assert (bool_decide (length rdbuf = pktlen));
    Ret (Some rdbuf, set_crbuf b c)
  else if isUnconfirmed c || isConfirmed c then
    let '(r, b) := Peek 2 (crbuf c) in
    match r with
    | inl _ => Ret (None, set_crbuf b c)
    | inr pktlenbuf =>
        let pktlen := Z.to_nat (be_val pktlenbuf) in
        let '(r2, b2) := Peek (2 + pktlen) b in
        match r2 with
        | inl _ => Ret (None, set_crbuf b2 c)
        | inr _ =>
            let '(rdbuf, _, b3) := ring_read (2 + pktlen) b2 in
            _ ← Assert (bool_decide (length rdbuf = 2 + pktlen)%nat);
            Ret (Some rdbuf, set_crbuf b3 c)
        end
    end
  else Ret (Some [], c).

(** The plaintext of a packet, once it is opened. *)
Definition accept (plnpkt : bytes) (c : TCPClient) : outcome cli_err TCPClient :=
  if isUnconfirmed c then
    _ ← index plnpkt 0;
    c1 ← HandlePingResponse plnpkt c;
    let c2 := setStatus TCP_CLIENT_CONFIRMED c1 in
    Ret (emit (OnConfirmed (cbs c2)) EvConfirmed (emit (OnConfirmed (cbs c2)) EvDoPing c2))
  else dispatch plnpkt c.

(** The second [switch] of [doReadPacket]. *)
Definition handle (draw : Z) (rdbuf : bytes) (c : TCPClient) : outcome cli_err TCPClient :=
  if isConnecting c then
    k ← map_err ErrHandshake (MintoxClient.HandleHandshake rdbuf (core c));
    '(pingpkt, c1) ← CreatePingPacket draw (set_core k c);
    let '(_, c2) := conn_Write pingpkt c1 in
    Ret (setStatus TCP_CLIENT_UNCONFIRMED (map_core incr_sent c2))
  else if isUnconfirmed c || isConfirmed c then
    '(plnpkt, c1) ← Unpacket rdbuf c;
    accept plnpkt c1
  else Panic.                                          (* log.Fatalln *)

(** Every turn that goes on has taken a byte at least. *)
Fixpoint doReadPacket (fuel : nat) (draw : Z) (c : TCPClient) : outcome cli_err TCPClient :=
  match fuel with
  | O => Fail OutOfTurns
  | S fuel =>
      '(pkt, c1) ← take_packet c;
      match pkt with
      | None => Ret c1
      | Some rdbuf => c2 ← handle draw rdbuf c1; doReadPacket fuel draw c2
      end
  end.

(** What [c.Read] of the read loop returns. *)
Inductive read_result : Type := RData (chunk : bytes) | RErr (e : io_err).

(** One turn of [doReadConn]; [false] leaves the loop. *)
Definition read_turn (draw : Z) (r : read_result) (c : TCPClient) : outcome cli_err (TCPClient * bool) :=
  match r with
  | RErr e =>
      Ret (if bool_decide (e = EOF) then setStatus TCP_CLIENT_DISCONNECTED c else c, false)
  | RData chunk =>
      let rn := zlen chunk in
      if rn <? 1 then Ret (c, false)
      else
        let c1 := emit (OnNetRecv (cbs c)) (EvNetRecv rn) c in
        _ ← Assert (ring_len (crbuf c1) + rn <=? ring_cap (crbuf c1));
        let '(wn, b) := ring_write chunk (crbuf c1) in
        _ ← Assert (wn =? rn);
        c2 ← doReadPacket (S (Z.to_nat (ring_len b))) draw (set_crbuf b c1);
        Ret (c2, true)
  end.

(** [doReadConn] on what the socket delivers, up to the error or for as long as
    it has delivered. *)
Fixpoint doReadConn (draw : Z) (rs : list read_result) (c : TCPClient) : outcome cli_err TCPClient :=
  match rs with
  | [] => Ret c
  | r :: rs =>
      '(c1, go) ← read_turn draw r c;
      if go : bool then doReadConn draw rs c1 else Ret c1
  end.

(** One turn of [doWriteConn]: [None] while [Get] waits, [false] leaves the
    loop. *)
Definition write_turn (c : TCPClient) : outcome cli_err (option (TCPClient * bool)) :=
  match pq_Get 1 (sendq c) with
  | GetBlocks => Ret None
  | GetDisposed => Ret (Some (c, false))
  | Items [] _ => Panic                                (* pitems[0] *)
  | Items (it :: _) q =>
      '(r, c1) ← WritePacket (Value it) (set_sendq q c);
      match r with
      | inl _ => Ret (Some (c1, false))
      | inr wn => Ret (Some (emit (OnNetSent (cbs c1)) (EvNetSent wn) c1, true))
      end
  end.

(** ** Starting *)

(** [connect] up to the start of the goroutines; [dial] is the error of
    [net.Dial]. *)
Definition connect (dial : option io_err) (c : TCPClient) : outcome cli_err unit * TCPClient :=
  let c1 := setStatus TCP_CLIENT_CONNECTING c in
  match dial with
  | Some e => (Fail (ErrDial e), c1)
  | None =>
      (Ret tt, set_net true None [] (set_sendq (pq_New 32 true) (set_crbuf NewPeekableRing c1)))
  end.

Definition SendHandshake (tpk tsk sn tn : bytes) (c : TCPClient)
    : outcome cli_err ((io_err + Z) * TCPClient) :=
  '(encpkt, k) ← map_err ErrHandshake (MintoxClient.GenerateHandshake tpk tsk sn tn (core c));
  Ret (conn_Write encpkt (set_core k c)).

(** ** The goroutines *)

Record sys := mkSys {
  cl : TCPClient;
  reading : bool;                       (* doReadConn runs *)
  writing : bool;                       (* doWriteConn runs *)
  pinging : bool;                       (* doPing runs *)
  finished : bool                       (* runmainproc is past wg.Wait() *)
}.

(** [doinit]; the error of [SendHandshake] is printed. *)
Definition doinit (dial : option io_err) (tpk tsk sn tn : bytes) (c : TCPClient)
    : outcome cli_err sys :=
  match connect dial c with
  | (Ret _, c1) =>
      '(_, c2) ← SendHandshake tpk tsk sn tn c1;
      Ret (mkSys c2 true true false false)
  | (_, c1) => Ret (mkSys (emit (OnClosed (cbs c1)) EvClosed c1) false false false true)
  end.

Inductive send_op : Type :=
| OpConnectPeer (pubkey : bytes)
| OpData (connid : Z) (data : bytes) (prior : bool)
| OpOOB (pubkey data : bytes)
| OpConnectNotification (connid : Z)
| OpDisconnectNotification (connid : Z)
| OpOnion (data : bytes)
| OpCtrl (data : bytes).

Definition send (op : send_op) : TCPClient → outcome cli_err TCPClient :=
  match op with
  | OpConnectPeer pk => ConnectPeer pk
  | OpData i d p => SendDataPacket i d p
  | OpOOB pk d => SendOOBPacket pk d
  | OpConnectNotification i => SendConnectNotification i
  | OpDisconnectNotification i => SendDisconnectNotification i
  | OpOnion d => SendOnionRequest d
  | OpCtrl d => SendCtrlPacket d
  end.

Inductive turn : Type :=
| TRead (draw : Z) (r : read_result)    (* doReadConn *)
| TWrite                                (* doWriteConn *)
| TPing (draw : Z)                      (* doPing, at its start and every 20 s *)
| TSend (op : send_op)                  (* a caller *)
| TClose                                (* Close by a caller *)
| TBroken (e : io_err) (n : nat)        (* the socket fails after [n] bytes *)
| TFinish.                              (* runmainproc after wg.Wait() *)

Definition close_conn (c : TCPClient) : TCPClient :=
  match conn_err c with
  | Some _ => c
  | None => set_net (connected c) (Some (mkBroken (ErrOther 9) 0 [])) (net_out c) c
  end.

(** One turn of a goroutine; a turn that is not possible changes nothing. *)
Definition exec (t : turn) (s : sys) : outcome cli_err sys :=
  match t with
  | TRead draw r =>
      if reading s then
        '(c, go) ← read_turn draw r (cl s);
        Ret (mkSys c go (writing s)
               (pinging s || bool_decide (EvDoPing ∈ trace c)) (finished s))
      else Ret s
  | TWrite =>
      if writing s then
        r ← write_turn (cl s);
        match r with
        | None => Ret s
        | Some (c, true) => Ret (mkSys c (reading s) true (pinging s) (finished s))
        | Some (c, false) => Ret (mkSys (close_conn c) (reading s) false (pinging s) (finished s))
        end
      else Ret s
  | TPing draw =>
      if pinging s && negb (finished s) then
        let '(pkt, c) := MakePingPacket2 draw (cl s) in
        c' ← printed (SendCtrlPacket pkt c) c;
        Ret (mkSys c' (reading s) (writing s) (pinging s) (finished s))
      else Ret s
  | TSend op =>
      c ← printed (send op (cl s)) (cl s);
      Ret (mkSys c (reading s) (writing s) (pinging s) (finished s))
  | TClose => Ret (mkSys (close_conn (cl s)) (reading s) (writing s) (pinging s) (finished s))
  | TBroken e n =>
      Ret (mkSys (match conn_err (cl s) with
                  | Some _ => cl s
                  | None => set_net (connected (cl s)) (Some (mkBroken e n [])) (net_out (cl s)) (cl s)
                  end) (reading s) (writing s) (pinging s) (finished s))
  | TFinish =>
      if negb (reading s) && negb (writing s) && negb (finished s) then
        let c := setStatus TCP_CLIENT_DISCONNECTED (cl s) in
        let c := set_sendq (pq_Dispose (sendq c)) c in
        Ret (mkSys (emit (OnClosed (cbs c)) EvClosed c) false false false true)
      else Ret s
  end.

Fixpoint run_turns (ts : list turn) (s : sys) : outcome cli_err sys :=
  match ts with
  | [] => Ret s
  | t :: ts => s' ← exec t s; run_turns ts s'
  end.

End Client.

#[local] Opaque Tcp.incrNonce Nonce.Mintox.Incr2 Nonce.Mintox.Incr2le defaultBufSize.

(** ** What the operations change *)

Section Frames.
Context `{NaclBoxLaws} `{GoppLaws} `{GoppBuffer} `{PfxByteArrayLaws} `{MemBuffer}
  `{HPQ : PriorityQueue sendItem}.
Implicit Types c : TCPClient.

Lemma cli_CreatePacket_ok p c :
  zlen p ≤ maxBody →
  CreatePacket p c = Ret (be_bytes 2 (zlen p + 16) ++
    box_seal p (MintoxClient.SentNonce (core c)) (MintoxClient.Shrkey (core c))).
Proof.
  intros Hp. unfold CreatePacket. rewrite Mintox.EncryptDataSymmetric2_ok.
  cbn [ErrPrint mbind outcome_bind]. rewrite zlen_seal.
  unfold maxBody in Hp. pose proof (zlen_nonneg p). unfold u16. by rewrite wrap_u_small by lia.
Qed.

(** What a sending operation may do to the queue: nothing, or one packet that is
    not empty, of at most a connection byte and 2048 bytes, when the session is
    confirmed. *)
Definition enqueued c c' : Prop :=
  sendq c' = sendq c ∨
  (tc_status c = TCP_CLIENT_CONFIRMED ∧
   ∃ it, 1 ≤ zlen (Value it) ≤ 2049 ∧ pq_Put [it] (sendq c) = (true, sendq c')).

(** Keys, nonces, status, buffer and socket are as before. *)
Record quiet c c' : Prop := {
  q_core : core c' = core c;
  q_status : tc_status c' = tc_status c;
  q_out : net_out c' = net_out c;
  q_err : conn_err c' = conn_err c;
  q_crbuf : crbuf c' = crbuf c;
  q_cbs : cbs c' = cbs c;
  q_sendq : enqueued c c'
}.

Lemma quiet_refl c : quiet c c.
Proof. split; [done..|by left]. Qed.

Lemma quiet_emit b e c : quiet c (emit b e c).
Proof. split; [done..|by left]. Qed.

Lemma quiet_set_ping x c : quiet c (set_ping x c).
Proof. split; [done..|by left]. Qed.

Lemma Put_inv it q q' : Put it q = Ret q' → pq_Put [it] q = (true, q').
Proof. unfold Put. destruct (pq_Put [it] q) as [[] q1]; [|done]. by intros [= <-]. Qed.

Lemma BlockPut_inv it q q' : BlockPut it q = Ret q' → pq_Put [it] q = (true, q').
Proof.
  unfold BlockPut. destruct (_ >=? _); [done|].
  destruct (pq_Put [it] q) as [[] q1]; [|done]. by intros [= <-].
Qed.

(** [BlockPut] is what a goroutine does in the steps of SendQueue.v when it runs
    alone, and it waits where they wait. *)
Lemma BlockPut_alone it q todo log :
  let t p := mkThread p todo log in
  match BlockPut it q with
  | Ret q' =>
      advance 32 q (t (Checking [it])) = Some (t (Rechecking [it]), q, false) ∧
      advance 32 q (t (Rechecking [it])) = Some (t (Putting [it]), q, false) ∧
      advance 32 q (t (Putting [it])) = Some (mkThread Idle todo (log ++ [RPut [it] true]), q', false)
  | Fail Waits => advance 32 q (t (Checking [it])) = Some (t (Blocking [it]), q, false)
  | _ => (pq_Put [it] q).1 = false
  end.
Proof.
  unfold BlockPut, advance. cbn [t_pc t_todo t_log]. rewrite Z.geb_leb.
  destruct (Z.leb_spec 32 (pq_Len q)) as [Hl|Hl]; [done|].
  destruct (Z.ltb_spec (pq_Len q) 32); [|lia]. by destruct (pq_Put [it] q) as [[] q'].
Qed.

(** An accepted send puts exactly this packet into the queue. *)
Lemma implSendPacket_inv prior d c c' :
  implSendPacket prior d c = Ret c' →
  ∃ q, c' = set_sendq q c ∧ pq_Put [mkItem (FullData d) prior] (sendq c) = (true, q).
Proof.
  unfold implSendPacket. destruct ((_ <? _) || _); [done|]. intros Hi.
  apply bind_ret_inv in Hi as (q & Hq & Hr). apply (inj Ret) in Hr as <-. exists q. split; [done|].
  destruct (prior =? 0); [by apply Put_inv|by apply BlockPut_inv].
Qed.

Lemma send_guard_inv data c u :
  send_guard data c = Ret u → zlen data ≤ 2048 ∧ tc_status c = TCP_CLIENT_CONFIRMED.
Proof.
  unfold send_guard, isConfirmed. destruct (_ >? _) eqn:E1; [done|].
  destruct (_ =? _) eqn:E2; cbn [negb]; [|done]. zbool. done.
Qed.

Lemma SendCtrlPacket_inv data c c' :
  SendCtrlPacket data c = Ret c' →
  zlen data ≤ 2048 ∧ tc_status c = TCP_CLIENT_CONFIRMED ∧
  ∃ q, c' = set_sendq q c ∧ pq_Put [mkItem data 0] (sendq c) = (true, q).
Proof.
  unfold SendCtrlPacket. intros Hs. apply bind_ret_inv in Hs as (u & Hg & Hi).
  apply send_guard_inv in Hg as [Hl Hst]. split; [done|]. split; [done|].
  apply implSendPacket_inv in Hi as (q & -> & Hq). rewrite FullData_Copy in Hq by done. eauto.
Qed.

Lemma SendDataPacket_inv connid data prior c c' :
  SendDataPacket connid data prior c = Ret c' →
  zlen data ≤ 2048 ∧ tc_status c = TCP_CLIENT_CONFIRMED ∧
  ∃ q, c' = set_sendq q c ∧
    pq_Put [mkItem (zb connid :: data) (if prior then 1 else 2)] (sendq c) = (true, q).
Proof.
  unfold SendDataPacket. intros Hs. apply bind_ret_inv in Hs as (u & Hg & Hi).
  apply send_guard_inv in Hg as [Hl Hst]. split; [done|]. split; [done|].
  apply implSendPacket_inv in Hi as (q & -> & Hq). rewrite FullData_PPU8 in Hq by done. eauto.
Qed.

Lemma quiet_put it q c :
  1 ≤ zlen (Value it) ≤ 2049 → tc_status c = TCP_CLIENT_CONFIRMED →
  pq_Put [it] (sendq c) = (true, q) → quiet c (set_sendq q c).
Proof. intros Hl Hs Hp. split; [done..|]. right. split; [done|]. by exists it. Qed.

Lemma quiet_SendCtrlPacket b data c c' : SendCtrlPacket (b :: data) c = Ret c' → quiet c c'.
Proof.
  intros (Hl & Hs & q & -> & Hq)%SendCtrlPacket_inv. eapply quiet_put; [|done..].
  cbn [Value]. rewrite zlen_cons in *. pose proof (zlen_nonneg data). lia.
Qed.

Lemma quiet_send op c c' : op ≠ OpCtrl [] → send op c = Ret c' → quiet c c'.
Proof.
  intros Hop. destruct op as [pk|i data p|? ?|?|?|?|[|b data]]; cbn [send];
    try apply quiet_SendCtrlPacket.
  - unfold ConnectPeer. destruct (negb _); [done|]. destruct (negb _); [done|].
    intros Hc. apply bind_ret_inv in Hc as (k & _ & Hc). by eapply quiet_SendCtrlPacket.
  - intros (Hl & Hs & q & -> & Hq)%SendDataPacket_inv. eapply quiet_put; [|done..].
    cbn [Value]. rewrite zlen_cons. pose proof (zlen_nonneg data). lia.
  - done.
Qed.

Lemma quiet_printed m c c' :
  (∀ c1, m = Ret c1 → quiet c c1) → printed m c = Ret c' → quiet c c'.
Proof.
  intros Hm. destruct m as [c1| |]; cbn; [|intros [= <-]; apply quiet_refl|done].
  intros [= <-]. by apply Hm.
Qed.

(** Unfold a successful call into its steps. *)
Ltac inv_steps :=
  repeat match goal with
  | E : (_ ≫= _) = Ret _ |- _ => apply bind_ret_inv in E as (? & ? & E)
  | E : Ret _ = Ret _ |- _ => apply (inj Ret) in E; subst
  end.

Lemma quiet_HandlePingRequest p c c' : HandlePingRequest p c = Ret c' → quiet c c'.
Proof.
  unfold HandlePingRequest. intros Hh. inv_steps. eapply quiet_printed; [|done].
  intros c1. apply quiet_SendCtrlPacket.
Qed.

Lemma quiet_HandlePingResponse2 p c c' : HandlePingResponse2 p c = Ret c' → quiet c c'.
Proof.
  unfold HandlePingResponse2. destruct (negb _); [done|]. intros [= <-]. apply quiet_set_ping.
Qed.

Lemma quiet_HandleRoutingResponse p c c' : HandleRoutingResponse p c = Ret c' → quiet c c'.
Proof.
  unfold HandleRoutingResponse. intros Hh. inv_steps.
  destruct (Insert _ _ _); [|done..]. inv_steps. split; [done..|by left].
Qed.

Lemma quiet_dispatch p c c' : dispatch p c = Ret c' → quiet c c'.
Proof.
  unfold dispatch. intros Hd. inv_steps.
  destruct (_ =? _); [by eapply quiet_HandlePingRequest|].
  destruct (_ =? _).
  { eapply quiet_printed; [|done]. intros c1. apply quiet_HandlePingResponse2. }
  destruct (_ =? _); [by eapply quiet_HandleRoutingResponse|].
  unfold HandleConnectionNotification, HandleDisconnectNotification, HandleRoutingData,
    HandleReservedData in Hd.
  repeat (destruct (_ =? _); [inv_steps; apply quiet_emit || apply quiet_refl|]).
  destruct (_ >=? _); [inv_steps; apply quiet_emit|].
  destruct (_ && _); [inv_steps; apply quiet_emit|done].
Qed.

(** Opening a packet and answering it leaves the sending side alone, but for
    the status and the queue. *)
Lemma accept_frame p c c' :
  accept p c = Ret c' →
  core c' = core c ∧ net_out c' = net_out c ∧ conn_err c' = conn_err c ∧
  crbuf c' = crbuf c ∧ cbs c' = cbs c ∧
  (tc_status c = TCP_CLIENT_UNCONFIRMED ∧ tc_status c' = TCP_CLIENT_CONFIRMED ∧
     sendq c' = sendq c ∨
   quiet c c').
Proof.
  unfold accept, isUnconfirmed. destruct (_ =? _) eqn:Es; zbool.
  - unfold HandlePingResponse. intros Hh. inv_steps. do 5 (split; [done|]). by left.
  - intros Hq%quiet_dispatch. pose proof Hq as [? ? ? ? ? ? ?]. do 5 (split; [done|]). by right.
Qed.

Lemma Unpacket_frame e c p c' : Unpacket e c = Ret (p, c') → c' = map_core incr_recv c.
Proof. unfold Unpacket. intros Hu. inv_steps. by simplify_eq. Qed.

Lemma HandleHandshake_sent rd k k' :
  MintoxClient.HandleHandshake rd k = Ret k' → MintoxClient.SentNonce k' = MintoxClient.SentNonce k.
Proof. unfold MintoxClient.HandleHandshake. intros Hh. by inv_steps. Qed.

Lemma take_packet_frame c r c' : take_packet c = Ret (r, c') → ∃ b, c' = set_crbuf b c.
Proof.
  unfold take_packet. destruct (isConnecting c).
  { destruct (ring_read _ _) as [[? ?] b]. intros Ht. inv_steps. simplify_eq. by exists b. }
  destruct (_ || _); [|intros [= <- <-]; exists (crbuf c); by destruct c].
  destruct (Peek 2 (crbuf c)) as [[?|l] b]; [intros [= <- <-]; by exists b|].
  destruct (Peek _ b) as [[?|?] b2]; [intros [= <- <-]; by exists b2|].
  destruct (ring_read _ _) as [[? ?] b3]. intros Ht. inv_steps. simplify_eq. by exists b3.
Qed.

End Frames.

(** ** Packets one by one *)

Section Accept.
Context `{NaclBox} `{Gopp} `{GoppBuffer} `{PfxByteArray} `{MemBuffer}
  `{HPQ : PriorityQueue sendItem}.
Implicit Types c : TCPClient.

(** The client on the plaintexts of packets, in order. *)
Fixpoint accept_all (ps : list bytes) c : outcome cli_err TCPClient :=
  match ps with
  | [] => Ret c
  | p :: ps => c1 ← accept p (map_core incr_recv c); accept_all ps c1
  end.

Definition with_ring (b : PeekableRing) (m : outcome cli_err TCPClient) : outcome cli_err TCPClient :=
  match m with Ret c => Ret (set_crbuf b c) | Fail e => Fail e | Panic => Panic end.

Lemma SendCtrlPacket_ring b d c :
  SendCtrlPacket d (set_crbuf b c) = with_ring b (SendCtrlPacket d c).
Proof.
  unfold SendCtrlPacket, send_guard. cbn. destruct (_ >? _); [done|]. unfold isConfirmed. cbn.
  destruct (negb _); [done|]. unfold implSendPacket. cbn.
  destruct (Put _ _); done.
Qed.

(** Handling a packet does not look at the buffer. *)
Lemma dispatch_ring b p c : dispatch p (set_crbuf b c) = with_ring b (dispatch p c).
Proof.
  unfold dispatch. destruct (index p 0) as [t| |]; [|done..]. cbn [mbind outcome_bind].
  destruct (_ =? _).
  { unfold HandlePingRequest. destruct (slice_from p 1); [|done..]. cbn [mbind outcome_bind].
    rewrite SendCtrlPacket_ring. by destruct (SendCtrlPacket _ c). }
  destruct (_ =? _).
  { unfold HandlePingResponse2. cbn. by destruct (negb _). }
  destruct (_ =? _).
  { unfold HandleRoutingResponse. repeat (case_match; cbn; try done).
    all: repeat match goal with |- context [mbind _ ?m] => destruct m; cbn; try done end.
    all: by destruct (Insert _ _ _). }
  unfold HandleConnectionNotification, HandleDisconnectNotification, HandleRoutingData,
    HandleReservedData.
  do 2 (destruct (_ =? _); [by destruct (index p 1)|]).
  do 2 (destruct (_ =? _); [done|]).
  destruct (_ >=? _); [|destruct (_ && _); [|done]]; (destruct (index p 0); [|done..]); cbn;
    [destruct (RoutingDataFunc _)|destruct (OnReservedData _)]; cbn; done || by destruct (slice_from p 1).
Qed.

Lemma accept_ring b p c :
  accept p (map_core incr_recv (set_crbuf b c)) = with_ring b (accept p (map_core incr_recv c)).
Proof.
  unfold accept, isUnconfirmed. cbn [tc_status set_crbuf map_core set_core].
  destruct (_ =? _); [|apply (dispatch_ring b p (map_core incr_recv c))].
  destruct (index p 0); [|done..]. cbn [mbind outcome_bind]. unfold HandlePingResponse. cbn.
  unfold Assert. by destruct (gopp_assert _).
Qed.

Lemma accept_all_ring b ps c : accept_all ps (set_crbuf b c) = with_ring b (accept_all ps c).
Proof.
  revert c. induction ps as [|p ps IH]; intros c; [done|]. cbn [accept_all].
  rewrite accept_ring. destruct (accept p (map_core incr_recv c)) as [c1| |]; cbn; [apply IH|done..].
Qed.
End Accept.

(** ** The stream the client writes *)

Section Stream.
Context `{NaclBoxLaws} `{GoppLaws} `{GoppBuffer} `{PfxByteArrayLaws} `{MemBuffer}
  `{HPQ : PriorityQueue sendItem} `{!PriorityQueueLaws Compare HPQ}.
Context (hello csn : bytes) (Hcsn : length csn = NonceSize).
Implicit Types c : TCPClient.

(** The queue before the session is confirmed, and the sizes in it. *)
Record queue_ok c : Prop := {
  qk_live : pq_Disposed (sendq c) = true ∨ pq_dups (sendq c) = true;
  qk_sizes : Forall (λ it, 1 ≤ zlen (Value it) ≤ 2049) (pq_items (sendq c));
  qk_early : tc_status c = TCP_CLIENT_CONNECTING ∨ tc_status c = TCP_CLIENT_UNCONFIRMED →
    pq_items (sendq c) = []
}.

(** No write can write anything any more. *)
Definition dead c : Prop := ∃ k, conn_err c = Some k ∧ b_left k = 0%nat.

(** What has been written: the handshake and the packets [ps], the nonces
    counted up from the one of the handshake; a write that failed has written a
    part of the next packet. *)
Record wrote_packets (ps : list bytes) c : Prop := {
  wp_out : net_out c = hello ++ wire (MintoxClient.Shrkey (core c)) csn ps;
  wp_sizes : Forall (λ p, 1 ≤ zlen p ≤ 2049) ps;
  wp_nonce : ¬ dead c →
    MintoxClient.SentNonce (core c) = Nat.iter (length ps) Tcp.incrNonce csn;
  wp_part : ∀ k, conn_err c = Some k → b_part k = [] ∨
    b_left k = 0%nat ∧ ∃ p, 1 ≤ zlen p ≤ 2049 ∧
      b_part k `prefix_of` wire (MintoxClient.Shrkey (core c))
                             (Nat.iter (length ps) Tcp.incrNonce csn) [p];
  wp_start : tc_status c = TCP_CLIENT_CONNECTING →
    ps = [] ∧ MintoxClient.SentNonce (core c) = csn ∧
    ∀ k, conn_err c = Some k → b_part k = []
}.

Definition stream_ok c : Prop := queue_ok c ∧ ∃ ps, wrote_packets ps c.

(** Only the fields the invariant looks at matter. *)
Lemma stream_ok_ext c c' :
  core c' = core c → tc_status c' = tc_status c → sendq c' = sendq c →
  net_out c' = net_out c → conn_err c' = conn_err c → stream_ok c → stream_ok c'.
Proof.
  intros E1 E2 E3 E4 E5 [[Q1 Q2 Q3] (ps & [P1 P2 P3 P5 P4])].
  split; [split; rewrite ?E2, ?E3; done|]. exists ps. split; unfold dead; rewrite ?E1, ?E2, ?E4, ?E5; done.
Qed.

(** Later states: no longer connecting, the same queue or a shorter one. *)
Lemma stream_ok_status x c :
  x ≠ TCP_CLIENT_CONNECTING → x ≠ TCP_CLIENT_UNCONFIRMED ∨ tc_status c = TCP_CLIENT_CONNECTING →
  stream_ok c → stream_ok (setStatus x c).
Proof.
  intros Hx Hx2 [[Q1 Q2 Q3] (ps & [P1 P2 P3 P5 P4])].
  split; [split; cbn; [done|done|]|exists ps; split; cbn; done || (intros; congruence)].
  intros [?|?]; [done|]. destruct Hx2 as [?|Hc]; [done|]. apply Q3. by left.
Qed.

Lemma enqueued_ok c c' :
  tc_status c' = tc_status c → enqueued c c' → queue_ok c → queue_ok c'.
Proof.
  intros Es Hq [Q1 Q2 Q3]. destruct Hq as [E|(Hst & it & Hl & Hp)].
  { split; rewrite ?E, ?Es; done. }
  destruct (pq_Disposed (sendq c)) eqn:Ed.
  { by rewrite (Put_disposed (cmp := Compare)) in Hp. }
  destruct Q1 as [?|Hu]; [done|].
  destruct (Put_live (cmp := Compare) [it] (sendq c) Ed Hu) as (q' & E' & Hi & Hu' & Hd').
  rewrite Hp in E'. injection E' as <-.
  split; [by right| |].
  - rewrite Hi. by constructor.
  - rewrite Es, Hst. intros [?|?]; done.
Qed.

Lemma stream_ok_quiet c c' : quiet c c' → stream_ok c → stream_ok c'.
Proof.
  intros [E1 E2 E3 E4 _ _ E5] [Hq (ps & [P1 P2 P3 P5 P4])].
  split; [by eapply enqueued_ok|]. exists ps. split; unfold dead; rewrite ?E1, ?E2, ?E3, ?E4; done.
Qed.

(** Writing a packet with the next nonce. *)
Lemma wrote_snoc ps p c c' :
  wrote_packets ps c → 1 ≤ zlen p ≤ 2049 → conn_err c = None → tc_status c' ≠ TCP_CLIENT_CONNECTING →
  conn_err c' = None → core c' = incr_sent (core c) →
  net_out c' = net_out c ++ be_bytes 2 (zlen p + 16) ++
    box_seal p (MintoxClient.SentNonce (core c)) (MintoxClient.Shrkey (core c)) →
  wrote_packets (ps ++ [p]) c'.
Proof.
  intros [P1 P2 P3 P5 P4] Hp He Hs He' Hc Ho.
  assert (¬ dead c) as Hd by (intros (k & Hk & _); congruence). specialize (P3 Hd).
  destruct (iter_incrNonce (length ps) csn Hcsn) as [Hl _].
  split.
  - rewrite Ho, P1, Hc, P3, wire_app. cbn [incr_sent MintoxClient.Shrkey wire].
    by rewrite app_nil_r, <- app_assoc.
  - apply Forall_app. split; [done|]. by apply Forall_singleton.
  - intros _. rewrite Hc, length_app, Nat.add_comm. cbn [incr_sent MintoxClient.SentNonce length].
    rewrite P3, Nat.iter_add. change (Nat.iter 1 _ ?x) with (Tcp.incrNonce x).
    by rewrite incrNonce_Incr2le.
  - intros k Hk. congruence.
  - done.
Qed.

(** A write that fails. *)
Lemma wrote_failed ps p k c c' :
  wrote_packets ps c → 1 ≤ zlen p ≤ 2049 → conn_err c = Some k →
  tc_status c' ≠ TCP_CLIENT_CONNECTING →
  MintoxClient.Shrkey (core c') = MintoxClient.Shrkey (core c) → net_out c' = net_out c →
  conn_err c' = Some (mkBroken (b_err k) 0 (b_part k ++ take (b_left k)
    (be_bytes 2 (zlen p + 16) ++
     box_seal p (MintoxClient.SentNonce (core c)) (MintoxClient.Shrkey (core c))))) →
  wrote_packets ps c'.
Proof.
  intros [P1 P2 P3 P5 P4] Hp He Hs Hk Ho He'. split; [by rewrite Ho, P1, Hk|done| | |done].
  - intros Hd. destruct Hd. eexists. by split; [exact He'|].
  - intros k' E. rewrite He' in E. injection E as <-. cbn [b_part b_left]. rewrite Hk.
    destruct (decide (b_left k = 0%nat)) as [Hz|Hz].
    { rewrite Hz, take_0, app_nil_r. destruct (P5 k He) as [?|[_ ?]]; [by left|by right]. }
    right. split; [done|]. exists p. split; [done|].
    destruct (P5 k He) as [->|[? _]]; [|done]. cbn [app wire]. rewrite app_nil_r.
    rewrite P3 by (intros (k1 & E1 & E0); congruence). apply prefix_take.
Qed.

(** The answer to the handshake: the first ping is written. *)
Lemma handle_connecting_ok draw rd c c' :
  tc_status c = TCP_CLIENT_CONNECTING → handle draw rd c = Ret c' → stream_ok c → stream_ok c'.
Proof.
  intros Hs Hh [[Q1 Q2 Q3] (ps & Hw)]. destruct (wp_start _ _ Hw Hs) as (-> & Hn & Hpart).
  unfold handle, isConnecting in Hh. rewrite Hs in Hh. cbn [Z.eqb] in Hh.
  apply bind_ret_inv in Hh as (k & Hk & Hh).
  destruct (MintoxClient.HandleHandshake rd (core c)) as [k'| |] eqn:Ek; [|done..].
  cbn in Hk. apply (inj Ret) in Hk as ->. apply HandleHandshake_sent in Ek.
  unfold CreatePingPacket, MakePingPacket2 in Hh.
  set (ping := _ :: be_bytes 8 _) in Hh.
  assert (zlen ping = 9) as Hlp by (unfold ping, zlen; cbn [length]; by rewrite length_be_bytes).
  rewrite cli_CreatePacket_ok in Hh by (rewrite Hlp; unfold maxBody; lia).
  cbn [mbind outcome_bind set_ping set_core core] in Hh.
  assert (queue_ok c') as Hq.
  { unfold conn_Write in Hh. cbn [conn_err set_ping set_core] in Hh.
    destruct (conn_err c); apply (inj Ret) in Hh as <-; split; cbn; try done;
      intros _; apply Q3; by left. }
  split; [done|]. unfold conn_Write in Hh. cbn [conn_err set_ping set_core] in Hh.
  assert (wrote_packets [] (set_core k c)) as Hw1.
  { split; cbn; try done.
    - by rewrite (wp_out _ _ Hw).
    - by rewrite Ek, Hn.
    - intros b Hb. left. by apply Hpart.
    - by rewrite Ek, Hn. }
  assert (1 ≤ zlen ping ≤ 2049) as Hlp2 by lia.
  destruct (conn_err c) as [e|] eqn:Ee; apply (inj Ret) in Hh as <-.
  - exists []. by eapply (wrote_failed [] ping e (set_core k c)).
  - exists ([] ++ [ping]). by eapply (wrote_snoc [] ping (set_core k c)).
Qed.

Lemma handle_ok draw rd c c' : handle draw rd c = Ret c' → stream_ok c → stream_ok c'.
Proof.
  destruct (decide (tc_status c = TCP_CLIENT_CONNECTING)) as [Hs|Hs];
    [by apply handle_connecting_ok|].
  unfold handle, isConnecting. destruct (_ =? _) eqn:E; zbool; [done|]. clear E.
  destruct (_ || _); [|done]. intros Hh Hok.
  apply bind_ret_inv in Hh as ([p c1] & Hu & Ha). apply Unpacket_frame in Hu as ->.
  assert (stream_ok (map_core incr_recv c)) as Hok1.
  { destruct Hok as [[Q1 Q2 Q3] (ps & [P1 P2 P3 P5 P4])]. split; [by split|]. exists ps. by split. }
  apply accept_frame in Ha as (E1 & E2 & E3 & _ & _ & [(Hs1 & Hs2 & Hq)|Hq]);
    [|by eapply stream_ok_quiet].
  eapply stream_ok_ext with (c := setStatus TCP_CLIENT_CONFIRMED (map_core incr_recv c)); try done.
  apply stream_ok_status; [done|by left|done].
Qed.

Lemma doReadPacket_ok fuel draw c c' :
  doReadPacket fuel draw c = Ret c' → stream_ok c → stream_ok c'.
Proof.
  revert c. induction fuel as [|fuel IH]; intros c Hd Hok; [done|]. cbn [doReadPacket] in Hd.
  apply bind_ret_inv in Hd as ([pkt c1] & Ht & Hd).
  apply take_packet_frame in Ht as (b & ->).
  assert (stream_ok (set_crbuf b c)) as Hok1 by (by apply (stream_ok_ext c)).
  destruct pkt as [rd|]; [|by apply (inj Ret) in Hd as <-].
  apply bind_ret_inv in Hd as (c2 & Hh & Hd). eapply IH; [done|]. by eapply handle_ok.
Qed.

Lemma read_turn_ok draw r c c' go :
  read_turn draw r c = Ret (c', go) → stream_ok c → stream_ok c'.
Proof.
  destruct r as [chunk|e]; cbn [read_turn].
  - destruct (_ <? 1); [by intros [= <- <-]|]. intros Hr Hok.
    apply bind_ret_inv in Hr as (u & _ & Hr).
    destruct (ring_write _ _) as [wn b]. apply bind_ret_inv in Hr as (u2 & _ & Hr).
    apply bind_ret_inv in Hr as (c2 & Hd & Hr). apply (inj Ret) in Hr. injection Hr as <- _.
    eapply doReadPacket_ok; [done|]. by apply (stream_ok_ext c).
  - case_bool_decide; intros [= <- <-]; [|done]. apply stream_ok_status; [done|by left].
Qed.

Lemma cli_write_turn_ok c c' go :
  write_turn c = Ret (Some (c', go)) → stream_ok c → stream_ok c'.
Proof.
  unfold write_turn. intros Hw [[Q1 Q2 Q3] (ps & Hp)].
  destruct (pq_Disposed (sendq c)) eqn:Ed.
  { rewrite (Get_disposed (cmp := Compare) 0 _ Ed) in Hw. apply (inj Ret) in Hw.
    injection Hw as <- _. split; [by split; [left|..]|by exists ps]. }
  destruct Q1 as [?|Hu]; [done|].
  destruct (decide (pq_items (sendq c) = [])) as [Ei|Ei].
  { by rewrite (Get_empty (cmp := Compare) 0 _ Ed Ei) in Hw. }
  destruct (Get_one (cmp := Compare) _ Ed Ei) as (x & q' & Eg & Hi & _ & Hu' & _).
  rewrite Eg in Hw. rewrite Hi in Q2. apply Forall_cons_1 in Q2 as [Hx Q2].
  unfold WritePacket in Hw. rewrite cli_CreatePacket_ok in Hw by (unfold maxBody; lia).
  cbn [mbind outcome_bind] in Hw. unfold conn_Write in Hw. cbn [conn_err set_sendq] in Hw.
  assert (tc_status c ≠ TCP_CLIENT_CONNECTING ∧ tc_status c ≠ TCP_CLIENT_UNCONFIRMED) as [Hn1 Hn2]
    by (split; intros E; apply Ei, Q3; auto).
  destruct (conn_err c) as [e|] eqn:Ee; cbn [mbind outcome_bind] in Hw;
    apply (inj Ret) in Hw; injection Hw as <- _.
  - split; [split; cbn; [right; by rewrite Hu'|done|by intros [?|?]]|].
    exists ps. by eapply (wrote_failed ps (Value x) e c).
  - split; [split; cbn; [right; by rewrite Hu'|done|by intros [?|?]]|].
    exists (ps ++ [Value x]). by eapply wrote_snoc.
Qed.

(** The socket breaks. *)
Lemma break_ok e n c :
  conn_err c = None → stream_ok c →
  stream_ok (set_net (connected c) (Some (mkBroken e n [])) (net_out c) c).
Proof.
  intros E [[Q1 Q2 Q3] (ps & [P1 P2 P3 P5 P4])]. split; [by split|]. exists ps.
  split; cbn; [done|done| | |].
  - intros _. apply P3. intros (k & Hk & _). congruence.
  - intros k [= <-]. by left.
  - intros Hs. destruct (P4 Hs) as (? & ? & _). split_and!; try done. by intros k [= <-].
Qed.

Lemma close_conn_ok c : stream_ok c → stream_ok (close_conn c).
Proof.
  intros Hok. unfold close_conn. destruct (conn_err c) eqn:E; [done|]. by apply break_ok.
Qed.

(** A caller that does not send an empty control packet. *)
Definition sends_something (t : turn) : Prop := t ≠ TSend (OpCtrl []).

Lemma exec_ok t s s' :
  sends_something t → exec t s = Ret s' → stream_ok (cl s) → stream_ok (cl s').
Proof.
  intros Hne. destruct t as [draw r| |draw|op| |e n|]; cbn [exec].
  - destruct (reading s); [|by intros [= <-]]. intros Ht Hok.
    apply bind_ret_inv in Ht as ([c go] & Hr & Ht). apply (inj Ret) in Ht as <-.
    by eapply read_turn_ok.
  - destruct (writing s); [|by intros [= <-]]. intros Ht Hok.
    apply bind_ret_inv in Ht as ([[c [|]]|] & Hw & Ht); apply (inj Ret) in Ht as <-; [| |done].
    + by apply (cli_write_turn_ok _ _ _ Hw).
    + by apply close_conn_ok, (cli_write_turn_ok _ _ _ Hw).
  - destruct (_ && _); [|by intros [= <-]]. unfold MakePingPacket2. intros Ht Hok.
    apply bind_ret_inv in Ht as (c & Hp & Ht). apply (inj Ret) in Ht as <-. cbn [cl].
    eapply stream_ok_quiet; [|by eapply stream_ok_quiet; [apply quiet_set_ping|exact Hok]].
    eapply quiet_printed; [|exact Hp]. intros c1. apply quiet_SendCtrlPacket.
  - intros Ht Hok. apply bind_ret_inv in Ht as (c & Hp & Ht). apply (inj Ret) in Ht as <-.
    eapply stream_ok_quiet; [|exact Hok]. eapply quiet_printed; [|exact Hp].
    intros c1. apply quiet_send. intros ->. by apply Hne.
  - intros [= <-]. by apply close_conn_ok.
  - intros [= <-] Hok. cbn [cl]. destruct (conn_err (cl s)) eqn:E; [done|]. by apply break_ok.
  - destruct (_ && _); [|by intros [= <-]]. intros [= <-] [[Q1 Q2 Q3] (ps & [P1 P2 P3 P5 P4])].
    destruct (Dispose_items (cmp := Compare) (sendq (cl s))) as [Di Dd].
    split; [split; cbn; [by left|by rewrite Di|done]|]. exists ps. by split.
Qed.

Lemma run_turns_ok ts s s' :
  Forall sends_something ts → run_turns ts s = Ret s' → stream_ok (cl s) → stream_ok (cl s').
Proof.
  intros Hts. revert s. induction Hts as [|t ts Ht _ IH]; intros s Hr Hok;
    [by apply (inj Ret) in Hr as <-|].
  cbn [run_turns] in Hr. apply bind_ret_inv in Hr as (s1 & He & Hr).
  eapply IH; [done|]. by eapply exec_ok.
Qed.

End Stream.

(** ** Concrete instances *)

Module ToyClient.

#[export] Instance toy_buffer : GoppBuffer := λ n b, drop n b.
#[export] Instance toy_buffer_laws : GoppBufferLaws toy_buffer.
Proof. by split. Qed.

#[export] Instance toy_pfx : PfxByteArray := {|
  pfx := bytes; pfx_Get := []; pfx_Copy d _ := d; PPU8 c b := zb c :: b; FullData b := b
|}.
#[export] Instance toy_pfx_laws : PfxByteArrayLaws toy_pfx.
Proof. by split. Qed.

#[export] Instance toy_mem : MemBuffer := {|
  membuf := bytes * Z;
  mem_New n := ([], n);
  mem_Len m := zlen (fst m);
  mem_Cap m := snd m;
  mem_Write b m := (zlen b, (fst m ++ b, snd m));
  mem_Read n m :=
    if bool_decide (fst m = []) then ([], Some EOF, m)
    else (take n (fst m), None, (drop n (fst m), snd m))
|}.
#[export, program] Instance toy_mem_laws : MemBufferLaws toy_mem := {| mem_contents := fst |}.
Next Obligation. done. Qed.
Next Obligation. done. Qed.
Next Obligation. cbn. eauto. Qed.
Next Obligation. intros n [l z] Hl. cbn in *. rewrite bool_decide_false by done. eauto. Qed.
Next Obligation. intros n [l z] Hl. cbn in *. by rewrite bool_decide_true. Qed.

Definition all_callbacks : callbacks := mkCallbacks true true true true true true true true.

End ToyClient.

(** ** Properties *)

Section Start.
Context `{NaclBoxLaws} `{GoppLaws} `{GoppBuffer} `{PfxByteArrayLaws} `{MemBuffer}
  `{HPQ : PriorityQueue sendItem} `{!PriorityQueueLaws Compare HPQ}.

(** A key in hexadecimal is read back. *)
Lemma NewCryptoKeyFromHex_ToHex {E} k :
  length k = Mintox.PUBLIC_KEY_SIZE → NewCryptoKeyFromHex (E := E) (ToHex k) = Ret k.
Proof.
  intros Hk. unfold NewCryptoKeyFromHex, ToHex. rewrite hex_DecodeString_upper.
  by rewrite bind_Assert by (by apply bool_decide_true).
Qed.

(** The client as it starts, with the key it shares with the server. *)
Lemma NewTCPClient_ok {E} ssk csk cb :
  length ssk = KeySize → length csk = KeySize →
  NewTCPClient (E := E) (scalar_base ssk) (scalar_base csk) csk cb =
  Ret (mkTCPClient
         (MintoxClient.TCPClient (scalar_base csk) (box_precompute (scalar_base ssk) csk) [] [] [] [])
         TCP_CLIENT_NO_STATUS 0 NewPeekableRing (pq_New 32 true) NewBiMap false None [] cb []).
Proof.
  intros Hs Hc. unfold NewTCPClient, SetKeyPair.
  pose proof (base_length ssk Hs). pose proof (base_length csk Hc).
  rewrite !NewCryptoKeyFromHex_ToHex by done. rewrite !bind_ret.
  rewrite Mintox.CBBeforeNm2_ok by done. rewrite !bind_ret. by rewrite Mintox.CBBeforeNm2_ok.
Qed.

Lemma doinit_ok tsk csn cin c :
  length (MintoxClient.SelfPubkey (core c)) = KeySize → length tsk = KeySize →
  length csn = NonceSize → length cin = NonceSize →
  let k := core c in
  doinit None (scalar_base tsk) tsk csn cin c =
  Ret (mkSys (mkTCPClient
    (MintoxClient.TCPClient (MintoxClient.SelfPubkey k) (MintoxClient.Shrkey k) tsk csn
       (MintoxClient.RecvNonce k) cin)
    TCP_CLIENT_CONNECTING (PingRequestId c) NewPeekableRing (pq_New 32 true) (conns c) true None
    (client_hello (MintoxClient.SelfPubkey k) (MintoxClient.Shrkey k) cin (scalar_base tsk) csn)
    (cbs c) (trace c)) true true false false).
Proof.
  intros Hp Ht Hs Hn k. pose proof (base_length tsk Ht).
  unfold doinit, connect, SendHandshake.
  cbn [core set_net set_sendq set_crbuf setStatus]. rewrite GenerateHandshake_eq by done. done.
Qed.

End Start.

(** C3: Whatever the goroutines and the callers of a relay client do, and in
    whatever order, as long as no caller sends an empty control packet (the
    server takes the first byte of every packet and panics on it): the bytes
    the client's successful writes have written are its handshake followed by
    packets sealed with the session key under consecutive nonces, one nonce for
    each packet, and a write that failed has added at most a part of one further
    packet under the next nonce.  The relay server of this repository, when it
    has come to the same session key and is fed with those packets in any chunks
    of at most 3000 bytes of which the first holds at least the whole handshake,
    hands on exactly those packets in order. *)
Theorem client_stream_served `{NaclBoxLaws} `{GoppLaws} `{GoppBuffer} `{PfxByteArrayLaws}
    `{MemBuffer} `{HPQ : PriorityQueue sendItem} `{!PriorityQueueLaws Compare HPQ} `{RingLaws}
    cb ssk csk tsk stsk csn cin ssn stn c0 s0 ts s :
  length ssk = KeySize → length csk = KeySize → length tsk = KeySize → length stsk = KeySize →
  length csn = NonceSize → length cin = NonceSize →
  NewTCPClient (E := cli_err) (scalar_base ssk) (scalar_base csk) csk cb = Ret c0 →
  doinit None (scalar_base tsk) tsk csn cin c0 = Ret s0 →
  Forall sends_something ts → run_turns ts s0 = Ret s →
  let shr := box_precompute (scalar_base ssk) csk in
  let hello := client_hello (scalar_base csk) shr cin (scalar_base tsk) csn in
  let key := MintoxClient.Shrkey (core (cl s)) in
  ∃ ps, net_out (cl s) = hello ++ wire key csn ps ∧
    (∀ k, conn_err (cl s) = Some k → b_part k = [] ∨ ∃ p,
       b_part k `prefix_of` wire key (Nat.iter (length ps) Tcp.incrNonce csn) [p]) ∧
    (conn_err (cl s) = None →
     MintoxClient.SentNonce (core (cl s)) = Nat.iter (length ps) Tcp.incrNonce csn) ∧
    (key = box_precompute (scalar_base stsk) tsk → ∀ chunk chunks,
     concat (chunk :: chunks) = net_out (cl s) → (length hello ≤ length chunk)%nat →
     Forall (λ k, zlen k ≤ 3000) (chunk :: chunks) →
     ∃ sc, runReadLoop ssk ssn stn (scalar_base stsk) stsk (chunk :: chunks) new_conn = Ret sc ∧
       out sc = OReply (stn ++ box_seal (scalar_base stsk ++ ssn) stn shr) :: events UNCONFIRMED ps ∧
       contents (TcpServerConn.crbuf sc) = []).
Proof.
  intros Hs Hc Ht Hst Hcsn Hcin Hnew Hinit Hts Hrun shr hello key.
  pose proof (base_length csk Hc) as Lc.
  rewrite NewTCPClient_ok in Hnew by done. apply (inj Ret) in Hnew as <-.
  rewrite doinit_ok in Hinit by done. apply (inj Ret) in Hinit as <-.
  assert (stream_ok hello csn (cl s)) as [_ (ps & [P1 P2 P3 P5 _])].
  { eapply run_turns_ok; [done|done|exact Hrun|].
    destruct (New_items (cmp := Compare) 32 true) as (Ni & Nu & _).
    split; [split; cbn; [by right|by rewrite Ni|done]|].
    exists []. split; cbn; [by rewrite app_nil_r|done..]. }
  exists ps. split; [done|].
  split; [intros k Hk; destruct (P5 k Hk) as [?|(_ & p & _ & ?)]; [by left|right; by exists p]|].
  split; [intros He; apply P3; intros (k & Ek & _); congruence|]. intros Hk chunk chunks Hcat Hlen Hsz.
  rewrite P1 in Hcat. fold key in Hcat. rewrite Hk in Hcat.
  destruct (server_reads_stream ssk csk tsk csn cin ssn stn stsk ps chunk chunks)
    as (sc & E & O & _ & Wb & _); try done.
  { eapply Forall_impl; [|exact P2]. unfold maxBody. cbn. lia. }
  by exists sc.
Qed.

Module Scenario.
Import ToyBox ToyClient ListQueue ListRing.

Definition ssk : bytes := replicate 32 x01.
Definition csk : bytes := replicate 32 x02.
Definition tsk : bytes := replicate 32 x03.
Definition stsk : bytes := replicate 32 x08.
Definition csn : bytes := replicate 24 x04.
Definition cin : bytes := replicate 24 x05.
Definition ssn : bytes := replicate 24 x06.
Definition stn : bytes := replicate 24 x07.
Definition shr : bytes := box_precompute (scalar_base ssk) csk.
Definition key : bytes := box_precompute (scalar_base stsk) tsk.

Definition get {A} (d : A) (m : outcome cli_err A) : A := match m with Ret a => a | _ => d end.

Definition blank : TCPClient :=
  mkTCPClient (MintoxClient.TCPClient [] [] [] [] [] []) 0 0 NewPeekableRing (pq_New 32 true)
    NewBiMap false None [] all_callbacks [].
Definition no_sys : sys := mkSys blank false false false true.

Definition created : TCPClient :=
  get blank (NewTCPClient (scalar_base ssk) (scalar_base csk) csk all_callbacks).
Definition started : sys := get no_sys (doinit None (scalar_base tsk) tsk csn cin created).

(** The server's handshake and what it sends after it. *)
Definition reply : bytes := stn ++ box_seal (scalar_base stsk ++ ssn) stn shr.
Definition pong (id : Z) : bytes := zb TCP_PACKET_PONG :: be_bytes 8 id.

Definition session : list turn :=
  [TRead 7 (RData (reply ++ take 5 (wire key ssn [pong 7])));
   TRead 0 (RData (drop 5 (wire key ssn [pong 7])));
   TSend (OpData 16 (str "hi") true); TPing 9; TWrite;
   TSend (OpConnectPeer (ToHex (replicate 32 x0b))); TWrite; TWrite].

Definition ended : sys := get no_sys (run_turns session started).

End Scenario.
Import ToyBox ToyClient ListQueue ListRing Scenario.

Lemma client_stream_served_witness :
  tc_status (cl ended) = TCP_CLIENT_CONFIRMED ∧ length (net_out (cl ended)) = 254%nat ∧
  ∃ ps sc,
    net_out (cl ended) =
      client_hello (scalar_base csk) shr cin (scalar_base tsk) csn ++ wire key csn ps ∧
    runReadLoop ssk ssn stn (scalar_base stsk) stsk [net_out (cl ended)] new_conn = Ret sc ∧
    out sc = OReply reply :: events UNCONFIRMED ps.
Proof.
  split; [vm_compute; reflexivity|]. split; [vm_compute; reflexivity|].
  destruct (client_stream_served all_callbacks ssk csk tsk stsk csn cin ssn stn created started
    session ended) as (ps & E1 & _ & _ & E3);
    [vm_compute; reflexivity..|repeat constructor; done|vm_compute; reflexivity|].
  destruct (E3 ltac:(vm_compute; reflexivity) (net_out (cl ended)) []) as (sc & Er & Eo & _).
  - apply app_nil_r.
  - vm_compute. lia.
  - repeat constructor. vm_compute. discriminate.
  - exists ps, sc. split; [exact E1|]. split; [exact Er|exact Eo].
Defined.
