(* ===== verification/MintoxTcpRead.v ===== *)
(** * Reading of the relay client (mintox/tcp_client.go, [doReadConn])

    The read loop of MintoxTcpClient.v against the handling of packets one by
    one: on a server's stream it does what [accept_all] does with the
    plaintexts, in any chunking; which plaintexts end the program; and a packet
    that is longer than the read buffer stalls the client. *)

From S2P Require Import Prelude Nonce GoIO GoText Box TcpPacket TcpHandshake BiMap TcpServer TcpServerConn SendQueue PeekRing MintoxTcpClient.
Local Open Scope Z_scope.

#[local] Opaque Tcp.incrNonce Nonce.Mintox.Incr2 Nonce.Mintox.Incr2le defaultBufSize.

Section Read.
Context `{NaclBoxLaws} `{GoppLaws} `{GoppBuffer} `{PfxByteArrayLaws} `{MemBufferLaws}
  `{HPQ : PriorityQueue sendItem}.
Implicit Types (c : TCPClient) (b : PeekableRing).

Abbreviation Shr c := (MintoxClient.Shrkey (core c)).
Abbreviation Rn c := (MintoxClient.RecvNonce (core c)).

(** The session is open: packets are expected. *)
Definition in_session c : Prop :=
  tc_status c = TCP_CLIENT_UNCONFIRMED ∨ tc_status c = TCP_CLIENT_CONFIRMED.

Lemma in_session_flags c :
  in_session c → isConnecting c = false ∧ isUnconfirmed c || isConfirmed c = true.
Proof. intros [E|E]; unfold isConnecting, isUnconfirmed, isConfirmed; by rewrite E. Qed.

(** The longest plaintext the client can read: header, seal and text fit into
    the buffer of [bufio]. *)
Definition maxRead : Z := 4078.

Lemma bufsize : defaultBufSize = Z.to_nat 4096.
Proof. Transparent defaultBufSize. reflexivity. Opaque defaultBufSize. Qed.

(** ** Taking a packet out of the buffer *)

Lemma take_packet_short c :
  in_session c → ring_ok (crbuf c) → (length (unread (crbuf c)) < 2)%nat →
  ∃ b, take_packet c = Ret (None, set_crbuf b c) ∧ same_bytes (crbuf c) b ∧ ring_ok b.
Proof.
  intros Hs Hb Hl. destruct (in_session_flags c Hs) as [E1 E2]. unfold take_packet.
  rewrite E1, E2. destruct (Peek_spec 2 _ Hb) as (b & Hsb & Hok & Hp); [rewrite bufsize; lia|].
  rewrite decide_False in Hp by lia. rewrite Hp. by exists b.
Qed.

Lemma take_packet_wire c (p rest : bytes) :
  in_session c → ring_ok (crbuf c) → 1 ≤ zlen p ≤ maxRead →
  unread (crbuf c) = be_bytes 2 (zlen p + 16) ++ rest →
  (zlen rest < zlen p + 16 ∧
   ∃ b, take_packet c = Ret (None, set_crbuf b c) ∧ same_bytes (crbuf c) b ∧ ring_ok b) ∨
  (zlen p + 16 ≤ zlen rest ∧
   ∃ b, take_packet c =
       Ret (Some (be_bytes 2 (zlen p + 16) ++ take (Z.to_nat (zlen p + 16)) rest), set_crbuf b c) ∧
     ring_ok b ∧ unread b = drop (Z.to_nat (zlen p + 16)) rest ∧
     mem_Cap (buf_ b) = mem_Cap (buf_ (crbuf c))).
Proof.
  intros Hs Hb Hp Hu. unfold maxRead in Hp.
  destruct (in_session_flags c Hs) as [E1 E2]. unfold take_packet. rewrite E1, E2.
  destruct (Peek_spec 2 _ Hb) as (b & Hsb & Hok & Hp2); [rewrite bufsize; lia|].
  rewrite decide_True in Hp2 by (rewrite Hu, length_app, length_be_bytes; lia).
  destruct Hp2 as [-> Hl2]. rewrite Hu, take_app_exact by apply length_be_bytes.
  rewrite be_val_be_bytes, Z.mod_small by lia.
  set (m := Z.to_nat (zlen p + 16)).
  destruct (Peek_spec (2 + m) b Hok) as (b2 & Hsb2 & Hok2 & Hp3).
  { rewrite bufsize. unfold m. lia. }
  rewrite (sb_unread _ _ Hsb), Hu in Hp3. rewrite length_app, length_be_bytes in Hp3.
  case_decide as Hd.
  - right. destruct Hp3 as [-> Hl3]. split; [unfold zlen at 2; lia|].
    destruct (ring_read_buffered (2 + m) b2 Hok2) as (b3 & -> & Hok3 & Hu3 & Hc3); [lia|].
    rewrite (sb_unread _ _ Hsb2), (sb_unread _ _ Hsb), Hu in *.
    assert (take (2 + m) (be_bytes 2 (zlen p + 16) ++ rest) =
      be_bytes 2 (zlen p + 16) ++ take m rest) as Et.
    { rewrite take_app_ge by (rewrite length_be_bytes; lia). do 2 f_equal.
      rewrite length_be_bytes. lia. }
    rewrite Et, bind_Assert.
    2:{ apply bool_decide_true. rewrite length_app, length_be_bytes, length_take. lia. }
    exists b3. split; [done|]. split; [done|]. split.
    + rewrite Hu3, drop_app_ge by (rewrite length_be_bytes; lia). f_equal.
      rewrite length_be_bytes. lia.
    + rewrite Hc3, (sb_cap _ _ Hsb2). apply Hsb.
  - left. rewrite Hp3. split; [unfold zlen at 1; lia|]. exists b2.
    split; [done|]. split; [|done]. by eapply same_bytes_trans.
Qed.

(** An authentic packet is opened with the expected nonce and accepted. *)
Lemma cli_handle_sealed draw p c :
  in_session c →
  handle draw (be_bytes 2 (zlen p + 16) ++ box_seal p (Rn c) (Shr c)) c =
  accept p (map_core incr_recv c).
Proof.
  intros Hs. destruct (in_session_flags c Hs) as [E1 E2]. unfold handle. rewrite E1, E2.
  unfold Unpacket. rewrite slice_from_app by apply length_be_bytes.
  cbn [mbind outcome_bind].
  by rewrite (Mintox.DecryptDataSymmetric2_ok _ _ _ _ (open_seal _ _ _)).
Qed.

Lemma accept_in_session p c c' :
  in_session c → accept p (map_core incr_recv c) = Ret c' →
  in_session c' ∧ core c' = incr_recv (core c) ∧ crbuf c' = crbuf c ∧ cbs c' = cbs c.
Proof.
  intros Hs Ha. apply accept_frame in Ha as (E1 & _ & _ & E2 & E3 & Hst).
  split; [|done]. destruct Hst as [(_ & Hst & _)|Hq]; [by right|].
  unfold in_session. by rewrite (q_status _ _ Hq).
Qed.

(** ** Draining the buffer *)

(** The packets of [ps] are what is left of the stream: the buffer and the
    bytes [future] still to come. *)
Record waiting c (future : bytes) (ps : list bytes) : Prop := {
  wt_session : in_session c;
  wt_ring : ring_ok (crbuf c);
  wt_cap : mem_Cap (buf_ (crbuf c)) = 1024 * 1024;
  wt_bytes : unread (crbuf c) ++ future = wire (Shr c) (Rn c) ps;
  wt_sizes : Forall (λ p, 1 ≤ zlen p ≤ maxRead) ps;
  wt_nonce : length (Rn c) = Tcp.NonceSize
}.

(** [m] is the client after the packets of [ps1], with another buffer in which
    the rest waits. *)
Definition drains_to c (future : bytes) (ps1 ps2 : list bytes) (m : outcome cli_err TCPClient)
    : Prop :=
  match accept_all ps1 c with
  | Ret c1 => ∃ b, m = Ret (set_crbuf b c1) ∧ waiting (set_crbuf b c1) future ps2 ∧
      (future = [] → ps2 = []) ∧ zlen (unread b) ≤ 4096
  | Fail e => m = Fail e
  | Panic => m = Panic
  end.

Definition drained c (future : bytes) (ps : list bytes) (m : outcome cli_err TCPClient) : Prop :=
  ∃ ps1 ps2, ps = ps1 ++ ps2 ∧ drains_to c future ps1 ps2 m.

Lemma cli_drained_stop fuel draw c future ps b :
  waiting c future ps → take_packet c = Ret (None, set_crbuf b c) →
  same_bytes (crbuf c) b → ring_ok b → (future = [] → ps = []) → zlen (unread b) ≤ 4096 →
  drained c future ps (doReadPacket (S fuel) draw c).
Proof.
  intros [W1 W2 W3 W4 W5 W6] Ht Hsb Hok Hf Hl. exists [], ps. split; [done|].
  unfold drains_to. cbn [accept_all]. exists b. split.
  { cbn [doReadPacket]. by rewrite Ht. }
  split; [|done]. split; cbn; try done.
  - by rewrite (sb_cap _ _ Hsb).
  - by rewrite (sb_unread _ _ Hsb).
Qed.

(** A packet has been taken out: the rest follows. *)
Lemma drained_cons fuel draw c b p future ps :
  let c0 := set_crbuf b c in
  in_session c →
  take_packet c = Ret (Some (be_bytes 2 (zlen p + 16) ++ box_seal p (Rn c) (Shr c)), c0) →
  (∀ c1, accept p (map_core incr_recv c) = Ret c1 →
     drained (set_crbuf b c1) future ps (doReadPacket fuel draw (set_crbuf b c1))) →
  drained c future (p :: ps) (doReadPacket (S fuel) draw c).
Proof.
  intros c0 Hs Ht IH. cbn [doReadPacket]. rewrite Ht. cbn [mbind outcome_bind].
  change (handle draw _ c0) with
    (handle draw (be_bytes 2 (zlen p + 16) ++ box_seal p (Rn c0) (Shr c0)) c0).
  rewrite cli_handle_sealed by done. unfold c0. rewrite accept_ring.
  destruct (accept p (map_core incr_recv c)) as [c1|e|] eqn:Ea; cbn [with_ring mbind outcome_bind].
  - destruct (IH c1 eq_refl) as (ps1 & ps2 & -> & Hd). exists (p :: ps1), ps2. split; [done|].
    unfold drains_to in *. cbn [accept_all]. rewrite Ea. cbn [mbind outcome_bind].
    rewrite accept_all_ring in Hd. by destruct (accept_all ps1 c1).
  - exists [p], ps. split; [done|]. unfold drains_to. cbn [accept_all]. by rewrite Ea.
  - exists [p], ps. split; [done|]. unfold drains_to. cbn [accept_all]. by rewrite Ea.
Qed.

Lemma cli_doReadPacket_drains fuel draw c future ps :
  waiting c future ps → (length (unread (crbuf c)) < fuel)%nat →
  drained c future ps (doReadPacket fuel draw c).
Proof.
  revert c ps. induction fuel as [|fuel IH]; intros c ps Hw Hf; [lia|].
  pose proof Hw as [W1 W2 W3 W4 W5 W6].
  destruct (Nat.lt_ge_cases (length (unread (crbuf c))) 2) as [Hl|Hl].
  { destruct (take_packet_short c W1 W2 Hl) as (b & Ht & Hsb & Hok).
    eapply cli_drained_stop; try done.
    - intros ->. rewrite app_nil_r in W4. apply (wire_short (Shr c) (Rn c)). by rewrite <- W4.
    - rewrite (sb_unread _ _ Hsb). unfold zlen. lia. }
  destruct ps as [|p ps].
  { apply (f_equal length) in W4. rewrite length_app in W4. cbn in W4. lia. }
  apply Forall_cons_1 in W5 as [Hp Hps]. cbn [wire] in W4.
  destruct (app_split _ _ _ _ W4) as (rest & Hu & Hr); [by rewrite length_be_bytes|].
  pose proof (zlen_seal p (Rn c) (Shr c)) as Hls.
  destruct (take_packet_wire c p rest W1 W2 Hp Hu)
    as [(Hlt & b & Ht & Hsb & Hok)|(Hge & b & Ht & Hok & Hub & Hcap)].
  - eapply cli_drained_stop; try done.
    + intros ->. rewrite app_nil_r in Hr. rewrite Hr, zlen_app, Hls in Hlt.
      pose proof (zlen_nonneg (wire (Shr c) (Tcp.incrNonce (Rn c)) ps)). lia.
    + rewrite (sb_unread _ _ Hsb), Hu, zlen_app. unfold maxRead in Hp.
      unfold zlen at 1. rewrite length_be_bytes. lia.
  - destruct (app_split _ _ _ _ Hr) as (rest' & -> & Hr'); [unfold zlen in *; lia|].
    rewrite take_app_exact in Ht by (unfold zlen in *; lia).
    rewrite drop_app_exact in Hub by (unfold zlen in *; lia).
    eapply drained_cons; [done|done|]. intros c1 Ha.
    destruct (accept_in_session p c c1 W1 Ha) as (Hs1 & Hc1 & Hb1 & _).
    apply IH.
    + split; cbn; try done; rewrite ?Hc1; cbn [incr_recv MintoxClient.Shrkey MintoxClient.RecvNonce].
      * congruence.
      * rewrite Hub, Hr'. by rewrite incrNonce_Incr2le.
      * pose proof (length_incrNonce (Rn c) W6) as Hn. by rewrite incrNonce_Incr2le in Hn.
    + cbn. rewrite Hub. rewrite Hu, !length_app in Hf. unfold zlen in *. lia.
Qed.

(** ** Chunks *)

Lemma emit_false e c : emit false e c = c.
Proof. by destruct c. Qed.

Lemma zlen_unread b : zlen (unread b) = ring_len b.
Proof. unfold unread, ring_len. by rewrite zlen_app, mem_Len_contents. Qed.

(** A chunk that fits goes to [doReadPacket]. *)
Lemma read_turn_eq draw chunk c :
  OnNetRecv (cbs c) = false → 1 ≤ zlen chunk ≤ 3000 → zlen (unread (crbuf c)) ≤ 4096 →
  mem_Cap (buf_ (crbuf c)) = 1024 * 1024 →
  ∃ b, unread b = unread (crbuf c) ++ chunk ∧ rd_buf b = rd_buf (crbuf c) ∧
    rd_err b = rd_err (crbuf c) ∧ mem_Cap (buf_ b) = 1024 * 1024 ∧
    read_turn draw (RData chunk) c =
      (c2 ← doReadPacket (S (length (unread b))) draw (set_crbuf b c); Ret (c2, true)).
Proof.
  intros Hcb Hc Hu Hcap.
  destruct (ring_write_fits chunk (crbuf c)) as (b & Ew & Hub & Hrd & Hre & Hcb').
  { unfold unread in Hu. rewrite zlen_app in Hu.
    pose proof (zlen_nonneg (rd_buf (crbuf c))). lia. }
  exists b. split; [done|]. split; [done|]. split; [done|]. split; [congruence|].
  cbn [read_turn]. destruct (zlen chunk <? 1) eqn:E; zbool; [lia|].
  rewrite Hcb, emit_false, bind_Assert.
  2:{ apply Z.leb_le. rewrite <- zlen_unread. unfold ring_cap. rewrite Hcap. lia. }
  rewrite Ew, bind_Assert by (by apply Z.eqb_eq). rewrite <- zlen_unread. unfold zlen.
  by rewrite Nat2Z.id.
Qed.

Lemma accept_all_app ps1 ps2 c : accept_all (ps1 ++ ps2) c = (accept_all ps1 c ≫= accept_all ps2).
Proof.
  revert c. induction ps1 as [|p ps1 IH]; intros c; [done|]. cbn [app accept_all].
  destruct (accept p (map_core incr_recv c)); cbn [mbind outcome_bind]; [apply IH|done..].
Qed.

Lemma accept_all_cbs ps c c' : accept_all ps c = Ret c' → cbs c' = cbs c.
Proof.
  revert c. induction ps as [|p ps IH]; intros c Ha; [by apply (inj Ret) in Ha as <-|].
  cbn [accept_all] in Ha. apply bind_ret_inv in Ha as (c1 & Hp & Ha).
  apply accept_frame in Hp as (_ & _ & _ & _ & Hcb & _). rewrite (IH _ Ha). by rewrite Hcb.
Qed.

(** [m] is [r] with some empty buffer. *)
Definition same_result (r m : outcome cli_err TCPClient) : Prop :=
  match r with
  | Ret c => ∃ b, m = Ret (set_crbuf b c) ∧ unread b = []
  | Fail e => m = Fail e
  | Panic => m = Panic
  end.

Lemma doReadConn_drains draw chunks : ∀ c ps,
  waiting c (concat chunks) ps → zlen (unread (crbuf c)) ≤ 4096 →
  (concat chunks = [] → ps = []) → Forall (λ k, 1 ≤ zlen k ≤ 3000) chunks →
  OnNetRecv (cbs c) = false →
  same_result (accept_all ps c) (doReadConn draw (map RData chunks) c).
Proof.
  induction chunks as [|k chunks IH]; intros c ps Hw Hu He Hk Hcb.
  { rewrite (He eq_refl) in *. cbn. exists (crbuf c). split; [by destruct c|].
    pose proof (wt_bytes _ _ _ Hw) as Hb. by apply app_eq_nil in Hb as [? _]. }
  apply Forall_cons_1 in Hk as [Hk Hks]. pose proof Hw as [W1 W2 W3 W4 W5 W6].
  destruct (read_turn_eq draw k c Hcb Hk Hu W3) as (b & Hub & Hrd & Hre & Hcap & Er).
  cbn [map doReadConn]. rewrite Er.
  assert (waiting (set_crbuf b c) (concat chunks) ps) as W.
  { split; cbn; try done.
    - destruct W2. split; congruence.
    - by rewrite Hub, <- app_assoc. }
  destruct (cli_doReadPacket_drains (S (length (unread b))) draw _ _ ps W) as (ps1 & ps2 & -> & Hd);
    [cbn; lia|].
  unfold drains_to in Hd. rewrite accept_all_ring in Hd. rewrite accept_all_app.
  destruct (accept_all ps1 c) as [c1|e|] eqn:Ea; cbn [with_ring] in Hd;
    [|by rewrite Hd|by rewrite Hd].
  destruct Hd as (b1 & -> & W' & Hf & Hl). cbn [mbind outcome_bind].
  change (set_crbuf b1 (set_crbuf b c1)) with (set_crbuf b1 c1) in *.
  assert (OnNetRecv (cbs (set_crbuf b1 c1)) = false) as Hcb1
    by (cbn; by rewrite (accept_all_cbs _ _ _ Ea)).
  pose proof (IH (set_crbuf b1 c1) ps2 W' Hl Hf Hks Hcb1) as IH'.
  rewrite accept_all_ring in IH'. unfold same_result in *. by destruct (accept_all ps2 c1).
Qed.

(** The answer to the handshake does not depend on the buffer either. *)
Lemma handle_connecting_ring draw rd b c :
  isConnecting c = true → handle draw rd (set_crbuf b c) = with_ring b (handle draw rd c).
Proof.
  intros Hc. unfold handle. rewrite Hc.
  assert (isConnecting (set_crbuf b c) = true) as -> by done. cbn [core set_crbuf].
  destruct (map_err _ _) as [k| |]; [|done..]. cbn [mbind outcome_bind].
  unfold CreatePingPacket, CreatePacket. cbn.
  destruct (ErrPrint _); [|done..]. cbn. unfold conn_Write. cbn. by destruct (conn_err c).
Qed.

(** The first chunk, with the answer to the handshake at its beginning. *)
Lemma read_turn_reply draw reply rest c c1 :
  tc_status c = TCP_CLIENT_CONNECTING → ring_ok (crbuf c) → rd_buf (crbuf c) = [] →
  unread (crbuf c) = [] → mem_Cap (buf_ (crbuf c)) = 1024 * 1024 →
  OnNetRecv (cbs c) = false → length reply = 96%nat → zlen (reply ++ rest) ≤ 3000 →
  handle draw reply c = Ret c1 →
  ∃ b, unread b = rest ∧ ring_ok b ∧ mem_Cap (buf_ b) = 1024 * 1024 ∧
    read_turn draw (RData (reply ++ rest)) c =
      (c2 ← doReadPacket (length (reply ++ rest)) draw (set_crbuf b c1); Ret (c2, true)).
Proof.
  intros Hs Hok Hrd Hu Hcap Hcb Hr Hl Hh.
  destruct (read_turn_eq draw (reply ++ rest) c Hcb) as (b & Hub & Hrd' & Hre & Hcap' & ->);
    [rewrite zlen_app in *; unfold zlen in *; lia|rewrite Hu; unfold zlen; cbn; lia|done|].
  rewrite Hu in Hub. cbn [app] in Hub.
  assert (isConnecting c = true) as Hc by (unfold isConnecting; by rewrite Hs).
  destruct (ring_read_direct 96 b) as (b2 & e & Er & Hok2 & Hu2 & Hcap2).
  { split; [rewrite Hrd', Hrd; cbn; lia|by rewrite Hre; apply Hok]. }
  { congruence. }
  { rewrite bufsize. lia. }
  { rewrite Hub, bufsize. unfold zlen in Hl. lia. }
  rewrite Hub, take_app_exact in Er by done. rewrite Hub, drop_app_exact in Hu2 by done.
  exists b2. split; [done|]. split; [done|]. split; [congruence|].
  rewrite Hub. cbn [doReadPacket]. unfold take_packet.
  assert (isConnecting (set_crbuf b c) = true) as -> by done. cbn [crbuf set_crbuf].
  change (Mintox.NONCE_SIZE + _)%nat with 96%nat. rewrite Er, bind_Assert by (by apply bool_decide_true).
  cbn [mbind outcome_bind]. change (set_crbuf b2 (set_crbuf b c)) with (set_crbuf b2 c).
  rewrite handle_connecting_ring by done. rewrite Hh. done.
Qed.

(** ** A packet longer than the buffer *)

Definition peekable b : Prop :=
  (length (rd_buf b) ≤ defaultBufSize)%nat ∧
  (rd_err b = None ∨ rd_err b = Some EOF ∧ (2 ≤ length (rd_buf b))%nat).

(** The next packet announces more than the buffer can hold. *)
Definition too_long (l : bytes) : Prop := (2 ≤ length l)%nat ∧ 4094 < be_val (take 2 l).

Lemma take_packet_too_long c :
  in_session c → peekable (crbuf c) → too_long (unread (crbuf c)) →
  ∃ b, take_packet c = Ret (None, set_crbuf b c) ∧ same_bytes (crbuf c) b ∧ peekable b.
Proof.
  intros Hs [Hsz He] [Hl Hv].
  destruct (in_session_flags c Hs) as [E1 E2]. unfold take_packet. rewrite E1, E2.
  assert (∃ b1, Peek 2 (crbuf c) = (inr (take 2 (unread (crbuf c))), b1) ∧
    same_bytes (crbuf c) b1 ∧ (2 ≤ length (rd_buf b1))%nat ∧
    (rd_err b1 = None ∨ rd_err b1 = Some EOF)) as (b1 & -> & Hsb & Hl1 & He1).
  { destruct He as [He|[He Hb]].
    - destruct (Peek_spec 2 (crbuf c)) as (b1 & Hsb & Hok & Hp); [by split|rewrite bufsize; lia|].
      rewrite decide_True in Hp by done. destruct Hp as [-> Hl1]. exists b1.
      split; [done|]. split; [done|]. split; [done|]. left. apply Hok.
    - exists (crbuf c). rewrite Peek_buffered by lia. unfold unread at 1.
      rewrite take_app_le by done. split; [done|]. split; [by apply same_bytes_refl|]. auto. }
  destruct (Peek_too_long (2 + Z.to_nat (be_val (take 2 (unread (crbuf c))))) b1)
    as (b2 & -> & Hsb2 & He2 & Hl2); [apply Hsb|done|rewrite bufsize; lia|].
  exists b2. split; [done|]. split; [by eapply same_bytes_trans|]. split; [apply Hsb2|].
  destruct He2; [by left|right; split; [done|lia]].
Qed.

Lemma take_app_too_long l k : too_long l → too_long (l ++ k).
Proof. intros [Hl Hv]. split; [rewrite length_app; lia|]. by rewrite take_app_le. Qed.

Lemma doReadConn_stalls draw chunks : ∀ c,
  in_session c → peekable (crbuf c) → too_long (unread (crbuf c)) →
  mem_Cap (buf_ (crbuf c)) = 1024 * 1024 → OnNetRecv (cbs c) = false →
  Forall (λ k, 1 ≤ zlen k) chunks →
  zlen (unread (crbuf c)) + zlen (concat chunks) ≤ 1024 * 1024 →
  ∃ b, doReadConn draw (map RData chunks) c = Ret (set_crbuf b c) ∧
    unread b = unread (crbuf c) ++ concat chunks.
Proof.
  induction chunks as [|k chunks IH]; intros c Hs Hp Ht Hcap Hcb Hk Hl.
  { exists (crbuf c). cbn. rewrite app_nil_r. by destruct c. }
  apply Forall_cons_1 in Hk as [Hk Hks]. cbn [concat] in Hl. rewrite zlen_app in Hl.
  pose proof (zlen_nonneg (concat chunks)).
  destruct (ring_write_fits k (crbuf c)) as (b & Ew & Hub & Hrd & Hre & Hcb').
  { unfold unread in Hl. rewrite zlen_app in Hl.
    pose proof (zlen_nonneg (rd_buf (crbuf c))). lia. }
  destruct (take_packet_too_long (set_crbuf b c)) as (b1 & Et & Hsb & Hp1).
  { done. }
  { unfold peekable in *. cbn. by rewrite Hrd, Hre. }
  { cbn. rewrite Hub. by apply take_app_too_long. }
  cbn [crbuf set_crbuf] in Hsb.
  destruct (IH (set_crbuf b1 c)) as (b2 & E2 & Hu2); try done.
  { cbn. rewrite (sb_unread _ _ Hsb), Hub. by apply take_app_too_long. }
  { cbn. rewrite (sb_cap _ _ Hsb). congruence. }
  { cbn. rewrite (sb_unread _ _ Hsb), Hub, zlen_app. lia. }
  exists b2. split.
  - cbn [map doReadConn read_turn]. destruct (zlen k <? 1) eqn:E; zbool; [lia|].
    rewrite Hcb, emit_false, bind_Assert.
    2:{ apply Z.leb_le. rewrite <- zlen_unread. unfold ring_cap. rewrite Hcap. lia. }
    rewrite Ew, bind_Assert by (by apply Z.eqb_eq). cbn [doReadPacket]. rewrite Et.
    cbn [mbind outcome_bind]. exact E2.
  - rewrite Hu2. cbn. by rewrite (sb_unread _ _ Hsb), Hub, <- app_assoc.
Qed.

(** ** Reading ends *)

(** The turns given were enough. *)
Definition ends {X} (m : outcome cli_err X) : Prop := m ≠ Fail OutOfTurns.

Lemma ends_bind {X Y} (m : outcome cli_err X) (f : X → outcome cli_err Y) :
  ends m → (∀ a, m = Ret a → ends (f a)) → ends (m ≫= f).
Proof.
  intros Hm Hf. destruct m as [a|e|]; cbn [mbind outcome_bind]; [by apply Hf| |done].
  intros [= ->]. by apply Hm.
Qed.

Lemma ends_Assert x : ends (Assert x).
Proof. unfold Assert. by destruct (gopp_assert x). Qed.
Lemma ends_index l i : ends (index l i).
Proof. unfold index. by destruct (l !! i). Qed.
Lemma ends_slice l i j : ends (slice l i j).
Proof. unfold slice. by destruct (bool_decide _). Qed.
Lemma ends_slice_from l i : ends (slice_from l i).
Proof. unfold slice_from. by destruct (bool_decide _). Qed.
Lemma ends_ErrPrint {X} (m : outcome X bytes) : ends (ErrPrint m).
Proof. by destruct m. Qed.
Lemma ends_map_err {X Y} (f : Y → cli_err) (m : outcome Y X) : (∀ e, f e ≠ OutOfTurns) → ends (map_err f m).
Proof. intros Hf. destruct m; cbn; [done| |done]. intros [= E1]. by eapply Hf. Qed.
Lemma ends_printed m c : ends (printed m c).
Proof. by destruct m. Qed.
Lemma ends_NewCryptoKey l : ends (Mintox.NewCryptoKey l).
Proof. unfold Mintox.NewCryptoKey. apply ends_bind; [apply ends_Assert|done]. Qed.

Create HintDb ends.
#[local] Hint Resolve ends_Assert ends_index ends_slice ends_slice_from ends_ErrPrint ends_printed
  ends_NewCryptoKey : ends.

Lemma ends_CreatePacket p c : ends (CreatePacket p c).
Proof. unfold CreatePacket. apply ends_bind; [auto with ends|done]. Qed.

Lemma ends_dispatch p c : ends (dispatch p c).
Proof.
  unfold dispatch. apply ends_bind; [auto with ends|]. intros t _.
  destruct (_ =? _); [unfold HandlePingRequest; apply ends_bind; auto with ends|].
  destruct (_ =? _); [auto with ends|].
  destruct (_ =? _).
  { unfold HandleRoutingResponse. do 5 (apply ends_bind; [auto with ends|]; intros ? _).
    by destruct (Insert _ _ _). }
  destruct (_ =? _); [unfold HandleConnectionNotification; apply ends_bind; auto with ends; done|].
  destruct (_ =? _); [unfold HandleDisconnectNotification; apply ends_bind; auto with ends; done|].
  destruct (_ =? _); [done|]. destruct (_ =? _); [done|].
  destruct (_ >=? _).
  { unfold HandleRoutingData. apply ends_bind; [auto with ends|]. intros ? _.
    apply ends_bind; [destruct (RoutingDataFunc _); auto with ends; done|done]. }
  destruct (_ && _); [|done]. unfold HandleReservedData. apply ends_bind; [auto with ends|]. intros ? _.
  apply ends_bind; [destruct (OnReservedData _); auto with ends; done|done].
Qed.

Lemma ends_handle draw rd c : ends (handle draw rd c).
Proof.
  unfold handle. destruct (isConnecting c).
  { apply ends_bind; [by apply ends_map_err|]. intros k _. apply ends_bind.
    - unfold CreatePingPacket. destruct (MakePingPacket2 _ _). apply ends_bind; [apply ends_CreatePacket|done].
    - intros [pkt c1] _. by destruct (conn_Write pkt c1). }
  destruct (_ || _); [|done]. apply ends_bind.
  - unfold Unpacket. apply ends_bind; [auto with ends|]. intros ? _. apply ends_bind; [auto with ends|done].
  - intros [pl c1] _. unfold accept. destruct (isUnconfirmed c1); [|apply ends_dispatch].
    apply ends_bind; [auto with ends|]. intros ? _. apply ends_bind; [|done].
    unfold HandlePingResponse. apply ends_bind; [auto with ends|done].
Qed.

(** A handled packet leaves the buffer alone. *)
Lemma handle_crbuf draw rd c c' : handle draw rd c = Ret c' → crbuf c' = crbuf c.
Proof.
  unfold handle. destruct (isConnecting c).
  { intros Hh. apply bind_ret_inv in Hh as (k & _ & Hh). apply bind_ret_inv in Hh as ([pkt c1] & Hc & Hh).
    unfold CreatePingPacket in Hc. cbn in Hc. apply bind_ret_inv in Hc as (e & _ & Hc).
    apply (inj Ret) in Hc. injection Hc as <- <-. unfold conn_Write in Hh. cbn [conn_err set_ping set_core] in Hh.
    destruct (conn_err c); by apply (inj Ret) in Hh as <-. }
  destruct (_ || _); [|done]. intros Hh. apply bind_ret_inv in Hh as ([pl c1] & Hu & Hh).
  unfold Unpacket in Hu. apply bind_ret_inv in Hu as (e & _ & Hu). apply bind_ret_inv in Hu as (x & _ & Hu).
  apply (inj Ret) in Hu. injection Hu as <- <-. by apply accept_frame in Hh as (_ & _ & _ & -> & _).
Qed.

(** Unless the loop stops or the program ends, a turn takes a byte at least. *)
Lemma take_packet_takes c r c1 :
  ring_inv (crbuf c) → take_packet c = Ret (r, c1) →
  ring_inv (crbuf c1) ∧
  match r with
  | None => True
  | Some rd => (length (unread (crbuf c1)) < length (unread (crbuf c)))%nat ∨
      ∀ draw, handle draw rd c1 = Panic
  end.
Proof.
  intros Hi. unfold take_packet.
  assert (0 < defaultBufSize)%nat as Hd by (rewrite bufsize; lia).
  destruct (isConnecting c) eqn:Ec.
  { destruct (ring_read _ (crbuf c)) as [[rd e] b] eqn:Er. intros Ht.
    apply bind_ret_inv in Ht as (u & Ha & Ht). apply (inj Ret) in Ht. injection Ht as <- <-.
    apply ring_read_keeps in Er as [Hb Hu]; [|done|cbn; lia|done]. split; [done|]. left. cbn [crbuf set_crbuf].
    rewrite Hu, length_app. unfold Assert in Ha.
    destruct (bool_decide (length rd = _)) eqn:El; [|by rewrite assert_fail in Ha].
    apply bool_decide_eq_true in El. rewrite El. cbn. lia. }
  destruct (_ || _) eqn:Es; cycle 1.
  { intros [= <- <-]. split; [done|]. right. intros draw. unfold handle. by rewrite Ec, Es. }
  destruct (Peek 2 (crbuf c)) as [r1 b1] eqn:E1. apply Peek_keeps in E1 as [I1 U1]; [|done].
  destruct r1 as [x|hdr]; [intros [= <- <-]; split; [exact I1|done]|].
  destruct (Peek _ b1) as [r2 b2] eqn:E2. apply Peek_keeps in E2 as [I2 U2]; [|done].
  destruct r2 as [x|?]; [intros [= <- <-]; split; [exact I2|done]|].
  destruct (ring_read _ b2) as [[rd e] b3] eqn:Er. intros Ht.
  apply bind_ret_inv in Ht as (u & Ha & Ht). apply (inj Ret) in Ht. injection Ht as <- <-.
  apply ring_read_keeps in Er as [Hb Hu]; [|done|lia|done]. split; [done|]. left. cbn [crbuf set_crbuf].
  rewrite <- U1, <- U2, Hu, length_app. unfold Assert in Ha.
  destruct (bool_decide (length rd = _)) eqn:El; [|by rewrite assert_fail in Ha].
  apply bool_decide_eq_true in El. rewrite El. lia.
Qed.

Lemma ends_take_packet c : ends (take_packet c).
Proof.
  unfold take_packet. destruct (isConnecting c).
  { destruct (ring_read _ _) as [[rd e] b]. apply ends_bind; [auto with ends|done]. }
  destruct (_ || _); [|done]. destruct (Peek 2 _) as [[x|hdr] b1]; [done|].
  destruct (Peek _ b1) as [[x|?] b2]; [done|]. destruct (ring_read _ b2) as [[rd e] b3].
  apply ends_bind; [auto with ends|done].
Qed.

Lemma cli_doReadPacket_ends fuel draw c :
  ring_inv (crbuf c) → (length (unread (crbuf c)) < fuel)%nat →
  ends (doReadPacket fuel draw c) ∧
  ∀ c', doReadPacket fuel draw c = Ret c' → ring_inv (crbuf c').
Proof.
  revert c. induction fuel as [|fuel IH]; intros c Hi Hf; [lia|]. cbn [doReadPacket].
  pose proof (ends_take_packet c) as Ht. destruct (take_packet c) as [[r c1]|e|] eqn:E;
    cbn [mbind outcome_bind]; [|split; [intros [= ->]; by apply Ht|done]|done].
  apply take_packet_takes in E as [Hi1 Hr]; [|done].
  destruct r as [rd|]; [|split; [done|by intros c' [= <-]]].
  pose proof (ends_handle draw rd c1) as Hh.
  destruct (handle draw rd c1) as [c2|e|] eqn:Eh; cbn [mbind outcome_bind];
    [|split; [intros [= ->]; by apply Hh|done]|done].
  destruct Hr as [Hr|Hr]; [|by rewrite Hr in Eh]. apply handle_crbuf in Eh.
  apply IH; rewrite Eh; [done|lia].
Qed.

Lemma read_turn_ends draw r c :
  ring_inv (crbuf c) →
  ends (read_turn draw r c) ∧ ∀ c' go, read_turn draw r c = Ret (c', go) → ring_inv (crbuf c').
Proof.
  intros Hi. destruct r as [chunk|e]; cbn [read_turn].
  2:{ split; [done|]. intros c' go [= <- _]. by destruct (bool_decide _). }
  destruct (_ <? _); [split; [done|by intros c' go [= <- _]]|].
  destruct (Assert _) as [u|x|] eqn:Ea; cbn [mbind outcome_bind];
    [|split; [intros [= ->]; by eapply ends_Assert|done]|done].
  cbn [crbuf emit]. destruct (ring_write chunk (crbuf c)) as [wn b] eqn:Ew.
  apply ring_write_keeps in Ew; [|done].
  destruct (Assert (wn =? _)) as [u'|x|] eqn:Ea'; cbn [mbind outcome_bind];
    [|split; [intros [= ->]; by eapply ends_Assert|done]|done].
  destruct (cli_doReadPacket_ends (S (Z.to_nat (ring_len b))) draw
    (set_crbuf b (emit (OnNetRecv (cbs c)) (EvNetRecv (zlen chunk)) c))) as [He Hr];
    [done|cbn [crbuf set_crbuf]; rewrite <- zlen_unread; unfold zlen; lia|].
  split.
  - apply ends_bind; [exact He|done].
  - intros c' go Hc. apply bind_ret_inv in Hc as (c2 & H2' & Hc). apply (inj Ret) in Hc.
    injection Hc as <- _. by apply Hr.
Qed.

(** The other goroutines do not touch the buffer. *)
Lemma send_crbuf op c c' : send op c = Ret c' → crbuf c' = crbuf c.
Proof.
  assert (∀ d, SendCtrlPacket d c = Ret c' → crbuf c' = crbuf c) as Hc
    by (intros d (_ & _ & q & -> & _)%SendCtrlPacket_inv; done).
  destruct op; cbn [send]; try apply Hc.
  - unfold ConnectPeer. destruct (negb _); [done|]. destruct (negb _); [done|].
    intros Hp. apply bind_ret_inv in Hp as (k & _ & Hp). by eapply Hc.
  - by intros (_ & _ & q & -> & _)%SendDataPacket_inv.
Qed.

Lemma printed_crbuf m c c' :
  (∀ c1, m = Ret c1 → crbuf c1 = crbuf c) → printed m c = Ret c' → crbuf c' = crbuf c.
Proof.
  intros Hm. destruct m as [c1| |]; cbn; [|by intros [= <-]|done]. intros [= <-]. by apply Hm.
Qed.

Lemma write_turn_ends c :
  ends (write_turn c) ∧ ∀ c' go, write_turn c = Ret (Some (c', go)) → crbuf c' = crbuf c.
Proof.
  unfold write_turn. destruct (pq_Get 1 (sendq c)) as [[|it l] q| |]; [done| |by split; [|intros c' go [= <- _]]|done].
  split.
  - apply ends_bind; [|by intros [[x|wn] c1] _].
    unfold WritePacket. apply ends_bind; [apply ends_CreatePacket|]. intros pkt _.
    destruct (conn_Write pkt _) as [[x|wn] c1]; done.
  - intros c' go Hw. apply bind_ret_inv in Hw as ([r c1] & Hp & Hw).
    assert (crbuf c1 = crbuf c) as E1.
    { unfold WritePacket in Hp. apply bind_ret_inv in Hp as (pkt & _ & Hp). unfold conn_Write in Hp.
      cbn [conn_err set_sendq] in Hp. destruct (conn_err c); apply (inj Ret) in Hp; by injection Hp as _ <-. }
    destruct r; apply (inj Ret) in Hw; by injection Hw as <- _.
Qed.

Lemma exec_ends t s :
  ring_inv (crbuf (cl s)) → ends (exec t s) ∧ ∀ s', exec t s = Ret s' → ring_inv (crbuf (cl s')).
Proof.
  intros Hi. destruct t as [draw r| |draw|op| |e|]; cbn [exec].
  - destruct (reading s); [|by split; [|intros s' [= <-]]].
    destruct (read_turn_ends draw r (cl s) Hi) as [He Hr].
    split; [apply ends_bind; [done|by intros [c go] _]|].
    intros s' Hs. apply bind_ret_inv in Hs as ([c go] & Ht & Hs). apply (inj Ret) in Hs as <-. by eapply Hr.
  - destruct (writing s); [|by split; [|intros s' [= <-]]].
    destruct (write_turn_ends (cl s)) as [He Hr].
    split; [apply ends_bind; [done|by intros [[c []]|] _]|].
    intros s' Hs. apply bind_ret_inv in Hs as ([[c go]|] & Ht & Hs); [|by apply (inj Ret) in Hs as <-].
    apply Hr in Ht. destruct go; apply (inj Ret) in Hs as <-; cbn [cl].
    + by rewrite Ht.
    + unfold close_conn. destruct (conn_err c); cbn; by rewrite Ht.
  - destruct (_ && _); [|by split; [|intros s' [= <-]]]. cbn [MakePingPacket2].
    split; [apply ends_bind; [apply ends_printed|done]|].
    intros s' Hs. apply bind_ret_inv in Hs as (c & Hp & Hs). apply (inj Ret) in Hs as <-. cbn [cl].
    apply printed_crbuf in Hp; [by rewrite Hp|]. intros c1. apply (send_crbuf (OpCtrl _)).
  - split; [apply ends_bind; [apply ends_printed|done]|].
    intros s' Hs. apply bind_ret_inv in Hs as (c & Hp & Hs). apply (inj Ret) in Hs as <-. cbn [cl].
    apply printed_crbuf in Hp; [by rewrite Hp|]. intros c1. apply send_crbuf.
  - split; [done|]. intros s' [= <-]. cbn. unfold close_conn. by destruct (conn_err (cl s)).
  - split; [done|]. intros s' [= <-]. cbn. by destruct (conn_err (cl s)).
  - destruct (_ && _); split; try done; by intros s' [= <-].
Qed.

Lemma run_turns_ends ts : ∀ s, ring_inv (crbuf (cl s)) → ends (run_turns ts s).
Proof.
  induction ts as [|t ts IH]; intros s Hi; [done|]. cbn [run_turns].
  destruct (exec_ends t s Hi) as [He Hr]. apply ends_bind; [done|]. intros s' Hs. by apply IH, Hr.
Qed.

End Read.

(** ** Properties *)

(** C22: Reading ends: whatever a server sends and in whatever pieces, and
    whatever the other goroutines and the callers do meanwhile, the loop that
    takes packets out of the buffer of a client that was started comes to an
    end after at most one turn per buffered byte and one more, in every turn of
    every run. *)
Theorem client_read_ends `{NaclBoxLaws} `{GoppLaws} `{GoppBuffer} `{PfxByteArrayLaws}
    `{MemBufferLaws} `{HPQ : PriorityQueue sendItem} dial tpk tsk sn tn c s ts :
  crbuf c = NewPeekableRing → doinit dial tpk tsk sn tn c = Ret s →
  run_turns ts s ≠ Fail OutOfTurns.
Proof.
  intros Hc Hs. apply run_turns_ends.
  assert (crbuf (cl s) = NewPeekableRing) as ->.
  { unfold doinit in Hs. destruct dial as [e|]; cbn [connect] in Hs.
    - by apply (inj Ret) in Hs as <-.
    - apply bind_ret_inv in Hs as ([r c2] & Hh & Hs). apply (inj Ret) in Hs as <-. cbn [cl].
      unfold SendHandshake in Hh. apply bind_ret_inv in Hh as ([pkt k] & _ & Hh).
      apply (inj Ret) in Hh. unfold conn_Write in Hh. cbn in Hh. by injection Hh as _ <-. }
  split; [cbn; lia|by left].
Qed.

(** C5: A client that waits for the server's answer to its handshake and then
    receives it, with the packets the server sealed after it, in chunks of at
    most 3000 bytes of which the first holds the answer, ends exactly as if it
    had been handed the plaintexts one by one, in order: the same state with an
    empty buffer, or the same crash. *)
Theorem client_reads_server `{NaclBoxLaws} `{GoppLaws} `{GoppBuffer} `{PfxByteArrayLaws}
    `{MemBufferLaws} `{HPQ : PriorityQueue sendItem} draw c c1 reply ps chunk chunks :
  tc_status c = TCP_CLIENT_CONNECTING → crbuf c = NewPeekableRing → OnNetRecv (cbs c) = false →
  length reply = 96%nat → handle draw reply c = Ret c1 →
  length (MintoxClient.RecvNonce (core c1)) = NonceSize →
  Forall (λ p, 1 ≤ zlen p ≤ maxRead) ps →
  concat (chunk :: chunks) = reply ++
    wire (MintoxClient.Shrkey (core c1)) (MintoxClient.RecvNonce (core c1)) ps →
  (96 ≤ length chunk)%nat → Forall (λ k, 1 ≤ zlen k ≤ 3000) (chunk :: chunks) →
  same_result (accept_all ps c1) (doReadConn draw (map RData (chunk :: chunks)) c).
Proof.
  intros Hs Hr Hcb Hl Hh Hn Hps Hcat Hch Hk. cbn [concat] in Hcat.
  destruct (app_split _ _ _ _ Hcat) as (rest & -> & Hrest); [by rewrite Hl|].
  apply Forall_cons_1 in Hk as [Hk Hks].
  destruct (mem_New_contents (1024 * 1024)) as [Nc Ncap].
  destruct (read_turn_reply draw reply rest c c1) as (b & Hub & Hok & Hcap & Er);
    rewrite ?Hr; try done; [by split; cbn; [lia|]|lia|].
  assert (in_session c1 ∧ cbs c1 = cbs c) as [Hs1 Hcb1].
  { unfold handle, isConnecting in Hh. rewrite Hs in Hh. cbn [Z.eqb] in Hh.
    apply bind_ret_inv in Hh as (k & _ & Hh). apply bind_ret_inv in Hh as ([pkt c2] & Hp & Hh).
    unfold CreatePingPacket, MakePingPacket2 in Hp. apply bind_ret_inv in Hp as (e & _ & Hp).
    apply (inj Ret) in Hp. injection Hp as _ <-. unfold conn_Write in Hh.
    cbn [conn_err set_ping set_core] in Hh.
    destruct (conn_err c); apply (inj Ret) in Hh as <-; (split; [by left|done]). }
  assert (waiting (set_crbuf b c1) (concat chunks) ps) as W.
  { split; cbn; try done. by rewrite Hub. }
  cbn [map doReadConn]. rewrite Er.
  destruct (cli_doReadPacket_drains (length (reply ++ rest)) draw _ _ ps W) as (ps1 & ps2 & -> & Hd).
  { cbn. rewrite Hub, length_app. lia. }
  unfold drains_to in Hd. rewrite accept_all_ring in Hd. rewrite accept_all_app.
  destruct (accept_all ps1 c1) as [c2|e|] eqn:Ea; cbn [with_ring] in Hd;
    [|by rewrite Hd|by rewrite Hd].
  destruct Hd as (b1 & -> & W' & Hf & Hl1). cbn [mbind outcome_bind].
  change (set_crbuf b1 (set_crbuf b c2)) with (set_crbuf b1 c2) in *.
  pose proof (doReadConn_drains draw chunks (set_crbuf b1 c2) ps2 W' Hl1 Hf Hks) as Hd.
  rewrite accept_all_ring in Hd. unfold same_result in *.
  destruct (accept_all ps2 c2); apply Hd; cbn; by rewrite (accept_all_cbs _ _ _ Ea), Hcb1.
Qed.

(** ** Crashes *)

(** The plaintexts that end the program of a confirmed client. *)
Definition crashing (p : bytes) : bool :=
  match p with
  | [] => true
  | b :: _ =>
      let t := bz b in
      (t =? TCP_PACKET_ROUTING_REQUEST) || (t =? TCP_PACKET_OOB_SEND) ||
      (t =? TCP_PACKET_ONION_REQUEST) ||
      ((t =? TCP_PACKET_ROUTING_RESPONSE) && (zlen p <? 34)) ||
      (((t =? TCP_PACKET_CONNECTION_NOTIFICATION) || (t =? TCP_PACKET_DISCONNECT_NOTIFICATION))
       && (zlen p <? 2))
  end.

Section Crash.
Context `{NaclBoxLaws} `{GoppLaws} `{GoppBuffer} `{PfxByteArrayLaws} `{MemBuffer}
  `{HPQ : PriorityQueue sendItem}.
Implicit Types c : TCPClient.

Lemma printed_ret c d : ∃ c', printed (SendCtrlPacket d c) c = Ret c'.
Proof.
  destruct (SendCtrlPacket d c) as [c1| |] eqn:E; cbn; eauto.
  unfold SendCtrlPacket, send_guard in E. destruct (_ >? _); [done|]. destruct (negb _); [done|].
  cbn in E. unfold implSendPacket in E. cbn in E. unfold Put in E.
  by destruct (pq_Put _ _) as [[] ?].
Qed.

Lemma HandleRoutingResponse_result b p c :
  bz b = TCP_PACKET_ROUTING_RESPONSE → open (conns c) →
  if zlen (b :: p) <? 34 then HandleRoutingResponse (b :: p) c = Panic
  else ∃ c', HandleRoutingResponse (b :: p) c = Ret c'.
Proof.
  intros Hb Ho. unfold HandleRoutingResponse. cbn [index lookup list_lookup mbind outcome_bind].
  rewrite bind_Assert by (by rewrite Hb). rewrite zlen_cons.
  destruct p as [|x p]; [done|]. unfold index. cbn [lookup list_lookup mbind outcome_bind].
  unfold slice. change (2 + Mintox.PUBLIC_KEY_SIZE)%nat with 34%nat.
  destruct (1 + zlen (x :: p) <? 34) eqn:E; zbool; unfold zlen in E; cbn [length] in E.
  - rewrite bool_decide_false by (cbn [length]; lia). done.
  - rewrite bool_decide_true by (cbn [length]; lia). cbn [mbind outcome_bind].
    rewrite Mintox.NewCryptoKey_ok.
    2:{ rewrite length_take, length_drop. cbn [length]. unfold Mintox.PUBLIC_KEY_SIZE. lia. }
    cbn [mbind outcome_bind]. unfold Insert. rewrite guarded_open by done. eauto.
Qed.

Lemma notification_result (p : bytes) (f : Z → TCPClient → TCPClient) c :
  (1 ≤ length p)%nat →
  if zlen p <? 2 then (x ← index p 1; Ret (f (bz x) c) : outcome cli_err TCPClient) = Panic
  else ∃ c', (x ← index p 1; Ret (f (bz x) c) : outcome cli_err TCPClient) = Ret c'.
Proof.
  intros Hl. destruct p as [|a [|x p]]; [cbn in Hl; lia|done|].
  destruct (_ <? _) eqn:E; zbool; [rewrite !zlen_cons in E; pose proof (zlen_nonneg p); lia|].
  cbn. eauto.
Qed.

End Crash.

(** A packet ends the program of a confirmed client exactly when it is
    empty, of one of the types only clients send (0, 6 and 8), a routing
    response of less than 34 bytes, or a connection notification without its
    connection number; every other packet is handled and returns. *)
Theorem crashing_packets `{NaclBoxLaws} `{GoppLaws} `{GoppBuffer} `{PfxByteArrayLaws}
    `{MemBuffer} `{HPQ : PriorityQueue sendItem} p c :
  open (conns c) →
  if crashing p then dispatch p c = Panic else ∃ c', dispatch p c = Ret c'.
Proof.
  intros Ho. destruct p as [|b p]; [done|]. unfold dispatch, crashing.
  cbn [index lookup list_lookup mbind outcome_bind].
  destruct (decide (bz b = TCP_PACKET_PING)) as [E|N1].
  { rewrite E. unfold HandlePingRequest. cbn. apply printed_ret. }
  destruct (decide (bz b = TCP_PACKET_PONG)) as [E|N2].
  { rewrite E. cbn. unfold HandlePingResponse2. destruct (negb _); cbn; eauto. }
  destruct (decide (bz b = TCP_PACKET_ROUTING_RESPONSE)) as [E|N3].
  { pose proof (HandleRoutingResponse_result b p c E Ho) as Hr. rewrite E. cbn.
    rewrite orb_false_r. exact Hr. }
  destruct (decide (bz b = TCP_PACKET_CONNECTION_NOTIFICATION)) as [E|N4].
  { rewrite E. cbn. unfold HandleConnectionNotification.
    apply (notification_result (b :: p)
      (λ x c, emit (RoutingStatusFunc (cbs c)) (EvRoutingStatus 0 x 2) c)). cbn. lia. }
  destruct (decide (bz b = TCP_PACKET_DISCONNECT_NOTIFICATION)) as [E|N5].
  { rewrite E. cbn. unfold HandleDisconnectNotification.
    apply (notification_result (b :: p)
      (λ x c, emit (RoutingStatusFunc (cbs c)) (EvRoutingStatus 0 x 1) c)). cbn. lia. }
  pose proof (bz_range b).
  unfold TCP_PACKET_PING, TCP_PACKET_PONG, TCP_PACKET_ROUTING_RESPONSE,
    TCP_PACKET_CONNECTION_NOTIFICATION, TCP_PACKET_DISCONNECT_NOTIFICATION,
    TCP_PACKET_ROUTING_REQUEST, TCP_PACKET_OOB_SEND, TCP_PACKET_OOB_RECV, TCP_PACKET_ONION_REQUEST,
    TCP_PACKET_ONION_RESPONSE, NUM_RESERVED_PORTS in *.
  repeat match goal with
  | |- context [?a =? ?x] => destruct (Z.eqb_spec a x); try lia; cbn [orb andb]; eauto
  end.
  all: rewrite Z.geb_leb, Z.gtb_ltb.
  all: repeat match goal with
  | |- context [?a <=? ?x] => destruct (Z.leb_spec a x); try lia; cbn [orb andb]; eauto
  | |- context [?a <? ?x] => destruct (Z.ltb_spec a x); try lia; cbn [orb andb]; eauto
  end.
  - unfold HandleRoutingData. cbn. destruct (RoutingDataFunc (cbs c)); cbn; eauto.
  - unfold HandleReservedData. cbn. destruct (OnReservedData (cbs c)); cbn; eauto.
Qed.

(** A packet that announces more than 4094 bytes stalls a client: however
    much the server sends after its length, up to the megabyte the buffer
    holds, no packet is handled any more and the bytes pile up. *)
Theorem oversized_packet_stalls `{NaclBoxLaws} `{GoppLaws} `{GoppBuffer} `{PfxByteArrayLaws}
    `{MemBufferLaws} `{HPQ : PriorityQueue sendItem} draw c chunks :
  in_session c → peekable (crbuf c) → too_long (unread (crbuf c)) →
  mem_Cap (buf_ (crbuf c)) = 1024 * 1024 → OnNetRecv (cbs c) = false →
  Forall (λ k, 1 ≤ zlen k) chunks →
  zlen (unread (crbuf c)) + zlen (concat chunks) ≤ 1024 * 1024 →
  ∃ b, doReadConn draw (map RData chunks) c = Ret (set_crbuf b c) ∧
    unread b = unread (crbuf c) ++ concat chunks.
Proof. apply doReadConn_stalls. Qed.

(** ** Sending *)

(** A data packet is refused when it is longer than 2048 bytes, before the
    session is confirmed and after the queue is disposed of, each with its own
    error and no effect; it waits while 32 packets are queued; otherwise the
    queue has one packet more, the data behind the byte of the connection, with
    priority 1 or 2.  A control packet goes in front of them with priority 0 and
    does not wait. *)
Theorem send_outcomes `{NaclBoxLaws} `{GoppLaws} `{GoppBuffer} `{PfxByteArrayLaws}
    `{MemBuffer} `{HPQ : PriorityQueue sendItem} `{!PriorityQueueLaws Compare HPQ}
    connid data prior c :
  pq_dups (sendq c) = true →
  let queued it m := ∃ q, m = Ret (set_sendq q c) ∧ pq_items q ≡ₚ it :: pq_items (sendq c) in
  let dat := SendDataPacket connid data prior c in
  let ctl := SendCtrlPacket data c in
  if zlen data >? 2048 then dat = Fail (ErrTooLong (zlen data)) ∧ ctl = Fail (ErrTooLong (zlen data))
  else if negb (tc_status c =? TCP_CLIENT_CONFIRMED) then
    dat = Fail (ErrStatus (tcpstname (tc_status c))) ∧ ctl = Fail (ErrStatus (tcpstname (tc_status c)))
  else if pq_Disposed (sendq c) then
    ctl = Fail ErrQueueDisposed ∧ (pq_items (sendq c) = [] → dat = Fail ErrQueueDisposed)
  else
    queued (mkItem data 0) ctl ∧
    if 32 <=? zlen (pq_items (sendq c)) then dat = Fail Waits
    else queued (mkItem (zb connid :: data) (if prior then 1 else 2)) dat.
Proof.
  intros Hu queued dat ctl. subst dat ctl. unfold SendDataPacket, SendCtrlPacket, send_guard.
  destruct (zlen data >? 2048) eqn:El; [done|]. unfold isConfirmed.
  destruct (negb _); [done|]. cbn [mbind outcome_bind]. zbool.
  unfold implSendPacket, Put, BlockPut.
  rewrite FullData_Copy, FullData_PPU8 by done. rewrite (Len_items (cmp := Compare)).
  set (n := if prior then 1 else 2).
  assert (((n <? 0) || (n >? 2)) = false ∧ (n =? 0) = false) as [-> ->] by (by destruct prior).
  cbn [Z.ltb Z.gtb Z.eqb orb Z.compare].
  destruct (pq_Disposed (sendq c)) eqn:Ed.
  - rewrite !(Put_disposed (cmp := Compare)) by done. split; [done|]. by intros ->.
  - destruct (Put_live (cmp := Compare) [mkItem data 0] _ Ed Hu) as (q & -> & Hq & _).
    split; [by exists q|]. rewrite Z.geb_leb. destruct (32 <=? _); [done|].
    destruct (Put_live (cmp := Compare) [mkItem (zb connid :: data) n] _ Ed Hu)
      as (q' & -> & Hq' & _). by exists q'.
Qed.

(** ** After the end of the stream *)

(** The reader has seen the end of the stream, nothing is queued. *)
Record hung `{MemBuffer} `{HPQ : PriorityQueue sendItem} `{!PriorityQueueLaws Compare HPQ}
    (s : sys) : Prop := {
  h_reading : reading s = false;
  h_writing : writing s = true;
  h_finished : finished s = false;
  h_status : tc_status (cl s) = TCP_CLIENT_DISCONNECTED;
  h_live : pq_Disposed (sendq (cl s)) = false;
  h_empty : pq_items (sendq (cl s)) = []
}.

Section Hung.
Context `{NaclBoxLaws} `{GoppLaws} `{GoppBuffer} `{PfxByteArrayLaws} `{MemBuffer}
  `{HPQ : PriorityQueue sendItem} `{!PriorityQueueLaws Compare HPQ}.

Lemma refused op c :
  tc_status c = TCP_CLIENT_DISCONNECTED → ∃ e, send op c = Fail e.
Proof.
  intros Hs. assert (∀ d, ∃ e, SendCtrlPacket d c = Fail e) as Hc.
  { intros d. unfold SendCtrlPacket, send_guard, isConfirmed. rewrite Hs.
    destruct (_ >? _); cbn; eauto. }
  destruct op; cbn [send]; try apply Hc.
  - unfold ConnectPeer, isConfirmed. rewrite Hs. destruct (negb (connected c)); cbn; eauto.
  - unfold SendDataPacket, send_guard, isConfirmed. rewrite Hs. destruct (_ >? _); cbn; eauto.
Qed.

Lemma hung_exec t s s' :
  hung s → exec t s = Ret s' → hung s' ∧ trace (cl s') = trace (cl s).
Proof.
  intros [R W F St L E]. destruct t as [draw r| |draw|op| |e|]; cbn [exec].
  - rewrite R. by intros [= <-].
  - rewrite W. unfold write_turn. rewrite (Get_empty (cmp := Compare) 0 _ L E). by intros [= <-].
  - destruct (_ && _); [|by intros [= <-]]. unfold MakePingPacket2.
    set (c := set_ping _ _). destruct (refused (OpCtrl (zb TCP_PACKET_PING ::
      be_bytes 8 (if draw =? 0 then 1 else draw))) c St) as (e & He). cbn [send] in He.
    rewrite He. cbn. intros [= <-]. by split.
  - destruct (refused op (cl s) St) as (e & ->). cbn. intros [= <-]. by split.
  - intros [= <-]. unfold close_conn. destruct (conn_err _); by split.
  - intros [= <-]. destruct (conn_err _); by split.
  - rewrite W, andb_false_r. by intros [= <-].
Qed.

End Hung.

(** When the server ends the stream while nothing is queued, the write
    goroutine waits for a packet that no call can queue any more, so that
    whatever happens later the client never finishes: its queue is not disposed
    of, [OnClosed] is not called and no other callback either. *)
Theorem eof_never_closes `{NaclBoxLaws} `{GoppLaws} `{GoppBuffer} `{PfxByteArrayLaws}
    `{MemBuffer} `{HPQ : PriorityQueue sendItem} `{!PriorityQueueLaws Compare HPQ}
    draw s ts s' :
  reading s = true → writing s = true → finished s = false →
  pq_Disposed (sendq (cl s)) = false → pq_items (sendq (cl s)) = [] →
  run_turns (TRead draw (RErr EOF) :: ts) s = Ret s' →
  finished s' = false ∧ writing s' = true ∧ trace (cl s') = trace (cl s) ∧
  pq_Disposed (sendq (cl s')) = false.
Proof.
  intros R W F L E Hr. cbn [run_turns exec] in Hr. rewrite R in Hr. cbn in Hr.
  match type of Hr with run_turns _ ?x = _ => set (s1 := x) in * end.
  assert (hung s1) as Hh by (by split). change (trace (cl s)) with (trace (cl s1)).
  clearbody s1. clear - Hh Hr. revert s1 Hh Hr. induction ts as [|t ts IH]; intros s1 Hh Hr.
  { apply (inj Ret) in Hr as <-. by destruct Hh. }
  cbn [run_turns] in Hr. apply bind_ret_inv in Hr as (s2 & He & Hr).
  destruct (hung_exec t s1 s2 Hh He) as [Hh2 <-]. by apply IH.
Qed.

(** ** Witnesses *)

Module ReadScenario.
Import ToyBox ToyClient ListQueue Scenario.

Definition some_callbacks : callbacks := mkCallbacks true true true true true true false true.

Definition waiting_client : TCPClient :=
  cl (get no_sys (doinit None (scalar_base tsk) tsk csn cin
        (get blank (NewTCPClient (scalar_base ssk) (scalar_base csk) csk some_callbacks)))).
Definition answered : TCPClient := get blank (handle 7 reply waiting_client).

Definition packets : list bytes :=
  [pong 7; zb TCP_PACKET_PING :: be_bytes 8 5;
   zb TCP_PACKET_ROUTING_RESPONSE :: x10 :: replicate 32 x0b; [x10; x68; x69]].
Definition stream : bytes := wire key ssn packets.
Definition confirmed : TCPClient := get blank (accept_all packets answered).

(** A confirmed client into whose buffer the length of a huge packet came. *)
Definition flooded : TCPClient :=
  get blank (doReadConn 0 [RData (be_bytes 2 5000)] confirmed).

End ReadScenario.
Import ToyBox ToyClient ListQueue Scenario ReadScenario.

Lemma client_reads_server_witness :
  tc_status confirmed = TCP_CLIENT_CONFIRMED ∧
  ∃ b, doReadConn 7 (map RData [reply ++ take 30 stream; take 50 (drop 30 stream); drop 80 stream])
         waiting_client = Ret (set_crbuf b confirmed) ∧ unread b = [].
Proof.
  split; [vm_compute; reflexivity|].
  assert (accept_all packets answered = Ret confirmed) as E by (vm_compute; reflexivity).
  pose proof (client_reads_server 7 waiting_client answered reply packets
    (reply ++ take 30 stream) [take 50 (drop 30 stream); drop 80 stream]) as R.
  rewrite E in R. apply R; clear R E; try (vm_compute; reflexivity).
  - repeat constructor; vm_compute; discriminate.
  - vm_compute. lia.
  - repeat constructor; vm_compute; discriminate.
Defined.

Lemma crashing_packets_witness :
  dispatch [zb TCP_PACKET_OOB_SEND; x00] confirmed = Panic ∧
  ∃ c', dispatch [x10; x68] confirmed = Ret c'.
Proof.
  split.
  - apply (crashing_packets [zb TCP_PACKET_OOB_SEND; x00] confirmed). split; vm_compute; reflexivity.
  - apply (crashing_packets [x10; x68] confirmed). split; vm_compute; reflexivity.
Defined.

Lemma oversized_packet_stalls_witness :
  ∃ b, doReadConn 0 (map RData [stream; stream]) flooded = Ret (set_crbuf b flooded) ∧
    unread b = be_bytes 2 5000 ++ stream ++ stream.
Proof.
  destruct (oversized_packet_stalls 0 flooded [stream; stream]) as (b & E & U).
  - right. vm_compute. reflexivity.
  - split; [vm_compute; lia|]. right. split; vm_compute; [reflexivity|lia].
  - split; vm_compute; [lia|reflexivity].
  - vm_compute. reflexivity.
  - vm_compute. reflexivity.
  - repeat constructor; vm_compute; discriminate.
  - vm_compute. discriminate.
  - exists b. split; [exact E|]. rewrite U. vm_compute. reflexivity.
Defined.

Lemma send_outcomes_witness :
  ∃ q, SendDataPacket 16 (str "hi") true confirmed = Ret (set_sendq q confirmed) ∧
    pq_items q ≡ₚ mkItem (x10 :: str "hi") 1 :: pq_items (sendq confirmed).
Proof.
  pose proof (send_outcomes 16 (str "hi") true confirmed) as R. cbv zeta in R.
  assert ((zlen (str "hi") >? 2048) = false) as E1 by (vm_compute; reflexivity).
  assert (negb (tc_status confirmed =? TCP_CLIENT_CONFIRMED) = false) as E2
    by (vm_compute; reflexivity).
  assert (pq_Disposed (sendq confirmed) = false) as E3 by (vm_compute; reflexivity).
  assert ((32 <=? zlen (pq_items (sendq confirmed))) = false) as E4 by (vm_compute; reflexivity).
  rewrite E1, E2, E3, E4 in R. apply R. vm_compute. reflexivity.
Defined.

Lemma eof_never_closes_witness :
  ∃ s', run_turns [TRead 0 (RErr EOF); TSend (OpData 16 (str "hi") true); TWrite; TPing 3; TClose;
                   TFinish] ended = Ret s' ∧ finished s' = false.
Proof.
  eexists. split; [vm_compute; reflexivity|].
  refine (proj1 (eof_never_closes 0 ended [TSend (OpData 16 (str "hi") true); TWrite; TPing 3;
    TClose; TFinish] _ _ _ _ _ _ _)); vm_compute; reflexivity.
Defined.

Lemma client_read_ends_witness :
  run_turns [TRead 7 (RData (reply ++ take 30 stream)); TSend (OpData 16 [x68] true);
             TRead 7 (RData (drop 30 stream)); TWrite; TRead 7 (RErr EOF)]
    (get no_sys (doinit None (scalar_base tsk) tsk csn cin
       (get blank (NewTCPClient (scalar_base ssk) (scalar_base csk) csk some_callbacks))))
  ≠ Fail OutOfTurns.
Proof.
  eapply (client_read_ends None (scalar_base tsk) tsk csn cin
    (get blank (NewTCPClient (scalar_base ssk) (scalar_base csk) csk some_callbacks)));
    vm_compute; reflexivity.
Defined.
