(* ===== verification/MintoxNode.v ===== *)
(** * A mintox node around the DHT and the relay server (mintox)

    What puts the parts together: the search for a UDP port ([network.go]), the ports
    and the ping loop of the relay server ([tcp_server.go]), the bootstrap node
    ([dht_bootstrap.go]), the message interface of the DHT ([dhtapi.go]) and the
    measured speed of a connection ([speed.go]).  Whether a port can be listened on,
    and the time, are arguments. *)

From S2P Require Import Prelude GoIO GoText Sha2 Box TcpHandshake PriorityList Dht DhtNode Onion.
From S2P Require Import MintoxTcpClient TcpServerConn.
Local Open Scope Z_scope.

(** ** Ports *)

(** [for i := 0; i < 100; i++]: the first port that [net.ListenUDP] takes; with none
    of them, the address of a nil socket is asked for, which panics. *)
Fixpoint listen_from {E} (n : nat) (port : Z) (usable : Z → bool) : outcome E Z :=
  match n with
  | O => Panic
  | S n => if usable port then Ret port else listen_from n (port - 1) usable
  end.

Definition NewNetworkCore {E} (usable : Z → bool) : outcome E Z := listen_from 100 54432 usable.

(** [NewTCPServer]: the ports it listens on, and whether it returns a server; it
    returns nil at the first port that is taken. *)
Fixpoint NewTCPServer (usable : Z → bool) (ports : list Z) : list Z * bool :=
  match ports with
  | [] => ([], true)
  | port :: ports =>
      if usable port then let '(open, ok) := NewTCPServer usable ports in (port :: open, ok)
      else ([], false)
  end.

(** ** The bootstrap node *)

Definition bootstrap_PORT : Z := 54432.
Definition bootstrap_ports : list Z := [bootstrap_PORT; 4433; 3389].
Definition bootstrap_seckey : bytes := sha256 (str "TODO tox bootstrap node secret key").

(** [SetKeyPair] copies into the keys the node has.  The entries of its lists that are
    compared with its own key hold a pointer to that key, and so change, too; the lists
    stay in the order they have, and the cached shared keys stay. *)
Definition SetKeyPair (pk sk : bytes) (d : DHT) : DHT :=
  let self := copy_into (SelfPubkey d) pk in
  let rekey e := if bool_decide (cmppk e = SelfPubkey d) then set_cmppk self e else e in
  mkDHT (map rekey (entries d)) self (copy_into (SelfSeckey d) sk) (CloseClientList d)
    (CloseLastGetNodes d) (CloseBootstrapTimes d) (FriendsList d) (SharedKeysRecv d)
    (SharedKeysSent d) (ToBootstrap d) (bsinfo d) (draws d) (DhtNode.sent d).

(** [Start]: the node with its announce service, the UDP port and the TCP ports.
    [udp] and [tcp] tell which ports are free; [pk], [sk] and [sec] are the keys that
    [NewDHT] and [NewOnionAnnounce] draw.  [NewDHT] has already started the goroutines
    that receive datagrams and run the periodic jobs: [before] is what they do until
    [SetKeyPair], [keyed] what they do from then until the announce service is
    registered, [announced] what they do until the information is set.  The relay server
    is nil when a port is taken, and starting it panics. *)
Definition bootstrap_Start `{NaclBox} `{Gopp} `{GoppDhtBuffer} (udp tcp : Z → bool)
    (pk sk sec : bytes) (rnd : list (Z * bytes)) (before keyed announced : list DhtNode.event)
    : outcome hs_err (Onion_Announce * DHT * Z * list Z) :=
  port ← NewNetworkCore udp;
  d ← exec_all before (NewDHT pk sk rnd);
  let d := SetKeyPair (scalar_base bootstrap_seckey) bootstrap_seckey d in
  d ← exec_all keyed d;
  '(onionao, d) ← run_node announced (NewOnionAnnounce sec, d);
  let '(_, d) := BootstrapSetCallback 1 (str "This is a test motd of pgobs") d in
  match NewTCPServer tcp bootstrap_ports with
  | (open, true) => Ret (onionao, d, port, open)
  | (_, false) => Panic
  end.

(** ** Messages over the DHT *)

Definition NET_PACKET_CRYPTO_DATA : Z := 27.
Definition PACKET_ID_MESSAGE : Z := 64.

(** [net.ParseIP("10.0.0.32")] and the port *)
Definition fixed_addr : Addr := UDPAddr (v4InV6Prefix ++ [zb 10; zb 0; zb 0; zb 32]) 33345.

Section Api.
Context `{NaclBox} `{Gopp}.
#[local] Abbreviation res A := (outcome hs_err A).

(** The address that is found for the friend is only printed; the type assertion on
    it can panic. *)
Definition friend_addr (pubkey : bytes) (d : DHT) : res unit :=
  match list_find (λ f, f_Pubkey f = pubkey) (FriendsList d) with
  | None => Ret ()
  | Some (_, f) =>
      match GetByKey pubkey (ClientList f) with
      | None => Ret ()
      | Some p => match at_ptr (entries d) p with Some (ENode _ _ _) => Ret () | _ => Panic end
      end
  end.

Definition sendPacketToFriend (pubkey pkt : bytes) (d : DHT) : res DHT :=
  _ ← friend_addr pubkey d;
  Ret (WriteTo pkt fixed_addr d).

Definition SendData (data pubkey : bytes) (d : DHT) : res DHT :=
  let plainpkt := zb PACKET_ID_MESSAGE :: data in
  pubkeyo ← NewCryptoKeyFromHex pubkey;
  '(shrkey, d1) ← GetSharedKeySent pubkeyo d;
  let '((_, nonce), d2) := draw d1 in
  encpkt ← create nonce (SelfPubkey d2) shrkey NET_PACKET_CRYPTO_DATA plainpkt;
  sendPacketToFriend pubkeyo encpkt d2.

(** The handler prints the type, the first byte of the plaintext and the rest. *)
Definition HandleCryptoDataPacket (data : bytes) (d : DHT) : res ((Z * byte * bytes) * DHT) :=
  _ ← index data 0;
  '(u, m) ← Dht.Unpacket (SelfSeckey d) (SharedKeysSent d) data;
  plain ← ErrPrint (u_plain u);
  b ← index plain 0;
  text ← slice_from plain 1;
  Ret ((u_ptype u, b, text), set_sent m d).

End Api.

(** ** The ping loop of a relayed connection *)

Definition TCP_PING_FREQUENCY : Z := 30.
Definition TCP_PING_TIMEOUT : Z := 10.

(** What a turn sees: the stop channel, or a tick with the time, the value of
    [LastPinged] (nanoseconds) and the draw of the ping id. *)
Inductive ping_in := PStop | PTick (now last pingid : Z).

(** [int(time.Since(last).Seconds()) > 40] *)
Definition ping_expired (now last : Z) : bool :=
  Z.quot (now - last) (10 ^ 9) >? TCP_PING_FREQUENCY + TCP_PING_TIMEOUT.

Section Pings.
Context `{NaclBox} `{Gopp}.

(** The loop; [true] says that it ended and closed the connection. *)
Fixpoint doPingLoop (ins : list ping_in) (w : writer) : outcome conn_err (bool * writer) :=
  match ins with
  | [] => Ret (false, w)
  | PStop :: _ => Ret (true, w)
  | PTick now last pingid :: ins =>
      if ping_expired now last then Ret (true, w)
      else
        pingpkt ← MakePingPacket pingid (w_session w);
        if w_up w then
          doPingLoop ins (mkWriter (incr_sent (w_session w)) (cwctrlq w) (cwdataq w) true (w_wire w ++ pingpkt))
        else Ret (true, w)
  end.

End Pings.

(** ** Speed *)

Record SpeedCalc := mkSpeed {
  Btime : Z; Ltime : Z;            (* nanoseconds *)
  Totlen : Z; Avgspd : Z; Datcnt : Z
}.

Definition NewSpeedCalc (now : Z) : SpeedCalc := mkSpeed now now 0 0 0.

Definition second : Z := 10 ^ 9.

Definition speed_Data (etime rn : Z) (s : SpeedCalc) : SpeedCalc :=
  let tot := i64 (Totlen s + rn) in
  let '(b, tot) := if etime - Ltime s >? 30 * second then (etime - second, rn) else (Btime s, tot) in
  let '(l, avg) :=
    if etime - Ltime s >? second then
      let d := Z.quot (etime - b) second in
      (etime, if negb (d =? 0) then Z.quot tot d else Avgspd s)
    else (Ltime s, Avgspd s) in
  mkSpeed b l tot avg (i64 (Datcnt s + 1)).

(** ** Lemmas *)

Lemma listen_from_spec {E} n port usable :
  match @listen_from E n port usable with
  | Ret p => port - Z.of_nat n < p ≤ port ∧ usable p = true ∧ ∀ q, p < q ≤ port → usable q = false
  | Panic => ∀ q, port - Z.of_nat n < q ≤ port → usable q = false
  | Fail _ => False
  end.
Proof.
  revert port. induction n as [|n IH]; intros port; cbn [listen_from]; [intros; lia|].
  destruct (usable port) eqn:Eu; [split_and!; [lia|lia|done|intros; lia]|].
  specialize (IH (port - 1)). destruct (listen_from n (port - 1) usable) as [p|e|]; [|done|].
  - destruct IH as (Hp & Hu & Hq). split_and!; [lia|lia|done|]. intros q Hr.
    destruct (decide (q = port)) as [->|]; [done|]. apply Hq. lia.
  - intros q Hq. destruct (decide (q = port)) as [->|]; [done|]. apply IH. lia.
Qed.

(** The relay server is made exactly when every port is free; otherwise the ports before
    the first taken one stay open although there is no server. *)
Lemma NewTCPServer_opened usable ports :
  match NewTCPServer usable ports with
  | (open, true) => open = ports ∧ Forall (λ p, usable p = true) ports
  | (open, false) => ∃ p rest, ports = open ++ p :: rest ∧ usable p = false ∧
                       Forall (λ p, usable p = true) open
  end.
Proof.
  induction ports as [|p ports IH]; cbn [NewTCPServer]; [done|].
  destruct (usable p) eqn:Eu; [|by exists p, ports].
  destruct (NewTCPServer usable ports) as [open []].
  - destruct IH as [-> IH]. split; [done|]. by constructor.
  - destruct IH as (q & rest & -> & Hq & Ho). exists q, rest. split_and!; [done|done|by constructor].
Qed.

Lemma ping_expired_spec now last : last ≤ now → ping_expired now last = true ↔ last + 41 * 10 ^ 9 ≤ now.
Proof.
  intros Hl. unfold ping_expired, TCP_PING_FREQUENCY, TCP_PING_TIMEOUT.
  rewrite Z.quot_div_nonneg by lia. replace (10 ^ 9) with 1000000000 by reflexivity.
  destruct (_ >? _) eqn:E; zbool; (split; [intros H|intros H]); try done;
    Z.div_mod_to_equations; lia.
Qed.

Lemma SetKeyPair_new pk sk pk' sk' rnd :
  length pk' = length pk → length sk' = length sk → SetKeyPair pk' sk' (NewDHT pk sk rnd) = NewDHT pk' sk' rnd.
Proof. intros Hp Hs. unfold SetKeyPair, NewDHT. cbn [SelfPubkey SelfSeckey]. by rewrite !copy_into_full. Qed.

(** ** What stays *)

Section Frame.
Context `{NaclBox} `{Gopp} `{GoppDhtBuffer}.

(** The keys of the node stay, and so does every shared key it has cached for requests. *)
Definition frame (d d' : DHT) : Prop :=
  SelfPubkey d' = SelfPubkey d ∧ SelfSeckey d' = SelfSeckey d ∧
  SharedKeysRecv d ⊆ SharedKeysRecv d'.

Lemma frame_refl d : frame d d.
Proof. done. Qed.

Lemma frame_trans d1 d2 d3 : frame d1 d2 → frame d2 d3 → frame d1 d3.
Proof.
  intros (E1 & E2 & E3) (F1 & F2 & F3). split; [congruence|]. split; [congruence|]. by etrans.
Qed.

Lemma frame_draw d x d' : draw d = (x, d') → frame d d'.
Proof. unfold draw. destruct (draws d); by intros [= _ <-]. Qed.

Lemma frame_recv pk d k d' : GetSharedKeyRecv pk d = Ret (k, d') → frame d d'.
Proof.
  unfold GetSharedKeyRecv, GetSharedKey. destruct (SharedKeysRecv d !! pk) as [x|] eqn:E.
  - intros [= _ <-]. done.
  - intros Hg. apply bind_ret_inv in Hg as ([k' m] & Hg & Hr). apply bind_ret_inv in Hg as (s & _ & Hg).
    apply (inj Ret) in Hg, Hr. injection Hg as <- <-. injection Hr as <- <-.
    split; [done|]. split; [done|]. by apply insert_subseteq.
Qed.

Lemma frame_sent pk d k d' : GetSharedKeySent pk d = Ret (k, d') → frame d d'.
Proof.
  unfold GetSharedKeySent. intros Hg. apply bind_ret_inv in Hg as ([k' m] & _ & Hr).
  apply (inj Ret) in Hr. by injection Hr as <- <-.
Qed.

Lemma frame_GetNodes a pk id d d' : GetNodes a pk id d = Ret d' → frame d d'.
Proof.
  unfold GetNodes. destruct (draw d) as [[r nonce] d1] eqn:E. intros Hg.
  apply bind_ret_inv in Hg as ([k d2] & Hs & Hg). apply bind_ret_inv in Hg as (pkt & _ & Hg).
  apply (inj Ret) in Hg as <-.
  eapply frame_trans; [by eapply frame_draw|exact (frame_sent _ _ _ _ Hs)].
Qed.

Lemma frame_get_all id target ps d d' : get_all id target ps d = Ret d' → frame d d'.
Proof.
  revert d. induction ps as [|p ps IH]; intros d Hg; cbn [get_all] in Hg.
  { apply (inj Ret) in Hg as <-. apply frame_refl. }
  apply bind_ret_inv in Hg as ([pk a] & _ & Hg). apply bind_ret_inv in Hg as (d1 & H1' & Hg).
  eapply frame_trans; [by eapply frame_GetNodes|by apply IH].
Qed.

Lemma frame_HandleGetNodes rnd a data d d' : HandleGetNodes rnd a data d = Ret d' → frame d d'.
Proof.
  unfold HandleGetNodes. intros Hh. apply bind_ret_inv in Hh as ([[pk nonce] enc] & _ & Hh).
  apply bind_ret_inv in Hh as ([k d1] & Hk & Hh). do 6 apply bind_ret_inv in Hh as (? & _ & Hh).
  eapply frame_trans; [by eapply frame_recv|]. unfold sendnodes_ipv6 in Hh.
  apply bind_ret_inv in Hh as (nodes & _ & Hh).
  case_bool_decide; [apply (inj Ret) in Hh as <-; apply frame_refl|].
  apply bind_ret_inv in Hh as (packed & _ & Hh). destruct (draw d1) as [[r n] d2] eqn:E.
  apply bind_ret_inv in Hh as (pkt & _ & Hh). apply (inj Ret) in Hh as <-. exact (frame_draw _ _ _ E).
Qed.

Lemma frame_HandlePingRequest a data d d' : DhtNode.HandlePingRequest a data d = Ret d' → frame d d'.
Proof.
  unfold DhtNode.HandlePingRequest. intros Hh. apply bind_ret_inv in Hh as ([[pk nonce] enc] & _ & Hh).
  apply bind_ret_inv in Hh as ([k d1] & Hk & Hh). do 2 apply bind_ret_inv in Hh as (? & _ & Hh).
  eapply frame_trans; [by eapply frame_recv|]. unfold SendPingResponse in Hh.
  case_bool_decide; [apply (inj Ret) in Hh as <-; apply frame_refl|].
  destruct (draw d1) as [[r n] d2] eqn:E. apply bind_ret_inv in Hh as (pkt & _ & Hh).
  apply (inj Ret) in Hh as <-. exact (frame_draw _ _ _ E).
Qed.

Lemma frame_process_nodes now n off plain d d' : process_nodes now n off plain d = Ret d' → frame d d'.
Proof.
  revert off d. induction n as [|n IH]; intros off d Hp; cbn [process_nodes] in Hp.
  { by apply (inj Ret) in Hp as <-. }
  destruct (rbuf_at off plain) as [buf|]; [|done].
  apply bind_ret_inv in Hp as ([[a k] r] & _ & Hp). apply bind_ret_inv in Hp as (d1 & E & Hp).
  eapply frame_trans; [|by eapply IH]. clear IH Hp. unfold process_node in E.
  destruct (alloc _ _) as [p h1]. apply bind_ret_inv in E as (tb & _ & E).
  destruct (alloc _ _) as [c h2]. apply bind_ret_inv in E as (cc & _ & E).
  apply bind_ret_inv in E as ([h3 fs] & _ & E). by apply (inj Ret) in E as <-.
Qed.

Lemma frame_deliver now rnd fill a data d d' : deliver now rnd fill a data d = Ret d' → frame d d'.
Proof.
  unfold deliver. destruct data as [|b data]; [by intros [= <-]|].
  destruct (_ =? _); [apply frame_HandlePingRequest|]. destruct (_ =? _); [by intros [= <-]|].
  destruct (_ =? _); [apply frame_HandleGetNodes|]. destruct (_ =? _).
  { unfold HandleSendNodesIpv6. intros Hh. apply bind_ret_inv in Hh as ([[pk n] e] & _ & Hh).
    apply bind_ret_inv in Hh as ([k d1] & Hk & Hh). apply bind_ret_inv in Hh as (pl & _ & Hh).
    apply bind_ret_inv in Hh as (? & _ & Hh).
    eapply frame_trans; [by eapply frame_sent|by eapply frame_process_nodes]. }
  destruct (_ =? _); [by intros [= <-]|]. destruct (_ && _); [|by intros [= <-]].
  unfold handleInfoRequest. destruct (default _ _) as [v m].
  intros Hh. apply bind_ret_inv in Hh as (u & _ & Hh). by apply (inj Ret) in Hh as <-.
Qed.

Lemma frame_doClosest now i1 i2 i3 d d' : doClosest now i1 i2 i3 d = Ret d' → frame d d'.
Proof.
  unfold doClosest. intros Hc. apply bind_ret_inv in Hc as (d1 & H1' & Hc).
  assert (frame d d1) as F1.
  { destruct (bool_decide _); [by apply (inj Ret) in H1' as <-|].
    destruct (lst _ !! _); [|done]. by eapply frame_get_all. }
  apply bind_ret_inv in Hc as (need & _ & Hc). apply bind_ret_inv in Hc as (good & _ & Hc).
  apply bind_ret_inv in Hc as (d2 & H2' & Hc). eapply frame_trans; [exact F1|].
  assert (frame d1 d2) as F2.
  { destruct (need !! _) as [p|]; [|by apply (inj Ret) in H2' as <-].
    apply frame_get_all in H2'. exact H2'. }
  eapply frame_trans; [exact F2|]. destruct (_ && _); [|apply (inj Ret) in Hc as <-; done].
  destruct (good !! _); [|done]. apply frame_get_all in Hc. exact Hc.
Qed.

Lemma frame_do_friends rnds fs d d' : do_friends rnds fs d = Ret d' → frame d d'.
Proof.
  revert rnds d. induction fs as [|f fs IH]; intros rnds d Hf; cbn [do_friends] in Hf.
  { apply (inj Ret) in Hf as <-. apply frame_refl. }
  apply bind_ret_inv in Hf as (d1 & H1' & Hf). eapply frame_trans; [|by eapply IH].
  unfold do_friend in H1'. apply bind_ret_inv in H1' as (e1 & Ha & H1').
  apply bind_ret_inv in H1' as (e2 & Hb & H1'). apply bind_ret_inv in H1' as (? & _ & H1').
  eapply frame_trans; [by eapply frame_get_all|]. eapply frame_trans; [by eapply frame_get_all|].
  destruct (existsb _ _); [apply (inj Ret) in H1' as <-; apply frame_refl|].
  by eapply frame_get_all.
Qed.

Lemma exec_frame e d d' : DhtNode.exec e d = Ret d' → frame d d'.
Proof.
  destruct e; cbn [DhtNode.exec].
  - apply frame_deliver.
  - unfold AddFriend. destruct (existsb _ _); [by intros [= <-]|]. intros Hh.
    apply bind_ret_inv in Hh as ([h tb] & _ & Hh). by apply (inj Ret) in Hh as <-.
  - apply frame_GetNodes.
  - unfold SendPingRequest. case_bool_decide; [intros [= <-]; apply frame_refl|].
    destruct (draw d) as [[r nonce] d1] eqn:E. intros Hs.
    apply bind_ret_inv in Hs as ([k d2] & Hk & Hs). apply bind_ret_inv in Hs as (pkt & _ & Hs).
    apply (inj Ret) in Hs as <-.
    eapply frame_trans; [by eapply frame_draw|exact (frame_sent _ _ _ _ Hk)].
  - apply frame_doClosest.
  - apply frame_do_friends.
  - intros Hh. apply (inj Ret) in Hh as <-. unfold BootstrapSetCallback. by destruct (_ >? _).
Qed.

Lemma exec_all_frame es d d' : exec_all es d = Ret d' → frame d d'.
Proof.
  revert d. induction es as [|e es IH]; intros d He; cbn [exec_all] in He.
  { by apply (inj Ret) in He as <-. }
  apply bind_ret_inv in He as (d1 & Hx & He).
  eapply frame_trans; [by eapply exec_frame|by apply IH].
Qed.

Lemma frame_announce now rnd addr data a d a' d' :
  handleAnnounceRequest now rnd addr data a d = Ret (a', d') → frame d d'.
Proof.
  unfold handleAnnounceRequest. intros Hh. do 5 apply bind_ret_inv in Hh as (? & _ & Hh).
  apply bind_ret_inv in Hh as ([shr m] & _ & Hh). do 11 apply bind_ret_inv in Hh as (? & _ & Hh).
  destruct (draw d) as [[z n] d1] eqn:E. apply bind_ret_inv in Hh as (nodes & _ & Hh).
  apply bind_ret_inv in Hh as ([r a1] & _ & Hh). do 2 apply bind_ret_inv in Hh as (? & _ & Hh).
  apply (inj Ret) in Hh. injection Hh as <- <-. exact (frame_draw _ _ _ E).
Qed.

Lemma run_node_keeps_keys es s s' : run_node es s = Ret s' → frame s.2 s'.2.
Proof.
  revert s. induction es as [|e es IH]; intros s He; cbn [run_node] in He.
  { by apply (inj Ret) in He as <-. }
  apply bind_ret_inv in He as (s1 & Hx & He). eapply frame_trans; [|by apply IH]. clear IH He.
  destruct s as [a d]. destruct e as [now rnd fill addr data| | | | | | ]; cbn [exec_node] in Hx;
    try (apply bind_ret_inv in Hx as (d1 & Hd1 & Hx); apply (inj Ret) in Hx as <-;
         by eapply exec_frame).
  unfold deliver_all in Hx. destruct data as [|b data]; [by apply (inj Ret) in Hx as <-|].
  destruct (_ =? _).
  - destruct s1 as [a1 d1]. by eapply frame_announce.
  - apply bind_ret_inv in Hx as (d1 & Hd1 & Hx). apply (inj Ret) in Hx as <-. by eapply frame_deliver.
Qed.

(** What [Start] did when it returned. *)
Lemma Start_inv udp tcp pk sk sec rnd before keyed announced a d port open :
  bootstrap_Start udp tcp pk sk sec rnd before keyed announced = Ret (a, d, port, open) →
  ∃ d0 d1 d2, 54432 - 100 < port ≤ 54432 ∧ exec_all before (NewDHT pk sk rnd) = Ret d0 ∧
    exec_all keyed (SetKeyPair (scalar_base bootstrap_seckey) bootstrap_seckey d0) = Ret d1 ∧
    run_node announced (NewOnionAnnounce sec, d1) = Ret (a, d2) ∧
    open = bootstrap_ports ∧ d = set_info (Some (1, str "This is a test motd of pgobs")) d2.
Proof.
  unfold bootstrap_Start. intros Hb. apply bind_ret_inv in Hb as (p & Hp & Hb).
  pose proof (@listen_from_spec hs_err 100 54432 udp) as Hl. unfold NewNetworkCore in Hp.
  rewrite Hp in Hl. apply bind_ret_inv in Hb as (d0 & E0 & Hb). apply bind_ret_inv in Hb as (d1 & E1 & Hb).
  apply bind_ret_inv in Hb as ([a2 d2] & E2 & Hb).
  change (BootstrapSetCallback 1 _ ?x) with (true, set_info (Some (1, str "This is a test motd of pgobs")) x) in Hb.
  cbv iota beta in Hb. pose proof (NewTCPServer_opened tcp bootstrap_ports) as Ho.
  destruct (NewTCPServer tcp bootstrap_ports) as [o []]; [|done]. destruct Ho as [-> _].
  apply (inj Ret) in Hb. injection Hb as <- <- <- <-. exists d0, d1, d2. split_and!; [lia|lia|done..].
Qed.
End Frame.

(** A ping request that does not open under the key cached for its sender. *)
Lemma wrong_key_panics `{NaclBoxLaws} `{GoppLaws} `{GoppDhtBuffer} now rnd filler addr c k nonce enc a d :
  SharedKeysRecv d !! c = Some k → length c = KeySize → length nonce = Mintox.NONCE_SIZE →
  box_open enc nonce k = None →
  deliver_all now rnd filler addr (zb NET_PACKET_PING_REQUEST :: c ++ nonce ++ enc) (a, d) = Panic.
Proof.
  intros Hc Lc Ln Ho. unfold deliver_all.
  destruct (bz (zb NET_PACKET_PING_REQUEST) =? NET_PACKET_ANNOUNCE_REQUEST) eqn:E; [done|clear E].
  unfold deliver. change (bz (zb NET_PACKET_PING_REQUEST) =? NET_PACKET_PING_REQUEST) with true.
  cbv iota zeta beta. unfold DhtNode.HandlePingRequest, open_datagram.
  change (zb NET_PACKET_PING_REQUEST :: c ++ nonce ++ enc)
    with ([zb NET_PACKET_PING_REQUEST] ++ c ++ nonce ++ enc).
  rewrite (slice_app3 [_] c _ 1 Dht.PUBLIC_KEY_SIZE) by done. rewrite bind_ret.
  rewrite Mintox.NewCryptoKey_ok, bind_ret by done.
  rewrite (app_assoc [_]), slice_app3 by (rewrite ?length_app, ?Lc; done). rewrite bind_ret.
  rewrite (app_assoc (_ ++ _)), slice_from_app, bind_ret by (rewrite !length_app, Lc, Ln; done).
  rewrite bind_ret. unfold GetSharedKeyRecv, GetSharedKey. rewrite Hc, !bind_ret.
  destruct (Mintox.DecryptDataSymmetric2 k nonce enc) as [plain|x|] eqn:Ed; [|done|done].
  unfold Mintox.DecryptDataSymmetric2, Mintox.CBOpenAfterNm2 in Ed. rewrite Ho in Ed.
  by destruct (Assert _).
Qed.

Lemma info_ok `{NaclBox} i d : dht_ok d → dht_ok (set_info i d).
Proof. intros [? ? ? ? ? ?]. by split. Qed.

Section PingFacts.
Context `{NaclBoxLaws} `{GoppLaws}.

Lemma MakePingPacket_ok pingid s :
  MakePingPacket pingid s = Ret (be_bytes 2 25 ++
    box_seal (zb 4 :: be_bytes 8 (if pingid =? 0 then 1 else pingid)) (Server.SentNonce s) (Server.Shrkey s)).
Proof.
  unfold MakePingPacket. rewrite CreatePacket_ok; rewrite zlen_cons; unfold zlen; rewrite length_be_bytes; done.
Qed.

(** The packets of the ticks, each under the next nonce *)
Fixpoint pings (ins : list ping_in) (s : Server.session) : bytes :=
  match ins with
  | PTick _ _ pingid :: ins =>
      be_bytes 2 25 ++ box_seal (zb 4 :: be_bytes 8 (if pingid =? 0 then 1 else pingid))
                                (Server.SentNonce s) (Server.Shrkey s) ++ pings ins (incr_sent s)
  | _ => []
  end.

Definition in_time (i : ping_in) : Prop :=
  match i with PTick now last _ => last ≤ now < last + 41 * 10 ^ 9 | PStop => False end.

Lemma doPingLoop_pings ins rest w :
  Forall in_time ins → w_up w = true →
  doPingLoop (ins ++ rest) w = doPingLoop rest
    (mkWriter (Nat.iter (length ins) incr_sent (w_session w)) (cwctrlq w) (cwdataq w) true
              (w_wire w ++ pings ins (w_session w))).
Proof.
  intros Hi. revert w. induction Hi as [|[|now last pid] ins Hi _ IH]; intros w Hu; [|done|].
  { destruct w; cbn in *. subst. by rewrite app_nil_r. }
  cbn [app doPingLoop]. destruct (ping_expired now last) eqn:Ee.
  { apply ping_expired_spec in Ee; cbn in Hi; lia. }
  rewrite MakePingPacket_ok, bind_ret, Hu, IH by done. cbn [w_session cwctrlq cwdataq w_wire length pings].
  rewrite Nat.iter_succ_r, <- !app_assoc. done.
Qed.

End PingFacts.

(** ** Properties *)

(** The UDP port of a node is the highest free one of the hundred from 54333 to 54432,
    and the node panics exactly when none of them is free. *)
Theorem udp_port_found {E} usable :
  match @NewNetworkCore E usable with
  | Ret p => 54333 ≤ p ≤ 54432 ∧ usable p = true ∧ ∀ q, p < q ≤ 54432 → usable q = false
  | Panic => ∀ q, 54333 ≤ q ≤ 54432 → usable q = false
  | Fail _ => False
  end.
Proof.
  pose proof (@listen_from_spec E 100 54432 usable) as Hs. unfold NewNetworkCore.
  destruct (listen_from 100 54432 usable) as [p|e|]; [|done|].
  - destruct Hs as (Hp & Hu & Hq). split_and!; [lia|lia|done|done].
  - intros q Hq. apply Hs. lia.
Qed.

#[local] Opaque sha256.

(** C39: A bootstrap node that starts has one of the hundred UDP ports and all its TCP
    ports, answers information requests, and its key pair is derived from a constant,
    whatever pair was drawn, and stays so in every run.  If nothing arrives before the key
    pair is replaced, its tables and announced entries keep their order, bounds and keys
    in every run.  If something does, the keys it shares with the clients that asked in
    that time are those of the drawn pair, for good: the next ping request of such a
    client, if it does not open under that key, makes the node panic. *)
Theorem bootstrap_node_runs `{NaclBoxLaws} `{GoppLaws} `{GoppDhtBuffer}
    udp tcp pk sk sec rnd before keyed announced a d port open es s :
  length pk = KeySize → length sk = KeySize →
  bootstrap_Start udp tcp pk sk sec rnd before keyed announced = Ret (a, d, port, open) →
  Forall event_ok (before ++ keyed ++ announced ++ es) → run_node es (a, d) = Ret s →
  54333 ≤ port ≤ 54432 ∧ open = bootstrap_ports ∧ is_Some (bsinfo d) ∧
  SelfSeckey s.2 = sha256 (str "TODO tox bootstrap node secret key") ∧
  SelfPubkey s.2 = scalar_base (SelfSeckey s.2) ∧
  (before = [] → node_ok s) ∧
  ∀ d0 c k, exec_all before (NewDHT pk sk rnd) = Ret d0 → SharedKeysRecv d0 !! c = Some k →
    k = box_precompute c sk ∧ SharedKeysRecv s.2 !! c = Some k ∧
    ∀ now rnds filler addr nonce enc,
      length c = KeySize → length nonce = Mintox.NONCE_SIZE → box_open enc nonce k = None →
      deliver_all now rnds filler addr (zb NET_PACKET_PING_REQUEST :: c ++ nonce ++ enc) s = Panic.
Proof.
  intros Hpk Hsk Hb Hes Hr.
  destruct (Start_inv _ _ _ _ _ _ _ _ _ _ _ _ _ Hb)
    as (d0 & d1 & d2 & Hp & E0 & E1 & E2 & Ho & Ed).
  rewrite !Forall_app in Hes. destruct Hes as (Hb0 & Hk0 & Ha0 & He0).
  assert (length bootstrap_seckey = KeySize) as Hlen by apply length_sha256.
  pose proof (base_length bootstrap_seckey Hlen) as Hbl.
  destruct (exec_all_frame _ _ _ E0) as (P0 & S0 & _). destruct (exec_all_frame _ _ _ E1) as (P1 & S1 & K1).
  destruct (run_node_keeps_keys _ _ _ E2) as (P2 & S2 & K2).
  destruct (run_node_keeps_keys _ _ _ Hr) as (P3 & S3 & K3).
  subst d. cbn [fst snd set_info SetKeyPair SelfPubkey SelfSeckey SharedKeysRecv bsinfo NewDHT] in *.
  rewrite P0, copy_into_full in P1 by congruence. rewrite S0, copy_into_full in S1 by congruence.
  assert (SelfSeckey s.2 = bootstrap_seckey) as Es by congruence.
  split_and!; [lia|lia|done|by eexists|done|rewrite Es; congruence| |].
  - intros ->. apply (inj Ret) in E0 as <-. rewrite SetKeyPair_new in E1 by congruence.
    assert (dht_ok d1) as Hd1 by (eapply exec_all_ok, E1; [by apply NewDHT_ok|done]).
    assert (node_ok (a, d2)) as [Q1 Q2 Q3].
    { eapply run_node_ok; [|exact Ha0|exact E2].
      split; [done|split; [apply new_pl_ok|done|apply map_Forall_empty]|apply map_Forall_empty]. }
    eapply run_node_ok; [|exact He0|exact Hr]. split; [by apply info_ok|exact Q2|exact Q3].
  - intros d0' c k E0' Hc. rewrite E0 in E0'. apply (inj Ret) in E0' as <-.
    assert (dht_ok d0) as [_ _ _ _ Hkeys _]
      by (apply (exec_all_ok before (NewDHT pk sk rnd)); [by apply NewDHT_ok|done|done]).
    rewrite S0 in Hkeys. pose proof (Hkeys c k Hc) as Ek. cbn beta in Ek.
    assert (SharedKeysRecv s.2 !! c = Some k) as Hs
      by (eapply lookup_weaken, K3; eapply lookup_weaken, K2; by eapply lookup_weaken, K1).
    split_and!; [done|done|]. intros now rnds filler addr nonce enc Lc Ln Hopen.
    destruct s as [a' d']. by eapply wrong_key_panics.
Qed.

(** The ping loop of a relayed connection: while every tick comes less than 41 seconds
    after the last answer, each sends one ping under the next nonce; the first tick
    that comes later sends nothing and closes the connection. *)
Theorem ping_timeout_closes `{NaclBoxLaws} `{GoppLaws} ins now last pingid rest w :
  Forall in_time ins → w_up w = true → last + 41 * 10 ^ 9 ≤ now →
  doPingLoop (ins ++ PTick now last pingid :: rest) w =
    Ret (true, mkWriter (Nat.iter (length ins) incr_sent (w_session w)) (cwctrlq w) (cwdataq w) true
                        (w_wire w ++ pings ins (w_session w))).
Proof.
  intros Hi Hu Hl. rewrite doPingLoop_pings by done. cbn [doPingLoop].
  by rewrite (proj2 (ping_expired_spec now last ltac:(lia))).
Qed.

(** A message sent over the DHT is the one datagram that is written, always to the
    same fixed address; the handler of the node it is meant for reads the packet type,
    the message id and the text from it. *)
Theorem message_delivered `{NaclBoxLaws} `{GoppLaws} ska skb d e text nonce r :
  length ska = KeySize → length skb = KeySize →
  SelfPubkey d = scalar_base ska → SelfSeckey d = ska → keys_ok ska (SharedKeysSent d) →
  draws d = (r, nonce) :: drop 1 (draws d) → length nonce = Mintox.NONCE_SIZE →
  friend_addr (scalar_base skb) d = Ret () →
  SelfSeckey e = skb → keys_ok skb (SharedKeysSent e) →
  ∃ d' pkt e', SendData text (ToHex (scalar_base skb)) d = Ret d' ∧
    DhtNode.sent d' = DhtNode.sent d ++ [(fixed_addr, pkt)] ∧
    HandleCryptoDataPacket pkt e = Ret ((NET_PACKET_CRYPTO_DATA, zb PACKET_ID_MESSAGE, text), e').
Proof.
  intros Ha Hb Hpa Hsa Hk Hd Hn Hf Hsb Hkb.
  pose proof (base_length skb Hb) as Lb.
  destruct (GetSharedKey_ok ska (SharedKeysSent d) (scalar_base skb) Hk Ha Lb) as (m & Em & _ & _ & _).
  destruct (dht_packet_roundtrip ska skb (SharedKeysSent e) nonce NET_PACKET_CRYPTO_DATA
    (zb PACKET_ID_MESSAGE :: text) Ha Hb Hn ltac:(done) Hkb) as (pkt & me & Ec & Eu & _).
  eexists _, pkt, _. unfold SendData, HandleCryptoDataPacket.
  rewrite NewCryptoKeyFromHex_ToHex, bind_ret by done. unfold GetSharedKeySent. rewrite Hsa, Em, !bind_ret.
  unfold draw. cbn [set_sent draws]. rewrite Hd. unfold create, sendPacketToFriend.
  cbn [set_draws set_sent SelfPubkey]. rewrite Hpa, Ec. cbn [ErrPrint]. rewrite bind_ret.
  change (friend_addr _ (set_draws _ (set_sent _ d))) with (friend_addr (scalar_base skb) d). rewrite Hf, bind_ret.
  split; [done|]. split; [done|]. rewrite Hsb.
  assert (∃ b l, pkt = b :: l) as (b & l & ->).
  { unfold Dht.CreatePacket in Ec. apply bind_ret_inv in Ec as (c & _ & Ec). injection Ec as <-. by eexists _, _. }
  change (index (b :: l) 0) with (@Ret hs_err _ b). rewrite bind_ret, Eu, bind_ret. done.
Qed.

(** A packet of this type that does not open under the sender's key ends the program. *)
Theorem forged_message_crashes `{NaclBoxLaws} `{GoppLaws} b pk nonce enc d :
  length pk = KeySize → length nonce = Mintox.NONCE_SIZE → length (SelfSeckey d) = KeySize →
  keys_ok (SelfSeckey d) (SharedKeysSent d) →
  box_open enc nonce (box_precompute pk (SelfSeckey d)) = None →
  HandleCryptoDataPacket (b :: pk ++ nonce ++ enc) d = Panic.
Proof.
  intros Hp Hn Hs Hk Ho. unfold HandleCryptoDataPacket, Dht.Unpacket.
  change (b :: ?a ++ ?x ++ ?c) with ([b] ++ a ++ x ++ c).
  change (index ([b] ++ pk ++ nonce ++ enc) 0) with (Ret (E := hs_err) b). rewrite !bind_ret.
  rewrite (slice_app3 [b] pk _ 1 Dht.PUBLIC_KEY_SIZE) by done. rewrite bind_ret.
  rewrite Mintox.NewCryptoKey_ok, bind_ret by done.
  rewrite (app_assoc [b]), slice_app3 by (rewrite ?length_app, ?Hp; done). rewrite bind_ret.
  destruct (GetSharedKey_ok _ _ pk Hk Hs Hp) as (m & -> & _). rewrite bind_ret.
  rewrite (app_assoc (_ ++ _)), slice_from_app, bind_ret by (rewrite !length_app, Hp, Hn; done).
  destruct (Mintox.DecryptDataSymmetric2 _ _ enc) as [plain|x|] eqn:Ed; [|done|done].
  unfold Mintox.DecryptDataSymmetric2, Mintox.CBOpenAfterNm2 in Ed. rewrite Ho in Ed.
  by destruct (Assert _).
Qed.

(** The measured speed: within a second of the last measurement only the counters
    change; after more than a second the average is the length received since the
    beginning by whole seconds, of which there is at least one; after a silence of more
    than 30 seconds the measurement starts again with the new data. *)
Theorem speed_average etime rn s :
  Btime s ≤ Ltime s → Ltime s ≤ etime → 0 ≤ rn → 0 ≤ Totlen s → Totlen s + rn < 2 ^ 63 →
  let s' := speed_Data etime rn s in
  Btime s' ≤ Ltime s' ≤ etime ∧
  Totlen s' = (if etime - Ltime s <=? 30 * second then Totlen s + rn else rn) ∧
  (second < etime - Ltime s → 1 ≤ (etime - Btime s') / second) ∧
  Avgspd s' =
    (if etime - Ltime s <=? second then Avgspd s
     else if etime - Ltime s <=? 30 * second then (Totlen s + rn) / ((etime - Btime s) / second)
     else rn).
Proof.
  intros H1 H2 H3 H4 H5. unfold speed_Data. rewrite i64_small by lia.
  replace second with 1000000000 by reflexivity.
  destruct (etime - Ltime s >? 30 * 1000000000) eqn:E1, (etime - Ltime s >? 1000000000) eqn:E2,
    (etime - Ltime s <=? 1000000000) eqn:E3, (etime - Ltime s <=? 30 * 1000000000) eqn:E4;
    zbool; try lia; cbn [Btime Ltime Totlen Avgspd].
  - replace (etime - (etime - 1000000000)) with 1000000000 by lia.
    change (1000000000 ÷ 1000000000) with 1. change (1000000000 / 1000000000) with 1.
    split_and!; [lia|lia|done|lia|]. cbn. by rewrite Z.quot_1_r.
  - rewrite Z.quot_div_nonneg by lia.
    assert (1 ≤ (etime - Btime s) / 1000000000) by (Z.div_mod_to_equations; lia).
    split_and!; [lia|lia|done|done|].
    destruct (_ =? 0) eqn:E5; zbool; [lia|]. cbn [negb]. apply Z.quot_div_nonneg; lia.
  - split_and!; [lia|lia|done|lia|done].
Qed.

(** ** Witnesses *)

Import ToyBox.

Definition api_node (sk : bytes) : DHT :=
  NewDHT (scalar_base sk) sk [(0, make_bytes 24)].

Lemma message_delivered_witness :
  ∃ d' pkt e', SendData (str "hi") (ToHex (scalar_base (key_of 7))) (api_node (key_of 5)) = Ret d' ∧
    DhtNode.sent d' = DhtNode.sent (api_node (key_of 5)) ++ [(fixed_addr, pkt)] ∧
    HandleCryptoDataPacket pkt (api_node (key_of 7)) =
      Ret ((NET_PACKET_CRYPTO_DATA, zb PACKET_ID_MESSAGE, str "hi"), e').
Proof.
  apply (message_delivered (key_of 5) (key_of 7) (api_node (key_of 5)) (api_node (key_of 7)) (str "hi")
           (make_bytes 24) 0); try reflexivity; apply map_Forall_empty.
Defined.


(** Client 5 pings before the key pair is replaced, and again afterwards, under the key
    of the bootstrap node. *)
Definition early_ping : DhtNode.event :=
  EvDatagram 0 [] [] fixed_addr (zb NET_PACKET_PING_REQUEST :: key_of 5 ++ make_bytes 24 ++
    box_seal (zb NET_PACKET_PING_REQUEST :: be_bytes 8 9) (make_bytes 24) (box_precompute (key_of 5) (key_of 2))).

Definition boot_node : outcome hs_err (Onion_Announce * DHT * Z * list Z) :=
  bootstrap_Start (H1 := ToyDht.toy_buffer) (λ p, p <? 54432) (λ _, true) (key_of 1) (key_of 2) (key_of 3)
    [(0, make_bytes 24)] [early_ping] [] [].

Definition later_ping : bytes :=
  box_seal (zb NET_PACKET_PING_REQUEST :: be_bytes 8 9) (make_bytes 24)
    (box_precompute (scalar_base bootstrap_seckey) (key_of 5)).

Lemma bootstrap_node_runs_witness :
  ∃ a d d', boot_node = Ret (a, d, 54431, bootstrap_ports) ∧
    run_node (H1 := ToyDht.toy_buffer) [EvAddFriend 0 (key_of 4)] (a, d) = Ret (a, d') ∧
    SelfPubkey d' = scalar_base bootstrap_seckey ∧
    SharedKeysRecv d' !! key_of 5 = Some (box_precompute (key_of 5) (key_of 2)) ∧
    deliver_all (H1 := ToyDht.toy_buffer) 0 [] [] fixed_addr
      (zb NET_PACKET_PING_REQUEST :: key_of 5 ++ make_bytes 24 ++ later_ping) (a, d') = Panic.
Proof.
  assert (match boot_node with
          | Ret (a, d, port, open) =>
              match run_node (H1 := ToyDht.toy_buffer) [EvAddFriend 0 (key_of 4)] (a, d) with
              | Ret (_, d') => bool_decide (port = 54431 ∧ open = bootstrap_ports)
              | _ => false
              end
          | _ => false
          end = true) as E by (vm_compute; reflexivity).
  destruct boot_node as [[[[a d] port] open]| |] eqn:Eb; [|discriminate E..].
  destruct (run_node (H1 := ToyDht.toy_buffer) [EvAddFriend 0 (key_of 4)] (a, d)) as [[a' d']| |] eqn:Er;
    [|discriminate E..]. apply bool_decide_eq_true in E as [-> ->].
  assert (a' = a) as ->.
  { cbn [run_node exec_node] in Er. apply bind_ret_inv in Er as (s1 & E1 & Er).
    apply bind_ret_inv in E1 as (d1 & _ & E1). apply (inj Ret) in E1, Er. subst s1. by injection Er. }
  exists a, d, d'. split; [reflexivity|]. split; [exact Er|].
  destruct (bootstrap_node_runs (H1 := ToyDht.toy_buffer) (λ p, p <? 54432) (λ _, true) (key_of 1) (key_of 2)
    (key_of 3) [(0, make_bytes 24)] [early_ping] [] [] a d 54431 bootstrap_ports
    [EvAddFriend 0 (key_of 4)] (a, d') eq_refl eq_refl Eb) as (_ & _ & _ & Es & Hpk & _ & Hkeys);
    [by repeat constructor|exact Er|].
  assert (match exec_all (H1 := ToyDht.toy_buffer) [early_ping] (NewDHT (key_of 1) (key_of 2) [(0, make_bytes 24)]) with
          | Ret d0 => bool_decide (SharedKeysRecv d0 !! key_of 5 = Some (box_precompute (key_of 5) (key_of 2)))
          | _ => false
          end = true) as E0 by (vm_compute; reflexivity).
  destruct (exec_all _ _) as [d0| |] eqn:Ed0; [|discriminate E0..]. apply bool_decide_eq_true in E0.
  destruct (Hkeys d0 (key_of 5) _ eq_refl E0) as (_ & Hk & Hp).
  cbn [snd] in Hpk, Es, Hk. split; [rewrite Hpk; by rewrite Es|]. split; [exact Hk|].
  apply Hp; [reflexivity|reflexivity|vm_compute; reflexivity].
Defined.
