(* ===== verification/TbCom.v ===== *)
(** * Packets and sending of the tunnel programs (tbcom/packet.go, tbcom.go, util.go)

    What both ends of the tunnel share: the packet with its message-pack form
    (the codec is third-party code, an interface with a law), the rated sender
    that retries, TCP connections, and the registration of bot methods as
    callbacks of a tox object. *)

From S2P Require Import Prelude GoText.
Local Open Scope Z_scope.

(** ** Packets *)

Record Packet := mkPacket {
  Conidc : Z;
  Conids : Z;
  Type_ : bytes;               (* conn, close, ack, data, error *)
  Host : bytes;
  Port : Z;
  Errcode : Z;
  Errmsg : bytes;
  Data : bytes
}.

(** [&Packet{}] *)
Definition zero_packet : Packet := mkPacket 0 0 [] [] 0 0 [] [].

#[export] Instance Packet_eq_dec : EqDecision Packet.
Proof. solve_decision. Defined.

(** The values the fields of a packet can have; message pack counts the bytes
    of a string in 32 bits. *)
Definition packet_ok (p : Packet) : Prop :=
  0 ≤ Conidc p < 2 ^ 64 ∧ 0 ≤ Conids p < 2 ^ 64 ∧
  - 2 ^ 63 ≤ Port p < 2 ^ 63 ∧ - 2 ^ 63 ≤ Errcode p < 2 ^ 63 ∧
  zlen (Type_ p) < 2 ^ 32 ∧ zlen (Host p) < 2 ^ 32 ∧
  zlen (Errmsg p) < 2 ^ 32 ∧ zlen (Data p) < 2 ^ 32.

(** The codec of go-msgpack: encoding a packet, and decoding into a packet, which
    on an error has the fields decoded so far ([false]). *)
Class Msgpack := {
  mp_Encode : Packet → bytes;
  mp_Decode : bytes → Packet → Packet * bool
}.

Class MsgpackLaws (M : Msgpack) : Prop := {
  mp_roundtrip p : packet_ok p → mp_Decode (mp_Encode p) zero_packet = (p, true)
}.

(** Packet formats *)
Definition FT_MSGPACK : Z := 1.
Definition FT_GOJSONV2 : Z := 5.

(** [SetPacketFormat] on the global [fttype]: the old format and the new state. *)
Definition SetPacketFormat (fmttype fttype : Z) : Z * Z :=
  (fttype, if (fmttype >? FT_MSGPACK) && (fmttype <=? FT_GOJSONV2) then fmttype else fttype).

Definition ToMsgpack `{Msgpack} (pfx : byte) (p : Packet) : bytes := pfx :: mp_Encode p.

(** [FromMsgpack] on an empty string panics at [bcc[1:]]. *)
Definition FromMsgpack {E} `{Msgpack} (scc : bytes) (p : Packet) : outcome E (byte * bool * Packet) :=
  match scc with
  | [] => Panic
  | b :: rest => let '(p', ok) := mp_Decode rest p in Ret (b, ok, p')
  end.

(** The methods [NewClosePacket] and [NewAckPacket] of a packet *)
Definition NewClosePacket (p : Packet) : Packet :=
  mkPacket (Conidc p) (Conids p) (str "close") [] 0 0 [] [].
Definition NewAckPacket (sid : Z) (p : Packet) : Packet :=
  mkPacket (Conidc p) sid (str "ack") [] 0 0 [] [].

(** ** The rated sender

    [lk_out] are the packets handed to the tox library, which delivers them in
    order; [lk_res] are its answers to the next calls (it accepts once they are
    used up); [lk_taken] are the tokens taken from the bucket. *)

Definition ConnTimeo : Z := 10 * 10 ^ 9.
Definition WriteTimeo : Z := 20 * 10 ^ 9.
Definition ReadTimeo : Z := 30 * 10 ^ 9.
Definition baserate : Z := 10 * 1024.

Record link := mkLink { lk_out : list (Z * bytes); lk_res : list bool; lk_taken : Z }.

Record ToxRated := mkRated { bkt_rate : Z; bkt_capacity : Z }.
Definition NewToxRated : ToxRated := mkRated (12 * baserate) (10 * baserate).

Definition bkt_Wait (count : Z) (l : link) : link :=
  mkLink (lk_out l) (lk_res l) (lk_taken l + Z.max 0 count).

(** [t.FriendSendLosslessPacket]: [true] is a nil error. *)
Definition FriendSendLosslessPacket (frid : Z) (data : bytes) (l : link) : bool * link :=
  match lk_res l with
  | false :: r => (false, mkLink (lk_out l) r (lk_taken l))
  | true :: r => (true, mkLink (lk_out l ++ [(frid, data)]) r (lk_taken l))
  | [] => (true, mkLink (lk_out l ++ [(frid, data)]) [] (lk_taken l))
  end.

(** [for retry = 0; retry < 60; retry++]: the error of the last try *)
Fixpoint retry_loop (n : nat) (frid : Z) (data : bytes) (l : link) : bool * link :=
  match n with
  | O => (false, l)
  | S n =>
      let '(ok, l1) := FriendSendLosslessPacket frid data l in
      if ok then (true, l1) else retry_loop n frid data l1
  end.

Definition max_retry : nat := 60.

Definition Send (frid : Z) (data : bytes) (l : link) : bool * link :=
  let '(ok, l1) := FriendSendLosslessPacket frid data l in
  if ok then (true, bkt_Wait (Z.quot (zlen data) 2) l1)
  else retry_loop max_retry frid data (bkt_Wait (zlen data) l1).

(** ** TCP connections

    [c_in] is what the other side sends, in the pieces in which it arrives, up to
    the end of the stream; [c_read] and [c_out] are the bytes that were read and
    written.  [c_broken] says that writing fails. *)

Record conn := mkConn {
  c_in : list bytes;
  c_read : bytes;
  c_out : bytes;
  c_broken : bool;
  c_closed : bool
}.

Definition new_conn (chunks : list bytes) : conn := mkConn chunks [] [] false false.

(** [c.Read] into a buffer of [n] bytes; [None] is an error or the end. *)
Definition conn_Read (n : nat) (c : conn) : option bytes * conn :=
  if c_closed c then (None, c)
  else match c_in c with
  | [] => (None, c)
  | piece :: rest =>
      let got := take n piece in
      let left := drop n piece in
      (Some got, mkConn (if bool_decide (left = []) then rest else left :: rest)
                        (c_read c ++ got) (c_out c) (c_broken c) false)
  end.

Definition tcp_Write (data : bytes) (c : conn) : Z * conn :=
  if c_closed c || c_broken c then (0, c)
  else (zlen data, mkConn (c_in c) (c_read c) (c_out c ++ data) false false).

Definition tcp_Close (c : conn) : conn :=
  mkConn (c_in c) (c_read c) (c_out c) (c_broken c) true.

(** ** Callbacks of bots

    [AssocTo] registers every method [OnX] of a bot as the callback [CallbackX] of
    the tox object or, when that has none, of the audio/video object. *)

Inductive cb_target := OnTox | OnAV.

Record assoc := mkAssocCb { a_target : cb_target; a_callback : bytes; a_bot : nat; a_method : bytes }.

Definition assoc_method (tox_has : bytes → bool) (av_has : option (bytes → bool))
    (bot : nat) (name : bytes) : list assoc :=
  if negb (HasPrefix (str "On") name) then []
  else
    let cbmname := str "Callback" ++ drop 2 name in
    let mo3 := match av_has with Some f => f cbmname | None => false end in
    if tox_has cbmname then [mkAssocCb OnTox cbmname bot name]
    else if mo3 then [mkAssocCb OnAV cbmname bot name]
    else [].

Fixpoint AssocTo_from (tox_has : bytes → bool) (av_has : option (bytes → bool))
    (i : nat) (bots : list (list bytes)) : list assoc :=
  match bots with
  | [] => []
  | methods :: rest =>
      concat (map (assoc_method tox_has av_has i) methods) ++ AssocTo_from tox_has av_has (S i) rest
  end.

Definition AssocTo (tox_has : bytes → bool) (av_has : option (bytes → bool))
    (bots : list (list bytes)) : list assoc := AssocTo_from tox_has av_has 0 bots.

Definition Regit (methods : list bytes) (bots : list (list bytes)) : list (list bytes) :=
  bots ++ [methods].

Definition ToxidSub {E} (s : bytes) : outcome E bytes := slice_to s 5.

(** ** Sending: lemmas *)

(** The library never refuses 61 calls in a row. *)
Definition patient (res : list bool) : Prop :=
  ∀ l1 l2, res ≠ l1 ++ replicate (S max_retry) false ++ l2.

Lemma patient_suffix l res : patient (l ++ res) → patient res.
Proof. intros Hp l1 l2 ->. apply (Hp (l ++ l1) l2). by rewrite <- app_assoc. Qed.

Lemma replicate_S_app {A} n (x : A) l : x :: replicate n x ++ l = replicate n x ++ x :: l.
Proof. induction n as [|n IH]; cbn; [done|]. by rewrite <- IH. Qed.

(** What the retry loop does, by the answers it gets. *)
Lemma retry_loop_spec n frid data l :
  ∃ m, (m ≤ n)%nat ∧ lk_taken (retry_loop n frid data l).2 = lk_taken l ∧
    ((retry_loop n frid data l).1 = true ∧
     lk_out (retry_loop n frid data l).2 = lk_out l ++ [(frid, data)] ∧
     (m < n)%nat ∧
     (lk_res l = replicate m false ++ true :: lk_res (retry_loop n frid data l).2 ∨
      lk_res l = replicate m false ∧ lk_res (retry_loop n frid data l).2 = []) ∨
     m = n ∧ (retry_loop n frid data l).1 = false ∧
     lk_out (retry_loop n frid data l).2 = lk_out l ∧
     lk_res l = replicate n false ++ lk_res (retry_loop n frid data l).2).
Proof.
  revert l. induction n as [|n IH]; intros l.
  { exists 0%nat. cbn. split; [lia|]. split; [done|]. right. done. }
  cbn [retry_loop]. unfold FriendSendLosslessPacket.
  destruct (lk_res l) as [|[] r] eqn:E; cbn [fst snd lk_out lk_res lk_taken].
  - exists 0%nat. split; [lia|]. split; [done|]. left. split_and!; [done|done|lia|by right].
  - exists 0%nat. split; [lia|]. split; [done|]. left. split_and!; [done|done|lia|by left].
  - destruct (IH (mkLink (lk_out l) r (lk_taken l))) as (m & Hm & Ht & Hc). cbn [lk_out lk_res lk_taken] in *.
    exists (S m). split; [lia|]. split; [done|].
    destruct Hc as [(H1 & H2 & H3 & H4)|(-> & H1 & H2 & H3)].
    + left. split_and!; [done|done|lia|]. cbn [replicate app].
      destruct H4 as [H4|[H4 H5]]; [left; by f_equal|right; split; [by f_equal|done]].
    + right. split_and!; [done|done|done|]. cbn [replicate app]. by f_equal.
Qed.

(** What [Send] returns and leaves behind *)
Definition sent_one (l l' : link) (frid : Z) (data : bytes) (ok : bool) : Prop :=
  lk_out l' = (if ok then lk_out l ++ [(frid, data)] else lk_out l) ∧
  ∃ used, lk_res l = used ++ lk_res l'.

Lemma Send_one frid data l ok l' : Send frid data l = (ok, l') → sent_one l l' frid data ok.
Proof.
  unfold Send, FriendSendLosslessPacket. destruct (lk_res l) as [|[] r] eqn:E.
  - intros [= <- <-]. split; [done|]. rewrite E. by exists [].
  - intros [= <- <-]. split; [done|]. rewrite E. by exists [true].
  - intros Hr. set (l1 := bkt_Wait _ _) in Hr. change (lk_out l) with (lk_out l1).
    destruct (retry_loop_spec max_retry frid data l1) as (m & _ & _ & Hc). rewrite Hr in Hc.
    cbn [fst snd] in Hc. unfold sent_one. rewrite E. change r with (lk_res l1).
    destruct Hc as [(-> & H2 & _ & H4)|(_ & -> & H2 & H3)]; split; try done.
    + destruct H4 as [H4|[H4 H5]]; rewrite H4.
      * exists (false :: replicate m false ++ [true]). cbn. by rewrite <- app_assoc.
      * rewrite H5. exists (false :: replicate m false). by rewrite app_nil_r.
    + rewrite H3. by exists (false :: replicate max_retry false).
Qed.

Lemma Send_patient frid data l ok l' :
  patient (lk_res l) → Send frid data l = (ok, l') → ok = true.
Proof.
  intros Hp. unfold Send, FriendSendLosslessPacket. destruct (lk_res l) as [|[] r] eqn:E;
    [by intros [= <- _]|by intros [= <- _]|].
  intros Hr. set (l1 := bkt_Wait _ _) in Hr.
  destruct (retry_loop_spec max_retry frid data l1) as (m & _ & _ & Hc). rewrite Hr in Hc.
  destruct Hc as [(Hc & _)|(_ & _ & _ & H3)]; [exact Hc|].
  destruct (Hp [] (lk_res l')). cbn [app]. change r with (lk_res l1).
  cbn [snd] in H3. rewrite H3. done.
Qed.

(** ** A codec that has the law of the interface *)

Module ToyMsgpack.

Definition fld (s : bytes) : bytes := be_bytes 4 (zlen s) ++ s.
Definition num (z : Z) : bytes := be_bytes 8 (u64 z).

Definition enc (p : Packet) : bytes :=
  num (Conidc p) ++ num (Conids p) ++ num (Port p) ++ num (Errcode p) ++
  fld (Type_ p) ++ fld (Host p) ++ fld (Errmsg p) ++ fld (Data p).

Definition get (n : nat) (b : bytes) : option (bytes * bytes) :=
  if bool_decide (n ≤ length b)%nat then Some (take n b, drop n b) else None.
Definition get_num (b : bytes) : option (Z * bytes) := '(x, r) ← get 8 b; Some (be_val x, r).
Definition get_fld (b : bytes) : option (bytes * bytes) :=
  '(x, r) ← get 4 b; get (Z.to_nat (be_val x)) r.

Definition dec (b : bytes) : option Packet :=
  '(cidc, b) ← get_num b; '(cids, b) ← get_num b; '(port, b) ← get_num b; '(code, b) ← get_num b;
  '(ty, b) ← get_fld b; '(host, b) ← get_fld b; '(msg, b) ← get_fld b; '(d, b) ← get_fld b;
  Some (mkPacket cidc cids ty host (i64 port) (i64 code) msg d).

#[export] Instance toy_msgpack : Msgpack := {|
  mp_Encode := enc;
  mp_Decode b p := match dec b with Some p' => (p', true) | None => (p, false) end
|}.

Lemma get_app n l r : length l = n → get n (l ++ r) = Some (l, r).
Proof.
  intros <-. unfold get. rewrite bool_decide_true by (rewrite length_app; lia).
  by rewrite take_app_length, drop_app_length.
Qed.

Lemma get_num_app z r : get_num (num z ++ r) = Some (u64 z, r).
Proof.
  unfold get_num, num. rewrite get_app by apply length_be_bytes. cbn [mbind option_bind].
  rewrite be_val_be_bytes. f_equal. f_equal. apply Z.mod_small.
  apply (wrap_u_range 64). lia.
Qed.

Lemma get_fld_app s r : zlen s < 2 ^ 32 → get_fld (fld s ++ r) = Some (s, r).
Proof.
  intros Hs. unfold get_fld, fld. rewrite <- app_assoc, get_app by apply length_be_bytes.
  cbn [mbind option_bind]. rewrite be_val_be_bytes.
  replace (256 ^ Z.of_nat 4) with (2 ^ 32) by reflexivity.
  rewrite Z.mod_small by (pose proof (zlen_nonneg s); lia).
  apply get_app. unfold zlen. by rewrite Nat2Z.id.
Qed.

#[export] Instance toy_msgpack_laws : MsgpackLaws toy_msgpack.
Proof.
  constructor. intros [a b ty h po e m d] (Ha & Hb & Hp & He & H1 & H2 & H3 & H4).
  cbn [Conidc Conids Type_ Host Port Errcode Errmsg Data mp_Encode mp_Decode toy_msgpack] in *.
  unfold enc, dec. cbn [Conidc Conids Type_ Host Port Errcode Errmsg Data].
  do 4 (rewrite get_num_app; cbn [mbind option_bind]).
  do 3 (rewrite get_fld_app by done; cbn [mbind option_bind]).
  rewrite <- (app_nil_r (fld d)), get_fld_app by done. cbn [mbind option_bind].
  unfold u64, i64. rewrite !wrap_s_wrap_u, !(wrap_u_small 64), !wrap_s_small by (cbn; lia). done.
Qed.

End ToyMsgpack.
