(* ===== verification/TunClient.v ===== *)
(** * The client end of the tunnel (tbtunc/tcp_server.go, sitclient.go)

    The client accepts local TCP connections; each gets a [ConnState] and a
    goroutine [serv_tcp_conn] that asks the server for a connection, waits for the
    answer on a channel, and then forwards what it reads.  A second goroutine
    closes the connection when nothing was received for long.  Packets from the
    server arrive at [OnFriendLosslessPacket].  The connection states are shared by
    these and live in a heap; the table [connings] holds pointers.  [client_exec]
    runs one turn of one of them. *)

From S2P Require Import Prelude GoText TbCom.
Local Open Scope Z_scope.

(** ** Configuration *)

Record Config := mkConfig {
  cfg_Port : Z;
  cfg_Host : bytes;
  Peerid : bytes;
  PeerHost : bytes;
  PeerPort : Z
}.

Definition dftcfg : Config := mkConfig 2090 (str "127.0.0.1") [] (str "127.0.0.1") 9996.

(** [chkflagConfig]: the program ends without a peer. *)
Definition chkflagConfig (c : Config) : bool := negb (bool_decide (Peerid c = [])).

(** ** State *)

Record ConnState := mkState {
  cid : Z;
  c : conn;
  ch : list Packet;            (* the buffered channel, capacity 8 *)
  ch_closed : bool;
  conned : bool;
  closec : bool;
  closes : bool;
  lastRecvTM : Z;
  dlsize : Z;
  upsize : Z
}.

Definition ch_cap : nat := 8.

Definition newConnState (cid : Z) (c : conn) (now : Z) : ConnState :=
  mkState cid c [] false false false false now 0 0.

(** Where the goroutine [serv_tcp_conn] of a connection is: in the select, at the
    top of the read loop with the answer of the server, behind the loop, or
    returned. *)
Inductive pc := Waiting | Reading (ackpkt : Packet) | Finishing (ackpkt : Packet) | Returned.

Record task := mkTask { t_pc : pc; t_frid : Z; t_watched : bool }.

Record client := mkClient {
  has_tox : bool;              (* gtox != nil *)
  tptra : option ToxRated;
  connid : Z;
  connings : gmap Z nat;
  states : list ConnState;
  tasks : list task;           (* the goroutine of each connection *)
  handler : option nat;        (* the handler, between close(ch) and closes = true *)
  g_dlsize : Z;
  g_upsize : Z;
  net : link
}.

Definition new_client (has_tox : bool) (res : list bool) : client :=
  mkClient has_tox None 9 ∅ [] [] None 0 0 (mkLink [] res 0).

Definition set_states x (s : client) := mkClient (has_tox s) (tptra s) (connid s) (connings s) x
  (tasks s) (handler s) (g_dlsize s) (g_upsize s) (net s).
Definition set_tasks x (s : client) := mkClient (has_tox s) (tptra s) (connid s) (connings s) (states s)
  x (handler s) (g_dlsize s) (g_upsize s) (net s).
Definition set_connings x (s : client) := mkClient (has_tox s) (tptra s) (connid s) x (states s)
  (tasks s) (handler s) (g_dlsize s) (g_upsize s) (net s).
Definition set_handler x (s : client) := mkClient (has_tox s) (tptra s) (connid s) (connings s) (states s)
  (tasks s) x (g_dlsize s) (g_upsize s) (net s).
Definition set_net x (s : client) := mkClient (has_tox s) (tptra s) (connid s) (connings s) (states s)
  (tasks s) (handler s) (g_dlsize s) (g_upsize s) x.
Definition add_stats (dl up : Z) (s : client) := mkClient (has_tox s) (tptra s) (connid s) (connings s)
  (states s) (tasks s) (handler s) (i64 (g_dlsize s + dl)) (i64 (g_upsize s + up)) (net s).

Definition set_c x (cs : ConnState) := mkState (cid cs) x (ch cs) (ch_closed cs) (conned cs)
  (closec cs) (closes cs) (lastRecvTM cs) (dlsize cs) (upsize cs).
Definition set_ch x y (cs : ConnState) := mkState (cid cs) (c cs) x y (conned cs)
  (closec cs) (closes cs) (lastRecvTM cs) (dlsize cs) (upsize cs).
Definition set_conned (cs : ConnState) := mkState (cid cs) (c cs) (ch cs) (ch_closed cs) true
  (closec cs) (closes cs) (lastRecvTM cs) (dlsize cs) (upsize cs).
Definition set_closec (cs : ConnState) := mkState (cid cs) (c cs) (ch cs) (ch_closed cs) (conned cs)
  true (closes cs) (lastRecvTM cs) (dlsize cs) (upsize cs).
Definition set_closes (cs : ConnState) := mkState (cid cs) (c cs) (ch cs) (ch_closed cs) (conned cs)
  (closec cs) true (lastRecvTM cs) (dlsize cs) (upsize cs).
Definition set_last x (cs : ConnState) := mkState (cid cs) (c cs) (ch cs) (ch_closed cs) (conned cs)
  (closec cs) (closes cs) x (dlsize cs) (upsize cs).
Definition add_sizes dl up (cs : ConnState) := mkState (cid cs) (c cs) (ch cs) (ch_closed cs) (conned cs)
  (closec cs) (closes cs) (lastRecvTM cs) (i64 (dlsize cs + dl)) (i64 (upsize cs + up)).

Definition on_state (k : nat) (f : ConnState → ConnState) (s : client) : client :=
  set_states (alter f k (states s)) s.
Definition on_task (k : nat) (f : task → task) (s : client) : client :=
  set_tasks (alter f k (tasks s)) s.
Definition goto (p : pc) (k : nat) (s : client) : client :=
  on_task k (λ t, mkTask p (t_frid t) (t_watched t)) s.

(** A turn that cannot be taken: the goroutine is elsewhere or blocked. *)
Inductive tun_err := Blocked.

Section Client.
Context `{Msgpack}.

Definition send (frid : Z) (p : Packet) (s : client) : bool * client :=
  let '(ok, l) := Send frid (ToMsgpack xa1 p) (net s) in (ok, set_net l s).

(** The deferred [c.Close()] when [serv_tcp_conn] returns *)
Definition return_ (k : nat) (s : client) : client :=
  goto Returned k (on_state k (λ cs, set_c (tcp_Close (c cs)) cs) s).

(** ** [serv_tcp_conn] up to the select

    [frid] is what [FriendByPublicKey] returned.  The packet that is decoded again
    for the log has no effect. *)

Definition conn_packet (cfg : Config) (cid : Z) : Packet :=
  mkPacket cid 0 (str "conn") (PeerHost cfg) (PeerPort cfg) 0 [] (str "dattt").

Definition serv_tcp_conn (cfg : Config) (frid : Z) (chunks : list bytes) (now : Z) (s : client)
    : client :=
  if negb (has_tox s) then s
  else
    let tra := default NewToxRated (tptra s) in
    let id := u64 (connid s + 2) in
    let k := length (states s) in
    let s1 := mkClient (has_tox s) (Some tra) id (<[id := k]> (connings s))
                (states s ++ [newConnState id (new_conn chunks) now])
                (tasks s ++ [mkTask Waiting frid false]) (handler s)
                (g_dlsize s) (g_upsize s) (net s) in
    let '(ok, s2) := send frid (conn_packet cfg id) s1 in
    if ok then s2 else return_ k s2.

(** ** The select: an answer or the timeout of 9 seconds *)

Definition select_answer (k : nat) (s : client) : outcome tun_err client :=
  match states s !! k, tasks s !! k with
  | Some cs, Some t =>
      match t_pc t with
      | Waiting =>
          match ch cs with
          | rpkt :: rest =>
              let s1 := on_state k (set_ch rest (ch_closed cs)) s in
              if negb (bool_decide (Errmsg rpkt = [])) then Ret (return_ k s1)
              else Ret (on_task k (λ t, mkTask (Reading rpkt) (t_frid t) true)
                          (on_state k set_conned s1))
          | [] => if ch_closed cs then Ret (return_ k s) else Fail Blocked
          end
      | _ => Fail Blocked
      end
  | _, _ => Fail Blocked
  end.

Definition select_timeout (k : nat) (s : client) : outcome tun_err client :=
  match states s !! k, tasks s !! k with
  | Some cs, Some t =>
      match t_pc t with
      | Waiting => Ret (return_ k (set_connings (delete (cid cs) (connings s)) s))
      | _ => Fail Blocked
      end
  | _, _ => Fail Blocked
  end.

(** ** The read loop *)

Definition rdbuf_size : nat := 999.

Definition data_packet (cid sid : Z) (d : bytes) : Packet :=
  mkPacket cid sid (str "data") [] 0 0 [] d.
Definition close_packet (cid sid : Z) : Packet :=
  mkPacket cid sid (str "close") [] 0 0 [] [].

(** One turn; an error of sending is only printed. *)
Definition read_turn (k : nat) (s : client) : outcome tun_err client :=
  match states s !! k, tasks s !! k with
  | Some cs, Some t =>
      match t_pc t with
      | Reading ackpkt =>
          let '(r, c1) := conn_Read rdbuf_size (c cs) in
          let s1 := on_state k (set_c c1) s in
          match r with
          | None => Ret (goto (Finishing ackpkt) k s1)
          | Some got =>
              let p := data_packet (cid cs) (Conids ackpkt) got in
              let '(_, s2) := send (t_frid t) p s1 in
              let n := zlen (ToMsgpack xa1 p) in
              Ret (add_stats 0 n (on_state k (add_sizes 0 n) s2))
          end
      | _ => Fail Blocked
      end
  | _, _ => Fail Blocked
  end.

(** Behind the loop *)
Definition finish (k : nat) (s : client) : outcome tun_err client :=
  match states s !! k, tasks s !! k with
  | Some cs, Some t =>
      match t_pc t with
      | Finishing ackpkt =>
          if closes cs then Ret (return_ k s)
          else
            let s1 := set_connings (delete (cid cs) (connings s)) (on_state k set_closec s) in
            let '(_, s2) := send (t_frid t) (close_packet (cid cs) (Conids ackpkt)) s1 in
            Ret (return_ k s2)
      | _ => Fail Blocked
      end
  | _, _ => Fail Blocked
  end.

(** One turn of the goroutine that checks for a timeout *)
Definition watch (k : nat) (now : Z) (s : client) : outcome tun_err client :=
  match states s !! k, tasks s !! k with
  | Some cs, Some t =>
      if negb (t_watched t) then Fail Blocked
      else
        let dur := now - lastRecvTM cs in
        let stop := on_task k (λ t, mkTask (t_pc t) (t_frid t) false) in
        if dur <? ReadTimeo then Ret s
        else if closec cs || closes cs then Ret (stop s)
        else if dur >? Z.quot (ReadTimeo * 2) 3 then
          Ret (stop (if negb (closec cs) then on_state k (λ cs, set_c (tcp_Close (c cs)) cs) s else s))
        else Ret s
  | _, _ => Fail Blocked
  end.

(** ** The handler of packets *)

(** Sending on the channel of [k]: it blocks when the buffer is full, and panics
    on a closed channel. *)
Definition ch_send (k : nat) (p : Packet) (s : client) : outcome tun_err client :=
  match states s !! k with
  | None => Fail Blocked
  | Some cs =>
      if ch_closed cs then Panic
      else if bool_decide (length (ch cs) < ch_cap)%nat
           then Ret (on_state k (set_ch (ch cs ++ [p]) false) s)
           else Fail Blocked
  end.

(** [close(connst.ch)], which panics on a closed channel, behind the closing of
    the connection *)
Definition ch_close (k : nat) (s : client) : outcome tun_err client :=
  match states s !! k with
  | None => Fail Blocked
  | Some cs => if ch_closed cs then Panic
               else Ret (on_state k (λ cs, set_ch (ch cs) true (set_c (tcp_Close (c cs)) cs)) s)
  end.

Definition write_local (k : nat) (d : bytes) (s : client) : client :=
  match states s !! k with
  | None => s
  | Some cs =>
      let '(wn, c1) := tcp_Write d (c cs) in
      add_stats wn 0 (on_state k (λ cs, add_sizes wn 0 (set_c c1 cs)) s)
  end.

(** A packet that cannot be decoded is handled with what was decoded.  The
    handler of a close packet sets [closes] in a later step ([handler_rest]). *)
Definition OnFriendLosslessPacket (now : Z) (data : bytes) (s : client) : outcome tun_err client :=
  match handler s with
  | Some _ => Fail Blocked
  | None =>
      '(_, _, pkto) ← FromMsgpack data zero_packet;
      let found := connings s !! Conidc pkto in
      let s1 := match found with Some k => on_state k (set_last now) s | None => s end in
      if bool_decide (Type_ pkto = str "ack") then
        match found with Some k => ch_send k pkto s1 | None => Ret s1 end
      else if bool_decide (Type_ pkto = str "close") then
        match found with
        | None => Ret s1
        | Some k =>
            s2 ← ch_close k (set_connings (delete (Conidc pkto) (connings s1)) s1);
            Ret (set_handler (Some k) s2)
        end
      else if bool_decide (Type_ pkto = str "data") then
        match found with Some k => Ret (write_local k (Data pkto) s1) | None => Ret s1 end
      else Ret s1
  end.

Definition handler_rest (s : client) : outcome tun_err client :=
  match handler s with
  | None => Fail Blocked
  | Some k => Ret (set_handler None (on_state k set_closes s))
  end.

(** ** Turns *)

Inductive client_turn :=
| CAccept (frid : Z) (chunks : list bytes) (now : Z)
| CAcceptError                 (* [lsner.Accept] fails; the error is only printed *)
| CAnswer (k : nat)
| CTimeout (k : nat)
| CRead (k : nat)
| CFinish (k : nat)
| CWatch (k : nat) (now : Z)
| CPacket (now : Z) (data : bytes)
| CHandler
| CBreak (k : nat).            (* writing to the local connection fails from now on *)

Definition break_conn (x : conn) : conn := mkConn (c_in x) (c_read x) (c_out x) true (c_closed x).

Definition client_exec (cfg : Config) (t : client_turn) (s : client) : outcome tun_err client :=
  match t with
  | CAccept frid chunks now => Ret (serv_tcp_conn cfg frid chunks now s)
  | CAcceptError => Panic       (* [defer c.Close()] of a nil connection *)
  | CAnswer k => select_answer k s
  | CTimeout k => select_timeout k s
  | CRead k => read_turn k s
  | CFinish k => finish k s
  | CWatch k now => watch k now s
  | CPacket now data => OnFriendLosslessPacket now data s
  | CHandler => handler_rest s
  | CBreak k => Ret (on_state k (λ cs, set_c (break_conn (c cs)) cs) s)
  end.
End Client.
