(* ===== verification/TunServer.v ===== *)
(** * The server end of the tunnel (tbtuns/sitserver.go)

    For every connect packet of a client the server starts a goroutine that dials
    the target ([doConn]), answers, and forwards what it reads from the target
    ([copyTcp2Tox]).  Close and data packets are handled where they arrive.  The
    connection states live in a heap; the table [conns] has two keys for each. *)

From S2P Require Import Prelude GoText TbCom TunClient.
Local Open Scope Z_scope.

Record SConn := mkSConn {
  s_cid : Z;                   (* odd *)
  s_sid : Z;                   (* even *)
  s_c : conn;
  s_conned : bool;
  s_closec : bool;
  s_closes : bool
}.

(** A goroutine that was started for a connect packet *)
Inductive spc :=
| Dialling (pkto : Packet)               (* before [doConn] *)
| Copying (j : nat)                      (* at the top of the loop of [copyTcp2Tox] *)
| Leaving (j : nat)                      (* behind it *)
| Ended.

Record server := mkServer {
  s_connid : Z;
  conns : gmap Z nat;
  s_states : list SConn;
  s_tasks : list (spc * Z);              (* with the number of the friend *)
  s_tra : option ToxRated;
  s_net : link;
  dialled : list bytes                   (* the addresses given to [net.Dial] *)
}.

Definition newSitServer (res : list bool) : server := mkServer 8 ∅ [] [] None (mkLink [] res 0) [].

Definition set_s_states x (s : server) := mkServer (s_connid s) (conns s) x (s_tasks s) (s_tra s) (s_net s) (dialled s).
Definition set_s_tasks x (s : server) := mkServer (s_connid s) (conns s) (s_states s) x (s_tra s) (s_net s) (dialled s).
Definition set_conns x (s : server) := mkServer (s_connid s) x (s_states s) (s_tasks s) (s_tra s) (s_net s) (dialled s).
Definition set_s_net x (s : server) := mkServer (s_connid s) (conns s) (s_states s) (s_tasks s) (s_tra s) x (dialled s).
Definition set_s_tra x (s : server) := mkServer (s_connid s) (conns s) (s_states s) (s_tasks s) x (s_net s) (dialled s).
Definition add_dialled a (s : server) := mkServer (s_connid s) (conns s) (s_states s) (s_tasks s) (s_tra s) (s_net s) (dialled s ++ [a]).

Definition set_s_c x (cs : SConn) := mkSConn (s_cid cs) (s_sid cs) x (s_conned cs) (s_closec cs) (s_closes cs).
Definition set_s_closec (cs : SConn) := mkSConn (s_cid cs) (s_sid cs) (s_c cs) (s_conned cs) true (s_closes cs).
Definition set_s_closes (cs : SConn) := mkSConn (s_cid cs) (s_sid cs) (s_c cs) (s_conned cs) (s_closec cs) true.

Definition on_sconn (j : nat) (f : SConn → SConn) (s : server) : server :=
  set_s_states (alter f j (s_states s)) s.
Definition s_goto (i : nat) (p : spc) (s : server) : server :=
  set_s_tasks (alter (λ t, (p, t.2)) i (s_tasks s)) s.

Section Server.
Context `{Msgpack}.

Definition s_send (fn : Z) (p : Packet) (s : server) : bool * server :=
  let '(ok, l) := Send fn (ToMsgpack xa1 p) (s_net s) in (ok, set_s_net l s).

(** ** [doConn]

    The dial gives the text of an error or the connection.  The packet is
    reused for the answer; the error of sending it is only printed.  The check of
    [Conidc] sets an error that the dial overwrites. *)

Definition dial_addr (p : Packet) : bytes := Host p ++ str ":" ++ itoa (Port p).

Definition ack_of (errmsg : bytes) (sid : Z) (p : Packet) : Packet :=
  mkPacket (Conidc p) sid (str "ack") (Host p) (Port p) (Errcode p) errmsg (Data p).

Definition doConn (fn : Z) (pkto : Packet) (dial : bytes + list bytes) (s : server)
    : outcome tun_err (option nat * server) :=
  let s0 := add_dialled (dial_addr pkto) s in
  match dial with
  | inl rsperr =>
      let '(_, s1) := s_send fn (ack_of rsperr (Conids pkto) pkto) s0 in
      (* an error with an empty text would return a nil state and no error *)
      if bool_decide (rsperr = []) then Panic else Ret (None, s1)
  | inr chunks =>
      let sid := u64 (s_connid s0 + 2) in
      let j := length (s_states s0) in
      if sid =? 0 then Panic
      else
        let s1 := mkServer sid (<[sid := j]> (<[Conidc pkto := j]> (conns s0)))
                    (s_states s0 ++ [mkSConn (Conidc pkto) sid (new_conn chunks) true false false])
                    (s_tasks s0) (s_tra s0) (s_net s0) (dialled s0) in
        let '(_, s2) := s_send fn (ack_of [] sid pkto) s1 in
        Ret (Some j, s2)
  end.

(** The goroutine of a connect packet, up to the copy loop *)
Definition dial_turn (i : nat) (dial : bytes + list bytes) (s : server) : outcome tun_err server :=
  match s_tasks s !! i with
  | Some (Dialling pkto, fn) =>
      '(r, s1) ← doConn fn pkto dial s;
      Ret (s_goto i (match r with Some j => Copying j | None => Ended end) s1)
  | _ => Fail Blocked
  end.

(** ** [copyTcp2Tox] *)

Definition copy_turn (i : nat) (s : server) : outcome tun_err server :=
  match s_tasks s !! i with
  | Some (Copying j, fn) =>
      match s_states s !! j with
      | None => Fail Blocked
      | Some cs =>
          let '(r, c1) := conn_Read rdbuf_size (s_c cs) in
          let s1 := on_sconn j (set_s_c c1) s in
          match r with
          | None => Ret (s_goto i (Leaving j) s1)
          | Some got =>
              let '(ok, s2) := s_send fn (data_packet (s_cid cs) (s_sid cs) got) s1 in
              Ret (if ok then s2 else s_goto i (Leaving j) s2)
          end
      end
  | _ => Fail Blocked
  end.

Definition leave_turn (i : nat) (s : server) : outcome tun_err server :=
  match s_tasks s !! i with
  | Some (Leaving j, fn) =>
      match s_states s !! j with
      | None => Fail Blocked
      | Some cs =>
          let s1 := on_sconn j set_s_closes s in
          let s2 := if negb (s_closec cs)
                    then (s_send fn (close_packet (s_cid cs) (s_sid cs)) s1).2
                    else s1 in
          Ret (s_goto i Ended s2)
      end
  | _ => Fail Blocked
  end.

(** ** The handler of packets *)

Definition SitServer_OnFriendLosslessPacket (fn : Z) (data : bytes) (s : server)
    : outcome tun_err server :=
  '(_, ok, pkto) ← FromMsgpack data zero_packet;
  if negb ok then Ret s
  else
    let s := set_s_tra (Some (default NewToxRated (s_tra s))) s in
    if bool_decide (Type_ pkto = str "conn") then
      Ret (set_s_tasks (s_tasks s ++ [(Dialling pkto, fn)]) s)
    else if bool_decide (Type_ pkto = str "close") then
      match conns s !! Conids pkto with
      | None => Ret s
      | Some j =>
          match s_states s !! j with
          | None => Fail Blocked
          | Some cs =>
              let s1 := on_sconn j set_s_closec s in
              let s2 := set_conns (delete (s_cid cs) (delete (Conids pkto) (conns s1))) s1 in
              Ret (on_sconn j (λ cs, set_s_c (tcp_Close (s_c cs)) cs) s2)
          end
      end
    else if bool_decide (Type_ pkto = str "data") then
      match conns s !! Conids pkto with
      | None => Ret s
      | Some j => Ret (on_sconn j (λ cs, set_s_c (tcp_Write (Data pkto) (s_c cs)).2 cs) s)
      end
    else Ret s.

(** ** Turns *)

Inductive server_turn :=
| SDial (i : nat) (dial : bytes + list bytes)
| SCopy (i : nat)
| SLeave (i : nat)
| SPacket (fn : Z) (data : bytes)
| SBreak (j : nat).            (* writing to the target fails from now on *)

Definition server_exec (t : server_turn) (s : server) : outcome tun_err server :=
  match t with
  | SDial i dial => dial_turn i dial s
  | SCopy i => copy_turn i s
  | SLeave i => leave_turn i s
  | SPacket fn data => SitServer_OnFriendLosslessPacket fn data s
  | SBreak j => Ret (on_sconn j (λ cs, set_s_c (break_conn (s_c cs)) cs) s)
  end.
End Server.
