(* ===== verification/Tunnel.v ===== *)
(** * The tunnel: client and server together

    A client of TunClient.v and a server of TunServer.v, joined by the tox library,
    which delivers the packets of either side in order.  Local connections of the
    client and connections of the server to its target pair up by their
    identifiers, and a pair carries two byte streams.  The invariant says, for
    every interleaving of the goroutines of both programs, what part of each
    stream was read, is in flight and was written. *)

From S2P Require Import Prelude GoText TbCom TunClient TunServer.
Local Open Scope Z_scope.

(** ** The two programs *)

Record sys := mkSys { cl : client; sv : server }.

Inductive sys_turn :=
| TClient (t : client_turn)
| TServer (t : server_turn)
| ToServer                     (* the next packet of the client arrives *)
| ToClient (now : Z).          (* the next packet of the server arrives *)

(** Packets only arrive through the two deliveries. *)
Definition own_client_turn (t : client_turn) : bool :=
  match t with CPacket _ _ => false | _ => true end.
Definition own_server_turn (t : server_turn) : bool :=
  match t with SPacket _ _ => false | _ => true end.

Definition pop (l : link) : option (bytes * link) :=
  match lk_out l with
  | [] => None
  | (_, d) :: rest => Some (d, mkLink rest (lk_res l) (lk_taken l))
  end.

Section Sys.
Context `{Msgpack}.

(** [fn] is the client's number among the friends of the server. *)
Definition sys_exec (cfg : Config) (fn : Z) (t : sys_turn) (s : sys) : outcome tun_err sys :=
  match t with
  | TClient t =>
      if own_client_turn t then c' ← client_exec cfg t (cl s); Ret (mkSys c' (sv s)) else Fail Blocked
  | TServer t =>
      if own_server_turn t then v' ← server_exec t (sv s); Ret (mkSys (cl s) v') else Fail Blocked
  | ToServer =>
      match pop (net (cl s)) with
      | None => Fail Blocked
      | Some (d, l) =>
          v' ← server_exec (SPacket fn d) (sv s); Ret (mkSys (set_net l (cl s)) v')
      end
  | ToClient now =>
      match pop (s_net (sv s)) with
      | None => Fail Blocked
      | Some (d, l) =>
          c' ← client_exec cfg (CPacket now d) (cl s); Ret (mkSys c' (set_s_net l (sv s)))
      end
  end.

Fixpoint sys_run (cfg : Config) (fn : Z) (ts : list sys_turn) (s : sys) : outcome tun_err sys :=
  match ts with
  | [] => Ret s
  | t :: ts => s' ← sys_exec cfg fn t s; sys_run cfg fn ts s'
  end.
End Sys.

Definition new_sys (cres sres : list bool) : sys := mkSys (new_client true cres) (newSitServer sres).

(** What is assumed of the configuration and of the environment: texts are
    shorter than 4 GB, and the error of a failed dial has a text. *)
Definition cfg_ok (cfg : Config) : Prop :=
  zlen (PeerHost cfg) < 2 ^ 32 ∧ - 2 ^ 63 ≤ PeerPort cfg < 2 ^ 63.

Definition turn_ok (t : sys_turn) : Prop :=
  match t with
  | TServer (SDial _ (inl e)) => e ≠ [] ∧ zlen e < 2 ^ 32
  | _ => True
  end.

(** [Accept] of the client did not fail in this turn. *)
Definition accepted (t : sys_turn) : Prop :=
  match t with TClient CAcceptError => False | _ => True end.

(** ** Packets in flight *)

Abbreviation is_data p := (Type_ p = str "data").
Abbreviation is_close p := (Type_ p = str "close").
Abbreviation is_conn p := (Type_ p = str "conn").

(** The data of the packets of a queue that belong to one connection *)
Definition flow (f : Packet → Z) (x : Z) (q : list Packet) : bytes :=
  concat (Data <$> filter (λ p, f p = x ∧ is_data p) q).

Lemma flow_app f x q1 q2 : flow f x (q1 ++ q2) = flow f x q1 ++ flow f x q2.
Proof. unfold flow. by rewrite list.filter_app, fmap_app, concat_app. Qed.

Lemma flow_one f x p :
  flow f x [p] = if decide (f p = x ∧ is_data p) then Data p else [].
Proof.
  unfold flow. rewrite list.filter_cons. destruct (decide _); cbn; by rewrite ?app_nil_r.
Qed.

Lemma flow_cons f x p q : flow f x (p :: q) = flow f x [p] ++ flow f x q.
Proof. by rewrite <- flow_app. Qed.

Lemma flow_other f x p : f p ≠ x ∨ ¬ is_data p → flow f x [p] = [].
Proof. intros Hp. rewrite flow_one, decide_False; [done|]. intros [? ?]. by destruct Hp. Qed.

Lemma flow_data f p : is_data p → flow f (f p) [p] = Data p.
Proof. intros Hp. by rewrite flow_one, decide_True. Qed.

Lemma flow_none f x q : (∀ p, p ∈ q → is_data p → f p ≠ x) → flow f x q = [].
Proof.
  intros Hq. induction q as [|p q IH]; [done|]. rewrite flow_cons, IH by (set_solver).
  rewrite flow_other; [done|]. destruct (decide (is_data p)) as [Hd|Hd]; [|by right].
  left. apply Hq; [apply list_elem_of_here|done].
Qed.

(** Behind a close packet nothing of its connection follows. *)
Fixpoint tail_ok (sid : Z) (q : list Packet) : Prop :=
  match q with
  | [] => True
  | p :: r => (is_close p → Conids p = sid → Forall (λ p, Conids p ≠ sid) r) ∧ tail_ok sid r
  end.

Definition closing_in (sid : Z) (q : list Packet) : Prop :=
  ∃ p, p ∈ q ∧ is_close p ∧ Conids p = sid.

Lemma tail_ok_app sid q p :
  tail_ok sid q → (closing_in sid q → Conids p ≠ sid) → tail_ok sid (q ++ [p]).
Proof.
  induction q as [|r q IH]; intros Ht Hc; cbn.
  - split; [done|done].
  - destruct Ht as [H1 H2]. split.
    + intros Hr Hs. apply Forall_app. split; [by apply H1|]. apply Forall_singleton, Hc.
      exists r. split; [apply list_elem_of_here|done].
    + apply IH; [done|]. intros (p' & ? & ? & ?). apply Hc. exists p'. by split; [apply list_elem_of_further|].
Qed.

Lemma closing_in_app sid q p : closing_in sid (q ++ [p]) → closing_in sid q ∨ is_close p ∧ Conids p = sid.
Proof.
  intros (r & Hr & Hc & Hs). apply elem_of_app in Hr as [Hr|Hr]; [left; by exists r|].
  apply list_elem_of_singleton in Hr as ->. by right.
Qed.

Lemma closing_in_cons sid q p : closing_in sid q → closing_in sid (p :: q).
Proof. intros (r & Hr & Hc). exists r. split; [by apply list_elem_of_further|done]. Qed.

(** ** The invariant

    [st], [tk] and [tab] are the states, goroutines and table of the client, [ss],
    [stk] and [cn] those of the server, [cq] and [sq] the packets in flight. *)

(** The identifiers of a packet belong to one connection of the server. *)
Definition pairs (ss : list SConn) (p : Packet) : Prop :=
  ∃ j sc, ss !! j = Some sc ∧ Conids p = s_sid sc ∧ Conidc p = s_cid sc.

(** Nothing more is written to the local connection. *)
Definition dead (tab : gmap Z nat) (cs : ConnState) : Prop :=
  c_closed (c cs) = true ∨ c_broken (c cs) = true ∨ tab !! cid cs = None.

Definition copying (stk : list (spc * Z)) (j : nat) : Prop := ∃ i fn, stk !! i = Some (Copying j, fn).

(** From the local connection to the target *)
Definition fwd (cn : gmap Z nat) (cq : list Packet) (j : nat) (sc : SConn) (cs : ConnState) (t : task)
    : Prop :=
  (∃ lost, c_read (c cs) = c_out (s_c sc) ++ lost ++ flow Conids (s_sid sc) cq ∧
           (lost ≠ [] → c_broken (s_c sc) = true)) ∧
  (s_closec sc = false → cn !! s_sid sc = Some j ∧ c_closed (s_c sc) = false) ∧
  (s_closec sc = true → t_pc t = Returned ∧ Forall (λ p, Conids p ≠ s_sid sc) cq) ∧
  (closing_in (s_sid sc) cq → t_pc t = Returned) ∧
  tail_ok (s_sid sc) cq.

(** From the target to the local connection *)
Definition bwd (tab : gmap Z nat) (stk : list (spc * Z)) (sq : list Packet) (j : nat) (sc : SConn)
    (cs : ConnState) : Prop :=
  ∃ lost unsent,
    c_read (s_c sc) = c_out (c cs) ++ lost ++ flow Conidc (cid cs) sq ++ unsent ∧
    (lost ≠ [] → dead tab cs) ∧ (unsent ≠ [] → ¬ copying stk j).

(** Who may become a connection of the server: connect packets in flight and
    goroutines that have not dialled yet. *)
Definition asked (cq : list Packet) (x : Z) : Prop := ∃ p, p ∈ cq ∧ is_conn p ∧ Conidc p = x.
Definition dialling (stk : list (spc * Z)) (x : Z) : Prop :=
  ∃ i p fn, stk !! i = Some (Dialling p, fn) ∧ Conidc p = x.
Definition served (ss : list SConn) (x : Z) : Prop := ∃ j sc, ss !! j = Some sc ∧ s_cid sc = x.

Definition owner (t : spc * Z) : option nat :=
  match t.1 with Copying j | Leaving j => Some j | _ => None end.

Definition waits_for (t : task) (p : Packet) : Prop := t_pc t = Reading p ∨ t_pc t = Finishing p.

Record vinv (st : list ConnState) (tk : list task) (tab : gmap Z nat)
    (ss : list SConn) (stk : list (spc * Z)) (cn : gmap Z nat) (cq sq : list Packet) : Prop := {
  v_ids k cs : st !! k = Some cs → cid cs = 11 + 2 * Z.of_nat k;
  v_tk : length tk = length st;
  v_tab x k : tab !! x = Some k →
    x = 11 + 2 * Z.of_nat k ∧ ∃ cs, st !! k = Some cs ∧ ch_closed cs = false;
  v_sids j sc : ss !! j = Some sc → s_sid sc = 10 + 2 * Z.of_nat j;
  v_known x : asked cq x ∨ dialling stk x ∨ served ss x →
    ∃ k : nat, x = 11 + 2 * Z.of_nat k ∧ (k < length st)%nat;
  v_asked : NoDup (Conidc <$> filter (λ p, is_conn p) cq);
  v_dialling i i' p p' fn fn' : stk !! i = Some (Dialling p, fn) → stk !! i' = Some (Dialling p', fn') →
    Conidc p = Conidc p' → i = i';
  v_served j j' sc sc' : ss !! j = Some sc → ss !! j' = Some sc' → s_cid sc = s_cid sc' → j = j';
  v_once x : (asked cq x → ¬ dialling stk x ∧ ¬ served ss x) ∧ (dialling stk x → ¬ served ss x);
  v_packet i p fn : stk !! i = Some (Dialling p, fn) → packet_ok p;
  v_cq p : p ∈ cq → is_conn p ∧ Conids p = 0 ∨ (is_data p ∨ is_close p) ∧ pairs ss p;
  v_sq p : p ∈ sq → Type_ p = str "ack" ∧ (Errmsg p = [] → pairs ss p) ∨
                    (is_data p ∨ is_close p) ∧ pairs ss p;
  v_ch k cs p : st !! k = Some cs → p ∈ ch cs → Conidc p = cid cs ∧ (Errmsg p = [] → pairs ss p);
  v_pc k t p : tk !! k = Some t → waits_for t p → Conidc p = 11 + 2 * Z.of_nat k ∧ pairs ss p;
  v_own i t j : stk !! i = Some t → owner t = Some j → (j < length ss)%nat;
  v_owners i i' t t' j : stk !! i = Some t → stk !! i' = Some t' →
    owner t = Some j → owner t' = Some j → i = i';
  v_fresh k cs : st !! k = Some cs → ¬ served ss (cid cs) → c_read (c cs) = [] ∧ c_out (c cs) = [];
  v_str j sc : ss !! j = Some sc → ∃ k cs t, st !! k = Some cs ∧ tk !! k = Some t ∧
    s_cid sc = cid cs ∧ fwd cn cq j sc cs t ∧ bwd tab stk sq j sc cs
}.

Lemma vinv_new : vinv [] [] ∅ [] [] ∅ [] [].
Proof.
  constructor; try done.
  - intros x [(p & Hp & _)|[(i & p & fn & Hi & _)|(j & sc & Hj & _)]]; [by apply elem_of_nil in Hp|done|done].
  - cbn. constructor.
  - intros x. split; [intros (p & Hp & _); by apply elem_of_nil in Hp|intros (i & p & fn & Hi & _); done].
  - intros p Hp. by apply elem_of_nil in Hp.
  - intros p Hp. by apply elem_of_nil in Hp.
Qed.

(** The queue entries are the encoded packets. *)
Definition carries `{Msgpack} (l : link) (ps : list Packet) : Prop :=
  snd <$> lk_out l = ToMsgpack xa1 <$> ps ∧ Forall packet_ok ps.

Record inv `{Msgpack} (n : nat) (s : sys) (cq sq : list Packet) : Prop := {
  i_tox : has_tox (cl s) = true;
  i_cq : carries (net (cl s)) cq;
  i_sq : carries (s_net (sv s)) sq;
  i_patient : patient (lk_res (net (cl s)));
  i_connid : connid (cl s) = 9 + 2 * zlen (states (cl s));
  i_sconnid : s_connid (sv s) = 8 + 2 * zlen (s_states (sv s));
  i_small : (length (states (cl s)) ≤ n)%nat ∧ (length (s_states (sv s)) ≤ n)%nat;
  i_view : vinv (states (cl s)) (tasks (cl s)) (connings (cl s))
                (s_states (sv s)) (s_tasks (sv s)) (conns (sv s)) cq sq
}.

(** ** Steps of the client *)

Lemma alter_lookup_insert {A} (f : A → A) k (l : list A) x :
  l !! k = Some x → alter f k l = <[k := f x]> l.
Proof.
  intros Hx. apply list_eq. intros i. rewrite list_lookup_alter, list_lookup_insert.
  destruct (decide (k = i)) as [<-|Hn].
  - rewrite Hx, decide_True; [done|]. split; [done|]. by eapply lookup_lt_Some.
  - rewrite decide_False; [done|]. by intros [? _].
Qed.

(** A change of one connection of the client and of its goroutine that neither
    reads nor writes *)
Record calm (tab tab' : gmap Z nat) (ss : list SConn) (cs cs' : ConnState) (t t' : task) : Prop := {
  cm_cid : cid cs' = cid cs;
  cm_read : c_read (c cs') = c_read (c cs);
  cm_out : c_out (c cs') = c_out (c cs);
  cm_closed : c_closed (c cs) = true → c_closed (c cs') = true;
  cm_broken : c_broken (c cs) = true → c_broken (c cs') = true;
  cm_ch p : p ∈ ch cs' → p ∈ ch cs ∨ Conidc p = cid cs ∧ (Errmsg p = [] → pairs ss p);
  cm_chc : ch_closed cs' = false ∨ ch_closed cs' = ch_closed cs ∨ tab' !! cid cs = None;
  cm_tab x k : tab' !! x = Some k → tab !! x = Some k;
  cm_ret : t_pc t = Returned → t_pc t' = Returned;
  cm_pc p : waits_for t' p → waits_for t p ∨ Conidc p = cid cs ∧ pairs ss p
}.

Ltac at_insert H := apply list_lookup_insert_Some in H as [(<- & <- & _)|[? H]].

Section Calm.
Context (st : list ConnState) (tk : list task) (tab : gmap Z nat)
  (ss : list SConn) (stk : list (spc * Z)) (cn : gmap Z nat) (cq sq : list Packet).
Hypothesis V : vinv st tk tab ss stk cn cq sq.

Lemma insert_same_lookup {A} (l : list A) k x y : l !! k = Some x → <[k := y]> l !! k = Some y.
Proof. intros Hx. apply list_lookup_insert_eq. by eapply lookup_lt_Some. Qed.

Lemma vinv_calm k cs cs' t t' tab' :
  st !! k = Some cs → tk !! k = Some t → calm tab tab' ss cs cs' t t' →
  vinv (<[k := cs']> st) (<[k := t']> tk) tab' ss stk cn cq sq.
Proof.
  intros Hcs Ht C. pose proof (v_ids _ _ _ _ _ _ _ _ V) as Ids. destruct V. constructor; try done.
  - intros i x Hi. at_insert Hi; [|by apply v_ids0]. rewrite (cm_cid _ _ _ _ _ _ _ C). by apply v_ids0.
  - by rewrite !length_insert.
  - intros x i Hx. destruct (v_tab0 x i (cm_tab _ _ _ _ _ _ _ C x i Hx)) as (Ex & y & Hy & Hc).
    split; [done|]. destruct (decide (k = i)) as [<-|Hn].
    + exists cs'. split; [by eapply insert_same_lookup|]. simplify_eq.
      destruct (cm_chc _ _ _ _ _ _ _ C) as [E|[E|E]]; [done|by rewrite E|].
      rewrite (v_ids0 _ _ Hcs) in E. congruence.
    + exists y. by rewrite list_lookup_insert_ne.
  - intros x Hx. destruct (v_known0 x Hx) as (i & ? & ?). exists i. by rewrite length_insert.
  - intros i x p Hi Hp. at_insert Hi; [|by eapply v_ch0].
    rewrite (cm_cid _ _ _ _ _ _ _ C). destruct (cm_ch _ _ _ _ _ _ _ C p Hp) as [Hp'|?]; [by eapply v_ch0|done].
  - intros i x p Hi Hw. at_insert Hi; [|by eapply v_pc0].
    rewrite <- (v_ids0 _ _ Hcs). destruct (cm_pc _ _ _ _ _ _ _ C p Hw) as [Hw'|?]; [|done].
    rewrite (v_ids0 _ _ Hcs). by eapply v_pc0.
  - intros i x Hi Hs. at_insert Hi; [|by eapply v_fresh0].
    rewrite (cm_read _ _ _ _ _ _ _ C), (cm_out _ _ _ _ _ _ _ C).
    rewrite (cm_cid _ _ _ _ _ _ _ C) in Hs. by eapply v_fresh0.
  - intros j sc Hj. destruct (v_str0 j sc Hj) as (i & x & u & Hx & Hu & Hid & F & lost & un & Hb & Hl & Hun).
    assert (dead tab x → dead tab' x) as Hd.
    { intros [?|[?|Hd]]; [by left|by right; left|right; right].
      destruct (tab' !! cid x) eqn:E; [|done]. apply (cm_tab _ _ _ _ _ _ _ C) in E. congruence. }
    destruct (decide (k = i)) as [<-|Hn].
    + simplify_eq. exists k, cs', t'. rewrite (cm_cid _ _ _ _ _ _ _ C).
      split_and!; [by eapply insert_same_lookup|by eapply insert_same_lookup|done| |].
      * unfold fwd. rewrite (cm_read _ _ _ _ _ _ _ C). destruct F as (F1 & F2 & F3 & F4 & F5).
        split_and!; try done; intros ?; [|by apply C, F4]. destruct (F3 ltac:(done)). split; [by apply C|done].
      * exists lost, un. rewrite (cm_out _ _ _ _ _ _ _ C), (cm_cid _ _ _ _ _ _ _ C).
        split_and!; [done| |done]. intros Hne.
        destruct (Hd (Hl Hne)) as [?|[?|Hd']]; [left; by apply C|right; left; by apply C|right; right].
        by rewrite (cm_cid _ _ _ _ _ _ _ C).
    + exists i, x, u. rewrite !list_lookup_insert_ne by done.
      split_and!; [done|done|done|done|]. exists lost, un. auto.
Qed.
End Calm.

Lemma conn_not_data p : is_conn p → ¬ is_data p.
Proof. intros -> ?. discriminate. Qed.
Lemma conn_not_close p : is_conn p → ¬ is_close p.
Proof. intros -> ?. discriminate. Qed.
Lemma close_not_data p : is_close p → ¬ is_data p.
Proof. intros -> ?. discriminate. Qed.
Lemma close_not_conn p : is_close p → ¬ is_conn p.
Proof. intros -> ?. discriminate. Qed.
Lemma data_not_close p : is_data p → ¬ is_close p.
Proof. intros -> ?. discriminate. Qed.
Lemma data_not_conn p : is_data p → ¬ is_conn p.
Proof. intros -> ?. discriminate. Qed.
Lemma ack_not_data p : Type_ p = str "ack" → ¬ is_data p.
Proof. intros -> ?. discriminate. Qed.
Lemma ack_not_close p : Type_ p = str "ack" → ¬ is_close p.
Proof. intros -> ?. discriminate. Qed.

Create HintDb tunnel.
#[local] Hint Resolve conn_not_data conn_not_close close_not_data close_not_conn
  data_not_close data_not_conn ack_not_data ack_not_close : tunnel.

Lemma asked_app cq p x : asked (cq ++ [p]) x → asked cq x ∨ is_conn p ∧ Conidc p = x.
Proof.
  intros (r & Hr & Hc). apply elem_of_app in Hr as [Hr|Hr]; [left; by exists r|].
  apply list_elem_of_singleton in Hr as ->. by right.
Qed.

Lemma asked_cons cq p x : asked cq x → asked (p :: cq) x.
Proof. intros (r & Hr & Hc). exists r. split; [by apply list_elem_of_further|done]. Qed.

(** A packet that says nothing about the connection [sid] of the server leaves its
    stream alone. *)
Lemma fwd_app cn cq j sc cs t p :
  Conids p ≠ s_sid sc → fwd cn cq j sc cs t → fwd cn (cq ++ [p]) j sc cs t.
Proof.
  intros Hp ((lost & F1 & Fl) & F2 & F3 & F4 & F5). split_and!.
  - exists lost. rewrite flow_app, (flow_other Conids), app_nil_r by (by left). done.
  - done.
  - intros Hc. destruct (F3 Hc). split; [done|]. apply Forall_app. split; [done|]. by apply Forall_singleton.
  - intros Hc. by destruct (closing_in_app _ _ _ Hc) as [?|[_ ?]]; [apply F4|].
  - by apply tail_ok_app.
Qed.

Lemma fwd_cons cn p cq j sc cs t :
  Conids p ≠ s_sid sc → fwd cn (p :: cq) j sc cs t → fwd cn cq j sc cs t.
Proof.
  intros Hp ((lost & F1 & Fl) & F2 & F3 & F4 & F5). split_and!.
  - exists lost. by rewrite flow_cons, (flow_other Conids) in F1 by (by left).
  - done.
  - intros Hc. destruct (F3 Hc) as [? Hf]. split; [done|]. by apply list.Forall_cons in Hf as [_ ?].
  - intros Hc. by apply F4, closing_in_cons.
  - by destruct F5.
Qed.

Section Client.
Context (st : list ConnState) (tk : list task) (tab : gmap Z nat)
  (ss : list SConn) (stk : list (spc * Z)) (cn : gmap Z nat) (cq sq : list Packet).
Hypothesis V : vinv st tk tab ss stk cn cq sq.

Lemma sid_not_zero j sc : ss !! j = Some sc → 0 ≠ s_sid sc.
Proof using V. intros Hj. rewrite (v_sids _ _ _ _ _ _ _ _ V _ _ Hj). lia. Qed.

(** A new local connection and its connect packet *)
Lemma vinv_accept id p chunks now fr w :
  id = 11 + 2 * zlen st → is_conn p → Conids p = 0 → Conidc p = id →
  vinv (st ++ [newConnState id (new_conn chunks) now]) (tk ++ [mkTask Waiting fr w])
    (<[id := length st]> tab) ss stk cn (cq ++ [p]) sq.
Proof using V.
  intros Hid Hp Hz Hc. pose proof sid_not_zero as Nz. destruct V.
  assert (∀ x, asked cq x ∨ dialling stk x ∨ served ss x → x ≠ id) as Hnew.
  { intros x Hx ->. destruct (v_known0 _ Hx) as (k & E & Hk). unfold zlen in Hid. lia. }
  constructor; try done.
  - intros k cs Hk. apply lookup_snoc_Some in Hk as [[_ Hk]|[-> <-]]; [by apply v_ids0|done].
  - rewrite !length_app. cbn. lia.
  - intros x k Hx. apply lookup_insert_Some in Hx as [[<- <-]|[_ Hx]].
    + split; [done|]. eexists. split; [by rewrite lookup_app_r, Nat.sub_diag|done].
    + destruct (v_tab0 _ _ Hx) as (? & cs & ? & ?). split; [done|]. exists cs. by rewrite (lookup_app_l_Some _ _ _ cs).
  - intros x Hx. rewrite length_app. cbn.
    assert (asked cq x ∨ dialling stk x ∨ served ss x ∨ x = id) as Hx'.
    { destruct Hx as [Hx|[Hx|Hx]]; [|tauto|tauto]. apply asked_app in Hx as [?|[_ <-]]; [tauto|].
      rewrite Hc. tauto. }
    destruct (decide (x = id)) as [->|Hn].
    + exists (length st). split; [done|lia].
    + destruct (v_known0 x) as (k & ? & ?); [tauto|]. exists k. split; [done|lia].
  - rewrite list.filter_app, fmap_app. apply list.NoDup_app. split; [done|].
    rewrite list.filter_cons, decide_True by done. cbn. split; [|apply NoDup_singleton].
    intros x Hx. apply list_elem_of_fmap in Hx as (r & -> & Hr).
    apply list_elem_of_filter in Hr as [Hr1 Hr2]. intros Hr3. apply list_elem_of_singleton in Hr3.
    eapply (Hnew (Conidc r)); [|congruence]. left. by exists r.
  - intros x. split; [|apply v_once0]. intros Hx. apply asked_app in Hx as [Hx|[_ <-]]; [by apply v_once0|].
    rewrite Hc. split; intros Hx; eapply Hnew; eauto.
  - intros r Hr. apply elem_of_app in Hr as [Hr|Hr]; [by apply v_cq0|].
    apply list_elem_of_singleton in Hr as ->. by left.
  - intros k cs r Hk. apply lookup_snoc_Some in Hk as [[_ Hk]|[-> <-]]; [exact (v_ch0 _ _ _ Hk)|].
    intros Hr. by apply elem_of_nil in Hr.
  - intros k t r Hk Hw. apply lookup_snoc_Some in Hk as [[_ Hk]|[_ <-]]; [by eapply v_pc0|].
    by destruct Hw as [[=]|[=]].
  - intros k cs Hk. apply lookup_snoc_Some in Hk as [[_ Hk]|[-> <-]]; [exact (v_fresh0 _ _ Hk)|done].
  - intros j sc Hj. destruct (v_str0 j sc Hj) as (k & cs & t & Hk & Ht & Hs & F & lost & un & Hb & Hl & Hu).
    exists k, cs, t. rewrite (lookup_app_l_Some _ _ _ _ Hk), (lookup_app_l_Some _ _ _ _ Ht).
    split_and!; [done|done|done|apply fwd_app; [rewrite Hz; by eapply Nz|done]|].
    exists lost, un. split_and!; [done| |done]. intros Hne.
    destruct (Hl Hne) as [?|[?|Hd]]; [by left|by right; left|right; right].
    rewrite lookup_insert_ne; [done|]. rewrite (v_ids0 _ _ Hk). apply lookup_lt_Some in Hk. unfold zlen in Hid. lia.
Qed.

Lemma not_conn_asked p x : ¬ is_conn p → asked (cq ++ [p]) x → asked cq x.
Proof using. intros Hn Hx. by apply asked_app in Hx as [?|[? _]]. Qed.

Lemma not_conn_nodup p : ¬ is_conn p → NoDup (Conidc <$> filter (λ p, is_conn p) (cq ++ [p])).
Proof using V.
  intros Hn. rewrite list.filter_app, list.filter_cons, decide_False by done. cbn.
  rewrite app_nil_r. apply V.
Qed.

(** The goroutine of a connection sends a data packet with what it read, or the
    close packet. *)
Lemma vinv_send k cs t t' ack c' p :
  st !! k = Some cs → tk !! k = Some t → waits_for t ack →
  Conids p = Conids ack → Conidc p = cid cs → is_data p ∨ is_close p →
  c_read c' = c_read (c cs) ++ flow Conids (Conids p) [p] → c_out c' = c_out (c cs) →
  (c_closed (c cs) = true → c_closed c' = true) → (c_broken (c cs) = true → c_broken c' = true) →
  (is_close p → t_pc t' = Returned) → (∀ r, waits_for t' r → waits_for t r) →
  vinv (<[k := set_c c' cs]> st) (<[k := t']> tk) tab ss stk cn (cq ++ [p]) sq.
Proof using V.
  intros Hk Ht Hw Hs Hc Hty Hrd Hout Hcl Hbr Hret Hw'. pose proof not_conn_nodup as Hnd.
  destruct (v_pc _ _ _ _ _ _ _ _ V _ _ _ Ht Hw) as [Hcid (j & sc & Hj & Hsid & Hscid)].
  rewrite <- (v_ids _ _ _ _ _ _ _ _ V _ _ Hk) in Hcid.
  assert (pairs ss p) as Hpp by (exists j, sc; split_and!; congruence).
  assert (¬ is_conn p) as Hnc by (destruct Hty; auto with tunnel).
  assert (t_pc t ≠ Returned) as Hnr by (destruct Hw; congruence).
  destruct V. constructor; try done.
  - intros i x Hi. at_insert Hi; [exact (v_ids0 _ _ Hk)|by apply v_ids0].
  - by rewrite !length_insert.
  - intros x i Hx. destruct (v_tab0 x i Hx) as (Ex & y & Hy & Hyc). split; [done|].
    destruct (decide (k = i)) as [<-|Hn].
    + exists (set_c c' cs). split; [by eapply insert_same_lookup|]. simplify_eq. done.
    + exists y. by rewrite list_lookup_insert_ne.
  - intros x Hx. destruct (v_known0 x) as (i & ? & ?).
    { destruct Hx as [Hx|Hx]; [left; by eapply not_conn_asked|by right]. }
    exists i. by rewrite length_insert.
  - by apply Hnd.
  - intros x. split; [|apply v_once0]. intros Hx. by apply v_once0, (not_conn_asked p).
  - intros r Hr. apply elem_of_app in Hr as [Hr|Hr]; [by apply v_cq0|].
    apply list_elem_of_singleton in Hr as ->. by right.
  - intros i x r Hi. at_insert Hi; [exact (v_ch0 k cs r Hk)|exact (v_ch0 i x r Hi)].
  - intros i x r Hi Hwr. at_insert Hi; [by eapply v_pc0, Hw'|by eapply v_pc0].
  - intros i x Hi Hsv. at_insert Hi; [|exact (v_fresh0 i x Hi Hsv)].
    destruct Hsv. exists j, sc. split; [done|]. cbn. congruence.
  - intros j' sc' Hj'. destruct (v_str0 j' sc' Hj') as (i & x & u & Hx & Hu & Hid & F & B).
    destruct (decide (k = i)) as [<-|Hn].
    + simplify_eq. assert (j' = j) as -> by (eapply v_served0; [done|done|congruence]). simplify_eq.
      exists k, (set_c c' cs), t'. split_and!; [by eapply insert_same_lookup|by eapply insert_same_lookup|done| |].
      * destruct F as ((lost & F1 & Fl) & F2 & F3 & F4 & F5).
        assert (s_closec sc = false) as Hsc.
        { destruct (s_closec sc) eqn:E; [|done]. by destruct (F3 eq_refl). }
        assert (¬ closing_in (s_sid sc) cq) as Hnc' by tauto.
        split_and!; [|done|by rewrite Hsc| |by apply tail_ok_app].
        -- exists lost. split; [|done]. cbn [c set_c]. rewrite Hrd, F1, flow_app, Hs, Hsid, <- !app_assoc. done.
        -- intros Hci. apply closing_in_app in Hci as [?|[? _]]; [tauto|by apply Hret].
      * destruct B as (lost & un & B1 & B2 & B3). exists lost, un. cbn [c set_c cid]. rewrite Hout.
        split_and!; [done| |done]. intros Hne. destruct (B2 Hne) as [?|[?|?]]; unfold dead; cbn; tauto.
    + exists i, x, u. rewrite !list_lookup_insert_ne by done. split_and!; [done|done|done| |done].
      apply fwd_app; [|done]. rewrite Hs, Hsid, (v_sids0 _ _ Hj), (v_sids0 _ _ Hj').
      assert (j ≠ j'); [|lia]. intros <-. simplify_eq.
      assert (cid cs = cid x) as E by congruence. rewrite (v_ids0 _ _ Hk), (v_ids0 _ _ Hx) in E. lia.
Qed.
End Client.

(** ** Packets that arrive at the client *)

Lemma lost_nil_or (l : bytes) : l = [] ∨ l ≠ [].
Proof. destruct l; [by left|by right]. Qed.

Section ToClient.
Context (st : list ConnState) (tk : list task) (tab : gmap Z nat)
  (ss : list SConn) (stk : list (spc * Z)) (cn : gmap Z nat) (cq sq : list Packet) (p : Packet).
Hypothesis V : vinv st tk tab ss stk cn cq (p :: sq).

(** A packet without data, or whose connection is gone *)
Lemma vinv_pop_sq : ¬ is_data p ∨ tab !! Conidc p = None → vinv st tk tab ss stk cn cq sq.
Proof using V.
  intros Hp. destruct V. constructor; try done.
  - intros r Hr. by apply v_sq0, list_elem_of_further.
  - intros j sc Hj. destruct (v_str0 j sc Hj) as (k & cs & t & Hk & Ht & Hid & F & lost & un & B1 & B2 & B3).
    exists k, cs, t. split_and!; [done..|]. rewrite flow_cons in B1.
    destruct (decide (Conidc p = cid cs ∧ is_data p)) as [[He Hd]|Hn].
    + destruct Hp as [Hp|Hp]; [done|]. rewrite <- He, flow_data in B1 by done.
      exists (lost ++ Data p), un. rewrite <- He, B1, <- !app_assoc. split_and!; [done| |done].
      intros _. right; right. by rewrite <- He.
    + rewrite flow_other in B1 by (destruct (decide (is_data p)); tauto). by exists lost, un.
Qed.

Lemma vinv_pop_write k cs :
  is_data p → tab !! Conidc p = Some k → st !! k = Some cs →
  vinv (<[k := set_c (tcp_Write (Data p) (c cs)).2 cs]> st) tk tab ss stk cn cq sq.
Proof using V.
  intros Hd Htab Hk. destruct V.
  destruct (v_tab0 _ _ Htab) as (Hcid & cs0 & Hcs0 & Hch). simplify_eq.
  rewrite <- (v_ids0 _ _ Hk) in Hcid.
  destruct (v_sq0 p) as [[Ha _]|[_ (j & sc & Hj & Hsid & Hscid)]]; [apply list_elem_of_here|by apply ack_not_data in Ha|].
  set (c' := (tcp_Write (Data p) (c cs)).2).
  assert (c_read c' = c_read (c cs)) as Er by (unfold c', tcp_Write; by destruct (_ || _)).
  constructor; try done.
  - intros i x Hi. at_insert Hi; [exact (v_ids0 _ _ Hk)|by apply v_ids0].
  - by rewrite length_insert.
  - intros x i Hx. destruct (v_tab0 x i Hx) as (Ex & y & Hy & Hyc). split; [done|].
    destruct (decide (k = i)) as [<-|Hn].
    + exists (set_c c' cs). split; [by eapply insert_same_lookup|]. done.
    + exists y. by rewrite list_lookup_insert_ne.
  - intros x Hx. destruct (v_known0 x Hx) as (i & ? & ?). exists i. by rewrite length_insert.
  - intros r Hr. by apply v_sq0, list_elem_of_further.
  - intros i x r Hi. at_insert Hi; [exact (v_ch0 k cs r Hk)|exact (v_ch0 i x r Hi)].
  - intros i x Hi Hsv. at_insert Hi; [|exact (v_fresh0 i x Hi Hsv)].
    destruct Hsv. exists j, sc. split; [done|]. cbn. congruence.
  - intros j' sc' Hj'. destruct (v_str0 j' sc' Hj') as (i & x & u & Hx & Hu & Hid & F & lost & un & B1 & B2 & B3).
    rewrite flow_cons in B1. destruct (decide (k = i)) as [<-|Hn].
    + simplify_eq. exists k, (set_c c' cs), u.
      split_and!; [by eapply insert_same_lookup|done|done| |].
      * unfold fwd. cbn [c set_c]. by rewrite Er.
      * rewrite <- Hcid, flow_data in B1 by done. unfold bwd, dead. cbn [c set_c cid].
        unfold c', tcp_Write. destruct (c_closed (c cs) || c_broken (c cs)) eqn:E; cbn [snd].
        -- exists (lost ++ Data p), un. rewrite B1, <- !app_assoc, Hcid. split_and!; [done| |done]. intros _.
           apply orb_true_iff in E. tauto.
        -- apply orb_false_iff in E as [E1 E2]. exists [], un. cbn [c_out c_closed c_broken app].
           assert (lost = []) as ->.
           { destruct (lost_nil_or lost) as [?|Hne]; [done|]. destruct (B2 Hne) as [?|[?|Ht]]; [congruence..|].
             rewrite <- Hcid in Ht. congruence. }
           rewrite B1, <- !app_assoc, Hcid. split_and!; [done|done|done].
    + exists i, x, u. rewrite !list_lookup_insert_ne by done. split_and!; [done..|].
      exists lost, un. rewrite flow_other in B1; [by split_and!|]. left. rewrite Hcid, (v_ids0 _ _ Hk), (v_ids0 _ _ Hx). lia.
Qed.
End ToClient.

(** ** Packets that arrive at the server *)

Section ToServer.
Context (st : list ConnState) (tk : list task) (tab : gmap Z nat)
  (ss : list SConn) (stk : list (spc * Z)) (cn : gmap Z nat) (cq sq : list Packet) (p : Packet).
Hypothesis V : vinv st tk tab ss stk cn (p :: cq) sq.

Lemma pop_nodup : NoDup (Conidc <$> filter (λ p, is_conn p) cq).
Proof using V.
  pose proof (v_asked _ _ _ _ _ _ _ _ V) as Hn. rewrite list.filter_cons in Hn.
  destruct (decide (is_conn p)); [|done]. cbn in Hn. by apply list.NoDup_cons in Hn as [_ ?].
Qed.

(** A connect packet starts a goroutine. *)
Lemma vinv_pop_conn fn :
  is_conn p → packet_ok p → vinv st tk tab ss (stk ++ [(Dialling p, fn)]) cn cq sq.
Proof using V.
  intros Hc Hok. pose proof pop_nodup as Hnd. pose proof (sid_not_zero _ _ _ _ _ _ _ _ V) as Nz.
  assert (∀ x, dialling (stk ++ [(Dialling p, fn)]) x → dialling stk x ∨ x = Conidc p) as Hdl.
  { intros x (i & r & f & Hi & Hx). apply lookup_snoc_Some in Hi as [[_ Hi]|[_ Hi]]; [left; by exists i, r, f|].
    right. congruence. }
  destruct V.
  assert (Conids p = 0) as Hz.
  { destruct (v_cq0 p ltac:(apply list_elem_of_here)) as [[_ ?]|[[Hd|Hd] _]];
      [done|by apply data_not_conn in Hd|by apply close_not_conn in Hd]. }
  assert (asked (p :: cq) (Conidc p)) as Hask by (exists p; split; [apply list_elem_of_here|done]).
  constructor; try done.
  - intros x Hx. apply v_known0. destruct Hx as [Hx|[Hx|Hx]]; [left; by apply asked_cons| |by right; right].
    apply Hdl in Hx as [?| ->]; [by right; left|by left].
  - intros i i' r r' f f' Hi Hi' He.
    apply lookup_snoc_Some in Hi as [[_ Hi]|[-> Hi]]; apply lookup_snoc_Some in Hi' as [[_ Hi']|[-> Hi']].
    + by eapply v_dialling0.
    + destruct (v_once0 (Conidc p)) as [Ho _]. destruct (Ho Hask) as [[] _]. exists i, r, f. split; congruence.
    + destruct (v_once0 (Conidc p)) as [Ho _]. destruct (Ho Hask) as [[] _]. exists i', r', f'. split; congruence.
    + done.
  - intros x. split.
    + intros Hx. destruct (v_once0 x) as [Ho _]. destruct (Ho (asked_cons _ _ _ Hx)) as [Hd Hs]. split; [|done].
      intros Hd'. apply Hdl in Hd' as [?| ->]; [tauto|]. destruct Hx as (r & Hr & Hrc & Hre).
      pose proof v_asked0 as Hn. rewrite list.filter_cons, decide_True in Hn by done. cbn in Hn.
      apply list.NoDup_cons in Hn as [Hn _]. apply Hn. rewrite <- Hre. apply list_elem_of_fmap_2, list_elem_of_filter. done.
    + intros Hd'. apply Hdl in Hd' as [Hd'| ->].
      * by destruct (v_once0 x) as [_ Ho]; apply Ho.
      * destruct (v_once0 (Conidc p)) as [Ho _]. by destruct (Ho Hask).
  - intros i r f Hi. apply lookup_snoc_Some in Hi as [[_ Hi]|[_ Hi]]; [by eapply v_packet0|congruence].
  - intros r Hr. by apply v_cq0, list_elem_of_further.
  - intros i t j Hi. apply lookup_snoc_Some in Hi as [[_ Hi]|[_ <-]]; [by eapply v_own0|done].
  - intros i i' t t' j Hi Hi' Ho Ho'.
    apply lookup_snoc_Some in Hi as [[_ Hi]|[_ <-]]; [|done].
    apply lookup_snoc_Some in Hi' as [[_ Hi']|[_ <-]]; [|done]. by eapply v_owners0.
  - intros j sc Hj. destruct (v_str0 j sc Hj) as (k & cs & t & Hk & Ht & Hid & F & lost & un & B1 & B2 & B3).
    exists k, cs, t. split_and!; [done..| |].
    + eapply fwd_cons; [|exact F]. rewrite Hz. by eapply Nz.
    + exists lost, un. split_and!; [done|done|]. intros Hne (i & f & Hi).
      apply lookup_snoc_Some in Hi as [[_ Hi]|[_ Hi]]; [|done]. apply (B3 Hne). by exists i, f.
Qed.
End ToServer.

(** ** A connection of the server changes without reading *)

Section SConnChange.
Context (st : list ConnState) (tk : list task) (tab : gmap Z nat)
  (ss : list SConn) (stk : list (spc * Z)) (cn : gmap Z nat) (cq sq : list Packet).
Context (j : nat) (sc sc' : SConn).
Hypothesis V : vinv st tk tab ss stk cn cq sq.
Hypothesis Hj : ss !! j = Some sc.
Hypothesis Hsid : s_sid sc' = s_sid sc.
Hypothesis Hcid : s_cid sc' = s_cid sc.

Lemma pairs_same r : pairs ss r → pairs (<[j := sc']> ss) r.
Proof using Hj Hsid Hcid.
  intros (i & x & Hi & H1 & H2). destruct (decide (j = i)) as [<-|Hn].
  - exists j, sc'. split; [by eapply insert_same_lookup|]. simplify_eq. by rewrite Hsid, Hcid.
  - exists i, x. by rewrite list_lookup_insert_ne.
Qed.

Lemma served_same x : served (<[j := sc']> ss) x → served ss x.
Proof using Hj Hcid.
  intros (i & y & Hi & He). at_insert Hi; [|by exists i, y]. exists j, sc. split; [done|congruence].
Qed.

Lemma vinv_sconn_gen cn' cq' sq' :
  (∀ r, r ∈ cq' → r ∈ cq) →
  (∀ r, r ∈ sq' → r ∈ sq ∨ (is_data r ∨ is_close r) ∧ pairs ss r) →
  NoDup (Conidc <$> filter (λ p, is_conn p) cq') →
  (∀ cs t, fwd cn cq j sc cs t → fwd cn' cq' j sc' cs t) →
  (∀ i x cs t, i ≠ j → ss !! i = Some x → fwd cn cq i x cs t → fwd cn' cq' i x cs t) →
  (∀ cs, s_cid sc = cid cs → bwd tab stk sq j sc cs → bwd tab stk sq' j sc' cs) →
  (∀ i x cs, i ≠ j → ss !! i = Some x → s_cid x = cid cs → bwd tab stk sq i x cs → bwd tab stk sq' i x cs) →
  vinv st tk tab (<[j := sc']> ss) stk cn' cq' sq'.
Proof using V Hj Hsid Hcid.
  intros Hsub Hsubs Hnd Hown Hother Hbo Hbx. pose proof pairs_same as Hps. pose proof served_same as Hsv. destruct V.
  assert (∀ x, asked cq' x → asked cq x) as Hask by (intros x (r & Hr & ?); exists r; auto).
  constructor; try done.
  - intros i x Hi. at_insert Hi; [|by apply v_sids0]. rewrite Hsid. by apply v_sids0.
  - intros x Hx. apply v_known0. destruct Hx as [?|[?|?]]; auto.
  - intros i i' x x' Hi Hi'. at_insert Hi; at_insert Hi'; [done| | |by apply v_served0]; rewrite ?Hcid;
      intros He; by eapply v_served0.
  - intros x. destruct (v_once0 x) as [H1 H2]. split.
    + intros Ha. destruct (H1 (Hask _ Ha)) as [? Hs]. split; [done|]. intros ?. by apply Hs, Hsv.
    + intros Hd ?. by apply (H2 Hd), Hsv.
  - intros r Hr. destruct (v_cq0 r (Hsub _ Hr)) as [?|[? ?]]; [by left|]. right. auto.
  - intros r Hr. destruct (Hsubs r Hr) as [Hr'|[? ?]]; [|right; auto].
    destruct (v_sq0 r Hr') as [[? ?]|[? ?]]; [left|right]; auto.
  - intros k cs r Hk Hr. destruct (v_ch0 _ _ _ Hk Hr). auto.
  - intros k t r Hk Hr. destruct (v_pc0 _ _ _ Hk Hr). auto.
  - intros i t i' Hi Ho. rewrite length_insert. by eapply v_own0.
  - intros k cs Hk Hs. apply (v_fresh0 k cs Hk). intros (i & x & Hi & He). apply Hs.
    destruct (decide (j = i)) as [<-|Hn].
    + exists j, sc'. split; [by eapply insert_same_lookup|congruence].
    + exists i, x. by rewrite list_lookup_insert_ne.
  - intros i x Hi. at_insert Hi.
    + destruct (v_str0 j sc Hj) as (k & cs & t & Hk & Ht & Hid & F & B).
      exists k, cs, t. rewrite Hcid. split_and!; [done..|by apply Hown|by apply Hbo].
    + destruct (v_str0 i x Hi) as (k & cs & t & Hk & Ht & Hid & F & B).
      exists k, cs, t. split_and!; [done..|by apply Hother|by eapply Hbx].
Qed.

Lemma vinv_sconn cn' cq' :
  c_read (s_c sc') = c_read (s_c sc) → (∀ r, r ∈ cq' → r ∈ cq) →
  NoDup (Conidc <$> filter (λ p, is_conn p) cq') →
  (∀ cs t, fwd cn cq j sc cs t → fwd cn' cq' j sc' cs t) →
  (∀ i x cs t, i ≠ j → ss !! i = Some x → fwd cn cq i x cs t → fwd cn' cq' i x cs t) →
  vinv st tk tab (<[j := sc']> ss) stk cn' cq' sq.
Proof using V Hj Hsid Hcid.
  intros Hrd Hsub Hnd Hown Hother. apply vinv_sconn_gen; try done; [by left|].
  intros cs _ B. unfold bwd. by rewrite Hrd.
Qed.
End SConnChange.

(** Data and close packets at the server *)

Section ToServer2.
Context (st : list ConnState) (tk : list task) (tab : gmap Z nat)
  (ss : list SConn) (stk : list (spc * Z)) (cn : gmap Z nat) (cq sq : list Packet) (p : Packet).
Hypothesis V : vinv st tk tab ss stk cn (p :: cq) sq.

(** Its connection is in the table. *)
Lemma pop_found : is_data p ∨ is_close p →
  ∃ j sc, cn !! Conids p = Some j ∧ ss !! j = Some sc ∧ Conids p = s_sid sc ∧ s_closec sc = false.
Proof using V.
  intros Hty. destruct V. destruct (v_cq0 p ltac:(apply list_elem_of_here)) as [[Hc _]|[_ (j & sc & Hj & Hs & _)]].
  { destruct Hty as [Ht|Ht]; [by apply data_not_conn in Ht|by apply close_not_conn in Ht]. }
  destruct (v_str0 j sc Hj) as (k & cs & t & _ & _ & _ & (_ & F2 & F3 & _) & _).
  destruct (s_closec sc) eqn:E.
  - destruct (F3 eq_refl) as [_ Hf]. by apply list.Forall_cons in Hf as [? _].
  - destruct (F2 eq_refl) as [? _]. exists j, sc. rewrite Hs. done.
Qed.

Lemma other_sid i j x sc : ss !! i = Some x → ss !! j = Some sc → i ≠ j → s_sid sc ≠ s_sid x.
Proof using V. intros Hi Hj ?. rewrite (v_sids _ _ _ _ _ _ _ _ V _ _ Hi), (v_sids _ _ _ _ _ _ _ _ V _ _ Hj). lia. Qed.

Lemma vinv_pop_data j sc :
  is_data p → cn !! Conids p = Some j → ss !! j = Some sc → Conids p = s_sid sc →
  vinv st tk tab (<[j := set_s_c (tcp_Write (Data p) (s_c sc)).2 sc]> ss) stk cn cq sq.
Proof using V.
  intros Hd Hcn Hj Hs. eapply vinv_sconn; [exact V|exact Hj|done|done| | | | |].
  - unfold tcp_Write. by destruct (_ || _).
  - intros r Hr. by apply list_elem_of_further.
  - by eapply pop_nodup.
  - intros cs t ((lost & F1 & Fl) & F2 & F3 & F4 & F5). unfold fwd. cbn [s_c s_sid s_closec set_s_c].
    assert (s_closec sc = false) as Hc.
    { destruct (s_closec sc); [|done]. destruct (F3 eq_refl) as [_ Hf]. by apply list.Forall_cons in Hf as [? _]. }
    destruct (F2 Hc) as [F2a F2b]. rewrite flow_cons, <- Hs, flow_data in F1 by done. split_and!.
    + unfold tcp_Write. rewrite F2b. destruct (c_broken (s_c sc)) eqn:Eb; cbn [orb snd].
      * exists (lost ++ Data p). rewrite F1, <- !app_assoc, Hs. by split; [|intros _].
      * exists []. cbn [c_out app]. assert (lost = []) as ->.
        { destruct (lost_nil_or lost) as [?|Hne]; [done|]. specialize (Fl Hne). congruence. }
        rewrite F1, <- !app_assoc, Hs. done.
    + intros _. split; [done|]. unfold tcp_Write. rewrite F2b. by destruct (c_broken (s_c sc)).
    + by rewrite Hc.
    + intros Hci. by apply F4, closing_in_cons.
    + by destruct F5.
  - intros i x cs t Hn Hi F. eapply fwd_cons; [|exact F]. rewrite Hs. eapply other_sid; done.
Qed.

Lemma vinv_pop_close j sc :
  is_close p → cn !! Conids p = Some j → ss !! j = Some sc → Conids p = s_sid sc →
  vinv st tk tab (<[j := set_s_c (tcp_Close (s_c sc)) (set_s_closec sc)]> ss) stk
    (delete (s_cid sc) (delete (Conids p) cn)) cq sq.
Proof using V.
  intros Hc Hcn Hj Hs. eapply vinv_sconn; [exact V|exact Hj|done|done| | | | |].
  - done.
  - intros r Hr. by apply list_elem_of_further.
  - by eapply pop_nodup.
  - intros cs t ((lost & F1 & Fl) & F2 & F3 & F4 & F5). unfold fwd. cbn [s_c s_sid s_closec set_s_c set_s_closec].
    rewrite flow_cons, flow_other in F1 by (right; auto with tunnel). split_and!.
    + exists lost. done.
    + done.
    + intros _. split; [|by apply F5]. apply F4. exists p. split; [apply list_elem_of_here|done].
    + intros Hci. by apply F4, closing_in_cons.
    + by destruct F5.
  - intros i x cs t Hn Hi F. assert (s_sid sc ≠ s_sid x) as Hne by (eapply other_sid; done).
    eapply fwd_cons in F; [|by rewrite Hs]. destruct F as (F1 & F2 & F3). split; [done|]. split; [|done].
    intros E. destruct (F2 E) as [F2a F2b]. split; [|done].
    assert (s_cid sc ≠ s_sid x).
    { destruct (v_known _ _ _ _ _ _ _ _ V (s_cid sc)) as (k & -> & _); [right; right; by exists j, sc|].
      rewrite (v_sids _ _ _ _ _ _ _ _ V _ _ Hi). lia. }
    rewrite !lookup_delete_ne by congruence. done.
Qed.
End ToServer2.

(** ** The goroutines of the server *)

Section ServerTasks.
Context (st : list ConnState) (tk : list task) (tab : gmap Z nat)
  (ss : list SConn) (stk : list (spc * Z)) (cn : gmap Z nat) (cq sq : list Packet).
Hypothesis V : vinv st tk tab ss stk cn cq sq.

(** A packet without data *)
Lemma vinv_sq_app p :
  Type_ p = str "ack" ∧ (Errmsg p = [] → pairs ss p) ∨ is_close p ∧ pairs ss p →
  vinv st tk tab ss stk cn cq (sq ++ [p]).
Proof using V.
  intros Hp. destruct V. constructor; try done.
  - intros r Hr. apply elem_of_app in Hr as [Hr|Hr]; [by apply v_sq0|].
    apply list_elem_of_singleton in Hr as ->. tauto.
  - intros j sc Hj. destruct (v_str0 j sc Hj) as (k & cs & t & Hk & Ht & Hid & F & lost & un & B1 & B2 & B3).
    exists k, cs, t. split_and!; [done..|]. exists lost, un.
    rewrite flow_app, (flow_other Conidc), app_nil_r; [done|]. right. destruct Hp as [[? _]|[? _]]; auto with tunnel.
Qed.

(** A goroutine goes on without dialling or starting to copy. *)
Lemma vinv_stk i t t' :
  stk !! i = Some t → (∀ p, t'.1 ≠ Dialling p) → (∀ j, t'.1 = Copying j → t.1 = Copying j) →
  (∀ j, owner t' = Some j → owner t = Some j) →
  vinv st tk tab ss (<[i := t']> stk) cn cq sq.
Proof using V.
  intros Hi Hd Hc Ho. destruct V.
  assert (∀ x, dialling (<[i := t']> stk) x → dialling stk x) as Hdl.
  { intros x (n & p & fn & Hn & Hx). apply list_lookup_insert_Some in Hn as [(_ & Ed & _)|[? Hn]]; [by destruct (Hd p); rewrite Ed|]. by exists n, p, fn. }
  assert (∀ j, copying (<[i := t']> stk) j → copying stk j) as Hcp.
  { intros j (n & fn & Hn). apply list_lookup_insert_Some in Hn as [(<- & -> & _)|[? Hn]].
    - exists i, t.2. rewrite Hi. specialize (Hc j eq_refl). by destruct t; cbn in *; subst.
    - by exists n, fn. }
  constructor; try done.
  - intros x Hx. apply v_known0. destruct Hx as [?|[?|?]]; auto.
  - intros n n' p p' fn fn' Hn Hn' He. apply list_lookup_insert_Some in Hn as [(_ & Ed & _)|[? Hn]]; [by destruct (Hd p); rewrite Ed|].
    apply list_lookup_insert_Some in Hn' as [(_ & Ed & _)|[? Hn']]; [by destruct (Hd p'); rewrite Ed|]. by eapply v_dialling0.
  - intros x. destruct (v_once0 x) as [H1 H2]. split.
    + intros Ha. destruct (H1 Ha) as [Hn ?]. split; [|done]. intros ?. by apply Hn, Hdl.
    + intros ?. by apply H2, Hdl.
  - intros n p fn Hn. apply list_lookup_insert_Some in Hn as [(_ & Ed & _)|[? Hn]]; [by destruct (Hd p); rewrite Ed|]. by eapply v_packet0.
  - intros n u j Hn Hu. at_insert Hn; [eapply v_own0; [exact Hi|by apply Ho]|by eapply v_own0].
  - intros n n' u u' j Hn Hn' Hu Hu'. at_insert Hn; at_insert Hn'; [done| | |by eapply v_owners0].
    + eapply v_owners0; [exact Hi|exact Hn'|by apply Ho|done].
    + eapply v_owners0; [exact Hn|exact Hi|done|by apply Ho].
  - intros j sc Hj. destruct (v_str0 j sc Hj) as (k & cs & u & Hk & Hu & Hid & F & lost & un & B1 & B2 & B3).
    exists k, cs, u. split_and!; [done..|]. exists lost, un. split_and!; [done|done|].
    intros Hne Hcn. by apply (B3 Hne), Hcp.
Qed.

(** The server reads from a target, and sends what it read or stops. *)
Lemma vinv_sread j sc c' got sq' :
  ss !! j = Some sc → c_read c' = c_read (s_c sc) ++ got → c_out c' = c_out (s_c sc) →
  c_closed c' = c_closed (s_c sc) → c_broken c' = c_broken (s_c sc) →
  copying stk j ∧ sq' = sq ++ [data_packet (s_cid sc) (s_sid sc) got] ∨ ¬ copying stk j ∧ sq' = sq →
  vinv st tk tab (<[j := set_s_c c' sc]> ss) stk cn cq sq'.
Proof using V.
  intros Hj Hrd Hout Hcl Hbr Hq.
  pose proof (flow_data Conidc (data_packet (s_cid sc) (s_sid sc) got) eq_refl : flow Conidc (s_cid sc) _ = got) as Ef.
  eapply vinv_sconn_gen; [exact V|exact Hj|done|done|done| | | |done| |].
  - intros r Hr. destruct Hq as [[_ ->]|[_ ->]]; [|by left]. apply elem_of_app in Hr as [Hr|Hr]; [by left|].
    apply list_elem_of_singleton in Hr as ->. right. split; [by left|]. by exists j, sc.
  - apply V.
  - intros cs t (F1 & F2 & F). unfold fwd. cbn [s_c set_s_c s_sid s_closec]. by rewrite Hout, Hbr, Hcl.
  - intros cs Hid (lost & un & B1 & B2 & B3). unfold bwd. cbn [s_c set_s_c]. rewrite Hrd, B1.
    destruct Hq as [[Hcp ->]|[Hcp ->]].
    + assert (un = []) as ->.
      { destruct (lost_nil_or un) as [?|Hne]; [done|]. by destruct (B3 Hne). }
      exists lost, []. rewrite flow_app, <- Hid, Ef.
      rewrite !app_nil_r, <- !app_assoc. done.
    + exists lost, (un ++ got). rewrite <- !app_assoc. split_and!; [done|done|]. by intros _.
  - intros i x cs Hn Hi Hid B. destruct Hq as [[_ ->]|[_ ->]]; [|done].
    destruct B as (lost & un & B). exists lost, un. rewrite flow_app, (flow_other Conidc), app_nil_r; [done|].
    left. cbn [data_packet Conidc]. rewrite <- Hid. intros E. apply Hn. eapply (v_served _ _ _ _ _ _ _ _ V); [exact Hi|exact Hj|done].
Qed.

(** A dialled connection *)
Lemma vinv_dial i p fn sid chunks :
  stk !! i = Some (Dialling p, fn) → sid = 10 + 2 * zlen ss →
  let sc := mkSConn (Conidc p) sid (new_conn chunks) true false false in
  vinv st tk tab (ss ++ [sc]) (<[i := (Copying (length ss), fn)]> stk)
    (<[sid := length ss]> (<[Conidc p := length ss]> cn)) cq sq.
Proof using V.
  intros Hi Hsid sc. pose proof (sid_not_zero _ _ _ _ _ _ _ _ V) as Nz. destruct V.
  assert (dialling stk (Conidc p)) as Hdp by by exists i, p, fn.
  assert (∀ x, served (ss ++ [sc]) x → served ss x ∨ x = Conidc p) as Hsv.
  { intros x (j & y & Hj & He). apply lookup_snoc_Some in Hj as [[_ Hj]|[_ <-]]; [left; by exists j, y|]. by right. }
  assert (∀ x, served ss x → served (ss ++ [sc]) x) as Hsv'.
  { intros x (j & y & Hj & He). exists j, y. by rewrite (lookup_app_l_Some _ _ _ _ Hj). }
  assert (∀ r, pairs ss r → pairs (ss ++ [sc]) r) as Hps.
  { intros r (j & y & Hj & He). exists j, y. by rewrite (lookup_app_l_Some _ _ _ _ Hj). }
  assert (∀ x, dialling (<[i := (Copying (length ss), fn)]> stk) x → dialling stk x ∧ x ≠ Conidc p) as Hdl.
  { intros x (n & r & f & Hn & Hx). apply list_lookup_insert_Some in Hn as [(<- & [=] & _)|[Hne Hn]].
    split; [by exists n, r, f|]. intros ->. apply Hne. by eapply v_dialling0. }
  destruct (v_once0 (Conidc p)) as [Ho1 Ho2]. specialize (Ho2 Hdp).
  constructor; try done.
  - intros j y Hj. apply lookup_snoc_Some in Hj as [[_ Hj]|[-> <-]]; [by apply v_sids0|done].
  - intros x Hx. apply v_known0. destruct Hx as [Hx|[Hx|Hx]]; [by left|right; left; by apply Hdl|].
    apply Hsv in Hx as [?| ->]; [by right; right|by right; left].
  - intros n n' r r' f f' Hn Hn' He.
    apply list_lookup_insert_Some in Hn as [(_ & [=] & _)|[_ Hn]].
    apply list_lookup_insert_Some in Hn' as [(_ & [=] & _)|[_ Hn']]. by eapply v_dialling0.
  - intros j j' y y' Hj Hj' He.
    apply lookup_snoc_Some in Hj as [[_ Hj]|[-> <-]]; apply lookup_snoc_Some in Hj' as [[_ Hj']|[-> <-]].
    + by eapply v_served0.
    + destruct Ho2. by exists j, y.
    + destruct Ho2. by exists j', y'.
    + done.
  - intros x. destruct (v_once0 x) as [H1 H2]. split.
    + intros Ha. destruct (H1 Ha) as [Hd Hs]. split; [intros Hd'; by apply Hd, Hdl|].
      intros Hs'. apply Hsv in Hs' as [?| ->]; [done|]. by destruct (Ho1 Ha).
    + intros Hd Hs'. apply Hdl in Hd as [Hd Hne]. apply Hsv in Hs' as [?|?]; [by destruct (H2 Hd)|done].
  - intros n r f Hn. apply list_lookup_insert_Some in Hn as [(_ & [=] & _)|[_ Hn]]. by eapply v_packet0.
  - intros r Hr. destruct (v_cq0 r Hr) as [?|[? ?]]; [by left|right; auto].
  - intros r Hr. destruct (v_sq0 r Hr) as [[? ?]|[? ?]]; [left|right]; auto.
  - intros k cs r Hk Hr. destruct (v_ch0 _ _ _ Hk Hr). auto.
  - intros k t r Hk Hr. destruct (v_pc0 _ _ _ Hk Hr). auto.
  - intros n t j Hn Ho. rewrite length_app. cbn. at_insert Hn; [injection Ho as <-; lia|].
    apply (v_own0 _ _ _ Hn) in Ho. lia.
  - intros n n' t t' j Hn Hn' Ho Ho'. at_insert Hn; at_insert Hn'; [done| | |by eapply v_owners0].
    + injection Ho as <-. apply (v_own0 _ _ _ Hn') in Ho'. lia.
    + injection Ho' as <-. apply (v_own0 _ _ _ Hn) in Ho. lia.
  - intros k cs Hk Hs. apply (v_fresh0 k cs Hk). auto.
  - intros j y Hj. apply lookup_snoc_Some in Hj as [[Hlt Hj]|[-> <-]].
    + destruct (v_str0 j y Hj) as (k & cs & t & Hk & Ht & Hid & (F1 & F2 & F3) & lost & un & B1 & B2 & B3).
      exists k, cs, t. split_and!; [done..| |].
      * split; [done|]. split; [|done]. intros E. destruct (F2 E) as [F2a F2b]. split; [|done].
        rewrite !lookup_insert_ne; [done| |].
        -- destruct (v_known0 (Conidc p)) as (k' & -> & _); [by right; left|]. rewrite (v_sids0 _ _ Hj). lia.
        -- rewrite (v_sids0 _ _ Hj). unfold zlen in Hsid. lia.
      * exists lost, un. split_and!; [done|done|]. intros Hne (n & f & Hn). apply (B3 Hne).
        apply list_lookup_insert_Some in Hn as [(_ & [=] & _)|[_ Hn]]; [lia|]. by exists n, f.
    + destruct (v_known0 (Conidc p)) as (k & Ek & Hk); [by right; left|].
      apply lookup_lt_is_Some_2 in Hk as Hk'. destruct Hk' as [cs Hcs].
      rewrite <- v_tk0 in Hk. apply lookup_lt_is_Some_2 in Hk as [t Ht].
      rewrite <- (v_ids0 _ _ Hcs) in Ek. exists k, cs, t.
      destruct (v_fresh0 k cs Hcs) as [Hr0 Ho0]; [by rewrite <- Ek|].
      assert (∀ r, r ∈ cq → Conids r ≠ sid) as Hnone.
      { intros r Hr E. destruct (v_cq0 r Hr) as [[_ Hz]|[_ (j & y & Hj & Hjs & _)]].
        - rewrite Hz in E. unfold zlen in Hsid. lia.
        - rewrite E, (v_sids0 _ _ Hj) in Hjs. apply lookup_lt_Some in Hj. unfold zlen in Hsid. lia. }
      split_and!; [done..| |].
      * split_and!.
        -- exists []. cbn. rewrite Hr0, flow_none; [done|]. intros r Hr _. by apply Hnone.
        -- intros _. cbn. by rewrite lookup_insert_eq.
        -- done.
        -- intros (r & Hr & _ & E). by destruct (Hnone r Hr).
        -- cbn. clear -Hnone. induction cq as [|r q IH]; [done|]. split.
           ++ intros _ E. destruct (Hnone r ltac:(apply list_elem_of_here) E).
           ++ apply IH. intros x Hx. by apply Hnone, list_elem_of_further.
      * exists [], []. cbn. rewrite Ho0. rewrite flow_none; [done|]. intros r Hr Hd E. apply Ho2.
        destruct (v_sq0 r Hr) as [[Ha _]|[_ (j & y & Hj & _ & Hjc)]]; [by apply ack_not_data in Ha|].
        exists j, y. split; [done|congruence].
Qed.
End ServerTasks.

(** ** Every turn keeps the invariant *)

Lemma alter_insert_same {A} (f : A → A) k x (l : list A) :
  (k < length l)%nat → alter f k (<[k := x]> l) = <[k := f x]> l.
Proof.
  intros Hk. rewrite (alter_lookup_insert f k _ x) by (by apply list_lookup_insert_eq).
  by rewrite list_insert_insert_eq.
Qed.

Section Steps.
Context `{MsgpackLaws} (cfg : Config) (fn : Z).
Hypothesis Hcfg : cfg_ok cfg.

(** A turn does not panic, and ends in the invariant. *)
Definition good (n : nat) (m : outcome tun_err sys) : Prop :=
  m ≠ Panic ∧ ∀ s', m = Ret s' → ∃ cq sq, inv n s' cq sq.

Lemma good_blocked n : good n (Fail Blocked).
Proof. by split. Qed.

Lemma tun_good_ret n s cq sq : inv n s cq sq → good n (Ret s).
Proof. intros Hs. split; [done|]. intros s' [= <-]. eauto. Qed.

Lemma inv_weaken n s cq sq : inv n s cq sq → inv (S n) s cq sq.
Proof. intros []. constructor; try done. lia. Qed.

Lemma carries_send frid p l ok l' cq :
  carries l cq → packet_ok p → Send frid (ToMsgpack xa1 p) l = (ok, l') →
  carries l' (if ok then cq ++ [p] else cq).
Proof.
  intros [Hl Hp] Hok Hs. destruct (Send_one _ _ _ _ _ Hs) as [Ho _]. unfold carries. rewrite Ho.
  destruct ok; [|done]. rewrite !fmap_app, Hl. split; [done|]. apply Forall_app. by split; [|apply Forall_singleton].
Qed.

Lemma send_spec frid p s cq :
  carries (net s) cq → patient (lk_res (net s)) → packet_ok p →
  ∃ l, send frid p s = (true, set_net l s) ∧ carries l (cq ++ [p]) ∧ patient (lk_res l).
Proof.
  intros Hc Hp Hok. unfold send. destruct (Send frid (ToMsgpack xa1 p) (net s)) as [ok l] eqn:E.
  assert (ok = true) as -> by by eapply Send_patient. exists l. split; [done|].
  split; [exact (carries_send _ _ _ _ _ _ Hc Hok E)|].
  destruct (Send_one _ _ _ _ _ E) as [_ [used Hu]]. rewrite Hu in Hp. by eapply patient_suffix.
Qed.

Lemma s_send_spec f p s sq :
  carries (s_net s) sq → packet_ok p →
  ∃ ok l, s_send f p s = (ok, set_s_net l s) ∧ carries l (if ok then sq ++ [p] else sq).
Proof.
  intros Hc Hok. unfold s_send. destruct (Send f (ToMsgpack xa1 p) (s_net s)) as [ok l] eqn:E.
  exists ok, l. split; [done|]. exact (carries_send _ _ _ _ _ _ Hc Hok E).
Qed.

Lemma pop_spec l q d l' :
  carries l q → pop l = Some (d, l') →
  ∃ p q', q = p :: q' ∧ d = ToMsgpack xa1 p ∧ packet_ok p ∧ carries l' q' ∧ lk_res l' = lk_res l.
Proof.
  intros [Hl Hok] Hp. unfold pop in Hp. destruct (lk_out l) as [|[f d0] rest] eqn:E; [done|].
  injection Hp as <- <-. destruct q as [|p q']; [done|]. injection Hl as Hd Hr.
  apply list.Forall_cons in Hok as [? ?]. exists p, q'. by split_and!.
Qed.

Lemma decode_ok {E} p : packet_ok p →
  @FromMsgpack E _ (ToMsgpack xa1 p) zero_packet = Ret (xa1, true, p).
Proof. intros Hp. cbn. by rewrite mp_roundtrip. Qed.

Section Step.
Context (n : nat) (s : sys) (cq sq : list Packet).
Hypothesis I : inv n s cq sq.
Hypothesis Hn : Z.of_nat n < 2 ^ 60.

Local Abbreviation St := (states (cl s)).
Local Abbreviation Tk := (tasks (cl s)).

Lemma id_small k cs : St !! k = Some cs → 0 ≤ cid cs < 2 ^ 63.
Proof using I Hn.
  intros Hk. rewrite (v_ids _ _ _ _ _ _ _ _ (i_view _ _ _ _ I) _ _ Hk).
  apply lookup_lt_Some in Hk. pose proof (i_small _ _ _ _ I). lia.
Qed.

Lemma sid_small j sc : s_states (sv s) !! j = Some sc → 0 ≤ s_sid sc < 2 ^ 63.
Proof using I Hn.
  intros Hk. rewrite (v_sids _ _ _ _ _ _ _ _ (i_view _ _ _ _ I) _ _ Hk).
  apply lookup_lt_Some in Hk. pose proof (i_small _ _ _ _ I). lia.
Qed.

Lemma task_of k cs : St !! k = Some cs → ∃ t, Tk !! k = Some t.
Proof using I.
  intros Hk. apply lookup_lt_Some in Hk. rewrite <- (v_tk _ _ _ _ _ _ _ _ (i_view _ _ _ _ I)) in Hk.
  by apply lookup_lt_is_Some_2 in Hk.
Qed.

Lemma state_of k t : Tk !! k = Some t → ∃ cs, St !! k = Some cs.
Proof using I.
  intros Hk. apply lookup_lt_Some in Hk. rewrite (v_tk _ _ _ _ _ _ _ _ (i_view _ _ _ _ I)) in Hk.
  by apply lookup_lt_is_Some_2 in Hk.
Qed.

(** A calm step of the client *)
Lemma inv_calm k cs cs' t t' c' :
  St !! k = Some cs → Tk !! k = Some t →
  calm (connings (cl s)) (connings c') (s_states (sv s)) cs cs' t t' →
  states c' = <[k := cs']> St → tasks c' = <[k := t']> Tk →
  has_tox c' = has_tox (cl s) → connid c' = connid (cl s) → net c' = net (cl s) →
  inv n (mkSys c' (sv s)) cq sq.
Proof using I.
  intros Hk Ht C E1 E2 E3 E4 E5. destruct I. constructor; cbn [cl sv]; rewrite ?E1, ?E2, ?E3, ?E4, ?E5; try done.
  - unfold zlen. by rewrite length_insert.
  - by rewrite length_insert.
  - by eapply vinv_calm.
Qed.
End Step.

Lemma data_packet_ok cid sid d :
  0 ≤ cid < 2 ^ 63 → 0 ≤ sid < 2 ^ 63 → (length d ≤ rdbuf_size)%nat → packet_ok (data_packet cid sid d).
Proof.
  intros H1 H2 H3. unfold packet_ok, rdbuf_size, zlen in *. cbn.
  split_and!; lia.
Qed.

Lemma close_packet_ok cid sid : 0 ≤ cid < 2 ^ 63 → 0 ≤ sid < 2 ^ 63 → packet_ok (close_packet cid sid).
Proof. intros H1 H2. unfold packet_ok, zlen. cbn. split_and!; lia. Qed.

Lemma conn_packet_ok id : 0 ≤ id < 2 ^ 63 → packet_ok (conn_packet cfg id).
Proof using Hcfg. intros H1. destruct Hcfg. unfold packet_ok, zlen in *. cbn in *. split_and!; lia. Qed.

Section Turn.
Context (n : nat) (s : sys) (cq sq : list Packet).
Hypothesis I : inv n s cq sq.
Hypothesis Hn : Z.of_nat n < 2 ^ 60.

Local Abbreviation St := (states (cl s)).
Local Abbreviation Tk := (tasks (cl s)).

Ltac look k cs t Hk Ht :=
  destruct (St !! k) as [cs|] eqn:Hk; [|apply good_blocked];
  destruct (Tk !! k) as [t|] eqn:Ht; [|apply good_blocked].

Lemma good_answer k : good n (c' ← select_answer k (cl s); Ret (mkSys c' (sv s))).
Proof using I.
  unfold select_answer. look k cs t Hk Ht. pose proof (i_view _ _ _ _ I) as V.
  pose proof (lookup_lt_Some _ _ _ Hk) as Lk. pose proof (lookup_lt_Some _ _ _ Ht) as Lt.
  destruct (t_pc t) eqn:Ep; try apply good_blocked.
  destruct (ch cs) as [|p rest] eqn:Ech.
  - destruct (ch_closed cs) eqn:Ecc; [|apply good_blocked]. cbn [mbind outcome_bind].
    eapply tun_good_ret, (inv_calm n s cq sq I k cs _ t); [done|done| | | |done|done|done].
    2: { cbn. by rewrite (alter_lookup_insert _ _ _ _ Hk). }
    2: { cbn. by rewrite (alter_lookup_insert _ _ _ _ Ht). }
    constructor; cbn; auto. intros p [[=]|[=]].
  - destruct (negb (bool_decide (Errmsg p = []))) eqn:Ee; cbn [mbind outcome_bind].
    + eapply tun_good_ret, (inv_calm n s cq sq I k cs _ t); [done|done| | | |done|done|done].
      2: { cbn. by rewrite (alter_lookup_insert _ _ _ _ Hk), alter_insert_same. }
      2: { cbn. by rewrite (alter_lookup_insert _ _ _ _ Ht). }
      constructor; cbn; auto; [|intros r [[=]|[=]]]. intros r Hr. left. rewrite Ech. by apply list_elem_of_further.
    + eapply tun_good_ret, (inv_calm n s cq sq I k cs _ t); [done|done| | | |done|done|done].
      2: { cbn. by rewrite (alter_lookup_insert _ _ _ _ Hk), alter_insert_same. }
      2: { cbn. by rewrite (alter_lookup_insert _ _ _ _ Ht). }
      apply negb_false_iff, bool_decide_eq_true in Ee.
      constructor; cbn; auto; [|by rewrite Ep|].
      * intros r Hr. left. rewrite Ech. by apply list_elem_of_further.
      * intros r [[= <-]|[=]]. right.
        destruct (v_ch _ _ _ _ _ _ _ _ V k cs p Hk) as [? Hpp]; [rewrite Ech; apply list_elem_of_here|]. auto.
Qed.

Lemma good_timeout k : good n (c' ← select_timeout k (cl s); Ret (mkSys c' (sv s))).
Proof using I.
  unfold select_timeout. look k cs t Hk Ht.
  destruct (t_pc t) eqn:Ep; try apply good_blocked. cbn [mbind outcome_bind].
  eapply tun_good_ret, (inv_calm n s cq sq I k cs _ t); [done|done| | | |done|done|done].
  2: { cbn. by rewrite (alter_lookup_insert _ _ _ _ Hk). }
  2: { cbn. by rewrite (alter_lookup_insert _ _ _ _ Ht). }
  constructor; cbn; auto; [|intros r [[=]|[=]]].
  intros x i Hx. by apply lookup_delete_Some in Hx as [_ ?].
Qed.

Lemma good_watch k now : good n (c' ← watch k now (cl s); Ret (mkSys c' (sv s))).
Proof using I.
  unfold watch. look k cs t Hk Ht.
  destruct (negb (t_watched t)); [apply good_blocked|].
  destruct (now - lastRecvTM cs <? ReadTimeo); [destruct s; by eapply tun_good_ret|].
  destruct (closec cs || closes cs) eqn:Ec; cbn [mbind outcome_bind].
  - eapply tun_good_ret, (inv_calm n s cq sq I k cs cs t); [done|done| | | |done|done|done].
    2: { cbn. by rewrite list_insert_id. }
    2: { cbn. by rewrite (alter_lookup_insert _ _ _ _ Ht). }
    constructor; cbn; auto.
  - destruct (_ >? _); cbn [mbind outcome_bind]; [|destruct s; by eapply tun_good_ret].
    apply orb_false_iff in Ec as [-> _]. cbn [negb].
    eapply tun_good_ret, (inv_calm n s cq sq I k cs _ t); [done|done| | | |done|done|done].
    2: { cbn. by rewrite (alter_lookup_insert _ _ _ _ Hk). }
    2: { cbn. by rewrite (alter_lookup_insert _ _ _ _ Ht). }
    constructor; cbn; auto.
Qed.

(** A change of one connection in place *)
Lemma inv_on_state k f :
  (∀ cs t, calm (connings (cl s)) (connings (cl s)) (s_states (sv s)) cs (f cs) t t) →
  inv n (mkSys (on_state k f (cl s)) (sv s)) cq sq.
Proof using I.
  intros Hf. destruct (St !! k) as [cs|] eqn:Hk.
  - destruct (task_of n s cq sq I k cs Hk) as [t Ht].
    eapply (inv_calm n s cq sq I k cs (f cs) t t); try done.
    + cbn. by rewrite (alter_lookup_insert _ _ _ _ Hk).
    + cbn. by rewrite list_insert_id.
  - assert (alter f k St = St) as E.
    { apply list_eq. intros i. rewrite list_lookup_alter. destruct (decide (k = i)) as [<-|]; [by rewrite Hk|done]. }
    destruct I. unfold on_state. constructor; cbn; rewrite ?E; done.
Qed.

Lemma good_handler : good n (c' ← handler_rest (cl s); Ret (mkSys c' (sv s))).
Proof using I.
  unfold handler_rest. destruct (handler (cl s)) as [k|]; [|apply good_blocked]. cbn [mbind outcome_bind].
  assert (inv n (mkSys (on_state k set_closes (cl s)) (sv s)) cq sq) as []
    by (apply inv_on_state; intros; constructor; cbn; auto).
  eapply tun_good_ret. constructor; done.
Qed.
End Turn.

Section SendTurn.
Context (n : nat) (s : sys) (cq sq : list Packet).
Hypothesis I : inv n s cq sq.
Hypothesis Hn : Z.of_nat n < 2 ^ 60.

Local Abbreviation St := (states (cl s)).
Local Abbreviation Tk := (tasks (cl s)).

Ltac look k cs t Hk Ht :=
  destruct (St !! k) as [cs|] eqn:Hk; [|apply good_blocked];
  destruct (Tk !! k) as [t|] eqn:Ht; [|apply good_blocked].

Lemma good_accept frid chunks now :
  good (S n) (Ret (mkSys (serv_tcp_conn cfg frid chunks now (cl s)) (sv s))).
Proof using I Hn Hcfg.
  unfold serv_tcp_conn. rewrite (i_tox _ _ _ _ I). cbn [negb].
  set (id := u64 (connid (cl s) + 2)). set (s1 := mkClient _ _ _ _ _ _ _ _ _ _).
  pose proof (i_small _ _ _ _ I) as [Hs1 Hs2].
  assert (id = 11 + 2 * zlen St) as Hid.
  { unfold id. rewrite (i_connid _ _ _ _ I). unfold u64. rewrite wrap_u_small; unfold zlen; lia. }
  assert (packet_ok (conn_packet cfg id)) as Hok.
  { apply conn_packet_ok. rewrite Hid. unfold zlen. lia. }
  destruct (send_spec frid (conn_packet cfg id) s1 cq (i_cq _ _ _ _ I) (i_patient _ _ _ _ I) Hok)
    as (l & -> & Hl & Hpl).
  eapply tun_good_ret. constructor; cbn [cl sv s1 set_net has_tox net connid states tasks connings].
  - done.
  - exact Hl.
  - apply I.
  - exact Hpl.
  - rewrite Hid, zlen_app. change (zlen [_]) with 1. lia.
  - apply I.
  - rewrite length_app. cbn [length]. lia.
  - eapply (vinv_accept _ _ _ _ _ _ _ _ (i_view _ _ _ _ I)); done.
Qed.

(** The packet of a goroutine that has its answer *)
Lemma waits_small k t ack : Tk !! k = Some t → waits_for t ack → 0 ≤ Conids ack < 2 ^ 63.
Proof using I Hn.
  intros Ht Hw. destruct (v_pc _ _ _ _ _ _ _ _ (i_view _ _ _ _ I) _ _ _ Ht Hw) as [_ (j & sc & Hj & -> & _)].
  by eapply (sid_small n s cq sq).
Qed.

Lemma conn_Read_spec m x r y :
  conn_Read m x = (r, y) →
  c_out y = c_out x ∧ c_closed y = c_closed x ∧ c_broken y = c_broken x ∧
  match r with
  | None => y = x
  | Some got => c_read y = c_read x ++ got ∧ (length got ≤ m)%nat
  end.
Proof using.
  unfold conn_Read. destruct (c_closed x) eqn:Ec; [by intros [= <- <-]|].
  destruct (c_in x); intros [= <- <-]; [done|]. cbn. split_and!; try done.
  rewrite length_take. apply Nat.le_min_l.
Qed.

Lemma good_read k : good n (c' ← read_turn k (cl s); Ret (mkSys c' (sv s))).
Proof using I Hn.
  unfold read_turn. look k cs t Hk Ht. destruct (t_pc t) as [|ack| |] eqn:Ep; try apply good_blocked.
  assert (waits_for t ack) as Hw by by left.
  destruct (conn_Read rdbuf_size (c cs)) as [r c1] eqn:Er.
  apply conn_Read_spec in Er as (Eo & Ecl & Eb & Er). destruct r as [got|].
  - destruct Er as [Er Hlen]. set (p := data_packet _ _ _).
    assert (packet_ok p) as Hok.
    { apply data_packet_ok; [by eapply (id_small n s cq sq)|by eapply waits_small|done]. }
    destruct (send_spec (t_frid t) p (on_state k (set_c c1) (cl s)) cq (i_cq _ _ _ _ I) (i_patient _ _ _ _ I) Hok)
      as (l & -> & Hl & Hpl). cbn [mbind outcome_bind].
    set (v1 := set_net l (on_state k (set_c c1) (cl s))).
    assert (inv n (mkSys v1 (sv s)) (cq ++ [p]) sq) as I1.
    { destruct I. constructor; cbn; rewrite ?(alter_lookup_insert _ _ _ _ Hk); unfold zlen;
        rewrite ?length_insert; try done.
      rewrite <- (list_insert_id (tasks (cl s)) k t Ht).
      eapply vinv_send; try done; [by left|by rewrite Er, flow_data|by rewrite Ecl|by rewrite Eb]. }
    set (m := zlen (ToMsgpack xa1 p)).
    pose proof (inv_on_state n _ _ _ I1 k (add_sizes 0 m)) as I2. cbn [cl sv] in I2.
    specialize (I2 ltac:(intros; constructor; cbn; auto)). destruct I2. eapply tun_good_ret. constructor; done.
  - subst c1. cbn [mbind outcome_bind].
    eapply tun_good_ret, (inv_calm n s cq sq I k cs _ t); [done|done| | | |done|done|done].
    2: { cbn. by rewrite (alter_lookup_insert _ _ _ _ Hk). }
    2: { cbn. by rewrite (alter_lookup_insert _ _ _ _ Ht). }
    constructor; cbn; auto; [by rewrite Ep|]. intros r [[=]|[= <-]]. by left.
Qed.

Lemma good_finish k : good n (c' ← finish k (cl s); Ret (mkSys c' (sv s))).
Proof using I Hn.
  unfold finish. look k cs t Hk Ht. destruct (t_pc t) as [| |ack|] eqn:Ep; try apply good_blocked.
  assert (waits_for t ack) as Hw by by right.
  destruct (closes cs); cbn [mbind outcome_bind].
  - eapply tun_good_ret, (inv_calm n s cq sq I k cs _ t); [done|done| | | |done|done|done].
    2: { cbn. by rewrite (alter_lookup_insert _ _ _ _ Hk). }
    2: { cbn. by rewrite (alter_lookup_insert _ _ _ _ Ht). }
    constructor; cbn; auto. intros r [[=]|[=]].
  - set (p := close_packet _ _). set (v0 := set_connings _ _).
    assert (packet_ok p) as Hok.
    { apply close_packet_ok; [by eapply (id_small n s cq sq)|by eapply waits_small]. }
    destruct (send_spec (t_frid t) p v0 cq (i_cq _ _ _ _ I) (i_patient _ _ _ _ I) Hok)
      as (l & -> & Hl & Hpl). cbn [mbind outcome_bind].
    assert (inv n (mkSys (set_net l (set_states (<[k := set_c (c cs) cs]> St)
                    (set_tasks (<[k := mkTask Returned (t_frid t) (t_watched t)]> Tk) (cl s)))) (sv s))
              (cq ++ [p]) sq) as I1.
    { destruct I. constructor; cbn; unfold zlen; rewrite ?length_insert; try done.
      eapply vinv_send; try done; [by right|by rewrite flow_other, app_nil_r by (by right)|].
      intros r [[=]|[=]]. }
    pose proof (lookup_lt_Some _ _ _ Hk) as Lk. pose proof (lookup_lt_Some _ _ _ Ht) as Lt.
    eapply tun_good_ret, (inv_calm n _ _ _ I1 k (set_c (c cs) cs) _ (mkTask Returned (t_frid t) (t_watched t)));
      cbn [cl sv set_net set_states set_tasks states tasks]; try done.
    { by apply list_lookup_insert_eq. }
    { by apply list_lookup_insert_eq. }
    2: { cbn. rewrite (alter_lookup_insert _ _ _ _ Hk), alter_insert_same, list_insert_insert_eq by done. done. }
    2: { cbn. rewrite (alter_lookup_insert _ _ _ _ Ht), list_insert_insert_eq. done. }
    constructor; cbn; auto. intros x i Hx. by apply lookup_delete_Some in Hx as [_ ?].
Qed.
End SendTurn.

Section Delivery.
Context (n : nat) (s : sys) (cq sq : list Packet).
Hypothesis I : inv n s cq sq.

Local Abbreviation St := (states (cl s)).
Local Abbreviation Tk := (tasks (cl s)).

(** The packet in front of the queue is taken out. *)
Lemma inv_pop_sq l p sq' :
  sq = p :: sq' → carries l sq' → vinv St Tk (connings (cl s)) (s_states (sv s)) (s_tasks (sv s)) (conns (sv s)) cq sq' →
  inv n (mkSys (cl s) (set_s_net l (sv s))) cq sq'.
Proof using I. intros -> Hl V'. destruct I. constructor; done. Qed.

Lemma good_to_client now : good n (sys_exec cfg fn (ToClient now) s).
Proof using I H.
  cbn [sys_exec]. destruct (pop (s_net (sv s))) as [[d l]|] eqn:Ep; [|apply good_blocked].
  destruct (pop_spec _ _ _ _ (i_sq _ _ _ _ I) Ep) as (p & sq' & Eq & -> & Hok & Hl & _).
  cbn [client_exec]. unfold OnFriendLosslessPacket. destruct (handler (cl s)); [apply good_blocked|].
  rewrite decode_ok by done. cbn [mbind outcome_bind].
  pose proof (i_view _ _ _ _ I) as V. rewrite Eq in V.
  destruct (connings (cl s) !! Conidc p) as [k|] eqn:Ef.
  2: { assert (inv n (mkSys (cl s) (set_s_net l (sv s))) cq sq') as I0
         by (eapply inv_pop_sq; [done|done|]; eapply vinv_pop_sq; eauto).
       repeat case_bool_decide; cbn [mbind outcome_bind]; by eapply tun_good_ret. }
  destruct (v_tab _ _ _ _ _ _ _ _ V _ _ Ef) as (Hx & cs & Hk & Hch).
  rewrite <- (v_ids _ _ _ _ _ _ _ _ V _ _ Hk) in Hx.
  pose proof (lookup_lt_Some _ _ _ Hk) as Lk. destruct (task_of n s cq sq I k cs Hk) as [t Ht].
  destruct (v_sq _ _ _ _ _ _ _ _ V p ltac:(apply list_elem_of_here)) as [[Ha Hpp]|[[Hd|Hd] Hpp]].
  - rewrite bool_decide_true by done.
    assert (inv n (mkSys (cl s) (set_s_net l (sv s))) cq sq') as I0.
    { eapply inv_pop_sq; [done|done|]. eapply vinv_pop_sq; [done|]. left. auto with tunnel. }
    unfold ch_send. cbn [states on_state set_states]. rewrite (alter_lookup_insert _ _ _ _ Hk).
    rewrite list_lookup_insert_eq by done. cbn [ch_closed set_last]. rewrite Hch.
    case_bool_decide; [|apply good_blocked]. cbn [mbind outcome_bind].
    eapply tun_good_ret, (inv_calm n _ _ _ I0 k cs _ t t); try done.
    2: { cbn. by rewrite (alter_lookup_insert _ _ _ _ Hk), alter_insert_same. }
    2: { cbn. by rewrite list_insert_id. }
    constructor; cbn; auto. intros r Hr. apply elem_of_app in Hr as [Hr|Hr]; [by left|].
    apply list_elem_of_singleton in Hr as ->. by right.
  - rewrite bool_decide_false by (intros Ha; by apply ack_not_data in Ha).
    rewrite bool_decide_false by (intros Hc; by apply close_not_data in Hc).
    rewrite bool_decide_true by done. cbn [mbind outcome_bind].
    pose proof (vinv_pop_write _ _ _ _ _ _ _ _ _ V k cs Hd Ef Hk) as V1.
    unfold write_local. cbn [states on_state set_states]. rewrite (alter_lookup_insert _ _ _ _ Hk).
    rewrite list_lookup_insert_eq by done. cbn [c set_last].
    destruct (tcp_Write (Data p) (c cs)) as [wn c1] eqn:Ew. cbn [snd] in V1.
    assert (inv n (mkSys (set_states (<[k := set_c c1 cs]> St) (cl s)) (set_s_net l (sv s))) cq sq') as I1.
    { destruct I. constructor; cbn; unfold zlen; rewrite ?length_insert; done. }
    eapply tun_good_ret, (inv_calm n _ _ _ I1 k (set_c c1 cs) _ t t); cbn [cl sv set_states states tasks]; try done.
    { by apply list_lookup_insert_eq. }
    2: { cbn. by rewrite (alter_lookup_insert _ _ _ _ Hk), alter_insert_same, list_insert_insert_eq. }
    2: { cbn. by rewrite list_insert_id. }
    constructor; cbn; auto.
  - rewrite bool_decide_false by (intros Ha; by apply ack_not_close in Ha).
    rewrite bool_decide_true by done.
    assert (inv n (mkSys (cl s) (set_s_net l (sv s))) cq sq') as I0.
    { eapply inv_pop_sq; [done|done|]. eapply vinv_pop_sq; [done|]. left. auto with tunnel. }
    unfold ch_close. cbn [states on_state set_states set_connings]. rewrite (alter_lookup_insert _ _ _ _ Hk).
    rewrite list_lookup_insert_eq by done. cbn [ch_closed set_last]. rewrite Hch. cbn [mbind outcome_bind].
    eapply tun_good_ret, (inv_calm n _ _ _ I0 k cs _ t t); try done.
    2: { cbn. by rewrite (alter_lookup_insert _ _ _ _ Hk), alter_insert_same. }
    2: { cbn. by rewrite list_insert_id. }
    constructor; cbn; auto.
    + right; right. by rewrite <- Hx, lookup_delete_eq.
    + intros x i Hxi. by apply lookup_delete_Some in Hxi as [_ ?].
Qed.

Lemma good_to_server : good n (sys_exec cfg fn ToServer s).
Proof using I H.
  cbn [sys_exec]. destruct (pop (net (cl s))) as [[d l]|] eqn:Ep; [|apply good_blocked].
  destruct (pop_spec _ _ _ _ (i_cq _ _ _ _ I) Ep) as (p & cq' & Eq & -> & Hok & Hl & Hres).
  cbn [server_exec]. unfold SitServer_OnFriendLosslessPacket. rewrite decode_ok by done.
  cbn [mbind outcome_bind negb]. pose proof (i_view _ _ _ _ I) as V. rewrite Eq in V.
  destruct (v_cq _ _ _ _ _ _ _ _ V p ltac:(apply list_elem_of_here)) as [[Hc Hz]|[Hty Hpp]].
  - rewrite bool_decide_true by done. cbn [mbind outcome_bind]. eapply tun_good_ret.
    destruct I. constructor; cbn; rewrite ?Hres; try done. by apply vinv_pop_conn.
  - destruct (pop_found _ _ _ _ _ _ _ _ _ V Hty) as (j & sc & Hcn & Hj & Hs & Hcl).
    pose proof (lookup_lt_Some _ _ _ Hj) as Lj.
    rewrite bool_decide_false by (intros Hc; destruct Hty as [Ht|Ht];
      [by apply data_not_conn in Ht|by apply close_not_conn in Ht]).
    destruct Hty as [Hd|Hd].
    + rewrite bool_decide_false by (intros Hc; by apply close_not_data in Hc).
      rewrite bool_decide_true by done. cbn [set_s_tra conns]. rewrite Hcn. cbn [mbind outcome_bind].
      eapply tun_good_ret. pose proof (vinv_pop_data _ _ _ _ _ _ _ _ _ V j sc Hd Hcn Hj Hs) as V1.
      destruct I. constructor; cbn; rewrite ?Hres, ?(alter_lookup_insert _ _ _ _ Hj); unfold zlen;
        rewrite ?length_insert; done.
    + rewrite bool_decide_true by done. cbn [set_s_tra conns s_states]. rewrite Hcn, Hj. cbn [mbind outcome_bind].
      eapply tun_good_ret. pose proof (vinv_pop_close _ _ _ _ _ _ _ _ _ V j sc Hd Hcn Hj Hs) as V1.
      destruct I. constructor; cbn; rewrite ?Hres, ?(alter_lookup_insert _ _ _ _ Hj), ?alter_insert_same by done;
        unfold zlen; rewrite ?length_insert; done.
Qed.
End Delivery.

Section ServerTurn.
Context (n : nat) (s : sys) (cq sq : list Packet).
Hypothesis I : inv n s cq sq.
Hypothesis Hn : Z.of_nat n < 2 ^ 60.

Local Abbreviation Ss := (s_states (sv s)).
Local Abbreviation Tk := (s_tasks (sv s)).

Lemma good_dial i dial :
  turn_ok (TServer (SDial i dial)) →
  good (S n) (v' ← dial_turn i dial (sv s); Ret (mkSys (cl s) v')).
Proof using I Hn.
  intros Hok. unfold dial_turn. destruct (Tk !! i) as [[[p| | |] f]|] eqn:Hi; try apply good_blocked.
  pose proof (i_view _ _ _ _ I) as V. pose proof (v_packet _ _ _ _ _ _ _ _ V _ _ _ Hi) as Hp.
  pose proof (i_small _ _ _ _ I) as [Hs1 Hs2].
  unfold doConn. cbn [s_connid s_states s_tasks s_net s_tra dialled conns add_dialled].
  destruct dial as [e|chunks].
  - destruct Hok as [Hne Hlen].
    assert (packet_ok (ack_of e (Conids p) p)) as Ha.
    { destruct Hp as (? & ? & ? & ? & ? & ? & ? & ?). unfold packet_ok, zlen in *. cbn in *. split_and!; lia. }
    destruct (s_send_spec f (ack_of e (Conids p) p) (add_dialled (dial_addr p) (sv s)) sq (i_sq _ _ _ _ I) Ha)
      as (ok & l & -> & Hl).
    rewrite bool_decide_false by done. cbn [mbind outcome_bind]. eapply tun_good_ret.
    assert (vinv (states (cl s)) (tasks (cl s)) (connings (cl s)) Ss (<[i := (Ended, f)]> Tk) (conns (sv s)) cq sq) as V1.
    { eapply vinv_stk; [exact V|exact Hi|done..]. }
    destruct I. constructor; cbn; rewrite ?(alter_lookup_insert _ _ _ _ Hi); try done; [lia|].
    destruct ok; [|done]. apply vinv_sq_app; [done|]. left. split; [done|]. intros E. done.
  - set (sid := u64 (s_connid (sv s) + 2)).
    assert (sid = 10 + 2 * zlen Ss) as Hsid.
    { unfold sid. rewrite (i_sconnid _ _ _ _ I). unfold u64. rewrite wrap_u_small; unfold zlen; lia. }
    destruct (sid =? 0) eqn:Ez; [apply Z.eqb_eq in Ez; unfold zlen in Hsid; lia|].
    assert (packet_ok (ack_of [] sid p)) as Ha.
    { destruct Hp as (? & ? & ? & ? & ? & ? & ? & ?). unfold packet_ok, zlen in *. cbn in *. split_and!; lia. }
    set (v1 := mkServer _ _ _ _ _ _ _).
    destruct (s_send_spec f (ack_of [] sid p) v1 sq (i_sq _ _ _ _ I) Ha) as (ok & l & -> & Hl).
    cbn [mbind outcome_bind]. eapply tun_good_ret.
    pose proof (vinv_dial _ _ _ _ _ _ _ _ V i p f sid chunks Hi Hsid) as V1. cbn zeta in V1.
    destruct I. constructor; cbn; rewrite ?(alter_lookup_insert _ _ _ _ Hi); try done.
    + rewrite zlen_app. change (zlen [_]) with 1. lia.
    + rewrite length_app. cbn [length]. lia.
    + destruct ok; [|exact V1]. apply vinv_sq_app; [exact V1|]. left. split; [done|]. intros _.
      eexists (length Ss), _. by rewrite lookup_app_r, Nat.sub_diag by done.
Qed.

Lemma copying_of i j f : Tk !! i = Some (Copying j, f) → ∃ sc, Ss !! j = Some sc.
Proof using I.
  intros Hi. apply lookup_lt_is_Some_2. by eapply (v_own _ _ _ _ _ _ _ _ (i_view _ _ _ _ I)).
Qed.

Lemma served_small j sc : Ss !! j = Some sc → 0 ≤ s_cid sc < 2 ^ 63.
Proof using I Hn.
  intros Hj. destruct (v_known _ _ _ _ _ _ _ _ (i_view _ _ _ _ I) (s_cid sc)) as (k & -> & Hk).
  - right; right. by exists j, sc.
  - pose proof (i_small _ _ _ _ I). lia.
Qed.

Lemma good_copy i : good n (v' ← copy_turn i (sv s); Ret (mkSys (cl s) v')).
Proof using I Hn.
  unfold copy_turn. destruct (Tk !! i) as [[[|j| |] f]|] eqn:Hi; try apply good_blocked.
  destruct (Ss !! j) as [sc|] eqn:Hj; [|apply good_blocked].
  pose proof (i_view _ _ _ _ I) as V.
  destruct (conn_Read rdbuf_size (s_c sc)) as [r c1] eqn:Er.
  apply conn_Read_spec in Er as (Eo & Ecl & Eb & Er).
  assert (vinv (states (cl s)) (tasks (cl s)) (connings (cl s)) Ss (<[i := (Leaving j, f)]> Tk) (conns (sv s)) cq sq) as V1.
  { eapply vinv_stk; [exact V|exact Hi|done..]. }
  destruct r as [got|].
  - destruct Er as [Er Hlen]. set (p := data_packet _ _ _).
    assert (packet_ok p) as Hok.
    { apply data_packet_ok; [by eapply served_small|by eapply (sid_small n s cq sq)|done]. }
    destruct (s_send_spec f p (on_sconn j (set_s_c c1) (sv s)) sq (i_sq _ _ _ _ I) Hok) as (ok & l & -> & Hl).
    cbn [mbind outcome_bind].
    destruct ok; [apply (tun_good_ret n _ cq (sq ++ [p]))|apply (tun_good_ret n _ cq sq)].
    + assert (vinv (states (cl s)) (tasks (cl s)) (connings (cl s)) (<[j := set_s_c c1 sc]> Ss) Tk (conns (sv s)) cq (sq ++ [p])) as V2.
      { eapply vinv_sread; try done. left. split; [by exists i, f|done]. }
      destruct I. constructor; cbn; rewrite ?(alter_lookup_insert _ _ _ _ Hj); unfold zlen; rewrite ?length_insert; done.
    + assert (¬ copying (<[i := (Leaving j, f)]> Tk) j) as Hnc.
      { intros (i' & f' & Hi'). apply list_lookup_insert_Some in Hi' as [(_ & [=] & _)|[Hne Hi']].
        apply Hne. eapply (v_owners _ _ _ _ _ _ _ _ V); [exact Hi|exact Hi'|done|done]. }
      pose proof (vinv_sread _ _ _ _ _ _ _ _ V1 j sc c1 got sq Hj Er Eo Ecl Eb ltac:(right; done)) as V2.
      cbn iota in Hl. destruct I. constructor; cbn; rewrite ?(alter_lookup_insert _ _ _ _ Hj), ?(alter_lookup_insert _ _ _ _ Hi);
        unfold zlen; rewrite ?length_insert; done.
  - subst c1. cbn [mbind outcome_bind]. eapply tun_good_ret.
    assert (<[j := set_s_c (s_c sc) sc]> Ss = Ss) as E by (apply list_insert_id; by destruct sc).
    destruct I. constructor; cbn; rewrite ?(alter_lookup_insert _ _ _ _ Hj), ?(alter_lookup_insert _ _ _ _ Hi), ?E; done.
Qed.

Lemma good_leave i : good n (v' ← leave_turn i (sv s); Ret (mkSys (cl s) v')).
Proof using I Hn.
  unfold leave_turn. destruct (Tk !! i) as [[[| |j|] f]|] eqn:Hi; try apply good_blocked.
  destruct (Ss !! j) as [sc|] eqn:Hj; [|apply good_blocked].
  pose proof (i_view _ _ _ _ I) as V.
  assert (vinv (states (cl s)) (tasks (cl s)) (connings (cl s)) (<[j := set_s_closes sc]> Ss)
            (<[i := (Ended, f)]> Tk) (conns (sv s)) cq sq) as V1.
  { eapply vinv_sconn; [eapply vinv_stk; [exact V|exact Hi|done..]|exact Hj|done|done|done|done|apply V|done|done]. }
  set (p := close_packet (s_cid sc) (s_sid sc)).
  assert (packet_ok p) as Hok.
  { apply close_packet_ok; [by eapply served_small|by eapply (sid_small n s cq sq)]. }
  destruct (s_send_spec f p (on_sconn j set_s_closes (sv s)) sq (i_sq _ _ _ _ I) Hok) as (ok & l & -> & Hl).
  cbn [mbind outcome_bind snd].
  destruct (negb (s_closec sc)); eapply tun_good_ret.
  - destruct I. constructor; cbn; rewrite ?(alter_lookup_insert _ _ _ _ Hj), ?(alter_lookup_insert _ _ _ _ Hi);
      unfold zlen; rewrite ?length_insert; try done.
    destruct ok; [|done]. apply vinv_sq_app; [done|]. right. split; [done|].
    exists j, (set_s_closes sc). split; [by eapply insert_same_lookup|done].
  - destruct I. constructor; cbn; rewrite ?(alter_lookup_insert _ _ _ _ Hj), ?(alter_lookup_insert _ _ _ _ Hi);
      unfold zlen; rewrite ?length_insert; done.
Qed.

Lemma good_sbreak j :
  good n (Ret (mkSys (cl s) (on_sconn j (λ cs, set_s_c (break_conn (s_c cs)) cs) (sv s)))).
Proof using I.
  eapply tun_good_ret. destruct (Ss !! j) as [sc|] eqn:Hj.
  - assert (vinv (states (cl s)) (tasks (cl s)) (connings (cl s)) (<[j := set_s_c (break_conn (s_c sc)) sc]> Ss)
            Tk (conns (sv s)) cq sq) as V1.
    { eapply vinv_sconn; [apply I|exact Hj|done|done|done|done|apply I| |done].
      intros cs t ((lost & F1 & Fl) & F2 & F3). split; [|done]. by exists lost. }
    destruct I. constructor; cbn; rewrite ?(alter_lookup_insert _ _ _ _ Hj); unfold zlen; rewrite ?length_insert; done.
  - assert (alter (λ cs, set_s_c (break_conn (s_c cs)) cs) j Ss = Ss) as E.
    { apply list_eq. intros i. rewrite list_lookup_alter. destruct (decide (j = i)) as [<-|]; [by rewrite Hj|done]. }
    destruct I. constructor; cbn; rewrite ?E; done.
Qed.
End ServerTurn.

(** One turn of the two programs *)
Lemma sys_step n s cq sq t :
  inv n s cq sq → Z.of_nat n < 2 ^ 60 → turn_ok t → accepted t → good (S n) (sys_exec cfg fn t s).
Proof using H Hcfg.
  intros I Hn Hok Hacc.
  assert (∀ m, good n m → good (S n) m) as Hw.
  { intros m [Hp Hm]. split; [done|]. intros s' Hs. destruct (Hm s' Hs) as (a & b & ?).
    exists a, b. by apply inv_weaken. }
  destruct t as [t|t| |now]; [| |by eapply Hw, good_to_server|by eapply Hw, good_to_client].
  - cbn [sys_exec]. destruct t; cbn [own_client_turn client_exec]; try apply good_blocked.
    + by eapply good_accept.
    + destruct Hacc.
    + by eapply Hw, good_answer.
    + by eapply Hw, good_timeout.
    + by eapply Hw, good_read.
    + by eapply Hw, good_finish.
    + by eapply Hw, good_watch.
    + by eapply Hw, good_handler.
    + eapply Hw, tun_good_ret, inv_on_state; [done|]. intros. constructor; cbn; auto.
  - cbn [sys_exec]. destruct t; cbn [own_server_turn server_exec]; try apply good_blocked.
    + by eapply good_dial.
    + by eapply Hw, good_copy.
    + by eapply Hw, good_leave.
    + by eapply Hw, good_sbreak.
Qed.

Lemma sys_run_good ts n s cq sq :
  inv n s cq sq → Z.of_nat n + zlen ts < 2 ^ 60 → Forall turn_ok ts → Forall accepted ts →
  good (n + length ts) (sys_run cfg fn ts s).
Proof using H Hcfg.
  revert n s cq sq. induction ts as [|t ts IH]; intros n s cq sq I Hn Hok Hacc.
  { rewrite Nat.add_0_r. by eapply tun_good_ret. }
  rewrite zlen_cons in Hn. pose proof (zlen_nonneg ts). apply list.Forall_cons in Hok as [Ht Hts].
  apply list.Forall_cons in Hacc as [Ha Has].
  destruct (sys_step n s cq sq t I ltac:(lia) Ht Ha) as [Hnp Hr]. cbn [sys_run length].
  destruct (sys_exec cfg fn t s) as [s1|e|] eqn:E; cbn [mbind outcome_bind]; [|by split|done].
  destruct (Hr s1 eq_refl) as (cq1 & sq1 & I1). rewrite <- Nat.add_succ_comm.
  eapply IH; [exact I1|lia|done|done].
Qed.
End Steps.

(** A failed [Accept] ends the client, so that a run that returns has none. *)
Lemma run_accepted `{Msgpack} cfg fn ts s s' : sys_run cfg fn ts s = Ret s' → Forall accepted ts.
Proof.
  revert s. induction ts as [|t ts IH]; intros s; cbn [sys_run]; [constructor|].
  destruct (sys_exec cfg fn t s) as [s1| |] eqn:E; cbn [mbind outcome_bind]; [|done..].
  intros Hr. constructor; [|by eapply IH]. by destruct t as [[]| | |].
Qed.

Lemma sys_run_app `{Msgpack} cfg fn ts us s :
  sys_run cfg fn (ts ++ us) s = s' ← sys_run cfg fn ts s; sys_run cfg fn us s'.
Proof.
  revert s. induction ts as [|t ts IH]; intros s; cbn [app sys_run]; [done|].
  destruct (sys_exec cfg fn t s) as [s1| |]; cbn [mbind outcome_bind]; [apply IH|done..].
Qed.

Lemma inv_new `{Msgpack} cres sres : patient cres → inv 0 (new_sys cres sres) [] [].
Proof. intros Hp. constructor; try done. apply vinv_new. Qed.

(** ** Properties *)

(** C4: The tunnel carries two byte streams: in every state that the two programs
    reach, in any interleaving of their goroutines and deliveries, every
    connection of the server belongs to one local connection of the client; what
    was written to the target is a beginning of what was read from the local
    connection, and the other way round.  With no packet in flight nothing is
    missing, unless writing to the target failed, or the local connection is no
    longer open and registered.  The library is assumed not to refuse 61 packets
    of the client in a row. *)
Theorem tunnel_streams `{MsgpackLaws} cfg fn cres sres ts s j sc :
  cfg_ok cfg → patient cres → Forall turn_ok ts → zlen ts < 2 ^ 60 →
  sys_run cfg fn ts (new_sys cres sres) = Ret s →
  s_states (sv s) !! j = Some sc →
  ∃ k cs, states (cl s) !! k = Some cs ∧ cid cs = s_cid sc ∧
    c_out (s_c sc) `prefix_of` c_read (c cs) ∧
    c_out (c cs) `prefix_of` c_read (s_c sc) ∧
    (lk_out (net (cl s)) = [] → c_broken (s_c sc) = false → c_out (s_c sc) = c_read (c cs)) ∧
    (lk_out (s_net (sv s)) = [] → ¬ dead (connings (cl s)) cs → copying (s_tasks (sv s)) j →
     c_out (c cs) = c_read (s_c sc)).
Proof.
  intros Hcfg Hp Hts Hlen Hrun Hj.
  destruct (sys_run_good cfg fn Hcfg ts 0 _ _ _ (inv_new cres sres Hp) Hlen Hts
    (run_accepted _ _ _ _ _ Hrun)) as [_ Hg].
  destruct (Hg s Hrun) as (cq & sq & I).
  destruct (v_str _ _ _ _ _ _ _ _ (i_view _ _ _ _ I) j sc Hj) as
    (k & cs & t & Hk & _ & Hid & ((lost & F1 & Fl) & _) & lost' & un & B1 & B2 & B3).
  exists k, cs. split_and!; [done|done|by eexists|by eexists| |].
  - intros Hq Hb. assert (cq = []) as ->.
    { destruct (i_cq _ _ _ _ I) as [Hc _]. rewrite Hq in Hc. by destruct cq. }
    assert (lost = []) as -> by (destruct (lost_nil_or lost) as [?|Hne]; [done|]; specialize (Fl Hne); congruence).
    by rewrite F1, app_nil_r.
  - intros Hq Hd Hc. assert (sq = []) as ->.
    { destruct (i_sq _ _ _ _ I) as [Hs _]. rewrite Hq in Hs. by destruct sq. }
    assert (lost' = []) as -> by (destruct (lost_nil_or lost') as [?|Hne]; [done|]; by destruct (Hd (B2 Hne))).
    assert (un = []) as -> by (destruct (lost_nil_or un) as [?|Hne]; [done|]; by destruct (B3 Hne)).
    by rewrite B1, app_nil_r.
Qed.

(** C21: Talking to each other, neither program panics in any interleaving of its turns,
    as long as [Accept] of the client does not fail and the library does not refuse 61
    packets of the client in a row: no goroutine sends on a closed channel or closes one
    twice, and every packet can be decoded.  The first failure of [Accept] makes the
    client panic, in whatever state it is, because the connection it returns is served
    without a look at the error.  A turn is taken as atomic; that two goroutines of the
    client can write to the unsynchronised table of connections at once is not part of
    the claim. *)
Theorem tunnel_never_panics `{MsgpackLaws} cfg fn cres sres ts :
  cfg_ok cfg → patient cres → Forall turn_ok ts → zlen ts < 2 ^ 60 →
  (Forall accepted ts → sys_run cfg fn ts (new_sys cres sres) ≠ Panic) ∧
  (∀ s, sys_run cfg fn ts (new_sys cres sres) = Ret s →
     sys_run cfg fn (ts ++ [TClient CAcceptError]) (new_sys cres sres) = Panic).
Proof.
  intros Hcfg Hp Hts Hlen. split.
  - intros Hacc.
    by destruct (sys_run_good cfg fn Hcfg ts 0 _ _ _ (inv_new cres sres Hp) Hlen Hts Hacc).
  - intros s Hs. by rewrite sys_run_app, Hs.
Qed.

Module ToyTunnel.
Import ToyMsgpack.

Definition tcfg : Config := mkConfig 2090 (str "127.0.0.1") (str "peer") (str "127.0.0.1") 9996.

(** A local connection sends two pieces; the target answers with one. *)
Definition open_turns : list sys_turn :=
  [TClient (CAccept 3 [str "GET "; str "/"] 0); ToServer; TServer (SDial 0 (inr [str "200 OK"]));
   ToClient 5; TClient (CAnswer 0)].

Definition echo_turns : list sys_turn :=
  open_turns ++
  [TClient (CRead 0); TServer (SCopy 0); TClient (CRead 0); ToServer; ToClient 7; ToServer].

Definition echo_run : outcome tun_err sys := sys_run tcfg 0 echo_turns (new_sys [true; false; true] []).

Definition echo_ok : bool :=
  match echo_run with
  | Ret s =>
      match states (cl s), s_states (sv s) with
      | [cs], [sc] => bool_decide (c_out (s_c sc) = str "GET /" ∧ c_out (c cs) = str "200 OK")
      | _, _ => false
      end
  | _ => false
  end.

Lemma patient_short res : (length res ≤ max_retry)%nat → patient res.
Proof.
  intros Hl l1 l2 ->. rewrite !length_app, length_replicate in Hl. lia.
Qed.
End ToyTunnel.

Import ToyMsgpack ToyTunnel.

Lemma tunnel_streams_witness :
  echo_ok = true ∧ ∃ s sc, sys_run tcfg 0 echo_turns (new_sys [true; false; true] []) = Ret s ∧ s_states (sv s) !! 0%nat = Some sc ∧
  ∃ k cs, states (cl s) !! k = Some cs ∧ cid cs = s_cid sc ∧
    c_out (s_c sc) `prefix_of` c_read (c cs) ∧
    c_out (c cs) `prefix_of` c_read (s_c sc) ∧
    (lk_out (net (cl s)) = [] → c_broken (s_c sc) = false → c_out (s_c sc) = c_read (c cs)) ∧
    (lk_out (s_net (sv s)) = [] → ¬ dead (connings (cl s)) cs → copying (s_tasks (sv s)) 0 →
     c_out (c cs) = c_read (s_c sc)).
Proof.
  split; [vm_compute; reflexivity|].
  assert (match sys_run tcfg 0 echo_turns (new_sys [true; false; true] []) with
          | Ret s => bool_decide (is_Some (s_states (sv s) !! 0%nat)) | _ => false end = true) as E
    by (vm_compute; reflexivity).
  destruct (sys_run tcfg 0 echo_turns _) as [s| |] eqn:Er; [|discriminate E..].
  apply bool_decide_eq_true in E as [sc Hsc]. exists s, sc. split; [done|]. split; [done|].
  apply (tunnel_streams tcfg 0 [true; false; true] [] echo_turns s 0 sc).
  - split; [vm_compute; reflexivity|split; vm_compute; congruence].
  - apply patient_short, Nat.leb_le. reflexivity.
  - repeat constructor.
  - vm_compute. reflexivity.
  - exact Er.
  - exact Hsc.
Defined.

Lemma tunnel_never_panics_witness :
  sys_run tcfg 0 echo_turns (new_sys [] []) ≠ Panic ∧
  sys_run tcfg 0 (echo_turns ++ [TClient CAcceptError]) (new_sys [] []) = Panic.
Proof.
  destruct (tunnel_never_panics tcfg 0 [] [] echo_turns) as [H1 H2].
  - split; [vm_compute; reflexivity|split; vm_compute; congruence].
  - apply patient_short, Nat.leb_le. reflexivity.
  - repeat constructor.
  - vm_compute. reflexivity.
  - split; [apply H1; repeat constructor|].
    assert (match sys_run tcfg 0 echo_turns (new_sys [] []) with Ret _ => true | _ => false end = true)
      as E by (vm_compute; reflexivity).
    destruct (sys_run tcfg 0 echo_turns (new_sys [] [])) as [s| |] eqn:Er; [|discriminate E..].
    exact (H2 s eq_refl).
Defined.

(** ** Where the streams break *)

(** A chunk that the library refuses 61 times is dropped, and the stream goes on
    with the next one. *)
Definition refuse_turns : list sys_turn :=
  open_turns ++ [TClient (CRead 0); TClient (CRead 0); ToServer].

Theorem refused_chunk_is_dropped :
  ∃ s cs sc, sys_run tcfg 0 refuse_turns (new_sys (true :: replicate 61 false) []) = Ret s ∧
    states (cl s) = [cs] ∧ s_states (sv s) = [sc] ∧
    c_read (c cs) = str "GET /" ∧ c_out (s_c sc) = str "/".
Proof.
  set (r := sys_run _ _ _ _).
  assert (match r with
          | Ret s => match states (cl s), s_states (sv s) with
                     | [cs], [sc] => bool_decide (c_read (c cs) = str "GET /" ∧ c_out (s_c sc) = str "/")
                     | _, _ => false
                     end
          | _ => false
          end = true) as E by (vm_compute; reflexivity).
  destruct r as [s| |]; [|discriminate E..].
  destruct (states (cl s)) as [|cs []] eqn:E1; [discriminate E| |discriminate E].
  destruct (s_states (sv s)) as [|sc []] eqn:E2; [discriminate E| |discriminate E].
  apply bool_decide_eq_true in E as [? ?]. by exists s, cs, sc.
Qed.

(** When the target closes first, both sides finish and the server keeps the
    connection open and registered. *)
Definition target_close_turns : list sys_turn :=
  open_turns ++
  [TServer (SCopy 0); ToClient 6; TServer (SCopy 0); TServer (SLeave 0); ToClient 7; TClient CHandler;
   TClient (CRead 0); TClient (CFinish 0)].

Theorem target_close_leaks :
  ∃ s sc, sys_run tcfg 0 target_close_turns (new_sys [] []) = Ret s ∧
    lk_out (net (cl s)) = [] ∧ lk_out (s_net (sv s)) = [] ∧
    s_tasks (sv s) = [(Ended, 0)] ∧ t_pc <$> tasks (cl s) = [Returned] ∧
    s_states (sv s) = [sc] ∧ c_closed (s_c sc) = false ∧
    conns (sv s) = {[10 := 0%nat; 11 := 0%nat]}.
Proof.
  set (r := sys_run _ _ _ _).
  assert (match r with
          | Ret s => match s_states (sv s), lk_out (net (cl s)), lk_out (s_net (sv s)),
                           s_tasks (sv s), t_pc <$> tasks (cl s) with
                     | [sc], [], [], [(Ended, 0)], [Returned] =>
                         bool_decide (c_closed (s_c sc) = false ∧ conns (sv s) = {[10 := 0%nat; 11 := 0%nat]})
                     | _, _, _, _, _ => false
                     end
          | _ => false
          end = true) as E by (vm_compute; reflexivity).
  destruct r as [s| |]; [|discriminate E..]. exists s.
  repeat match type of E with
  | match ?x with _ => _ end = true => destruct x; try discriminate E
  | bool_decide _ = true => apply bool_decide_eq_true in E as [? ?]
  end. by eexists.
Qed.

(** The parity check of [Conidc] has no effect: a friend that asks for a
    connection under the identifier of another friend's connection gets that
    friend's data. *)
Definition hijack_turns : list server_turn :=
  [SPacket 1 (ToMsgpack xa1 (conn_packet tcfg 11)); SDial 0 (inr []);
   SPacket 2 (ToMsgpack xa1 (conn_packet tcfg 10)); SDial 1 (inr []);
   SPacket 1 (ToMsgpack xa1 (data_packet 11 10 (str "secret")))].

Fixpoint server_run (ts : list server_turn) (s : server) : outcome tun_err server :=
  match ts with
  | [] => Ret s
  | t :: ts => s' ← server_exec t s; server_run ts s'
  end.

Theorem conidc_hijacks :
  (λ s, (λ sc, (s_cid sc, s_sid sc, c_out (s_c sc))) <$> s_states s) <$>
    match server_run hijack_turns (newSitServer []) with Ret s => Some s | _ => None end =
  Some [(11, 10, []); (10, 12, str "secret")].
Proof. vm_compute. reflexivity. Qed.

(** The handler blocks when a server sends more answers than the channel holds: the
    goroutine of the connection takes only one. *)
Definition flood (s : client) : outcome tun_err client :=
  Nat.iter 9 (λ m, s ← m; OnFriendLosslessPacket 0 (ToMsgpack xa1 (ack_of [] 10 (conn_packet tcfg 11))) s) (Ret s).

Theorem answers_block_the_client :
  match sys_run tcfg 0 open_turns (new_sys [] []) with
  | Ret s => flood (cl s) = Fail Blocked ∧ t_pc <$> tasks (cl s) = [Reading (ack_of [] 10 (conn_packet tcfg 11))]
  | _ => False
  end.
Proof. vm_compute. split; reflexivity. Qed.
