(* ===== verification/NodePool.v ===== *)
(** * The pool of bootstrap nodes (xtox/node_pool.go, [CheckPubkey] of externs.go)

    The pool holds the known nodes, named groups of nodes and the three nodes in
    use.  The random numbers, the order in which Go iterates over a map and the
    random sort are arguments; the tox library is an oracle that answers its two
    bootstrap calls.  A call of the pool returns the calls it makes. *)

From S2P Require Import Prelude GoIO GoText.
From stdpp Require Import pretty strings.
Local Open Scope Z_scope.

(** ** Nodes

    The counters [usetimes], [legacy] and [chktimes], which nothing reads or
    writes, are left out. *)

Record ToxNode := mkNode {
  isthird : bool;
  Ipaddr : bytes;
  Port : Z;                    (* uint16 *)
  Tcp_ports : list Z;
  Pubkey : bytes;
  weight : Z;
  last_ping : Z;
  status_tcp : bool;
  last_ping_rt : Z;
  rtt : Z
}.

(** [ToxNode{}] *)
Definition zero_node : ToxNode := mkNode false [] 0 [] [] 0 0 false 0 0.

Record NodePool := mkPool {
  allNodes : list ToxNode;
  currNodes : list ToxNode;                (* an array of three *)
  grpNodes : gmap bytes (list ToxNode)
}.

Definition newNodePool : NodePool := mkPool [] (replicate 3 zero_node) ∅.

Definition Rttms (n : ToxNode) : Z := Z.quot (rtt n) 1000000.
Definition IsRelay (n : ToxNode) : bool := status_tcp n.

(** ** Choosing nodes *)

(** One turn of the loop of [get3nodesFrom] with the random number [r].  The map
    [currips] of the code stays empty. *)
Definition pick (src : list ToxNode) (r : Z) (idxes : list nat) : list nat :=
  let idx := Z.to_nat (Z.rem r (zlen src)) in
  match src !! idx with
  | Some n => if negb (bool_decide (idx ∈ idxes)) && status_tcp n then idxes ++ [idx] else idxes
  | None => idxes
  end.

(** The loop; it ends early when three are found. *)
Fixpoint pick_loop (src : list ToxNode) (draws : list Z) (idxes : list nat) : list nat :=
  match draws with
  | [] => idxes
  | r :: draws =>
      let idxes' := pick src r idxes in
      if bool_decide (length idxes' = 3%nat ∧ idxes' ≠ idxes) then idxes'
      else pick_loop src draws idxes'
  end.

(** [rnd] is the sequence of results of [rand.Int()], [order] the order of the
    iteration over [idxes]. *)
Definition get3nodesFrom (rnd : nat → Z) (order : list nat → list nat) (src : list ToxNode)
    : list ToxNode :=
  let idxes := pick_loop src (map rnd (seq 0 (length src * 3))) [] in
  let nodes := omap (λ k, src !! k) (order idxes) in
  nodes ++ replicate (3 - length nodes) zero_node.

Definition source_nodes (grp : bytes) (p : NodePool) : list ToxNode :=
  if bool_decide (grp = []) then allNodes p else default [] (grpNodes p !! grp).

Definition get3nodes (rnd : nat → Z) (order : list nat → list nat) (grp : bytes) (p : NodePool)
    : list ToxNode := get3nodesFrom rnd order (source_nodes grp p).

(** [r] is the result of [rand.Uint32()]; the remainder by zero panics. *)
Definition get1node {E} (r : Z) (grp : bytes) (p : NodePool) : outcome E ToxNode :=
  let nodes := match grpNodes p !! grp with Some l => l | None => allNodes p end in
  if u32 (zlen nodes) =? 0 then Panic
  else match nodes !! Z.to_nat (Z.rem r (u32 (zlen nodes))) with
       | Some n => Ret n
       | None => Panic
       end.

(** ** Bootstrapping *)

Inductive tox_call :=
| CallBootstrap (ip : bytes) (port : Z) (pk : bytes)
| CallAddTcpRelay (ip : bytes) (port : Z) (pk : bytes).

Section Tox.
(** The error that the library returns for a call, if any *)
Context (answer : tox_call → option bytes).

Definition BootstrapFromNode (n : ToxNode) : list tox_call * option bytes :=
  if bool_decide (Ipaddr n = []) || bool_decide (Pubkey n = []) then ([], None)
  else
    let c1 := CallBootstrap (Ipaddr n) (Port n) (Pubkey n) in
    let err := answer c1 in
    if status_tcp n then
      let c2 := CallAddTcpRelay (Ipaddr n) (Port n) (Pubkey n) in
      ([c1; c2], match answer c2 with Some e => Some e | None => err end)
    else ([c1], err).

Definition Bootstrap {E} (r : Z) (grp : bytes) (p : NodePool)
    : outcome E (list tox_call * option bytes) :=
  node ← get1node r grp p; Ret (BootstrapFromNode node).

Fixpoint switch_loop (nodes : list ToxNode) (err : option bytes) : list tox_call * option bytes :=
  match nodes with
  | [] => ([], err)
  | n :: nodes =>
      let '(cs, e1) := BootstrapFromNode n in
      let '(rest, e) := switch_loop nodes (match e1 with Some _ => e1 | None => err end) in
      (cs ++ rest, e)
  end.

Definition SwitchServer (rnd : nat → Z) (order : list nat → list nat) (grp : bytes) (p : NodePool)
    : (list tox_call * option bytes) * NodePool :=
  let newNodes := get3nodes rnd order grp p in
  (switch_loop newNodes None, mkPool (allNodes p) newNodes (grpNodes p)).
End Tox.

(** ** Changing the pool *)

Definition set_all (x : list ToxNode) (p : NodePool) := mkPool x (currNodes p) (grpNodes p).
Definition set_grp (grp : bytes) (x : list ToxNode) (p : NodePool) :=
  mkPool (allNodes p) (currNodes p) (<[grp := x]> (grpNodes p)).

Definition AddNode (pkey ip : bytes) (port : Z) (grp : bytes) (tcp_ports : list Z) (p : NodePool)
    : NodePool :=
  let n := mkNode true ip (u16 port) (map u16 tcp_ports) pkey 0 0 (negb (bool_decide (tcp_ports = []))) 0 0 in
  let p1 := set_all (allNodes p ++ [n]) p in
  if bool_decide (grp = []) then p1 else set_grp grp (default [] (grpNodes p1 !! grp) ++ [n]) p1.

(** The common shape of the two deletions *)
Definition del_nodes (gone : ToxNode → bool) (grp : bytes) (p : NodePool) : NodePool :=
  let newnodes := base.filter (λ n, gone n = false) (source_nodes grp p) in
  if bool_decide (grp = []) then set_all newnodes p else set_grp grp newnodes p.

Definition DelNodeByIPPort (ip : bytes) (port : Z) : bytes → NodePool → NodePool :=
  del_nodes (λ n, bool_decide (Ipaddr n = ip) && (Port n =? port)).

Definition DelNodeByPubkey (pubkey : bytes) : bytes → NodePool → NodePool :=
  del_nodes (λ n, bool_decide (Pubkey n = pubkey)).

Definition ExportNodes (grp : bytes) (p : NodePool) : list ToxNode := default [] (grpNodes p !! grp).

(** ** Loading nodes

    What the JSON library gives for the fields of an entry; [None] is a text that
    it refuses. *)

Record node_json := mkJson {
  j_ipv4 : bytes;
  j_port : Z;
  j_public_key : bytes;
  j_last_ping : Z;
  j_status_tcp : bool
}.

Definition node_of_json (now : Z) (j : node_json) : ToxNode :=
  mkNode false (j_ipv4 j) (u16 (j_port j)) [] (j_public_key j) 0 (j_last_ping j) (j_status_tcp j) now 0.

Fixpoint set_first (nodes curr : list ToxNode) : list ToxNode :=
  match nodes, curr with
  | n :: nodes, _ :: curr => n :: set_first nodes curr
  | _, _ => curr
  end.

Definition parseNodesData (shuffle : list ToxNode → list ToxNode) (now : Z)
    (json : option (list node_json)) (p : NodePool) : bool * NodePool :=
  match json with
  | None => (false, p)
  | Some nodes =>
      let nodes := map (node_of_json now) nodes in
      (true, mkPool (shuffle (allNodes p ++ nodes)) (set_first nodes (currNodes p)) (grpNodes p))
  end.

(** [pingNodes]: [ping] is the result of [Ping2] for an address, the round-trip
    time and the time of the clock after it.  The slice is evaluated once, the
    writes go to the pool as it is then. *)
Definition set_ping (r : option (Z * Z)) (n : ToxNode) : ToxNode :=
  let '(t, d) := match r with Some (d, now) => (now, d) | None => (0, 0) end in
  mkNode (isthird n) (Ipaddr n) (Port n) (Tcp_ports n) (Pubkey n) (weight n) (last_ping n)
    (status_tcp n) t d.

Definition ping_step {E} (ping : bytes → option (Z * Z)) (idx : nat) (ip : bytes) (p : NodePool)
    : outcome E NodePool :=
  if bool_decide (idx < length (allNodes p))%nat
  then Ret (set_all (alter (set_ping (ping ip)) idx (allNodes p)) p)
  else Panic.

Fixpoint ping_loop {E} (ping : bytes → option (Z * Z)) (idx : nat) (nodes : list ToxNode) (p : NodePool)
    : outcome E NodePool :=
  match nodes with
  | [] => Ret p
  | n :: nodes => p' ← ping_step ping idx (Ipaddr n) p; ping_loop ping (S idx) nodes p'
  end.

Definition pingNodes {E} (ping : bytes → option (Z * Z)) (p : NodePool) : outcome E NodePool :=
  ping_loop ping 0 (allNodes p) p.

(** ** The text of a node *)

Definition cln : byte := x3a.

(** [strings.Split] at a byte *)
Fixpoint SplitByte (c : byte) (s : bytes) : list bytes :=
  match s with
  | [] => [[]]
  | b :: s =>
      match SplitByte c s with
      | part :: parts => if Byte.eqb b c then [] :: part :: parts else (b :: part) :: parts
      | [] => []
      end
  end.

Definition digit (b : byte) : option Z :=
  let z := bz b - 48 in if (0 <=? z) && (z <=? 9) then Some z else None.

Fixpoint digits_from (n : Z) (s : bytes) : option Z :=
  match s with
  | [] => Some n
  | b :: s => d ← digit b; digits_from (10 * n + d) s
  end.

(** [strconv.Atoi]: a sign, at least one digit, the range of a 64-bit integer *)
Definition Atoi (s : bytes) : option Z :=
  let '(neg, ds) := match s with
                    | x2d :: r => (true, r)
                    | x2b :: r => (false, r)
                    | _ => (false, s)
                    end in
  if bool_decide (ds = []) then None
  else
    n ← digits_from 0 ds;
    let z := if neg : bool then - n else n in
    if (- 2 ^ 63 <=? z) && (z <? 2 ^ 63) then Some z else None.

Definition CheckPubkey (s : bytes) : bool := (zlen s =? 64) && (hex_DecodeString s).2.

Definition CheckId (s : bytes) : bool := (zlen s =? 76) && (hex_DecodeString s).2.

Definition Node_String (n : ToxNode) : bytes := Ipaddr n ++ [cln] ++ itoa (Port n) ++ [cln] ++ Pubkey n.

Definition NewToxNodeFrom (s : bytes) : option ToxNode :=
  match SplitByte cln s with
  | [ip; port; pk] =>
      if CheckPubkey pk then
        iport ← Atoi port;
        Some (mkNode false ip (u16 iport) [] pk 0 0 false 0 0)
      else None
  | _ => None
  end.

(** ** Choosing: lemmas *)

Definition relay_at (src : list ToxNode) (k : nat) : Prop := ∃ n, src !! k = Some n ∧ status_tcp n = true.

Definition drawn (src : list ToxNode) (r : Z) : nat := Z.to_nat (Z.rem r (zlen src)).

(** What the loop has found: positions of relays, without repetition. *)
Definition found (src : list ToxNode) (ks : list nat) : Prop :=
  NoDup ks ∧ (length ks ≤ 3)%nat ∧ Forall (relay_at src) ks.

Lemma pick_spec src r ks :
  NoDup ks → Forall (relay_at src) ks →
  NoDup (pick src r ks) ∧ Forall (relay_at src) (pick src r ks) ∧
  (length (pick src r ks) ≤ S (length ks))%nat ∧ (∃ k, pick src r ks = ks ++ k) ∧
  (relay_at src (drawn src r) → drawn src r ∈ pick src r ks).
Proof.
  intros Hn Hf. unfold pick. fold (drawn src r).
  destruct (src !! drawn src r) as [n|] eqn:E.
  2:{ split_and!; [done..|lia|by exists []; rewrite app_nil_r|]. intros (m & Hm & _). congruence. }
  destruct (bool_decide_reflect (drawn src r ∈ ks)) as [Hin|Hin]; cbn [negb andb].
  { split_and!; [done..|lia|by exists []; rewrite app_nil_r|done]. }
  destruct (status_tcp n) eqn:Es.
  - split_and!.
    + apply list.NoDup_app. split_and!; [done| |apply NoDup_singleton].
      intros x Hx Hx'. apply list_elem_of_singleton in Hx' as ->. done.
    + apply Forall_app. split; [done|]. apply Forall_singleton. by exists n.
    + rewrite length_app. cbn. lia.
    + by eexists.
    + intros _. apply elem_of_app. right. apply list_elem_of_here.
  - split_and!; [done..|lia|by exists []; rewrite app_nil_r|]. intros (m & Hm & Hs). congruence.
Qed.

Lemma pick_loop_spec src draws ks :
  NoDup ks → Forall (relay_at src) ks → (length ks < 3)%nat →
  found src (pick_loop src draws ks) ∧ (∃ k, pick_loop src draws ks = ks ++ k) ∧
  ((length (pick_loop src draws ks) < 3)%nat →
   ∀ r, r ∈ draws → relay_at src (drawn src r) → drawn src r ∈ pick_loop src draws ks).
Proof.
  revert ks. induction draws as [|r draws IH]; intros ks Hn Hf Hl; cbn [pick_loop].
  { split; [split_and!; [done|lia|done]|]. split; [by exists []; rewrite app_nil_r|].
    intros _ r Hr. by apply not_elem_of_nil in Hr. }
  destruct (pick_spec src r ks Hn Hf) as (Hn' & Hf' & Hl' & Hp & Hd).
  destruct (bool_decide_reflect (length (pick src r ks) = 3%nat ∧ pick src r ks ≠ ks)) as [[H3 _]|Hne].
  { split; [split_and!; [done|lia|done]|]. split; [done|]. intros. lia. }
  assert (length (pick src r ks) < 3)%nat as Hlt.
  { destruct (decide (pick src r ks = ks)) as [->|Hd']; [lia|].
    destruct (decide (length (pick src r ks) = 3%nat)); [by destruct Hne|lia]. }
  destruct (IH _ Hn' Hf' Hlt) as (Hfound & (k & Hk) & Hall).
  split; [done|]. split; [destruct Hp as [k0 Hk0]; exists (k0 ++ k); by rewrite Hk, Hk0, <- app_assoc|].
  intros H3 r' Hr Hrel. apply list_elem_of_In in Hr. destruct Hr as [->|Hr].
  - rewrite Hk. apply elem_of_app. left. by apply Hd.
  - apply Hall; [done|by apply list_elem_of_In|done].
Qed.

Lemma omap_lookup_length (src : list ToxNode) ks :
  Forall (relay_at src) ks → length (omap (λ k, src !! k) ks) = length ks.
Proof. induction 1 as [|k ks (n & Hn & _) _ IH]; cbn; [done|]. rewrite Hn. cbn. by rewrite IH. Qed.

Lemma omap_lookup_in (src : list ToxNode) (ks : list nat) n :
  n ∈ omap (λ k, src !! k) ks → n ∈ src.
Proof.
  intros Hn. apply list_elem_of_omap in Hn as (k & _ & Hk). by eapply list_elem_of_lookup_2.
Qed.

(** The calls for one node that has an address and a key *)
Definition node_calls (n : ToxNode) : list tox_call :=
  if bool_decide (Ipaddr n = []) || bool_decide (Pubkey n = []) then []
  else CallBootstrap (Ipaddr n) (Port n) (Pubkey n) ::
       if status_tcp n then [CallAddTcpRelay (Ipaddr n) (Port n) (Pubkey n)] else [].

Lemma BootstrapFromNode_calls answer n : (BootstrapFromNode answer n).1 = node_calls n.
Proof. unfold BootstrapFromNode, node_calls. by destruct (_ || _), (status_tcp n). Qed.

Lemma switch_loop_calls answer nodes e :
  (switch_loop answer nodes e).1 = concat (map node_calls nodes).
Proof.
  revert e. induction nodes as [|n nodes IH]; intros e; cbn [switch_loop map concat]; [done|].
  rewrite <- (BootstrapFromNode_calls answer n). destruct (BootstrapFromNode answer n) as [cs e1].
  specialize (IH (match e1 with Some _ => e1 | None => e end)).
  destruct (switch_loop answer nodes _) as [rest e']. cbn in *. by rewrite IH.
Qed.

(** An error is reported exactly when the library refused one of the calls. *)
Lemma switch_loop_error answer nodes e :
  (switch_loop answer nodes e).2 = None ↔
  e = None ∧ Forall (λ c, answer c = None) (switch_loop answer nodes e).1.
Proof.
  revert e. induction nodes as [|n nodes IH]; intros e; cbn [switch_loop].
  { cbn. split; [|by intros []]. intros ->. split; [done|constructor]. }
  destruct (BootstrapFromNode answer n) as [cs e1] eqn:E.
  specialize (IH (match e1 with Some _ => e1 | None => e end)).
  destruct (switch_loop answer nodes _) as [rest e']. cbn [fst snd] in *.
  rewrite IH, Forall_app. clear IH.
  assert (e1 = None ↔ Forall (λ c, answer c = None) cs) as H1.
  { unfold BootstrapFromNode in E. destruct (_ || _); [injection E as <- <-; by split; [constructor|]|].
    destruct (status_tcp n); injection E as <- <-.
    - rewrite !list.Forall_cons, Forall_nil. destruct (answer (CallAddTcpRelay _ _ _)); intuition congruence.
    - rewrite !list.Forall_cons, Forall_nil. intuition congruence. }
  rewrite <- H1. destruct e1; intuition congruence.
Qed.

Lemma concat_nil_map (k : nat) : concat (map node_calls (replicate k zero_node)) = [].
Proof. induction k as [|k IH]; cbn; [done|exact IH]. Qed.

(** What [get3nodes] chooses *)
Definition chosen (src : list ToxNode) (rnd : nat → Z) (ks : list nat) : Prop :=
  found src ks ∧
  ((length ks < 3)%nat →
   ∀ i, (i < length src * 3)%nat → relay_at src (drawn src (rnd i)) → drawn src (rnd i) ∈ ks).

Lemma found_perm src ks ks' : ks ≡ₚ ks' → found src ks → found src ks'.
Proof. intros Hp (H1 & H2 & H3). split_and!; by rewrite <- Hp. Qed.

Lemma get3nodesFrom_spec rnd order src :
  (∀ l, order l ≡ₚ l) →
  ∃ ks, chosen src rnd ks ∧
    get3nodesFrom rnd order src =
      omap (λ k, src !! k) ks ++ replicate (3 - length ks) zero_node.
Proof.
  intros Ho. unfold get3nodesFrom.
  destruct (pick_loop_spec src (map rnd (seq 0 (length src * 3))) []) as (Hf & _ & Hall);
    [constructor|constructor|cbn; lia|].
  set (ks := pick_loop _ _ _) in *. exists (order ks).
  assert (found src (order ks)) as Hf' by (eapply found_perm; [symmetry; apply Ho|done]).
  split.
  - split; [done|]. rewrite (Ho ks). intros Hl i Hi Hr. rewrite (Ho ks). apply Hall; [done| |done].
    apply list_elem_of_fmap. exists i. split; [done|]. apply elem_of_seq. lia.
  - by rewrite omap_lookup_length by apply Hf'.
Qed.

(** ** Nodes as text: lemmas *)

Lemma SplitByte_not_nil c s : SplitByte c s ≠ [].
Proof. destruct s as [|b s]; [done|]. induction s as [|x s IH] in b |- *; cbn in *; [by case_match|].
  specialize (IH x). destruct (match SplitByte c s with [] => _ | _ => _ end); [done|by case_match]. Qed.

Lemma SplitByte_app c l r : c ∉ l → SplitByte c (l ++ c :: r) = l :: SplitByte c r.
Proof.
  intros Hc. induction l as [|b l IH]; cbn [app SplitByte].
  - destruct (SplitByte c r) as [|p ps] eqn:E; [by apply SplitByte_not_nil in E|].
    by rewrite (Byte.byte_dec_lb eq_refl).
  - rewrite list.not_elem_of_cons in Hc. destruct Hc as [Hb Hc]. rewrite IH by done.
    destruct (Byte.eqb b c) eqn:E; [|done]. by apply Byte.byte_dec_bl in E as ->.
Qed.

Lemma SplitByte_none c s : c ∉ s → SplitByte c s = [s].
Proof.
  induction s as [|b s IH]; cbn [SplitByte]; [done|]. rewrite list.not_elem_of_cons. intros [Hb Hs].
  rewrite IH by done. destruct (Byte.eqb b c) eqn:E; [|done]. by apply Byte.byte_dec_bl in E as ->.
Qed.

(** One part more than separators *)
Lemma length_SplitByte_app c l r :
  S (length (SplitByte c (l ++ r))) = (length (SplitByte c l) + length (SplitByte c r))%nat.
Proof.
  induction l as [|b l IH]; cbn [app SplitByte]; [done|].
  pose proof (SplitByte_not_nil c l). pose proof (SplitByte_not_nil c (l ++ r)).
  destruct (SplitByte c l), (SplitByte c (l ++ r)); [done..|].
  destruct (Byte.eqb b c); cbn in *; lia.
Qed.

Lemma length_SplitByte_in c s : c ∈ s → (2 ≤ length (SplitByte c s))%nat.
Proof.
  intros Hc. apply list_elem_of_split in Hc as (l & r & ->).
  pose proof (length_SplitByte_app c l (c :: r)). pose proof (SplitByte_not_nil c l).
  pose proof (SplitByte_not_nil c r). cbn [SplitByte] in *.
  destruct (SplitByte c l), (SplitByte c r); [done..|]. rewrite (Byte.byte_dec_lb eq_refl) in *.
  cbn in *. lia.
Qed.

(** A colon is no hexadecimal digit. *)
Lemma hex_no_colon n s : (length s ≤ n)%nat → (hex_DecodeString s).2 = true → cln ∉ s.
Proof.
  revert s. induction n as [|n IH]; intros s Hl.
  { destruct s; [|cbn in Hl; lia]. intros _. apply not_elem_of_nil. }
  destruct s as [|a [|b s]]; cbn [hex_DecodeString]; [intros _; apply not_elem_of_nil|done|].
  destruct (hex_value a) as [x|] eqn:Ea; [|done]. destruct (hex_value b) as [y|] eqn:Eb; [|done].
  destruct (hex_DecodeString s) as [r ok] eqn:E. cbn [snd]. intros ->.
  rewrite !list.not_elem_of_cons. split_and!.
  - intros <-. discriminate Ea.
  - intros <-. discriminate Eb.
  - apply IH; [cbn in Hl; lia|by rewrite E].
Qed.

Lemma CheckPubkey_no_colon s : CheckPubkey s = true → cln ∉ s.
Proof. intros [_ H]%andb_prop. by eapply hex_no_colon. Qed.

(** Decimal text *)
Lemma digit_char x : (x < 10)%N → digit (Ascii.byte_of_ascii (pretty_N_char x)) = Some (Z.of_N x).
Proof.
  intros Hx.
  assert (x = 0 ∨ x = 1 ∨ x = 2 ∨ x = 3 ∨ x = 4 ∨ x = 5 ∨ x = 6 ∨ x = 7 ∨ x = 8 ∨ x = 9)%N as Hc by lia.
  destruct_or! Hc; subst x; reflexivity.
Qed.

Lemma digits_from_go x s : digits_from 0 (str (pretty_N_go x s)) = digits_from (Z.of_N x) (str s).
Proof.
  revert s. induction (N.lt_wf_0 x) as [x _ IH]; intros s.
  destruct (decide (x = 0)%N) as [->|Hx]; [by rewrite pretty_N_go_0|].
  rewrite pretty_N_go_step by lia. rewrite IH by (apply N.div_lt; lia).
  change (str (String ?c s)) with (Ascii.byte_of_ascii c :: str s). cbn [digits_from].
  rewrite digit_char by (apply N.mod_lt; lia). cbn [mbind option_bind]. f_equal.
  rewrite N2Z.inj_div, N2Z.inj_mod. pose proof (Z.div_mod (Z.of_N x) 10). lia.
Qed.

Lemma Atoi_digits s n : s ≠ [] → digits_from 0 s = Some n → 0 ≤ n < 2 ^ 63 → Atoi s = Some n.
Proof.
  intros Hs Hd Hn. unfold Atoi.
  assert ((match s with x2d :: r => (true, r) | x2b :: r => (false, r) | _ => (false, s) end) = (false, s)) as ->.
  { destruct s as [|b s]; [done|]. cbn [digits_from] in Hd. by destruct b. }
  rewrite bool_decide_false by done. rewrite Hd. cbn [mbind option_bind].
  destruct (- 2 ^ 63 <=? n) eqn:E1, (n <? 2 ^ 63) eqn:E2; zbool; cbn [andb]; [done|lia..].
Qed.

Lemma digits_itoa z : 0 ≤ z → itoa z ≠ [] ∧ digits_from 0 (itoa z) = Some z.
Proof.
  intros Hz. unfold itoa. destruct z as [|x|x]; [done| |lia].
  assert (pretty (Z.pos x) = pretty_N_go (N.pos x) "") as ->.
  { change (pretty (Z.pos x)) with (pretty (N.pos x)). unfold pretty, pretty_N. by rewrite decide_False by done. }
  pose proof (digits_from_go (N.pos x) "") as Hd. cbn [digits_from str] in Hd.
  split; [|by rewrite Hd]. intros E. rewrite E in Hd. discriminate Hd.
Qed.

Lemma digits_from_all n s m : digits_from n s = Some m → Forall (λ b, is_Some (digit b)) s.
Proof.
  revert n. induction s as [|b s IH]; intros n; cbn [digits_from]; [constructor|].
  destruct (digit b) as [d|] eqn:E; [|done]. intros Hm. constructor; [by eexists|by eapply IH].
Qed.

Lemma itoa_digits z : 0 ≤ z → Forall (λ b, is_Some (digit b)) (itoa z).
Proof. intros Hz. eapply digits_from_all, digits_itoa, Hz. Qed.

Lemma Atoi_itoa z : 0 ≤ z < 2 ^ 63 → Atoi (itoa z) = Some z.
Proof. intros Hz. destruct (digits_itoa z) as [? ?]; [lia|]. by apply Atoi_digits. Qed.

Lemma itoa_avoids c z : 0 ≤ z → digit c = None → c ∉ itoa z.
Proof.
  intros Hz Hc Hin. pose proof (itoa_digits z Hz) as Hd. rewrite list.Forall_forall in Hd.
  destruct (Hd c Hin). congruence.
Qed.

Lemma itoa_no_colon z : 0 ≤ z < 2 ^ 63 → cln ∉ itoa z.
Proof. intros Hz. by apply itoa_avoids; [lia|]. Qed.

(** ** Properties *)

(** Switching servers, whatever the random numbers and the order of the map: the
    nodes that become current are at most three relays at different places of the
    group (or of the whole pool), padded with empty nodes, and all the relays that
    were drawn when there are fewer than three; the calls to the library are a
    bootstrap and a relay for each of them in order; an error is returned exactly
    when the library refused one of the calls; nothing else of the pool changes. *)
Theorem switch_uses_relays answer rnd order grp p :
  (∀ l, order l ≡ₚ l) →
  let '((calls, err), p') := SwitchServer answer rnd order grp p in
  let src := source_nodes grp p in
  ∃ ks, chosen src rnd ks ∧
    currNodes p' = omap (λ k, src !! k) ks ++ replicate (3 - length ks) zero_node ∧
    calls = concat (map node_calls (omap (λ k, src !! k) ks)) ∧
    (err = None ↔ Forall (λ c, answer c = None) calls) ∧
    allNodes p' = allNodes p ∧ grpNodes p' = grpNodes p.
Proof.
  intros Ho. unfold SwitchServer, get3nodes.
  destruct (get3nodesFrom_spec rnd order (source_nodes grp p) Ho) as (ks & Hc & ->).
  set (nodes := _ ++ _).
  pose proof (switch_loop_calls answer nodes None) as H1.
  pose proof (switch_loop_error answer nodes None) as H2.
  destruct (switch_loop answer nodes None) as [calls err]. cbn [fst snd] in *.
  exists ks. split_and!; [done|done| |by rewrite H2; intuition|done|done].
  unfold nodes in H1. by rewrite H1, map_app, concat_app, concat_nil_map, app_nil_r.
Qed.

(** The text of a node is read back as that node's address, port and key
    exactly when the address has no colon and the key is 64 hexadecimal digits; any
    other text of a node is refused. *)
Theorem node_text_roundtrip n :
  0 ≤ Port n < 2 ^ 16 →
  NewToxNodeFrom (Node_String n) =
    if bool_decide (cln ∉ Ipaddr n) && CheckPubkey (Pubkey n)
    then Some (mkNode false (Ipaddr n) (Port n) [] (Pubkey n) 0 0 false 0 0) else None.
Proof.
  intros Hp. unfold NewToxNodeFrom, Node_String.
  assert (cln ∉ itoa (Port n)) as Hpc by (apply itoa_no_colon; lia).
  destruct (bool_decide_reflect (cln ∉ Ipaddr n)) as [Hi|Hi]; cbn [andb].
  - cbn [app]. rewrite SplitByte_app, SplitByte_app by done.
    destruct (CheckPubkey (Pubkey n)) eqn:Ec.
    + rewrite SplitByte_none by by apply CheckPubkey_no_colon. rewrite Ec.
      rewrite Atoi_itoa by lia. cbn [mbind option_bind]. unfold u16. by rewrite wrap_u_small by lia.
    + pose proof (SplitByte_not_nil cln (Pubkey n)).
      destruct (decide (cln ∈ Pubkey n)) as [Hin|Hin].
      * apply length_SplitByte_in in Hin. by destruct (SplitByte cln (Pubkey n)) as [|? [|? ?]]; [|cbn in Hin; lia|].
      * by rewrite SplitByte_none, Ec by done.
  - assert (3 < length (SplitByte cln (Ipaddr n ++ cln :: itoa (Port n) ++ cln :: Pubkey n)))%nat as Hl.
    { pose proof (length_SplitByte_app cln (Ipaddr n) (cln :: itoa (Port n) ++ cln :: Pubkey n)) as H1.
      assert (2 ≤ length (SplitByte cln (Ipaddr n)))%nat by (apply length_SplitByte_in; by destruct (decide (cln ∈ Ipaddr n))).
      pose proof (SplitByte_app cln [] (itoa (Port n) ++ cln :: Pubkey n) (not_elem_of_nil _)) as H2.
      cbn [app] in H2. rewrite (SplitByte_app cln (itoa (Port n))) in H2 by done. rewrite H2 in H1.
      pose proof (SplitByte_not_nil cln (Pubkey n)). destruct (SplitByte cln (Pubkey n)); [done|]. cbn in H1. lia. }
    cbn [app]. destruct (SplitByte cln _) as [|? [|? [|? [|? ?]]]]; [done..|cbn in Hl; lia|done].
Qed.

(** A deleted key is not contacted any more through the group it was deleted
    from: no later switch makes a call for it; the other nodes of the group keep
    their order, and the other groups and the whole pool are untouched. *)
Theorem deleted_node_unused answer rnd order pk grp p :
  pk ≠ [] → (∀ l, order l ≡ₚ l) →
  let p' := DelNodeByPubkey pk grp p in
  source_nodes grp p' = base.filter (λ n, Pubkey n ≠ pk) (source_nodes grp p) ∧
  (∀ g, g ≠ grp → source_nodes g p' = source_nodes g p) ∧
  Forall (λ c, match c with CallBootstrap _ _ k | CallAddTcpRelay _ _ k => k ≠ pk end)
    (SwitchServer answer rnd order grp p').1.1.
Proof.
  intros Hpk Ho p'.
  assert (source_nodes grp p' = base.filter (λ n, Pubkey n ≠ pk) (source_nodes grp p)) as Hs.
  { unfold p', DelNodeByPubkey, del_nodes. set (l := source_nodes grp p).
    transitivity (base.filter (λ n, bool_decide (Pubkey n = pk) = false) l).
    - unfold source_nodes. destruct (bool_decide_reflect (grp = [])); cbn; [done|].
      by rewrite lookup_insert_eq.
    - apply list_filter_iff. intros n. by rewrite bool_decide_eq_false. }
  split; [done|]. split.
  - intros g Hg. unfold p', DelNodeByPubkey, del_nodes, source_nodes.
    destruct (bool_decide_reflect (grp = [])) as [->|Hne]; cbn [set_all set_grp allNodes grpNodes].
    + by rewrite !(bool_decide_false (g = [])) by done.
    + by rewrite lookup_insert_ne by done.
  - unfold SwitchServer, get3nodes. cbn [fst].
    destruct (get3nodesFrom_spec rnd order (source_nodes grp p') Ho) as (ks & _ & ->).
    rewrite switch_loop_calls, map_app, concat_app, concat_nil_map, app_nil_r.
    apply Forall_concat, Forall_fmap, list.Forall_forall. intros n Hn.
    apply omap_lookup_in in Hn. rewrite Hs in Hn. apply list_elem_of_filter in Hn as [Hn _].
    unfold compose, node_calls. destruct (_ || _); [constructor|].
    destruct (status_tcp n); repeat constructor; done.
Qed.

Lemma ping_loop_spec {E} ping done todo p :
  allNodes p = done ++ todo →
  @ping_loop E ping (length done) todo p =
    Ret (set_all (done ++ map (λ n, set_ping (ping (Ipaddr n)) n) todo) p).
Proof.
  revert done p. induction todo as [|n todo IH]; intros done p Hp; cbn [ping_loop map].
  { f_equal. rewrite <- Hp. by destruct p. }
  unfold ping_step. rewrite bool_decide_true by (rewrite Hp, length_app; cbn; lia).
  rewrite bind_ret. rewrite Hp, alter_app_r_alt by lia. rewrite Nat.sub_diag. cbn [alter list_alter].
  pose proof (IH (done ++ [set_ping (ping (Ipaddr n)) n]) (set_all (done ++ set_ping (ping (Ipaddr n)) n :: todo) p)) as H1.
  rewrite length_app, Nat.add_1_r in H1. rewrite H1 by by rewrite <- app_assoc.
  by rewrite <- app_assoc.
Qed.

(** Pinging on its own ends, and changes nothing but the two times of a ping. *)
Theorem pingNodes_spec {E} ping p :
  @pingNodes E ping p = Ret (set_all (map (λ n, set_ping (ping (Ipaddr n)) n) (allNodes p)) p).
Proof. apply (ping_loop_spec ping [] (allNodes p) p eq_refl). Qed.

(** A deletion between two pings makes the write behind the end of the new slice. *)
Theorem deletion_breaks_ping {E} ping pk p p1 n1 n2 :
  allNodes p = [n1; n2] → Pubkey n1 ≠ pk → Pubkey n2 = pk →
  @ping_step E ping 0 (Ipaddr n1) p = Ret p1 →
  @ping_step E ping 1 (Ipaddr n2) (DelNodeByPubkey pk [] p1) = Panic.
Proof.
  intros Hp H1 H2. unfold ping_step. rewrite Hp. rewrite bool_decide_true by (cbn; lia).
  intros [= <-]. unfold DelNodeByPubkey, del_nodes, source_nodes. cbn [set_all allNodes].
  rewrite !(bool_decide_true ([] = [])) by done. cbn [alter list_alter set_all allNodes].
  set (n1' := set_ping _ n1). assert (Pubkey n1' = Pubkey n1) as Hk by (unfold n1', set_ping; by case_match).
  rewrite list.filter_cons_True by (rewrite Hk; by apply bool_decide_false).
  rewrite list.filter_cons_False by (rewrite bool_decide_true by done; done).
  by rewrite bool_decide_false by (cbn; lia).
Qed.

(** Bootstrapping from a group whose last node was deleted panics; a group that was
    never used falls back to the whole pool. *)
Theorem empty_group_panics {E} answer r grp pk ip port p :
  grp ≠ [] → pk ≠ [] → grpNodes p !! grp = None →
  @Bootstrap answer E r grp (DelNodeByPubkey pk grp (AddNode pk ip port grp [] p)) = Panic ∧
  @get1node E r grp p = @get1node E r [] (mkPool (allNodes p) (currNodes p) ∅).
Proof.
  intros Hg Hpk Hn. split; [|unfold get1node; cbn [grpNodes allNodes]; by rewrite Hn, lookup_empty].
  unfold Bootstrap, get1node, DelNodeByPubkey, del_nodes, AddNode, source_nodes.
  rewrite !(bool_decide_false (grp = [])) by done. cbn [set_grp set_all grpNodes allNodes].
  rewrite Hn. rewrite !lookup_insert_eq. cbn [from_option id app].
  rewrite list.filter_cons_False by (cbn [Pubkey]; rewrite bool_decide_true by done; done).
  done.
Qed.

(** Deleting from a group leaves the node in the whole pool. *)
Theorem group_deletion_keeps_pool pk ip port grp tcp p :
  grp ≠ [] →
  allNodes (DelNodeByPubkey pk grp (AddNode pk ip port grp tcp p)) =
  allNodes (AddNode pk ip port grp tcp p).
Proof.
  intros Hg. unfold DelNodeByPubkey, del_nodes. by rewrite bool_decide_false by done.
Qed.

(** ** Witnesses *)

Definition sample_key : bytes := replicate 64 x41.
Definition sample_pool : NodePool :=
  AddNode sample_key (str "1.2.3.4") 33445 [] [443]
    (AddNode (replicate 64 x42) (str "5.6.7.8") 33445 (str "g") [3389] newNodePool).

Lemma switch_uses_relays_witness :
  ∃ ks, chosen (allNodes sample_pool) Z.of_nat ks ∧
    currNodes (SwitchServer (λ _, None) Z.of_nat reverse [] sample_pool).2 =
      omap (λ k, allNodes sample_pool !! k) ks ++ replicate (3 - length ks) zero_node.
Proof.
  assert (∀ l : list nat, reverse l ≡ₚ l) as Ho by (intros l; apply reverse_Permutation).
  pose proof (switch_uses_relays (λ _, None) Z.of_nat reverse [] sample_pool Ho) as H.
  destruct (SwitchServer _ _ _ _ _) as [[calls err] p']. destruct H as (ks & H1 & H2 & _).
  by exists ks.
Defined.

Lemma node_text_roundtrip_witness :
  NewToxNodeFrom (Node_String (mkNode true (str "1.2.3.4") 33445 [] sample_key 0 0 true 0 0)) =
    Some (mkNode false (str "1.2.3.4") 33445 [] sample_key 0 0 false 0 0).
Proof.
  rewrite (node_text_roundtrip (mkNode true (str "1.2.3.4") 33445 [] sample_key 0 0 true 0 0)) by (cbn; lia).
  reflexivity.
Defined.

Lemma deleted_node_unused_witness :
  Forall (λ c, match c with CallBootstrap _ _ k | CallAddTcpRelay _ _ k => k ≠ sample_key end)
    (SwitchServer (λ _, None) Z.of_nat (λ l, l) [] (DelNodeByPubkey sample_key [] sample_pool)).1.1.
Proof.
  apply (deleted_node_unused (λ _, None) Z.of_nat (λ l, l) sample_key [] sample_pool); [done|].
  intros l. reflexivity.
Defined.
