(* ===== verification/Icmp.v ===== *)
(** * Pinging nodes (xtox/pings.go)

    The ICMP echo messages with their checksum and the loop of [Pinger], which
    reads into one buffer that it cuts at each turn. *)

From S2P Require Import Prelude GoIO Varint.
Local Open Scope Z_scope.

Definition icmpv4EchoRequest : Z := 8.
Definition icmpv4EchoReply : Z := 0.
Definition icmpv6EchoRequest : Z := 128.
Definition icmpv6EchoReply : Z := 129.

Record icmpEcho := mkEcho { ID : Z; Seq : Z; Data : bytes }.

Record icmpMessage := mkIcmp { Type_ : Z; Code : Z; Checksum : Z; Body : option icmpEcho }.

Definition echo_Len (p : icmpEcho) : Z := 4 + zlen (Data p).

Definition echo_Marshal (p : icmpEcho) : bytes :=
  [zb (Z.shiftr (ID p) 8); zb (Z.land (ID p) 255); zb (Z.shiftr (Seq p) 8); zb (Z.land (Seq p) 255)] ++ Data p.

(** The loop over pairs of bytes, with the last byte of an odd number of them *)
Fixpoint csum (s : Z) (b : bytes) : Z :=
  match b with
  | x :: y :: b => csum (u32 (s + Z.lor (Z.shiftl (bz y) 8) (bz x))) b
  | [x] => u32 (s + bz x)
  | [] => s
  end.

(** The two foldings, with the wrap-around of 32 bits *)
Definition fold16 (s : Z) : Z :=
  let s := u32 (Z.shiftr s 16 + Z.land s 65535) in
  u32 (s + Z.shiftr s 16).

(** [^s] in 32 bits *)
Definition not32 (s : Z) : Z := 2 ^ 32 - 1 - s.

Definition xor_at (i : nat) (v : byte) (b : bytes) : bytes :=
  alter (λ x, zb (Z.lxor (bz x) (bz v))) i b.

Definition icmp_Marshal (m : icmpMessage) : bytes :=
  let hdr := [zb (Type_ m); zb (Code m); x00; x00] in
  let b := match Body m with
           | Some e => if negb (echo_Len e =? 0) then hdr ++ echo_Marshal e else hdr
           | None => hdr
           end in
  if (Type_ m =? icmpv6EchoRequest) || (Type_ m =? icmpv6EchoReply) then b
  else
    let s := fold16 (csum 0 b) in
    xor_at 3 (zb (Z.shiftr (not32 s) 8)) (xor_at 2 (zb (Z.land (not32 s) 255)) b).

(** The errors of this file *)
Inductive ping_err := TooShort | PingIO.

(** A body of fewer than four bytes is indexed out of range. *)
Definition parseICMPEcho (b : bytes) : outcome ping_err icmpEcho :=
  match b with
  | b0 :: b1 :: b2 :: b3 :: data =>
      Ret (mkEcho (Z.lor (Z.shiftl (bz b0) 8) (bz b1)) (Z.lor (Z.shiftl (bz b2) 8) (bz b3)) data)
  | _ => Panic
  end.

Definition is_echo (t : Z) : bool :=
  (t =? icmpv4EchoRequest) || (t =? icmpv4EchoReply) || (t =? icmpv6EchoRequest) || (t =? icmpv6EchoReply).

Definition parseICMPMessage (b : bytes) : outcome ping_err icmpMessage :=
  match b with
  | t :: c :: k0 :: k1 :: body =>
      let m := mkIcmp (bz t) (bz c) (Z.lor (Z.shiftl (bz k0) 8) (bz k1)) in
      if bool_decide (body = []) then Ret (m None)
      else if is_echo (bz t) then e ← parseICMPEcho body; Ret (m (Some e))
      else Ret (m None)
  | _ => Fail TooShort
  end.

Definition ipv4Payload (b : bytes) : outcome ping_err bytes :=
  if bool_decide (length b < 20)%nat then Ret b
  else match b with
       | b0 :: _ => slice_from b (Z.to_nat (Z.shiftl (Z.land (bz b0) 15) 2))
       | [] => Panic
       end.

(** ** [Pinger]

    [rb] is the buffer; a packet that is read covers its beginning and what was
    there before stays behind it.  The list are the packets that arrive before the
    deadline. *)

Fixpoint ping_loop (packets : list bytes) (rb : bytes) : outcome ping_err unit :=
  match packets with
  | [] => Fail PingIO
  | p :: packets =>
      rb ← ipv4Payload (copy_into rb p);
      m ← parseICMPMessage rb;
      if (Type_ m =? icmpv4EchoRequest) || (Type_ m =? icmpv6EchoRequest) then ping_loop packets rb
      else Ret tt
  end.

Definition ping_text : bytes := str "Go Go Gadget Ping!!!".

Definition request (xid : Z) : bytes :=
  icmp_Marshal (mkIcmp icmpv4EchoRequest 0 0
    (Some (mkEcho (Z.land xid 65535) 1 (ping_text ++ ping_text ++ ping_text)))).

(** What is written, and the result; [dial] and [write] say whether these calls
    succeed. *)
Definition Pinger (dial write : bool) (pid : Z) (packets : list bytes) : option bytes * outcome ping_err unit :=
  if negb dial then (None, Fail PingIO)
  else
    let wb := request pid in
    if negb write then (None, Fail PingIO)
    else (Some wb, ping_loop packets (make_bytes (20 + length wb))).

(** ** The checksum: lemmas *)

(** The sum without wrap-around *)
Fixpoint word_sum (b : bytes) : Z :=
  match b with
  | x :: y :: b => bz y * 256 + bz x + word_sum b
  | [x] => bz x
  | [] => 0
  end.

Lemma word_lor x y : Z.lor (Z.shiftl (bz y) 8) (bz x) = bz y * 256 + bz x.
Proof.
  pose proof (bz_range x). rewrite Z.lor_comm, lor_shiftl_add by (change (2 ^ 8) with 256; lia).
  change (2 ^ 8) with 256. lia.
Qed.

(** Induction over pairs of bytes *)
Lemma pair_ind (P : bytes → Prop) :
  P [] → (∀ x, P [x]) → (∀ x y b, P b → P (x :: y :: b)) → ∀ b, P b.
Proof.
  intros H0 H1 H2 b. cut (P b ∧ ∀ x, P (x :: b)); [tauto|].
  induction b as [|y b [IH1 IH2]]; [done|]. split; [apply IH2|]. intros x. by apply H2.
Qed.

Lemma word_sum_bound b : 0 ≤ word_sum b ≤ 65535 * zlen b.
Proof.
  induction b as [|x|x y b IH] using pair_ind; cbn [word_sum]; repeat rewrite zlen_cons;
    change (zlen (@nil byte)) with 0; [lia|..]; pose proof (bz_range x); [lia|]. pose proof (bz_range y). lia.
Qed.

Lemma csum_word_sum b s : 0 ≤ s → s + word_sum b < 2 ^ 32 → csum s b = s + word_sum b.
Proof.
  revert s. induction b as [|x|x y b IH] using pair_ind; intros s Hs Hl; cbn [csum word_sum] in *; [lia|..];
    pose proof (bz_range x).
  - unfold u32. rewrite wrap_u_small; lia.
  - pose proof (bz_range y). pose proof (word_sum_bound b). rewrite word_lor. unfold u32.
    rewrite wrap_u_small by lia. rewrite IH by lia. lia.
Qed.

Lemma fold16_mod s :
  0 ≤ s < 2 ^ 32 → 0 ≤ fold16 s < 2 ^ 32 ∧ (fold16 s mod 65536) mod 65535 = s mod 65535.
Proof.
  intros Hs. unfold fold16. cbv zeta.
  assert (Z.shiftr s 16 + Z.land s 65535 = s / 65536 + s mod 65536) as ->.
  { rewrite Z.shiftr_div_pow2 by lia. change 65535 with (Z.ones 16). by rewrite Z.land_ones by lia. }
  pose proof (Z.div_mod s 65536 ltac:(lia)) as Hdm.
  pose proof (Z.mod_pos_bound s 65536 ltac:(lia)) as Hr.
  set (q := s / 65536) in *. set (r := s mod 65536) in *.
  assert (0 ≤ q < 65536) as Hq by lia.
  assert (u32 (q + r) = q + r) as -> by (apply wrap_u_small; lia).
  assert (s mod 65535 = (q + r) mod 65535) as ->.
  { rewrite Hdm. replace (65536 * q + r) with (q + r + q * 65535) by lia. apply Z.mod_add. lia. }
  rewrite Z.shiftr_div_pow2 by lia. change (2 ^ 16) with 65536.
  destruct (decide (q + r < 65536)) as [Hc|Hc].
  - rewrite (Z.div_small (q + r)), Z.add_0_r by lia. unfold u32. rewrite wrap_u_small by lia.
    split; [lia|]. by rewrite (Z.mod_small (q + r) 65536) by lia.
  - assert ((q + r) / 65536 = 1) as ->.
    { replace (q + r) with (q + r - 65536 + 1 * 65536) by lia. rewrite Z.div_add, Z.div_small by lia. lia. }
    unfold u32. rewrite wrap_u_small by lia. split; [lia|].
    assert ((q + r + 1) mod 65536 = q + r + 1 - 65536) as ->.
    { replace (q + r + 1) with (q + r + 1 - 65536 + 1 * 65536) at 1 by lia. rewrite Z.mod_add, Z.mod_small by lia. lia. }
    replace (q + r + 1 - 65536) with (q + r + (-1) * 65535) by lia. apply Z.mod_add. lia.
Qed.

Lemma xor_zero v : zb (Z.lxor (bz x00) (bz v)) = v.
Proof. change (bz x00) with 0. by rewrite Z.lxor_0_l, zb_bz. Qed.

(** The two bytes of the checksum *)
Lemma csum_bytes s :
  0 ≤ s < 2 ^ 32 →
  bz (zb (Z.shiftr (not32 s) 8)) * 256 + bz (zb (Z.land (not32 s) 255)) = 65535 - s mod 65536.
Proof.
  intros Hs. unfold not32. set (n := 2 ^ 32 - 1 - s).
  rewrite !bz_zb, Z.shiftr_div_pow2 by lia. change 255 with (Z.ones 8). rewrite Z.land_ones by lia.
  change (2 ^ 8) with 256. rewrite Z.mod_mod by lia.
  assert ((n / 256) mod 256 * 256 + n mod 256 = n mod 65536) as ->.
  { change 65536 with (256 * 256) at 1. rewrite Z.rem_mul_r by lia. lia. }
  unfold n. replace (2 ^ 32 - 1 - s) with (65535 - s mod 65536 + (65535 - s / 65536) * 65536)
    by (pose proof (Z.div_mod s 65536); lia).
  rewrite Z.mod_add by lia. pose proof (Z.mod_pos_bound s 65536). rewrite Z.mod_small by lia. done.
Qed.

(** The bytes of a message around its checksum *)
Definition body_bytes (m : icmpMessage) : bytes := from_option echo_Marshal [] (Body m).

Definition is_v6 (m : icmpMessage) : bool := (Type_ m =? icmpv6EchoRequest) || (Type_ m =? icmpv6EchoReply).

Definition csum_of (m : icmpMessage) : byte * byte :=
  if is_v6 m then (x00, x00)
  else
    let s := fold16 (csum 0 ([zb (Type_ m); zb (Code m); x00; x00] ++ body_bytes m)) in
    (zb (Z.land (not32 s) 255), zb (Z.shiftr (not32 s) 8)).

Lemma icmp_Marshal_eq m :
  icmp_Marshal m = [zb (Type_ m); zb (Code m); (csum_of m).1; (csum_of m).2] ++ body_bytes m.
Proof.
  unfold icmp_Marshal, csum_of. fold (is_v6 m).
  assert (match Body m with
          | Some e => if negb (echo_Len e =? 0) then [zb (Type_ m); zb (Code m); x00; x00] ++ echo_Marshal e
                      else [zb (Type_ m); zb (Code m); x00; x00]
          | None => [zb (Type_ m); zb (Code m); x00; x00]
          end = [zb (Type_ m); zb (Code m); x00; x00] ++ body_bytes m) as ->.
  { unfold body_bytes. destruct (Body m) as [e|]; cbn [from_option]; [|by rewrite app_nil_r].
    unfold echo_Len. pose proof (zlen_nonneg (Data e)). destruct (4 + zlen (Data e) =? 0) eqn:E; zbool; [lia|done]. }
  destruct (is_v6 m); [done|]. unfold xor_at. cbn [app alter list_alter fst snd]. by rewrite !xor_zero.
Qed.

(** The fields that fit their bytes *)
Definition icmp_ok (m : icmpMessage) : Prop :=
  0 ≤ Type_ m < 256 ∧ 0 ≤ Code m < 256 ∧
  match Body m with
  | Some e => is_echo (Type_ m) = true ∧ 0 ≤ ID e < 2 ^ 16 ∧ 0 ≤ Seq e < 2 ^ 16
  | None => True
  end.

Lemma split16 z : 0 ≤ z < 2 ^ 16 →
  Z.lor (Z.shiftl (bz (zb (Z.shiftr z 8))) 8) (bz (zb (Z.land z 255))) = z.
Proof.
  intros Hz. rewrite word_lor, !bz_zb. rewrite Z.shiftr_div_pow2 by lia.
  change 255 with (Z.ones 8). rewrite Z.land_ones by lia. change (2 ^ 8) with 256.
  rewrite Z.mod_mod by lia. pose proof (Z.div_mod z 256 ltac:(lia)).
  pose proof (Z.mod_pos_bound z 256 ltac:(lia)). rewrite (Z.mod_small (z / 256)) by lia. lia.
Qed.

Lemma parse_echo_Marshal e :
  0 ≤ ID e < 2 ^ 16 → 0 ≤ Seq e < 2 ^ 16 → parseICMPEcho (echo_Marshal e) = Ret e.
Proof. intros H1 H2. unfold parseICMPEcho, echo_Marshal. cbn [app]. rewrite !split16 by done. by destruct e. Qed.

(** A message is parsed back from its bytes, with its checksum filled in; and
    the checksum of an ICMPv4 message is right: the 16-bit words of the whole
    message add up to zero in ones' complement arithmetic. *)
Theorem icmp_roundtrip m :
  icmp_ok m → zlen (icmp_Marshal m) ≤ 65535 →
  (∃ k, parseICMPMessage (icmp_Marshal m) = Ret (mkIcmp (Type_ m) (Code m) k (Body m))) ∧
  (is_v6 m = false → word_sum (icmp_Marshal m) mod 65535 = 0).
Proof.
  intros (Ht & Hc & Hb) Hl. rewrite icmp_Marshal_eq in *. cbn [app] in *. split.
  - eexists. unfold parseICMPMessage. rewrite !bz_zb_small by lia. unfold body_bytes in *.
    destruct (Body m) as [e|]; cbn [from_option].
    + destruct Hb as (He & Hi & Hq). rewrite bool_decide_false by done. rewrite He.
      by rewrite parse_echo_Marshal by done.
    + by rewrite bool_decide_true by done.
  - intros Hv. unfold csum_of. rewrite Hv. cbn [fst snd word_sum app].
    set (b := zb (Type_ m) :: zb (Code m) :: x00 :: x00 :: body_bytes m).
    assert (word_sum b = bz (zb (Code m)) * 256 + bz (zb (Type_ m)) + word_sum (body_bytes m)) as Hb'
      by (unfold b; cbn [word_sum]; change (bz x00) with 0; lia).
    assert (zlen b ≤ 65535) as Hlb by (unfold b; rewrite !zlen_cons in *; lia).
    pose proof (word_sum_bound b) as Hsb.
    rewrite (csum_word_sum b 0) by lia. rewrite Z.add_0_l.
    destruct (fold16_mod (word_sum b) ltac:(lia)) as [Hf1 Hf2].
    rewrite Z.add_assoc, csum_bytes by done.
    set (f := fold16 (word_sum b)) in *.
    replace (bz (zb (Code m)) * 256 + bz (zb (Type_ m)) + (65535 - f mod 65536) + word_sum (body_bytes m))
      with (word_sum b - f mod 65536 + 1 * 65535) by lia.
    rewrite Z.mod_add by lia. rewrite Zminus_mod, Hf2, Z.sub_diag. done.
Qed.

Lemma length_request pid : length (request pid) = 68%nat.
Proof. unfold request. rewrite icmp_Marshal_eq. reflexivity. Qed.

(** A reply that arrives in time is accepted, whatever its header: the buffer of
    [Pinger] holds the header of 20 bytes and the message. *)
Theorem reply_accepted pid hdr body rest :
  length hdr = 20%nat → (∃ h, hdr !! 0%nat = Some h ∧ Z.land (bz h) 15 = 5) →
  length body = length (request pid) → (∃ t, body !! 0%nat = Some t ∧ bz t = icmpv4EchoReply) →
  (Pinger true true pid ((hdr ++ body) :: rest)).2 = Ret tt.
Proof.
  intros Hh (h & Hh0 & Hn) Hb (t & Ht & Ht0). pose proof Hb as Hb8. rewrite length_request in Hb8.
  unfold Pinger. cbn [negb snd ping_loop].
  assert (copy_into (make_bytes (20 + length (request pid))) (hdr ++ body) = hdr ++ body) as ->.
  { apply copy_into_full. rewrite length_make_bytes, length_app. lia. }
  unfold ipv4Payload. rewrite bool_decide_false by (rewrite length_app; lia).
  destruct hdr as [|h' hdr]; [done|]. cbn in Hh0. injection Hh0 as ->. cbn [app]. rewrite Hn.
  change (Z.to_nat (Z.shiftl 5 2)) with 20%nat.
  change (h :: hdr ++ body) with ((h :: hdr) ++ body).
  rewrite slice_from_ok by (rewrite length_app; lia). rewrite bind_ret, drop_app_exact by done.
  destruct body as [|t' [|c [|k0 [|k1 body]]]]; cbn in Ht, Hb8; [done|lia..|].
  injection Ht as ->. unfold parseICMPMessage. rewrite Ht0.
  destruct body as [|b0 [|b1 [|b2 [|b3 body]]]]; [cbn in Hb8; lia..|]. done.
Qed.

(** An echo message whose body has one to three bytes crashes the parser. *)
Theorem short_echo_panics t c k0 k1 body :
  is_echo (bz t) = true → (0 < length body < 4)%nat →
  parseICMPMessage (t :: c :: k0 :: k1 :: body) = Panic.
Proof.
  intros Ht Hl. unfold parseICMPMessage. rewrite bool_decide_false by (by intros ->; cbn in Hl; lia).
  rewrite Ht. destruct body as [|? [|? [|? [|? ?]]]]; cbn in Hl; [lia|done..|lia].
Qed.

Definition sample_header : bytes := x45 :: make_bytes 19.

(** Each request that is read on the way, such as one's own when pinging this
    host, cuts 20 bytes from the buffer.  After four of them the header of the next
    packet is taken for its message, and the ping succeeds without a reply. *)
Example requests_shrink_buffer :
  (Pinger true true 7 (replicate 4 (sample_header ++ request 7))).2 = Fail PingIO ∧
  (Pinger true true 7 (replicate 5 (sample_header ++ request 7))).2 = Ret tt.
Proof. vm_compute. done. Qed.

Lemma icmp_roundtrip_witness :
  let m := mkIcmp 8 0 0 (Some (mkEcho 4660 1 (str "ping!"))) in
  (∃ k, parseICMPMessage (icmp_Marshal m) = Ret (mkIcmp 8 0 k (Body m))) ∧
  word_sum (icmp_Marshal m) mod 65535 = 0.
Proof.
  intros m. destruct (icmp_roundtrip m) as [H1 H2].
  - unfold icmp_ok. cbn. repeat split; lia.
  - vm_compute. discriminate.
  - split; [exact H1|]. apply H2. reflexivity.
Defined.

Lemma reply_accepted_witness :
  (Pinger true true 7 [sample_header ++ zb 0 :: make_bytes 67]).2 = Ret tt.
Proof.
  apply (reply_accepted 7 sample_header (zb 0 :: make_bytes 67) []).
  - reflexivity.
  - exists x45. split; reflexivity.
  - reflexivity.
  - exists (zb 0). split; reflexivity.
Defined.
