(* ===== verification/XTox.v ===== *)
(** * The wrapper around a tox instance (xtox/xtox.go, util.go, externs.go)

    Three parts of the wrapper: the timers that reconnect an instance, the tables of
    conferences and their members, and the saving of the account file.  Timers are
    kept with the time they are due; a step lets time pass, runs a timer that is
    due, or is a change of the connection status with its callback. *)

From S2P Require Import Prelude GoIO GoText NodePool.
Local Open Scope Z_scope.

(** ** Reconnecting

    Times are in seconds.  [CONNECTION_NONE] is 0. *)

Module Reconn.

(** The two functions that are given to [time.AfterFunc] *)
Inductive timer := Retry | TryReconn.

#[export] Instance timer_eq_dec : EqDecision timer.
Proof. solve_decision. Defined.

Record xtox := mkXTox {
  status : Z;                    (* SelfGetConnectionStatus *)
  needReconn : Z;                (* 0 or 1 *)
  retrywait : Z;
  timers : list (Z * timer);     (* due at, what *)
  callbacks : list Z;            (* status changes not yet reported *)
  now : Z;
  switches : nat                 (* calls of SwitchServer *)
}.

(** [New]: the instance starts offline with one timer. *)
Definition New (t : Z) : xtox := mkXTox 0 0 3 [(t + 3, TryReconn)] [] t 0.

Definition AfterFunc (d : Z) (f : timer) (x : xtox) : xtox :=
  mkXTox (status x) (needReconn x) (retrywait x) (timers x ++ [(now x + d, f)]) (callbacks x) (now x) (switches x).

Definition CompareAndSwap (old new : Z) (x : xtox) : xtox :=
  mkXTox (status x) (if needReconn x =? old then new else needReconn x) (retrywait x) (timers x)
    (callbacks x) (now x) (switches x).

Definition set_retrywait (d : Z) (x : xtox) : xtox :=
  mkXTox (status x) (needReconn x) d (timers x) (callbacks x) (now x) (switches x).

Definition tryReconn (x : xtox) : xtox :=
  if status x >? 0 then CompareAndSwap 1 0 x
  else
    let x1 := CompareAndSwap 0 1 x in
    let x2 := set_retrywait (if retrywait x1 <? 65 then retrywait x1 + 1 else 3) x1 in
    AfterFunc (retrywait x2) Retry x2.

Definition SwitchServer (x : xtox) : xtox :=
  mkXTox (status x) (needReconn x) (retrywait x) (timers x) (callbacks x) (now x) (S (switches x)).

Definition run_timer (f : timer) (x : xtox) : xtox :=
  match f with
  | TryReconn => tryReconn x
  | Retry => if needReconn x =? 1 then AfterFunc (retrywait x) TryReconn (SwitchServer x) else x
  end.

Definition set_timers (l : list (Z * timer)) (x : xtox) : xtox :=
  mkXTox (status x) (needReconn x) (retrywait x) l (callbacks x) (now x) (switches x).

(** Time passes until a timer is due at the latest; a timer that is due runs; the
    library changes the status and reports it later. *)
Inductive step : xtox → xtox → Prop :=
| step_tick t x :
    now x ≤ t → Forall (λ d, t ≤ d.1) (timers x) →
    step x (mkXTox (status x) (needReconn x) (retrywait x) (timers x) (callbacks x) t (switches x))
| step_fire l d f r x :
    timers x = l ++ (d, f) :: r → d ≤ now x →
    step x (run_timer f (set_timers (l ++ r) x))
| step_status st x :
    0 ≤ st →
    step x (mkXTox st (needReconn x) (retrywait x) (timers x) (callbacks x ++ [st]) (now x) (switches x))
| step_callback st cs x :
    callbacks x = st :: cs →
    step x (tryReconn (mkXTox (status x) (needReconn x) (retrywait x) (timers x) cs (now x) (switches x))).

(** Steps without a status change *)
Inductive quiet : xtox → xtox → Prop :=
| quiet_refl x : quiet x x
| quiet_step x y z : quiet x y → step y z → callbacks z = [] → status z = status y → quiet x z.

Inductive reachable (t : Z) : xtox → Prop :=
| reach_new : reachable t (New t)
| reach_step x y : reachable t x → step x y → reachable t y.

Record wf (x : xtox) : Prop := {
  wf_need : needReconn x = 0 ∨ needReconn x = 1;
  wf_wait : 3 ≤ retrywait x ≤ 65;
  wf_due : Forall (λ d, now x ≤ d.1 ≤ now x + 65) (timers x);
  wf_armed : needReconn x = 1 → timers x ≠ [];
  wf_offline : status x = 0 → callbacks x = [] →
    needReconn x = 1 ∨ Exists (λ d, d.2 = TryReconn) (timers x);
  wf_status : 0 ≤ status x
}.

Lemma wf_New t : wf (New t).
Proof.
  split; cbn; [by left|lia| |done| |lia].
  - repeat constructor; cbn; lia.
  - intros _ _. right. by constructor.
Qed.

(** [tryReconn] on a state that has everything but the last two parts *)
Lemma wf_tryReconn x :
  (needReconn x = 0 ∨ needReconn x = 1) → 3 ≤ retrywait x ≤ 65 →
  Forall (λ d, now x ≤ d.1 ≤ now x + 65) (timers x) → 0 ≤ status x → wf (tryReconn x).
Proof.
  intros Hn Hw Hd Hs. unfold tryReconn. destruct (status x >? 0) eqn:E; zbool.
  - unfold CompareAndSwap. split; cbn [needReconn retrywait timers now status callbacks]; [|done|done| |lia|done].
    + destruct Hn as [-> | ->]; by left.
    + destruct Hn as [-> | ->]; done.
  - assert (3 ≤ (if retrywait x <? 65 then retrywait x + 1 else 3) ≤ 65) as Hr.
    { destruct (retrywait x <? 65) eqn:E2; zbool; lia. }
    unfold AfterFunc, set_retrywait, CompareAndSwap.
    split; cbn [needReconn retrywait timers now status callbacks] in *; [|done| | | |done].
    + destruct Hn as [-> | ->]; by right.
    + apply Forall_app. split; [done|]. repeat constructor; cbn; lia.
    + intros _ Hnil. by apply app_eq_nil in Hnil as [_ [=]].
    + intros _ _. left. destruct Hn as [-> | ->]; done.
Qed.

Lemma Forall_mid {A} (P : A → Prop) l x r : Forall P (l ++ x :: r) → P x ∧ Forall P (l ++ r).
Proof. rewrite !Forall_app, list.Forall_cons. tauto. Qed.

Lemma wf_step x y : wf x → step x y → wf y.
Proof.
  intros [Hn Hw Hd Ha Ho Hs] Hst. destruct Hst as [t x Ht Hall|l d f r x Ht Hdue|st x Hst|st cs x Hc].
  - split; cbn; try done. refine (list.Forall_impl _ _ _ (List.Forall_and Hall Hd) _). cbn. lia.
  - rewrite Ht in Hd. apply Forall_mid in Hd as [Hd1 Hd2]. cbn in Hd1.
    destruct f; cbn [run_timer]; [|by apply wf_tryReconn].
    unfold set_timers at 1. cbn [needReconn]. destruct Hn as [Hn|Hn]; rewrite Hn; cbn [Z.eqb].
    + split; cbn; rewrite ?Hn; [by left|done|done|done| |done].
      intros H1 H2. right. destruct (Ho H1 H2) as [|Hex]; [congruence|].
      rewrite Ht, Exists_app, Exists_cons in Hex. rewrite Exists_app. cbn in Hex. intuition congruence.
    + split; cbn; rewrite ?Hn; [by right|done| |intros _ [_ [=]]%app_eq_nil|by left|done].
      apply Forall_app. split; [done|]. repeat constructor; cbn; lia.
  - split; cbn; try done. intros _ H. by apply app_eq_nil in H as [_ [=]].
  - by apply wf_tryReconn.
Qed.

Lemma reachable_wf t x : reachable t x → wf x.
Proof. induction 1; [apply wf_New|by eapply wf_step]. Qed.

(** A switch is due by time [T]: a timer that will call it, or one that will start
    such a timer early enough. *)
Definition due_by (T : Z) (x : xtox) : Prop :=
  ∃ d f, (d, f) ∈ timers x ∧
    match f with Retry => needReconn x = 1 ∧ d ≤ T | TryReconn => d + 65 ≤ T end.

Lemma due_by_tryReconn T x :
  (needReconn x = 0 ∨ needReconn x = 1) → status x = 0 → due_by T x → due_by T (tryReconn x).
Proof.
  intros Hn Hs (d & f & Hin & Hf). unfold tryReconn. rewrite Hs. cbn [Z.gtb Z.compare].
  exists d, f. cbn. split; [by apply elem_of_app; left|]. destruct f; [|done].
  destruct Hf as [Hf ?]. by rewrite Hf.
Qed.

Lemma due_by_step T x y :
  wf x → status x = 0 → callbacks x = [] → due_by T x →
  step x y → callbacks y = [] → status y = 0 → (switches y = switches x ∧ due_by T y) ∨ (switches x < switches y)%nat.
Proof.
  intros Hwf Hs Hc (d & f & Hin & Hf) Hst Hcy Hsy.
  destruct Hst as [t x Ht Hall|l d' f' r x Ht Hdue|st x Hst|st cs x Hcc].
  - left. split; [done|]. exists d, f. done.
  - destruct f'; cbn [run_timer] in *.
    + cbn [set_timers needReconn] in *.
      destruct (needReconn x =? 1) eqn:En; zbool.
      * right. cbn. lia.
      * left. split; [done|]. exists d, f. split; [|done]. cbn. rewrite Ht in Hin.
        apply elem_of_app in Hin as [Hin|Hin]; [by apply elem_of_app; left|].
        apply list_elem_of_In in Hin. destruct Hin as [[= <- <-]|Hin]; [by destruct Hf|].
        apply elem_of_app. right. by apply list_elem_of_In.
    + left. split; [unfold tryReconn; by destruct (status _ >? 0)|].
      destruct (decide ((d, f) ∈ l ++ r)) as [Hin'|Hin'].
      * apply due_by_tryReconn; [apply Hwf|done|]. exists d, f. done.
      * rewrite Ht in Hin. assert ((d, f) = (d', TryReconn)) as [= -> ->].
        { apply elem_of_app in Hin as [Hin|Hin]; [by destruct Hin'; apply elem_of_app; left|].
          apply list_elem_of_In in Hin. destruct Hin as [Hin|Hin]; [done|].
          destruct Hin'. apply elem_of_app. right. by apply list_elem_of_In. }
        unfold tryReconn. cbn [status set_timers]. rewrite Hs. cbn [Z.gtb Z.compare].
        pose proof (wf_need _ Hwf) as Hn. pose proof (wf_wait _ Hwf) as Hw.
        set (w := if retrywait x <? 65 then retrywait x + 1 else 3).
        exists (now x + w), Retry. cbn. split; [apply elem_of_app; right; apply list_elem_of_here|].
        split; [destruct Hn as [-> | ->]; done|].
        pose proof (wf_due _ Hwf) as Hd. rewrite Ht in Hd. apply Forall_mid in Hd as [Hd _]. cbn in Hd.
        unfold w. destruct (retrywait x <? 65) eqn:E; zbool; lia.
  - cbn in Hcy. by apply app_eq_nil in Hcy as [_ [=]].
  - congruence.
Qed.

Lemma step_now x y : step x y → now x ≤ now y.
Proof.
  destruct 1 as [| l d f r x Ht Hd| |]; cbn; [done| |lia|unfold tryReconn; by destruct (_ >? _)].
  destruct f; cbn; [by destruct (_ =? 1)|unfold tryReconn; by destruct (_ >? _)].
Qed.

Lemma due_by_now T x : wf x → due_by T x → now x ≤ T.
Proof.
  intros Hwf (d & f & Hin & Hf). pose proof (wf_due _ Hwf) as Hd. rewrite list.Forall_forall in Hd.
  specialize (Hd _ Hin). cbn in Hd. destruct f; lia.
Qed.

(** Offline with nothing to report, a switch is due within 130 seconds. *)
Lemma due_by_offline x : wf x → status x = 0 → callbacks x = [] → due_by (now x + 130) x.
Proof.
  intros Hwf Hs Hc. destruct (wf_offline _ Hwf Hs Hc) as [Hn|Hex].
  - pose proof (wf_armed _ Hwf Hn) as Hne. pose proof (wf_due _ Hwf) as Hd.
    destruct (timers x) as [|[d f] r] eqn:E; [done|]. apply list.Forall_cons in Hd as [Hd _]. cbn in Hd.
    exists d, f. rewrite E. split; [apply list_elem_of_here|]. destruct f; [split; [done|lia]|lia].
  - apply list.Exists_exists in Hex as ([d f] & Hin & Hf). cbn in Hf. subst f. exists d, TryReconn.
    split; [done|]. pose proof (wf_due _ Hwf) as Hd. rewrite list.Forall_forall in Hd.
    specialize (Hd _ Hin). cbn in Hd. lia.
Qed.

Lemma quiet_switch x y :
  wf x → status x = 0 → callbacks x = [] → quiet x y →
  wf y ∧ status y = 0 ∧ callbacks y = [] ∧
  ((switches x < switches y)%nat ∨ switches y = switches x ∧ due_by (now x + 130) y).
Proof.
  intros Hwf Hs Hc Hq. induction Hq as [x|x y z Hq IH Hst Hcz Hsz].
  { split_and!; [done..|]. right. split; [done|]. by apply due_by_offline. }
  destruct (IH Hwf Hs Hc) as (Hwy & Hsy & Hcy & Hy). clear IH.
  assert (switches y ≤ switches z)%nat as Hmon.
  { destruct Hst as [| l d f r y Ht Hd| |]; cbn; [done| |done|unfold tryReconn; by destruct (_ >? _)].
    destruct f; cbn; [destruct (_ =? 1); cbn; lia|unfold tryReconn; by destruct (_ >? _)]. }
  split_and!; [by eapply wf_step|congruence|done|].
  destruct Hy as [Hy|[Hy Hd]]; [left; lia|].
  destruct (due_by_step _ _ _ Hwy Hsy Hcy Hd Hst Hcz ltac:(congruence)) as [[? ?]|?]; [right; split; [lia|done]|left; lia].
Qed.
End Reconn.

(** C27: An instance that is offline keeps trying: from any state that the instance
    reaches, however timers, status changes and their callbacks interleave, once it
    is offline and has been told so, it switches its servers before more than 130
    seconds have passed without another change of its status; the time between two
    attempts stays between 3 and 65 seconds. *)
Theorem reconnect_alive t x y :
  Reconn.reachable t x → Reconn.status x = 0 → Reconn.callbacks x = [] → Reconn.quiet x y →
  3 ≤ Reconn.retrywait y ≤ 65 ∧
  (Reconn.now x + 130 < Reconn.now y → (Reconn.switches x < Reconn.switches y)%nat).
Proof.
  intros Hr Hs Hc Hq. apply Reconn.reachable_wf in Hr.
  destruct (Reconn.quiet_switch _ _ Hr Hs Hc Hq) as (Hwf & _ & _ & Hy).
  split; [apply Hwf|]. intros Hnow. destruct Hy as [Hy|[_ Hd]]; [done|].
  apply Reconn.due_by_now in Hd; [lia|done].
Qed.

(** Three seconds after the start the first timer runs. *)
Lemma reconnect_alive_witness :
  let x := Reconn.New 0 in
  let y := Reconn.tryReconn (Reconn.mkXTox 0 0 3 [] [] 3 0) in
  Reconn.quiet x y ∧ 3 ≤ Reconn.retrywait y ≤ 65 ∧
  (Reconn.now x + 130 < Reconn.now y → (Reconn.switches x < Reconn.switches y)%nat).
Proof.
  intros x y. assert (Reconn.quiet x y) as Hq.
  { apply (Reconn.quiet_step x (Reconn.mkXTox 0 0 3 [(3, Reconn.TryReconn)] [] 3 0));
      [apply (Reconn.quiet_step x x); [apply Reconn.quiet_refl| |done..]| |done..].
    - apply (Reconn.step_tick 3 x); [cbn; lia|]. apply Forall_singleton. cbn. lia.
    - apply (Reconn.step_fire [] 3 Reconn.TryReconn []); done. }
  split; [exact Hq|]. apply (reconnect_alive 0 x y); [constructor|reflexivity|reflexivity|exact Hq].
Defined.

(** Going on and off line again and again starts one more chain of timers each
    time, and all of them switch servers. *)
Fixpoint flap (n : nat) (x : Reconn.xtox) : Reconn.xtox :=
  match n with
  | O => x
  | S n =>
      let on := Reconn.tryReconn (Reconn.mkXTox 1 (Reconn.needReconn x) (Reconn.retrywait x) (Reconn.timers x) []
                                    (Reconn.now x) (Reconn.switches x)) in
      flap n (Reconn.tryReconn (Reconn.mkXTox 0 (Reconn.needReconn on) (Reconn.retrywait on) (Reconn.timers on) []
                                  (Reconn.now on) (Reconn.switches on)))
  end.

Lemma flap_reachable n t x : Reconn.reachable t x → Reconn.callbacks x = [] → Reconn.reachable t (flap n x) ∧ Reconn.callbacks (flap n x) = [].
Proof.
  revert x. induction n as [|n IH]; intros x Hr Hc; [done|]. cbn [flap]. apply IH; [|done].
  assert (∀ st y, 0 ≤ st → Reconn.reachable t y → Reconn.callbacks y = [] →
    Reconn.reachable t (Reconn.tryReconn (Reconn.mkXTox st (Reconn.needReconn y) (Reconn.retrywait y) (Reconn.timers y) []
       (Reconn.now y) (Reconn.switches y)))) as Hstep.
  { intros st y Hst Hy Hcy. eapply Reconn.reach_step; [eapply Reconn.reach_step; [exact Hy|apply (Reconn.step_status st); done]|].
    rewrite Hcy. exact (Reconn.step_callback st [] (Reconn.mkXTox st (Reconn.needReconn y) (Reconn.retrywait y)
      (Reconn.timers y) [st] (Reconn.now y) (Reconn.switches y)) eq_refl). }
  apply Hstep; [done| |done]. apply Hstep; done.
Qed.

Theorem flapping_multiplies n t :
  Reconn.reachable t (flap n (Reconn.New t)) ∧
  length (Reconn.timers (flap n (Reconn.New t))) = S n.
Proof.
  split; [by apply flap_reachable; [constructor|]|].
  assert (∀ x, length (Reconn.timers (flap n x)) = (n + length (Reconn.timers x))%nat) as ->; [|cbn; lia].
  induction n as [|n IH]; intros x; cbn [flap]; [done|]. rewrite IH. cbn. rewrite length_app. cbn. lia.
Qed.

(** ** The account file

    [WriteSavedata] of util.go over a file system without links: files by the
    components of their absolute path. *)

Module SaveFile.

Definition sl : byte := x2f.
Definition dot : bytes := str ".".
Definition dotdot : bytes := str "..".

Abbreviation files := (gmap (list bytes) bytes).

(** The components of a path that name something *)
Definition comps (p : bytes) : list bytes :=
  base.filter (λ c, c ≠ [] ∧ c ≠ dot) (SplitByte sl p).

Definition rooted (p : bytes) : bool := HasPrefix [sl] p.

(** Walking components from a directory; the parent of the root is the root. *)
Fixpoint walk (dir cs : list bytes) : list bytes :=
  match cs with
  | [] => dir
  | c :: cs => walk (if bool_decide (c = dotdot) then removelast dir else dir ++ [c]) cs
  end.

(** What the system makes of a path *)
Definition resolve (cwd : list bytes) (p : bytes) : list bytes :=
  walk (if rooted p then [] else cwd) (comps p).

(** [filepath.Clean]: a relative path keeps the [..] it starts with. *)
Fixpoint clean (root : bool) (out cs : list bytes) : list bytes :=
  match cs with
  | [] => out
  | c :: cs =>
      clean root
        (if bool_decide (c = dotdot) then
           if bool_decide (out = [] ∨ list.last out = Some dotdot) then if root then out else out ++ [c]
           else removelast out
         else out ++ [c]) cs
  end.

Definition Clean (p : bytes) : bytes :=
  let cs := clean (rooted p) [] (comps p) in
  if rooted p then sl :: Join [sl] cs
  else if bool_decide (cs = []) then dot else Join [sl] cs.

(** [filepath.Dir]: the path up to the last separator, cleaned *)
Fixpoint up_to_slash (p : bytes) : bytes :=
  match p with
  | [] => []
  | b :: p => if bool_decide (sl ∈ b :: p) then b :: up_to_slash p else []
  end.

Definition Dir (p : bytes) : bytes := Clean (up_to_slash p).

(** [ioutil.TempFile(dir, "gotcb")]: the name of the file; [r] is its random part. *)
Definition temp_name (dir r : bytes) : bytes :=
  (if bool_decide (list.last dir = Some sl) then dir else dir ++ [sl]) ++ str "gotcb" ++ r.

(** The calls that can fail, and the errors that are returned *)
Inductive io_call := DoWrite | DoRead | DoTemp | DoTempWrite | DoTempClose | DoRemove | DoRename.

Definition WriteSavedata (fails : io_call → bool) (cwd : list bytes) (r fname live : bytes) (fs : files)
    : option io_call * files :=
  let path := resolve cwd fname in
  match fs !! path with
  | None => if fails DoWrite then (Some DoWrite, fs) else (None, <[path := live]> fs)
  | Some data =>
      if fails DoRead then (Some DoRead, fs)
      else if bool_decide (data = live) then (None, fs)
      else if fails DoTemp then (Some DoTemp, fs)
      else
        let tfname := temp_name (Dir fname) r in
        let tpath := resolve cwd tfname in
        if fails DoTempWrite then (Some DoTempWrite, <[tpath := []]> fs)
        else
          let fs1 := <[tpath := live]> fs in
          if fails DoTempClose then (Some DoTempClose, fs1)
          else if fails DoRemove then (Some DoRemove, fs1)
          else
            let fs2 := delete path fs1 in
            let src := resolve cwd (Dir fname ++ [sl] ++ tfname) in
            match fs2 !! src with
            | Some d => if fails DoRename then (Some DoRename, fs2)
                        else (None, <[path := d]> (delete src fs2))
            | None => (Some DoRename, fs2)
            end
  end.

Definition no_faults : io_call → bool := λ _, false.

(** *** Paths: lemmas *)

Lemma SplitByte_sep c l r : SplitByte c (l ++ c :: r) = SplitByte c l ++ SplitByte c r.
Proof.
  induction l as [|b l IH]; cbn [app SplitByte].
  - pose proof (SplitByte_not_nil c r). destruct (SplitByte c r); [done|].
    by rewrite (Byte.byte_dec_lb eq_refl).
  - rewrite IH. pose proof (SplitByte_not_nil c l). destruct (SplitByte c l); [done|].
    by destruct (Byte.eqb b c).
Qed.

Lemma comps_sep l r : comps (l ++ sl :: r) = comps l ++ comps r.
Proof. unfold comps. by rewrite SplitByte_sep, list.filter_app. Qed.

Lemma walk_app dir l r : walk dir (l ++ r) = walk (walk dir l) r.
Proof. revert dir. induction l as [|c l IH]; intros dir; cbn; [done|apply IH]. Qed.

(** Components without [..] are appended. *)
Lemma walk_plain dir cs : dotdot ∉ cs → walk dir cs = dir ++ cs.
Proof.
  revert dir. induction cs as [|c cs IH]; intros dir; cbn [walk]; [by rewrite app_nil_r|].
  rewrite list.not_elem_of_cons. intros [Hc Hcs]. rewrite bool_decide_false by done.
  rewrite IH by done. by rewrite <- app_assoc.
Qed.

Definition plain (c : bytes) : Prop := c ≠ [] ∧ c ≠ dot ∧ c ≠ dotdot ∧ sl ∉ c.

Lemma comps_plain c : plain c → comps c = [c].
Proof.
  intros (H1 & H2 & _ & H4). unfold comps. rewrite SplitByte_none by done.
  by rewrite list.filter_cons_True by done.
Qed.

Lemma comps_Join cs : Forall plain cs → comps (Join [sl] cs) = cs.
Proof.
  induction cs as [|c cs IH]; intros Hf; [done|]. apply list.Forall_cons in Hf as [Hc Hf].
  destruct cs as [|c' cs]; [by apply comps_plain|].
  change (Join [sl] (c :: c' :: cs)) with (c ++ [sl] ++ Join [sl] (c' :: cs)).
  cbn [app]. rewrite comps_sep, comps_plain, IH by done. done.
Qed.

Lemma SplitByte_parts c s : Forall (λ p, c ∉ p) (SplitByte c s).
Proof.
  induction s as [|b s IH]; cbn [SplitByte]; [repeat constructor; apply not_elem_of_nil|].
  destruct (SplitByte c s) as [|p ps]; [done|]. apply list.Forall_cons in IH as [Hp Hps].
  destruct (Byte.eqb b c) eqn:E; repeat constructor; try done; [apply not_elem_of_nil|].
  rewrite list.not_elem_of_cons. split; [|done]. intros ->. by rewrite (Byte.byte_dec_lb eq_refl) in E.
Qed.

Lemma comps_parts p : Forall (λ c, c ≠ [] ∧ c ≠ dot ∧ sl ∉ c) (comps p).
Proof.
  apply list.Forall_forall. intros c Hc. apply list_elem_of_filter in Hc as [[H1 H2] Hc].
  split_and!; [done|done|]. pose proof (SplitByte_parts sl p) as H. rewrite list.Forall_forall in H. by apply H.
Qed.

(** A cleaned rooted path has plain components only. *)
Lemma clean_plain out cs :
  Forall plain out → Forall (λ c, c ≠ [] ∧ c ≠ dot ∧ sl ∉ c) cs → Forall plain (clean true out cs).
Proof.
  revert out. induction cs as [|c cs IH]; intros out Ho Hf; cbn [clean]; [done|].
  apply list.Forall_cons in Hf as [(H1 & H2 & H3) Hf]. apply IH; [|done].
  destruct (bool_decide_reflect (c = dotdot)) as [->|Hd].
  - destruct (bool_decide _); [done|]. rewrite removelast_firstn_len. by apply Forall_take.
  - apply Forall_app. split; [done|]. by repeat constructor.
Qed.
Lemma comps_temp d r : comps (temp_name d r) = comps d ++ comps (str "gotcb" ++ r).
Proof.
  unfold temp_name. destruct (bool_decide_reflect (list.last d = Some sl)) as [Hl|Hl].
  - apply last_Some in Hl as [d' ->]. rewrite <- app_assoc. cbn [app]. rewrite comps_sep.
    change (d' ++ [sl]) with (d' ++ sl :: []). rewrite comps_sep. change (comps []) with (@nil bytes).
    by rewrite app_nil_r.
  - rewrite <- app_assoc. apply comps_sep.
Qed.

Lemma rooted_app d k : d ≠ [] → rooted (d ++ k) = rooted d.
Proof. by destruct d. Qed.

Lemma rooted_temp d r : d ≠ [] → rooted (temp_name d r) = rooted d.
Proof. intros Hd. unfold temp_name. case_bool_decide; rewrite ?rooted_app; auto. by destruct d. Qed.

Lemma temp_plain r : sl ∉ r → plain (str "gotcb" ++ r).
Proof.
  intros Hr. split_and!; [done|done|done|]. rewrite not_elem_of_app. split; [|done].
  apply (bool_decide_eq_true_1 (sl ∉ str "gotcb")). reflexivity.
Qed.

(** Where the temporary file is, and where it is looked for *)
Lemma temp_paths cwd d dcs r :
  sl ∉ r → d ≠ [] → comps d = dcs → Forall plain dcs →
  let base := if rooted d then [] else cwd in
  resolve cwd (temp_name d r) = base ++ dcs ++ [str "gotcb" ++ r] ∧
  resolve cwd (d ++ [sl] ++ temp_name d r) = base ++ dcs ++ dcs ++ [str "gotcb" ++ r].
Proof.
  intros Hr Hd Hc Hf base. unfold resolve.
  rewrite rooted_temp, rooted_app by done. fold base. cbn [app].
  rewrite comps_sep, comps_temp, Hc, comps_plain by by apply temp_plain.
  assert (dotdot ∉ dcs) as Hdd.
  { intros Hin. rewrite list.Forall_forall in Hf. by destruct (Hf _ Hin) as (_ & _ & H & _). }
  assert (dotdot ∉ [str "gotcb" ++ r]) as Hn by (by intros ?%list_elem_of_singleton).
  split; apply walk_plain; rewrite !not_elem_of_app; done.
Qed.

Lemma rooted_inv p : rooted p = true → ∃ q, p = sl :: q.
Proof. intros [q ->]%HasPrefix_spec. by exists q. Qed.

Lemma rooted_cons q : rooted (sl :: q) = true.
Proof. apply (HasPrefix_app [sl] q). Qed.

Lemma rooted_not_plain p : rooted p = true → ¬ plain p.
Proof. intros [q ->]%rooted_inv (_ & _ & _ & Hn). apply Hn, list_elem_of_here. Qed.

Lemma Dir_rooted p :
  rooted p = true → ∃ dcs, Dir p = sl :: Join [sl] dcs ∧ Forall plain dcs ∧ comps (Dir p) = dcs.
Proof.
  intros [q ->]%rooted_inv. unfold Dir. cbn [up_to_slash].
  rewrite bool_decide_true by apply list_elem_of_here. unfold Clean. rewrite rooted_cons.
  set (dcs := clean true [] _). exists dcs.
  assert (Forall plain dcs) as Hf by (apply clean_plain; [constructor|apply comps_parts]).
  split_and!; [done|done|]. change (sl :: Join [sl] dcs) with ([] ++ sl :: Join [sl] dcs).
  rewrite comps_sep, comps_Join by done. done.
Qed.

Lemma Dir_plain p : sl ∉ p → Dir p = dot.
Proof.
  intros Hp. unfold Dir. destruct p as [|b p]; [reflexivity|]. cbn [up_to_slash].
  by rewrite bool_decide_false by done.
Qed.
End SaveFile.

Import SaveFile.

(** C28: Saving the account, when no call of the system fails.  A new file, an
    unchanged one, and one in the current directory or in the root hold the
    live data afterwards, and no other file changes.  A file that changed in any
    other directory is gone: its name is removed, and the temporary file is looked
    for under the directory twice. *)
Theorem save_by_directory cwd r fname live fs :
  sl ∉ r → fs !! resolve cwd (temp_name (Dir fname) r) = None → plain fname ∨ rooted fname = true →
  let path := resolve cwd fname in
  let '(err, fs') := WriteSavedata no_faults cwd r fname live fs in
  (plain fname ∨ Dir fname = [sl] ∨ fs !! path = None ∨ fs !! path = Some live →
   err = None ∧ fs' !! path = Some live ∧ ∀ q, q ≠ path → fs' !! q = fs !! q) ∧
  (rooted fname = true → Dir fname ≠ [sl] → (∃ old, fs !! path = Some old ∧ old ≠ live) →
   fs !! resolve cwd (Dir fname ++ [sl] ++ temp_name (Dir fname) r) = None →
   err = Some DoRename ∧ fs' !! path = None).
Proof.
  intros Hr Hnew Hkind path.
  assert (∃ d dcs, Dir fname = d ∧ d ≠ [] ∧ comps d = dcs ∧ Forall plain dcs ∧
    (plain fname → dcs = []) ∧ (rooted fname = true → d = sl :: Join [sl] dcs)) as (d & dcs & Hd & Hne & Hc & Hf & Hpl & Hrt).
  { destruct Hkind as [Hp|Hp].
    - exists dot, []. rewrite Dir_plain by apply Hp. split_and!; [done..|].
      intros Hrt. by destruct (rooted_not_plain _ Hrt).
    - destruct (Dir_rooted fname Hp) as (dcs & H1 & H2 & H3). exists (Dir fname), dcs.
      split_and!; [done|by rewrite H1|done|done| |done]. intros Hn. by destruct (rooted_not_plain _ Hp). }
  rewrite Hd in *. destruct (temp_paths cwd d dcs r Hr Hne Hc Hf) as [Ht Hs].
  set (base := if rooted d then [] else cwd) in *. set (name := str "gotcb" ++ r) in *.
  unfold WriteSavedata. rewrite Hd, Ht, Hs in *. fold path. cbn [no_faults].
  destruct (fs !! path) as [old|] eqn:Eo.
  2:{ split; [|intros _ _ (old & [=] & _)]. intros _. split_and!; [done|by rewrite lookup_insert_eq|].
      intros q Hq. by rewrite lookup_insert_ne by done. }
  destruct (bool_decide_reflect (old = live)) as [->|Hol].
  { split; [done|]. intros _ _ (old & [= <-] & []). done. }
  assert (base ++ dcs ++ [name] ≠ path) as Hpt by congruence.
  destruct (decide (dcs = [])) as [->|Hdn].
  - cbn [app] in *. rewrite lookup_delete_ne, lookup_insert_eq by done. split.
    + intros _. split_and!; [done|by rewrite lookup_insert_eq|]. intros q Hq.
      rewrite lookup_insert_ne by done. destruct (decide (q = base ++ [name])) as [->|Hq'].
      * by rewrite lookup_delete_eq.
      * by rewrite !lookup_delete_ne, lookup_insert_ne by done.
    + intros Hrt' Hds. by destruct Hds; apply Hrt.
  - assert (base ++ dcs ++ dcs ++ [name] ≠ base ++ dcs ++ [name]) as Hdiff.
    { intros H. apply (f_equal length) in H. rewrite !length_app in H. destruct dcs; [done|cbn in H; lia]. }
    assert (delete path (<[base ++ dcs ++ [name] := live]> fs) !! (base ++ dcs ++ dcs ++ [name]) =
      if decide (base ++ dcs ++ dcs ++ [name] = path) then None else fs !! (base ++ dcs ++ dcs ++ [name])) as Hl.
    { case_decide as Hq; [rewrite Hq; apply lookup_delete_eq|]. by rewrite lookup_delete_ne, lookup_insert_ne by done. }
    assert (¬ (plain fname ∨ d = [sl] ∨ Some old = None ∨ Some old = Some live)) as Hno.
    { intros [Hp|[Hp|[Hp|Hp]]]; [by destruct Hdn; apply Hpl| |done|congruence].
      destruct Hkind as [Hk|Hk]; [by destruct Hdn; apply Hpl|]. specialize (Hrt Hk).
      rewrite Hp in Hrt. destruct dcs as [|x xs]; [done|].
      apply list.Forall_cons in Hf as [(Hx & _) _]. by destruct x, xs. }
    destruct (delete path _ !! (base ++ dcs ++ dcs ++ [name])) as [x|];
      (split; [intros H; by destruct Hno|intros _ _ _ Hnone]).
    + revert Hl. case_decide; congruence.
    + split; [done|apply lookup_delete_eq].
Qed.

Lemma save_by_directory_witness :
  let fname := str "/home/u/tox.save" in
  let fs : gmap (list bytes) bytes := {[ resolve [] fname := str "old" ]} in
  let '(err, fs') := WriteSavedata no_faults [] (str "17") fname (str "new") fs in
  err = Some DoRename ∧ fs' !! resolve [] fname = None.
Proof.
  intros fname fs.
  assert (sl ∉ str "17") as H1 by (apply (bool_decide_eq_true_1 (sl ∉ str "17")); reflexivity).
  assert (fs !! resolve [] (temp_name (Dir fname) (str "17")) = None) as H2 by reflexivity.
  assert (rooted fname = true) as H3 by reflexivity.
  pose proof (save_by_directory [] (str "17") fname (str "new") fs H1 H2 (or_intror H3)) as H.
  destruct (WriteSavedata _ _ _ _ _ _) as [err fs']. destruct H as [_ H].
  apply H; [reflexivity|discriminate| |reflexivity].
  exists (str "old"). split; [apply lookup_singleton_eq|discriminate].
Defined.

(** ** Conferences and their members

    The tables of conferences.  A hash map takes keys of any type, and an [int] and a
    [uint32] of the same value are different keys. *)

Inductive hkey := KInt (n : Z) | KU32 (n : Z).

#[export] Instance hkey_eq_dec : EqDecision hkey.
Proof. solve_decision. Defined.

#[export] Instance hkey_countable : Countable hkey.
Proof.
  refine (inj_countable' (λ k, match k with KInt n => inl n | KU32 n => inr n end)
            (λ s, match s with inl n => KInt n | inr n => KU32 n end) _).
  by intros [].
Defined.

(** The two-way map of github.com/kitech/godsts, whose keys and values are unique;
    here numbers and texts are both. *)
Inductive gval := VNum (n : Z) | VStr (s : bytes).

#[export] Instance gval_eq_dec : EqDecision gval.
Proof. solve_decision. Defined.

Class BidiMap := {
  bidi : Type;
  bd_New : bidi;
  bd_Put : gval → gval → bidi → bidi;
  bd_Get : gval → bidi → option gval;
  bd_GetKey : gval → bidi → option gval;
  bd_Remove : gval → bidi → bidi;
  bd_RemoveValue : gval → bidi → bidi
}.

Class BidiMapLaws (B : BidiMap) : Prop := {
  bd_get_new k : bd_Get k bd_New = None;
  bd_get_put k k' v m :
    bd_Get k' (bd_Put k v m) =
      if decide (k' = k) then Some v else if decide (bd_Get k' m = Some v) then None else bd_Get k' m;
  bd_getkey k v m : bd_GetKey v m = Some k ↔ bd_Get k m = Some v;
  bd_get_remove k k' m : bd_Get k' (bd_Remove k m) = if decide (k' = k) then None else bd_Get k' m;
  bd_get_removevalue v k' m :
    bd_Get k' (bd_RemoveValue v m) = if decide (bd_Get k' m = Some v) then None else bd_Get k' m
}.

Section Groups.
Context `{BidiMap}.

Record groups := mkGroups {
  invitedGroups : bidi;
  groupIdentifiers : bidi;
  groupPeerKeys : gmap Z (gmap hkey bytes);
  groupPeerNames : gmap Z (gmap hkey bytes);
  groupTitles : gmap Z bytes
}.

Definition newXTox : groups := mkGroups bd_New bd_New ∅ ∅ ∅.

Definition set_keys x (g : groups) := mkGroups (invitedGroups g) (groupIdentifiers g) x (groupPeerNames g) (groupTitles g).
Definition set_names x (g : groups) := mkGroups (invitedGroups g) (groupIdentifiers g) (groupPeerKeys g) x (groupTitles g).
Definition set_titles x (g : groups) := mkGroups (invitedGroups g) (groupIdentifiers g) (groupPeerKeys g) (groupPeerNames g) x.
Definition set_invited x (g : groups) := mkGroups x (groupIdentifiers g) (groupPeerKeys g) (groupPeerNames g) (groupTitles g).
Definition set_idents x (g : groups) := mkGroups (invitedGroups g) x (groupPeerKeys g) (groupPeerNames g) (groupTitles g).

(** The callbacks *)
Definition ConferencePeerName (gn pn : Z) (name : bytes) (g : groups) : groups :=
  let names := default ∅ (groupPeerNames g !! gn) in
  set_names (<[gn := <[KU32 pn := name]> names]> (groupPeerNames g)) g.

(** The keys of the members by their number, from [n] on *)
Fixpoint put_keys (n : Z) (pubkeys : list bytes) (m : gmap hkey bytes) : gmap hkey bytes :=
  match pubkeys with
  | [] => m
  | k :: ks => put_keys (n + 1) ks (<[KU32 (u32 n) := k]> m)
  end.

(** The lists of added and deleted keys are computed and not used. *)
Definition ConferencePeerListChanged (gn : Z) (pubkeys : list bytes) (g : groups) : groups :=
  set_keys (<[gn := put_keys 0 pubkeys ∅]> (groupPeerKeys g)) g.

Definition ConferenceTitle (gn : Z) (title : bytes) (g : groups) : groups :=
  set_titles (<[gn := title]> (groupTitles g)) g.

Definition ConferenceCookieToIdentifier (cookie : bytes) : bytes :=
  if bool_decide (6 ≤ length cookie)%nat then drop 6 cookie else [].

Definition ConferenceIdIsEmpty (groupId : bytes) : bool := forallb (λ b, Byte.eqb b x30) groupId.

Definition put_ident (gn : Z) (id : bytes) (g : groups) : groups :=
  set_idents (bd_Put (VStr id) (VNum gn) (bd_Put (VNum gn) (VStr id) (groupIdentifiers g))) g.

(** The hooks *)
Definition HookJoin (gn : Z) (cookie : bytes) (g : groups) : groups :=
  let g1 := match groupPeerKeys g !! gn with None => set_keys (<[gn := ∅]> (groupPeerKeys g)) g | Some _ => g end in
  let g2 := match groupPeerNames g1 !! gn with None => set_names (<[gn := ∅]> (groupPeerNames g1)) g1 | Some _ => g1 end in
  let g3 := set_invited (bd_Put (VNum gn) (VStr cookie) (invitedGroups g2)) g2 in
  let id := ConferenceCookieToIdentifier cookie in
  if ConferenceIdIsEmpty id then g3 else put_ident gn id g3.

Definition HookNew (gn : Z) (pubkey name : bytes) (grpid : option bytes) (g : groups) : groups :=
  let g1 := set_keys (<[gn := {[ KInt 0 := pubkey ]}]> (groupPeerKeys g)) g in
  let g2 := set_names (<[gn := {[ KInt 0 := name ]}]> (groupPeerNames g1)) g1 in
  match grpid with Some id => put_ident gn id g2 | None => g2 end.

Definition remove_pair (gn : Z) (m : bidi) : bidi :=
  match bd_Get (VNum gn) m with
  | Some v => bd_RemoveValue v (bd_Remove (VNum gn) m)
  | None => m
  end.

(** What the hook of a deletion does three minutes later *)
Definition HookDelete_later (gn : Z) (g : groups) : groups :=
  let g1 := set_invited (remove_pair gn (invitedGroups g)) g in
  set_idents (remove_pair gn (groupIdentifiers g1)) g1.

(** The readers *)
Definition IsInvitedGroup (gn : Z) (g : groups) : bool := bool_decide (is_Some (bd_Get (VNum gn) (invitedGroups g))).

Definition ConferencePeerGetPubkey (gn pn : Z) (g : groups) : option bytes :=
  keys ← groupPeerKeys g !! gn; keys !! KU32 pn.

Definition ConferencePeerGetName (gn pn : Z) (g : groups) : option bytes :=
  names ← groupPeerNames g !! gn; names !! KU32 pn.

Definition ConferenceGetTitle (gn : Z) (g : groups) : option bytes := groupTitles g !! gn.

Definition ConferenceGetCookie (gn : Z) (g : groups) : option gval := bd_Get (VNum gn) (invitedGroups g).

Definition ConferenceGetByCookie (cookie : bytes) (g : groups) : option gval :=
  bd_GetKey (VStr cookie) (invitedGroups g).
End Groups.

Lemma put_keys_lookup n ks m i :
  0 ≤ n → n + zlen ks ≤ 2 ^ 32 →
  put_keys n ks m !! KU32 i =
    if decide (n ≤ i < n + zlen ks) then ks !! Z.to_nat (i - n) else m !! KU32 i.
Proof.
  revert n m. induction ks as [|k ks IH]; intros n m Hn Hl; cbn [put_keys].
  { rewrite decide_False by (rewrite zlen_nil; lia). done. }
  rewrite zlen_cons in *. rewrite IH by lia. unfold u32. rewrite wrap_u_small by (pose proof (zlen_nonneg ks); lia).
  destruct (decide (i = n)) as [->|Hi].
  - rewrite decide_False by lia. rewrite lookup_insert_eq.
    rewrite decide_True by (pose proof (zlen_nonneg ks); lia). by rewrite Z.sub_diag.
  - rewrite lookup_insert_ne by congruence. destruct (decide (n + 1 ≤ i < n + 1 + zlen ks)) as [H1|H1].
    + rewrite decide_True by lia. replace (Z.to_nat (i - n)) with (S (Z.to_nat (i - (n + 1)))) by lia. done.
    + by rewrite decide_False by lia.
Qed.

(** The tables of conferences: after a change of its member list exactly the
    members of the new list are found, each under its number; after an invitation
    was accepted the conference counts as invited, its cookie is found by its number
    and the other way round; neither touches what is known of the members of other
    conferences. *)
Theorem conference_tables `{BidiMapLaws} gn ks cookie pn g :
  zlen ks ≤ 2 ^ 32 →
  let g1 := ConferencePeerListChanged gn ks g in
  let g2 := HookJoin gn cookie g1 in
  (0 ≤ pn → ConferencePeerGetPubkey gn pn g1 = ks !! Z.to_nat pn) ∧
  (0 ≤ pn → ConferencePeerGetPubkey gn pn g2 = ks !! Z.to_nat pn) ∧
  (∀ gn', gn' ≠ gn → ConferencePeerGetPubkey gn' pn g2 = ConferencePeerGetPubkey gn' pn g) ∧
  IsInvitedGroup gn g2 = true ∧ ConferenceGetCookie gn g2 = Some (VStr cookie) ∧
  ConferenceGetByCookie cookie g2 = Some (VNum gn).
Proof.
  intros Hl g1 g2.
  assert (groupPeerKeys g2 = groupPeerKeys g1) as Hk.
  { unfold g2, HookJoin.
    assert (groupPeerKeys g1 !! gn = Some (put_keys 0 ks ∅)) as -> by (unfold g1; cbn; apply lookup_insert_eq).
    destruct (ConferenceIdIsEmpty _), (groupPeerNames g1 !! gn); done. }
  assert (invitedGroups g2 = bd_Put (VNum gn) (VStr cookie) (invitedGroups g)) as Hi.
  { unfold g2, HookJoin. destruct (ConferenceIdIsEmpty _), (groupPeerKeys g1 !! gn);
      cbn; repeat (case_match; cbn); done. }
  assert (0 ≤ pn → ConferencePeerGetPubkey gn pn g1 = ks !! Z.to_nat pn) as H1.
  { intros Hpn. unfold ConferencePeerGetPubkey, g1, ConferencePeerListChanged. cbn [groupPeerKeys set_keys].
    rewrite lookup_insert_eq. cbn [mbind option_bind]. rewrite put_keys_lookup by lia.
    case_decide as Hd; [by rewrite Z.sub_0_r|]. rewrite lookup_empty. symmetry. apply lookup_ge_None.
    unfold zlen in Hd. lia. }
  split_and!; [done| | |by unfold IsInvitedGroup; rewrite Hi, bd_get_put, decide_True by done
    |by unfold ConferenceGetCookie; rewrite Hi, bd_get_put, decide_True by done
    |by unfold ConferenceGetByCookie; rewrite bd_getkey, Hi, bd_get_put, decide_True by done].
  - unfold ConferencePeerGetPubkey in *. by rewrite Hk.
  - intros gn' Hne. unfold ConferencePeerGetPubkey. rewrite Hk. unfold g1. cbn.
    by rewrite lookup_insert_ne by done.
Qed.

(** The own entry of a new conference is stored under an [int]: no reader finds it. *)
Theorem own_member_hidden `{BidiMap} gn pubkey name grpid g pn :
  let g' := HookNew gn pubkey name grpid g in
  ConferencePeerGetPubkey gn pn g' = None ∧ ConferencePeerGetName gn pn g' = None.
Proof.
  unfold ConferencePeerGetPubkey, ConferencePeerGetName, HookNew.
  destruct grpid; cbn; rewrite !lookup_insert_eq; cbn [mbind option_bind]; done.
Qed.

(** The work that a deletion leaves for later hits a conference that got the same
    number in the meantime. *)
Theorem stale_deletion `{BidiMapLaws} gn cookie g :
  IsInvitedGroup gn (HookJoin gn cookie g) = true ∧
  IsInvitedGroup gn (HookDelete_later gn (HookJoin gn cookie g)) = false.
Proof.
  assert (bd_Get (VNum gn) (invitedGroups (HookJoin gn cookie g)) = Some (VStr cookie)) as Hj.
  { unfold HookJoin. destruct (ConferenceIdIsEmpty _); repeat (case_match; cbn); cbn;
      by rewrite bd_get_put, decide_True. }
  split; [unfold IsInvitedGroup; by rewrite Hj|].
  unfold IsInvitedGroup, HookDelete_later, remove_pair. cbn. rewrite Hj.
  rewrite bd_get_removevalue, bd_get_remove. destruct (decide (VNum gn = VNum gn)); [|done].
  by case_decide.
Qed.

(** *** A two-way map with the laws *)

Module ToyBidi.

(** The operations so far, the last one first *)
Inductive op := OPut (k v : gval) | ORemove (k : gval) | ORemoveValue (v : gval).

Fixpoint get (k : gval) (m : list op) : option gval :=
  match m with
  | [] => None
  | OPut k' v :: m => if decide (k = k') then Some v else if decide (get k m = Some v) then None else get k m
  | ORemove k' :: m => if decide (k = k') then None else get k m
  | ORemoveValue v :: m => if decide (get k m = Some v) then None else get k m
  end.

Fixpoint getkey (v : gval) (m : list op) : option gval :=
  match m with
  | [] => None
  | OPut k v' :: m => if decide (v = v') then Some k else if decide (getkey v m = Some k) then None else getkey v m
  | ORemove k :: m => if decide (getkey v m = Some k) then None else getkey v m
  | ORemoveValue v' :: m => if decide (v = v') then None else getkey v m
  end.

#[export] Instance toy_bidi : BidiMap := {|
  bidi := list op;
  bd_New := [];
  bd_Put k v m := OPut k v :: m;
  bd_Get := get;
  bd_GetKey := getkey;
  bd_Remove k m := ORemove k :: m;
  bd_RemoveValue v m := ORemoveValue v :: m
|}.

Lemma getkey_get m k v : getkey v m = Some k ↔ get k m = Some v.
Proof.
  revert k v. induction m as [|o m IH]; intros k v; [done|].
  pose proof (IH k v) as IH1. destruct o as [k' v'|k'|v']; cbn [get getkey].
  - pose proof (IH k v') as IH2. pose proof (IH k' v) as IH3.
    repeat case_decide; subst; intuition congruence.
  - pose proof (IH k' v) as IH3. repeat case_decide; subst; intuition congruence.
  - pose proof (IH k v') as IH2. repeat case_decide; subst; intuition congruence.
Qed.

#[export] Instance toy_bidi_laws : BidiMapLaws toy_bidi.
Proof. split; try done. intros k v m. apply getkey_get. Qed.
End ToyBidi.

Import ToyBidi.

Lemma conference_tables_witness :
  let g1 := ConferencePeerListChanged 5 [str "A"; str "B"] newXTox in
  let g2 := HookJoin 5 (str "000501cookie") g1 in
  ConferencePeerGetPubkey 5 1 g2 = Some (str "B") ∧ IsInvitedGroup 5 g2 = true.
Proof.
  intros g1 g2.
  destruct (conference_tables 5 [str "A"; str "B"] (str "000501cookie") 1 newXTox) as (_ & H2 & _ & H4 & _);
    [done|].
  split; [exact (H2 ltac:(lia))|exact H4].
Defined.
