(* ===== verification/AutoBot.v ===== *)
(** * Automatic behaviour of a tox instance (xtox/tox_auto_extra.go)

    Callbacks that add helper bots, accept invitations and requests, keep the
    titles of conferences and leave conferences where nobody else is left.  A callback
    returns the calls it makes to the tox library; what the library answers, and the
    similarity of two titles, are arguments. *)

From S2P Require Import Prelude GoIO GoText NodePool XTox.
Local Open Scope Z_scope.

(** ** Features *)

Definition FOTA_ADD_NET_HELP_BOTS : Z := Z.shiftl 1 0.
Definition FOTA_ACCEPT_GROUP_INVITE : Z := Z.shiftl 1 1.
Definition FOTA_ACCEPT_FRIEND_REQUEST : Z := Z.shiftl 1 2.
Definition FOTA_REMOVE_ONLY_ME_INVITED : Z := Z.shiftl 1 3.
Definition FOTA_REMOVE_ONLY_ME_ALL : Z := Z.shiftl 1 4.
Definition FOTA_KEEP_GROUPCHAT_TITLE : Z := Z.shiftl 1 7.
Definition FOTA_ALL : Z := 2 ^ 31 - 1.

Inductive bot_call :=
| FriendAdd (bot msg : bytes)
| FriendAddNorequest (pubkey : bytes)
| ConferenceJoin (friendNumber : Z) (cookie : bytes)
| JoinAVGroupChat (friendNumber : Z) (cookie : bytes)
| ConferenceDelete (groupNumber : Z)
| ConferenceSetTitle (groupNumber : Z) (title : bytes)      (* 200 ms later *)
| FriendSendMessage (friendNumber : Z) (msg : bytes).

(** The state of this file: the features of the instance, and [toxaa] *)
Record auto := mkAuto {
  feats : option Z;
  theirGroups : gset Z;
  initGroupNames : gmap Z bytes;
  fixedGroups : gmap bytes bytes
}.

(** [LoadOrStore]: features are set once. *)
Definition SetAutoBotFeatures (f : Z) (a : auto) : auto :=
  match feats a with
  | Some _ => a
  | None => mkAuto (Some f) (theirGroups a) (initGroupNames a) (fixedGroups a)
  end.

Definition matchFeat (f : Z) (a : auto) : bool :=
  match feats a with Some x => negb (Z.land x f =? 0) | None => false end.

Definition set_their x (a : auto) := mkAuto (feats a) x (initGroupNames a) (fixedGroups a).
Definition set_init x (a : auto) := mkAuto (feats a) (theirGroups a) x (fixedGroups a).
Definition set_fixed x (a : auto) := mkAuto (feats a) (theirGroups a) (initGroupNames a) x.

(** ** Friends *)

Definition groupbot : bytes :=
  str "56A1ADE4B65B86BCD51CC73E2CD4E542179F47959FE3E0E21B4B0ACDADE51855D34D34D37CB5".

Definition nethlpbots : list bytes :=
  [groupbot;
   str "76518406F6A9F2217E8DC487CC783C25CC16A15EB36FF32E335A235342C48A39218F515C39A6";
   str "A922A51E1C91205B9F7992E2273107D47C72E8AE909C61C28A77A4A2A115431B14592AB38A3B";
   str "DD7A68B345E0AA918F3544AA916B5CA6AED6DE80389BFF1EF7342DACD597943D62BDEED1FC67"].

(** [lookup] is [FriendByPublicKey]: whether the friend is known, and the number. *)
Definition autoAddNetHelperBots (lookup : bytes → bool * Z) (status : Z) : list bot_call :=
  concat (map (λ bot,
    let '(known, friendNumber) := lookup bot in
    if negb known && (status >? 0)
    then [FriendAdd bot (str "Hey " ++ itoa friendNumber ++ str ", me here")] else []) nethlpbots).

Definition onSelfConnectionStatus (lookup : bytes → bool * Z) (status : Z) (a : auto) : list bot_call :=
  if matchFeat FOTA_ADD_NET_HELP_BOTS a then autoAddNetHelperBots lookup status else [].

Definition onFriendRequest (pubkey : bytes) (a : auto) : list bot_call :=
  if matchFeat FOTA_ACCEPT_FRIEND_REQUEST a then [FriendAddNorequest pubkey] else [].

Definition isGroupbot (pubkey : bytes) : bool := HasPrefix pubkey groupbot.

(** ** Invitations

    [join] is the result of joining: an error ([false]) and the number.  A type that
    is neither text (0) nor audio/video (1) joins nothing, without an error. *)

Definition onGroupInvited (groupNumber : Z) (a : auto) : auto := set_their ({[groupNumber]} ∪ theirGroups a) a.

Definition onConferenceInvite (friendNumber itype : Z) (cookie : bytes) (join : bool * Z) (a : auto)
    : list bot_call * auto :=
  if matchFeat FOTA_ACCEPT_GROUP_INVITE a then
    let '(calls, ok, groupNumber) :=
      if itype =? 0 then ([ConferenceJoin friendNumber cookie], join.1, join.2)
      else if itype =? 1 then ([JoinAVGroupChat friendNumber cookie], join.1, join.2)
      else ([], true, 0) in
    (calls, if negb ok then onGroupInvited groupNumber a else a)
  else ([], a).

(** ** Titles *)

Definition skipTitleChangeWhiteList : list bytes :=
  [str "415732B8A549B2A1F9A278B91C649B9E30F07330E8818246375D19E52F927C57";
   str "398C8161D038FD328A573FFAA0F5FAAF7FFDE5E8B4350E7D15E6AFD0B993FC52"].

(** A change of the title that this peer may make *)
Definition may_change (self peerPubkey : bytes) : bool :=
  bool_decide (peerPubkey ∈ skipTitleChangeWhiteList) ||
  (negb (bool_decide (peerPubkey = [])) && bool_decide (peerPubkey = self)).

(** [peerPubkey] is empty when it cannot be had. *)
Definition tryKeepGroupTitle (self : bytes) (groupNumber : Z) (peerPubkey title : bytes) (a : auto)
    : list bot_call * auto :=
  match initGroupNames a !! groupNumber with
  | Some ovalue =>
      if bool_decide (ovalue ≠ title) && negb (may_change self peerPubkey)
      then ([ConferenceSetTitle groupNumber ovalue], a) else ([], a)
  | None =>
      if bool_decide (title = []) || bool_decide (title = str "None") then ([], a)
      else ([], set_init (<[groupNumber := title]> (initGroupNames a)) a)
  end.

Definition onConferenceTitle (self : bytes) (groupNumber : Z) (peerPubkey title : bytes) (a : auto)
    : list bot_call * auto :=
  if matchFeat FOTA_KEEP_GROUPCHAT_TITLE a then tryKeepGroupTitle self groupNumber peerPubkey title a
  else ([], a).

(** ** Leaving conferences *)

Definition CHAT_CHANGE_PEER_ADD : Z := 0.
Definition CHAT_CHANGE_PEER_DEL : Z := 1.

(** [peers] is [GroupNumberPeers]. *)
Definition checkOnlyMeLeftGroupClean (change peers : Z) : bool :=
  if negb (change =? CHAT_CHANGE_PEER_DEL) then false else peers =? 1.

Section Leave.
Context `{BidiMap}.

Definition removedInvitedGroupClean (groupNumber : Z) (g : groups) (a : auto) : list bot_call * auto :=
  if IsInvitedGroup groupNumber g then
    ([ConferenceDelete groupNumber],
     set_init (delete groupNumber (initGroupNames a)) (set_their (theirGroups a ∖ {[groupNumber]}) a))
  else ([], a).

(** The change is guessed from the size of the table of members. *)
Definition peer_change (groupNumber : Z) (pubkeys : list bytes) (g : groups) : Z :=
  match groupPeerKeys g !! groupNumber with
  | None => CHAT_CHANGE_PEER_ADD
  | Some m => if zlen pubkeys >? Z.of_nat (size m) then CHAT_CHANGE_PEER_ADD else CHAT_CHANGE_PEER_DEL
  end.

Definition onConferencePeerListChanged (groupNumber : Z) (pubkeys : list bytes) (peers : Z)
    (g : groups) (a : auto) : list bot_call * auto :=
  if checkOnlyMeLeftGroupClean (peer_change groupNumber pubkeys g) peers then
    if matchFeat FOTA_REMOVE_ONLY_ME_ALL a then ([ConferenceDelete groupNumber], a)
    else if matchFeat FOTA_REMOVE_ONLY_ME_INVITED a then
      if IsInvitedGroup groupNumber g then removedInvitedGroupClean groupNumber g a else ([], a)
    else ([], a)
  else ([], a).
End Leave.

(** The names of conferences that were left; [time] is the clock as
    20060102_150405. *)
Definition deleted_prefix : bytes := str "#deleted_invited_groupchat_".

Definition makeDeletedGroupName (time groupTitle : bytes) : bytes :=
  deleted_prefix ++ time ++ str "_" ++ groupTitle.

Definition isDeletedGroupName (groupTitle : bytes) : bool := HasPrefix deleted_prefix groupTitle.

Definition getDeletedGroupName {E} (time groupTitle : bytes) : outcome E bytes :=
  slice_from groupTitle (length (makeDeletedGroupName time [])).

(** ** The managed conferences *)

Section Managed.
(** Whether the similarity of two titles is above 0.75 *)
Context (similar : bytes → bytes → bool).

(** The three attempts, each over the names in an order of the map *)
Definition isOfficialGroupbotManagedGroups (order : list bytes → list bytes) (name : bytes) (a : auto)
    : option bytes :=
  let names := order (map fst (map_to_list (fixedGroups a))) in
  match list_find (λ n, name = n) names with
  | Some (_, n) => Some n
  | None =>
      match list_find (λ n, similar n name = true) names with
      | Some (_, n) => Some n
      | None =>
          match list_find (λ n, bool_decide (5 < length name)%nat && HasPrefix name n = true) names with
          | Some (_, n) => Some n
          | None => None
          end
      end
  end.

(** [cur] are the titles of the current conferences with their numbers. *)
Definition incurrent (invited : Z → bool) (cur : list (bytes * Z)) (name : bytes) : bool :=
  existsb (λ t, invited t.2 && (bool_decide (t.1 = name) || similar t.1 name || HasPrefix name t.1)) cur.

(** [friend] is the number of the group bot and whether it is connected. *)
Definition tryJoinOfficalGroupbotManagedGroups (friend : Z * bool) (invited : Z → bool)
    (cur : list (bytes * Z)) (order : list (bytes * bytes) → list (bytes * bytes)) (a : auto) : list bot_call :=
  if negb friend.2 then []
  else concat (map (λ nh, if incurrent invited cur nh.1 then [] else [FriendSendMessage friend.1 nh.2])
                 (order (map_to_list (fixedGroups a)))).
End Managed.

Definition TrimSpace (s : bytes) : bytes :=
  let sp b := bool_decide (bz b ∈ [9; 10; 11; 12; 13; 32]) in TrimRight sp (TrimLeft sp s).

(** A line of the group bot updates the command for a conference; too few fields or
    too short ones panic. *)
Definition tryFixGroupbotGroupInviteCmd {E} (msg : bytes) (a : auto) : outcome E auto :=
  let has s := match Index s msg with Some _ => true | None => false end in
  if HasPrefix (str "Group ") msg && has (str "peers: ") && has (str "Title: ") then
    let fields := SplitByte x7c msg in
    f0 ← (match fields !! 0%nat with Some f => Ret f | None => Panic end);
    gnum ← slice_from f0 6;
    f3 ← (match fields !! 3%nat with Some f => Ret f | None => Panic end);
    title ← slice_from f3 7;
    let newcmd := str "invite " ++ TrimSpace gnum in
    match fixedGroups a !! TrimSpace title with
    | Some oldcmd => Ret (if bool_decide (newcmd ≠ oldcmd)
                          then set_fixed (<[TrimSpace title := newcmd]> (fixedGroups a)) a else a)
    | None => Ret a
    end
  else Ret a.

(** [pubkey] is that of the sender. *)
Definition fixSpecialMessage (friendNumber : Z) (pubkey : option bytes) (msg : bytes) : list bot_call :=
  match pubkey with
  | Some pk => if isGroupbot pk && bool_decide (msg = str "Group doesn't exist.")
               then [FriendSendMessage friendNumber (str "group text")] else []
  | None => []
  end.

(** ** Properties *)

(** The callbacks for a sequence of title changes (peer and title) of a conference *)
Fixpoint title_run (self : bytes) (gn : Z) (evs : list (bytes * bytes)) (a : auto) : list bot_call * auto :=
  match evs with
  | [] => ([], a)
  | (peer, title) :: evs =>
      let '(cs, a1) := onConferenceTitle self gn peer title a in
      let '(rest, a2) := title_run self gn evs a1 in
      (cs ++ rest, a2)
  end.

Definition no_title (t : bytes) : Prop := t = [] ∨ t = str "None".

(** The answer to a change when the title to keep is [t0] *)
Definition restores (self : bytes) (gn : Z) (t0 : bytes) (ev : bytes * bytes) : list bot_call :=
  if bool_decide (t0 ≠ ev.2) && negb (may_change self ev.1) then [ConferenceSetTitle gn t0] else [].

Lemma title_run_known self gn t0 evs a :
  matchFeat FOTA_KEEP_GROUPCHAT_TITLE a = true → initGroupNames a !! gn = Some t0 →
  title_run self gn evs a = (concat (map (restores self gn t0) evs), a).
Proof.
  intros Hf Ht. induction evs as [|[p t] evs IH]; cbn [title_run map concat]; [done|].
  unfold onConferenceTitle. rewrite Hf. unfold tryKeepGroupTitle. rewrite Ht.
  unfold restores at 1. cbn [fst snd]. destruct (_ && _); rewrite IH; done.
Qed.

Lemma title_run_none self gn evs a :
  initGroupNames a !! gn = None → Forall (λ ev, no_title ev.2) evs → title_run self gn evs a = ([], a).
Proof.
  intros Ht Hf. induction Hf as [|[p t] evs Hn Hf IH]; cbn [title_run]; [done|].
  unfold onConferenceTitle. destruct (matchFeat _ a); [|by rewrite IH].
  unfold tryKeepGroupTitle. rewrite Ht. cbn [snd] in Hn.
  assert (bool_decide (t = []) || bool_decide (t = str "None") = true) as ->.
  { apply orb_true_iff. rewrite !bool_decide_eq_true. exact Hn. }
  by rewrite IH.
Qed.

Lemma title_run_app self gn l r a :
  title_run self gn (l ++ r) a =
    let '(c1, a1) := title_run self gn l a in let '(c2, a2) := title_run self gn r a1 in (c1 ++ c2, a2).
Proof.
  revert a. induction l as [|[p t] l IH]; intros a; cbn [app title_run]; [by destruct (title_run self gn r a)|].
  destruct (onConferenceTitle self gn p t a) as [cs a1]. rewrite IH.
  destruct (title_run self gn l a1) as [c1 a2]. destruct (title_run self gn r a2) as [c2 a3].
  by rewrite app_assoc.
Qed.

(** The title of a conference is kept: the first real title that is reported
    is remembered for good, whatever changes follow; each later change to another
    title is answered with the remembered one, unless the peer is on the list of
    exceptions or oneself; other conferences are not affected. *)
Theorem title_kept self gn pre p0 t0 post a :
  matchFeat FOTA_KEEP_GROUPCHAT_TITLE a = true → initGroupNames a !! gn = None →
  Forall (λ ev, no_title ev.2) pre → ¬ no_title t0 →
  title_run self gn (pre ++ (p0, t0) :: post) a =
    (concat (map (restores self gn t0) post), set_init (<[gn := t0]> (initGroupNames a)) a).
Proof.
  intros Hf Hn Hpre Ht0. rewrite title_run_app, title_run_none by done. cbn [title_run].
  unfold onConferenceTitle at 1. rewrite Hf. unfold tryKeepGroupTitle. rewrite Hn.
  assert (bool_decide (t0 = []) || bool_decide (t0 = str "None") = false) as ->.
  { apply orb_false_iff. rewrite !bool_decide_eq_false. unfold no_title in Ht0. tauto. }
  rewrite (title_run_known self gn t0) by (done || apply lookup_insert_eq). done.
Qed.

(** A change that was allowed is not remembered: when somebody else reports the
    new title, the old one is set again. *)
Theorem allowed_change_undone self gn old new other a :
  matchFeat FOTA_KEEP_GROUPCHAT_TITLE a = true → initGroupNames a !! gn = Some old →
  new ≠ old → self ≠ [] → may_change self other = false →
  (title_run self gn [(self, new)] a).1 = [] ∧
  (title_run self gn [(self, new); (other, new)] a).1 = [ConferenceSetTitle gn old].
Proof.
  intros Hf Ho Hn Hs Hm.
  assert (may_change self self = true) as Hself.
  { unfold may_change. rewrite (bool_decide_false (self = [])), (bool_decide_true (self = self)) by done. apply orb_true_r. }
  rewrite !(title_run_known self gn old) by done. unfold restores. cbn [map concat fst snd].
  rewrite Hself, Hm, bool_decide_true by done. done.
Qed.

(** The name of a left conference gives back its title, also at another time. *)
Theorem deleted_name_roundtrip {E} t1 t2 title :
  length t1 = length t2 →
  isDeletedGroupName (makeDeletedGroupName t1 title) = true ∧
  @getDeletedGroupName E t2 (makeDeletedGroupName t1 title) = Ret title.
Proof.
  intros Hl. split; [apply HasPrefix_app|]. unfold getDeletedGroupName, makeDeletedGroupName.
  assert (length (deleted_prefix ++ t2 ++ str "_" ++ []) = length (deleted_prefix ++ t1 ++ str "_")) as ->
    by (rewrite app_nil_r, !length_app; lia).
  replace (deleted_prefix ++ t1 ++ str "_" ++ title) with ((deleted_prefix ++ t1 ++ str "_") ++ title)
    by (by rewrite <- !app_assoc).
  rewrite slice_from_ok by (rewrite !length_app; lia). by rewrite drop_app_length.
Qed.

(** An accepted invitation is not recorded, a failed one is. *)
Theorem invitation_recorded_wrongly fn cookie gn a :
  matchFeat FOTA_ACCEPT_GROUP_INVITE a = true →
  theirGroups (onConferenceInvite fn 0 cookie (true, gn) a).2 = theirGroups a ∧
  theirGroups (onConferenceInvite fn 0 cookie (false, gn) a).2 = {[gn]} ∪ theirGroups a.
Proof. intros Hf. unfold onConferenceInvite. by rewrite Hf. Qed.

Lemma size_put_keys n ks m :
  0 ≤ n → n + zlen ks ≤ 2 ^ 32 → (∀ i, n ≤ i → m !! KU32 i = None) →
  size (put_keys n ks m) = (size m + length ks)%nat.
Proof.
  revert n m. induction ks as [|k ks IH]; intros n m Hn Hl Hm; cbn [put_keys length]; [lia|].
  rewrite zlen_cons in Hl. pose proof (zlen_nonneg ks).
  assert (u32 n = n) as -> by (apply wrap_u_small; lia).
  rewrite IH; [|lia|lia|].
  - rewrite map_size_insert_None by (apply Hm; lia). lia.
  - intros i Hi. rewrite lookup_insert_ne by (intros [= ?]; lia). apply Hm. lia.
Qed.

(** The table of members is up to date when the list is compared with it, so that
    every change counts as somebody leaving: a conference with only oneself is
    deleted when it comes into being. *)
Theorem new_conference_deleted `{BidiMap} gn self g a :
  matchFeat FOTA_REMOVE_ONLY_ME_ALL a = true →
  onConferencePeerListChanged gn [self] 1 (ConferencePeerListChanged gn [self] g) a =
    ([ConferenceDelete gn], a) ∧
  ∀ ks, zlen ks ≤ 2 ^ 32 → peer_change gn ks (ConferencePeerListChanged gn ks g) = CHAT_CHANGE_PEER_DEL.
Proof.
  intros Hf. assert (∀ ks, zlen ks ≤ 2 ^ 32 → peer_change gn ks (ConferencePeerListChanged gn ks g) = CHAT_CHANGE_PEER_DEL) as Hp.
  { intros ks Hl. unfold peer_change, ConferencePeerListChanged. cbn [groupPeerKeys set_keys].
    rewrite lookup_insert_eq, size_put_keys; [|done|lia|intros; apply lookup_empty]. rewrite map_size_empty. cbn [Nat.add].
    unfold zlen. by rewrite Z.gtb_ltb, Z.ltb_irrefl. }
  split; [|done]. unfold onConferencePeerListChanged. rewrite (Hp [self]) by done. cbn. by rewrite Hf.
Qed.

(** A line with too few fields ends the program. *)
Example short_bot_line_panics a :
  tryFixGroupbotGroupInviteCmd (str "Group 1 | peers: 2 | Title: x") a = (Panic : outcome unit auto).
Proof. vm_compute. reflexivity. Qed.

Lemma title_kept_witness :
  let a := mkAuto (Some FOTA_ALL) ∅ ∅ ∅ in
  title_run (str "ME") 3 [([], str "None"); (str "P", str "Room"); (str "Q", str "Spam"); (str "ME", str "New")] a =
    ([ConferenceSetTitle 3 (str "Room")], mkAuto (Some FOTA_ALL) ∅ {[3 := str "Room"]} ∅).
Proof.
  intros a. refine (eq_trans (title_kept (str "ME") 3 [([], str "None")] (str "P") (str "Room")
    [(str "Q", str "Spam"); (str "ME", str "New")] a _ _ _ _) _).
  - reflexivity.
  - apply lookup_empty.
  - apply Forall_singleton. by right.
  - intros [H|H]; discriminate H.
  - reflexivity.
Defined.
