(* ===== verification/Libp2pBs.v ===== *)
(** * The libp2p bootstrap (fedboot/libp2p_bs.go)

    The classification of addresses and of the reachability of a node, the
    resolution of DNS addresses, the lists of relays and the phases of the
    bootstrap.  Multiaddresses, their resolution, the host and the DHT of libp2p are
    third-party code: an interface and the results it gave.  [net.ParseIP] and the
    predicates of [net.IP] are the standard library and are modelled. *)

From Stdlib Require Import Strings.String.
From S2P Require Import Prelude GoIO GoText Varint NodePool KeyRing.
From stdpp Require Import strings.
Local Open Scope Z_scope.

(** ** [net.ParseIP] and the predicates of [net.IP] *)

Module Net.

(** A decimal part of an IPv4 address: no leading zero, at most 255 *)
Definition part4 (s : bytes) : option byte :=
  match s with
  | [] => None
  | b :: r =>
      if Byte.eqb b x30 && negb (bool_decide (r = [])) then None
      else v ← digits_from 0 s; if v <=? 255 then Some (zb v) else None
  end.

Definition parseIPv4 (s : bytes) : option bytes :=
  match SplitByte x2e s with
  | [a; b; c; d] => a ← part4 a; b ← part4 b; c ← part4 c; d ← part4 d; Some [a; b; c; d]
  | _ => None
  end.

Fixpoint span_hex (s : bytes) : bytes * bytes :=
  match s with
  | [] => ([], [])
  | b :: r => match hex_value b with
              | Some _ => let '(ds, k) := span_hex r in (b :: ds, k)
              | None => ([], s)
              end
  end.

Definition hex_val (ds : bytes) : Z := foldl (λ a b, 16 * a + default 0 (hex_value b)) 0 ds.

(** The loop over the groups: [out] are the bytes so far, [ell] the place of the
    double colon.  Each turn takes a character at least. *)
Fixpoint v6_loop (fuel : nat) (s out : bytes) (ell : option nat) : option (bytes * option nat) :=
  match fuel with
  | O => None
  | S fuel =>
      if bool_decide (16 ≤ length out)%nat then if bool_decide (s = []) then Some (out, ell) else None
      else
        let '(ds, k) := span_hex s in
        if bool_decide (ds = []) || bool_decide (4 < length ds)%nat then None
        else if HasPrefix (str ".") k then
          if (bool_decide (ell = None) && negb (bool_decide (length out = 12%nat))) ||
             bool_decide (16 < length out + 4)%nat then None
          else v4 ← parseIPv4 s; Some (out ++ v4, ell)
        else
          let out := out ++ be_bytes 2 (hex_val ds) in
          match k with
          | [] => Some (out, ell)
          | c :: k =>
              if negb (Byte.eqb c x3a) || bool_decide (k = []) then None
              else if HasPrefix (str ":") k then
                match ell with
                | Some _ => None
                | None => if bool_decide (drop 1 k = []) then Some (out, Some (length out))
                          else v6_loop fuel (drop 1 k) out (Some (length out))
                end
              else v6_loop fuel k out ell
          end
  end.

Definition v6_expand (out : bytes) (ell : option nat) : option bytes :=
  if bool_decide (length out < 16)%nat then
    match ell with
    | None => None
    | Some i => Some (take i out ++ make_bytes (16 - length out) ++ drop i out)
    end
  else match ell with Some _ => None | None => Some out end.

Definition parseIPv6 (s : bytes) : option bytes :=
  if HasPrefix (str "::") s then
    if bool_decide (drop 2 s = []) then Some (make_bytes 16)
    else '(out, ell) ← v6_loop (S (length s)) (drop 2 s) [] (Some 0%nat); v6_expand out ell
  else '(out, ell) ← v6_loop (S (length s)) s [] None; v6_expand out ell.

(** The first dot or colon decides. *)
Fixpoint first_sep (s : bytes) : option byte :=
  match s with
  | [] => None
  | b :: r => if Byte.eqb b x2e || Byte.eqb b x3a || Byte.eqb b x25 then Some b else first_sep r
  end.

Definition ParseIP (s : bytes) : option bytes :=
  match first_sep s with
  | Some x2e => v4 ← parseIPv4 s; Some (v4InV6Prefix ++ v4)
  | Some x3a => parseIPv6 s
  | _ => None
  end.

(** An address is [nil] or its bytes. *)
Definition ip_first (n : nat) (ip : bytes) : Z := bz (nth n ip x00).

Definition IsUnspecified (ip : bytes) : bool :=
  bool_decide (To4 ip = Some (make_bytes 4)) || bool_decide (ip = make_bytes 16).

Definition IsLoopback (ip : bytes) : bool :=
  match To4 ip with
  | Some ip4 => ip_first 0 ip4 =? 127
  | None => bool_decide (ip = make_bytes 15 ++ [x01])
  end.

Definition IsLinkLocalUnicast (ip : bytes) : bool :=
  match To4 ip with
  | Some ip4 => (ip_first 0 ip4 =? 169) && (ip_first 1 ip4 =? 254)
  | None => bool_decide (length ip = 16%nat) && (ip_first 0 ip =? 254) && (Z.land (ip_first 1 ip) 192 =? 128)
  end.
End Net.
Import Net.

Example ParseIP_v4 : ParseIP (str "192.168.1.20") = Some (v4InV6Prefix ++ map zb [192; 168; 1; 20]).
Proof. vm_compute. reflexivity. Qed.

Example ParseIP_v6 :
  ParseIP (str "2001:db8::1:0:0:1") = Some (map zb [32; 1; 13; 184; 0; 0; 0; 0; 0; 1; 0; 0; 0; 0; 0; 1]) ∧
  ParseIP (str "::ffff:1.2.3.4") = Some (v4InV6Prefix ++ map zb [1; 2; 3; 4]) ∧
  ParseIP (str "1:2:3:4:5:6:7:8:9") = None ∧ ParseIP (str "01.2.3.4") = None ∧ ParseIP (str "fe80::1%lo") = None.
Proof. vm_compute. done. Qed.

(** ** Addresses *)

Class MultiaddrLib := {
  maddr : Type;
  NewMultiaddr : bytes → option maddr;
  ma_String : maddr → bytes;
  Protocols : maddr → list (string * Z);             (* name and code *)
  ValueForProtocol : maddr → Z → option bytes;
  dns_Matches : maddr → bool;
  dns_Resolve : maddr → list maddr * bool;           (* [false] is an error *)
  AddrInfoFromP2pAddr : maddr → option (bytes * list maddr)
}.

Inductive NATReachability := NATUnknown | NATPublic | NATPrivate.

Definition NAT_String (n : NATReachability) : string :=
  match n with NATPublic => "Public" | NATPrivate => "Private" | NATUnknown => "Unknown" end.

Definition isPrivateIP (ip : option bytes) : bool :=
  match ip with
  | None => true
  | Some ip =>
      if IsUnspecified ip then true
      else if IsLoopback ip then true
      else if IsLinkLocalUnicast ip then true
      else
        match To4 ip with
        | Some ip4 =>
            let a := ip_first 0 ip4 in let b := ip_first 1 ip4 in
            (a =? 10) || ((a =? 172) && (b >=? 16) && (b <=? 31)) || ((a =? 192) && (b =? 168))
        | None =>
            match To16 ip with
            | Some ip6 =>
                let a := ip_first 0 ip6 in let b := ip_first 1 ip6 in
                ((a =? 254) && (b >=? 128) && (b <=? 191)) || (a =? 252) || (a =? 253)
            | None => false
            end
        end
  end.

Section Addrs.
Context `{MultiaddrLib}.

Definition isRelayAddr (addr : maddr) : bool :=
  existsb (λ p, bool_decide (p.1 = "p2p-circuit"%string)) (Protocols addr).

Definition hasDNSComponent (addr : maddr) : bool :=
  existsb (λ p, bool_decide (p.1 ∈ ["dns4"; "dns6"; "dns"; "dnsaddr"]%string)) (Protocols addr).

(** The first IP protocol whose value can be had *)
Fixpoint extract_from (addr : maddr) (ps : list (string * Z)) : option bytes :=
  match ps with
  | [] => None
  | (name, code) :: ps =>
      if bool_decide (name ∈ ["ip4"; "ip6"]%string) then
        match ValueForProtocol addr code with
        | Some ipStr => ParseIP ipStr
        | None => extract_from addr ps
        end
      else extract_from addr ps
  end.

Definition extractIPFromAddr (addr : maddr) : option bytes := extract_from addr (Protocols addr).

(** The loop of [detectNATReachability] over the three flags *)
Record nat_flags := mkFlags { hasPublicIP : bool; hasRelayAddr : bool; hasPrivateIP : bool }.

Definition nat_turn (f : nat_flags) (addr : maddr) : nat_flags :=
  if isRelayAddr addr then mkFlags (hasPublicIP f) true (hasPrivateIP f)
  else match extractIPFromAddr addr with
       | None => f
       | Some ip =>
           if IsUnspecified ip then f
           else if isPrivateIP (Some ip) then mkFlags (hasPublicIP f) (hasRelayAddr f) true
           else mkFlags true (hasRelayAddr f) (hasPrivateIP f)
       end.

Definition detectNATReachability (addrs : list maddr) : NATReachability * string :=
  let f := foldl nat_turn (mkFlags false false false) addrs in
  if hasRelayAddr f && hasPrivateIP f && negb (hasPublicIP f) then
    (NATPrivate, "Only private IPs + relay addresses detected (AutoRelay active)"%string)
  else if hasPublicIP f && negb (hasRelayAddr f) then
    (NATPublic, "Public IP detected, no relay addresses needed"%string)
  else if hasPublicIP f && hasRelayAddr f then
    (NATPublic, "Public IP detected (relay addresses may exist for incoming connections)"%string)
  else if hasPrivateIP f && negb (hasPublicIP f) && negb (hasRelayAddr f) then
    (NATUnknown, "Private IPs only, but no relay addresses yet (AutoRelay may still be initializing)"%string)
  else (NATUnknown, "Could not determine NAT status from available addresses"%string).

Record Libp2pAddrInfo := mkAddrInfo { ai_Addr : maddr; ai_IsRelay : bool; ai_IsPrivateIP : bool; ai_IP : option bytes }.

Definition collectListeningAddrs (addrs : list maddr) : list Libp2pAddrInfo :=
  map (λ addr, let ip := extractIPFromAddr addr in
    mkAddrInfo addr (isRelayAddr addr) (match ip with Some _ => isPrivateIP ip | None => false end) ip) addrs.

(** The mark that [printFullStatus] puts before an address *)
Definition addr_mark (i : Libp2pAddrInfo) : string :=
  if ai_IsRelay i then "[RELAY]"
  else match ai_IP i with
       | Some _ => if ai_IsPrivateIP i then "[PRIVATE]" else "[PUBLIC]"
       | None => "[UNKNOWN]"
       end.

(** ** Resolution of DNS addresses

    The recursion has no bound in the code; [None] is fuel that ran out. *)

Inductive res_err := ParseMultiaddr | DnsResolve.

Section Fully.
Context (rec : bytes → option (list bytes * list res_err)).

Fixpoint resolve_results (rs : list maddr) : option (list bytes * list res_err) :=
  match rs with
  | [] => Some ([], [])
  | r :: rs =>
      let rStr := ma_String r in
      '(here, errs) ←
        (if dns_Matches r then rec rStr
         else if hasDNSComponent r then
           '(sub, subErrs) ← rec rStr;
           Some (if bool_decide (sub = []) then [rStr] else sub, subErrs)
         else Some ([rStr], []));
      '(rest, errs') ← resolve_results rs;
      Some (here ++ rest, errs ++ errs')
  end.
End Fully.

Fixpoint resolveDNSAddrFully (fuel : nat) (addrStr : bytes) : option (list bytes * list res_err) :=
  match fuel with
  | O => None
  | S fuel =>
      match NewMultiaddr addrStr with
      | None => Some ([], [ParseMultiaddr])
      | Some m =>
          let '(results, ok) := dns_Resolve m in
          '(resolved, errs) ← resolve_results (resolveDNSAddrFully fuel) results;
          Some (resolved, (if ok : bool then [] else [DnsResolve]) ++ errs)
      end
  end.

Fixpoint resolveAllDNSAddrsQuiet (fuel : nat) (addrStrs : list bytes) (result : gmap bytes (list bytes))
    : option (gmap bytes (list bytes)) :=
  match addrStrs with
  | [] => Some result
  | a :: l =>
      '(resolved, _) ← resolveDNSAddrFully fuel a;
      resolveAllDNSAddrsQuiet fuel l (if bool_decide (resolved = []) then result else <[a := resolved]> result)
  end.

Definition containsAddr (slice : list bytes) (addr : bytes) : bool :=
  existsb (λ a, bool_decide (a = addr)) slice.

Definition contains (sub s : bytes) : bool := match Index sub s with Some _ => true | None => false end.

Definition skip_addr (addr : bytes) : bool :=
  contains (str ":") addr || contains (str "/udp/") addr || contains (str "/wss/") addr.

Definition add_relay (extra : list bytes) (addr : bytes) : list bytes :=
  if skip_addr addr then extra else if containsAddr extra addr then extra else extra ++ [addr].

(** [resolveAllDNSAddrsInit] on the global list; [order] is the order of the
    iteration over the map. *)
Definition resolveAllDNSAddrsInit (fuel : nat) (order : list (bytes * list bytes) → list (bytes * list bytes))
    (libp2pBootstrap extraStaticRelays : list bytes) : option (list bytes) :=
  m ← resolveAllDNSAddrsQuiet fuel libp2pBootstrap ∅;
  Some (foldl (λ extra kv, foldl add_relay extra kv.2) extraStaticRelays (order (map_to_list m))).

(** The start of the package: variables are initialised before [init] runs. *)
Record globals := mkGlobals { g_extra : list bytes; g_all : list bytes }.

Definition package_init (fuel : nat) (order : list (bytes * list bytes) → list (bytes * list bytes))
    (libp2pBootstrap : list bytes) : option globals :=
  let extraStaticRelays := [] in
  let allStaticRelays := libp2pBootstrap ++ extraStaticRelays in
  extra ← resolveAllDNSAddrsInit fuel order libp2pBootstrap extraStaticRelays;
  Some (mkGlobals extra allStaticRelays).

(** Relays or bootstrap nodes that can be parsed *)
Definition parse_info (addrStr : bytes) : option (bytes * list maddr) :=
  ma ← NewMultiaddr addrStr; AddrInfoFromP2pAddr ma.

Definition parseStaticRelays (allStaticRelays : list bytes) : list (bytes * list maddr) :=
  omap parse_info allStaticRelays.

(** [waitForAutoNAT]: the reachabilities that are reported before the deadline; 0 is
    unknown. [subscribed] says that there is a subscription. *)
Fixpoint autonat_loop (events : list Z) : Z * bool :=
  match events with
  | [] => (0, false)
  | e :: events => if negb (e =? 0) then (e, true) else autonat_loop events
  end.

Definition waitForAutoNAT (subscribed : bool) (events : list Z) : Z * bool :=
  if subscribed then autonat_loop events else (0, false).

(** [supportsRelayHop]: the protocols the peer store knows, and whether a stream of
    the protocol can be opened *)
Definition RelayHopProtocol : bytes := str "/libp2p/circuit/relay/0.2.0/hop".

Definition supportsRelayHop (protocols : option (list bytes)) (stream : bool) : bool :=
  match protocols with
  | Some ps => if bool_decide (RelayHopProtocol ∈ ps) then true else stream
  | None => stream
  end.
End Addrs.

(** ** The bootstrap

    What the outside gives: the results of the libp2p packages in their order.
    Durations are left out. *)

Record Libp2pBsPeerInfo := mkBsPeer { bp_Addr : bytes; bp_PeerID : bytes; SupportsRelay : bool }.

Record Libp2pRelayStatus := mkRelayStatus {
  StaticCandidates : Z;
  ConnectedSupporting : Z;
  ListeningAddrs : Z;
  TargetRelays : Z;
  MinCandidates : Z
}.

Inductive boot_err :=
| LoadKey (e : key_err)
| UnmarshalPriv
| CreateHost
| NoBootstrapNodes
| CreateDHT.

Section Boot.
Context `{MultiaddrLib} `{KeyPrims}.

Record libp2p_world := mkL2World {
  l_unmarshal : bool;
  l_host : option bytes;                 (* the peer identifier of a new host *)
  l_dht : bool;
  l_found : option (list bytes);         (* the peers that the discovery delivers *)
  l_conns : list bytes;                  (* the remote peers of the connections *)
  l_addrs : list maddr;                  (* [h.Addrs()] *)
  l_subscribed : bool;
  l_events : list Z
}.

Definition collectRelayStatus (addrs : list maddr) (connectedPeers : list Libp2pBsPeerInfo)
    (allStaticRelays : list bytes) : Libp2pRelayStatus :=
  mkRelayStatus (zlen allStaticRelays) (zlen (base.filter (λ p, SupportsRelay p = true) connectedPeers))
    (zlen (base.filter (λ a, isRelayAddr a = true) addrs)) 5 8.

Record Libp2pFullStatus := mkStatus {
  NATStatus : NATReachability;
  NATIndication : string;
  AutoNATStatus : Z;
  AutoNATReady : bool;
  Relay : Libp2pRelayStatus;
  HolePunching : bool;
  st_PeerID : bytes;
  st_PubkeyHex : bytes;
  ActivePeers : Z;
  st_Discovered : Z;
  st_Addrs : list Libp2pAddrInfo
}.

Record Libp2pBootResult := mkBootResult {
  b_PeerID : bytes;
  b_PubkeyHex : bytes;
  BootstrapOK : list Libp2pBsPeerInfo;
  BootstrapNOK : list bytes;
  RelayCount : Z;
  b_Discovered : Z;
  FullStatus : Libp2pFullStatus
}.

(** The loop over the bootstrap nodes; the first address of each is printed. *)
Fixpoint bootstrap_infos {E} (addrStrs : list bytes) : outcome E (list (bytes * list maddr)) :=
  match addrStrs with
  | [] => Ret []
  | a :: l =>
      match parse_info a with
      | None => bootstrap_infos l
      | Some ai => if bool_decide (length ai.2 = 0%nat) then Panic
                   else rest ← bootstrap_infos l; Ret (ai :: rest)
      end
  end.

(** The peers that were discovered: those found, except oneself and an empty
    name, and those connected *)
Definition discovered (myID : bytes) (w : libp2p_world) : gset bytes :=
  list_to_set (base.filter (λ p, p ≠ myID ∧ p ≠ []) (default [] (l_found w))) ∪ list_to_set (l_conns w).

Definition Libp2pBootstrap (KeyFile : bytes) (rnd : outcome io_err bytes)
    (libp2pBootstrap allStaticRelays : list bytes) (w : libp2p_world) : stm fs boot_err Libp2pBootResult :=
  kr ← stm_wrap LoadKey (LoadKeyRing KeyFile true rnd);
  edPriv ← stm_lift (BTDHTKey kr);
  pubKey ← stm_lift (ed_Public edPriv);
  let pubHex := hexEncode pubKey in
  _ ← stm_lift (slice_to pubHex 32);
  _ ← stm_lift (guard_err (l_unmarshal w) UnmarshalPriv);
  let staticRelays := parseStaticRelays allStaticRelays in
  myID ← stm_lift (match l_host w with Some id => Ret id | None => Fail CreateHost end);
  bootstrapInfos ← stm_lift (bootstrap_infos libp2pBootstrap);
  _ ← stm_lift (guard_err (negb (bool_decide (length bootstrapInfos = 0%nat))) NoBootstrapNodes);
  let oks : list Libp2pBsPeerInfo := [] in
  let noks : list bytes := [] in
  _ ← stm_lift (guard_err (l_dht w) CreateDHT);
  let discoveredCount := Z.of_nat (size (discovered myID w)) in
  let '(autoNATStatus, autoNATReady) := waitForAutoNAT (l_subscribed w) (l_events w) in
  let '(natStatus, natIndication) := detectNATReachability (l_addrs w) in
  let relayStatus := collectRelayStatus (l_addrs w) oks allStaticRelays in
  let fullStatus := mkStatus natStatus natIndication autoNATStatus autoNATReady relayStatus true myID pubHex
    (zlen oks) discoveredCount (collectListeningAddrs (l_addrs w)) in
  mret (mkBootResult myID pubHex oks noks 0 discoveredCount fullStatus).
End Boot.

(** ** Private addresses as ranges *)

(** A range: the first address and the number of leading bits *)
Definition in_range (ip : bytes) (r : list Z * Z) : bool :=
  bool_decide (length ip = length r.1) &&
  (Z.shiftr (be_val ip) (8 * zlen ip - r.2) =? Z.shiftr (be_val (map zb r.1)) (8 * zlen ip - r.2)).

Definition private_ranges4 : list (list Z * Z) :=
  [([0; 0; 0; 0], 32); ([10; 0; 0; 0], 8); ([127; 0; 0; 0], 8); ([169; 254; 0; 0], 16);
   ([172; 16; 0; 0], 12); ([192; 168; 0; 0], 16)].

Definition v6_range (hd tl : list Z) : list Z := hd ++ replicate (16 - length hd - length tl) 0 ++ tl.

Definition private_ranges6 : list (list Z * Z) :=
  [(v6_range [] [0], 128); (v6_range [] [1], 128); (v6_range [252] [], 7); (v6_range [254; 128] [], 10)].

Definition in_ranges (ip : bytes) : bool :=
  match To4 ip with
  | Some ip4 => existsb (in_range ip4) private_ranges4
  | None => existsb (in_range ip) private_ranges6
  end.

Lemma be_shift l r : Z.shiftr (be_val (l ++ r)) (8 * zlen r) = be_val l.
Proof.
  rewrite Z.shiftr_div_pow2 by (pose proof (zlen_nonneg r); lia).
  replace (2 ^ (8 * zlen r)) with (256 ^ zlen r) by (change 256 with (2 ^ 8); rewrite <- Z.pow_mul_r; pose proof (zlen_nonneg r); lia).
  rewrite be_val_app. pose proof (be_val_range r). rewrite Z.div_add_l by lia. rewrite Z.div_small by lia. lia.
Qed.

Lemma land192 b : (Z.land (bz b) 192 =? 128) = (bz b >=? 128) && (bz b <=? 191).
Proof.
  apply (eqb_prop (Z.land (bz b) 192 =? 128)). revert b. apply forall_bytes. vm_compute. reflexivity.
Qed.

Lemma bytes4 (ip : bytes) : length ip = 4%nat → ∃ a b c d, ip = [a; b; c; d].
Proof. intros H. destruct ip as [|a [|b [|c [|d [|]]]]]; try discriminate H. by exists a, b, c, d. Qed.

Lemma zeros_val n ip : length ip = n → ip = make_bytes n ↔ be_val ip = 0.
Proof.
  intros Hl. assert (be_val (make_bytes n) = 0) as Hz.
  { clear. induction n as [|n IH]; [done|]. change (make_bytes (S n)) with (x00 :: make_bytes n). cbn. rewrite IH.
    change (bz x00) with 0. lia. }
  split; [by intros ->|]. intros Hv. apply be_val_inj; [by rewrite length_make_bytes|lia].
Qed.

Lemma length_To4 ip ip4 : To4 ip = Some ip4 → length ip4 = 4%nat.
Proof.
  unfold To4. destruct (bool_decide_reflect (length ip = 4%nat)) as [H4|H4]; [by intros [= <-]|].
  destruct (bool_decide_reflect (length ip = 16%nat)) as [H16|H16]; cbn [andb]; [|done].
  destruct (HasPrefix _ _); [|done]. intros [= <-]. rewrite length_drop. lia.
Qed.

Lemma private4 a b c d :
  existsb (in_range [a; b; c; d]) private_ranges4 = true ↔
  be_val [a; b; c; d] = 0 ∨ bz a = 10 ∨ bz a = 127 ∨ (bz a = 169 ∧ bz b = 254) ∨
  (bz a = 172 ∧ 16 ≤ bz b ≤ 31) ∨ (bz a = 192 ∧ bz b = 168).
Proof.
  pose proof (bz_range a). pose proof (bz_range b). pose proof (bz_range c). pose proof (bz_range d).
  assert (be_val [a; b; c; d] = bz a * 16777216 + bz b * 65536 + bz c * 256 + bz d) as Hv.
  { cbn [be_val]. change (zlen [b; c; d]) with 3. change (zlen [c; d]) with 2. change (zlen [d]) with 1.
    change (zlen (@nil byte)) with 0. lia. }
  assert (∀ m n k r w, m = 32 - n → length r = 4%nat → Z.shiftr (be_val (map zb r)) n = w → k = 2 ^ n → 0 ≤ n →
    in_range [a; b; c; d] (r, m) = (be_val [a; b; c; d] / k =? w)) as Hr.
  { intros m n k r w -> Hlr Hw Hk Hn. unfold in_range. cbn [fst snd]. rewrite bool_decide_true by done.
    change (zlen [a; b; c; d]) with 4. replace (8 * 4 - (32 - n)) with n by lia.
    rewrite Hw, Hk, Z.shiftr_div_pow2 by done. done. }
  unfold private_ranges4. cbn [existsb].
  rewrite (Hr 32 0 1 [0; 0; 0; 0] 0), (Hr 8 24 16777216 [10; 0; 0; 0] 10), (Hr 8 24 16777216 [127; 0; 0; 0] 127),
    (Hr 16 16 65536 [169; 254; 0; 0] 43518), (Hr 12 20 1048576 [172; 16; 0; 0] 2753),
    (Hr 16 16 65536 [192; 168; 0; 0] 49320) by (reflexivity || lia).
  rewrite !orb_true_iff, !Z.eqb_eq, Hv. clear Hv Hr.
  assert (false = true ↔ False) as -> by done.
  Z.div_mod_to_equations. lia.
Qed.

Lemma private6 a b rest :
  length rest = 14%nat →
  existsb (in_range (a :: b :: rest)) private_ranges6 = true ↔
  be_val (a :: b :: rest) = 0 ∨ be_val (a :: b :: rest) = 1 ∨ bz a = 252 ∨ bz a = 253 ∨
  (bz a = 254 ∧ 128 ≤ bz b ≤ 191).
Proof.
  intros Hl. set (ip := a :: b :: rest).
  pose proof (bz_range a). pose proof (bz_range b).
  assert (length ip = 16%nat) as Hl16 by (unfold ip; cbn; lia).
  assert (be_val ip / 2 ^ 112 = bz a * 256 + bz b) as Hd.
  { assert (zlen rest = 14) as Hz by (unfold zlen; lia).
    pose proof (be_shift [a; b] rest) as Hb. rewrite Hz, Z.shiftr_div_pow2 in Hb by lia.
    change (be_val ([a; b] ++ rest)) with (be_val ip) in Hb. change (8 * 14) with 112 in Hb. rewrite Hb.
    cbn [be_val]. change (zlen [b]) with 1. change (zlen (@nil byte)) with 0. lia. }
  assert (∀ m n r w, m = 128 - n → length r = 16%nat → Z.shiftr (be_val (map zb r)) n = w → 0 ≤ n →
    in_range ip (r, m) = (be_val ip / 2 ^ n =? w)) as Hr.
  { intros m n r w -> Hlr Hw Hn. unfold in_range. cbn [fst snd]. rewrite bool_decide_true by congruence.
    assert (zlen ip = 16) as -> by (unfold zlen; lia). replace (8 * 16 - (128 - n)) with n by lia.
    rewrite Hw, Z.shiftr_div_pow2 by done. done. }
  unfold private_ranges6. cbn [existsb].
  rewrite (Hr 128 0 (v6_range [] [0]) 0), (Hr 128 0 (v6_range [] [1]) 1), (Hr 7 121 (v6_range [252] []) 126),
    (Hr 10 118 (v6_range [254; 128] []) 1018) by (vm_compute; first [reflexivity|discriminate]).
  change (2 ^ 121) with (2 ^ 112 * 2 ^ 9). change (2 ^ 118) with (2 ^ 112 * 2 ^ 6).
  rewrite <- !Z.div_div by lia. rewrite Hd. change (2 ^ 9) with 512. change (2 ^ 6) with 64.
  change (2 ^ 0) with 1. rewrite Z.div_1_r. rewrite !orb_true_iff, !Z.eqb_eq.
  assert (false = true ↔ False) as -> by done. clear Hd Hr.
  set (v := be_val ip). clearbody v. Z.div_mod_to_equations. lia.
Qed.

(** ** Properties *)

(** The addresses that count as private are exactly those of the usual ranges:
    0.0.0.0, 10/8, 127/8, 169.254/16, 172.16/12 and 192.168/16, also in IPv6 form,
    and ::, ::1, fc00::/7 and fe80::/10. *)
Theorem private_by_ranges ip :
  length ip = 4%nat ∨ length ip = 16%nat → isPrivateIP (Some ip) = in_ranges ip.
Proof.
  intros Hl. unfold isPrivateIP, in_ranges, IsUnspecified, IsLoopback, IsLinkLocalUnicast.
  destruct (To4 ip) as [ip4|] eqn:E4.
  - assert (length ip4 = 4%nat) as Hl4.
    { by eapply length_To4. }
    assert (bool_decide (ip = make_bytes 16) = false) as ->.
    { apply bool_decide_eq_false. intros ->. discriminate E4. }
    destruct (bytes4 _ Hl4) as (a & b & c & d & ->). apply eq_true_iff_eq. rewrite private4.
    rewrite <- (zeros_val 4) by done. cbn [ip_first nth]. unfold ip_first. cbn [nth].
    rewrite orb_false_r. destruct (bool_decide_reflect (Some [a; b; c; d] = Some (make_bytes 4))) as [Hz|Hz].
    { split; [|done]. intros _. left. by apply (inj Some). }
    assert ([a; b; c; d] ≠ make_bytes 4) as Hz' by congruence.
    destruct (bz a =? 127) eqn:E1; zbool; [split; [intros _; by right; right; left|intros _; reflexivity]|].
    destruct (bz a =? 169) eqn:E2, (bz b =? 254) eqn:E3; zbool; cbn [andb];
      rewrite ?orb_true_iff, ?andb_true_iff, ?Z.eqb_eq, ?Z.geb_le, ?Z.leb_le; intuition lia.
  - assert (length ip = 16%nat) as Hl16.
    { destruct Hl as [Hl|Hl]; [|done]. unfold To4 in E4. by rewrite bool_decide_true in E4. }
    destruct ip as [|a [|b rest]]; [done..|]. assert (length rest = 14%nat) as Hr by (cbn in Hl16; lia).
    assert (To16 (a :: b :: rest) = Some (a :: b :: rest)) as ->.
    { unfold To16. by rewrite (bool_decide_false (length _ = 4%nat)), bool_decide_true by congruence. }
    rewrite (bool_decide_true (length (a :: b :: rest) = 16%nat)) by done.
    apply eq_true_iff_eq. rewrite private6 by done. unfold ip_first. cbn [nth].
    rewrite bool_decide_false by done. cbn [orb andb].
    rewrite <- (zeros_val 16) by done.
    assert (a :: b :: rest = make_bytes 15 ++ [x01] ↔ be_val (a :: b :: rest) = 1) as Hone.
    { split; [intros ->; reflexivity|]. intros Hv. apply be_val_inj; [done|]. rewrite Hv. reflexivity. }
    rewrite <- Hone. rewrite land192.
    destruct (bool_decide_reflect (a :: b :: rest = make_bytes 16)); [tauto|].
    destruct (bool_decide_reflect (a :: b :: rest = make_bytes 15 ++ [x01])); [tauto|].
    destruct (bz a =? 254) eqn:E2; zbool; cbn [andb orb];
      [destruct ((bz b >=? 128) && (bz b <=? 191)) eqn:E3|];
      rewrite ?andb_true_iff, ?andb_false_iff, ?orb_true_iff, ?Z.eqb_eq, ?Z.geb_le, ?Z.leb_le in *;
      try (rewrite ?Z.geb_leb, ?Z.leb_gt in * ); intuition lia.
Qed.

Section Reach.
Context `{MultiaddrLib}.

(** A direct address with an IP of the given kind *)
Definition direct_ip (private : bool) (m : maddr) : bool :=
  negb (isRelayAddr m) &&
  match extractIPFromAddr m with
  | Some ip => negb (IsUnspecified ip) && Bool.eqb (isPrivateIP (Some ip)) private
  | None => false
  end.

Lemma nat_fold f addrs :
  foldl nat_turn f addrs =
    mkFlags (hasPublicIP f || existsb (direct_ip false) addrs) (hasRelayAddr f || existsb isRelayAddr addrs)
            (hasPrivateIP f || existsb (direct_ip true) addrs).
Proof.
  revert f. induction addrs as [|m addrs IH]; intros [p r v]; cbn [foldl existsb hasPublicIP hasRelayAddr hasPrivateIP].
  { by rewrite !orb_false_r. }
  rewrite IH. unfold nat_turn, direct_ip. cbn [hasPublicIP hasRelayAddr hasPrivateIP].
  destruct (isRelayAddr m); cbn [negb andb orb hasPublicIP hasRelayAddr hasPrivateIP].
  { by rewrite orb_true_r. }
  destruct (extractIPFromAddr m) as [ip|]; [|done].
  destruct (IsUnspecified ip); [done|]. cbn [negb andb].
  destruct (isPrivateIP (Some ip)); cbn [Bool.eqb hasPublicIP hasRelayAddr hasPrivateIP orb]; by rewrite orb_true_r.
Qed.

(** ** Resolution: lemmas *)

(** More fuel does not change a result. *)
Lemma resolve_results_mono (r1 r2 : bytes → option (list bytes * list res_err)) rs x :
  (∀ a y, r1 a = Some y → r2 a = Some y) → resolve_results r1 rs = Some x → resolve_results r2 rs = Some x.
Proof.
  intros Hr. revert x. induction rs as [|m rs IH]; intros x; cbn [resolve_results]; [done|].
  destruct (resolve_results r1 rs) as [[rest errs']|] eqn:E.
  2:{ intros Hx. exfalso. revert Hx. destruct (dns_Matches m); [destruct (r1 _) as [[? ?]|]|
      destruct (hasDNSComponent m); [destruct (r1 _) as [[? ?]|]|]]; cbn; done. }
  rewrite (IH _ eq_refl). destruct (dns_Matches m); [|destruct (hasDNSComponent m); [|done]];
    (destruct (r1 (ma_String m)) as [[sub subErrs]|] eqn:E1; [|done]); by rewrite (Hr _ _ E1).
Qed.

Lemma resolve_mono f1 f2 a x :
  (f1 ≤ f2)%nat → resolveDNSAddrFully f1 a = Some x → resolveDNSAddrFully f2 a = Some x.
Proof.
  revert f2 a x. induction f1 as [|f1 IH]; intros f2 a x Hf; [done|]. destruct f2 as [|f2]; [lia|].
  cbn [resolveDNSAddrFully]. destruct (NewMultiaddr a) as [m|]; [|done].
  destruct (dns_Resolve m) as [results ok].
  destruct (resolve_results (resolveDNSAddrFully f1) results) as [[rs es]|] eqn:E; [|done].
  rewrite (resolve_results_mono _ (resolveDNSAddrFully f2) _ _ (λ a y, IH f2 a y ltac:(lia)) E). done.
Qed.

(** A result names no DNS host, unless resolving that host gave nothing. *)
Definition settled (t : bytes) : Prop :=
  ∃ m, t = ma_String m ∧ dns_Matches m = false ∧
    (hasDNSComponent m = false ∨ ∃ f es, resolveDNSAddrFully f t = Some ([], es)).

Lemma resolve_results_settled f rs l es :
  (∀ a l es, resolveDNSAddrFully f a = Some (l, es) → Forall settled l) →
  resolve_results (resolveDNSAddrFully f) rs = Some (l, es) → Forall settled l.
Proof.
  intros Hr. revert l es. induction rs as [|m rs IH]; intros l es; cbn [resolve_results].
  { intros [= <- <-]. constructor. }
  destruct (dns_Matches m) eqn:Em; [|destruct (hasDNSComponent m) eqn:Eh].
  - destruct (resolveDNSAddrFully f (ma_String m)) as [[sub se]|] eqn:E; [|done]. cbn [mbind option_bind].
    destruct (resolve_results _ rs) as [[rest re]|]; [|done]. cbn. intros [= <- <-].
    apply Forall_app. split; [by eapply Hr|by eapply IH].
  - destruct (resolveDNSAddrFully f (ma_String m)) as [[sub se]|] eqn:E; [|done]. cbn [mbind option_bind].
    destruct (resolve_results _ rs) as [[rest re]|]; [|done]. cbn. intros [= <- <-].
    apply Forall_app. split; [|by eapply IH]. case_bool_decide as Hs; [|by eapply Hr].
    apply Forall_singleton. exists m. split_and!; [done|done|]. right. subst sub. by eauto.
  - cbn [mbind option_bind]. destruct (resolve_results _ rs) as [[rest re]|]; [|done]. cbn. intros [= <- <-].
    constructor; [|by eapply IH]. exists m. split_and!; [done|done|by left].
Qed.

Lemma resolve_settled f a l es : resolveDNSAddrFully f a = Some (l, es) → Forall settled l.
Proof.
  revert a l es. induction f as [|f IH]; intros a l es; cbn [resolveDNSAddrFully]; [done|].
  destruct (NewMultiaddr a) as [m|]; [|intros [= <- <-]; constructor].
  destruct (dns_Resolve m) as [results ok].
  destruct (resolve_results _ results) as [[rs e]|] eqn:E; [|done]. cbn. intros [= <- <-].
  by eapply resolve_results_settled.
Qed.

Lemma resolve_results_ends (rec : bytes → option (list bytes * list res_err)) rs :
  (∀ r, r ∈ rs → dns_Matches r || hasDNSComponent r = true → rec (ma_String r) ≠ None) →
  resolve_results rec rs ≠ None.
Proof.
  induction rs as [|m rs IH]; intros Hr; cbn [resolve_results]; [done|].
  assert (resolve_results rec rs ≠ None) as H1 by (apply IH; intros r Hin; apply Hr; by apply list_elem_of_further).
  pose proof (Hr m (list_elem_of_here _ _)) as Hm.
  destruct (resolve_results rec rs) as [[rest re]|]; [|done].
  destruct (dns_Matches m); [|destruct (hasDNSComponent m); [|done]];
    (destruct (rec (ma_String m)) as [[sub se]|]; [done|by destruct Hm]).
Qed.

Lemma resolve_ends (rank : bytes → nat) :
  (∀ a m r, NewMultiaddr a = Some m → r ∈ (dns_Resolve m).1 →
     dns_Matches r || hasDNSComponent r = true → (rank (ma_String r) < rank a)%nat) →
  ∀ f a, (rank a < f)%nat → resolveDNSAddrFully f a ≠ None.
Proof.
  intros Hrank f. induction f as [|f IH]; intros a Hf; [lia|]. cbn [resolveDNSAddrFully].
  destruct (NewMultiaddr a) as [m|] eqn:Em; [|done]. destruct (dns_Resolve m) as [results ok] eqn:Er.
  assert (resolve_results (resolveDNSAddrFully f) results ≠ None) as H1.
  { apply resolve_results_ends. intros r Hin Hd. apply IH.
    assert (rank (ma_String r) < rank a)%nat by (eapply Hrank; [exact Em|by rewrite Er|done]). lia. }
  by destruct (resolve_results _ results) as [[rs es]|].
Qed.
End Reach.

(** The reachability of a node by its addresses: public exactly when some
    direct address has a public IP, private exactly when none has, some has a private
    one and there is an address through a relay, and unknown otherwise. *)
Theorem nat_reachability `{MultiaddrLib} addrs :
  (detectNATReachability addrs).1 =
    if existsb (direct_ip false) addrs then NATPublic
    else if existsb isRelayAddr addrs && existsb (direct_ip true) addrs then NATPrivate
    else NATUnknown.
Proof.
  unfold detectNATReachability. rewrite nat_fold. cbn [hasPublicIP hasRelayAddr hasPrivateIP orb].
  by destruct (existsb (direct_ip false) addrs), (existsb isRelayAddr addrs), (existsb (direct_ip true) addrs).
Qed.

(** Resolving a DNS address ends when the names form no cycle, with any fuel
    above the depth of the address, and more fuel changes nothing; what it returns
    names no DNS host, except one that nothing was found for. *)
Theorem dns_resolution `{MultiaddrLib} (rank : bytes → nat) a f :
  (∀ a m r, NewMultiaddr a = Some m → r ∈ (dns_Resolve m).1 →
     dns_Matches r || hasDNSComponent r = true → (rank (ma_String r) < rank a)%nat) →
  (rank a < f)%nat →
  ∃ l es, (∀ f', (f ≤ f')%nat → resolveDNSAddrFully f' a = Some (l, es)) ∧ Forall settled l.
Proof.
  intros Hr Hf. pose proof (resolve_ends rank Hr f a Hf) as He.
  destruct (resolveDNSAddrFully f a) as [[l es]|] eqn:E; [|done]. exists l, es.
  split; [intros f' Hf'; by eapply resolve_mono|by eapply resolve_settled].
Qed.

(** A name that resolves to itself is resolved for ever. *)
Theorem dns_cycle_never_ends `{MultiaddrLib} a m r rs ok :
  NewMultiaddr a = Some m → dns_Resolve m = (r :: rs, ok) → ma_String r = a → dns_Matches r = true →
  ∀ f, resolveDNSAddrFully f a = None.
Proof.
  intros Hm Hd Hs Hr f. induction f as [|f IH]; cbn [resolveDNSAddrFully]; [done|].
  rewrite Hm, Hd. cbn [resolve_results]. rewrite Hr, Hs, IH. done.
Qed.

Section Relays.
Context `{MultiaddrLib}.

Lemma add_relay_spec extra x :
  NoDup extra → NoDup (add_relay extra x) ∧ ∀ y, y ∈ add_relay extra x ↔ y ∈ extra ∨ (y = x ∧ skip_addr x = false).
Proof.
  intros Hn. unfold add_relay. destruct (skip_addr x); [split; [done|]; intros y; intuition congruence|].
  unfold containsAddr. destruct (existsb _ extra) eqn:E.
  - apply existsb_exists in E as (z & Hz & Hx). apply bool_decide_eq_true in Hx as ->.
    apply list_elem_of_In in Hz. split; [done|]. intros y. intuition congruence.
  - assert (x ∉ extra) as Hx.
    { intros Hin. apply not_true_iff_false in E. apply E, existsb_exists. exists x.
      split; [by apply list_elem_of_In|by apply bool_decide_eq_true]. }
    split.
    + apply list.NoDup_app. split_and!; [done| |apply NoDup_singleton].
      intros z Hz Hz'. apply list_elem_of_singleton in Hz' as ->. done.
    + intros y. rewrite elem_of_app, list_elem_of_singleton. intuition.
Qed.

Lemma add_relays_spec l extra :
  NoDup extra → NoDup (foldl add_relay extra l) ∧
  ∀ y, y ∈ foldl add_relay extra l ↔ y ∈ extra ∨ (y ∈ l ∧ skip_addr y = false).
Proof.
  revert extra. induction l as [|x l IH]; intros extra Hn; cbn [foldl].
  { split; [done|]. intros y. rewrite elem_of_nil. tauto. }
  destruct (add_relay_spec extra x Hn) as [H1 H2]. destruct (IH _ H1) as [H3 H4]. split; [done|].
  intros y. rewrite H4, H2, list.elem_of_cons. intuition congruence.
Qed.

Lemma add_groups_spec (kvs : list (bytes * list bytes)) extra :
  NoDup extra → NoDup (foldl (λ extra kv, foldl add_relay extra kv.2) extra kvs) ∧
  ∀ y, y ∈ foldl (λ extra kv, foldl add_relay extra kv.2) extra kvs ↔
       y ∈ extra ∨ ((∃ kv, kv ∈ kvs ∧ y ∈ kv.2) ∧ skip_addr y = false).
Proof.
  revert extra. induction kvs as [|kv kvs IH]; intros extra Hn; cbn [foldl].
  { split; [done|]. intros y. split; [tauto|]. intros [?|[(kv & Hkv & _) _]]; [done|]. by apply not_elem_of_nil in Hkv. }
  destruct (add_relays_spec kv.2 extra Hn) as [H1 H2]. destruct (IH _ H1) as [H3 H4]. split; [done|].
  intros y. rewrite H4, H2. split.
  - intros [[?|[? ?]]|[(kv' & Hin & Hy) Hs]]; [by left|right; split; [|done]; exists kv; split; [apply list_elem_of_here|done]|].
    right. split; [|done]. exists kv'. split; [by apply list_elem_of_further|done].
  - intros [?|[(kv' & Hin & Hy) Hs]]; [by left; left|]. apply list.elem_of_cons in Hin as [->|Hin].
    + left. by right.
    + right. split; [|done]. by exists kv'.
Qed.

(** What a table of resolved names holds *)
Definition resolved_ok (fuel : nat) (a : bytes) (rs : list bytes) : Prop :=
  rs ≠ [] ∧ ∃ es, resolveDNSAddrFully fuel a = Some (rs, es).

Lemma resolveAll_spec fuel l acc m :
  (∀ a rs, acc !! a = Some rs → resolved_ok fuel a rs) →
  resolveAllDNSAddrsQuiet fuel l acc = Some m →
  ∀ a rs, m !! a = Some rs ↔ (a ∈ l ∨ is_Some (acc !! a)) ∧ resolved_ok fuel a rs.
Proof.
  revert acc. induction l as [|x l IH]; intros acc Ha; cbn [resolveAllDNSAddrsQuiet].
  { intros [= <-] a rs. rewrite elem_of_nil. split.
    - intros H1. split; [right; by eauto|by apply Ha].
    - intros [[[]|[rs' H1]] [_ [es H2]]]. destruct (Ha _ _ H1) as [_ [es' H3]]. congruence. }
  destruct (resolveDNSAddrFully fuel x) as [[rx es]|] eqn:E; [|done]. cbn [mbind option_bind].
  destruct (bool_decide_reflect (rx = [])) as [->|Hne]; intros Hm a rs.
  - rewrite (IH acc Ha Hm a rs), list.elem_of_cons. split; [tauto|].
    intros [[[->|?]|?] Hok]; [|tauto|tauto]. destruct Hok as [? [es' ?]]. congruence.
  - assert (∀ b ys, <[x:=rx]> acc !! b = Some ys → resolved_ok fuel b ys) as Ha'.
    { intros b ys Hb. apply lookup_insert_Some in Hb as [[<- <-]|[_ Hb]]; [split; [done|by eauto]|by apply Ha]. }
    rewrite (IH _ Ha' Hm a rs), list.elem_of_cons. destruct (decide (a = x)) as [->|Hax].
    + rewrite lookup_insert_eq. split; [tauto|]. intros [_ ?]. split; [right; by eauto|done].
    + rewrite lookup_insert_ne by done. tauto.
Qed.
End Relays.

(** The start of the package.  The extra relays are the addresses that the
    bootstrap names resolve to, each once, without those over UDP, secure
    web sockets or IPv6; but the list that is used later was made before, from the
    bootstrap names alone. *)
Theorem static_relays `{MultiaddrLib} fuel order boot g :
  (∀ l, order l ≡ₚ l) → package_init fuel order boot = Some g →
  g_all g = boot ∧ NoDup (g_extra g) ∧
  ∀ x, x ∈ g_extra g ↔
    skip_addr x = false ∧ ∃ a l es, a ∈ boot ∧ resolveDNSAddrFully fuel a = Some (l, es) ∧ x ∈ l.
Proof.
  intros Ho. unfold package_init, resolveAllDNSAddrsInit.
  destruct (resolveAllDNSAddrsQuiet fuel boot ∅) as [m|] eqn:E; [|done]. cbn. intros [= <-]. cbn [g_all g_extra].
  destruct (add_groups_spec (order (map_to_list m)) [] (NoDup_nil_2)) as [H1 H2].
  split; [by rewrite app_nil_r|]. split; [done|]. intros x. rewrite H2, elem_of_nil.
  assert (∀ a rs, (∅ : gmap bytes (list bytes)) !! a = Some rs → resolved_ok fuel a rs) as H0
    by (intros a rs; by rewrite lookup_empty).
  pose proof (resolveAll_spec fuel boot ∅ m H0 E) as Hm. split.
  - intros [[]|[([a l] & Hin & Hx) Hs]]. split; [done|]. rewrite (Ho _) in Hin.
    apply elem_of_map_to_list, Hm in Hin as [[Hb|[? Hb]] [_ [es Hr]]]; [|by rewrite lookup_empty in Hb].
    by exists a, l, es.
  - intros [Hs (a & l & es & Hb & Hr & Hx)]. right. split; [|done]. exists (a, l). split; [|done].
    rewrite (Ho _). apply elem_of_map_to_list, Hm. split; [by left|].
    split; [by intros ->; apply not_elem_of_nil in Hx|by exists es].
Qed.

(** The result of the bootstrap, when there is one: the key is the one of the
    key file, and, as the phase of connecting connects to nobody, no peer is active
    and none supports relaying, whatever the network does. *)
Theorem bootstrap_connects_nobody `{MultiaddrLib} `{KeyPrims} KeyFile rnd boot all w s r s' :
  Libp2pBootstrap KeyFile rnd boot all w s = (Ret r, s') →
  BootstrapOK r = [] ∧ BootstrapNOK r = [] ∧ ActivePeers (FullStatus r) = 0 ∧
  ConnectedSupporting (Relay (FullStatus r)) = 0 ∧
  StaticCandidates (Relay (FullStatus r)) = zlen all ∧
  (NATStatus (FullStatus r), NATIndication (FullStatus r)) = detectNATReachability (l_addrs w) ∧
  ∃ kr pub, LoadKeyRing KeyFile true rnd s = (Ret kr, s') ∧ ed25519Pub kr = (Ret pub : outcome boot_err bytes) ∧
    b_PubkeyHex r = hexEncode pub.
Proof.
  unfold Libp2pBootstrap. intros Hr.
  apply stm_bind_inv in Hr as (kr & s1 & Hkr & Hr). unfold stm_wrap in Hkr.
  destruct (LoadKeyRing KeyFile true rnd s) as [[kr'|e|] s1'] eqn:El; try done. injection Hkr as -> ->.
  apply stm_bind_inv in Hr as (priv & s2 & [= Hpriv <-] & Hr).
  apply stm_bind_inv in Hr as (pub & s3 & [= Hpub <-] & Hr).
  do 5 apply stm_bind_inv in Hr as (? & ? & [= _ <-] & Hr).
  apply stm_bind_inv in Hr as (? & ? & [= _ <-] & Hr).
  destruct (waitForAutoNAT _ _) as [ns nr]. destruct (detectNATReachability _) as [st ind].
  injection Hr as <- <-. cbn. split_and!; try done.
  exists kr, pub. split_and!; [done| |done]. unfold ed25519Pub. by rewrite Hpriv.
Qed.

(** ** A library of addresses, and witnesses *)

Module ToyAddrs.

(** Three kinds of addresses: an IPv4 host, a DNS name and a relayed one *)
Inductive addr := Ip (s : bytes) | Name (s : bytes) | Relayed (s : bytes).

Definition text (a : addr) : bytes :=
  match a with Ip s => str "/ip4/" ++ s | Name s => str "/dnsaddr/" ++ s | Relayed s => str "/p2p-circuit/" ++ s end.

Definition parse (s : bytes) : option addr :=
  if HasPrefix (str "/ip4/") s then Some (Ip (drop 5 s))
  else if HasPrefix (str "/dnsaddr/") s then Some (Name (drop 9 s))
  else None.

#[export] Instance toy_addrs : MultiaddrLib := {|
  maddr := addr;
  NewMultiaddr := parse;
  ma_String := text;
  Protocols a := match a with Ip _ => [("ip4", 4)] | Name _ => [("dnsaddr", 56)] | Relayed _ => [("p2p-circuit", 290)] end%string;
  ValueForProtocol a _ := match a with Ip s => Some s | _ => None end;
  dns_Matches a := match a with Name _ => true | _ => false end;
  dns_Resolve a := match a with Name s => ([Ip s; Ip (str "10.0.0.1")], true) | _ => ([a], true) end;
  AddrInfoFromP2pAddr a := Some (text a, [a])
|}.
End ToyAddrs.
Import ToyAddrs.

Lemma private_by_ranges_witness : isPrivateIP (Some (map zb [172; 31; 255; 255])) = true.
Proof.
  rewrite (private_by_ranges (map zb [172; 31; 255; 255])) by (left; reflexivity). vm_compute. reflexivity.
Defined.

Lemma dns_resolution_witness :
  ∃ l es, (∀ f', (2 ≤ f')%nat → resolveDNSAddrFully f' (str "/dnsaddr/1.2.3.4") = Some (l, es)) ∧ Forall settled l.
Proof.
  apply (dns_resolution (λ a, if HasPrefix (str "/dnsaddr/") a then 1 else 0)%nat (str "/dnsaddr/1.2.3.4") 2).
  - intros a m r Hm Hin Hd. destruct m as [x|x|x]; cbn in Hin, Hm; unfold parse in Hm.
    + apply list_elem_of_singleton in Hin as ->. discriminate Hd.
    + apply list.elem_of_cons in Hin as [->|Hin]; [discriminate Hd|].
      apply list_elem_of_singleton in Hin as ->. discriminate Hd.
    + destruct (HasPrefix (str "/ip4/") a); [discriminate Hm|]. by destruct (HasPrefix _ a).
  - vm_compute. lia.
Defined.

Lemma static_relays_witness :
  ∃ g, package_init 3 (λ l, l) [str "/dnsaddr/1.2.3.4"] = Some g ∧
    g_all g = [str "/dnsaddr/1.2.3.4"] ∧ g_extra g = [str "/ip4/1.2.3.4"; str "/ip4/10.0.0.1"] ∧ NoDup (g_extra g).
Proof.
  assert (package_init 3 (λ l, l) [str "/dnsaddr/1.2.3.4"] =
    Some (mkGlobals [str "/ip4/1.2.3.4"; str "/ip4/10.0.0.1"] [str "/dnsaddr/1.2.3.4"])) as E by (vm_compute; reflexivity).
  eexists. split; [exact E|].
  destruct (static_relays 3 (λ l, l) [str "/dnsaddr/1.2.3.4"] _ (λ l, Permutation_refl l) E) as (H1 & H2 & _).
  split_and!; [exact H1|reflexivity|exact H2].
Defined.
