(* ===== verification/EchoBot.v ===== *)
(** * The echo bot (tbecho/echobot.go)

    A bot that answers messages, calls and frames with what it got, and that sends a
    file back while it receives it: the chunks that arrived and the chunks the friend
    asked for are kept in global tables until they meet.  The tox library is the
    list of calls made to it, with its answers to the next calls that send a chunk
    (it accepts once they are used up). *)

From S2P Require Import Prelude Varint GoText NodePool.
From stdpp Require Import pretty.
Local Open Scope Z_scope.

Definition FILE_CONTROL_RESUME : Z := 0.
Definition FILE_CONTROL_PAUSE : Z := 1.
Definition FILE_CONTROL_CANCEL : Z := 2.

Inductive echo_call :=
| FriendAddNorequest (friendId : bytes)
| FriendSendMessage (friendNumber : Z) (message : bytes)
| FileControl (friendNumber fileNumber control : Z)
| FileSend (friendNumber kind fileSize : Z) (fileId fileName : bytes)
| FileSendChunk (friendNumber fileNumber position : Z) (data : bytes) (ok : bool)
| Answer (friendNumber audioBitRate videoBitRate : Z)
| AudioSendFrame (friendNumber : Z) (pcm : bytes) (sampleCount channels samplingRate : Z)
| VideoSendFrame (friendNumber width height : Z) (frames : bytes).

(** The global tables of the bot, and the library *)
Record bot := mkBot {
  recvFiles : gmap Z Z;
  sendFiles : gmap Z Z;
  sendDatas : gmap bytes bytes;
  chunkReqs : list bytes;
  calls : list echo_call;
  answers : list bool
}.

Definition NewEchoBot (answers : list bool) : bot := mkBot ∅ ∅ ∅ [] [] answers.

Definition call (c : echo_call) (b : bot) : bot :=
  mkBot (recvFiles b) (sendFiles b) (sendDatas b) (chunkReqs b) (calls b ++ [c]) (answers b).
Definition set_files (r s : gmap Z Z) (b : bot) : bot :=
  mkBot r s (sendDatas b) (chunkReqs b) (calls b) (answers b).
Definition set_datas (x : gmap bytes bytes) (b : bot) : bot :=
  mkBot (recvFiles b) (sendFiles b) x (chunkReqs b) (calls b) (answers b).
Definition set_reqs (x : list bytes) (b : bot) : bot :=
  mkBot (recvFiles b) (sendFiles b) (sendDatas b) x (calls b) (answers b).
Definition set_answers (x : list bool) (b : bot) : bot :=
  mkBot (recvFiles b) (sendFiles b) (sendDatas b) (chunkReqs b) (calls b) x.

(** ** Messages, calls and frames *)

Definition OnFriendRequest (friendId : bytes) (b : bot) : bot := call (FriendAddNorequest friendId) b.

Definition OnFriendMessage (friendNumber : Z) (message : bytes) (b : bot) : bot :=
  call (FriendSendMessage friendNumber (str "Re: " ++ message)) b.

Definition OnCall (friendNumber : Z) (b : bot) : bot := call (Answer friendNumber 48 64) b.

Definition OnAudioReceiveFrame (friendNumber : Z) (pcm : bytes) (sampleCount channels samplingRate : Z)
    (b : bot) : bot := call (AudioSendFrame friendNumber pcm sampleCount channels samplingRate) b.

Definition OnVideoReceiveFrame (friendNumber width height : Z) (frames : bytes) (b : bot) : bot :=
  call (VideoSendFrame friendNumber width height frames) b.

(** ** Files *)

(** [uint64(a)<<32 | uint64(b)] *)
Definition file_key (a b : Z) : Z := Z.lor (u64 (Z.shiftl a 32)) b.

Definition us : byte := x5f.

(** [fmt.Sprintf("%d_%v_%v", no, a0, a1)] *)
Definition makekey (no a0 a1 : Z) : bytes := itoa no ++ [us] ++ itoa a0 ++ [us] ++ itoa a1.

(** [strconv.ParseUint(s, 10, 64)]: the number that comes with an error is used, too. *)
Definition ParseUint (s : bytes) : Z * bool :=
  match s with
  | [] => (0, false)
  | _ => match digits_from 0 s with
         | None => (0, false)
         | Some n => if n <? 2 ^ 64 then (n, true) else (2 ^ 64 - 1, false)
         end
  end.

(** [lst := strings.Split(reqkey, "_")] and the number in [lst[2]] *)
Definition key_pos {E} (reqkey : bytes) : outcome E Z :=
  match SplitByte us reqkey !! 2%nat with
  | Some s => Ret (ParseUint s).1
  | None => Panic
  end.

Definition OnFileRecvControl (friendNumber fileNumber control : Z) (b : bot) : bot :=
  let key := file_key friendNumber fileNumber in
  let forward := match sendFiles b !! key with
                 | Some fno => call (FileControl friendNumber fno control) b
                 | None => b
                 end in
  if control =? FILE_CONTROL_RESUME then forward
  else if control =? FILE_CONTROL_PAUSE then forward
  else if control =? FILE_CONTROL_CANCEL then forward
  else b.

(** [reFileNumber] is the number [FileSend] returns; its error is ignored. *)
Definition OnFileRecv (friendNumber fileNumber kind fileSize : Z) (fileName : bytes) (reFileNumber : Z)
    (b : bot) : bot :=
  let reFileName := str "Re_" ++ fileName in
  let b := call (FileSend friendNumber kind fileSize reFileName reFileName) b in
  set_files (<[file_key friendNumber fileNumber := reFileNumber]> (recvFiles b))
            (<[file_key friendNumber reFileNumber := fileNumber]> (sendFiles b)) b.

(** [t.FileSendChunk]: [true] is a nil error. *)
Definition send_chunk (friendNumber fileNumber pos : Z) (data : bytes) (b : bot) : bool * bot :=
  let '(ok, rest) := match answers b with [] => (true, []) | a :: r => (a, r) end in
  (ok, call (FileSendChunk friendNumber fileNumber pos data ok) (set_answers rest b)).

(** The first loop of [trySendChunk], over the requests; it stops at an error. *)
Fixpoint send_loop {E : Type} (friendNumber fileNumber : Z) (reqs : list bytes) (sentKeys : gset bytes) (b : bot)
    : outcome E (gset bytes * bot) :=
  match reqs with
  | [] => Ret (sentKeys, b)
  | reqkey :: reqs =>
      pos ← key_pos reqkey;
      match sendDatas b !! reqkey with
      | Some data =>
          let '(ok, b) := send_chunk friendNumber fileNumber pos data b in
          if ok : bool then
            send_loop friendNumber fileNumber reqs ({[reqkey]} ∪ sentKeys)
                      (set_datas (delete reqkey (sendDatas b)) b)
          else Ret (sentKeys, b)
      | None => send_loop friendNumber fileNumber reqs sentKeys b
      end
  end.

(** The parameter [position] of the source is not used. *)
Definition trySendChunk {E} (friendNumber fileNumber : Z) (b : bot) : outcome E bot :=
  '(sentKeys, b) ← send_loop friendNumber fileNumber (chunkReqs b) ∅ b;
  Ret (set_reqs (filter (λ k, k ∉ sentKeys) (chunkReqs b)) b).

Definition OnFileRecvChunk {E} (friendNumber fileNumber position : Z) (data : bytes) (b : bot)
    : outcome E bot :=
  match data with
  | [] => Ret b
  | _ =>
      let reFileNumber := default 0 (recvFiles b !! file_key fileNumber fileNumber) in
      let key := makekey friendNumber reFileNumber position in
      trySendChunk friendNumber reFileNumber (set_datas (<[key := data]> (sendDatas b)) b)
  end.

Definition OnFileChunkRequest {E} (friendNumber fileNumber position length : Z) (b : bot)
    : outcome E bot :=
  if length =? 0 then
    let origFileNumber := default 0 (sendFiles b !! file_key fileNumber fileNumber) in
    Ret (set_files (delete (file_key fileNumber origFileNumber) (recvFiles b))
                   (delete (file_key fileNumber fileNumber) (sendFiles b)) b)
  else
    let key := makekey friendNumber fileNumber position in
    trySendChunk friendNumber fileNumber (set_reqs (chunkReqs b ++ [key]) b).

(** ** Keys: lemmas *)

Lemma makekey_inj no a p q : makekey no a p = makekey no a q → p = q.
Proof. unfold makekey. intros H. do 4 apply app_inv_head in H. by apply itoa_inj in H. Qed.

Lemma itoa_no_us z : 0 ≤ z → us ∉ itoa z.
Proof. intros Hz. by apply itoa_avoids. Qed.

(** The fields of a key are the numbers it was made from. *)
Lemma SplitByte_makekey no a p :
  0 ≤ no → 0 ≤ a → 0 ≤ p → SplitByte us (makekey no a p) = [itoa no; itoa a; itoa p].
Proof.
  intros. unfold makekey. cbn [app].
  by rewrite !SplitByte_app, SplitByte_none by (by apply itoa_no_us).
Qed.

Lemma makekey_file no a a' p p' :
  0 ≤ no → 0 ≤ a → 0 ≤ a' → 0 ≤ p → 0 ≤ p' → makekey no a p = makekey no a' p' → a = a' ∧ p = p'.
Proof.
  intros ????? H. pose proof (f_equal (SplitByte us) H) as Hs.
  rewrite !SplitByte_makekey in Hs by done. injection Hs as Ha Hp. split; by apply itoa_inj.
Qed.

Lemma ParseUint_itoa p : 0 ≤ p < 2 ^ 64 → ParseUint (itoa p) = (p, true).
Proof.
  intros Hp. destruct (digits_itoa p) as [Hn Hd]; [lia|]. unfold ParseUint.
  destruct (itoa p) as [|c s]; [done|]. rewrite Hd.
  destruct (p <? 2 ^ 64) eqn:E; zbool; [done|lia].
Qed.

Lemma key_pos_makekey {E} no a p :
  0 ≤ no → 0 ≤ a → 0 ≤ p < 2 ^ 64 → @key_pos E (makekey no a p) = Ret p.
Proof.
  intros. unfold key_pos. rewrite SplitByte_makekey by lia. cbn [lookup list_lookup].
  by rewrite ParseUint_itoa.
Qed.

Definition is_u32 (z : Z) : Prop := 0 ≤ z < 2 ^ 32.
Definition is_u64 (z : Z) : Prop := 0 ≤ z < 2 ^ 64.

Lemma file_key_sum a b : is_u32 a → is_u32 b → file_key a b = a * 2 ^ 32 + b.
Proof.
  unfold is_u32. intros Ha Hb. unfold file_key, u64. rewrite Z.shiftl_mul_pow2 by lia.
  rewrite wrap_u_small by lia. rewrite Z.lor_comm, <- Z.shiftl_mul_pow2 by lia.
  rewrite lor_shiftl_add, Z.shiftl_mul_pow2 by lia. lia.
Qed.

Lemma file_key_inj a b c d :
  is_u32 a → is_u32 b → is_u32 c → is_u32 d → file_key a b = file_key c d → a = c ∧ b = d.
Proof. intros. rewrite !file_key_sum in * by done. unfold is_u32 in *. lia. Qed.

(** ** Meeting of chunks and requests: lemmas *)

(** The chunks the library accepted, in order: the friend and the number of the file
    they were sent under, the position and the data *)
Definition sent (b : bot) : list (Z * Z * Z * bytes) :=
  omap (λ c, match c with FileSendChunk f n p d true => Some (f, n, p, d) | _ => None end) (calls b).

(** Their positions and data *)
Definition echoed (b : bot) : list (Z * bytes) := map (λ '(_, _, p, d), (p, d)) (sent b).

(** Every chunk that was sent, accepted or not, went to this friend under this number. *)
Definition directed (fr re : Z) (b : bot) : Prop :=
  Forall (λ c, match c with FileSendChunk f n _ _ _ => f = fr ∧ n = re | _ => True end) (calls b).

Lemma directed_sent fr re b :
  directed fr re b → sent b = map (λ '(p, d), (fr, re, p, d)) (echoed b).
Proof.
  unfold directed, sent, echoed, sent. induction 1 as [|c l Hc _ IH]; [done|].
  destruct c as [| | | |f n p d []| | |]; cbn [omap list_omap map]; try done.
  destruct Hc as [-> ->]. by f_equal.
Qed.

(** What a run of the first loop leaves alone *)
Definition same_tables (b b' : bot) : Prop :=
  recvFiles b' = recvFiles b ∧ sendFiles b' = sendFiles b ∧ chunkReqs b' = chunkReqs b.

Definition accepting (b : bot) : Prop := Forall (.= true) (answers b).

(** [ps] are the chunks that the loop sends for the requests [rs]. *)
Record loop_sends (fr re : Z) (rs : list Z) (b b' : bot) (ps : list (Z * bytes)) : Prop := {
  ls_tables : same_tables b b';
  ls_sent : echoed b' = echoed b ++ ps;
  ls_nodup : NoDup ps.*1;
  ls_from p d : (p, d) ∈ ps → p ∈ rs ∧ sendDatas b !! makekey fr re p = Some d;
  ls_datas k : sendDatas b' !! k = if decide (k ∈ map (makekey fr re) ps.*1) then None else sendDatas b !! k;
  ls_all : accepting b → accepting b' ∧
    ∀ p d, p ∈ rs → sendDatas b !! makekey fr re p = Some d → (p, d) ∈ ps
}.

Lemma loop_sends_none fr re rs b :
  (∀ p, p ∈ rs → accepting b → sendDatas b !! makekey fr re p = None) → loop_sends fr re rs b b [].
Proof.
  intros Hn. constructor; [done|by rewrite app_nil_r|constructor|by intros p d ?%not_elem_of_nil|done|].
  intros Ha. split; [done|]. intros p d Hp. by rewrite Hn.
Qed.

Lemma send_chunk_spec fr re p d b ok b' :
  send_chunk fr re p d b = (ok, b') →
  same_tables b b' ∧ sendDatas b' = sendDatas b ∧ echoed b' = echoed b ++ (if ok then [(p, d)] else []) ∧
  (accepting b → ok = true ∧ accepting b').
Proof.
  unfold send_chunk, accepting, echoed, sent. destruct (answers b) as [|a r] eqn:E; intros [= <- <-];
    cbn [calls call set_answers answers]; rewrite omap_app, map_app; cbn [omap list_omap map].
  - done.
  - split_and!; [done|done|by destruct a|]. intros Ha%list.Forall_cons. done.
Qed.

Lemma loop_sends_cons fr re q d rs b b1 b2 ps :
  sendDatas b !! makekey fr re q = Some d →
  send_chunk fr re q d b = (true, b1) →
  loop_sends fr re rs (set_datas (delete (makekey fr re q) (sendDatas b1)) b1) b2 ps →
  loop_sends fr re (q :: rs) b b2 ((q, d) :: ps).
Proof.
  intros Hq ((T1 & T2 & T3) & Hd & Hs & Ha)%send_chunk_spec [(U1 & U2 & U3) L2 L3 L4 L5 L6].
  cbn [set_datas recvFiles sendFiles chunkReqs sendDatas] in *. rewrite Hd in *. constructor.
  - split_and!; congruence.
  - rewrite L2. change (echoed (set_datas _ b1)) with (echoed b1). by rewrite Hs, <- app_assoc.
  - cbn. constructor; [|done]. intros ([p d'] & -> & Hin)%list_elem_of_fmap.
    apply L4 in Hin as [_ Hl]. cbn in Hl. by rewrite lookup_delete_eq in Hl.
  - intros p d' [[= -> ->]|Hin]%list.elem_of_cons; [split; [left|done]|].
    apply L4 in Hin as [Hp Hl]. apply lookup_delete_Some in Hl as [_ Hl]. split; [by right|done].
  - intros k. rewrite L5. cbn [fmap list_fmap map fst].
    destruct (decide (k = makekey fr re q)) as [->|Hk].
    + rewrite lookup_delete_eq. destruct (decide (_ ∈ map _ (ps.*1))); by rewrite decide_True by left.
    + rewrite lookup_delete_ne by done.
      destruct (decide (k ∈ map (makekey fr re) (ps.*1))), (decide (k ∈ _ :: _)) as [Hc|Hc]; try done.
      * destruct Hc. by right.
      * by apply list.elem_of_cons in Hc as [?|?].
  - intros Hacc. destruct (Ha Hacc) as [_ Hb1]. destruct (L6 Hb1) as [Hb2 Hall]. split; [done|].
    intros p d' [->|Hp]%list.elem_of_cons Hl; [rewrite Hq in Hl; injection Hl as ->; left|].
    destruct (decide (p = q)) as [->|Hpq]; [rewrite Hq in Hl; injection Hl as ->; left|].
    right. apply Hall; [done|]. rewrite lookup_delete_ne; [done|]. by intros ?%makekey_inj.
Qed.

Lemma loop_sends_skip fr re q rs b b2 ps :
  sendDatas b !! makekey fr re q = None →
  loop_sends fr re rs b b2 ps → loop_sends fr re (q :: rs) b b2 ps.
Proof.
  intros Hq [L1 L2 L3 L4 L5 L6]. constructor; try done.
  - intros p d Hin. destruct (L4 p d Hin). split; [by right|done].
  - intros Ha. destruct (L6 Ha) as [? Hall]. split; [done|].
    intros p d [->|Hp]%list.elem_of_cons Hl; [congruence|by apply Hall].
Qed.

Lemma send_loop_sends {E} fr re rs skeys b :
  is_u32 fr → is_u32 re → Forall is_u64 rs →
  ∃ ps b', @send_loop E fr re (map (makekey fr re) rs) skeys b =
             Ret (list_to_set (map (makekey fr re) ps.*1) ∪ skeys, b') ∧
           loop_sends fr re rs b b' ps.
Proof.
  intros Hfr Hre. unfold is_u32 in *. revert skeys b. induction rs as [|q rs IH]; intros skeys b Hrs; cbn [map send_loop].
  { exists [], b. split; [cbn; by rewrite union_empty_l_L|]. apply loop_sends_none. by intros p ?%not_elem_of_nil. }
  apply list.Forall_cons in Hrs as [Hq Hrs]. rewrite key_pos_makekey, bind_ret by (unfold is_u64 in *; lia).
  destruct (sendDatas b !! makekey fr re q) as [d|] eqn:Eq.
  - destruct (send_chunk fr re q d b) as [[] b1] eqn:Es.
    + destruct (IH ({[makekey fr re q]} ∪ skeys) (set_datas (delete (makekey fr re q) (sendDatas b1)) b1) Hrs)
        as (ps & b2 & -> & Hl).
      exists ((q, d) :: ps), b2. split; [|by eapply loop_sends_cons].
      f_equal. f_equal. cbn [fmap list_fmap map list_to_set fst].
      rewrite (assoc_L (∪)). f_equal. apply (comm_L (∪)).
    + exists [], b1. split; [cbn; by rewrite union_empty_l_L|].
      apply send_chunk_spec in Es as (T & Hd & Hs & Ha). constructor; [done|done|constructor|by intros p d' ?%not_elem_of_nil|cbn; by rewrite Hd|].
      intros Hacc. by destruct (Ha Hacc).
  - destruct (IH skeys b Hrs) as (ps & b2 & -> & Hl). exists ps, b2. split; [done|]. by apply loop_sends_skip.
Qed.

Lemma send_loop_directed {E} fr re reqs : ∀ skeys b skeys' b',
  @send_loop E fr re reqs skeys b = Ret (skeys', b') → directed fr re b →
  directed fr re b' ∧ recvFiles b' = recvFiles b.
Proof.
  induction reqs as [|k reqs IH]; intros skeys b skeys' b'; cbn [send_loop]; [by intros [= _ <-]|].
  destruct (@key_pos E k) as [pos| |]; cbn [mbind outcome_bind]; try done.
  destruct (sendDatas b !! k) as [d|]; [|by apply IH].
  unfold send_chunk. destruct (answers b) as [|a r]; cbn [fst snd]; [|destruct a].
  all: intros Hs Hd; assert (∀ ok l, directed fr re (call (FileSendChunk fr re pos d ok) (set_answers l b))) as Hc
    by (intros ok l; apply Forall_app; split; [exact Hd|by apply Forall_singleton]).
  1,2: destruct (IH _ _ _ _ Hs) as [? Hr]; [apply Hc|done].
  injection Hs as <- <-. split; [apply Hc|done].
Qed.

Lemma trySendChunk_directed {E} fr re b b' :
  @trySendChunk E fr re b = Ret b' → directed fr re b →
  directed fr re b' ∧ recvFiles b' = recvFiles b.
Proof.
  unfold trySendChunk. destruct (send_loop _ _ _ _ _) as [[k b1]| |] eqn:E1; [|done..].
  intros [= <-] Hd. by destruct (send_loop_directed _ _ _ _ _ _ _ E1 Hd).
Qed.

(** The state of one transfer: [reqs] and [chunks] are the positions the friend asked
    for and the chunks that arrived. *)
Record transfer_inv (fr re : Z) (reqs : list Z) (chunks : list (Z * bytes)) (b : bot) : Prop := {
  ti_reqs : chunkReqs b = map (makekey fr re) (filter (λ p, p ∉ (echoed b).*1) reqs);
  ti_datas k d : sendDatas b !! k = Some d ↔
    ∃ p, k = makekey fr re p ∧ (p, d) ∈ chunks ∧ p ∉ (echoed b).*1;
  ti_sent p d : (p, d) ∈ echoed b → (p, d) ∈ chunks ∧ p ∈ reqs;
  ti_nodup : NoDup (echoed b).*1
}.

(** Every chunk that arrived and was asked for has been echoed. *)
Definition met (reqs : list Z) (chunks : list (Z * bytes)) (b : bot) : Prop :=
  ∀ p d, p ∈ reqs → (p, d) ∈ chunks → p ∈ (echoed b).*1.

Lemma key_among fr re p (m : list Z) : makekey fr re p ∈ map (makekey fr re) m ↔ p ∈ m.
Proof.
  split; [intros (q & He & Hq)%list_elem_of_fmap; by apply makekey_inj in He as ->|].
  intros Hm. apply list_elem_of_fmap. by exists p.
Qed.

Lemma left_requests fr re (rs : list Z) (l m : list Z) :
  filter (λ k, k ∉ (list_to_set (map (makekey fr re) m) : gset bytes))
         (map (makekey fr re) (filter (λ p, p ∉ l) rs)) =
  map (makekey fr re) (filter (λ p, p ∉ l ++ m) rs).
Proof.
  induction rs as [|p rs IH]; [done|]. destruct (decide (p ∈ l)) as [Hl|Hl].
  { rewrite !list.filter_cons_False; [done|..]; [rewrite elem_of_app; tauto|tauto]. }
  rewrite (list.filter_cons_True (λ p, p ∉ l)) by done. cbn [map].
  destruct (decide (p ∈ m)) as [Hm|Hm].
  - rewrite !list.filter_cons_False, IH; [done|rewrite elem_of_app; tauto|].
    rewrite elem_of_list_to_set, key_among. tauto.
  - rewrite !list.filter_cons_True; [cbn [map]; by rewrite IH|rewrite elem_of_app; tauto|].
    by rewrite elem_of_list_to_set, key_among.
Qed.

Lemma trySendChunk_inv {E} fr re reqs chunks b :
  is_u32 fr → is_u32 re → Forall is_u64 reqs → transfer_inv fr re reqs chunks b →
  ∃ b', @trySendChunk E fr re b = Ret b' ∧ transfer_inv fr re reqs chunks b' ∧
    recvFiles b' = recvFiles b ∧ (accepting b → accepting b' ∧ met reqs chunks b').
Proof.
  intros Hfr Hre Hu [T1 T2 T3 T4]. unfold trySendChunk. rewrite T1.
  set (rs := filter _ _). assert (Forall is_u64 rs) as Hrs.
  { apply list.Forall_forall. intros p [_ Hp]%list_elem_of_filter. by apply (proj1 (list.Forall_forall _ _) Hu). }
  destruct (@send_loop_sends E fr re rs ∅ b Hfr Hre Hrs) as (ps & b1 & -> & [(U1 & U2 & U3) L2 L3 L4 L5 L6]).
  rewrite bind_ret, union_empty_r_L, U3, T1. unfold rs in *. rewrite left_requests. eexists. split; [done|].
  cbn [set_reqs recvFiles]. split; [|split; [done|]].
  - constructor; cbn [set_reqs chunkReqs sendDatas]; change (echoed (set_reqs _ b1)) with (echoed b1);
      rewrite L2, ?fmap_app.
    + done.
    + intros k d. rewrite L5. destruct (decide _) as [Hin|Hout].
      * split; [done|]. intros (p & -> & _ & Hp). apply key_among in Hin. destruct Hp. apply elem_of_app. by right.
      * rewrite T2. split; intros (p & -> & Hc & Hp); exists p; (split_and!; [done..|]).
        -- intros [?|?]%elem_of_app; [done|]. by rewrite key_among in Hout.
        -- intros ?. apply Hp, elem_of_app. by left.
    + intros p d [Hin|Hin]%elem_of_app; [by apply T3|]. apply L4 in Hin as [Hp Hd].
      apply T2 in Hd as (q & Hk & Hc & _). apply makekey_inj in Hk as <-.
      apply list_elem_of_filter in Hp as [_ Hp]. done.
    + apply list.NoDup_app. split_and!; [done| |done]. intros p Hp Hq.
      apply list_elem_of_fmap in Hq as ([q d] & -> & Hq). apply L4 in Hq as [Hq _].
      by apply list_elem_of_filter in Hq as [Hq _].
  - intros Ha. destruct (L6 Ha) as [Ha1 Hall]. split; [done|]. intros p d Hp Hc.
    change (echoed (set_reqs _ b1)) with (echoed b1). rewrite L2, fmap_app, elem_of_app.
    destruct (decide (p ∈ (echoed b).*1)) as [?|Hs]; [by left|right].
    apply list_elem_of_fmap. exists (p, d). split; [done|]. apply Hall.
    + by apply list_elem_of_filter.
    + apply T2. by exists p.
Qed.

(** ** A transfer *)

(** What the library reports during a transfer: a chunk of the friend's file, and a
    request for a chunk of the file that is sent back. *)
Inductive file_ev :=
| EvChunk (position : Z) (data : bytes)
| EvRequest (position length : Z).

Definition file_step {E} (fr fno re : Z) (ev : file_ev) (b : bot) : outcome E bot :=
  match ev with
  | EvChunk p d => OnFileRecvChunk fr fno p d b
  | EvRequest p n => OnFileChunkRequest fr re p n b
  end.

Fixpoint file_run {E} (fr fno re : Z) (evs : list file_ev) (b : bot) : outcome E bot :=
  match evs with
  | [] => Ret b
  | ev :: evs => b ← file_step fr fno re ev b; file_run fr fno re evs b
  end.

Definition chunks_of : list file_ev → list (Z * bytes) :=
  omap (λ ev, match ev with EvChunk p d => Some (p, d) | _ => None end).
Definition requests_of : list file_ev → list Z :=
  omap (λ ev, match ev with EvRequest p _ => Some p | _ => None end).

(** Positions are 64-bit numbers, and neither the last event of a file (an empty chunk,
    a request of length 0) is among the events. *)
Definition ev_ok (ev : file_ev) : Prop :=
  match ev with
  | EvChunk p d => is_u64 p ∧ d ≠ []
  | EvRequest p n => is_u64 p ∧ n ≠ 0
  end.

Lemma requests_ok evs : Forall ev_ok evs → Forall is_u64 (requests_of evs).
Proof.
  induction 1 as [|[p d|p n] evs Hev _ IH]; [constructor|done|]. constructor; [apply Hev|done].
Qed.

Lemma add_chunk_inv fr re reqs chunks p d b :
  p ∉ chunks.*1 → transfer_inv fr re reqs chunks b →
  transfer_inv fr re reqs (chunks ++ [(p, d)])
    (set_datas (<[makekey fr re p := d]> (sendDatas b)) b).
Proof.
  intros Hp [T1 T2 T3 T4].
  assert (p ∉ (echoed b).*1) as Hs.
  { intros ([q e] & -> & Hq)%list_elem_of_fmap. apply T3 in Hq as [Hq _].
    apply Hp, list_elem_of_fmap. by exists (q, e). }
  constructor; [done| |intros q e Hq; destruct (T3 q e Hq); split; [apply elem_of_app; by left|done]|done].
  intros k e. cbn [set_datas sendDatas]. change (echoed (set_datas _ b)) with (echoed b).
  destruct (decide (k = makekey fr re p)) as [->|Hk].
  - rewrite lookup_insert_eq. split.
    + intros [= ->]. exists p. split_and!; [done| |done]. apply elem_of_app. right. by apply list_elem_of_singleton.
    + intros (q & Hq%makekey_inj & Hc & _). subst q. apply elem_of_app in Hc as [Hc|Hc].
      * destruct Hp. apply list_elem_of_fmap. by exists (p, e).
      * by apply list_elem_of_singleton in Hc as [= ->].
  - rewrite lookup_insert_ne by done. rewrite T2. split; intros (q & -> & Hc & Hq); exists q; (split_and!; [done| |done]).
    + apply elem_of_app. by left.
    + apply elem_of_app in Hc as [?|[= -> ->]%list_elem_of_singleton]; done.
Qed.

Lemma add_request_inv fr re reqs chunks p b :
  p ∉ reqs → transfer_inv fr re reqs chunks b →
  transfer_inv fr re (reqs ++ [p]) chunks (set_reqs (chunkReqs b ++ [makekey fr re p]) b).
Proof.
  intros Hp [T1 T2 T3 T4].
  assert (p ∉ (echoed b).*1) as Hs by (intros ([q e] & -> & Hq)%list_elem_of_fmap; by apply T3 in Hq as [_ ?]).
  constructor; [|done| |done].
  - cbn [set_reqs chunkReqs]. change (echoed (set_reqs _ b)) with (echoed b).
    rewrite T1, list.filter_app, map_app, list.filter_cons_True by done. done.
  - intros q e Hq. destruct (T3 q e Hq). split; [done|]. apply elem_of_app. by left.
Qed.

Lemma file_run_inv {E} (A : Prop) fr fno re evs reqs chunks b :
  is_u32 fr → is_u32 re → Forall is_u64 reqs → Forall ev_ok evs →
  NoDup (reqs ++ requests_of evs) → NoDup (chunks.*1 ++ (chunks_of evs).*1) →
  default 0 (recvFiles b !! file_key fno fno) = re →
  transfer_inv fr re reqs chunks b → (A → accepting b ∧ met reqs chunks b) →
  ∃ b', @file_run E fr fno re evs b = Ret b' ∧
    transfer_inv fr re (reqs ++ requests_of evs) (chunks ++ chunks_of evs) b' ∧
    (A → met (reqs ++ requests_of evs) (chunks ++ chunks_of evs) b').
Proof.
  intros Hfr Hre. revert reqs chunks b.
  induction evs as [|[p d|p n] evs IH]; intros reqs chunks b Hu Hok Hnr Hnc Hre0 Hi Hm; cbn [file_run].
  { exists b. rewrite !app_nil_r. split_and!; [done|done|]. intros HA. by apply Hm. }
  all: apply list.Forall_cons in Hok as [[Hp Hx] Hok]; cbn [file_step].
  - change (requests_of (_ :: evs)) with (requests_of evs) in *.
    change (chunks_of (_ :: evs)) with ((p, d) :: chunks_of evs) in *. cbn [fmap list_fmap fst] in Hnc.
    assert (p ∉ chunks.*1) as Hpc by (apply list.NoDup_app in Hnc as (_ & Hd & _); intros Hc; apply (Hd p Hc); left).
    destruct d as [|c d]; [done|]. unfold OnFileRecvChunk. rewrite Hre0.
    destruct (@trySendChunk_inv E fr re reqs (chunks ++ [(p, c :: d)]) _ Hfr Hre Hu
      (add_chunk_inv fr re reqs chunks p (c :: d) b Hpc Hi)) as (b1 & -> & Hi1 & Hr1 & Ha1).
    rewrite bind_ret. destruct (IH reqs (chunks ++ [(p, c :: d)]) b1) as (b2 & -> & Hi2 & Hm2); try done.
    { rewrite fmap_app, <- app_assoc. done. }
    { by rewrite Hr1. }
    { intros HA. apply Ha1, Hm, HA. }
    rewrite <- app_assoc in *. by exists b2.
  - change (chunks_of (_ :: evs)) with (chunks_of evs) in *.
    change (requests_of (_ :: evs)) with (p :: requests_of evs) in *.
    assert (p ∉ reqs) as Hpr by (apply list.NoDup_app in Hnr as (_ & Hd & _); intros Hc; apply (Hd p Hc); left).
    unfold OnFileChunkRequest. destruct (n =? 0) eqn:En; zbool; [done|].
    assert (Forall is_u64 (reqs ++ [p])) as Hu' by (apply Forall_app; split; [done|by apply Forall_singleton]).
    destruct (@trySendChunk_inv E fr re (reqs ++ [p]) chunks _ Hfr Hre Hu'
      (add_request_inv fr re reqs chunks p b Hpr Hi)) as (b1 & -> & Hi1 & Hr1 & Ha1).
    rewrite bind_ret. destruct (IH (reqs ++ [p]) chunks b1) as (b2 & -> & Hi2 & Hm2); try done.
    { by rewrite <- app_assoc. }
    { by rewrite Hr1. }
    { intros HA. apply Ha1, Hm, HA. }
    rewrite <- app_assoc in *. by exists b2.
Qed.

(** Every chunk of a transfer goes to the friend, under the number of the file that is
    sent back. *)
Lemma file_run_directed {E} fr fno re evs : ∀ b b',
  default 0 (recvFiles b !! file_key fno fno) = re →
  Forall ev_ok evs → @file_run E fr fno re evs b = Ret b' → directed fr re b → directed fr re b'.
Proof.
  induction evs as [|ev evs IH]; intros b b' Hre Hok; cbn [file_run]; [by intros [= <-]|].
  apply list.Forall_cons in Hok as [Hev Hok].
  destruct (file_step fr fno re ev b) as [b1| |] eqn:E1; [|done..]. cbn [mbind outcome_bind].
  intros Hrun Hd. assert (directed fr re b1 ∧ recvFiles b1 = recvFiles b) as [Hd1 Hr1].
  { destruct ev as [p [|c d]|p n]; cbn [file_step] in E1; [by destruct Hev| |].
    - unfold OnFileRecvChunk in E1. rewrite Hre in E1.
      by destruct (trySendChunk_directed _ _ _ _ E1 Hd).
    - unfold OnFileChunkRequest in E1. destruct (n =? 0) eqn:En; zbool; [by destruct Hev|].
      by destruct (trySendChunk_directed _ _ _ _ E1 Hd). }
  apply (IH b1); [by rewrite Hr1|done..].
Qed.

Lemma new_transfer fr re b :
  chunkReqs b = [] → sendDatas b = ∅ → calls b = [] ∨ (∃ c, calls b = [c] ∧ echoed b = []) →
  transfer_inv fr re [] [] b.
Proof.
  intros Hr Hd Hc. assert (echoed b = []) as Hs by (destruct Hc as [Hc|(c & _ & Hc)]; [unfold echoed, sent; by rewrite Hc|done]).
  constructor; rewrite ?Hs, ?Hr, ?Hd; [done| |by intros p d ?%not_elem_of_nil|constructor].
  intros k d. rewrite lookup_empty. split; [done|]. by intros (p & _ & ?%not_elem_of_nil & _).
Qed.

Lemma chunk_unique (l : list (Z * bytes)) p d e : NoDup l.*1 → (p, d) ∈ l → (p, e) ∈ l → d = e.
Proof.
  intros Hn Hd He. apply (elem_of_list_to_map_1 (M := gmap Z)) in Hd; [|done].
  apply (elem_of_list_to_map_1 (M := gmap Z)) in He; [|done]. congruence.
Qed.

(** A transfer under another number than the one chunks are stored under *)
Record stalled (fr re : Z) (reqs : list Z) (b : bot) : Prop := {
  st_reqs : chunkReqs b = map (makekey fr re) reqs;
  st_datas k d : sendDatas b !! k = Some d → ∃ p, k = makekey fr 0 p ∧ is_u64 p;
  st_sent : echoed b = []
}.

Lemma stalled_send_loop {E} fr re n rs skeys b :
  is_u32 fr → is_u32 re → re ≠ 0 → Forall is_u64 rs →
  (∀ k d, sendDatas b !! k = Some d → ∃ p, k = makekey fr 0 p ∧ is_u64 p) →
  @send_loop E fr n (map (makekey fr re) rs) skeys b = Ret (skeys, b).
Proof.
  unfold is_u32. intros Hfr Hre Hz Hu Hd. induction rs as [|p rs IH]; cbn [map send_loop]; [done|].
  apply list.Forall_cons in Hu as [Hp Hu]. unfold is_u64 in Hp. rewrite key_pos_makekey, bind_ret by lia.
  destruct (sendDatas b !! makekey fr re p) as [d|] eqn:E'; [|by apply IH].
  apply Hd in E' as (q & Hk & Hq). unfold is_u64 in Hq. apply makekey_file in Hk as [? _]; [done|lia..].
Qed.

Lemma stalled_try {E} fr re n reqs b :
  is_u32 fr → is_u32 re → re ≠ 0 → Forall is_u64 reqs → stalled fr re reqs b →
  ∃ b', @trySendChunk E fr n b = Ret b' ∧ stalled fr re reqs b' ∧ recvFiles b' = recvFiles b.
Proof.
  intros Hfr Hre Hz Hu [S1 S2 S3]. unfold trySendChunk. rewrite S1. rewrite stalled_send_loop, bind_ret by done.
  eexists. split; [done|]. split; [|done]. constructor; [|done|done]. cbn [set_reqs chunkReqs].
  rewrite S1. clear. induction (map (makekey fr re) reqs) as [|k l IH]; [done|].
  rewrite list.filter_cons_True by apply not_elem_of_empty. by rewrite IH.
Qed.

Lemma stalled_run {E} fr fno re evs reqs b :
  is_u32 fr → is_u32 re → re ≠ 0 → Forall is_u64 reqs → Forall ev_ok evs →
  recvFiles b !! file_key fno fno = None → stalled fr re reqs b →
  ∃ b', @file_run E fr fno re evs b = Ret b' ∧ stalled fr re (reqs ++ requests_of evs) b'.
Proof.
  intros Hfr Hre Hz. revert reqs b. induction evs as [|[p d|p n] evs IH]; intros reqs b Hu Hok Hr Hs; cbn [file_run].
  { exists b. by rewrite app_nil_r. }
  all: apply list.Forall_cons in Hok as [[Hp Hx] Hok]; cbn [file_step].
  - destruct d as [|c d]; [done|]. unfold OnFileRecvChunk. rewrite Hr. cbn [default].
    destruct (@stalled_try E fr re 0 reqs (set_datas (<[makekey fr 0 p := c :: d]> (sendDatas b)) b) Hfr Hre Hz Hu)
      as (b1 & -> & Hs1 & Hr1).
    + destruct Hs as [S1 S2 S3]. constructor; [done| |done]. cbn [set_datas sendDatas]. intros k e [[<- _]|[_ Hk]]%lookup_insert_Some;
        [by exists p|by eapply S2].
    + rewrite bind_ret. apply IH; [done|done|by rewrite Hr1|done].
  - change (requests_of (_ :: evs)) with (p :: requests_of evs). unfold OnFileChunkRequest.
    destruct (n =? 0) eqn:En; zbool; [done|].
    assert (Forall is_u64 (reqs ++ [p])) as Hu' by (apply Forall_app; split; [done|by apply Forall_singleton]).
    destruct (@stalled_try E fr re re (reqs ++ [p]) (set_reqs (chunkReqs b ++ [makekey fr re p]) b) Hfr Hre Hz Hu')
      as (b1 & -> & Hs1 & Hr1).
    + destruct Hs as [S1 S2 S3]. constructor; [|done|done]. cbn [set_reqs chunkReqs]. by rewrite S1, map_app.
    + rewrite bind_ret. destruct (IH (reqs ++ [p]) b1 Hu' Hok) as (b2 & -> & Hs2); [by rewrite Hr1|done|].
      rewrite <- app_assoc in Hs2. by exists b2.
Qed.

(** ** Properties *)

(** C33: The first file of a friend is echoed to that friend, in a bot that serves
    nobody else meanwhile and has no chunk waiting from before.  The file that is sent
    back has the number 0, as the first file of a friend has.  Whatever the order in
    which its chunks arrive and are asked for, each position once, and whichever chunks
    the library refuses: no callback panics; every chunk that is sent goes to this
    friend under the number of this file, at most once, at its own position and only
    when it arrived and was asked for; the requests that wait are those not yet
    served, in order; and when the library refuses none, all the chunks that arrived
    and were asked for have been sent.  With a second friend this fails
    ([refused_chunk_misdelivered]), and for later files, too ([later_file_stalls]). *)
Theorem echo_transfer {E} fr fno kind size name res evs :
  is_u32 fr → Forall ev_ok evs → NoDup (requests_of evs) → NoDup (chunks_of evs).*1 →
  ∃ b out, @file_run E fr fno 0 evs (OnFileRecv fr fno kind size name 0 (NewEchoBot res)) = Ret b ∧
    sent b = map (λ '(p, d), (fr, 0, p, d)) out ∧ NoDup out.*1 ∧
    (∀ p d, (p, d) ∈ out → EvChunk p d ∈ evs ∧ p ∈ requests_of evs) ∧
    chunkReqs b = map (makekey fr 0) (filter (λ p, p ∉ out.*1) (requests_of evs)) ∧
    (Forall (.= true) res → ∀ p d, EvChunk p d ∈ evs → p ∈ requests_of evs → (p, d) ∈ out).
Proof.
  intros Hfr Hok Hnr Hnc. set (b0 := OnFileRecv _ _ _ _ _ _ _).
  assert (∀ p d, (p, d) ∈ chunks_of evs ↔ EvChunk p d ∈ evs) as Hch.
  { intros p d. unfold chunks_of. rewrite list_elem_of_omap. split.
    - intros ([q e|] & Hin & [= -> ->]). done.
    - intros Hin. by exists (EvChunk p d). }
  assert (default 0 (recvFiles b0 !! file_key fno fno) = 0) as Hr0.
  { unfold b0, OnFileRecv. cbn. destruct (decide (file_key fr fno = file_key fno fno)) as [->|Hk].
    + by rewrite lookup_insert_eq.
    + by rewrite lookup_insert_ne, lookup_empty. }
  destruct (@file_run_inv E (Forall (.= true) res) fr fno 0 evs [] [] b0)
    as (b & Hb & [T1 T2 T3 T4] & Hm); try done.
  - apply new_transfer; [done|done|right]. by eexists.
  - intros Ha. split; [done|]. by intros p d ?%not_elem_of_nil.
  - exists b, (echoed b). split_and!; [done| |done| |done|].
    + apply directed_sent, (@file_run_directed E fr fno 0 evs b0); [done..|]. by repeat constructor.
    + intros p d Hin. rewrite <- Hch. by apply T3.
    + intros Ha p d Hc Hp. rewrite <- Hch in Hc. specialize (Hm Ha p d Hp Hc).
      apply list_elem_of_fmap in Hm as ([q e] & -> & Hin). destruct (T3 q e Hin) as [Hc' _].
      cbn in *. by rewrite (chunk_unique _ _ _ _ Hnc Hc Hc').
Qed.

(** A file that is sent back under a number other than 0 is not echoed when the friend's
    number is not the number of the file: the chunks are looked up under the wrong key,
    so that no chunk is ever sent and the requests pile up. *)
Theorem later_file_stalls {E} fr fno kind size name re res evs :
  is_u32 fr → is_u32 fno → is_u32 re → fr ≠ fno → re ≠ 0 → Forall ev_ok evs →
  ∃ b, @file_run E fr fno re evs (OnFileRecv fr fno kind size name re (NewEchoBot res)) = Ret b ∧
    sent b = [] ∧ chunkReqs b = map (makekey fr re) (requests_of evs).
Proof.
  intros Hfr Hfno Hre Hne Hz Hok.
  destruct (@stalled_run E fr fno re evs [] (OnFileRecv fr fno kind size name re (NewEchoBot res)))
    as (b & Hb & [S1 _ S3]); try done.
  - cbn. rewrite lookup_insert_ne; [done|]. intros Hk. by apply file_key_inj in Hk as [? _].
  - exists b. split_and!; [done| |done]. by apply map_eq_nil in S3.
Qed.

(** The end of a transfer removes neither of its entries when the number of the file
    is not the friend's number. *)
Theorem finished_file_kept {E} fr re pos b b' :
  is_u32 fr → is_u32 re → fr ≠ re → @OnFileChunkRequest E fr re pos 0 b = Ret b' →
  sendFiles b' !! file_key fr re = sendFiles b !! file_key fr re ∧
  ∀ fno, is_u32 fno → is_u32 (default 0 (sendFiles b !! file_key re re)) →
    recvFiles b' !! file_key fr fno = recvFiles b !! file_key fr fno.
Proof.
  intros Hfr Hre Hne [= <-]. cbn [set_files sendFiles recvFiles]. split.
  - rewrite lookup_delete_ne; [done|]. intros Hk. by apply file_key_inj in Hk as [? _].
  - intros fno Hf Ho. rewrite lookup_delete_ne; [done|]. intros Hk. by apply file_key_inj in Hk as [? _].
Qed.

(** A chunk of one friend that the library refused is sent to the next friend for whom
    something happens, and is then gone. *)
Theorem refused_chunk_misdelivered :
  ∃ b, (b ← OnFileChunkRequest 1 0 0 5 (NewEchoBot [false]);
        b ← OnFileRecvChunk 1 65536 0 (str "alice") b;
        OnFileChunkRequest 2 0 0 5 b) = @Ret unit _ b ∧
    calls b = [FileSendChunk 1 0 0 (str "alice") false; FileSendChunk 2 0 0 (str "alice") true] ∧
    sendDatas b = ∅.
Proof. eexists. split; [vm_compute; reflexivity|]. split; reflexivity. Qed.

(** ** Witnesses *)

Definition toy_events : list file_ev :=
  [EvRequest 0 4; EvChunk 4 (str "efgh"); EvChunk 0 (str "abcd"); EvRequest 4 4; EvRequest 8 1].

Lemma echo_transfer_witness :
  ∃ b out, @file_run unit 3 65536 0 toy_events
      (OnFileRecv 3 65536 0 9 (str "f") 0 (NewEchoBot [true])) = Ret b ∧
    sent b = map (λ '(p, d), (3, 0, p, d)) out ∧ NoDup out.*1 ∧
    (∀ p d, (p, d) ∈ out → EvChunk p d ∈ toy_events ∧ p ∈ requests_of toy_events) ∧
    chunkReqs b = map (makekey 3 0) (filter (λ p, p ∉ out.*1) (requests_of toy_events)) ∧
    (Forall (.= true) [true] →
     ∀ p d, EvChunk p d ∈ toy_events → p ∈ requests_of toy_events → (p, d) ∈ out).
Proof.
  apply (@echo_transfer unit 3 65536 0 9 (str "f") [true] toy_events).
  - unfold is_u32. lia.
  - unfold toy_events. rewrite !list.Forall_cons. unfold ev_ok, is_u64. repeat split; done || lia || apply Forall_nil.
  - apply (bool_decide_unpack _). vm_compute. exact I.
  - apply (bool_decide_unpack _). vm_compute. exact I.
Defined.

Lemma toy_events_echoed :
  ∃ b, @file_run unit 3 65536 0 toy_events
      (OnFileRecv 3 65536 0 9 (str "f") 0 (NewEchoBot [true])) = Ret b ∧
    sent b = [(3, 0, 0, str "abcd"); (3, 0, 4, str "efgh")] ∧ chunkReqs b = [makekey 3 0 8].
Proof. eexists. split; [vm_compute; reflexivity|]. split; reflexivity. Qed.
