(* ===== verification/ToxInst.v ===== *)
(** * Setting up a tox instance (tbtunc/toxinst.go)

    [NewToxInst] and [Initilize]: the saved account is loaded, a TCP port is searched,
    name and status are set, friends are added, a new account is saved and the instance
    is bootstrapped.  The tox library and what it writes are behind an interface. *)

From S2P Require Import Prelude GoText.
Local Open Scope Z_scope.

(** ** The tox library *)

Abbreviation disk := (gmap bytes bytes).

Class ToxLib := {
  tox : Type;
  (** [tox.NewTox] with the TCP port and the saved data; [None] is nil *)
  NewTox : Z → option bytes → option tox;
  (** whether [tox.NewToxAV] succeeds *)
  NewToxAV : tox → bool;
  SelfGetAddress : tox → bytes;
  SelfGetName : tox → bytes;
  SelfSetName : bytes → tox → tox;
  SelfGetStatusMessage : tox → bytes;
  SelfSetStatusMessage : bytes → tox → tox;
  (** [SelfGetFriendList] with [FriendGetPublicKey] of each; [None] is an error *)
  SelfGetFriendList : tox → list (option bytes);
  FriendAddNorequest : bytes → tox → tox;
  FriendAdd : bytes → bytes → tox → tox;
  (** [WriteSavedata] to a path; [None] is an error *)
  GetSavedata : tox → bytes;
  WriteSavedata : bytes → tox → disk → option disk;
  Bootstrap : bytes → Z → bytes → tox → tox;
  AddTcpRelay : bytes → Z → bytes → tox → tox
}.

(** What is documented of it: an account is written whole and nowhere else, an instance
    made from saved data has the address of the account, and the calls that change an
    instance do not change its address. *)
Class ToxLibLaws (T : ToxLib) : Prop := {
  write_saves p t dk dk' : WriteSavedata p t dk = Some dk' → dk' = <[p := GetSavedata t]> dk;
  restored_address port t t' : NewTox port (Some (GetSavedata t)) = Some t' → SelfGetAddress t' = SelfGetAddress t;
  name_address n t : SelfGetAddress (SelfSetName n t) = SelfGetAddress t;
  status_address n t : SelfGetAddress (SelfSetStatusMessage n t) = SelfGetAddress t;
  norequest_address f t : SelfGetAddress (FriendAddNorequest f t) = SelfGetAddress t;
  add_address f m t : SelfGetAddress (FriendAdd f m t) = SelfGetAddress t;
  boot_address h p k t : SelfGetAddress (Bootstrap h p k t) = SelfGetAddress t;
  relay_address h p k t : SelfGetAddress (AddTcpRelay h p k t) = SelfGetAddress t
}.

(** ** Options and instances *)

Record Options := mkOptions {
  Tcp_port : Z;                       (* uint16 *)
  Savedata_data : option bytes;       (* nil is [None] *)
  AV_enabled : bool;
  ToxsaveFile : bytes;
  BootstrapFriends : list bytes;
  NickPrefix : bytes;
  StatusText : bytes
}.

Definition nickPrefix : bytes := str "TunsitcBot.".
Definition statusText : bytes := str "Send me text, file, audio, video.".

(** [port] is the port of [tox.NewToxOptions]. *)
Definition NewOptions (port : Z) : Options :=
  mkOptions (if port =? 0 then 33445 else port) None false (str "tox_save.data") [] nickPrefix statusText.

Definition set_port p o := mkOptions p (Savedata_data o) (AV_enabled o) (ToxsaveFile o) (BootstrapFriends o)
  (NickPrefix o) (StatusText o).
Definition set_savedata s o := mkOptions (Tcp_port o) s (AV_enabled o) (ToxsaveFile o) (BootstrapFriends o)
  (NickPrefix o) (StatusText o).

Definition server : list (bytes * Z * bytes) :=
  [(str "104.225.141.59", 33445, str "933BA20B2E258B4C0D475B6DECE90C7E827FE83EFA9655414E7841251B19A72C");
   (str "43.198.227.166", 3389, str "AD13AB0D434BCE6C83FE2649237183964AE3341D0AFB3BE1694B18505E4E135E");
   (str "3.0.24.15", 33445, str "E20ABCF38CDBFFD7D04B29C956B33F7B27A3BB7AF0618101617B036E4AEA402D")].

Inductive ti_err := ErrReadFile | ErrNoPort | ErrToxAV | ErrSave.

Section Inst.
Context `{ToxLib}.

(** [AV] tells whether there is an audio/video object. *)
Record ToxInst := mkInst { opts : Options; newToxsave : bool; TO : option tox; AV : bool }.

Definition NewToxInst (o : option Options) (port : Z) : ToxInst :=
  mkInst (match o with Some o => o | None => NewOptions port end) false None false.

(** [readable] tells whether reading an existing file succeeds. *)
Definition loadAccountData (readable : bytes → bool) (dk : disk) (ti : ToxInst) : outcome ti_err ToxInst :=
  match Savedata_data (opts ti) with
  | Some _ => Ret ti
  | None =>
      let path := ToxsaveFile (opts ti) in
      match dk !! path with
      | Some data =>
          if readable path
          then Ret (mkInst (set_savedata (Some data) (opts ti)) (newToxsave ti) (TO ti) (AV ti))
          else Fail ErrReadFile
      | None => Ret (mkInst (opts ti) true (TO ti) (AV ti))
      end
  end.

(** [for i := 0; i < 5; i++] *)
Fixpoint port_loop (n : nat) (o : Options) : Options * option tox :=
  match n with
  | O => (o, None)
  | S n =>
      match NewTox (Tcp_port o) (Savedata_data o) with
      | Some t => (o, Some t)
      | None => port_loop n (set_port (u16 (Tcp_port o + 1)) o)
      end
  end.

Definition selectTcpPort (ti : ToxInst) : outcome ti_err ToxInst :=
  let '(o, t) := port_loop 5 (opts ti) in
  match t with
  | None => Fail ErrNoPort
  | Some t =>
      if AV_enabled o
      then if NewToxAV t then Ret (mkInst o (newToxsave ti) (Some t) true) else Fail ErrToxAV
      else Ret (mkInst o (newToxsave ti) (Some t) (AV ti))
  end.

(** The methods that follow are called on the instance that was made. *)
Definition setupMyinfos (t : tox) : outcome ti_err tox :=
  p ← slice_to (SelfGetAddress t) 5;
  let humanName := nickPrefix ++ p in
  let t1 := if bool_decide (humanName ≠ SelfGetName t) then SelfSetName humanName t else t in
  Ret (if bool_decide (SelfGetStatusMessage t1 ≠ statusText) then SelfSetStatusMessage statusText t1 else t1).

Definition bootstrapFriends (o : Options) (t : tox) : tox :=
  let t1 := foldl (λ t f, match f with Some fid => FriendAddNorequest fid t | None => t end)
                  t (SelfGetFriendList t) in
  let reqmsg := str "hello from " ++ NickPrefix o in
  foldl (λ t frndid, FriendAdd frndid reqmsg t) t1 (BootstrapFriends o).

Definition prepareBootstrap (ti : ToxInst) (t : tox) (dk : disk) : outcome ti_err disk :=
  if newToxsave ti then
    match WriteSavedata (ToxsaveFile (opts ti)) t dk with
    | Some dk' => Ret dk'
    | None => Fail ErrSave
    end
  else Ret dk.

Definition bootstrapNodes (t : tox) : tox :=
  foldl (λ t s, let '(ip, port, pkey) := s in AddTcpRelay ip port pkey (Bootstrap ip port pkey t)) t server.

Definition Initilize (readable : bytes → bool) (dk : disk) (ti : ToxInst) : outcome ti_err (ToxInst * disk) :=
  ti ← loadAccountData readable dk ti;
  ti ← selectTcpPort ti;
  match TO ti with
  | None => Panic
  | Some t =>
      t ← setupMyinfos t;
      let t := bootstrapFriends (opts ti) t in
      dk ← prepareBootstrap ti t dk;
      Ret (mkInst (opts ti) (newToxsave ti) (Some (bootstrapNodes t)) (AV ti), dk)
  end.

(** ** Lemmas *)

Lemma port_loop_spec n o :
  let '(o', t) := port_loop n o in
  ∃ k, (k ≤ n)%nat ∧ Savedata_data o' = Savedata_data o ∧ ToxsaveFile o' = ToxsaveFile o ∧
    o' = Nat.iter k (λ o, set_port (u16 (Tcp_port o + 1)) o) o ∧
    (∀ j, (j < k)%nat → NewTox (Tcp_port (Nat.iter j (λ o, set_port (u16 (Tcp_port o + 1)) o) o)) (Savedata_data o) = None) ∧
    match t with
    | Some x => (k < n)%nat ∧ NewTox (Tcp_port o') (Savedata_data o) = Some x
    | None => k = n
    end.
Proof.
  revert o. induction n as [|n IH]; intros o; cbn [port_loop].
  { exists 0%nat. split_and!; try done. intros j Hj. lia. }
  destruct (NewTox (Tcp_port o) (Savedata_data o)) as [x|] eqn:E.
  { exists 0%nat. split_and!; try done; [lia|intros j Hj; lia|lia]. }
  set (o1 := set_port _ o). specialize (IH o1). destruct (port_loop n o1) as [o' t].
  destruct IH as (k & Hk & Hs & Hf & -> & Hj & Ht). exists (S k).
  assert (∀ j, Nat.iter j (λ o, set_port (u16 (Tcp_port o + 1)) o) o1 =
               Nat.iter (S j) (λ o, set_port (u16 (Tcp_port o + 1)) o) o) as Hi by (intros j; by rewrite Nat.iter_succ_r).
  split_and!; [lia|done|done|by rewrite <- Hi| |].
  - intros [|j] Hlt; [done|]. rewrite <- Hi. apply Hj. lia.
  - destruct t; [destruct Ht; split; [lia|done]|by rewrite Ht].
Qed.

Lemma iter_port j o :
  Tcp_port (Nat.iter j (λ o, set_port (u16 (Tcp_port o + 1)) o) o) =
    if decide (j = 0%nat) then Tcp_port o else u16 (Tcp_port o + Z.of_nat j).
Proof.
  destruct j as [|j]; [done|]. rewrite decide_False by done.
  induction j as [|j IH]; [done|]. rewrite Nat.iter_succ. cbn [set_port Tcp_port]. rewrite IH.
  unfold u16, wrap_u. rewrite Z.add_mod_idemp_l by done. f_equal. lia.
Qed.

End Inst.

Section Renamed.
Context `{ToxLib} (nick text : bytes).

Definition renamed (o : Options) : Options :=
  mkOptions (Tcp_port o) (Savedata_data o) (AV_enabled o) (ToxsaveFile o) (BootstrapFriends o) nick text.
Definition renamed_inst (ti : ToxInst) : ToxInst := mkInst (renamed (opts ti)) (newToxsave ti) (TO ti) (AV ti).

Lemma loadAccountData_renamed readable dk o ti :
  loadAccountData readable dk (NewToxInst (Some o) 0) = Ret ti →
  loadAccountData readable dk (NewToxInst (Some (renamed o)) 0) = Ret (renamed_inst ti).
Proof.
  unfold loadAccountData. cbn [opts NewToxInst renamed Savedata_data ToxsaveFile].
  destruct (Savedata_data o); [by intros [= <-]|]. destruct (dk !! ToxsaveFile o); [|by intros [= <-]].
  destruct (readable _); [by intros [= <-]|done].
Qed.

Lemma port_loop_renamed n o :
  port_loop n (renamed o) = (renamed (port_loop n o).1, (port_loop n o).2) ∧
  BootstrapFriends (port_loop n o).1 = BootstrapFriends o.
Proof.
  revert o. induction n as [|n IH]; intros o; [done|]. cbn [port_loop renamed Tcp_port Savedata_data].
  destruct (NewTox _ _); [done|]. by apply (IH (set_port _ o)).
Qed.

Lemma selectTcpPort_renamed ti ti' :
  selectTcpPort ti = Ret ti' →
  selectTcpPort (renamed_inst ti) = Ret (renamed_inst ti') ∧ BootstrapFriends (opts ti') = BootstrapFriends (opts ti).
Proof.
  unfold selectTcpPort. cbn [renamed_inst opts]. destruct (port_loop_renamed 5 (opts ti)) as [-> Hf].
  destruct (port_loop 5 (opts ti)) as [o [t|]]; [|done]. cbn [fst snd renamed AV_enabled] in *.
  destruct (AV_enabled o); [destruct (NewToxAV t); [|done]|]; by intros [= <-].
Qed.

End Renamed.

Section Address.
Context `{ToxLibLaws}.

Lemma foldl_address {A} (f : tox → A → tox) l t :
  (∀ t a, SelfGetAddress (f t a) = SelfGetAddress t) → SelfGetAddress (foldl f t l) = SelfGetAddress t.
Proof. intros Hf. revert t. induction l as [|a l IH]; intros t; [done|]. cbn [foldl]. by rewrite IH. Qed.

Lemma setupMyinfos_address t t' : setupMyinfos t = Ret t' → SelfGetAddress t' = SelfGetAddress t.
Proof.
  unfold setupMyinfos. intros Hs. apply bind_ret_inv in Hs as (p & _ & [= <-]).
  repeat case_bool_decide; rewrite ?status_address, ?name_address; done.
Qed.

Lemma bootstrapFriends_address o t : SelfGetAddress (bootstrapFriends o t) = SelfGetAddress t.
Proof.
  unfold bootstrapFriends. rewrite !foldl_address; [done|..].
  - intros x [f|]; [apply norequest_address|done].
  - intros. apply add_address.
Qed.

Lemma bootstrapNodes_address t : SelfGetAddress (bootstrapNodes t) = SelfGetAddress t.
Proof.
  apply foldl_address. intros x [[ip port] pkey]. by rewrite relay_address, boot_address.
Qed.

(** A successful set-up: the instance, the account that was saved and the file *)
Lemma Initilize_ret readable dk ti ti' dk' :
  Initilize readable dk ti = Ret (ti', dk') →
  ∃ ti1 k t0 t1 t', loadAccountData readable dk ti = Ret ti1 ∧
    NewTox (Tcp_port (Nat.iter k (λ o, set_port (u16 (Tcp_port o + 1)) o) (opts ti1))) (Savedata_data (opts ti1)) = Some t0 ∧
    SelfGetAddress t1 = SelfGetAddress t0 ∧ TO ti' = Some t' ∧ SelfGetAddress t' = SelfGetAddress t0 ∧
    dk' = if newToxsave ti1 then <[ToxsaveFile (opts ti1) := GetSavedata t1]> dk else dk.
Proof.
  unfold Initilize. intros Hi. apply bind_ret_inv in Hi as (ti1 & Hl & Hi).
  apply bind_ret_inv in Hi as (ti2 & Hs & Hi). unfold selectTcpPort in Hs.
  pose proof (port_loop_spec 5 (opts ti1)) as Hp. destruct (port_loop 5 (opts ti1)) as [o [t0|]]; [|done].
  destruct Hp as (k & _ & Hsd & Hf & Ho & _ & _ & Ht).
  assert (TO ti2 = Some t0 ∧ newToxsave ti2 = newToxsave ti1 ∧ opts ti2 = o) as (E1 & E2 & E3).
  { destruct (AV_enabled o); [destruct (NewToxAV t0); [|done]|]; by injection Hs as <-. }
  rewrite E1 in Hi. apply bind_ret_inv in Hi as (ts & Hm & Hi). apply bind_ret_inv in Hi as (dk1 & Hw & Hi).
  apply (inj Ret) in Hi. injection Hi as <- <-. apply setupMyinfos_address in Hm.
  exists ti1, k, t0, (bootstrapFriends (opts ti2) ts), (bootstrapNodes (bootstrapFriends (opts ti2) ts)).
  rewrite bootstrapNodes_address, bootstrapFriends_address. split_and!; try done; [by rewrite <- Ho|].
  unfold prepareBootstrap in Hw. rewrite E3 in *. rewrite E2, Hf in Hw. destruct (newToxsave ti1); [|by injection Hw as <-].
  destruct (WriteSavedata _ _ dk) as [x|] eqn:Ew; [|done]. injection Hw as <-. by apply write_saves in Ew.
Qed.

End Address.

(** ** Properties *)

(** An account survives a restart: the first set-up without a saved file writes the
    account to the file and nothing else to the disk; setting up again from that disk
    writes nothing, and the new instance has the address of the first. *)
Theorem restart_keeps_address `{ToxLibLaws} readable readable' dk o ti dk1 ti' dk2 :
  Savedata_data o = None → dk !! ToxsaveFile o = None →
  Initilize readable dk (NewToxInst (Some o) 0) = Ret (ti, dk1) →
  Initilize readable' dk1 (NewToxInst (Some o) 0) = Ret (ti', dk2) →
  (∃ data, dk1 = <[ToxsaveFile o := data]> dk) ∧ dk2 = dk1 ∧
  ∃ t t', TO ti = Some t ∧ TO ti' = Some t' ∧ SelfGetAddress t' = SelfGetAddress t.
Proof.
  intros Hs Hd H1 H2.
  apply Initilize_ret in H1 as (i1 & k1 & a & b & t & Hl1 & Ha & Hb & Ht & Hta & ->).
  unfold loadAccountData in Hl1. cbn [opts NewToxInst] in Hl1. rewrite Hs, Hd in Hl1. injection Hl1 as <-.
  cbn [newToxsave opts] in *.
  apply Initilize_ret in H2 as (i2 & k2 & c & d & t' & Hl2 & Hc & Hdd & Ht' & Htc & ->).
  unfold loadAccountData in Hl2. cbn [opts NewToxInst] in Hl2. rewrite Hs, lookup_insert_eq in Hl2.
  destruct (readable' _); [|done]. injection Hl2 as <-. cbn [newToxsave opts Savedata_data set_savedata] in *.
  split; [by eexists|]. split; [done|]. exists t, t'. split_and!; [done|done|].
  apply restored_address in Hc. congruence.
Qed.

(** The search for a port: the instance listens on the first of five consecutive ports
    that the library takes, and the set-up fails exactly when it takes none of them. *)
Theorem port_search `{ToxLib} ti :
  0 ≤ Tcp_port (opts ti) → Tcp_port (opts ti) + 4 < 2 ^ 16 → AV_enabled (opts ti) = false →
  let p := Tcp_port (opts ti) in
  match selectTcpPort ti with
  | Ret ti' => ∃ k t, 0 ≤ k < 5 ∧ Tcp_port (opts ti') = p + k ∧ TO ti' = Some t ∧
      NewTox (p + k) (Savedata_data (opts ti)) = Some t ∧
      ∀ j, 0 ≤ j < k → NewTox (p + j) (Savedata_data (opts ti)) = None
  | Fail e => e = ErrNoPort ∧ ∀ j, 0 ≤ j < 5 → NewTox (p + j) (Savedata_data (opts ti)) = None
  | Panic => False
  end.
Proof.
  intros H0 H4 Hav p. unfold selectTcpPort.
  pose proof (port_loop_spec 5 (opts ti)) as Hp. destruct (port_loop 5 (opts ti)) as [o t].
  destruct Hp as (k & Hk & Hsd & Hf & Ho & Hj & Ht).
  assert (∀ j, (j < 5)%nat → Tcp_port (Nat.iter j (λ o, set_port (u16 (Tcp_port o + 1)) o) (opts ti)) = p + Z.of_nat j) as Hpj.
  { intros j Hj5. rewrite iter_port. destruct (decide (j = 0%nat)) as [->|]; [lia|].
    unfold u16. apply wrap_u_small. lia. }
  assert (AV_enabled o = AV_enabled (opts ti)) as Ho2.
  { rewrite Ho. clear. induction k as [|k IH]; [done|]. rewrite Nat.iter_succ. exact IH. }
  assert (∀ m, (m ≤ 5)%nat → (∀ j, (j < m)%nat → NewTox (Tcp_port (Nat.iter j
      (λ o, set_port (u16 (Tcp_port o + 1)) o) (opts ti))) (Savedata_data (opts ti)) = None) →
    ∀ j, 0 ≤ j < Z.of_nat m → NewTox (p + j) (Savedata_data (opts ti)) = None) as Hnone.
  { intros m Hm Hx j Hr. specialize (Hx (Z.to_nat j)). rewrite Hpj, Z2Nat.id in Hx by lia. apply Hx. lia. }
  destruct t as [t|].
  - rewrite Ho2, Hav. destruct Ht as [Hk5 Ht]. exists (Z.of_nat k), t.
    rewrite Ho, Hpj in Ht by done. cbn [opts TO]. rewrite Ho at 1. rewrite Hpj by done.
    split_and!; [lia|lia|done|done|done|]. apply Hnone; [lia|done].
  - subst k. split; [done|]. apply (Hnone 5%nat); [lia|done].
Qed.

(** The options of the name and the status text are not used: the instance gets the
    constants of the package. *)
Theorem options_ignored `{ToxLib} readable dk o nick text ti dk' :
  BootstrapFriends o = [] → Initilize readable dk (NewToxInst (Some o) 0) = Ret (ti, dk') →
  ∃ ti', Initilize readable dk (NewToxInst (Some (renamed nick text o)) 0) = Ret (ti', dk') ∧ TO ti' = TO ti.
Proof.
  intros Hf Hi. unfold Initilize in *. apply bind_ret_inv in Hi as (t1 & Hl & Hi).
  apply bind_ret_inv in Hi as (t2 & Hs & Hi).
  assert (BootstrapFriends (opts t1) = []) as Hf1.
  { unfold loadAccountData in Hl. cbn [opts NewToxInst] in Hl. repeat case_match; by simplify_eq. }
  apply (loadAccountData_renamed nick text) in Hl as ->. rewrite bind_ret.
  destruct (selectTcpPort_renamed nick text t1 t2 Hs) as [-> Hf2]. rewrite bind_ret. cbn [renamed_inst TO opts].
  destruct (TO t2) as [t|]; [|done]. apply bind_ret_inv in Hi as (t3 & -> & Hi). rewrite bind_ret.
  unfold bootstrapFriends in *. cbn [renamed BootstrapFriends]. rewrite Hf2, Hf1 in *. cbn [foldl] in *.
  change (prepareBootstrap (renamed_inst nick text t2)) with (prepareBootstrap t2).
  apply bind_ret_inv in Hi as (dk1 & -> & Hi). rewrite bind_ret. apply (inj Ret) in Hi. injection Hi as <- <-.
  by eexists.
Qed.

(** ** A library with the laws *)

Module ToyTox.

(** An instance is its address; the first port is taken. *)
#[export] Instance toy_tox : ToxLib := {|
  tox := bytes;
  NewTox port sd := if port =? 33445 then None else Some (default (str "F404ABAA1C99A9D3") sd);
  NewToxAV t := true;
  SelfGetAddress t := t; SelfGetName t := []; SelfSetName n t := t;
  SelfGetStatusMessage t := []; SelfSetStatusMessage n t := t;
  SelfGetFriendList t := []; FriendAddNorequest f t := t; FriendAdd f m t := t;
  GetSavedata t := t; WriteSavedata p t dk := Some (<[p := t]> dk);
  Bootstrap h p k t := t; AddTcpRelay h p k t := t
|}.

#[export] Instance toy_tox_laws : ToxLibLaws toy_tox.
Proof.
  split; try done; cbn; [by intros p t dk dk' [= <-]|].
  intros port t t'. by destruct (port =? 33445); [|intros [= <-]].
Qed.

Definition first_run : outcome ti_err (ToxInst * disk) :=
  Eval vm_compute in Initilize (λ _, true) ∅ (NewToxInst (Some (NewOptions 0)) 0).
Definition first_inst : ToxInst := match first_run with Ret (ti, _) => ti | _ => NewToxInst None 0 end.
Definition first_disk : disk := match first_run with Ret (_, dk) => dk | _ => ∅ end.
Definition second_run : outcome ti_err (ToxInst * disk) :=
  Eval vm_compute in Initilize (λ _, true) first_disk (NewToxInst (Some (NewOptions 0)) 0).
Definition second_inst : ToxInst := match second_run with Ret (ti, _) => ti | _ => NewToxInst None 0 end.

Lemma first_run_eq :
  Initilize (λ _, true) ∅ (NewToxInst (Some (NewOptions 0)) 0) = Ret (first_inst, first_disk).
Proof. reflexivity. Qed.

Lemma second_run_eq :
  Initilize (λ _, true) first_disk (NewToxInst (Some (NewOptions 0)) 0) = Ret (second_inst, first_disk).
Proof. reflexivity. Qed.

Lemma restart_keeps_address_witness :
  (∃ data, first_disk = <[ToxsaveFile (NewOptions 0) := data]> ∅) ∧ first_disk = first_disk ∧
  ∃ t t', TO first_inst = Some t ∧ TO second_inst = Some t' ∧ SelfGetAddress t' = SelfGetAddress t.
Proof.
  apply (restart_keeps_address (λ _, true) (λ _, true) ∅ (NewOptions 0) first_inst first_disk second_inst first_disk);
    [reflexivity|reflexivity|exact first_run_eq|exact second_run_eq].
Defined.

End ToyTox.
