(* ===== verification/XToxNew.v ===== *)
(** * Making an instance and finding things in it (xtox/xtox.go, externs.go)

    [New] with its search for a port and its account file, on the interface [ToxLib] of
    ToxInst.v, and the readers of externs.go that search the conferences and friends of
    the library.  What the library answers is an argument of the readers. *)

From S2P Require Import Prelude GoText ToxInst.
Local Open Scope Z_scope.

(** ** New *)

Record ToxContext := mkContext { SaveFile : bytes; NickName : bytes; StatusMessage : bytes; ForceSet : bool }.

Definition NewToxContext (file nick status : bytes) : ToxContext := mkContext file nick status false.

Section New.
Context `{ToxLib}.

(** [for port := 33445 + 5; port < 65536; port++] *)
Fixpoint try_ports (n : nat) (port : Z) (sd : option bytes) : option (tox * Z) :=
  match n with
  | O => None
  | S n =>
      match NewTox port sd with
      | Some t => Some (t, port)
      | None => try_ports n (port + 1) sd
      end
  end.

Definition first_port : Z := 33445 + 5.

(** An error of reading the file is only logged. *)
Definition load_save (readable : bytes → bool) (dk : disk) (path : bytes) : option bytes :=
  match dk !! path with
  | Some bcc => if readable path then Some bcc else None
  | None => None
  end.

Definition tryNew (readable : bytes → bool) (dk : disk) (ctx : ToxContext) : option (tox * Z) :=
  try_ports (Z.to_nat (65536 - first_port)) first_port (load_save readable dk (SaveFile ctx)).

(** The instance with its port and the disk; an error of writing is only logged. *)
Definition xtox_New (readable : bytes → bool) (dk : disk) (ctx : ToxContext) : option (tox * Z * disk) :=
  match tryNew readable dk ctx with
  | None => None
  | Some (t, port) =>
      let t1 := if bool_decide (SelfGetName t = []) || ForceSet ctx
                then SelfSetStatusMessage (StatusMessage ctx) (SelfSetName (NickName ctx) t) else t in
      Some (t1, port, default dk (WriteSavedata (SaveFile ctx) t1 dk))
  end.

End New.

(** ** Conferences *)

(** [chatlist] is [ConferenceGetChatlist], [title] is [ConferenceGetTitle] ([None] is an
    error), [names] and [peers] are [ConferenceGetNames] and [ConferenceGetPeers]. *)

Section Conferences.
Context (chatlist : list Z) (title : Z → option bytes) (names : Z → list bytes) (peers : Z → gmap Z bytes).

Definition ConferenceAllTitles : gmap Z bytes :=
  foldl (λ ret cid, match title cid with Some t => <[cid := t]> ret | None => ret end) ∅ chatlist.

Fixpoint find_title (t : bytes) (cids : list Z) : Z * bool :=
  match cids with
  | [] => (2 ^ 32 - 1, false)
  | cid :: cids => if bool_decide (title cid = Some t) then (cid, true) else find_title t cids
  end.

Definition ConferenceFind (t : bytes) : Z * bool := find_title t chatlist.

Definition ConferenceFindAll (t : bytes) : list Z * bool :=
  let gns := filter (λ cid, title cid = Some t) chatlist in
  (gns, negb (bool_decide (gns = []))).

(** The position of a name in the list of names is taken for a peer number; the search
    ends at the first conference with the name. *)
Fixpoint find_peer (name : bytes) (cids : list Z) : bytes * bool :=
  match cids with
  | [] => ([], false)
  | cid :: cids =>
      match list_find (.= name) (names cid) with
      | None => find_peer name cids
      | Some (foundIndex, _) =>
          match peers cid !! u32 (Z.of_nat foundIndex) with
          | Some pubkey => (pubkey, true)
          | None => ([], false)
          end
      end
  end.

Definition ConferenceFindPeer (name : bytes) : bytes * bool := find_peer name chatlist.

End Conferences.

(** [strings.HasPrefix(t.SelfGetAddress(), peerPubkey)] *)
Definition IsSelfGroupMessage (address : bytes) (peerPubkey : option bytes) : bool :=
  match peerPubkey with None => false | Some pk => HasPrefix pk address end.

(** What [ConferenceJoin] does with the invitation: it joins audio/video ([true]) or
    text; a cookie of less than six bytes panics. *)
Definition CONFERENCE_TYPE_AV : Z := 1.

Definition ConferenceJoin {E} (itype : Z) (cookie : bytes) : outcome E bool :=
  b ← index cookie 5;
  Ret ((bz b =? 49) && (itype =? CONFERENCE_TYPE_AV)).

(** ** Friends

    [exist] are the numbers of the friends ([FriendExists]); the loops stop at the first
    number that is none. *)

Section Friends.
Context (exist : gset Z).

Fixpoint friends_from (fuel : nat) (fn : Z) : list Z :=
  match fuel with
  | O => []
  | S fuel =>
      if bool_decide (fn < 2 ^ 32 - 1) && bool_decide (fn ∈ exist) then fn :: friends_from fuel (fn + 1) else []
  end.

Definition GetAllFriendList : list Z := friends_from (S (size exist)) 0.

Definition CountFriend : Z := zlen GetAllFriendList.

(** [name] and [pubkey] are [FriendGetName] and [FriendGetPublicKey]; [None] is an error. *)
Fixpoint find_friend (name pubkey : Z → option bytes) (n : bytes) (fuel : nat) (i : Z) : bytes * bool :=
  match fuel with
  | O => ([], false)
  | S fuel =>
      if bool_decide (i ∈ exist) then
        if bool_decide (name i = Some n) then (default [] (pubkey i), true)
        else find_friend name pubkey n fuel (i + 1)
      else ([], false)
  end.

Definition FindFriendByName (name pubkey : Z → option bytes) (n : bytes) : bytes * bool :=
  find_friend name pubkey n 256 0.

End Friends.

(** ** Lemmas *)

Lemma try_ports_spec `{ToxLib} n port sd t p :
  try_ports n port sd = Some (t, p) →
  port ≤ p < port + Z.of_nat n ∧ NewTox p sd = Some t ∧ ∀ q, port ≤ q < p → NewTox q sd = None.
Proof.
  revert port. induction n as [|n IH]; intros port; cbn [try_ports]; [done|].
  destruct (NewTox port sd) as [x|] eqn:E.
  { intros [= -> ->]. split_and!; [lia|lia|done|intros; lia]. }
  intros (Hp & Ht & Hq)%IH. split_and!; [lia|lia|done|]. intros q Hr.
  destruct (decide (q = port)) as [->|]; [done|]. apply Hq. lia.
Qed.

(** What [New] makes: from which saved data, and what is written *)
Lemma xtox_New_made `{ToxLibLaws} readable dk ctx t port dk' :
  xtox_New readable dk ctx = Some (t, port, dk') →
  first_port ≤ port < 65536 ∧
  (∃ t0 : tox, NewTox port (load_save readable dk (SaveFile ctx)) = Some t0 ∧ SelfGetAddress t = SelfGetAddress t0) ∧
  (∀ q, first_port ≤ q < port → NewTox q (load_save readable dk (SaveFile ctx)) = None) ∧
  (WriteSavedata (SaveFile ctx) t dk = None ∧ dk' = dk ∨ dk' = <[SaveFile ctx := GetSavedata t]> dk).
Proof.
  unfold xtox_New, tryNew. destruct (try_ports _ _ _) as [[t0 p]|] eqn:E; [|done].
  apply try_ports_spec in E as (Hp & Ht & Hq). set (t1 := if bool_decide (SelfGetName t0 = []) || ForceSet ctx then _ else t0). intros [= <- <- <-].
  rewrite Z2Nat.id in Hp by (unfold first_port; lia). split_and!; [lia|lia| |done|].
  - exists t0. split; [done|]. unfold t1. destruct (_ || _); [|done]. by rewrite status_address, name_address.
  - destruct (WriteSavedata (SaveFile ctx) t1 dk) as [x|] eqn:Ew; [right|left; done].
    by apply write_saves in Ew.
Qed.

Lemma friends_from_spec exist fuel fn :
  ∃ k, (k ≤ fuel)%nat ∧ friends_from exist fuel fn = seqZ fn (Z.of_nat k) ∧
    (∀ i, fn ≤ i < fn + Z.of_nat k → i ∈ exist) ∧
    (k = fuel ∨ 2 ^ 32 - 1 ≤ fn + Z.of_nat k ∨ fn + Z.of_nat k ∉ exist).
Proof.
  revert fn. induction fuel as [|fuel IH]; intros fn; cbn [friends_from].
  { exists 0%nat. split_and!; [lia|done|intros; lia|by left]. }
  destruct (bool_decide (fn < 2 ^ 32 - 1)) eqn:E1; cbn [andb].
  2: { apply bool_decide_eq_false in E1. exists 0%nat. split_and!; [lia|done|intros; lia|right; left; lia]. }
  destruct (bool_decide (fn ∈ exist)) eqn:E2.
  2: { apply bool_decide_eq_false in E2. exists 0%nat. split_and!; [lia|done|intros; lia|].
       right. right. by rewrite Z.add_0_r. }
  apply bool_decide_eq_true in E2. destruct (IH (fn + 1)) as (k & Hk & -> & Hin & Hend). exists (S k).
  split_and!; [lia| | |].
  - rewrite (seqZ_cons fn (Z.of_nat (S k))) by lia. f_equal. f_equal; lia.
  - intros i Hi. destruct (decide (i = fn)) as [->|]; [done|]. apply Hin. lia.
  - replace (fn + Z.of_nat (S k)) with (fn + 1 + Z.of_nat k) by lia. destruct Hend as [->|?]; [by left|by right].
Qed.

Lemma numbers_below (exist : gset Z) k :
  (∀ i, 0 ≤ i < Z.of_nat k → i ∈ exist) → (k ≤ size exist)%nat.
Proof.
  intros Hin. assert (list_to_set (seqZ 0 (Z.of_nat k)) ⊆ exist) as Hs.
  { intros i. rewrite elem_of_list_to_set, elem_of_seqZ. intros Hi. apply Hin. lia. }
  apply subseteq_size in Hs. rewrite size_list_to_set in Hs by apply NoDup_seqZ.
  rewrite length_seqZ, Nat2Z.id in Hs. done.
Qed.

(** ** Properties *)

(** An account that can be read is taken over: the instance has its address, listens
    on the first port from 33450 that the library takes, and what is in the file
    afterwards is the account of that address; nothing else is written. *)
Theorem account_taken_over `{ToxLibLaws} readable dk ctx acct t port dk' :
  dk !! SaveFile ctx = Some (GetSavedata acct) → readable (SaveFile ctx) = true →
  xtox_New readable dk ctx = Some (t, port, dk') →
  SelfGetAddress t = SelfGetAddress acct ∧ 33450 ≤ port < 65536 ∧
  (∀ q, 33450 ≤ q < port → NewTox q (Some (GetSavedata acct)) = None) ∧
  (∃ saved : tox, dk' = <[SaveFile ctx := GetSavedata saved]> dk ∧ SelfGetAddress saved = SelfGetAddress acct).
Proof.
  intros Hd Hr (Hp & (t0 & Ht & Ha) & Hq & Hw)%xtox_New_made. unfold load_save in *. rewrite Hd, Hr in *.
  apply restored_address in Ht. unfold first_port in *. split_and!; [congruence|lia|lia|exact Hq|].
  destruct Hw as [[_ ->]| ->].
  - exists acct. by rewrite insert_id.
  - exists t. split; [done|congruence].
Qed.

(** An account that exists but cannot be read is replaced: a new account is made and
    written over it. *)
Theorem unreadable_account_lost `{ToxLibLaws} readable dk ctx t port dk' :
  readable (SaveFile ctx) = false → xtox_New readable dk ctx = Some (t, port, dk') →
  WriteSavedata (SaveFile ctx) t dk ≠ None →
  (∃ t0 : tox, NewTox port None = Some t0 ∧ SelfGetAddress t = SelfGetAddress t0) ∧
  dk' !! SaveFile ctx = Some (GetSavedata t).
Proof.
  intros Hr (Hp & (t0 & Ht & Ha) & Hq & Hw)%xtox_New_made Hok.
  assert (load_save readable dk (SaveFile ctx) = None) as Hl.
  { unfold load_save. rewrite Hr. by destruct (dk !! _). }
  rewrite Hl in *. split; [by exists t0|]. destruct Hw as [[? _]| ->]; [done|]. apply lookup_insert_eq.
Qed.

(** The friends that are listed are the numbers from 0 to the first that is none (or to
    the end of the 32-bit range), and the loops end. *)
Theorem friends_listed exist :
  ∃ k, GetAllFriendList exist = seqZ 0 k ∧ CountFriend exist = k ∧ 0 ≤ k ∧
    (∀ i, 0 ≤ i < k → i ∈ exist) ∧ (k ∉ exist ∨ 2 ^ 32 - 1 ≤ k).
Proof.
  unfold CountFriend, GetAllFriendList.
  destruct (friends_from_spec exist (S (size exist)) 0) as (k & Hk & -> & Hin & Hend).
  exists (Z.of_nat k). split_and!; [done| |lia|exact Hin|].
  - unfold zlen. rewrite length_seqZ. lia.
  - pose proof (numbers_below exist k Hin). destruct Hend as [->|[?|?]]; [lia|right; lia|by left].
Qed.

(** A friend whose number is above a number that was freed is not found. *)
Theorem friend_after_gap_missed exist g f :
  0 ≤ g < f → g ∉ exist → f ∉ GetAllFriendList exist.
Proof.
  intros Hg Hn. unfold GetAllFriendList.
  destruct (friends_from_spec exist (S (size exist)) 0) as (k & Hk & -> & Hin & Hend).
  rewrite elem_of_seqZ. intros Hf. apply Hn, Hin. lia.
Qed.

(** [ConferenceFind] gives the first of the conferences that [ConferenceFindAll] gives,
    and both find nothing exactly together. *)
Theorem conference_find_first chatlist title t :
  ConferenceFind chatlist title t =
    match (ConferenceFindAll chatlist title t).1 with [] => (2 ^ 32 - 1, false) | cid :: _ => (cid, true) end ∧
  (ConferenceFind chatlist title t).2 = (ConferenceFindAll chatlist title t).2.
Proof.
  unfold ConferenceFind, ConferenceFindAll. cbn [fst snd].
  assert (find_title title t chatlist = match filter (λ cid, title cid = Some t) chatlist with
    [] => (2 ^ 32 - 1, false) | cid :: _ => (cid, true) end) as ->.
  { induction chatlist as [|c l IH]; [done|]. cbn [find_title]. case_bool_decide as E.
    - by rewrite list.filter_cons_True.
    - by rewrite list.filter_cons_False. }
  by destruct (filter _ chatlist).
Qed.

(** ** Witnesses *)

Import ToyTox.

Definition some_ctx : ToxContext := NewToxContext (str "a.tox") (str "me") (str "here").
Definition some_acct : @tox toy_tox := str "0123456789ABCDEF".
Definition some_disk : disk := {[ str "a.tox" := GetSavedata some_acct ]}.

Lemma account_taken_over_witness :
  SelfGetAddress some_acct = SelfGetAddress some_acct ∧ 33450 ≤ 33450 < 65536 ∧
  (∀ q, 33450 ≤ q < 33450 → NewTox q (Some (GetSavedata some_acct)) = None) ∧
  (∃ saved : tox, some_disk = <[SaveFile some_ctx := GetSavedata saved]> some_disk ∧
     SelfGetAddress saved = SelfGetAddress some_acct).
Proof.
  apply (account_taken_over (λ _, true) some_disk some_ctx some_acct some_acct 33450 some_disk);
    reflexivity.
Defined.
