(* ===== verification/CryptoCore.v ===== *)
(** * The two crypto back ends of mintox (mintox/crypto_core0.go, crypto_core1.go, crypto_core2.go)

    [crypto_core1.go] calls libsodium through cgo and [crypto_core2.go], modelled in Nonce.v
    and Box.v, a pure Go library; [crypto_core0.go] selects one of them by a constant.
    Modelled here: the libsodium wrappers with the zero padding of that interface, the
    remaining wrappers of the pure Go branch, the selection, and the key and nonce types.
    libsodium is the class [Sodium]; its laws relate it to the NaCl box of Box.v, as both
    libraries document the same primitives.  The draws of random bytes are arguments. *)

From S2P Require Import Prelude Nonce GoIO Box.
From S2P Require Import GoText.
Local Open Scope Z_scope.

Import Box.Mintox.

(** ** Keys and nonces (crypto_core0.go) *)

(** [bytes.Compare] *)
Fixpoint Compare (a b : bytes) : Z :=
  match a, b with
  | [], [] => 0
  | [], _ :: _ => -1
  | _ :: _, [] => 1
  | x :: a', y :: b' => if bz x <? bz y then -1 else if bz y <? bz x then 1 else Compare a' b'
  end.

Definition Equal (this that : bytes) : bool :=
  bool_decide (length this = length that) && (Compare this that =? 0).

Definition ToHex20 {E} (this : bytes) : outcome E bytes := slice_to (map to_upper (hexEncode this)) 20.

Section Keys.
Context `{Gopp}.

Definition Dup {E} (this : bytes) : outcome E bytes := NewCryptoKey this.

(** [cbsupport.CheckSize] panics unless the size is right. *)
Definition NewCBNonce {E} (nonce : bytes) : outcome E bytes :=
  if bool_decide (length nonce = NONCE_SIZE) then Ret nonce else Panic.

End Keys.

(** ** libsodium *)

(** The documented constants *)
Definition CryptoBoxZeroBytes : nat := 32.
Definition CryptoBoxBoxZeroBytes : nat := 16.
Definition CryptoBoxMacBytes : nat := 16.
Definition CryptoBoxNonceBytes : nat := 24.
Definition CryptoBoxPublicKeyBytes : nat := 32.

Class Sodium := {
  (** [sodium_increment]: the buffer after the call *)
  sodium_increment : bytes → bytes;
  (** [CryptoBoxBeforeNm(pk, sk)], [CryptoBoxAfterNm(m, n, k)] and
      [CryptoBoxOpenAfterNm(c, n, k)]: the output buffer and the exit code *)
  sodium_beforenm : bytes → bytes → bytes * Z;
  sodium_afternm : bytes → bytes → bytes → bytes * Z;
  sodium_open_afternm : bytes → bytes → bytes → bytes * Z;
  (** [crypto_scalarmult_curve25519_base] *)
  sodium_base : bytes → bytes;
  (** the public keys of small order, which [crypto_scalarmult_curve25519] refuses *)
  small_order : bytes → bool
}.

(** Documented behaviour: the increment is that of a little-endian number; the box
    functions take a message after 32 zero bytes and a ciphertext after 16, compute
    the NaCl box, and return 0 or, for a forgery, -1; the output is as long as the input.
    [crypto_box_beforenm] computes the key of the NaCl box, or returns -1 for a public
    key of small order. *)
Class SodiumLaws (B : NaclBox) (S : Sodium) : Prop := {
  increment_le l :
    length (sodium_increment l) = length l ∧
    le_val (sodium_increment l) = (le_val l + 1) mod 256 ^ zlen l;
  beforenm_box p s :
    length p = KeySize → length s = KeySize →
    if small_order p then ∃ buf, length buf = KeySize ∧ sodium_beforenm p s = (buf, -1)
    else sodium_beforenm p s = (box_precompute p s, 0);
  afternm_box m n k :
    length n = 24%nat → length k = 32%nat →
    sodium_afternm (make_bytes CryptoBoxZeroBytes ++ m) n k =
      (make_bytes CryptoBoxBoxZeroBytes ++ box_seal m n k, 0);
  open_afternm_box c n k :
    length n = 24%nat → length k = 32%nat →
    let '(out, iret) := sodium_open_afternm (make_bytes CryptoBoxBoxZeroBytes ++ c) n k in
    length out = (CryptoBoxBoxZeroBytes + length c)%nat ∧
    match box_open c n k with
    | Some m => iret = 0 ∧ out = make_bytes CryptoBoxZeroBytes ++ m
    | None => iret = -1
    end;
  sodium_base_box s : length s = KeySize → sodium_base s = scalar_base s
}.

(** ** crypto_core1.go *)

Section Sodium1.
Context `{Sodium} `{Gopp}.

Inductive crypt1_err : Type := ErrCryptobox (iret : Z).

Definition cbiret2err1 (iret : Z) : option crypt1_err :=
  if iret =? 0 then None else Some (ErrCryptobox iret).

(** [draw] is what [cryptobox.CryptoBoxKeyPair()] returns: secret key, public key, code. *)
Definition NewCBKeyPair1 {E} (draw : bytes * bytes * Z) : outcome E (bytes * bytes * option crypt1_err) :=
  let '(seckey, pubkey, iret) := draw in
  pk ← NewCryptoKey pubkey; sk ← NewCryptoKey seckey; Ret (pk, sk, cbiret2err1 iret).

(** [buf] is what [randombytes.RandomBytes] returns; [&buf[0]] *)
Definition CBRandomNonce1 {E} (buf : bytes) : outcome E bytes :=
  _ ← index buf 0; Ret buf.

(** [gopp.BytesReverse] reverses in place. *)
Definition Incr1 {E} (arr : bytes) : outcome E bytes :=
  let a := reverse arr in
  _ ← index a 0;
  Ret (reverse (sodium_increment a)).

Definition Incrn1 {E} (n : Z) (arr : bytes) : outcome E bytes :=
  let a := reverse arr in
  _ ← index a 0;
  Ret (reverse (Nat.iter (Z.to_nat n) sodium_increment a)).

Definition CBRandomBytes1 (draw : bytes) : bytes := draw.

(** The buffer [buf] of random bytes is overwritten. *)
Definition CBDerivePubkey1 {E} (seckey buf : bytes) : outcome E bytes :=
  _ ← index buf 0; _ ← index seckey 0;
  NewCryptoKey (copy_into buf (sodium_base seckey)).

Definition CBBeforeNm1 {E} (pk sk : bytes) : outcome E (bytes * option crypt1_err) :=
  let '(keybin, iret) := sodium_beforenm pk sk in
  k ← NewCryptoKey keybin; Ret (k, cbiret2err1 iret).

Definition CBAfterNm1 (seckey nonce plain : bytes) : bytes * option crypt1_err :=
  let '(encrypted, iret) := sodium_afternm plain nonce seckey in (encrypted, cbiret2err1 iret).

Definition CBOpenAfterNm1 (seckey nonce encrypted : bytes) : bytes * option crypt1_err :=
  let '(plain, iret) := sodium_open_afternm encrypted nonce seckey in (plain, cbiret2err1 iret).

Definition EncryptDataSymmetric1 (seckey nonce plain : bytes) : outcome crypt1_err bytes :=
  let temp := make_bytes (length plain + CryptoBoxZeroBytes) in
  let temp_plain := copy_at CryptoBoxZeroBytes temp plain in
  _ ← Assert (bool_decide (Nat.min (length temp - CryptoBoxZeroBytes) (length plain) = length plain));
  let '(encrypted, err) := CBAfterNm1 seckey nonce temp_plain in
  match err with
  | Some e => Fail e
  | None =>
      encrypted ← slice_from encrypted CryptoBoxBoxZeroBytes;
      _ ← Assert (bool_decide (length encrypted = length plain + CryptoBoxMacBytes)%nat);
      Ret encrypted
  end.

Definition DecryptDataSymmetric1 (seckey nonce encrypted : bytes) : outcome crypt1_err bytes :=
  let temp_encrypted :=
    copy_at CryptoBoxBoxZeroBytes (make_bytes (length encrypted + CryptoBoxBoxZeroBytes)) encrypted in
  let '(plain, err) := CBOpenAfterNm1 seckey nonce temp_encrypted in
  plain ← slice_from plain CryptoBoxZeroBytes;
  _ ← Assert (zlen plain =? zlen encrypted - Z.of_nat CryptoBoxMacBytes);
  match err with
  | Some e => Fail e
  | None => Ret plain
  end.

End Sodium1.

(** ** The rest of crypto_core2.go *)

Section Pure2.
Context `{NaclBox} `{Gopp}.

(** [draw] is what [box.GenerateKey] returns: public key, secret key, error. *)
Definition NewCBKeyPair2 {E} (draw : bytes * bytes * option io_err) : outcome E (bytes * bytes * option io_err) :=
  let '(pubkey, seckey, err) := draw in
  pk ← NewCryptoKey pubkey; sk ← NewCryptoKey seckey; Ret (pk, sk, err).

(** [&buf[0]] *)
Definition CBDerivePubkey2 {E} (seckey : bytes) : outcome E bytes :=
  _ ← index seckey 0; NewCryptoKey (scalar_base seckey).

(** [buf] is the nonce [nacl.NewNonce] returns. *)
Definition CBRandomNonce2 {E} (buf : bytes) : outcome E bytes :=
  _ ← index buf 0; Ret buf.

Definition CBRandomBytes2 (n : nat) (draw : bytes) : bytes := copy_into (make_bytes n) draw.

End Pure2.

(** ** The selection (crypto_core0.go) *)

Section Select.
Context `{NaclBox} `{Sodium} `{Gopp}.

(** The back end is a constant of the program; both are given here. *)
Context (pure : bool).

Inductive crypt0_err : Type := Pure (e : crypt_err) | Cgo (e : crypt1_err).

Definition CBDerivePubkey {E} (seckey buf : bytes) : outcome E bytes :=
  if pure then CBDerivePubkey2 seckey else CBDerivePubkey1 seckey buf.

Definition CBBeforeNm {E} (pk sk : bytes) : outcome E (bytes * option crypt1_err) :=
  if pure then k ← CBBeforeNm2 pk sk; Ret (k, None) else CBBeforeNm1 pk sk.

Definition CBAfterNm (seckey nonce plain : bytes) : bytes * option crypt0_err :=
  if pure then let '(c, e) := CBAfterNm2 seckey nonce plain in (c, Pure <$> e)
  else let '(c, e) := CBAfterNm1 seckey nonce plain in (c, Cgo <$> e).

Definition CBOpenAfterNm (seckey nonce encrypted : bytes) : bytes * option crypt0_err :=
  if pure then let '(p, e) := CBOpenAfterNm2 seckey nonce encrypted in (p, Pure <$> e)
  else let '(p, e) := CBOpenAfterNm1 seckey nonce encrypted in (p, Cgo <$> e).

Definition EncryptDataSymmetric (seckey nonce plain : bytes) : outcome crypt0_err bytes :=
  if pure then map_err Pure (EncryptDataSymmetric2 seckey nonce plain)
  else map_err Cgo (EncryptDataSymmetric1 seckey nonce plain).

Definition DecryptDataSymmetric (seckey nonce encrypted : bytes) : outcome crypt0_err bytes :=
  if pure then map_err Pure (DecryptDataSymmetric2 seckey nonce encrypted)
  else map_err Cgo (DecryptDataSymmetric1 seckey nonce encrypted).

(** A key pair, a nonce or random bytes from whichever library is selected *)
Definition NewCBKeyPair {E} (draw1 : bytes * bytes * Z) (draw2 : bytes * bytes * option io_err)
    : outcome E (bytes * bytes * bool) :=
  if pure then '(pk, sk, e) ← NewCBKeyPair2 draw2; Ret (pk, sk, bool_decide (e = None))
  else '(pk, sk, e) ← NewCBKeyPair1 draw1;
       Ret (pk, sk, match e with None => true | Some _ => false end).

Definition CBRandomNonce {E} (draw : bytes) : outcome E bytes :=
  if pure then CBRandomNonce2 draw else CBRandomNonce1 draw.

Definition CBRandomBytes (n : nat) (draw : bytes) : bytes :=
  if pure then CBRandomBytes2 n draw else CBRandomBytes1 draw.

Definition Incr_ {E} (arr : bytes) : outcome E bytes :=
  if pure then Ret (Nonce.Mintox.Incr2 arr) else Incr1 arr.

Definition Incrn_ {E} (n : Z) (arr : bytes) : outcome E bytes :=
  if pure then Ret (Nonce.Mintox.Incrn2 n arr) else Incrn1 n arr.

End Select.

(** ** Proofs *)

Lemma Compare_eq a b : Compare a b = 0 ↔ a = b.
Proof.
  revert b. induction a as [|x a IH]; intros [|y b]; cbn [Compare]; try done.
  destruct (bz x <? bz y) eqn:E1; [split; [done|]; intros [= -> _]; zbool; lia|].
  destruct (bz y <? bz x) eqn:E2; [split; [done|]; intros [= -> _]; zbool; lia|].
  zbool. assert (x = y) as -> by (apply (inj bz); lia). rewrite IH. split; congruence.
Qed.

Lemma Equal_spec a b : Equal a b = bool_decide (a = b).
Proof.
  unfold Equal. destruct (decide (a = b)) as [->|Hn].
  - rewrite !bool_decide_true by done. apply Z.eqb_eq. by apply Compare_eq.
  - rewrite (bool_decide_false (a = b)) by done. apply andb_false_iff. right. apply Z.eqb_neq.
    by rewrite Compare_eq.
Qed.

Section Facts.
Context {B : NaclBox} {BL : NaclBoxLaws B} {S : Sodium} {SL : SodiumLaws B S}.
Context {G : Gopp} {GL : GoppLaws G}.

Lemma pad_front (k : nat) (m : bytes) :
  copy_at k (make_bytes (length m + k)) m = make_bytes k ++ m.
Proof.
  replace (make_bytes (length m + k)) with (make_bytes k ++ make_bytes (length m)).
  - rewrite copy_at_make by (try done; apply length_make_bytes).
    rewrite Nat.sub_diag. by rewrite app_nil_r.
  - unfold make_bytes. rewrite <- replicate_add. f_equal. lia.
Qed.

Lemma EncryptDataSymmetric1_ok k n m :
  length n = 24%nat → length k = 32%nat → EncryptDataSymmetric1 k n m = Ret (box_seal m n k).
Proof.
  intros Hn Hk. unfold EncryptDataSymmetric1, CBAfterNm1. rewrite pad_front, afternm_box by done.
  rewrite bind_Assert by (apply bool_decide_true; rewrite length_make_bytes; lia).
  cbn [cbiret2err1 Z.eqb]. rewrite slice_from_ok by (rewrite length_app, length_make_bytes; lia).
  rewrite bind_ret, drop_app_exact by apply length_make_bytes.
  rewrite bind_Assert by (apply bool_decide_true, seal_length). done.
Qed.

Lemma DecryptDataSymmetric1_cases k n c :
  length n = 24%nat → length k = 32%nat →
  DecryptDataSymmetric1 k n c =
    if bool_decide (length c < CryptoBoxMacBytes)%nat then Panic
    else match box_open c n k with Some m => Ret m | None => Fail (ErrCryptobox (-1)) end.
Proof.
  intros Hn Hk. unfold DecryptDataSymmetric1, CBOpenAfterNm1. rewrite pad_front.
  pose proof (open_afternm_box c n k Hn Hk) as Ho.
  destruct (sodium_open_afternm _ n k) as [out iret]. destruct Ho as [Hl Ho].
  unfold CryptoBoxMacBytes, CryptoBoxBoxZeroBytes, CryptoBoxZeroBytes in *.
  case_bool_decide as Hc.
  - unfold slice_from. by rewrite bool_decide_false by lia.
  - rewrite slice_from_ok by lia. rewrite bind_ret.
    rewrite bind_Assert by (apply Z.eqb_eq; unfold zlen; rewrite length_drop; lia).
    destruct (box_open c n k) as [m|].
    + destruct Ho as [-> ->]. cbn [cbiret2err1 Z.eqb]. by rewrite drop_app_exact by apply length_make_bytes.
    + by subst iret.
Qed.

Lemma sodium_iter j l :
  length (Nat.iter j sodium_increment l) = length l ∧
  le_val (Nat.iter j sodium_increment l) = (le_val l + Z.of_nat j) mod 256 ^ zlen l.
Proof.
  induction j as [|j [IHl IHv]].
  - split; [done|]. cbn [Nat.iter]. rewrite Z.add_0_r. symmetry. apply Z.mod_small, le_val_range.
  - rewrite Nat.iter_succ. destruct (increment_le (Nat.iter j sodium_increment l)) as [H1 H2].
    split; [congruence|]. rewrite H2, IHv. unfold zlen. rewrite IHl.
    rewrite Z.add_mod_idemp_l by (apply Z.pow_nonzero; lia). f_equal. lia.
Qed.

Lemma Incr2_iter j arr :
  length (Nat.iter j Nonce.Mintox.Incr2 arr) = length arr ∧
  be_val (Nat.iter j Nonce.Mintox.Incr2 arr) = (be_val arr + Z.of_nat j) mod 256 ^ zlen arr.
Proof.
  induction j as [|j [IHl IHv]].
  - split; [done|]. cbn [Nat.iter]. rewrite Z.add_0_r. symmetry. apply Z.mod_small, be_val_range.
  - rewrite Nat.iter_succ. unfold Nonce.Mintox.Incr2 at 1 3.
    destruct (Incr2le_spec (Nat.iter j Nonce.Mintox.Incr2 arr)) as [H1 H2].
    split; [congruence|]. rewrite H1, IHv. unfold zlen. rewrite IHl.
    rewrite Z.add_mod_idemp_l by (apply Z.pow_nonzero; lia). f_equal. lia.
Qed.

(** The increments of the two libraries, any number of them. *)
Lemma increments_agree n arr :
  reverse (Nat.iter n sodium_increment (reverse arr)) = Nat.iter n Nonce.Mintox.Incr2 arr.
Proof.
  destruct (sodium_iter n (reverse arr)) as [L1 V1]. destruct (Incr2_iter n arr) as [L2 V2].
  apply be_val_inj; [by rewrite length_reverse, L1, length_reverse, L2|].
  rewrite V2. unfold le_val in V1. rewrite V1, reverse_involutive. unfold zlen. by rewrite length_reverse.
Qed.

Lemma index_reverse_0 {E} (arr : bytes) : arr ≠ [] → ∃ b, @index E (reverse arr) 0 = Ret b.
Proof.
  intros H. unfold index. destruct (reverse arr) as [|b l] eqn:Er; [|by eexists].
  apply (f_equal reverse) in Er. by rewrite reverse_involutive in Er.
Qed.

(** C30: The constant that selects the crypto library does not change what a node computes on
    valid data: with 24-byte nonces and 32-byte keys the two back ends derive the same public and
    shared keys, encrypt to the same bytes, decrypt every authentic packet to its
    plaintext, and advance nonces alike, by one or by any number.  They differ on forgeries: the
    pure Go branch panics where libsodium reports an error, except on packets of 16
    bytes (an error in both) and of less (a panic in both); and on public keys of small
    order, for which libsodium reports an error and the pure Go branch returns a key. *)
Theorem backends_agree k n m c pk sk buf j :
  length n = NONCE_SIZE → length k = KeySize → length pk = KeySize → length sk = KeySize →
  length buf = CryptoBoxPublicKeyBytes →
  EncryptDataSymmetric true k n m = EncryptDataSymmetric false k n m ∧
  DecryptDataSymmetric true k n (box_seal m n k) = Ret m ∧
  DecryptDataSymmetric false k n (box_seal m n k) = Ret m ∧
  (box_open c n k = None →
     DecryptDataSymmetric false k n c =
       (if bool_decide (length c < MAC_SIZE)%nat then Panic else Fail (Cgo (ErrCryptobox (-1)))) ∧
     DecryptDataSymmetric true k n c =
       (if bool_decide (length c = MAC_SIZE) then Fail (Pure (ErrNaclBox 1)) else Panic)) ∧
  (if small_order pk
   then @CBBeforeNm B S G true unit pk sk = Ret (box_precompute pk sk, None) ∧
     ∃ buf, @CBBeforeNm B S G false unit pk sk = Ret (buf, Some (ErrCryptobox (-1)))
   else @CBBeforeNm B S G true unit pk sk = CBBeforeNm false pk sk) ∧
  @CBDerivePubkey B S G true unit sk buf = CBDerivePubkey false sk buf ∧
  @Incr_ S true unit n = Incr_ false n ∧ @Incrn_ S true unit j n = Incrn_ false j n.
Proof.
  intros Hn Hk Hp Hs Hb. unfold KeySize, NONCE_SIZE, CryptoBoxPublicKeyBytes in *.
  assert (n ≠ []) as Hne by (by intros ->).
  unfold EncryptDataSymmetric, DecryptDataSymmetric. split_and!.
  - by rewrite EncryptDataSymmetric1_ok, EncryptDataSymmetric2_ok.
  - by rewrite (DecryptDataSymmetric2_ok _ _ _ m) by apply open_seal.
  - rewrite DecryptDataSymmetric1_cases, open_seal by done.
    rewrite bool_decide_false; [done|]. rewrite seal_length. unfold Overhead, CryptoBoxMacBytes. lia.
  - intros Ho. rewrite DecryptDataSymmetric1_cases, Ho by done. split.
    + unfold CryptoBoxMacBytes, MAC_SIZE. by case_bool_decide.
    + case_bool_decide as Hc; [|by rewrite DecryptDataSymmetric2_bad].
      unfold DecryptDataSymmetric2, CBOpenAfterNm2. rewrite Ho.
      rewrite bind_Assert; [done|]. apply Z.eqb_eq. unfold zlen. rewrite Hc. done.
  - unfold CBBeforeNm, CBBeforeNm1. rewrite CBBeforeNm2_ok by done.
    pose proof (beforenm_box pk sk Hp Hs) as Hbn.
    destruct (small_order pk); [destruct Hbn as (b & Hl & ->)|rewrite Hbn].
    + split; [done|]. exists b. by rewrite NewCryptoKey_ok.
    + by rewrite NewCryptoKey_ok by (by apply precompute_length).
  - unfold CBDerivePubkey, CBDerivePubkey1, CBDerivePubkey2.
    pose proof (base_length sk Hs) as Hbl. unfold KeySize in Hbl.
    rewrite sodium_base_box, copy_into_full by (try done; congruence).
    destruct buf; [done|]. done.
  - unfold Incr_, Incr1. destruct (@index_reverse_0 unit n Hne) as [b ->]. rewrite bind_ret.
    f_equal. symmetry. apply (increments_agree 1).
  - unfold Incrn_, Incrn1, Nonce.Mintox.Incrn2. destruct (@index_reverse_0 unit n Hne) as [b ->].
    rewrite bind_ret. f_equal. symmetry. apply increments_agree.
Qed.

End Facts.

(** ** A concrete instance *)

Module ToySodium.
Import ToyBox.

Definition incr_le (l : bytes) : bytes := reverse (Nonce.Mintox.Incr2 (reverse l)).

#[export] Instance toy_sodium : Sodium := {|
  sodium_increment := incr_le;
  sodium_beforenm p s := if bool_decide (p = make_bytes 32) then (make_bytes 32, -1) else (mix p s, 0);
  sodium_afternm m n k := (make_bytes 16 ++ seal (drop 32 m) n k, 0);
  sodium_open_afternm c n k :=
    match open (drop 16 c) n k with
    | Some m => (make_bytes 32 ++ m, 0)
    | None => (make_bytes (length c), -1)
    end;
  sodium_base := id;
  small_order p := bool_decide (p = make_bytes 32) |}.

#[export] Instance toy_sodium_laws : SodiumLaws toy_box toy_sodium.
Proof.
  split; cbn [sodium_increment sodium_beforenm sodium_afternm sodium_open_afternm sodium_base small_order
    toy_sodium box_precompute box_seal box_open scalar_base toy_box].
  - intros l. unfold incr_le. destruct (Incr2le_spec (reverse l)) as [H1 H2].
    split; [by rewrite length_reverse; unfold Nonce.Mintox.Incr2; rewrite H2, length_reverse|].
    unfold le_val. rewrite reverse_involutive. unfold Nonce.Mintox.Incr2. rewrite H1.
    unfold zlen. by rewrite length_reverse.
  - intros p s Hp Hs. destruct (bool_decide _); [|done]. exists (make_bytes 32). by split.
  - intros m n k _ _. by rewrite drop_app_exact by apply length_make_bytes.
  - intros c n k _ _. rewrite drop_app_exact by apply length_make_bytes.
    destruct (open c n k) as [m|] eqn:Eo.
    + apply (@open_length toy_box _) in Eo. unfold Overhead in Eo.
      rewrite length_app, length_make_bytes. unfold CryptoBoxBoxZeroBytes. split; [lia|done].
    + by rewrite length_make_bytes, length_app, length_make_bytes.
  - done.
Qed.

End ToySodium.

Import ToyBox ToySodium.

Lemma backends_agree_witness :
  EncryptDataSymmetric true (make_bytes 32) (make_bytes 24) (str "hello") =
    EncryptDataSymmetric false (make_bytes 32) (make_bytes 24) (str "hello") ∧
  DecryptDataSymmetric false (make_bytes 32) (make_bytes 24) (replicate 20 xff) =
    Fail (Cgo (ErrCryptobox (-1))) ∧
  DecryptDataSymmetric true (make_bytes 32) (make_bytes 24) (replicate 20 xff) = Panic.
Proof.
  destruct (backends_agree (make_bytes 32) (make_bytes 24) (str "hello") (replicate 20 xff)
    (make_bytes 32) (make_bytes 32) (make_bytes 32) 3)
    as (H1 & _ & _ & H2 & _); [reflexivity..|].
  destruct (H2 eq_refl) as [H3 H4]. split; [exact H1|]. split; [exact H3|exact H4].
Defined.
