(* ===== verification/BsData.v ===== *)
(** * The weighted pool of bootstrap nodes (bsdata/bootstrap_data.go)

    The package embeds the list of public bootstrap nodes and hands out one of them
    at random, weighted by what periodic probes found.  Modelled: [LoadBSNodes] with
    its [sync.Once], the pool, [updateWeight] with the floating-point formula in
    IEEE 754 double precision, [checkBatch], the loop of probes and [Select].  The
    decoded JSON document, the clock, the outcome of each dial and the random draw
    are arguments.  A node of the pool is shared by pointer between the pool and a
    batch; a batch is therefore a list of positions in the pool. *)

From Stdlib Require Import Floats.SpecFloat.
From S2P Require Import Prelude GoIO GoText.
Local Open Scope Z_scope.

(** ** Nodes *)

Record BSNode := mkBSNode {
  Host : bytes; Ports : list Z; Pubkey : bytes; Motd : bytes }.

Record jsonNode := mkJsonNode {
  IPv4 : bytes; IPv6 : bytes; jPort : Z; TCPPorts : list Z; jPubkey : bytes; jMotd : bytes }.

Record jsonRoot := mkJsonRoot { Nodes : list jsonNode }.

#[export] Instance BSNode_eq_dec : EqDecision BSNode.
Proof. solve_decision. Defined.

(** The body of the loop over [root.Nodes]. *)
Definition bsnode_of (n : jsonNode) : BSNode :=
  let host := IPv4 n in
  let host := if bool_decide (host = [] ∨ host = str "-" ∨ host = str "NONE")
              then IPv6 n else host in
  let ports := jPort n :: base.filter (λ p, p ≠ jPort n) (TCPPorts n) in
  mkBSNode host ports (jPubkey n) (jMotd n).

(** [bsNodesOnce], [bsNodesCache], [bsNodesErr]; an error is the text [json] gave. *)
Record bsCache := mkBsCache {
  onceDone : bool; bsNodesCache : list BSNode; bsNodesErr : option bytes }.

Definition bsCache0 : bsCache := mkBsCache false [] None.

(** [unmarshal] is what [json.Unmarshal] makes of the embedded file. *)
Definition LoadBSNodes (unmarshal : outcome bytes jsonRoot) (c : bsCache)
    : (list BSNode * option bytes) * bsCache :=
  let c' :=
    if onceDone c then c
    else match unmarshal with
         | Ret root => mkBsCache true (bsNodesCache c ++ map bsnode_of (Nodes root)) (bsNodesErr c)
         | Fail e => mkBsCache true (bsNodesCache c) (Some e)
         | Panic => c
         end in
  ((bsNodesCache c', bsNodesErr c'), c').

(** ** The pool *)

Definition millisecond : Z := 1000000.
Definition second : Z := 1000 * millisecond.
Definition minute : Z := 60 * second.

Definition checkInterval : Z := 2 * minute.
Definition checkBatchSize : nat := 5.
Definition healthTTL : Z := 10 * minute.
Definition dialTimeout : Z := 3 * second.
Definition baseWeight : Z := 100.

(** [lastCheck] is in nanoseconds; [None] is the zero [time.Time]. *)
Record WeightedBSNode := mkWeighted {
  node : BSNode; weight : Z; alive : bool; lastCheck : option Z; latency : Z }.

(** [p.nodes]; the mutex, the cancel function and [startOnce] are below. *)
Abbreviation pool_nodes := (list WeightedBSNode).

Definition newPool (unmarshal : outcome bytes jsonRoot) (c : bsCache) : pool_nodes * bsCache :=
  let '((nodes, _), c') := LoadBSNodes unmarshal c in
  (map (λ n, mkWeighted n baseWeight true None 0) nodes, c').

(** [now.Sub(t)], saturated to an [int64]; the zero time is more than 292 years ago. *)
Definition time_Sub (now : Z) (t : option Z) : Z :=
  match t with
  | Some t => Z.max (- 2 ^ 63) (Z.min (2 ^ 63 - 1) (now - t))
  | None => 2 ^ 63 - 1
  end.

(** *** IEEE 754 double precision *)

Definition f64_of_int (z : Z) : spec_float := binary_normalize 53 1024 z 0 false.
Definition f64_mul : spec_float → spec_float → spec_float := SFmul 53 1024.
Definition f64_div : spec_float → spec_float → spec_float := SFdiv 53 1024.
Definition f64_add : spec_float → spec_float → spec_float := SFadd 53 1024.
(** The double nearest to 0.1 *)
Definition f64_tenth : spec_float := S754_finite false 7205759403792794 (-56).
(** [int(x)] of a finite [x]: towards zero *)
Definition f64_to_int (x : spec_float) : Z :=
  match x with
  | S754_finite s m e =>
      let v := if 0 <=? e then Z.pos m * 2 ^ e else Z.pos m / 2 ^ (- e) in
      if s then - v else v
  | _ => 0
  end.

(** [int(float64(baseWeight) * aliveFactor * latencyFactor)] for a latency in ms *)
Definition float_weight (ok : bool) (latMs : Z) : Z :=
  let aliveFactor := if ok then f64_of_int 1 else f64_tenth in
  let latencyFactor := f64_div (f64_of_int 100) (f64_add (f64_of_int latMs) (f64_of_int 100)) in
  f64_to_int (f64_mul (f64_mul (f64_of_int baseWeight) aliveFactor) latencyFactor).

(** [now] is the clock reading of the call. *)
Definition updateWeight (now : Z) (ok : bool) (lat : Z) (n : WeightedBSNode) : WeightedBSNode :=
  let latency' := if ok then Z.quot (i64 (i64 (latency n * 3) + lat)) 4 else latency n in
  let alive' := if ok then true else alive n in
  let w := float_weight ok (Z.quot latency' millisecond) in
  mkWeighted (node n) (if w <? 1 then 1 else w) alive' (Some now) latency'.

(** *** Probing *)

(** One dial: whether it succeeded, what [time.Since(start)] gave, and the clock
    reading in [updateWeight]. *)
Record probe := mkProbe { pr_ok : bool; pr_elapsed : Z; pr_now : Z }.

Fixpoint candidates_from (i : nat) (now : Z) (ns : pool_nodes) : list nat :=
  match ns with
  | [] => []
  | n :: ns' =>
      let r := candidates_from (S i) now ns' in
      if healthTTL <=? time_Sub now (lastCheck n) then i :: r else r
  end.

Definition batch_of (now : Z) (ns : pool_nodes) : list nat :=
  take checkBatchSize (candidates_from 0 now ns).

(** [net.JoinHostPort(n.Host, fmt.Sprint(n.Ports[0]))] *)
Definition probe_addr {E} (n : BSNode) : outcome E bytes :=
  match Ports n with
  | p :: _ => Ret (JoinHostPort (Host n) (itoa p))
  | [] => Panic
  end.

(** The loop over the batch: the addresses dialled, and the pool. *)
Fixpoint probe_batch {E} (probes : nat → probe) (batch : list nat) (ns : pool_nodes)
    : outcome E (list bytes * pool_nodes) :=
  match batch with
  | [] => Ret ([], ns)
  | i :: batch' =>
      match ns !! i with
      | None => probe_batch probes batch' ns
      | Some n =>
          addr ← probe_addr (node n);
          let pr := probes i in
          '(addrs, ns') ← probe_batch probes batch'
            (<[i := updateWeight (pr_now pr) (pr_ok pr) (pr_elapsed pr) n]> ns);
          Ret (addr :: addrs, ns')
      end
  end.

Definition checkBatch {E} (now : Z) (probes : nat → probe) (ns : pool_nodes)
    : outcome E (list bytes * pool_nodes) :=
  probe_batch probes (batch_of now ns) ns.

(** The turns of [CheckLoop] before its context is cancelled: one [checkBatch] per
    tick, at its clock reading and with its dials. *)
Fixpoint CheckLoop {E} (ticks : list (Z * (nat → probe))) (ns : pool_nodes)
    : outcome E (list bytes * pool_nodes) :=
  match ticks with
  | [] => Ret ([], ns)
  | (now, probes) :: ticks' =>
      '(a1, ns1) ← checkBatch now probes ns;
      '(a2, ns2) ← CheckLoop ticks' ns1;
      Ret (a1 ++ a2, ns2)
  end.

(** *** Selection *)

Definition total_weight (ns : pool_nodes) : Z := foldr (λ n t, weight n + t) 0 ns.

Fixpoint select_loop (r : Z) (ns : pool_nodes) : option BSNode :=
  match ns with
  | [] => None
  | n :: ns' =>
      let r := r - weight n in
      if r <? 0 then Some (node n) else select_loop r ns'
  end.

(** [rand.Intn] is given as the function of its bound; it panics for a bound that is
    not positive. *)
Definition Intn {E} (rnd : Z → Z) (n : Z) : outcome E Z :=
  if n <=? 0 then Panic else Ret (rnd n mod n).

Definition Select {E} (rnd : Z → Z) (ns : pool_nodes) : outcome E BSNode :=
  r ← Intn rnd (total_weight ns);
  match select_loop r ns with
  | Some b => Ret b
  | None => match ns with n :: _ => Ret (node n) | [] => Panic end
  end.

(** ** The default pool *)

(** [defaultPoolOnce], [defaultPool] with its [startOnce] and [cancel]: the number of
    loops that were started and those that were cancelled. *)
Record bs_globals := mkGlobals {
  bg_cache : bsCache; bg_pool : option pool_nodes; bg_started : nat; bg_cancelled : bool }.

Definition bs_globals0 : bs_globals := mkGlobals bsCache0 None 0 false.

Definition defaultPoolInstance (unmarshal : outcome bytes jsonRoot) (g : bs_globals)
    : pool_nodes * bs_globals :=
  match bg_pool g with
  | Some ns => (ns, g)
  | None =>
      let '(ns, c) := newPool unmarshal (bg_cache g) in
      (ns, mkGlobals c (Some ns) (S (bg_started g)) (bg_cancelled g))
  end.

Inductive select_err : Type := ErrNoNodes.

Definition SelectOne (unmarshal : outcome bytes jsonRoot) (rnd : Z → Z) (g : bs_globals)
    : outcome select_err BSNode * bs_globals :=
  let '(ns, g') := defaultPoolInstance unmarshal g in
  (if bool_decide (length ns = 0%nat) then Fail ErrNoNodes else Select rnd ns, g').

Definition StopCheckLoop (g : bs_globals) : bs_globals :=
  match bg_pool g with
  | Some _ => mkGlobals (bg_cache g) (bg_pool g) (bg_started g) true
  | None => g
  end.

(** ** The floating-point formula is integer division *)

(** The longest latency the formula is evaluated for below, in ms; a successful dial
    takes at most [dialTimeout]. *)
Definition maxLatMs : Z := 3100.
Definition maxLat : Z := maxLatMs * millisecond + (millisecond - 1).

Definition weight_check (ms : Z) : bool :=
  (float_weight true ms =? 10000 / (ms + 100)) && (float_weight false ms =? 1000 / (ms + 100)).

(** [n] checks upwards from [ms] *)
Fixpoint weight_checks (n : nat) (ms : Z) : bool :=
  match n with O => true | S n' => weight_check ms && weight_checks n' (ms + 1) end.

Lemma weight_checks_sound n ms k :
  weight_checks n ms = true → ms ≤ k < ms + Z.of_nat n → weight_check k = true.
Proof.
  revert ms. induction n as [|n IH]; cbn [weight_checks]; intros ms H Hk; [lia|].
  apply andb_true_iff in H as [H1 H2].
  destruct (decide (k = ms)) as [->|]; [done|]. apply (IH (ms + 1)); [done|lia].
Qed.

Lemma all_weights_checked : weight_checks (Z.to_nat 3101) 0 = true.
Proof. vm_compute. reflexivity. Qed.

Lemma float_weight_div ok ms :
  0 ≤ ms ≤ maxLatMs → float_weight ok ms = (if ok then 10000 else 1000) / (ms + 100).
Proof.
  intros Hms. pose proof (weight_checks_sound _ _ ms all_weights_checked) as H.
  unfold maxLatMs in Hms. specialize (H ltac:(lia)). unfold weight_check in H.
  apply andb_true_iff in H as [H1 H2]. zbool. by destruct ok.
Qed.

(** ** Invariant of the pool *)

Definition node_ok (n : WeightedBSNode) : Prop :=
  1 ≤ weight n ≤ baseWeight ∧ 0 ≤ latency n ≤ maxLat ∧ Ports (node n) ≠ [].

Lemma updateWeight_ok now ok lat n :
  node_ok n → 0 ≤ lat ≤ maxLat →
  node_ok (updateWeight now ok lat n) ∧ node (updateWeight now ok lat n) = node n ∧
  weight (updateWeight now ok lat n) =
    Z.max 1 ((if ok then 10000 else 1000) /
             (latency (updateWeight now ok lat n) / millisecond + 100)).
Proof.
  intros (Hw & Hl & Hp) Hlat. unfold updateWeight. cbn [node weight latency].
  set (l' := if ok then _ else _).
  assert (0 ≤ l' ≤ maxLat) as Hl'.
  { unfold l'. destruct ok; [|done]. unfold maxLat, maxLatMs, millisecond in *.
    rewrite (i64_small (latency n * 3)) by lia. rewrite i64_small by lia.
    rewrite Z.quot_div_nonneg by lia. Z.div_mod_to_equations. lia. }
  assert (0 ≤ l' / millisecond ≤ maxLatMs) as Hms.
  { unfold maxLat, maxLatMs, millisecond in *. Z.div_mod_to_equations. lia. }
  rewrite Z.quot_div_nonneg by (unfold millisecond; lia). rewrite float_weight_div by done.
  set (q := _ / (l' / millisecond + 100)).
  assert (0 ≤ q ≤ 100) as Hq.
  { unfold q. split; [apply Z.div_pos; [by destruct ok|lia]|].
    apply Z.div_le_upper_bound; [lia|]. destruct ok; lia. }
  assert ((if q <? 1 then 1 else q) = Z.max 1 q) as E by (destruct (q <? 1) eqn:?; zbool; lia).
  rewrite E. unfold node_ok, baseWeight. cbn [weight latency node]. split_and!; try done; lia.
Qed.

Lemma total_weight_app a b : total_weight (a ++ b) = total_weight a + total_weight b.
Proof. induction a as [|n a IH]; cbn [app total_weight foldr]; [done|]. fold total_weight. unfold total_weight in *. lia. Qed.

Lemma total_weight_bounds ns :
  Forall node_ok ns → zlen ns ≤ total_weight ns ≤ 100 * zlen ns.
Proof.
  induction 1 as [|n ns (Hw & _) _ IH]; [done|]. unfold total_weight, baseWeight in *.
  cbn [foldr]. rewrite zlen_cons. lia.
Qed.

Lemma select_loop_hit pre n post r :
  Forall node_ok pre → total_weight pre ≤ r < total_weight pre + weight n →
  select_loop r (pre ++ n :: post) = Some (node n).
Proof.
  revert r. induction pre as [|m pre IH]; intros r Hf Hr; cbn [app select_loop].
  - cbn in Hr. replace (r - weight n <? 0) with true by (symmetry; apply Z.ltb_lt; lia). done.
  - apply list.Forall_cons in Hf as [Hm Hf]. unfold total_weight in Hr. cbn [foldr] in Hr.
    fold (total_weight pre) in Hr.
    pose proof (total_weight_bounds pre Hf). pose proof (zlen_nonneg pre).
    replace (r - weight m <? 0) with false by (symmetry; apply Z.ltb_ge; lia).
    apply IH; [done|lia].
Qed.

(** Every draw falls into the interval of one node. *)
Lemma draw_interval ns r :
  0 ≤ r < total_weight ns → Forall node_ok ns →
  ∃ pre n post, ns = pre ++ n :: post ∧ total_weight pre ≤ r < total_weight pre + weight n.
Proof.
  revert r. induction ns as [|n ns IH]; intros r Hr Hf; [cbn in Hr; lia|].
  apply list.Forall_cons in Hf as [Hn Hf]. change (total_weight (n :: ns)) with (weight n + total_weight ns) in Hr.
  destruct (decide (r < weight n)) as [Hlt|Hge].
  - exists [], n, ns. cbn. split; [done|lia].
  - destruct (IH (r - weight n)) as (pre & m & post & -> & Hm); [lia|done|].
    exists (n :: pre), m, post. split; [done|].
    change (total_weight (n :: pre)) with (weight n + total_weight pre). lia.
Qed.

Lemma Intn_ok {E} rnd n : 0 < n → @Intn E rnd n = Ret (rnd n mod n) ∧ 0 ≤ rnd n mod n < n.
Proof.
  intros Hn. unfold Intn. replace (n <=? 0) with false by (symmetry; apply Z.leb_gt; lia).
  split; [done|]. by apply Z.mod_pos_bound.
Qed.

(** *** The default pool in all its states *)

Section Globals.
Context (unmarshal : outcome bytes jsonRoot).

(** What happens to the globals: a call of [SelectOne] or [StopCheckLoop], and one
    [updateWeight] of the loop while it runs.  The mutex is held for one update, so
    that selections may fall between the updates of a batch. *)
Inductive bs_step : bs_globals → bs_globals → Prop :=
| step_select rnd g : bs_step g (SelectOne unmarshal rnd g).2
| step_stop g : bs_step g (StopCheckLoop g)
| step_update g ns i n pr :
    bg_pool g = Some ns → bg_cancelled g = false → ns !! i = Some n →
    0 ≤ pr_elapsed pr ≤ maxLat →
    bs_step g (mkGlobals (bg_cache g)
      (Some (<[i := updateWeight (pr_now pr) (pr_ok pr) (pr_elapsed pr) n]> ns))
      (bg_started g) (bg_cancelled g)).

(** The nodes the document names. *)
Definition document_nodes : list BSNode :=
  match unmarshal with Ret root => map bsnode_of (Nodes root) | _ => [] end.

Definition pool_inv (g : bs_globals) : Prop :=
  match bg_pool g with
  | None => g = bs_globals0
  | Some ns =>
      Forall node_ok ns ∧ map node ns = document_nodes ∧ bg_started g = 1%nat
  end.

Lemma newPool_ok ns c :
  newPool unmarshal bsCache0 = (ns, c) → Forall node_ok ns ∧ map node ns = document_nodes.
Proof.
  unfold newPool, LoadBSNodes, document_nodes. cbn [onceDone bsNodesCache bsCache0].
  destruct unmarshal as [root|e|]; cbn; intros [= <- _]; [|by split; [constructor|]..].
  split.
  - apply list.Forall_forall. intros n Hn. apply list_elem_of_In, in_map_iff in Hn as (b & <- & Hb).
    apply in_map_iff in Hb as (j & <- & _). unfold node_ok, baseWeight, maxLat, maxLatMs, millisecond. cbn.
    split_and!; try lia; try done.
  - rewrite map_map. apply map_id.
Qed.

Lemma defaultPool_inv g ns g' :
  pool_inv g → defaultPoolInstance unmarshal g = (ns, g') →
  pool_inv g' ∧ bg_pool g' = Some ns.
Proof.
  unfold pool_inv, defaultPoolInstance. destruct (bg_pool g) as [ns0|] eqn:Eg.
  - intros Hi [= <- <-]. by rewrite Eg.
  - intros -> E. destruct (newPool unmarshal (bg_cache bs_globals0)) as [ns1 c] eqn:En.
    injection E as <- <-. apply newPool_ok in En as [H1 H2]. cbn. done.
Qed.

Lemma bs_step_inv g g' : bs_step g g' → pool_inv g → pool_inv g'.
Proof.
  intros Hs Hi. inversion Hs as [rnd g0 E1 E2|g0 E1 E2|g0 ns i n pr Hp Hc Hn Hl E1 E2]; subst.
  - unfold SelectOne. destruct (defaultPoolInstance unmarshal g) as [ns g1] eqn:E.
    by apply defaultPool_inv in E as [? _].
  - unfold StopCheckLoop, pool_inv in *. by destruct (bg_pool g) eqn:E; [cbn|rewrite E].
  - unfold pool_inv in *. rewrite Hp in Hi. destruct Hi as (Hf & Hd & Hst). cbn.
    pose proof (Forall_lookup_1 _ _ _ _ Hf Hn) as Hno.
    destruct (updateWeight_ok (pr_now pr) (pr_ok pr) (pr_elapsed pr) n Hno Hl) as (H1 & H2 & _).
    split_and!; [by apply Forall_insert|rewrite <- Hd|done].
    change (node <$> <[i := updateWeight (pr_now pr) (pr_ok pr) (pr_elapsed pr) n]> ns = node <$> ns).
    rewrite list_fmap_insert, H2. apply list_insert_id. by rewrite list_lookup_fmap, Hn.
Qed.

Lemma bs_reachable_inv g : rtc bs_step bs_globals0 g → pool_inv g.
Proof.
  intros H. assert (pool_inv bs_globals0) as H0 by done. revert H0.
  induction H; eauto using bs_step_inv.
Qed.

(** A batch is a run of updates. *)
Lemma probe_batch_steps {E} probes batch g ns :
  bg_pool g = Some ns → bg_cancelled g = false → pool_inv g →
  (∀ i, 0 ≤ pr_elapsed (probes i) ≤ maxLat) →
  ∃ addrs ns', @probe_batch E probes batch ns = Ret (addrs, ns') ∧
    rtc bs_step g (mkGlobals (bg_cache g) (Some ns') (bg_started g) false).
Proof.
  intros Hp Hc Hi Hpr. revert g ns Hp Hc Hi. induction batch as [|i batch IH]; intros g ns Hp Hc Hi.
  - exists [], ns. split; [done|]. destruct g; cbn in *. subst. apply rtc_refl.
  - cbn [probe_batch]. destruct (ns !! i) as [n|] eqn:Hn; [|by eauto].
    assert (bs_step g (mkGlobals (bg_cache g)
      (Some (<[i := updateWeight (pr_now (probes i)) (pr_ok (probes i)) (pr_elapsed (probes i)) n]> ns))
      (bg_started g) (bg_cancelled g))) as Hs by (by eapply step_update).
    assert (∃ a, @probe_addr E (node n) = Ret a) as [a Ha].
    { pose proof Hi as Hi'. unfold pool_inv in Hi'. rewrite Hp in Hi'. destruct Hi' as (Hf & _).
      destruct (Forall_lookup_1 _ _ _ _ Hf Hn) as (_ & _ & Hports). unfold probe_addr.
      destruct (Ports (node n)); [done|eauto]. }
    rewrite Ha. cbn [mbind outcome_bind].
    edestruct IH as (addrs & ns' & E' & Hr); [| |exact (bs_step_inv _ _ Hs Hi)|]; [reflexivity|exact Hc|].
    rewrite E'. cbn [mbind outcome_bind].
    eexists _, _. split; [done|]. eapply rtc_l; [done|]. cbn in Hr. exact Hr.
Qed.

(** C38: In every state the program can reach, by any interleaving of selections,
    updates of the probing loop and its end, [SelectOne] does not panic: it returns
    the node in whose interval of weights the random number falls, every weight is
    between 1 and 100, so that every node of the document keeps a positive share, and
    the error is returned exactly when the document has no nodes.  Nor does a batch of probes
    panic in such a state. *)
Theorem selection_total g rnd now probes :
  rtc bs_step bs_globals0 g → (∀ i, 0 ≤ pr_elapsed (probes i) ≤ maxLat) →
  ∃ ns, bg_pool (SelectOne unmarshal rnd g).2 = Some ns ∧ map node ns = document_nodes ∧
    Forall (λ n, 1 ≤ weight n ≤ baseWeight) ns ∧
    (document_nodes = [] → (SelectOne unmarshal rnd g).1 = Fail ErrNoNodes) ∧
    (document_nodes ≠ [] → ∃ pre n post,
       ns = pre ++ n :: post ∧ (SelectOne unmarshal rnd g).1 = Ret (node n) ∧
       total_weight pre ≤ rnd (total_weight ns) mod total_weight ns < total_weight pre + weight n) ∧
    (∀ ns0, bg_pool g = Some ns0 → is_ret (@checkBatch select_err now probes ns0) = true).
Proof.
  intros Hg Hpr. apply bs_reachable_inv in Hg.
  assert (∀ ns0, bg_pool g = Some ns0 → is_ret (@checkBatch select_err now probes ns0) = true) as Hb.
  { intros ns0 Hp.
    destruct (@probe_batch_steps select_err probes (batch_of now ns0)
      (mkGlobals (bg_cache g) (Some ns0) (bg_started g) false) ns0 eq_refl eq_refl) as (? & ? & E & _).
    - unfold pool_inv in *. by rewrite Hp in Hg.
    - done.
    - unfold checkBatch. by rewrite E. }
  unfold SelectOne. destruct (defaultPoolInstance unmarshal g) as [ns g'] eqn:E.
  apply defaultPool_inv in E as [Hi Hp]; [|done]. exists ns. cbn [fst snd].
  unfold pool_inv in Hi. rewrite Hp in Hi. destruct Hi as (Hf & Hd & _).
  split_and!; [done|done|apply (list.Forall_impl _ _ _ Hf); by intros n [H _]|..|done].
  - rewrite <- Hd. intros Hn. destruct ns; [done|discriminate Hn].
  - rewrite <- Hd. intros Hn. pose proof (total_weight_bounds ns Hf) as Ht.
    assert (0 < zlen ns) by (destruct ns; [done|rewrite zlen_cons; pose proof (zlen_nonneg ns); lia]).
    rewrite bool_decide_false by (unfold zlen in *; lia).
    destruct (@Intn_ok select_err rnd (total_weight ns)) as [E1 E2]; [lia|].
    destruct (draw_interval ns _ E2 Hf) as (pre & n & post & Ens & Hr).
    exists pre, n, post. split_and!; [done| |lia..]. unfold Select. rewrite E1. cbn [mbind outcome_bind].
    rewrite Ens in Hf. apply Forall_app in Hf as [Hf _].
    pose proof (select_loop_hit pre n post _ Hf Hr) as Es. rewrite <- Ens in Es. by rewrite Es.
Qed.

End Globals.

(** ** Which nodes are probed *)

(** The batches in the pool's own time: the [k]-th tick is within a minute after
    [k] intervals, and its probes are over within a minute of it. *)
Definition on_time (k : nat) (now : Z) (probes : nat → probe) : Prop :=
  Z.of_nat k * checkInterval ≤ now < Z.of_nat k * checkInterval + minute ∧
  now < 2 ^ 62 ∧
  ∀ i, now ≤ pr_now (probes i) < now + minute.

Fixpoint all_on_time (k : nat) (ticks : list (Z * (nat → probe))) : Prop :=
  match ticks with
  | [] => True
  | (now, probes) :: ticks' => on_time k now probes ∧ all_on_time (S k) ticks'
  end.

Definition expired (now : Z) (n : WeightedBSNode) : bool :=
  healthTTL <=? time_Sub now (lastCheck n).

Lemma candidates_from_spec i now ns j :
  j ∈ candidates_from i now ns ↔
  ∃ n, (i ≤ j)%nat ∧ ns !! (j - i)%nat = Some n ∧ expired now n = true.
Proof.
  revert i. induction ns as [|n ns IH]; intros i; cbn [candidates_from].
  { split; [by intros ?%not_elem_of_nil|]. by intros (? & _ & ? & _). }
  fold (expired now n).
  assert (j ∈ candidates_from (S i) now ns ↔
          ∃ m, (S i ≤ j)%nat ∧ (n :: ns) !! (j - i)%nat = Some m ∧ expired now m = true) as IH'.
  { rewrite IH. split; intros (m & Hle & Hl & He); exists m; (split; [done|split; [|done]]).
    - replace (j - i)%nat with (S (j - S i)) by lia. done.
    - by replace (j - i)%nat with (S (j - S i)) in Hl by lia. }
  destruct (expired now n) eqn:En; [rewrite list.elem_of_cons|]; rewrite IH'; split.
  - intros [->|(m & ? & ? & ?)]; [|by exists m; split; [lia|]].
    exists n. by rewrite Nat.sub_diag.
  - intros (m & Hle & Hl & He). destruct (decide (j = i)) as [->|]; [by left|right].
    exists m. split; [lia|done].
  - intros (m & ? & ? & ?). by exists m; split; [lia|].
  - intros (m & Hle & Hl & He). exists m. split; [|done].
    destruct (decide (j = i)) as [->|]; [|lia]. rewrite Nat.sub_diag in Hl. cbn in Hl. congruence.
Qed.

Lemma candidates_from_app i now a b :
  candidates_from i now (a ++ b) = candidates_from i now a ++ candidates_from (i + length a) now b.
Proof.
  revert i. induction a as [|n a IH]; intros i; cbn [app candidates_from length].
  - by rewrite Nat.add_0_r.
  - rewrite IH, Nat.add_succ_r. by case_match.
Qed.

Lemma candidates_from_NoDup i now ns : NoDup (candidates_from i now ns).
Proof.
  revert i. induction ns as [|n ns IH]; intros i; cbn [candidates_from]; [constructor|].
  case_match; [|done]. constructor; [|done]. rewrite candidates_from_spec. intros (? & ? & _). lia.
Qed.

(** With five candidates among the first nodes the batch has no other. *)
Lemma batch_among_first now ns k :
  (checkBatchSize ≤ length (candidates_from 0 now (take k ns)))%nat →
  ∀ i, i ∈ batch_of now ns → (i < k)%nat.
Proof.
  intros Hl i Hi. unfold batch_of in Hi.
  rewrite <- (take_drop k ns), candidates_from_app, take_app_le in Hi by done.
  apply elem_of_take in Hi as (j & Hj & _). apply list_elem_of_lookup_2 in Hj.
  apply candidates_from_spec in Hj as (n & _ & Hn & _). apply lookup_lt_Some in Hn.
  rewrite length_take in Hn. lia.
Qed.

Lemma probe_batch_effect {E} probes batch ns addrs ns' :
  @probe_batch E probes batch ns = Ret (addrs, ns') →
  length ns' = length ns ∧
  ∀ i n', ns' !! i = Some n' → ∃ n, ns !! i = Some n ∧ node n' = node n ∧
    (i ∉ batch → n' = n) ∧ (i ∈ batch → lastCheck n' = Some (pr_now (probes i))).
Proof.
  revert ns addrs ns'. induction batch as [|j batch IH]; intros ns addrs ns'; cbn [probe_batch].
  { intros [= _ <-]. split; [done|]. intros i n' Hi. exists n'. split_and!; [done..|].
    by intros ?%not_elem_of_nil. }
  destruct (ns !! j) as [m|] eqn:Hj.
  - intros H. apply bind_ret_inv in H as (a & _ & H). apply bind_ret_inv in H as ([as1 ns1] & H1 & H).
    injection H as _ <-. apply IH in H1 as [Hlen H1]. rewrite length_insert in Hlen.
    split; [done|]. intros i n' Hi. destruct (H1 i n' Hi) as (n & Hn & Hnode & Hout & Hin).
    destruct (decide (i = j)) as [->|Hne].
    + rewrite list_lookup_insert_eq in Hn by (by eapply lookup_lt_Some). injection Hn as <-.
      exists m. split_and!; [done|done| |].
      * intros []. by left.
      * intros _. destruct (decide (j ∈ batch)) as [Hb|Hb]; [by apply Hin|]. by rewrite (Hout Hb).
    + rewrite list_lookup_insert_ne in Hn by done. exists n. split_and!; [done|done| |].
      * intros H. apply Hout. intros ?. apply H. by right.
      * intros [->|H]%list.elem_of_cons; [done|by apply Hin].
  - intros H. apply IH in H as [Hlen H]. split; [done|]. intros i n' Hi.
    destruct (H i n' Hi) as (n & Hn & Hnode & Hout & Hin). exists n. split_and!; [done|done| |].
    + intros Hx. apply Hout. intros ?. apply Hx. by right.
    + intros [->|Hx]%list.elem_of_cons; [congruence|by apply Hin].
Qed.

(** The last batches [h], the newest first: whoever is in none of the newest [m] was
    last probed before the interval [k - m]. *)
Definition probed_inv (k : nat) (h : list (list nat)) (ns : pool_nodes) : Prop :=
  Forall (λ b, length b ≤ checkBatchSize)%nat h ∧
  ∀ i n, ns !! i = Some n → ∀ m, i ∉ concat (take m h) →
    ∀ t, lastCheck n = Some t → t < (Z.of_nat k - Z.of_nat m) * checkInterval.

Lemma probed_step {E} k h ns now probes addrs ns' :
  probed_inv k h ns → on_time k now probes →
  @checkBatch E now probes ns = Ret (addrs, ns') →
  probed_inv (S k) (batch_of now ns :: h) ns'.
Proof.
  intros [Hh Hi] (Hnow & _ & Hpr) Hc. apply probe_batch_effect in Hc as [_ He].
  split. { constructor; [|done]. unfold batch_of. rewrite length_take. lia. }
  intros i n' Hn' m Hm t Ht. destruct (He i n' Hn') as (n & Hn & _ & Hout & Hin).
  specialize (Hpr i). unfold checkInterval, minute, second, millisecond in *.
  destruct (decide (i ∈ batch_of now ns)) as [Hb|Hb].
  - rewrite (Hin Hb) in Ht. injection Ht as <-. destruct m as [|m]; [lia|].
    contradict Hm. cbn [take concat]. apply elem_of_app. by left.
  - rewrite (Hout Hb) in Ht. destruct m as [|m].
    + specialize (Hi i n Hn 0%nat ltac:(apply not_elem_of_nil) t Ht). lia.
    + specialize (Hi i n Hn m) as Hi'. cbn [take concat] in Hm. rewrite not_elem_of_app in Hm.
      specialize (Hi' (proj2 Hm) t Ht). lia.
Qed.

Lemma concat_length_le {A} (h : list (list A)) c :
  Forall (λ b, length b ≤ c)%nat h → (length (concat h) ≤ c * length h)%nat.
Proof. induction 1 as [|b h Hb _ IH]; cbn; [lia|]. rewrite length_app. lia. Qed.

(** Of thirty nodes at least five are due. *)
Lemma five_due k h ns now probes :
  probed_inv k h ns → on_time k now probes → (30 ≤ length ns)%nat →
  (checkBatchSize ≤ length (candidates_from 0 now (take 30 ns)))%nat.
Proof.
  intros [Hh Hi] (Hnow & Hmax & _) Hlen.
  assert (seq 0 30 ⊆+ candidates_from 0 now (take 30 ns) ++ concat (take 5 h)) as Hs.
  { apply NoDup_submseteq; [apply NoDup_seq|]. intros i [_ Hlt]%elem_of_seq.
    apply elem_of_app. destruct (decide (i ∈ concat (take 5 h))) as [|Hn]; [by right|left].
    destruct (lookup_lt_is_Some_2 ns i) as [n En]; [lia|].
    apply candidates_from_spec. exists n. rewrite Nat.sub_0_r, lookup_take_lt by lia.
    split_and!; [lia|done|]. unfold expired, time_Sub. apply Z.leb_le.
    unfold healthTTL, checkInterval, minute, second, millisecond in *.
    destruct (lastCheck n) as [t|] eqn:Et; [|lia].
    specialize (Hi i n En 5%nat Hn t Et). lia. }
  apply submseteq_length in Hs. rewrite length_seq, length_app in Hs.
  pose proof (concat_length_le (take 5 h) checkBatchSize
    ltac:(by apply Forall_take)) as Hc.
  unfold checkBatchSize in *. rewrite length_take in Hc. lia.
Qed.

Lemma CheckLoop_first_thirty {E} ticks k h ns addrs ns' :
  probed_inv k h ns → all_on_time k ticks →
  @CheckLoop E ticks ns = Ret (addrs, ns') → ∀ i, (30 ≤ i)%nat → ns' !! i = ns !! i.
Proof.
  revert k h ns addrs ns'. induction ticks as [|[now probes] ticks IH]; intros k h ns addrs ns' Hi Ht Hc i Hge.
  { cbn in Hc. by injection Hc as _ <-. }
  cbn [all_on_time] in Ht. destruct Ht as [Ht Hts]. cbn [CheckLoop] in Hc.
  apply bind_ret_inv in Hc as ([a1 ns1] & H1 & Hc). apply bind_ret_inv in Hc as ([a2 ns2] & H2 & Hc).
  injection Hc as _ <-. pose proof (probed_step _ _ _ _ _ _ _ Hi Ht H1) as Hi1.
  rewrite (IH _ _ _ _ _ Hi1 Hts H2 i Hge). apply probe_batch_effect in H1 as [Hlen H1].
  destruct (decide (30 ≤ length ns)%nat) as [Hl|Hl].
  - destruct (ns1 !! i) as [n1|] eqn:E1.
    + destruct (H1 i n1 E1) as (n & -> & _ & Hout & _). rewrite Hout; [done|]. intros Hb.
      pose proof (batch_among_first now ns 30 (five_due _ _ _ _ _ Hi Ht Hl) i Hb). lia.
    + symmetry. apply lookup_ge_None_2. apply lookup_ge_None_1 in E1. lia.
  - rewrite !lookup_ge_None_2 by lia. done.
Qed.

(** A batch of five every two minutes and results that last ten minutes: the first
    thirty nodes take all the probes.  As long as the ticks come in time, a node at a
    later position is never probed and keeps the full weight it started with, dead or
    alive. *)
Theorem late_nodes_never_probed {E} unmarshal ticks ns c addrs ns' :
  newPool unmarshal bsCache0 = (ns, c) → all_on_time 1 ticks →
  @CheckLoop E ticks ns = Ret (addrs, ns') →
  ∀ i n, (30 ≤ i)%nat → ns' !! i = Some n → weight n = baseWeight ∧ lastCheck n = None.
Proof.
  intros Hp Ht Hc i n Hi Hn.
  assert (∀ i n, ns !! i = Some n → weight n = baseWeight ∧ lastCheck n = None) as H0.
  { intros j m Hj. unfold newPool in Hp. destruct (LoadBSNodes unmarshal bsCache0) as [[nodes e] c'].
    injection Hp as <- <-. change (map ?f ?l) with (f <$> l) in Hj.
    rewrite list_lookup_fmap in Hj. destruct (nodes !! j); [|done]. by injection Hj as <-. }
  apply (H0 i). rewrite <- Hn. symmetry. eapply (CheckLoop_first_thirty ticks 1 []); [|done..].
  split; [constructor|]. intros j m Hj ? _ t Et. destruct (H0 j m Hj) as [_ H2]. congruence.
Qed.

(** The port that is dialled is the UDP port of the document, whatever ports the node
    accepts TCP connections on. *)
Lemma probe_dials_udp_port {E} n :
  @probe_addr E (bsnode_of n) = Ret (JoinHostPort (Host (bsnode_of n)) (itoa (jPort n))).
Proof. done. Qed.

(** [alive] never becomes false, as a failed probe does not touch it. *)
Lemma alive_never_false {E} probes batch ns addrs ns' :
  @probe_batch E probes batch ns = Ret (addrs, ns') →
  Forall (λ n, alive n = true) ns → Forall (λ n, alive n = true) ns'.
Proof.
  revert ns addrs ns'. induction batch as [|j batch IH]; intros ns addrs ns'; cbn [probe_batch].
  { by intros [= _ <-]. }
  destruct (ns !! j) as [m|] eqn:Hj; [|apply IH]. intros H Hf.
  apply bind_ret_inv in H as (a & _ & H). apply bind_ret_inv in H as ([as1 ns1] & H1 & H).
  injection H as _ <-. apply IH in H1; [done|]. apply Forall_insert; [done|].
  pose proof (Forall_lookup_1 _ _ _ _ Hf Hj) as Hm. cbn in Hm. unfold updateWeight. cbn [alive].
  by destruct (pr_ok (probes j)).
Qed.

(** ** Evaluation *)

Module ToyBs.

Definition jn (h : bytes) (p : Z) (tcp : list Z) : jsonNode :=
  mkJsonNode h (str "::1") p tcp (str "AB") [].
Definition doc : outcome bytes jsonRoot :=
  Ret (mkJsonRoot [jn (str "10.0.0.1") 33445 [3389; 33445]; jn (str "NONE") 33446 []]).
Definition slow : nat → probe := λ i, mkProbe (bool_decide (i = 0%nat)) (1600 * millisecond) (second).

(** The globals after one selection and the probes of both nodes: the first answers
    after 1.6 s, the second does not. *)
Definition g1 : bs_globals := (SelectOne doc (λ _, 0) bs_globals0).2.
Definition ns1 : pool_nodes := match bg_pool g1 with Some ns => ns | None => [] end.
Definition ns2 : pool_nodes :=
  match @checkBatch select_err 0 slow ns1 with Ret (_, ns) => ns | _ => [] end.

Example probes_run :
  match @checkBatch select_err 0 slow ns1 with Ret (a, _) => a | _ => [] end =
    [str "10.0.0.1:33445"; str "[::1]:33446"] ∧
  map weight ns2 = [20; 10].
Proof. split; vm_compute; reflexivity. Qed.

End ToyBs.

Lemma selection_total_witness :
  ∃ ns, bg_pool (SelectOne ToyBs.doc (λ _, 25) ToyBs.g1).2 = Some ns ∧
    Forall (λ n, 1 ≤ weight n ≤ baseWeight) ns ∧
    ∃ n, (SelectOne ToyBs.doc (λ _, 25) ToyBs.g1).1 = Ret n ∧ n ∈ document_nodes ToyBs.doc.
Proof.
  destruct (selection_total ToyBs.doc ToyBs.g1 (λ _, 25) 0 ToyBs.slow)
    as (ns & H1 & H2 & H3 & _ & H5 & _).
  - apply rtc_once. apply (step_select ToyBs.doc (λ _, 0) bs_globals0).
  - intros i. unfold ToyBs.slow. cbn. vm_compute. split; intros H; discriminate H.
  - exists ns. split; [done|]. split; [done|]. destruct H5 as (pre & n & post & Hns & Hr & _); [done|].
    exists (node n). split; [done|]. rewrite <- H2, Hns. apply list_elem_of_In, in_map, in_or_app.
    right. by left.
Defined.
