(* ===== verification/FedBoot.v ===== *)
(** * The registry of bootstraps and the Ethereum bootstrap (fedboot/fedboot.go, eth_bs.go,
      fedkey/keyconv.go)

    The registry maps the name of a type to its instance.  The Ethereum bootstrap
    starts a discovery node with the secp256k1 key of the keyring and waits until the
    discovery is ready.  The Ethereum library is third-party: the class [EthLib] with
    the laws [EthLibLaws]; whether the server starts, whether it has a discovery, and
    the answers of the polls are arguments.  [SeckeyTopubTox] derives a public key with
    whichever function it finds in the process. *)

From S2P Require Import Prelude GoIO GoText Sha2 Varint Base58.
From S2P Require Import KeyRing.
Local Open Scope Z_scope.

(** ** The registry *)

(** The types that register themselves; their methods [Start] and [Stop] return nil,
    [Info] returns an empty JSON object. *)
Inductive Instance_ : Type := Btc | Eth | Libp2p | Turn.

#[export] Instance Instance_eq_dec : EqDecision Instance_.
Proof. solve_decision. Defined.

(** [reflect.TypeOf(inst).String()] of the pointer that is registered *)
Definition type_String (i : Instance_) : bytes :=
  match i with
  | Btc => str "*fedboot.Btc"
  | Eth => str "*fedboot.Eth"
  | Libp2p => str "*fedboot.Libp2p"
  | Turn => str "*fedboot.Turn"
  end.

Definition Start {E} (i : Instance_) : outcome E unit := Ret ().
Definition Stop {E} (i : Instance_) : outcome E unit := Ret ().
Definition Info (i : Instance_) : bytes := str "{}".

Record Pool := mkPool { insts : gmap bytes Instance_ }.
Definition gp0 : Pool := mkPool ∅.

Definition regme (i : Instance_) (p : Pool) : Z * Pool :=
  (0, mkPool (<[type_String i := i]> (insts p))).

Definition List_ (p : Pool) : gmap bytes Instance_ := insts p.

(** The package initialisation: which files the build tags select, in file order. *)
Definition init_pool (built : list Instance_) : Pool :=
  foldl (λ p i, (regme i p).2) gp0 built.

(** ** The Ethereum bootstrap *)

Class EthLib := {
  (** [crypto.ToECDSA]: the error, or nil *)
  ToECDSA_err : bytes → option bytes;
  (** [crypto.FromECDSAPub] of the public key of a private key *)
  FromECDSAPub : bytes → bytes;
  (** [enode.NewV4(pub, ...).ID()] *)
  enode_ID : bytes → bytes;
  (** [enode.ParseV4] succeeds *)
  ParseV4_ok : bytes → bool
}.

(** A valid key is accepted, public keys are in the uncompressed format, and the
    identifier of a node is the Keccak hash of its two coordinates. *)
Class EthLibLaws (K : KeyPrims) (L : EthLib) : Prop := {
  ToECDSA_valid r : length r = 32%nat → ToECDSA_err (secp_priv r) = None;
  FromECDSAPub_secp r : length r = 32%nat → FromECDSAPub (secp_priv r) = secp_uncompressed r;
  enode_ID_keccak k : enode_ID k = keccak_sum (drop 1 (FromECDSAPub k))
}.

Record BootConfig := mkBootConfig { eKeyFile : bytes; ListenPort : Z; Timeout : Z }.

(** The fields of [p2p.Config] that are set. *)
Record server := mkServer {
  PrivateKey : bytes; ListenAddr : bytes; BootstrapNodes : list bytes }.

Record BootResult := mkBootResult {
  Server : server; NodeID : bytes; PubkeyHex : bytes; BootTime : Z }.

Inductive eth_err : Type :=
| ErrLoadKeyring (e : key_err)
| ErrToECDSA (e : bytes)
| ErrStartServer (e : bytes)
| ErrNoDiscovery
| ErrBootTimeout.

Definition ethBoot : list bytes :=
  [str "enode://d860a01f9722d78051619d1e2351aba3f43f943f6f00718d1b9baa4101932a1f5011f16bb2b1bb35db20d6fe28fa0bf09636d26a87d31de9ec6203eeedb1f666@18.138.108.67:30303";
   str "enode://22a8232c3abc76a16ae9d6c3b164f98775fe226f0917b0ca871128a74a8e9630b458460865bab457221f1d448dd9791d24c4e5d88786180ac185df813a68d4de@3.209.45.79:30303";
   str "enode://2b252ab6a1d0f971d9722cb839a42cb81db019ba44c08754628ab4a823487071b5695317c8ccd085219c3a03af063495b2f1da8d18218da2d6a82981b45e6ffc@65.108.70.101:30303";
   str "enode://4aeb4ab6c14b23e2c4cfdce879c04b0748a20d8e9b59e25ded2a08143e265c6c25936e74cbc8e641e3312ca288673d91f2f93f8e277de3cfa444ecdaaf982052@157.90.35.166:30303"].

(** The file system and the server that runs. *)
Record eth_state := mkEthState { es_fs : fs; es_server : option server }.

Section Eth.
Context `{KeyPrims} `{EthLib}.

(** [kr.Secp256k1Priv().Serialize()] *)
Definition privBytes (kr : KeyRing) : bytes := Secp256k1Priv kr.

(** The loop that waits: [polls] are the answers of [disc.Self() != nil] until the
    context expires. *)
Fixpoint wait_ready (polls : list bool) : bool :=
  match polls with
  | [] => false
  | ready :: polls' => if ready then true else wait_ready polls'
  end.

Definition Bootstrap (cfg : BootConfig) (rnd : outcome io_err bytes)
    (start_err : option bytes) (disc_nil : bool) (polls : list bool) (elapsed : Z)
    : stm eth_state eth_err BootResult := fun s =>
  match LoadKeyRing (eKeyFile cfg) true rnd (es_fs s) with
  | (Fail e, f) => (Fail (ErrLoadKeyring e), mkEthState f (es_server s))
  | (Panic, f) => (Panic, mkEthState f (es_server s))
  | (Ret kr, f) =>
      let priv := privBytes kr in
      match ToECDSA_err priv with
      | Some e => (Fail (ErrToECDSA e), mkEthState f (es_server s))
      | None =>
          let srv := mkServer priv ([x3a] ++ itoa (ListenPort cfg))
                       (List.filter ParseV4_ok ethBoot) in
          match start_err with
          | Some e => (Fail (ErrStartServer e), mkEthState f (es_server s))
          | None =>
              let stopped := mkEthState f None in
              if disc_nil then (Fail ErrNoDiscovery, stopped)
              else if negb (wait_ready polls) then (Fail ErrBootTimeout, stopped)
              else
                match @slice_from eth_err (FromECDSAPub priv) 1 with
                | Ret xy =>
                    (Ret (mkBootResult srv (enode_ID priv) (hexEncode xy) elapsed),
                     mkEthState f (Some srv))
                | _ => (Panic, mkEthState f (Some srv))
                end
          end
      end
  end.

(** What [mainEth] prints after a start; [res.PubkeyHex[:16]] and [res.NodeID[:8]]. *)
Definition status_lines {E} (res : BootResult) (bootTime : bytes) : outcome E (list bytes) :=
  id8 ← slice_to (NodeID res) 8;
  pk ← slice_to (PubkeyHex res) 16;
  Ret [str "✅ ONLINE"; str "   NodeID:    " ++ hexEncode id8;
       str "   Pubkey:    " ++ pk ++ str "..."; str "   Boot time: " ++ bootTime].

End Eth.

(** ** Key conversion (fedkey/keyconv.go) *)

(** [Dlsym0] finds [crypto_derive_public_key], or [crypto_scalarmult_base], or neither;
    either writes the 32-byte public key over the memory at its first argument.  Where
    the buffers are shorter than 32 bytes the call accesses memory outside them:
    [derive] is given such buffers too and decides. *)
Definition SeckeyTopubTox {E} (derive scalarmult : option (bytes → bytes)) (hexsk : bytes)
    : outcome E bytes :=
  match hexDecode hexsk with
  | None => Panic
  | Some skb =>
      let use f :=
        match skb with
        | [] => Panic                              (* &pkb[0] *)
        | _ :: _ => Ret (hexUpper (copy_into (make_bytes (length skb)) (f skb)))
        end in
      match derive with
      | Some f => use f
      | None => match scalarmult with Some f => use f | None => Ret [] end
      end
  end.

(** ** Proofs *)

Lemma type_String_inj : Inj (=) (=) type_String.
Proof. intros [] []; intros H; try done; vm_compute in H; discriminate H. Qed.

(** Whatever subset of the bootstraps is built in, in whatever order, the registry
    lists exactly these, each under the name of its type. *)
Lemma registry_lists_built built i :
  List_ (init_pool built) !! type_String i = Some i ↔ i ∈ built.
Proof.
  unfold init_pool, List_.
  assert (∀ p, insts (foldl (λ p i, (regme i p).2) p built) !! type_String i = Some i ↔
    i ∈ built ∨ insts p !! type_String i = Some i) as Hg.
  { induction built as [|j built IH]; intros p; cbn [foldl].
    - split; [by right|]. by intros [?%not_elem_of_nil|].
    - rewrite IH, list.elem_of_cons. cbn [regme snd insts].
      destruct (decide (i = j)) as [->|Hn].
      + rewrite lookup_insert_eq. tauto.
      + rewrite lookup_insert_ne by (intros E%type_String_inj; congruence). tauto. }
  rewrite Hg. cbn. rewrite lookup_empty. split; [by intros [?|?]|tauto].
Qed.

(** A keyring that was loaded is loaded again. *)
Lemma LoadKeyRing_again path rnd f kr f' create rnd' :
  LoadKeyRing path true rnd f = (Ret kr, f') →
  LoadKeyRing path create rnd' f' = (Ret kr, f') ∧ keyring_wf kr.
Proof.
  unfold LoadKeyRing. destruct (open_err f) eqn:Ho; [done|].
  destruct (files f !! path) as [text|] eqn:Hp; cbn [negb].
  - intros E. injection E as Hl <-. rewrite Ho, Hp, Hl. eauto using load_lines_wf.
  - intros H. apply stm_bind_inv in H as (k1 & s1 & E1 & H).
    apply stm_bind_inv in H as ([] & s2 & E2 & H). injection H as -> ->.
    unfold stm_wrap, stm_lift in E1, E2.
    destruct (GenerateKeyRing rnd) as [k| |] eqn:G; try discriminate E1. injection E1 as -> <-.
    apply GenerateKeyRing_wf in G. unfold Save in E2.
    destruct (create_err f); [discriminate E2|]. destruct (write_err f); [discriminate E2|].
    injection E2 as <-. cbn [open_err files]. rewrite Ho, lookup_insert_eq.
    split; [|done]. f_equal. by apply load_saved_line.
Qed.

Section EthFacts.
Context {K : KeyPrims} {KL : KeyPrimsLaws K} {L : EthLib} {LL : EthLibLaws K L}.

Lemma Bootstrap_ret cfg rnd start_err disc_nil polls elapsed s res s' :
  Bootstrap cfg rnd start_err disc_nil polls elapsed s = (Ret res, s') →
  ∃ kr, LoadKeyRing (eKeyFile cfg) true rnd (es_fs s) = (Ret kr, es_fs s') ∧
    PubkeyHex res = hexEncode (drop 1 (secp_uncompressed (raw kr))) ∧
    NodeID res = keccak_sum (drop 1 (secp_uncompressed (raw kr))) ∧
    PrivateKey (Server res) = secp_priv (raw kr) ∧ es_server s' = Some (Server res).
Proof.
  unfold Bootstrap. destruct (LoadKeyRing (eKeyFile cfg) true rnd (es_fs s)) as [[kr|e|] f] eqn:EL;
    [|discriminate..].
  destruct (LoadKeyRing_again _ _ _ _ _ false (Fail EOF) EL) as [_ Hwf].
  pose proof (length_raw kr Hwf) as Hr. unfold privBytes, Secp256k1Priv.
  rewrite ToECDSA_valid by done. destruct start_err; [discriminate|].
  destruct disc_nil; [discriminate|]. destruct (wait_ready polls); cbn [negb]; [|discriminate].
  rewrite FromECDSAPub_secp, slice_from_ok by (try done; rewrite secp_uncompressed_length; lia).
  intros [= <- <-]. exists kr. cbn [PubkeyHex NodeID Server es_fs es_server PrivateKey].
  by rewrite enode_ID_keccak, FromECDSAPub_secp.
Qed.

(** A started Ethereum node has the identity the keyring derives, and keeps it.  A
    bootstrap that returns runs a server under the secp256k1 key of the keyring in the
    key file; the public key and the node identifier it reports are those of
    [EthNodeID] and [EthENRNodeID], and printing them does not panic; any later start on the
    file that is left reports the same ones.  A bootstrap that fails after starting the
    server leaves none running. *)
Theorem eth_identity_kept cfg rnd start_err disc_nil polls elapsed s :
  es_server s = None →
  match Bootstrap cfg rnd start_err disc_nil polls elapsed s with
  | (Ret res, s') =>
      ∃ kr, LoadKeyRing (eKeyFile cfg) true rnd (es_fs s) = (Ret kr, es_fs s') ∧
        @EthNodeID K unit kr = Ret (PubkeyHex res) ∧ @EthENRNodeID K unit kr = Ret (NodeID res) ∧
        es_server s' = Some (Server res) ∧
        (length (NodeID res) = 32%nat → is_ret (@status_lines unit res []) = true) ∧
        ∀ cfg' rnd' se dn ps el s1 res1 s2,
          eKeyFile cfg' = eKeyFile cfg → es_fs s1 = es_fs s' →
          Bootstrap cfg' rnd' se dn ps el s1 = (Ret res1, s2) →
          NodeID res1 = NodeID res ∧ PubkeyHex res1 = PubkeyHex res ∧
          PrivateKey (Server res1) = PrivateKey (Server res)
  | (Fail _, s') => es_server s' = None
  | (Panic, _) => True
  end.
Proof.
  intros Hs. destruct (Bootstrap cfg rnd start_err disc_nil polls elapsed s) as [[res|e|] s'] eqn:EB; [| |done].
  - apply Bootstrap_ret in EB as (kr & EL & Hp & Hn & Hk & Hsrv). exists kr.
    pose proof (secp_uncompressed_length (raw kr)) as Hu.
    unfold EthNodeID, EthENRNodeID, Secp256k1PubUncompressed, keccak256.
    rewrite slice_from_ok by (rewrite Hu; lia). cbn [mbind outcome_bind].
    split_and!; [done|by rewrite Hp|by rewrite Hn|done| |].
    + intros Hl. unfold status_lines. rewrite (slice_to_ok (NodeID res)) by lia.
      rewrite slice_to_ok; [done|]. rewrite Hp, length_hexEncode, length_drop, Hu. lia.
    + intros cfg' rnd' se dn ps el s1 res1 s2 Ec Ef EB1.
      apply Bootstrap_ret in EB1 as (kr1 & EL1 & Hp1 & Hn1 & Hk1 & _).
      destruct (LoadKeyRing_again _ _ _ _ _ true rnd' EL) as [E2 _].
      rewrite Ec, Ef, E2 in EL1. injection EL1 as -> _. by rewrite Hp, Hp1, Hn, Hn1, Hk, Hk1.
  - revert EB. unfold Bootstrap.
    destruct (LoadKeyRing (eKeyFile cfg) true rnd (es_fs s)) as [[kr|e1|] f]; [|by intros [= _ <-]|done].
    destruct (ToECDSA_err _); [by intros [= _ <-]|]. destruct start_err; [by intros [= _ <-]|].
    destruct disc_nil; [by intros [= _ <-]|]. destruct (wait_ready polls); cbn [negb]; [|by intros [= _ <-]].
    destruct (slice_from _ 1) as [xy| |]; intros H; discriminate H.
Qed.

End EthFacts.

(** The conversion: upper-case hexadecimal text of the derived key for a 32-byte secret
    key; a text that is not hexadecimal and the empty text panic, the latter only when a
    function is found. *)
Lemma SeckeyTopubTox_ok {E} f sk :
  length sk = 32%nat → length (f sk) = 32%nat →
  @SeckeyTopubTox E (Some f) None (hexEncode sk) = Ret (hexUpper (f sk)) ∧
  @SeckeyTopubTox E None (Some f) (hexEncode sk) = Ret (hexUpper (f sk)) ∧
  @SeckeyTopubTox E (Some f) None [] = Panic ∧ @SeckeyTopubTox E None None [] = Ret [].
Proof.
  intros Hs Hf. unfold SeckeyTopubTox. rewrite hexDecode_hexEncode.
  assert (copy_into (make_bytes (length sk)) (f sk) = f sk) as ->
    by (apply copy_into_full; rewrite length_make_bytes; lia).
  destruct sk; [done|]. done.
Qed.

Module ToyEth.
Import ToyKeys.

#[export] Instance toy_eth : EthLib := {|
  ToECDSA_err _ := None; FromECDSAPub k := fit 65 k;
  enode_ID k := fit 32 (drop 1 (fit 65 k)); ParseV4_ok u := HasPrefix (str "enode://") u |}.

#[export] Instance toy_eth_laws : EthLibLaws toy_prims toy_eth.
Proof.
  split; [done| |done]. intros r Hr. change (fit 65 (fit 32 r) = fit 65 r).
  f_equal. unfold fit. apply copy_into_full. by rewrite length_make_bytes.
Qed.

Definition s0 : eth_state := mkEthState (Fs ∅ None None None) None.
Definition cfg : BootConfig := mkBootConfig (str "key.txt") 30303 60.

End ToyEth.

Import ToyKeys ToyEth.

Lemma eth_identity_kept_witness :
  ∃ res s' kr, Bootstrap ToyEth.cfg (Ret (replicate 48 x07)) None false [false; true] 5 ToyEth.s0 = (Ret res, s') ∧
    @EthNodeID ToyKeys.toy_prims unit kr = Ret (PubkeyHex res) ∧ ListenAddr (Server res) = str ":30303".
Proof.
  pose proof (eth_identity_kept ToyEth.cfg (Ret (replicate 48 x07)) None false [false; true] 5 ToyEth.s0 eq_refl) as H.
  destruct (Bootstrap ToyEth.cfg (Ret (replicate 48 x07)) None false [false; true] 5 ToyEth.s0)
    as [[res|e|] s'] eqn:E; [|vm_compute in E; discriminate E..].
  destruct H as (kr & _ & H & _). exists res, s', kr. split_and!; [done|done|].
  assert (match (Bootstrap ToyEth.cfg (Ret (replicate 48 x07)) None false [false; true] 5 ToyEth.s0).1 with
          | Ret r => ListenAddr (Server r) | _ => [] end = str ":30303") as Hl by (vm_compute; reflexivity).
  by rewrite E in Hl.
Defined.
