(* ===== verification/TurnBs.v ===== *)
(** * The TURN bootstrap (fedboot/turn_bs.go)

    A node that is reachable through a TURN relay: it loads the key file, obtains a
    UDP and a TCP relay address, answers whoever contacts it there with a line of
    text, and watches whether the relays still work.  Modelled: [readSeed], the phases of
    [bootstrap] with their output and their errors, the two service loops, the two
    health loops, and [printStatus].  The TURN client is third-party: what its calls
    return is the record [turn_env].  Random draws and clock readings are arguments. *)

From S2P Require Import Prelude GoIO GoText Sha2 Varint Base58.
From S2P Require Import KeyRing NodePool.
Local Open Scope Z_scope.

(** ** The key file *)

Inductive seed_err : Type :=
| SeedNotExist
| SeedIO (e : io_err)
| SeedNoLine.

(** The loop of [readSeed] *)
Fixpoint seed_of_lines (ls : list bytes) : outcome seed_err bytes :=
  match ls with
  | [] => Fail SeedNoLine
  | line :: ls' =>
      if HasPrefix (str "seed=") line then Ret (KeyRing.TrimSpace (drop 5 line))
      else seed_of_lines ls'
  end.

Definition readSeed (path : bytes) (s : fs) : outcome seed_err bytes :=
  match open_err s with
  | Some e => Fail (SeedIO e)
  | None =>
      match files s !! path with
      | None => Fail SeedNotExist
      | Some text => seed_of_lines (scan_lines text)
      end
  end.

(** ** The phases of [bootstrap] *)

Record Config := mkConfig {
  KeyFile : bytes; StunAddr : bytes; Server : bytes; Username : bytes; Password : bytes }.

(** The calls that leave the program, in the order they are made. *)
Inductive turn_call : Type :=
| CListenPacket
| CNewUDPClient (stun turn user pass : bytes)
| CUDPListen
| CSendBindingRequest
| CCreatePermission (addr : bytes)
| CAllocate
| CDial (addr : bytes)
| CNewTCPClient (stun turn user pass : bytes)
| CTCPListen
| CAllocateTCP.

#[export] Instance turn_call_eq_dec : EqDecision turn_call.
Proof. solve_decision. Defined.

(** What they return: the text of an error ([inl]) or an address as its text. *)
Record turn_env := mkTurnEnv {
  e_listen : bytes + bytes;       (* local address *)
  e_udp_client : bytes + unit;
  e_udp_listen : bytes + unit;
  e_binding : bytes + bytes;      (* public address *)
  e_allocate : bytes + bytes;     (* UDP relay address *)
  e_dial : bytes + bytes;         (* local address *)
  e_tcp_client : bytes + unit;
  e_tcp_listen : bytes + unit;
  e_tcp_allocate : bytes + bytes  (* TCP relay address *)
}.

Inductive turn_err : Type :=
| ErrLoadKey (e : key_err)
| ErrReadSeed (e : seed_err)
| ErrPhase (what e : bytes).

(** The variables of [bootstrap] that its services are started with. *)
Record running := mkRunning {
  r_seedHex : bytes; r_stun : bytes; r_turn : bytes;
  r_public : bytes; r_udpRelay : bytes; r_tcpRelay : bytes }.

(** The file system, the calls made, the lines printed and, once they run, what
    the services were started with. *)
Record turn_state := mkTurnState {
  t_fs : fs; t_calls : list turn_call; t_out : list bytes; t_started : option running }.

Definition println (l : bytes) : stm turn_state turn_err unit := fun s =>
  (Ret (), mkTurnState (t_fs s) (t_calls s) (t_out s ++ [l]) (t_started s)).

(** A call with its [return fmt.Errorf("what: %w", err)]. *)
Definition call {A} (c : turn_call) (what : bytes) (r : bytes + A)
    : stm turn_state turn_err A := fun s =>
  (match r with inl e => Fail (ErrPhase what e) | inr a => Ret a end, 
   mkTurnState (t_fs s) (t_calls s ++ [c]) (t_out s) (t_started s)).

Definition with_fs {E A} (wrap : E → turn_err) (m : stm fs E A) : stm turn_state turn_err A := fun s =>
  let '(r, f) := m (t_fs s) in (map_err wrap r, mkTurnState f (t_calls s) (t_out s) (t_started s)).

(** The [go] statements of phase 3. *)
Definition start (n : running) : stm turn_state turn_err unit := fun s =>
  (Ret (), mkTurnState (t_fs s) (t_calls s) (t_out s) (Some n)).

(** [list[rand.Intn(len(list))]]; [strings.Split] gives at least one part. *)
Definition pick (r : Z) (l : list bytes) : bytes := l !!! Z.to_nat (r mod zlen l).

Definition choose (r : Z) (addrs : bytes) : bytes := KeyRing.TrimSpace (pick r (SplitByte x2c addrs)).

Section Bootstrap.
Context (rndStun rndTurn : Z) (rnd : outcome io_err bytes) (env : turn_env).

(** *** Status *)

(** [d.String()] of a duration of whole seconds *)
Definition duration_String (secs : Z) : bytes :=
  let h := secs / 3600 in
  let m := secs / 60 mod 60 in
  let s := secs mod 60 in
  (if 0 <? h then itoa h ++ str "h" else []) ++
  (if 0 <? secs / 60 then itoa m ++ str "m" else []) ++
  itoa s ++ str "s".

Definition mark (ok : bool) : bytes := if ok then str "✓" else str "✗".

(** [uh], [th]: [getHealth()]; [uptime] in seconds *)
Definition printStatus (uh th : bool) (uptime : Z) (n : running) : list bytes :=
  [str "========================================";
   str "  ✅ TURN BOOTSTRAP ONLINE";
   str "========================================";
   [];
   str "  Node ID:       " ++ r_seedHex n;
   str "  STUN Server:   " ++ r_stun n;
   str "  TURN Server:   " ++ r_turn n;
   [];
   str "  📡 STUN Public:   " ++ r_public n;
   str "  📡 UDP Relay:     " ++ r_udpRelay n;
   str "  🔗 TCP Relay:     " ++ r_tcpRelay n;
   [];
   str "  💚 Health         UDP " ++ mark uh ++ str "  TCP " ++ mark th;
   str "  🕒 Uptime         " ++ duration_String uptime;
   str "  ✅ STATUS         ONLINE";
   str "========================================"].

Fixpoint println_all (ls : list bytes) : stm turn_state turn_err unit :=
  match ls with [] => mret () | l :: ls' => _ ← println l; println_all ls' end.

(** [bootstrap] up to its wait for a signal, which [signal.Notify] is never asked to
    deliver: [Ret] is that wait, and what follows it does not run. *)
Definition bootstrap (cfg : Config) (uh th : bool) (uptime : Z) : stm turn_state turn_err unit :=
  let chosenStun := choose rndStun (StunAddr cfg) in
  let chosenTurn := choose rndTurn (Server cfg) in
  _ ← println (str "[*] STUN server: " ++ chosenStun);
  _ ← println (str "[*] TURN server: " ++ chosenTurn);
  _ ← println (str "=== Phase 1: Key Loading ===");
  _ ← with_fs ErrLoadKey (LoadKeyRing (KeyFile cfg) true rnd);
  seedHex ← with_fs ErrReadSeed (fun f => (readSeed (KeyFile cfg) f, f));
  _ ← println (str "[+] Loaded key from: " ++ KeyFile cfg);
  _ ← println (str "    Node ID: " ++ seedHex);
  _ ← println [];
  _ ← println (str "=== Phase 2A: UDP TURN ===");
  udpLocal ← call CListenPacket (str "udp listen") (e_listen env);
  _ ← call (CNewUDPClient chosenStun chosenTurn (Username cfg) (Password cfg))
        (str "udp client") (e_udp_client env);
  _ ← call CUDPListen (str "udp client listen") (e_udp_listen env);
  publicAddr ← call CSendBindingRequest (str "stun binding") (e_binding env);
  _ ← call (CCreatePermission publicAddr) [] (inr ());
  _ ← println (str "[*] UDP transport: " ++ udpLocal ++ str " → " ++ chosenTurn);
  _ ← println (str "    [STUN] Public address: " ++ publicAddr);
  udpRelay ← call CAllocate (str "udp allocate") (e_allocate env);
  _ ← println (str "    [Relay] UDP relay:      " ++ udpRelay);
  _ ← println [];
  _ ← println (str "=== Phase 2B: TCP TURN ===");
  tcpLocal ← call (CDial chosenTurn) (str "tcp dial") (e_dial env);
  _ ← call (CNewTCPClient chosenStun chosenTurn (Username cfg) (Password cfg))
        (str "tcp client") (e_tcp_client env);
  _ ← call CTCPListen (str "tcp client listen") (e_tcp_listen env);
  tcpAlloc ← call CAllocateTCP (str "tcp allocate") (e_tcp_allocate env);
  _ ← println (str "[*] TCP transport: " ++ tcpLocal ++ str " → " ++ chosenTurn);
  _ ← println (str "    [Relay] TCP relay:      " ++ tcpAlloc);
  _ ← println [];
  let n := mkRunning seedHex chosenStun chosenTurn publicAddr udpRelay tcpAlloc in
  _ ← println (str "=== Phase 3: Background Services ===");
  _ ← start n;
  _ ← println (str "[*] UDP read loop started");
  _ ← println (str "[*] TCP accept loop started");
  _ ← println (str "[*] UDP health check (10s)");
  _ ← println (str "[*] TCP health check (30s)");
  _ ← println [];
  println_all (printStatus uh th uptime n).

End Bootstrap.

(** ** The services *)

(** The line that answers every contact. *)
Definition greeting (nodeID : bytes) : bytes := str "turn_bs: NodeID=" ++ nodeID ++ [x0a].

(** What is sent: a datagram from the relay, a greeting on an accepted connection, a
    ping from the peer socket. *)
Inductive sent : Type :=
| SentUDP (text addr : bytes)
| SentTCP (text addr : bytes)
| SentPing (text addr : bytes).

(** The package variables and the local variables of the loops; [lastRecvUnix] in
    seconds. *)
Record services := mkServices {
  udpHealthy : bool; tcpHealthy : bool; lastRecvUnix : Z;
  udp_i : Z; udp_fails : Z; tcp_fails : Z;
  outbox : list sent }.

Definition services0 : services := mkServices false false 0 0 0 0 [].

Definition setUDPHealthy (v : bool) (s : services) : services :=
  mkServices v (tcpHealthy s) (lastRecvUnix s) (udp_i s) (udp_fails s) (tcp_fails s) (outbox s).
Definition setTCPHealthy (v : bool) (s : services) : services :=
  mkServices (udpHealthy s) v (lastRecvUnix s) (udp_i s) (udp_fails s) (tcp_fails s) (outbox s).
Definition getHealth (s : services) : bool * bool := (udpHealthy s, tcpHealthy s).
Definition set_i (v : Z) (s : services) : services :=
  mkServices (udpHealthy s) (tcpHealthy s) (lastRecvUnix s) v (udp_fails s) (tcp_fails s) (outbox s).
Definition set_udp_fails (v : Z) (s : services) : services :=
  mkServices (udpHealthy s) (tcpHealthy s) (lastRecvUnix s) (udp_i s) v (tcp_fails s) (outbox s).
Definition set_tcp_fails (v : Z) (s : services) : services :=
  mkServices (udpHealthy s) (tcpHealthy s) (lastRecvUnix s) (udp_i s) (udp_fails s) v (outbox s).
Definition set_lastRecv (v : Z) (s : services) : services :=
  mkServices (udpHealthy s) (tcpHealthy s) v (udp_i s) (udp_fails s) (tcp_fails s) (outbox s).
Definition send (m : sent) (s : services) : services :=
  mkServices (udpHealthy s) (tcpHealthy s) (lastRecvUnix s) (udp_i s) (udp_fails s) (tcp_fails s)
    (outbox s ++ [m]).

(** One turn of [udpReadLoop]: [relay.ReadFrom] failed, or gave a datagram from [addr]
    and the clock reads [now] (in seconds). *)
Definition udpReadLoop_turn (nodeID : bytes) (read : option (bytes * bytes)) (now : Z) (s : services)
    : services :=
  match read with
  | None => s
  | Some (_, addr) => send (SentUDP (greeting nodeID) addr) (set_lastRecv now s)
  end.

(** One turn of the accept loop with its handler. *)
Definition tcpAccept_turn (nodeID : bytes) (conn : option bytes) (s : services) : services :=
  match conn with
  | None => s
  | Some addr => send (SentTCP (greeting nodeID) addr) s
  end.

Definition second_ns : Z := 1000000000.

(** The first half of a turn of [udpHealthLoop]: the ping; [ping[:16]] panics when the
    identifier has less than 13 bytes. *)
Definition udpHealth_ping {E} (nodeID relayAddr : bytes) (s : services) : outcome E services :=
  p ← slice_to (str "hb:" ++ nodeID) 16;
  Ret (send (SentPing (p ++ str "+" ++ itoa (udp_i s)) relayAddr) s).

(** The second half, ten seconds later; [now] in nanoseconds *)
Definition udpHealth_check (now : Z) (s : services) : services :=
  let s1 := set_i (i64 (udp_i s + 1)) s in
  if now - lastRecvUnix s * second_ns <? 30 * second_ns
  then setUDPHealthy true (set_udp_fails 0 s1)
  else setUDPHealthy false (set_udp_fails (i64 (udp_fails s + 1)) s1).

(** One turn of [tcpHealthLoop]; [cerr] is the text of the error of [Dial]. *)
Definition tcpHealth_turn (cerr : option bytes) (s : services) : services :=
  let bad := match cerr with
             | Some e => match Index (str "447") e with Some _ => false | None => true end
             | None => false
             end in
  if bad then setTCPHealthy false (set_tcp_fails (i64 (tcp_fails s + 1)) s)
  else setTCPHealthy true (set_tcp_fails 0 s).

(** ** The identifier is the secret seed *)

Lemma seed_of_lines_load ls kr :
  load_lines ls = Ret kr →
  ∃ s, seed_of_lines ls = Ret s ∧ hexDecode s = Some (seed kr) ∧ length s = (2 * SeedBytes)%nat.
Proof.
  induction ls as [|l ls IH]; cbn [load_lines seed_of_lines]; [done|].
  destruct (HasPrefix _ l); [|done]. case_bool_decide as Hl; [done|].
  set (s := KeyRing.TrimSpace (drop 5 l)) in *.
  destruct (hexDecode s) as [b|] eqn:E; [|done]. intros [= <-]. exists s.
  assert (length s = SeedBytes * 2)%nat as Hs by lia.
  pose proof (length_hexDecode _ _ E) as Hb. cbn [seed].
  rewrite copy_into_full by (rewrite length_make_bytes; lia).
  split_and!; [done|done|lia].
Qed.

(** What a successful load leaves in the file is what it returned. *)
Lemma LoadKeyRing_readSeed path rnd f kr f' :
  LoadKeyRing path true rnd f = (Ret kr, f') →
  ∃ s, readSeed path f' = Ret s ∧ hexDecode s = Some (seed kr) ∧ length s = (2 * SeedBytes)%nat.
Proof.
  unfold LoadKeyRing. destruct (open_err f) eqn:Ho; [done|].
  destruct (files f !! path) as [text|] eqn:Hp; cbn [negb].
  - intros H. injection H as Hl <-. unfold readSeed. rewrite Ho, Hp. by apply seed_of_lines_load.
  - intros H. apply stm_bind_inv in H as (k1 & s1 & E1 & H).
    apply stm_bind_inv in H as ([] & s2 & E2 & H). injection H as -> ->.
    unfold stm_wrap, stm_lift in E1, E2.
    destruct (GenerateKeyRing rnd) as [k| |] eqn:G; try discriminate E1. injection E1 as -> <-.
    apply GenerateKeyRing_wf in G. unfold Save in E2.
    destruct (create_err f); [discriminate E2|]. destruct (write_err f); [discriminate E2|].
    injection E2 as <-. unfold readSeed. cbn [open_err files]. rewrite Ho, lookup_insert_eq.
    apply seed_of_lines_load. by apply load_saved_line.
Qed.

Lemma with_fs_inv {E A} wrap (m : stm fs E A) s a s' :
  with_fs wrap m s = (Ret a, s') → m (t_fs s) = (Ret a, t_fs s').
Proof.
  unfold with_fs. destruct (m (t_fs s)) as [[x|e|] f]; cbn; intros H; try discriminate H.
  by injection H as <- <-.
Qed.

Lemma println_keeps l s r s' :
  println l s = (r, s') → t_fs s' = t_fs s ∧ t_started s' = t_started s.
Proof. unfold println. by intros [= _ <-]. Qed.

Lemma println_all_keeps ls s r s' :
  println_all ls s = (r, s') → t_fs s' = t_fs s ∧ t_started s' = t_started s.
Proof.
  revert s. induction ls as [|l ls IH]; intros s; cbn [println_all]; [by intros [= _ <-]|].
  intros H. apply (IH _ H).
Qed.

Lemma call_fs {A} c what (x : bytes + A) s r s' : call c what x s = (r, s') → t_fs s' = t_fs s.
Proof. unfold call. by intros [= _ <-]. Qed.

Lemma start_keeps n s r s' :
  start n s = (r, s') → t_fs s' = t_fs s ∧ t_started s' = Some n.
Proof. unfold start. by intros [= _ <-]. Qed.

(** Peel the calls of a run that returned. *)
Ltac peel H :=
  let a := fresh "a" in let s := fresh "s" in let E := fresh "E" in
  apply stm_bind_inv in H as (a & s & E & H).

Lemma bootstrap_seed rs rt rnd env cfg uh th up s s' :
  bootstrap rs rt rnd env cfg uh th up s = (Ret (), s') →
  ∃ n kr, t_started s' = Some n ∧
    LoadKeyRing (KeyFile cfg) true rnd (t_fs s) = (Ret kr, t_fs s') ∧
    hexDecode (r_seedHex n) = Some (seed kr) ∧ length (r_seedHex n) = (2 * SeedBytes)%nat.
Proof.
  unfold bootstrap. intros H. peel H. peel H. peel H.
  apply println_keeps in E as [E _], E0 as [E0 _], E1 as [E1 _].
  peel H. apply with_fs_inv in E2. rewrite E1, E0, E in E2.
  peel H. apply with_fs_inv in E3. injection E3 as E3 E3'.
  repeat (lazymatch type of H with println_all _ _ = _ => fail | _ => peel H end; match goal with
    | K : println _ _ = _ |- _ => apply println_keeps in K as [K ?]
    | K : call _ _ _ _ = _ |- _ => apply call_fs in K
    | K : start _ _ = _ |- _ => apply start_keeps in K as [K ?] end).
  apply println_all_keeps in H as [H Hn].
  eexists _, a2. split; [repeat (eassumption || (etransitivity; [eassumption|]))|].
  cbn [r_seedHex]. rewrite E2. split; [f_equal; congruence|].
  apply LoadKeyRing_readSeed in E2 as (t & Ht & Hd & Hl).
  rewrite Ht in E3. apply (inj Ret) in E3 as <-. done.
Qed.

(** C29: a node that has started publishes the secret its keys derive from.  Whatever
    was in the key file, the identifier its services are started with is the text of the
    48-byte seed that [LoadKeyRing] read or generated: the seed can be decoded from the
    answer to any datagram or connection.  (The text is also long enough for the health
    loop never to panic.) *)
Theorem started_node_sends_seed rs rt rnd env cfg uh th up s s' addr data now sv relayAddr :
  bootstrap rs rt rnd env cfg uh th up s = (Ret (), s') →
  ∃ n kr text, t_started s' = Some n ∧
    LoadKeyRing (KeyFile cfg) true rnd (t_fs s) = (Ret kr, t_fs s') ∧
    outbox (udpReadLoop_turn (r_seedHex n) (Some (data, addr)) now sv) = outbox sv ++ [SentUDP text addr] ∧
    outbox (tcpAccept_turn (r_seedHex n) (Some addr) sv) = outbox sv ++ [SentTCP text addr] ∧
    hexDecode (take 96 (drop 16 text)) = Some (seed kr) ∧
    is_ret (@udpHealth_ping unit (r_seedHex n) relayAddr sv) = true.
Proof.
  intros H. apply bootstrap_seed in H as (n & kr & H0 & H1 & H2 & H3).
  exists n, kr, (greeting (r_seedHex n)). split_and!; [done|done|done|done| |].
  - unfold greeting. rewrite drop_app_exact by done.
    rewrite take_app_exact by (by rewrite H3). done.
  - unfold udpHealth_ping. rewrite slice_to_ok; [done|]. rewrite length_app, H3. cbn. lia.
Qed.

(** ** Health *)

(** What the loops of a running node do, in any order; times in nanoseconds. *)
Inductive event : Type :=
| EvDatagram (data addr : bytes) (now : Z)
| EvReadError
| EvAccept (conn : option bytes)
| EvPing
| EvCheckUDP (now : Z)
| EvCheckTCP (cerr : option bytes).

Definition step (nodeID relayAddr : bytes) (s : services) (e : event) : services :=
  match e with
  | EvDatagram d a now => udpReadLoop_turn nodeID (Some (d, a)) (now / second_ns) s
  | EvReadError => udpReadLoop_turn nodeID None 0 s
  | EvAccept c => tcpAccept_turn nodeID c s
  | EvPing => match @udpHealth_ping unit nodeID relayAddr s with Ret s' => s' | _ => s end
  | EvCheckUDP now => udpHealth_check now s
  | EvCheckTCP cerr => tcpHealth_turn cerr s
  end.

Definition run (nodeID relayAddr : bytes) (es : list event) : services :=
  foldl (step nodeID relayAddr) services0 es.

(** The second of the last datagram; the variable starts at the epoch. *)
Definition last_datagram (es : list event) : Z :=
  foldl (λ t e, match e with EvDatagram _ _ now => now / second_ns | _ => t end) 0 es.

Definition checks_udp (e : event) : bool := match e with EvCheckUDP _ => true | _ => false end.
Definition checks_tcp (e : event) : bool := match e with EvCheckTCP _ => true | _ => false end.

(** The errors after which the TCP relay counts as working. *)
Definition tcp_alive (cerr : option bytes) : bool :=
  match cerr with
  | None => true
  | Some e => match Index (str "447") e with Some _ => true | None => false end
  end.

Lemma step_lastRecv id ra s e :
  lastRecvUnix (step id ra s e) =
  match e with EvDatagram _ _ now => now / second_ns | _ => lastRecvUnix s end.
Proof.
  destruct e as [d a now| |[c|]| |now|cerr]; cbn [step]; try done.
  - unfold udpHealth_ping, slice_to. by case_bool_decide.
  - unfold udpHealth_check. by case_match.
  - unfold tcpHealth_turn. by case_match.
Qed.

Lemma step_health id ra s e :
  (checks_udp e = false → udpHealthy (step id ra s e) = udpHealthy s) ∧
  (checks_tcp e = false → tcpHealthy (step id ra s e) = tcpHealthy s).
Proof.
  destruct e as [d a now| |[c|]| |now|cerr]; cbn [step checks_udp checks_tcp]; try done.
  - unfold udpHealth_ping, slice_to. by case_bool_decide.
  - unfold udpHealth_check. by case_match.
  - unfold tcpHealth_turn. by case_match.
Qed.

Lemma run_lastRecv id ra es : lastRecvUnix (run id ra es) = last_datagram es.
Proof.
  unfold run, last_datagram. change 0 with (lastRecvUnix services0). generalize services0.
  induction es as [|e es IH]; intros s; cbn [foldl]; [done|]. rewrite IH, step_lastRecv.
  by destruct e.
Qed.

Lemma health_kept id ra s es :
  (forallb (λ e, negb (checks_udp e)) es = true →
     udpHealthy (foldl (step id ra) s es) = udpHealthy s) ∧
  (forallb (λ e, negb (checks_tcp e)) es = true →
     tcpHealthy (foldl (step id ra) s es) = tcpHealthy s).
Proof.
  revert s. induction es as [|e es IH]; intros s; cbn [foldl forallb]; [done|].
  destruct (step_health id ra s e) as [H1 H2]. destruct (IH (step id ra s e)) as [I1 I2].
  split; intros [Ha Hb]%andb_true_iff; apply negb_true_iff in Ha;
    [rewrite I1, H1 by done|rewrite I2, H2 by done]; done.
Qed.

(** The reported health is what was observed.  In every run of the loops, from the last
    check on and until the next one, the UDP relay is reported healthy exactly when
    a datagram had come in less than thirty seconds before that check (counted from the
    start of its second), and the TCP relay exactly when the last dial over it succeeded
    or failed with an error that mentions 447. *)
Theorem health_is_observed id ra pre post now cerr :
  (forallb (λ e, negb (checks_udp e)) post = true →
   udpHealthy (run id ra (pre ++ EvCheckUDP now :: post)) =
     (now - last_datagram pre * second_ns <? 30 * second_ns)) ∧
  (forallb (λ e, negb (checks_tcp e)) post = true →
   tcpHealthy (run id ra (pre ++ EvCheckTCP cerr :: post)) = tcp_alive cerr).
Proof.
  unfold run. rewrite !foldl_app. fold (run id ra pre). cbn [foldl].
  split; intros Hp; [rewrite (proj1 (health_kept _ _ _ _) Hp)|rewrite (proj2 (health_kept _ _ _ _) Hp)];
    cbn [step].
  - unfold udpHealth_check. rewrite run_lastRecv. by destruct (_ <? _).
  - unfold tcpHealth_turn, tcp_alive. destruct cerr as [e|]; [|done]. by destruct (Index _ e).
Qed.

Lemma health_is_observed_witness :
  udpHealthy (run (make_bytes 96) [] ([EvDatagram [] [] (70 * second_ns)] ++ [EvCheckUDP (81 * second_ns)])) = true.
Proof.
  exact (proj1 (health_is_observed (make_bytes 96) [] [EvDatagram [] [] (70 * second_ns)] []
    (81 * second_ns) None) eq_refl).
Defined.

(** A node is reported unhealthy, and its status as online, before the first check. *)
Lemma status_before_check n uptime :
  getHealth services0 = (false, false) ∧
  str "  ✅ STATUS         ONLINE" ∈ printStatus false false uptime n.
Proof. split; [done|]. unfold printStatus. do 14 right. left. Qed.

(** *** Two nodes answer each other for ever *)

(** Datagrams between the relays [a] and [b] of two nodes: the source, the
    destination and the text; each is delivered to [udpReadLoop] of its destination. *)
Definition deliver (ids : bytes → bytes) (m : bytes * bytes * bytes) : list (bytes * bytes * bytes) :=
  let '(src, dst, data) := m in
  omap (λ x, match x with SentUDP t to => Some (dst, to, t) | _ => None end)
    (outbox (udpReadLoop_turn (ids dst) (Some (data, src)) 0 services0)).

Definition round (ids : bytes → bytes) (flight : list (bytes * bytes * bytes)) : list (bytes * bytes * bytes) :=
  concat (map (deliver ids) flight).

Lemma reply_storm ids a b data n :
  ∃ src dst t, Nat.iter (S n) (round ids) [(a, b, data)] = [(src, dst, greeting t)] ∧
    ((src = a ∧ dst = b) ∨ (src = b ∧ dst = a)).
Proof.
  induction n as [|n (src & dst & t & IH & Hc)].
  - exists b, a, (ids b). cbn. auto.
  - exists dst, src, (ids dst). rewrite Nat.iter_succ, IH. cbn. split; [done|]. destruct Hc; tauto.
Qed.

(** ** Evaluation *)

Module ToyTurn.

Definition cfg : Config :=
  mkConfig (str "key.txt") (str "stun.a:80, stun.b:3478") (str "turn.a:80") (str "foo") (str "bar").
Definition env : turn_env :=
  mkTurnEnv (inr (str "0.0.0.0:5")) (inr ()) (inr ()) (inr (str "1.2.3.4:5")) (inr (str "9.9.9.9:1"))
    (inr (str "10.0.0.2:7")) (inr ()) (inr ()) (inr (str "9.9.9.9:2")).
Definition s0 : turn_state := mkTurnState (Fs ∅ None None None) [] [] None.

Definition result : outcome turn_err unit * turn_state :=
  Eval vm_compute in bootstrap 1 0 (Ret (make_bytes 48)) env cfg false false 3 s0.

Lemma result_eq : bootstrap 1 0 (Ret (make_bytes 48)) env cfg false false 3 s0 = result.
Proof. vm_compute. reflexivity. Qed.

Example chosen : option_map r_stun (t_started result.2) = Some (str "stun.b:3478").
Proof. reflexivity. Qed.

(** The dial fails: the UDP allocation has been made, no TCP client is and no
    service starts. *)
Definition env_nodial : turn_env :=
  mkTurnEnv (inr (str "0.0.0.0:5")) (inr ()) (inr ()) (inr (str "1.2.3.4:5")) (inr (str "9.9.9.9:1"))
    (inl (str "refused")) (inr ()) (inr ()) (inr (str "9.9.9.9:2")).

Example dial_refused :
  let '(r, s) := bootstrap 1 0 (Ret (make_bytes 48)) env_nodial cfg false false 3 s0 in
  r = Fail (ErrPhase (str "tcp dial") (str "refused")) ∧
  list.last (t_calls s) = Some (CDial (str "turn.a:80")) ∧ t_started s = None.
Proof. vm_compute. by split. Qed.

End ToyTurn.

Lemma started_node_sends_seed_witness :
  ∃ s' n kr text, ToyTurn.result = (Ret (), s') ∧ t_started s' = Some n ∧
    LoadKeyRing (str "key.txt") true (Ret (make_bytes 48)) (t_fs ToyTurn.s0) = (Ret kr, t_fs s') ∧
    outbox (udpReadLoop_turn (r_seedHex n) (Some ([], str "peer")) 0 services0) =
      [SentUDP text (str "peer")] ∧
    hexDecode (take 96 (drop 16 text)) = Some (seed kr).
Proof.
  destruct ToyTurn.result as [[[]|e|] s'] eqn:E; [|discriminate E..].
  destruct (started_node_sends_seed 1 0 (Ret (make_bytes 48)) ToyTurn.env ToyTurn.cfg false false 3
    ToyTurn.s0 s' (str "peer") [] 0 services0 []) as (n & kr & text & Hn & Hl & Hu & _ & Hd & _).
  - by rewrite ToyTurn.result_eq.
  - by exists s', n, kr, text.
Defined.
