(* ===== verification/TcpCli.v ===== *)
(** * The relay client over the C library (tcpcli/tcpclient.go, tcpcli/cliutils.c)

    [ConnPool] drives the TCP connections of the C library: it adds relays, sends
    out-of-band packets through one of them and hands the packets it receives to
    [ReadFrom] through a bounded channel.  Modelled: the pool and its operations, the
    key file, and the channel with its two goroutines.  The C library is the class
    [TcpLib]; the order in which Go iterates over the relays, the clock and new key pairs
    are arguments.  A pointer to a key is the byte slice behind it. *)

From S2P Require Import Prelude Nonce GoIO GoText Varint.
Local Open Scope Z_scope.

Definition KEY_SIZE : nat := 32.
Definition PACKET_SIZE : Z := 1372.

(** ** Keys as text *)

Definition key_hex_check {E} (key : bytes) : outcome E unit :=
  if zlen key <? 32 * 2 then Panic
  else match hexDecode key with Some _ => Ret () | None => Panic end.

(** [&val[0]] *)
Definition key_hex2bin {E} (key : bytes) : outcome E bytes :=
  _ ← key_hex_check key;
  match hexDecode key with
  | None | Some [] => Panic
  | Some val => Ret val
  end.

(** [C.GoStringN(key, 32)] of a buffer of at least 32 bytes *)
Definition key_bin2hex (key : bytes) : bytes := map to_upper (hexEncode (take 32 key)).

(** ** The key file (cliutils.c) *)

(** The text up to the first zero byte *)
Fixpoint c_str (l : bytes) : bytes :=
  match l with [] => [] | b :: l' => if bool_decide (b = x00) then [] else b :: c_str l' end.

(** [hex_to_bin(hex, bin, max_len)]: what it returns, and [bin] after the bytes it wrote
    before an error. *)
Fixpoint hex_to_bin_loop (s bin : bytes) (i : nat) : Z * bytes :=
  match s with
  | a :: b :: s' =>
      match hex_value a, hex_value b with
      | Some hi, Some lo => hex_to_bin_loop s' (<[i := zb (Z.lor (Z.shiftl hi 4) lo)]> bin) (S i)
      | _, _ => (-1, bin)
      end
  | _ => (Z.of_nat i, bin)
  end.

Definition hex_to_bin (hex bin : bytes) (max_len : nat) : Z * bytes :=
  if bool_decide (length hex mod 2 ≠ 0)%nat then (-1, bin)
  else if bool_decide (max_len < length hex / 2)%nat then (-1, bin)
  else hex_to_bin_loop hex bin 0.

(** [fgets(line, 128, f)] until the end of the file: pieces of at most 127 bytes that
    end with a newline or at the limit; [n] is the room left. *)
Fixpoint fgets_lines (text cur : bytes) (n : nat) : list bytes :=
  match text with
  | [] => if bool_decide (cur = []) then [] else [cur]
  | b :: text' =>
      match n with
      | O => if bool_decide (b = x0a) then cur :: [b] :: fgets_lines text' [] 127
             else cur :: fgets_lines text' [b] 126
      | S n' =>
          if bool_decide (b = x0a) then (cur ++ [b]) :: fgets_lines text' [] 127
          else fgets_lines text' (cur ++ [b]) n'
      end
  end.

(** [line[strcspn(line, "\r\n")] = '\0'] *)
Fixpoint cut_eol (l : bytes) : bytes :=
  match l with
  | [] => []
  | b :: l' => if bool_decide (b = x0d ∨ b = x0a) then [] else b :: cut_eol l'
  end.

Record load_state := mkLoad { l_pk : bytes; l_sk : bytes; got_pk : bool; got_sk : bool }.

(** The body of the loop of [toxin_load_keys] *)
Definition load_line (s : load_state) (raw : bytes) : load_state :=
  let line := cut_eol (c_str raw) in
  let try_sk s :=
    if HasPrefix (str "sk=") line then
      let '(r, sk) := hex_to_bin (drop 3 line) (l_sk s) 32 in
      mkLoad (l_pk s) sk (got_pk s) (if r =? 32 then true else got_sk s)
    else s in
  if HasPrefix (str "pk=") line then
    let '(r, pk) := hex_to_bin (drop 3 line) (l_pk s) 32 in
    let s := mkLoad pk (l_sk s) (got_pk s) (got_sk s) in
    if r =? 32 then mkLoad pk (l_sk s) true (got_sk s) else try_sk s
  else try_sk s.

Definition is_zero (buf : bytes) : bool := forallb (λ b, bool_decide (b = x00)) buf.

(** Files by path; [fs_writable] tells whether [fopen] for writing succeeds. *)
Record keyfs := mkKeyFs { kf_files : gmap bytes bytes; fs_writable : bool }.

(** The code it returns and the buffers *)
Definition toxin_load_keys (path pk sk : bytes) (f : keyfs) : Z * bytes * bytes :=
  match kf_files f !! path with
  | None => (-1, pk, sk)
  | Some text =>
      let s := foldl load_line (mkLoad pk sk false false) (fgets_lines text [] 127) in
      if negb (got_pk s) || negb (got_sk s) || is_zero (l_pk s) || is_zero (l_sk s)
      then (-1, l_pk s, l_sk s) else (0, l_pk s, l_sk s)
  end.

Definition key_text (pk sk : bytes) : bytes :=
  str "pk=" ++ map to_upper (hexEncode pk) ++ [x0a] ++
  str "sk=" ++ map to_upper (hexEncode sk) ++ [x0a].

Definition toxin_save_keys (path pk sk : bytes) (f : keyfs) : Z * keyfs :=
  if fs_writable f then (0, mkKeyFs (<[path := key_text pk sk]> (kf_files f)) true) else (-1, f).

(** [draw] is the pair [crypto_new_keypair] makes. *)
Definition keyfile_neworload (keyfile : bytes) (draw : bytes * bytes) (f : keyfs)
    : bytes * bytes * keyfs :=
  let zero := make_bytes KEY_SIZE in
  let '(r, pk, sk) := toxin_load_keys keyfile zero zero f in
  let '(pk, sk, f) :=
    if r =? -1 then
      let '(pk, sk) := draw in (pk, sk, (toxin_save_keys keyfile pk sk f).2)
    else (pk, sk, f) in
  (map to_upper (hexEncode pk), map to_upper (hexEncode sk), f).

(** ** The C library *)

Class TcpLib := {
  tcpc : Type;                                   (* a TCP_Connections object *)
  new_tcp_connections : bytes → tcpc;            (* the own secret key *)
  set_tcp_onion_status : tcpc → tcpc;
  do_tcp_connections : tcpc → tcpc;
  (** address, port in host order, key of the relay *)
  add_tcp_relay_global : bytes → Z → bytes → tcpc → Z * tcpc;
  tcp_connected_relays_count : tcpc → Z;
  tcp_relay_is_valid : bytes → tcpc → bool;
  (** keys of the relay and of the peer, data *)
  tcp_send_oob_packet_using_relay : bytes → bytes → bytes → tcpc → Z * tcpc;
  addr_parse_ip : bytes → option bytes
}.

(** ** The pool *)

Record oobpacket := mkOob { o_data : bytes; o_peerpk : bytes }.

Record relay_node := mkRelay { n_ip : bytes; n_port : Z; n_pk : bytes }.

Definition oobcap : nat := 8.

Record ConnPool `{TcpLib} := mkConnPool {
  Conns : option tcpc;
  renew_time : Z;                  (* nanoseconds *)
  Selfpk : bytes;
  Selfsk : bytes;
  oobinch : list oobpacket;
  relays : gmap bytes relay_node;
  killed : list tcpc               (* objects passed to kill_tcp_connections *)
}.

Inductive tcp_err : Type :=
| ErrPacketTooLong (n : Z)
| ErrAddRelay (ip : bytes) (port : Z)
| ErrSendOob (rv : Z) (valid : bool) (count : Z).

Section Pool.
Context `{TcpLib}.

Definition set_Conns (c : tcpc) (p : ConnPool) : ConnPool :=
  mkConnPool _ (Some c) (renew_time p) (Selfpk p) (Selfsk p) (oobinch p) (relays p) (killed p).
Definition set_relays (r : gmap bytes relay_node) (p : ConnPool) : ConnPool :=
  mkConnPool _ (Conns p) (renew_time p) (Selfpk p) (Selfsk p) (oobinch p) r (killed p).
Definition set_oobinch (q : list oobpacket) (p : ConnPool) : ConnPool :=
  mkConnPool _ (Conns p) (renew_time p) (Selfpk p) (Selfsk p) q (relays p) (killed p).

(** A call into the library needs the object. *)
Definition conns {E} (p : ConnPool) : outcome E tcpc :=
  match Conns p with Some c => Ret c | None => Panic end.

Definition Iterate {E} (p : ConnPool) : outcome E ConnPool :=
  c ← conns p; Ret (set_Conns (do_tcp_connections c) p).

(** A text that is no address is logged and reported as success; the error of the
    hexadecimal decoder is dropped, [&pkb[0]] panics on an empty key. *)
Definition AddTcpRelay (ip : bytes) (port : Z) (pk : bytes) (p : ConnPool)
    : outcome tcp_err (option tcp_err * ConnPool) :=
  let pkb := (hex_DecodeString pk).1 in
  match addr_parse_ip ip with
  | None => Ret (None, p)
  | Some addr =>
      match pkb with
      | [] => Panic
      | _ :: _ =>
          c ← conns p;
          let '(rv, c') := add_tcp_relay_global addr (u16 port) pkb c in
          let p := set_Conns c' p in
          if negb (rv =? 0) then Ret (Some (ErrAddRelay ip port), p)
          else Ret (None, set_relays (<[ip := mkRelay ip port pk]> (relays p)) p)
      end
  end.

Definition IsConnected {E} (p : ConnPool) : outcome E bool :=
  c ← conns p; Ret (0 <? tcp_connected_relays_count c).

(** [order] lists the relays in the order of the iteration. *)
Definition send_oob (order : list (bytes * relay_node)) (peerpk data : bytes) (p : ConnPool)
    : outcome tcp_err (option tcp_err * ConnPool) :=
  let pk := match order with (_, rl) :: _ => n_pk rl | [] => [] end in
  relay_pkb ← key_hex2bin pk;
  peer_pkb ← key_hex2bin peerpk;
  _ ← index data 0;
  c ← conns p;
  let '(rv, c') := tcp_send_oob_packet_using_relay relay_pkb peer_pkb data c in
  let p := set_Conns c' p in
  if rv <? 0
  then Ret (Some (ErrSendOob rv (tcp_relay_is_valid relay_pkb c') (tcp_connected_relays_count c')), p)
  else Ret (None, p).

Definition WriteTo (order : list (bytes * relay_node)) (buf addr : bytes) (p : ConnPool)
    : outcome tcp_err (Z * option tcp_err * ConnPool) :=
  if PACKET_SIZE <? zlen buf then Ret (-1, Some (ErrPacketTooLong (zlen buf)), p)
  else
    _ ← key_hex_check addr;
    '(err, p') ← send_oob order addr buf p;
    Ret (zlen buf, err, p').

(** [buf] before the call; the count, the sender, [buf] after the call.  An empty channel
    blocks: [None]. *)
Definition ReadFrom (buf : bytes) (p : ConnPool) : option (Z * bytes * bytes * ConnPool) :=
  match oobinch p with
  | [] => None
  | pkt :: q => Some (zlen (o_data pkt), o_peerpk pkt, copy_into buf (o_data pkt), set_oobinch q p)
  end.

Definition on_oob_packet (peerpk pkt : bytes) (p : ConnPool) : ConnPool :=
  let q := if bool_decide (oobcap ≤ length (oobinch p))%nat then drop 1 (oobinch p) else oobinch p in
  set_oobinch (q ++ [mkOob pkt peerpk]) p.

(** The exported callback: the packet as the C library passes it. *)
Definition toxin_on_oob_packet_bygo (peerpk packet : bytes) (length_ : Z) (p : ConnPool) : ConnPool :=
  on_oob_packet (key_bin2hex peerpk) (take (Z.to_nat (u16 length_)) packet) p.

Fixpoint readd_relays (order : list (bytes * relay_node)) (p : ConnPool) : outcome tcp_err ConnPool :=
  match order with
  | [] => Ret p
  | (_, rl) :: order' =>
      '(_, p') ← AddTcpRelay (n_ip rl) (n_port rl) (n_pk rl) p;
      readd_relays order' p'
  end.

Definition renew (order : list (bytes * relay_node)) (now : Z) (p : ConnPool) : outcome tcp_err ConnPool :=
  skb ← key_hex2bin (Selfsk p);
  let o := set_tcp_onion_status (new_tcp_connections skb) in
  let old := Conns p in
  let p := mkConnPool _ (Some o) now (Selfpk p) (Selfsk p) (oobinch p) (relays p) (killed p) in
  p ← readd_relays order p;
  Ret (match old with
       | Some c => mkConnPool _ (Conns p) (renew_time p) (Selfpk p) (Selfsk p) (oobinch p) (relays p)
                     (killed p ++ [c])
       | None => p
       end).

Definition reconnect (order : list (bytes * relay_node)) (now : Z) (p : ConnPool)
    : outcome tcp_err ConnPool :=
  if now - renew_time p <? 9 * 1000000000 then Ret p else renew order now p.

Definition new_pool (keyfile : bytes) (draw : bytes * bytes) (now : Z) (f : keyfs)
    : outcome tcp_err (ConnPool * keyfs) :=
  let '(pk, sk, f') := keyfile_neworload keyfile draw f in
  _ ← key_hex_check pk;
  _ ← key_hex_check sk;
  p ← renew [] now (mkConnPool _ None 0 pk sk [] ∅ []);
  Ret (p, f').

(** The maps and the channel are made after [new_pool], which uses none of them. *)
Definition New (keyfile : bytes) (draw : bytes * bytes) (now : Z) (f : keyfs)
    : outcome tcp_err (ConnPool * keyfs) :=
  '(p, f') ← new_pool keyfile draw now f;
  Ret (set_oobinch [] (set_relays ∅ p), f').

(** [WaitConnected] with [fuel] turns: [None] is that it has not returned yet. *)
Fixpoint WaitConnected (fuel : nat) (p : ConnPool) : option (outcome tcp_err ConnPool) :=
  match fuel with
  | O => None
  | S f =>
      match IsConnected p with
      | Ret true => Some (Ret p)
      | Ret false =>
          match Iterate p with
          | Ret p' => WaitConnected f p'
          | Fail e => Some (Fail e)
          | Panic => Some Panic
          end
      | Fail e => Some (Fail e)
      | Panic => Some Panic
      end
  end.

End Pool.

(** ** Addresses *)

Definition Network_ : bytes := str "toxnet".
Definition Sub7 {E} (a : bytes) : outcome E bytes := slice_to a 7.

(** ** The key file: proofs *)

Lemma fgets_line l k cur n :
  x0a ∉ l → (length l < n)%nat →
  fgets_lines (l ++ x0a :: k) cur n = (cur ++ l ++ [x0a]) :: fgets_lines k [] 127.
Proof.
  revert cur n. induction l as [|b l IH]; intros cur n Hl Hn; cbn [app fgets_lines].
  - destruct n; [cbn in Hn; lia|]. by rewrite bool_decide_true.
  - apply list.not_elem_of_cons in Hl as [Hb Hl]. cbn [length] in Hn. destruct n as [|n]; [lia|].
    rewrite bool_decide_false by congruence. rewrite IH by (done || lia). by rewrite <- app_assoc.
Qed.

Lemma upper_hex_byte b :
  ∃ x y, map to_upper (hexEncode [b]) = [x; y] ∧
    hex_value x = Some (bz b / 16) ∧ hex_value y = Some (bz b mod 16).
Proof.
  pose proof (bz_range b). eexists _, _. split; [reflexivity|].
  rewrite !hex_value_upper; [done|apply Z.mod_pos_bound; lia|].
  split; [apply Z.div_pos; lia|apply Z.div_lt_upper_bound; lia].
Qed.

Lemma nibbles b : zb (Z.lor (Z.shiftl (bz b / 16) 4) (bz b mod 16)) = b.
Proof.
  pose proof (bz_range b). pose proof (Z.mod_pos_bound (bz b) 16 ltac:(lia)).
  rewrite Z.lor_comm, lor_shiftl_add by lia. rewrite <- (zb_bz b) at 3. f_equal.
  pose proof (Z.div_mod (bz b) 16). change (2 ^ 4) with 16. lia.
Qed.

Lemma hex_to_bin_loop_upper l bin i :
  (i + length l ≤ length bin)%nat →
  hex_to_bin_loop (map to_upper (hexEncode l)) bin i =
    (Z.of_nat (i + length l), take i bin ++ l ++ drop (i + length l) bin).
Proof.
  revert bin i. induction l as [|b l IH]; intros bin i Hl.
  - cbn [hexEncode map hex_to_bin_loop length app]. rewrite Nat.add_0_r. by rewrite take_drop.
  - destruct (upper_hex_byte b) as (x & y & E & Hx & Hy). cbn [hexEncode map] in *.
    injection E as -> ->. cbn [hex_to_bin_loop]. rewrite Hx, Hy, nibbles. cbn [length] in *.
    rewrite IH by (rewrite length_insert; lia). f_equal; [lia|].
    rewrite take_insert_lt_snoc by lia. rewrite drop_insert_lt by lia.
    rewrite <- app_assoc. cbn [app]. do 3 f_equal. f_equal. lia.
Qed.

Lemma length_hex l : length (map to_upper (hexEncode l)) = (2 * length l)%nat.
Proof. rewrite length_map. induction l as [|b l IH]; cbn; lia. Qed.

Lemma hex_to_bin_upper l bin n :
  length bin = n → length l = n →
  hex_to_bin (map to_upper (hexEncode l)) bin n = (Z.of_nat n, l).
Proof.
  intros Hb Hl. unfold hex_to_bin. rewrite length_hex, Hl.
  rewrite bool_decide_false by (intros Hc; apply Hc; rewrite Nat.mul_comm; apply Nat.Div0.mod_mul).
  rewrite bool_decide_false by (rewrite Nat.mul_comm, Nat.div_mul; lia).
  rewrite hex_to_bin_loop_upper by lia. cbn [take app]. rewrite drop_ge by lia.
  by rewrite app_nil_r, Hl.
Qed.

(** Neither end of line, carriage return nor zero occur in hexadecimal text. *)
Definition plain (b : byte) : bool := bool_decide (b ≠ x00 ∧ b ≠ x0a ∧ b ≠ x0d).

Lemma upper_hex_plain l : forallb plain (map to_upper (hexEncode l)) = true.
Proof.
  induction l as [|b l IH]; [done|]. cbn [hexEncode map forallb]. rewrite IH, andb_true_r.
  pose proof (forall_bytes (λ b, plain (to_upper (hex_digit (bz b / 16))) &&
    plain (to_upper (hex_digit (bz b mod 16)))) ltac:(vm_compute; reflexivity) b) as Hb.
  exact Hb.
Qed.

Lemma plain_line l : forallb plain l = true → c_str (l ++ [x0a]) = l ++ [x0a] ∧ cut_eol (l ++ [x0a]) = l ∧ x0a ∉ l.
Proof.
  induction l as [|b l IH]; intros Hp; [by split_and!; [..|apply not_elem_of_nil]|].
  cbn [forallb] in Hp. apply andb_true_iff in Hp as [Hb Hp]. apply bool_decide_eq_true in Hb as (H0 & Ha & Hd).
  destruct (IH Hp) as (I1 & I2 & I3). cbn [app c_str cut_eol].
  rewrite (bool_decide_false (b = x00)) by done.
  rewrite (bool_decide_false (b = x0d ∨ b = x0a)) by (by intros [?|?]). rewrite I1, I2. split_and!; [done..|].
  by apply list.not_elem_of_cons.
Qed.

Lemma hexDecode_upper l : hexDecode (map to_upper (hexEncode l)) = Some l.
Proof.
  induction l as [|b l IH]; [done|].
  destruct (upper_hex_byte b) as (x & y & E & Hx & Hy). cbn [hexEncode map] in *. injection E as -> ->.
  cbn [hexDecode]. rewrite Hx, Hy, IH. cbn. do 2 f_equal. rewrite <- (zb_bz b) at 3. f_equal.
  pose proof (Z.div_mod (bz b) 16). lia.
Qed.

Lemma load_key_text pk sk :
  length pk = KEY_SIZE → length sk = KEY_SIZE →
  foldl load_line (mkLoad (make_bytes 32) (make_bytes 32) false false) (fgets_lines (key_text pk sk) [] 127) =
    mkLoad pk sk true true.
Proof.
  intros Hp Hs. unfold key_text, KEY_SIZE in *.
  set (lp := str "pk=" ++ map to_upper (hexEncode pk)). set (ls := str "sk=" ++ map to_upper (hexEncode sk)).
  assert (∀ l, (length l = 32)%nat → length (map to_upper (hexEncode l)) = 64%nat) as Hlen
    by (intros l Hl; rewrite length_hex, Hl; done).
  assert (forallb plain lp = true) as Pp by (unfold lp; by rewrite forallb_app, upper_hex_plain).
  assert (forallb plain ls = true) as Ps by (unfold ls; by rewrite forallb_app, upper_hex_plain).
  destruct (plain_line lp Pp) as (P1 & P2 & P3). destruct (plain_line ls Ps) as (S1 & S2 & S3).
  replace (str "pk=" ++ map to_upper (hexEncode pk) ++ [x0a] ++ str "sk=" ++ map to_upper (hexEncode sk) ++ [x0a])
    with (lp ++ x0a :: (ls ++ x0a :: [])) by (unfold lp, ls; by rewrite <- !app_assoc).
  rewrite fgets_line by (done || (unfold lp; rewrite length_app, Hlen by done; cbn; lia)).
  rewrite fgets_line by (done || (unfold ls; rewrite length_app, Hlen by done; cbn; lia)).
  cbn [fgets_lines app]. rewrite bool_decide_true by done. cbn [foldl].
  unfold load_line at 2. rewrite P1, P2. unfold lp at 1 2 3. rewrite HasPrefix_app, drop_app_exact by done.
  cbn [l_pk l_sk]. rewrite hex_to_bin_upper by done. change (Z.of_nat 32 =? 32) with true. cbv beta iota zeta.
  unfold load_line. rewrite S1, S2. unfold ls. cbn [l_pk l_sk got_pk got_sk].
  assert (HasPrefix (str "pk=") (str "sk=" ++ map to_upper (hexEncode sk)) = false) as -> by done.
  rewrite HasPrefix_app, drop_app_exact by done. by rewrite hex_to_bin_upper by done.
Qed.

(** The key file keeps the keys.  When the file is missing or does not hold two keys, the pair the
    library draws is written and returned, and from then on every start on that file
    returns the same pair, whatever would be drawn; the text it returns always passes the
    checks of the pool, so that a pool is made without a panic. *)
Theorem keyfile_kept {L : TcpLib} keyfile pk sk draw' now now' f :
  length pk = KEY_SIZE → length sk = KEY_SIZE → is_zero pk = false → is_zero sk = false →
  fs_writable f = true →
  (toxin_load_keys keyfile (make_bytes KEY_SIZE) (make_bytes KEY_SIZE) f).1.1 = -1 →
  ∃ p p' f', New keyfile (pk, sk) now f = Ret (p, f') ∧ New keyfile draw' now' f' = Ret (p', f') ∧
    hexDecode (Selfpk p) = Some pk ∧ hexDecode (Selfsk p) = Some sk ∧
    Selfpk p' = Selfpk p ∧ Selfsk p' = Selfsk p ∧
    Conns p' = Some (set_tcp_onion_status (new_tcp_connections sk)).
Proof.
  intros Hp Hs Zp Zs Hw Hl.
  assert (∀ l E, length l = KEY_SIZE →
    @key_hex_check E (map to_upper (hexEncode l)) = Ret () ∧
    @key_hex2bin E (map to_upper (hexEncode l)) = Ret l) as Hc.
  { intros l E Hk. unfold key_hex2bin, key_hex_check.
    replace (zlen (map to_upper (hexEncode l)) <? 32 * 2) with false
      by (symmetry; apply Z.ltb_ge; unfold zlen; rewrite length_hex, Hk; done).
    rewrite !hexDecode_upper. split; [done|]. cbn. by destruct l. }
  set (f' := mkKeyFs (<[keyfile := key_text pk sk]> (kf_files f)) true).
  assert (keyfile_neworload keyfile (pk, sk) f =
    (map to_upper (hexEncode pk), map to_upper (hexEncode sk), f')) as E1.
  { unfold keyfile_neworload. destruct (toxin_load_keys keyfile _ _ f) as [[r a] b].
    cbn in Hl. subst r. cbn. unfold toxin_save_keys. by rewrite Hw. }
  assert (keyfile_neworload keyfile draw' f' =
    (map to_upper (hexEncode pk), map to_upper (hexEncode sk), f')) as E2.
  { unfold keyfile_neworload, toxin_load_keys. cbn [kf_files f']. rewrite lookup_insert_eq.
    change (make_bytes KEY_SIZE) with (make_bytes 32).
    rewrite load_key_text by done. cbn [got_pk got_sk l_pk l_sk negb orb]. by rewrite Zp, Zs. }
  assert (∀ d g t, keyfile_neworload keyfile d g =
      (map to_upper (hexEncode pk), map to_upper (hexEncode sk), f') →
    New keyfile d t g = Ret (mkConnPool _ (Some (set_tcp_onion_status (new_tcp_connections sk))) t
      (map to_upper (hexEncode pk)) (map to_upper (hexEncode sk)) [] ∅ [], f')) as Hn.
  { intros d g t E. unfold New, new_pool. rewrite E, (proj1 (Hc pk _ Hp)), (proj1 (Hc sk _ Hs)), !bind_ret.
    unfold renew. cbn [Selfsk]. rewrite (proj2 (Hc sk _ Hs)), bind_ret. cbn [readd_relays Conns].
    by rewrite !bind_ret. }
  eexists _, _, f'. split; [by apply Hn|]. split; [by apply Hn|]. cbn [Selfpk Selfsk Conns].
  by rewrite !hexDecode_upper.
Qed.

(** ** The channel of received packets *)

Section Sequential.
Context `{TcpLib}.

Definition lastn {A} (n : nat) (l : list A) : list A := drop (length l - n) l.

Lemma lastn_snoc {A} n (l : list A) x :
  (0 < n)%nat → lastn n (l ++ [x]) = lastn n (lastn n l ++ [x]).
Proof.
  intros Hn. unfold lastn. rewrite !length_app, length_drop. cbn [length].
  destruct (decide (length l < n)%nat) as [Hl|Hl].
  - replace (length l - n)%nat with 0%nat by lia. rewrite drop_0. f_equal. lia.
  - rewrite !drop_app_le by (rewrite ?length_drop; lia). rewrite drop_drop. do 2 f_equal. lia.
Qed.

Lemma on_oob_packet_lastn peerpk pkt p :
  (length (oobinch p) ≤ oobcap)%nat →
  oobinch (on_oob_packet peerpk pkt p) = lastn oobcap (oobinch p ++ [mkOob pkt peerpk]).
Proof.
  intros Hl. unfold on_oob_packet, lastn. cbn [oobinch set_oobinch]. rewrite length_app. cbn [length].
  unfold oobcap in *. case_bool_decide as Hc.
  - rewrite drop_app_le by lia. do 2 f_equal. lia.
  - replace (length (oobinch p) + 1 - 8)%nat with 0%nat by lia. done.
Qed.

(** Without a reader in between, the channel keeps the newest eight packets. *)
Lemma oob_keeps_newest pkts p :
  oobinch p = [] →
  oobinch (foldl (λ p k, on_oob_packet (o_peerpk k) (o_data k) p) p pkts) = lastn oobcap pkts.
Proof.
  intros Hp. induction pkts as [|k pkts IH] using rev_ind; [done|].
  rewrite foldl_app. cbn [foldl]. rewrite on_oob_packet_lastn, IH.
  - rewrite (lastn_snoc oobcap pkts) by (unfold oobcap; lia). by destruct k.
  - rewrite IH. unfold lastn. rewrite length_drop. lia.
Qed.

End Sequential.

(** The callback and [ReadFrom] run in different goroutines: the callback looks at the
    length of the channel, then receives, then sends. *)
Inductive callback_pc : Type := Idle | WantDrop (k : oobpacket) | WantSend (k : oobpacket).

Record chan_state := mkChan {
  ch : list oobpacket; pc : callback_pc;
  arrived : list oobpacket;         (* packets the callback was called with *)
  got : list oobpacket              (* packets ReadFrom returned *)
}.

Definition chan0 : chan_state := mkChan [] Idle [] [].

Inductive chan_step : chan_state → chan_state → Prop :=
| step_arrive q a g k :
    chan_step (mkChan q Idle a g)
      (mkChan q (if bool_decide (oobcap ≤ length q)%nat then WantDrop k else WantSend k) (a ++ [k]) g)
| step_drop x q a g k : chan_step (mkChan (x :: q) (WantDrop k) a g) (mkChan q (WantSend k) a g)
| step_send q a g k :
    (length q < oobcap)%nat → chan_step (mkChan q (WantSend k) a g) (mkChan (q ++ [k]) Idle a g)
| step_read x q c a g : chan_step (mkChan (x :: q) c a g) (mkChan q c a (g ++ [x])).

Definition in_callback (c : callback_pc) : list oobpacket :=
  match c with Idle => [] | WantDrop k | WantSend k => [k] end.

Definition chan_inv (s : chan_state) : Prop :=
  (length (ch s) ≤ oobcap)%nat ∧
  sublist (got s ++ ch s ++ in_callback (pc s)) (arrived s) ∧
  (∀ k, pc s = WantSend k → (length (ch s) < oobcap)%nat).

Lemma chan_step_inv s s' : chan_step s s' → chan_inv s → chan_inv s'.
Proof.
  unfold chan_inv, oobcap. intros Hs (Hl & Hsub & Hw). destruct Hs as [q a g k|x q a g k|q a g k Hlt|x q c a g];
    unfold oobcap in *; cbn [ch pc arrived got in_callback length] in *.
  - rewrite app_nil_r in Hsub. split_and!; [done| |].
    + case_bool_decide; rewrite (assoc_L (++)); by apply sublist_app.
    + intros k'. case_bool_decide; [done|]. intros _. lia.
  - split_and!; [lia| |intros _ _; lia]. etrans; [|exact Hsub].
    apply sublist_app; [done|]. cbn [app]. by apply sublist_cons.
  - split_and!; [rewrite length_app; cbn; lia| |done]. by rewrite app_nil_r.
  - split_and!; [lia| |].
    + by rewrite <- (assoc_L (++)).
    + intros k Hk. specialize (Hw k Hk). lia.
Qed.

(** C37: Received packets are delivered in order.  In every interleaving of the callback and the
    reader the channel holds at most eight packets; the packets that were delivered, those in the channel
    and the one in the callback, in this order, are a subsequence of those that
    arrived; and sending into the channel never blocks the callback: the only state in
    which the callback waits is that it is about to drop a packet from a channel the
    reader has emptied. *)
Theorem packets_in_order s :
  rtc chan_step chan0 s →
  (length (ch s) ≤ oobcap)%nat ∧
  sublist (got s ++ ch s ++ in_callback (pc s)) (arrived s) ∧
  (pc s ≠ Idle → (∃ k, pc s = WantDrop k ∧ ch s = []) ∨
     ∃ s', chan_step s s' ∧ arrived s' = arrived s ∧ got s' = got s).
Proof.
  intros Hr. assert (chan_inv s) as (Hl & Hs & Hw).
  { assert (chan_inv chan0) as H0 by (split_and!; [cbn; lia|done|done]). revert H0.
    induction Hr; eauto using chan_step_inv. }
  split_and!; [done|done|]. intros Hp. destruct s as [q [|k|k] a g]; cbn in *; [done| |].
  - destruct q as [|x q]; [left; by exists k|right]. eexists. split; [apply step_drop|done].
  - right. eexists. split; [apply step_send; by eapply Hw|done].
Qed.

Module ToyChan.
Definition pk (n : Z) : oobpacket := mkOob [zb n] (str "peer").

Lemma arrive_send q a g k :
  (length q < oobcap)%nat → rtc chan_step (mkChan q Idle a g) (mkChan (q ++ [k]) Idle (a ++ [k]) g).
Proof.
  intros Hq. eapply rtc_l; [apply (step_arrive q a g k)|]. rewrite bool_decide_false by lia.
  apply rtc_once. by constructor.
Qed.

Lemma arrivals ks q a g :
  (length q + length ks ≤ oobcap)%nat → rtc chan_step (mkChan q Idle a g) (mkChan (q ++ ks) Idle (a ++ ks) g).
Proof.
  revert q a. induction ks as [|k ks IH]; intros q a Hl; cbn [length] in Hl.
  - rewrite !app_nil_r. apply rtc_refl.
  - etrans; [apply (arrive_send q a g k); lia|].
    replace (q ++ k :: ks) with ((q ++ [k]) ++ ks) by (by rewrite <- app_assoc).
    replace (a ++ k :: ks) with ((a ++ [k]) ++ ks) by (by rewrite <- app_assoc).
    apply IH. rewrite length_app. cbn. lia.
Qed.

Lemma reads q c a g : rtc chan_step (mkChan q c a g) (mkChan [] c a (g ++ q)).
Proof.
  revert g. induction q as [|x q IH]; intros g; [rewrite app_nil_r; apply rtc_refl|].
  eapply rtc_l; [constructor|]. replace (g ++ x :: q) with ((g ++ [x]) ++ q) by (by rewrite <- app_assoc).
  apply IH.
Qed.

Definition eight : list oobpacket := map pk [1; 2; 3; 4; 5; 6; 7; 8].
End ToyChan.

Lemma packets_in_order_witness :
  sublist [ToyChan.pk 1] (arrived (mkChan [ToyChan.pk 1] Idle [ToyChan.pk 1] [])).
Proof.
  apply (packets_in_order (mkChan [ToyChan.pk 1] Idle [ToyChan.pk 1] [])).
  apply (ToyChan.arrivals [ToyChan.pk 1] [] [] []). unfold oobcap. cbn. lia.
Defined.

(** The check and the receive are not one step: a reader that empties the channel between
    them leaves the callback, and with it the loop of [Iterate], waiting for a packet only
    the callback could provide.  Nothing can happen any more. *)
Theorem callback_can_deadlock :
  ∃ s, rtc chan_step chan0 s ∧ pc s = WantDrop (ToyChan.pk 9) ∧ ∀ s', ¬ chan_step s s'.
Proof.
  exists (mkChan [] (WantDrop (ToyChan.pk 9)) (ToyChan.eight ++ [ToyChan.pk 9]) ToyChan.eight).
  split_and!; [|done|by inversion 1].
  etrans; [apply (ToyChan.arrivals ToyChan.eight [] [] []); done|].
  eapply rtc_l; [apply (step_arrive _ _ _ (ToyChan.pk 9))|]. cbn [app].
  apply (ToyChan.reads ToyChan.eight _ _ []).
Qed.

(** ** Sending *)

Definition good_key (k : bytes) : bool :=
  (64 <=? zlen k) && match hexDecode k with Some _ => true | None => false end.

Lemma key_hex_check_good {E} k : @key_hex_check E k = if good_key k then Ret () else Panic.
Proof.
  unfold key_hex_check, good_key. destruct (zlen k <? 32 * 2) eqn:E1; zbool.
  - replace (64 <=? zlen k) with false by (symmetry; apply Z.leb_gt; lia). done.
  - replace (64 <=? zlen k) with true by (symmetry; apply Z.leb_le; lia). by destruct (hexDecode k).
Qed.

Lemma key_hex2bin_good {E} k :
  @key_hex2bin E k = match hexDecode k with Some b => if good_key k then Ret b else Panic | None => Panic end.
Proof.
  unfold key_hex2bin. rewrite key_hex_check_good. unfold good_key.
  destruct (hexDecode k) as [[|b l]|] eqn:Ek; cbn [mbind outcome_bind]; destruct (64 <=? zlen k) eqn:El; cbn; try done.
  destruct k as [|x [|y k]]; [done|done|]. cbn in Ek. destruct (hex_value x), (hex_value y); try done.
  by destruct (hexDecode k).
Qed.

(** [WriteTo] on every branch.  A packet above 1372 bytes is refused with an error; a peer address that is not
    the text of a key panics, and so do an empty packet and a pool without relays; otherwise
    the packet is handed, whole and for that peer, to the relay the iteration gives first, and the call reports
    the full length, with an error exactly when the library refused it. *)
Theorem WriteTo_spec `{TcpLib} order buf addr p c :
  Conns p = Some c → Forall (λ x, good_key (n_pk x.2) = true) order →
  WriteTo order buf addr p =
    if PACKET_SIZE <? zlen buf then Ret (-1, Some (ErrPacketTooLong (zlen buf)), p)
    else if negb (good_key addr) then Panic
    else match order, buf, hexDecode addr with
         | (_, rl) :: _, _ :: _, Some peer =>
             match hexDecode (n_pk rl) with
             | Some relay =>
                 let '(rv, c') := tcp_send_oob_packet_using_relay relay peer buf c in
                 Ret (zlen buf,
                      if rv <? 0 then Some (ErrSendOob rv (tcp_relay_is_valid relay c')
                                              (tcp_connected_relays_count c')) else None,
                      set_Conns c' p)
             | None => Panic
             end
         | _, _, _ => Panic
         end.
Proof.
  intros Hc Ho. unfold WriteTo. destruct (PACKET_SIZE <? zlen buf); [done|].
  rewrite key_hex_check_good. destruct (good_key addr) eqn:Ea; cbn [negb mbind outcome_bind]; [|done].
  unfold send_oob. destruct order as [|[ip rl] order]; [done|].
  apply list.Forall_cons in Ho as [Hr _]. cbn [snd] in Hr.
  rewrite !key_hex2bin_good, Hr, Ea.
  destruct (hexDecode (n_pk rl)) as [relay|] eqn:Ek; cbn [mbind outcome_bind];
    [|unfold good_key in Hr; rewrite Ek in Hr; by destruct (64 <=? zlen (n_pk rl))].
  destruct (hexDecode addr) as [peer|] eqn:Eh; cbn [mbind outcome_bind];
    [|by destruct buf]. destruct buf as [|b buf]; [done|].
  unfold conns. rewrite Hc. cbn [index lookup list_lookup mbind outcome_bind].
  destruct (tcp_send_oob_packet_using_relay relay peer (b :: buf) c) as [rv c'].
  by destruct (rv <? 0).
Qed.

(** [ReadFrom] reports the length of the packet also when the buffer is shorter, so that
    [buf[:n]] is out of range. *)
Lemma ReadFrom_count `{TcpLib} buf p n from buf' p' :
  ReadFrom buf p = Some (n, from, buf', p') →
  ∃ pkt, list.head (oobinch p) = Some pkt ∧ n = zlen (o_data pkt) ∧ length buf' = length buf ∧
    (n ≤ zlen buf → take (Z.to_nat n) buf' = o_data pkt) ∧
    (zlen buf < n → buf' = take (length buf) (o_data pkt)).
Proof.
  unfold ReadFrom. destruct (oobinch p) as [|pkt q]; [done|]. intros [= <- <- <- <-].
  exists pkt. cbn. unfold zlen. rewrite Nat2Z.id. split_and!; [done|done|apply length_copy_into| |].
  - intros Hl. rewrite copy_into_short by lia. by apply take_app_exact.
  - intros Hl. unfold copy_into. rewrite drop_ge by lia. by rewrite app_nil_r.
Qed.

(** ** Renewing the connections *)

(** The table maps an address to the relay added for it. *)
Definition relays_ok `{TcpLib} (p : ConnPool) : Prop :=
  map_Forall (λ ip rl, n_ip rl = ip ∧ is_Some (addr_parse_ip ip) ∧ (hex_DecodeString (n_pk rl)).1 ≠ [])
    (relays p).

Lemma AddTcpRelay_ok `{TcpLib} ip port pk p err p' :
  relays_ok p → AddTcpRelay ip port pk p = Ret (err, p') →
  relays_ok p' ∧ (relays p' = relays p ∨ relays p' = <[ip := mkRelay ip port pk]> (relays p)).
Proof.
  intros Hp. unfold AddTcpRelay. destruct (addr_parse_ip ip) as [a|] eqn:Ea; [|intros [= _ <-]; auto].
  destruct (hex_DecodeString pk).1 as [|b pkb] eqn:Ek; [done|].
  unfold conns. destruct (Conns p) as [c|]; [|done]. cbn [mbind outcome_bind].
  destruct (add_tcp_relay_global a (u16 port) (b :: pkb) c) as [rv c'].
  destruct (negb (rv =? 0)); intros [= _ <-]; [split; [done|by left]|].
  split; [|by right]. unfold relays_ok. cbn [relays set_relays]. apply map_Forall_insert_2; [|done].
  cbn [n_ip n_pk]. rewrite Ea, Ek. split_and!; [done|by eexists|done].
Qed.

(** The library's object after adding a list of relays. *)
Definition add_all `{TcpLib} (order : list (bytes * relay_node)) (c : tcpc) : tcpc :=
  foldl (λ c x, match addr_parse_ip (n_ip x.2) with
                | Some a => (add_tcp_relay_global a (u16 (n_port x.2)) (hex_DecodeString (n_pk x.2)).1 c).2
                | None => c
                end) c order.

Lemma readd_relays_spec `{TcpLib} order p c :
  relays_ok p → Conns p = Some c → (∀ x, x ∈ order → relays p !! x.1 = Some x.2) →
  ∃ p', readd_relays order p = Ret p' ∧ relays p' = relays p ∧ Conns p' = Some (add_all order c) ∧
    Selfsk p' = Selfsk p ∧ Selfpk p' = Selfpk p ∧ oobinch p' = oobinch p ∧ killed p' = killed p ∧
    renew_time p' = renew_time p.
Proof.
  revert p c. induction order as [|[ip rl] order IH]; intros p c Hp Hc Ho; [by exists p|].
  pose proof (Ho (ip, rl) ltac:(by left)) as Hr. cbn [fst snd] in Hr.
  destruct (Hp ip rl Hr) as (Hip & [a Ha] & Hk). subst ip.
  cbn [readd_relays add_all foldl snd]. unfold AddTcpRelay. rewrite Ha.
  destruct (hex_DecodeString (n_pk rl)).1 as [|b pkb] eqn:Ek; [done|].
  unfold conns. rewrite Hc. cbn [mbind outcome_bind].
  destruct (add_tcp_relay_global a (u16 (n_port rl)) (b :: pkb) c) as [rv c'] eqn:Eadd. cbn [snd].
  assert (∀ q, relays q = relays p → Conns q = Some c' → Selfsk q = Selfsk p → Selfpk q = Selfpk p →
    oobinch q = oobinch p → killed q = killed p → renew_time q = renew_time p →
    ∃ p', readd_relays order q = Ret p' ∧ relays p' = relays p ∧ Conns p' = Some (add_all order c') ∧
      Selfsk p' = Selfsk p ∧ Selfpk p' = Selfpk p ∧ oobinch p' = oobinch p ∧ killed p' = killed p ∧
      renew_time p' = renew_time p) as Hq.
  { intros q Q1 Q2 <- <- <- <- <-. rewrite <- Q1. apply IH; [unfold relays_ok; rewrite Q1; exact Hp|exact Q2|].
    intros x Hx. rewrite Q1. apply Ho. by right. }
  fold (add_all order c').
  destruct (negb (rv =? 0)); cbn [mbind outcome_bind]; apply Hq; cbn; try done.
  replace (mkRelay _ _ _) with rl by (by destruct rl). by rewrite insert_id.
Qed.

(** Renewing does not lose relays: with a valid own key, in every state whose relays were added by the pool, [renew] does
    not panic, replaces the library's object by a new one for the same key to which every relay
    of the table has been added, keeps the table, the queue and the keys, and kills the
    old object and no other. *)
Theorem renew_readds `{TcpLib} order now p sk :
  relays_ok p → order ≡ₚ map_to_list (relays p) → hexDecode (Selfsk p) = Some sk → good_key (Selfsk p) = true →
  ∃ p', renew order now p = Ret p' ∧ relays p' = relays p ∧ oobinch p' = oobinch p ∧
    Selfpk p' = Selfpk p ∧ Selfsk p' = Selfsk p ∧ renew_time p' = now ∧
    Conns p' = Some (add_all order (set_tcp_onion_status (new_tcp_connections sk))) ∧
    killed p' = killed p ++ match Conns p with Some c => [c] | None => [] end.
Proof.
  intros Hp Ho Hs Hg. unfold renew. rewrite key_hex2bin_good, Hs, Hg, bind_ret.
  set (o := set_tcp_onion_status (new_tcp_connections sk)).
  destruct (readd_relays_spec order (mkConnPool _ (Some o) now (Selfpk p) (Selfsk p) (oobinch p) (relays p) (killed p)) o)
    as (p' & E & R1 & R2 & R3 & R4 & R5 & R6 & R7); [done|done| |].
  { intros x Hx. rewrite Ho in Hx. destruct x. by apply elem_of_map_to_list in Hx. }
  rewrite E, bind_ret. cbn [relays oobinch Selfpk Selfsk killed renew_time] in *.
  eexists. split; [reflexivity|]. destruct (Conns p) as [c|]; cbn.
  - split_and!; try done. by rewrite R6.
  - split_and!; try done. by rewrite app_nil_r.
Qed.

(** [reconnect] renews at most once in nine seconds. *)
Lemma reconnect_recent `{TcpLib} order now p :
  now - renew_time p < 9 * 1000000000 → reconnect order now p = Ret p.
Proof. intros Hn. unfold reconnect. by replace (_ <? _) with true by (symmetry; apply Z.ltb_lt; lia). Qed.

(** [WaitConnected] returns after the first iteration that leaves a connected relay. *)
Lemma WaitConnected_returns `{TcpLib} n p c fuel :
  Conns p = Some c → (n < fuel)%nat →
  0 < tcp_connected_relays_count (Nat.iter n do_tcp_connections c) →
  (∀ m, (m < n)%nat → tcp_connected_relays_count (Nat.iter m do_tcp_connections c) ≤ 0) →
  ∃ p', WaitConnected fuel p = Some (Ret p') ∧ Conns p' = Some (Nat.iter n do_tcp_connections c).
Proof.
  revert p c fuel. induction n as [|n IH]; intros p c fuel Hc Hf Hpos Hneg;
    (destruct fuel as [|fuel]; [lia|]); cbn [WaitConnected]; unfold IsConnected, Iterate, conns;
    rewrite Hc; cbn [mbind outcome_bind].
  - cbn in Hpos. replace (0 <? _) with true by (symmetry; by apply Z.ltb_lt). by exists p.
  - pose proof (Hneg 0%nat ltac:(lia)) as H0. cbn in H0.
    replace (0 <? _) with false by (symmetry; by apply Z.ltb_ge). rewrite Nat.iter_succ_r.
    apply IH; [done|lia|by rewrite <- Nat.iter_succ_r|].
    intros m Hm. rewrite <- Nat.iter_succ_r. apply Hneg. lia.
Qed.

(** ** Evaluation *)

Module ToyTcp.

(** The library as the list of relays added and of packets sent. *)
Record obj := Obj { ob_sk : bytes; ob_relays : list (bytes * Z * bytes); ob_sent : list (bytes * bytes * bytes) }.

#[export] Instance toy_tcp : TcpLib := {|
  tcpc := obj;
  new_tcp_connections sk := Obj sk [] [];
  set_tcp_onion_status := id;
  do_tcp_connections := id;
  add_tcp_relay_global ip port pk c := (0, Obj (ob_sk c) (ob_relays c ++ [(ip, port, pk)]) (ob_sent c));
  tcp_connected_relays_count c := zlen (ob_relays c);
  tcp_relay_is_valid pk c := bool_decide (pk ∈ (map snd (ob_relays c)));
  tcp_send_oob_packet_using_relay r peer d c := (zlen d, Obj (ob_sk c) (ob_relays c) (ob_sent c ++ [(r, peer, d)]));
  addr_parse_ip ip := if bool_decide (ip = []) then None else Some ip |}.

Definition key (b : byte) : bytes := map to_upper (hexEncode (replicate 32 b)).
Definition rl : relay_node := mkRelay (str "10.0.0.1") 3389 (key xab).
Definition p0 : ConnPool :=
  mkConnPool _ (Some (Obj [] [] [])) 0 (key x01) (key x02) [] {[str "10.0.0.1" := rl]} [].

End ToyTcp.
Import ToyTcp.

Lemma keyfile_kept_witness :
  ∃ p p' f', New (str "node.key") (replicate 32 x01, replicate 32 x02) 0 (mkKeyFs ∅ true) = Ret (p, f') ∧
    New (str "node.key") (replicate 32 x03, replicate 32 x04) 1 f' = Ret (p', f') ∧ Selfsk p' = Selfsk p.
Proof.
  destruct (keyfile_kept (str "node.key") (replicate 32 x01) (replicate 32 x02)
    (replicate 32 x03, replicate 32 x04) 0 1 (mkKeyFs ∅ true))
    as (p & p' & f' & H1 & H2 & _ & _ & _ & H3 & _); [reflexivity..|].
  exists p, p', f'. split; [exact H1|]. split; [exact H2|exact H3].
Defined.

Lemma WriteTo_spec_witness :
  WriteTo [(str "10.0.0.1", rl)] (str "hi") (key xcd) p0 =
    Ret (2, None, set_Conns (Obj [] [] [(replicate 32 xab, replicate 32 xcd, str "hi")]) p0).
Proof.
  rewrite (WriteTo_spec [(str "10.0.0.1", rl)] (str "hi") (key xcd) p0 (Obj [] [] []) eq_refl).
  - reflexivity.
  - constructor; [reflexivity|constructor].
Defined.

Lemma renew_readds_witness :
  ∃ p', renew [(str "10.0.0.1", rl)] 7 p0 = Ret p' ∧ relays p' = relays p0 ∧ killed p' = [Obj [] [] []].
Proof.
  destruct (renew_readds [(str "10.0.0.1", rl)] 7 p0 (replicate 32 x02))
    as (p' & H1 & H2 & _ & _ & _ & _ & _ & H3).
  - unfold relays_ok, p0. cbn [relays]. apply map_Forall_singleton.
    split; [reflexivity|]. split; [by eexists|]. vm_compute. intros H. discriminate H.
  - cbn [relays p0]. rewrite map_to_list_singleton. reflexivity.
  - vm_compute. reflexivity.
  - vm_compute. reflexivity.
  - exists p'. split; [exact H1|]. split; [exact H2|]. rewrite H3. reflexivity.
Defined.
