(* ===== verification/RelayCmds.v ===== *)
(** * The relay detection commands (relayhub/cmd/detect/main.go, relayhub/cmd/scanrelay/main.go)

    Both programs take endpoints from a peer store of textual multiaddresses, probe each
    with [DetectRelay] of Detect.v, and report: [detect] prints what was found and whether
    the node is a relay, [scanrelay] counts the outcomes of twenty probes at a time.
    Modelled: the splitting of addresses, the collection of endpoints, the filter of
    private addresses, the report and the statistics.  The decoded peer store, in the order
    Go iterates over it, and the results of the probes are arguments. *)

From Stdlib Require Import Strings.String.
From stdpp Require Import strings.
From S2P Require Import Prelude GoIO GoText Sha2 Varint Base58 CircuitPb Multistream RelayStream.
From S2P Require Import Detect NodePool.
Local Open Scope Z_scope.

(** ** Splitting *)

(** The loop of [splitRaw]: [todo] indices are left, [i] is the current one. *)
Fixpoint splitRaw_loop (s : bytes) (sep : byte) (todo i start : nat) : list bytes * nat :=
  match todo with
  | O => ([], start)
  | S todo' =>
      if bool_decide (s !! i = Some sep) then
        let '(r, st) := splitRaw_loop s sep todo' (S i) (S i) in
        ((if bool_decide (start < i)%nat then [take (i - start) (drop start s)] else []) ++ r, st)
      else splitRaw_loop s sep todo' (S i) start
  end.

Definition splitRaw (s : bytes) (sep : byte) : list bytes :=
  let '(r, start) := splitRaw_loop s sep (length s) 0 0 in
  r ++ (if bool_decide (start < length s)%nat then [drop start s] else []).

Definition sl : byte := x2f.

Definition splitPath (s : bytes) : list bytes := base.filter (λ p, p ≠ []) (splitRaw s sl).

(** The loop over the parts: a part [tcp] or [ip4] names the next one. *)
Fixpoint addr_loop (parts : list bytes) (ip port : bytes) : bytes * bytes :=
  match parts with
  | p :: ((q :: _) as parts') =>
      let port := if bool_decide (p = str "tcp") then q else port in
      let ip := if bool_decide (p = str "ip4") then q else ip in
      addr_loop parts' ip port
  | _ => (ip, port)
  end.

(** [splitAddr] of detect, [splitMultiaddr] of scanrelay *)
Definition splitAddr (addr : bytes) : option (bytes * bytes) :=
  let '(ip, port) := addr_loop (splitPath addr) [] [] in
  if bool_decide (ip ≠ [] ∧ port ≠ []) then Some (ip, port) else None.

(** ** Collecting endpoints *)

Definition endpoint (a : bytes * bytes) : bytes := a.1 ++ [x3a] ++ a.2.

(** One address; [skip] is the filter of scanrelay. *)
Definition collect_step (skip : bytes → bool) (acc : gset bytes * list bytes) (a : bytes) : gset bytes * list bytes :=
  match splitAddr a with
  | None => acc
  | Some (ip, port) =>
      if skip ip then acc
      else
        let k := endpoint (ip, port) in
        if bool_decide (k ∈ acc.1) then acc else ({[k]} ∪ acc.1, acc.2 ++ [k])
  end.

Definition collect (skip : bytes → bool) (store : list (list bytes)) : list bytes :=
  (foldl (collect_step skip) (∅, []) (concat store)).2.

(** detect takes all, scanrelay skips empty texts and some addresses. *)
Definition detect_endpoints (store : list (list bytes)) : list bytes := collect (λ _, false) store.

Fixpoint containsStr_loop (s substr : bytes) (todo i : nat) : bool :=
  match todo with
  | O => false
  | S todo' =>
      if bool_decide (take (length substr) (drop i s) = substr) then true
      else containsStr_loop s substr todo' (S i)
  end.

(** [for i := 0; i <= len(s)-len(substr); i++] *)
Definition containsStr (s substr : bytes) : bool :=
  containsStr_loop s substr (length s - length substr + 1) 0.

Definition contains (s substr : bytes) : bool :=
  bool_decide (length substr ≤ length s)%nat && containsStr s substr.

Definition skipIP (ip : bytes) : bool :=
  if bool_decide (ip = str "127.0.0.1" ∨ ip = str "0.0.0.0" ∨ ip = str "::1") then true
  else if bool_decide (7 ≤ length ip)%nat && bool_decide (take 7 ip = str "172.33.") then true
  else if bool_decide (6 ≤ length ip)%nat && bool_decide (take 6 ip = str "169.25") then true
  else if contains ip (str ":") then true
  else if contains ip (str ".") then
    match splitRaw ip x2e with
    | [a; b; _; _] =>
        if bool_decide (a = str "10") then true
        else bool_decide (a = str "192" ∧ b = str "168")
    | _ => false
    end
  else false.

Definition scan_endpoints (store : list (list bytes)) : list bytes :=
  (foldl (collect_step skipIP) (∅, []) (base.filter (λ a, a ≠ []) (concat store))).2.

(** ** The report of detect *)

(** [d.String()] of a [time.Duration] in nanoseconds: the digits of a fraction without
    trailing zeros, the unit by size. *)
Fixpoint frac_digits (n : nat) (v : Z) : bytes :=
  match n with O => [] | S n' => frac_digits n' (v / 10) ++ [zb (48 + v mod 10)] end.

Definition fmt_frac (prec : nat) (v : Z) : bytes :=
  let ds := TrimRight (λ b, bool_decide (b = x30)) (frac_digits prec v) in
  if bool_decide (ds = []) then [] else [x2e] ++ ds.

Definition with_frac (v unit : Z) (prec : nat) : bytes := itoa (v / unit) ++ fmt_frac prec (v mod unit).

Definition duration_text (d : Z) : bytes :=
  let u := Z.abs d in
  let body :=
    if u =? 0 then str "0s"
    else if u <? 1000 then itoa u ++ str "ns"
    else if u <? 1000000 then with_frac u 1000 3 ++ str "µs"
    else if u <? 1000000000 then with_frac u 1000000 6 ++ str "ms"
    else
      let s := u / 1000000000 in
      (if 0 <? s / 3600 then itoa (s / 3600) ++ str "h" else []) ++
      (if 0 <? s / 60 then itoa (s / 60 mod 60) ++ str "m" else []) ++
      itoa (s mod 60) ++ fmt_frac 9 (u mod 1000000000) ++ str "s" in
  (if d <? 0 then str "-" else []) ++ body.

Definition ok (v : bool) : bytes := if v then str "OK" else str "FAIL".

Definition statusString (s : Z) : bytes :=
  if s =? 0 then str "UNUSED"
  else if s =? 100 then str "OK"
  else if s =? 200 then str "RESERVATION_REFUSED"
  else if s =? 201 then str "RESOURCE_LIMIT_EXCEEDED"
  else if s =? 202 then str "PERMISSION_DENIED"
  else if s =? 203 then str "CONNECTION_FAILED"
  else if s =? 204 then str "NO_RESERVATION"
  else if s =? 400 then str "MALFORMED_MESSAGE"
  else if s =? 401 then str "UNEXPECTED_MESSAGE"
  else str "UNKNOWN(" ++ itoa s ++ str ")".

Definition printV1 (r : DetectResult) : list bytes :=
  let '(v1ok, code, status) := V1 r in
  if v1ok : bool then
    [str "  Circuit v1 (/libp2p/circuit/relay/0.1.0):"; str "    Negotiated: yes";
     str "    CAN_HOP:    " ++ itoa code ++ str " (" ++ str status ++ str ")";
     str "    Relay:" ++ (if code =? 100 then str " YES" else [])]
  else [str "  Circuit v1 (/libp2p/circuit/relay/0.1.0): no"].

(** The text of an address; what makes [MultiaddrString] panic ends the program. *)
Definition addr_line {E} (a : bytes) : outcome E bytes :=
  match MultiaddrString a with
  | Some (Ret t) => Ret (str "    Addr:      " ++ t)
  | _ => Panic
  end.

Fixpoint addr_lines {E} (l : list bytes) : outcome E (list bytes) :=
  match l with [] => Ret [] | a :: l' => t ← addr_line a; ts ← addr_lines l'; Ret (t :: ts) end.

Definition printV2Hop {E} (r : DetectResult) : outcome E (list bytes) :=
  let h := V2Hop r in
  if h_ok h then
    let good := h_status h =? 100 in
    let exp := if good && (0 <? h_expire h) then str ", expire=" ++ itoa (h_expire h) ++ str "s" else [] in
    let limitStr :=
      if good && ((0 <? h_limitData h) || (0 <? h_limitDur h))
      then str ", limit: duration=" ++ itoa (h_limitDur h) ++ str "s data=" ++ itoa (h_limitData h) else [] in
    addrs ← addr_lines (h_addrs h);
    let v := default [] (h_voucher h) in
    Ret ([str "  Circuit v2 hop (/libp2p/circuit/relay/0.2.0/hop):"; str "    Negotiated: yes";
          str "    RESERVE:    " ++ itoa (h_status h) ++ str " (" ++ statusString (h_status h) ++ str ")" ++
            exp ++ limitStr] ++ addrs ++
         (if 0 <? zlen v then [str "    Voucher:   " ++ hexEncode v ++ str " (" ++ itoa (zlen v) ++ str " bytes)"] else []) ++
         [str "    Relay:" ++ (if good then str " YES" else [])])
  else Ret [str "  Circuit v2 hop (/libp2p/circuit/relay/0.2.0/hop): no"].

Definition printV2Connect (r : DetectResult) : list bytes :=
  let '(cok, status, dur) := V2Connect r in
  if cok : bool then
    [str "    CONNECT:   " ++ itoa status ++ str " (" ++ statusString status ++ str ")";
     str "    Duration:  " ++ duration_text dur]
  else if h_status (V2Hop r) =? 100 then
    [str "    CONNECT:   no response (not supported or timed out)"; str "    Duration:  " ++ duration_text dur]
  else [].

Definition printV2Stop (r : DetectResult) : list bytes :=
  [str "  Circuit v2 stop (/libp2p/circuit/relay/0.2.0/stop): " ++ if V2StopOK r then str "yes" else str "no"].

Definition relay_verdict (r : DetectResult) : bytes :=
  let '(v1ok, code, _) := V1 r in
  if v1ok && (code =? 100) then str " YES (v1)"
  else if h_ok (V2Hop r) && (h_status (V2Hop r) =? 100) && V2StopOK r then str " YES (v2)"
  else str " NO".

Definition proto_line (p : bytes) : bytes :=
  str "    Protocol: " ++ if 100 <? zlen p then take 100 p ++ str "..." else p.

Definition printResult {E} (addr : bytes) (r : DetectResult) : outcome E (list bytes) :=
  let head := [str "Address: " ++ addr;
               str "  TCP:     " ++ ok (TCPOK r) ++ str " (" ++ duration_text (TCPDuration r) ++ str ")"] in
  if negb (TCPOK r) then Ret head
  else
    let head := head ++ [str "  TLS:     " ++ ok (TLSOK r); str "  Yamux:   " ++ ok (YamuxOK r)] in
    if negb (YamuxOK r) then Ret head
    else
      let ident :=
        match Identify r with
        | None => [str "  Identify: " ++ ok false]
        | Some i =>
            [str "  Identify: " ++ ok true; str "    PeerID:  " ++ PeerID i; str "    Agent:   " ++ Agent i] ++
            map proto_line (Protos i)
        end in
      hop ← printV2Hop r;
      Ret (head ++ ident ++ printV1 r ++ hop ++ printV2Connect r ++ printV2Stop r ++
           [str "  RELAY CAPABLE:" ++ relay_verdict r]).

(** ** The statistics of scanrelay *)

Inductive scan_err : Type := ErrStack | ErrNoV1.

Definition scan_err_text (e : scan_err) : bytes :=
  match e with
  | ErrStack => str "protocol stack failed"
  | ErrNoV1 => str "circuit v1 not available"
  end.

Definition testRelay (r : DetectResult) : outcome scan_err (bool * Z) :=
  if negb (YamuxOK r) then Fail ErrStack
  else let '(v1ok, code, _) := V1 r in
       if v1ok : bool then Ret (code =? 100, code) else Fail ErrNoV1.

Definition stat_key (t : outcome scan_err (bool * Z)) : option bytes :=
  match t with
  | Fail e => Some (str "FAIL: " ++ scan_err_text e)
  | Ret (true, _) => Some (str "SUCCESS(100)")
  | Ret (false, code) => Some (str "CODE_" ++ itoa code)
  | Panic => None
  end.

(** [stats[key]++] under the mutex *)
Definition count_one (stats : gmap bytes Z) (r : DetectResult) : gmap bytes Z :=
  match stat_key (testRelay r) with
  | Some k => <[k := default 0 (stats !! k) + 1]> stats
  | None => stats
  end.

(** The probes in the order in which they finish. *)
Definition scan_stats (finished : list DetectResult) : gmap bytes Z := foldl count_one ∅ finished.

(** ** Splitting: proofs *)

Lemma filter_one (p : bytes) : base.filter (λ q : bytes, q ≠ []) [p] = if bool_decide (p = []) then [] else [p].
Proof.
  case_bool_decide as Hp.
  - rewrite list.filter_cons_False; [done|]. intros Hc. by apply Hc.
  - by rewrite list.filter_cons_True.
Qed.

Lemma splitRaw_loop_spec s sep todo i start r st :
  (i + todo = length s)%nat → (start ≤ i)%nat → sep ∉ take (i - start) (drop start s) →
  splitRaw_loop s sep todo i start = (r, st) →
  r ++ (if bool_decide (st < length s)%nat then [drop st s] else []) =
    base.filter (λ p, p ≠ []) (SplitByte sep (drop start s)).
Proof.
  revert i start r st. induction todo as [|todo IH]; intros i start r st Hi Hs Hn H; cbn [splitRaw_loop] in H.
  - injection H as <- <-. rewrite take_ge in Hn by (rewrite length_drop; lia).
    rewrite SplitByte_none, filter_one by done. cbn [app]. destruct (decide (start < length s)%nat) as [Hl|Hl].
    + rewrite (bool_decide_true (start < _)%nat) by done. rewrite bool_decide_false; [done|].
      intros E%(f_equal length). rewrite length_drop in E. cbn in E. lia.
    + rewrite bool_decide_false by done. rewrite bool_decide_true; [done|]. by apply drop_ge; lia.
  - destruct (lookup_lt_is_Some_2 s i) as [b Hb]; [lia|].
    assert (drop start s = take (i - start) (drop start s) ++ b :: drop (S i) s) as Hd.
    { rewrite (drop_take_drop start (i - start) s) at 1. f_equal.
      replace (start + (i - start))%nat with i by lia. by apply drop_S. }
    case_bool_decide as Hsep.
    + rewrite Hb in Hsep. injection Hsep as ->.
      destruct (splitRaw_loop s sep todo (S i) (S i)) as [r' st'] eqn:E. injection H as <- <-.
      assert (length (take (i - start) (drop start s)) = i - start)%nat as Hlc
        by (rewrite length_take, length_drop; lia).
      set (cur := take (i - start) (drop start s)) in *.
      rewrite Hd, SplitByte_app by done. apply IH in E; [|lia|lia|by rewrite Nat.sub_diag, take_0; apply not_elem_of_nil].
      rewrite <- app_assoc, E. destruct (decide (start < i)%nat) as [Hlt|Hlt].
      * rewrite bool_decide_true by done. rewrite list.filter_cons_True; [done|]. intros E0.
        rewrite E0 in Hlc. cbn in Hlc. lia.
      * rewrite bool_decide_false by done. assert (cur = []) as -> by (apply nil_length_inv; lia).
        rewrite list.filter_cons_False; [done|]. intros Hc. by apply Hc.
    + apply IH in H; [done|lia|lia|].
      replace (S i - start)%nat with (S (i - start)) by lia.
      rewrite (take_S_r _ _ b) by (rewrite lookup_drop; replace (start + (i - start))%nat with i by lia; done).
      rewrite not_elem_of_app, list_elem_of_singleton. split; [done|]. congruence.
Qed.

(** The hand-written splitter is [strings.Split] without the empty parts. *)
Lemma splitRaw_spec s sep : splitRaw s sep = base.filter (λ p, p ≠ []) (SplitByte sep s).
Proof.
  unfold splitRaw. destruct (splitRaw_loop s sep (length s) 0 0) as [r st] eqn:E.
  apply splitRaw_loop_spec in E; [by rewrite drop_0 in E|lia|lia|]. rewrite take_0. apply not_elem_of_nil.
Qed.

Lemma filter_idem (l : list bytes) :
  base.filter (λ p, p ≠ []) (base.filter (λ p, p ≠ []) l) = base.filter (λ p, p ≠ []) l.
Proof. rewrite list_filter_filter. apply list_filter_iff. intros x. tauto. Qed.

Lemma splitPath_spec s : splitPath s = base.filter (λ p, p ≠ []) (SplitByte sl s).
Proof. unfold splitPath. by rewrite splitRaw_spec, filter_idem. Qed.

(** A path made of non-empty parts splits into them. *)
Fixpoint path_of (parts : list bytes) : bytes :=
  match parts with [] => [] | p :: ps => [sl] ++ p ++ path_of ps end.

Lemma splitPath_path parts :
  Forall (λ p, p ≠ [] ∧ sl ∉ p) parts → splitPath (path_of parts) = parts.
Proof.
  intros Hf. rewrite splitPath_spec. destruct parts as [|p0 ps0]; [done|].
  change (path_of (p0 :: ps0)) with ([] ++ sl :: (p0 ++ path_of ps0)).
  rewrite SplitByte_app by apply not_elem_of_nil. rewrite list.filter_cons_False by (intros Hc; by apply Hc).
  revert p0 Hf. induction ps0 as [|p1 ps IH]; intros p0 Hf; apply list.Forall_cons in Hf as [[Hne Hsl] Hf]; cbn [path_of].
  - rewrite app_nil_r, SplitByte_none, filter_one by done. by rewrite bool_decide_false.
  - cbn [app]. rewrite SplitByte_app by done. rewrite list.filter_cons_True by done. f_equal. by apply IH.
Qed.

Lemma elem_itoa_digit n x : x ∈ itoa n → 0 ≤ n → bz x ≠ 47.
Proof.
  intros Hx Hn. intros E. assert (x = x2f) as -> by (apply (inj bz); by rewrite E).
  revert Hx. apply itoa_avoids; [done|]. done.
Qed.

(** ** Endpoints *)

Lemma collect_fold skip l seen acc :
  (∀ k, k ∈ seen ↔ k ∈ acc) → NoDup acc →
  let '(seen', acc') := foldl (collect_step skip) (seen, acc) l in
  (∀ k, k ∈ seen' ↔ k ∈ acc') ∧ NoDup acc' ∧
  ∀ k, k ∈ acc' ↔ k ∈ acc ∨ ∃ a x, a ∈ l ∧ splitAddr a = Some x ∧ skip x.1 = false ∧ k = endpoint x.
Proof.
  revert seen acc. induction l as [|a l IH]; intros seen acc Hs Hn; cbn [foldl].
  { split_and!; [done|done|]. intros k. split; [by left|]. intros [?|(a & x & Ha & _)]; [done|].
    by apply not_elem_of_nil in Ha. }
  assert (∀ seen1 acc1, (seen1, acc1) = collect_step skip (seen, acc) a →
    (∀ k, k ∈ seen1 ↔ k ∈ acc1) ∧ NoDup acc1 ∧
    ∀ k, k ∈ acc1 ↔ k ∈ acc ∨ ∃ x, splitAddr a = Some x ∧ skip x.1 = false ∧ k = endpoint x) as H1.
  { intros seen1 acc1. unfold collect_step. destruct (splitAddr a) as [[ip port]|] eqn:Ea.
    - destruct (skip ip) eqn:Esk.
      + intros [= -> ->]. split_and!; [done|done|]. intros k. split; [by left|].
        intros [?|(x & [= <-] & Hx & _)]; [done|]. cbn in Hx. congruence.
      + cbn [fst snd]. case_bool_decide as Hin; intros [= -> ->].
        * split_and!; [done|done|]. intros k. split; [by left|].
          intros [?|(x & [= <-] & _ & ->)]; [done|]. by apply Hs.
        * split_and!.
          -- intros k. rewrite elem_of_union, elem_of_singleton, elem_of_app, list_elem_of_singleton, Hs. tauto.
          -- apply list.NoDup_app. split_and!; [done| |apply list.NoDup_singleton].
             intros k Hk ->%list_elem_of_singleton. by apply Hin, Hs.
          -- intros k. rewrite elem_of_app, list_elem_of_singleton. split.
             ++ intros [?| ->]; [by left|right]. by exists (ip, port).
             ++ intros [?|(x & [= <-] & _ & ->)]; [by left|by right].
    - intros [= -> ->]. split_and!; [done|done|]. intros k. split; [by left|]. by intros [?|(x & ? & _)]. }
  destruct (collect_step skip (seen, acc) a) as [seen1 acc1].
  destruct (H1 _ _ eq_refl) as (Hs1 & Hn1 & Hk1). specialize (IH seen1 acc1 Hs1 Hn1).
  destruct (foldl (collect_step skip) (seen1, acc1) l) as [seen2 acc2].
  destruct IH as (Hs2 & Hn2 & Hk2). split_and!; [done|done|]. intros k. rewrite Hk2, Hk1. split.
  - intros [[?|(x & ? & ? & ?)]|(b & x & ? & ? & ? & ?)]; [by left|right..].
    + exists a, x. split; [by left|done].
    + exists b, x. split; [by right|done].
  - intros [?|(b & x & Hb & ? & ? & ?)]; [by left; left|].
    apply list.elem_of_cons in Hb as [->|Hb]; [left; right; by exists x|right; by exists b, x].
Qed.

(** Every endpoint is probed once.  Whatever the order of the peer store, the list both programs probe has
    no duplicates and consists exactly of the ip:port pairs of the addresses in the store
    that have an IPv4 and a TCP part, for scanrelay without those the filter skips. *)
Theorem endpoints_exact store :
  NoDup (detect_endpoints store) ∧ NoDup (scan_endpoints store) ∧
  (∀ k, k ∈ detect_endpoints store ↔
     ∃ a x, a ∈ concat store ∧ splitAddr a = Some x ∧ k = endpoint x) ∧
  (∀ k, k ∈ scan_endpoints store ↔
     ∃ a x, a ∈ concat store ∧ splitAddr a = Some x ∧ skipIP x.1 = false ∧ k = endpoint x).
Proof.
  unfold detect_endpoints, scan_endpoints, collect.
  pose proof (collect_fold (λ _, false) (concat store) ∅ []) as H1.
  pose proof (collect_fold skipIP (base.filter (λ a, a ≠ []) (concat store)) ∅ []) as H2.
  destruct (foldl _ _ (concat store)) as [s1 a1]. destruct (foldl _ _ (base.filter _ _)) as [s2 a2]. cbn [snd].
  destruct H1 as (_ & N1 & K1); [intros k; split; [by intros ?%not_elem_of_empty|by intros ?%not_elem_of_nil]|constructor|].
  destruct H2 as (_ & N2 & K2); [intros k; split; [by intros ?%not_elem_of_empty|by intros ?%not_elem_of_nil]|constructor|].
  split_and!; [done|done| |].
  - intros k. rewrite K1. split.
    + intros [?%not_elem_of_nil|(a & x & ? & ? & _ & ?)]; [done|by exists a, x].
    + intros (a & x & ? & ? & ?). right. by exists a, x.
  - intros k. rewrite K2. split.
    + intros [?%not_elem_of_nil|(a & x & Ha & ? & ? & ?)]; [done|].
      apply list_elem_of_filter in Ha as [_ Ha]. by exists a, x.
    + intros (a & x & Ha & Hx & ? & ?). right. exists a, x. split_and!; try done.
      apply list_elem_of_filter. split; [|done]. intros ->. by vm_compute in Hx.
Qed.

(** An address as [MultiaddrString] prints it, of an IPv4 and a TCP component and whatever
    named components follow, gives back its address and port. *)
Lemma no_slash_ip4 v : sl ∉ Join (str ".") (map (itoa ∘ bz) v).
Proof.
  intros Hx. apply elem_of_Join in Hx as [Hx|(p & Hp & Hx)].
  - revert Hx. apply (bool_decide_unpack (sl ∉ str ".")). vm_compute. exact I.
  - apply list_elem_of_In, in_map_iff in Hp as (b & <- & _). revert Hx.
    apply itoa_avoids; [|done]. pose proof (bz_range b). lia.
Qed.

Lemma itoa_head z : 0 ≤ z → ∃ c l, itoa z = c :: l ∧ is_Some (digit c).
Proof.
  intros Hz. destruct (digits_itoa z Hz) as [Hn _]. pose proof (itoa_digits z Hz) as Hd.
  destruct (itoa z) as [|c l]; [done|]. apply list.Forall_cons in Hd as [Hc _]. eauto.
Qed.

(** Text that starts with a digit is no keyword. *)
Lemma ip4_head v : v ≠ [] → ∃ c l, Join (str ".") (map (itoa ∘ bz) v) = c :: l ∧ is_Some (digit c).
Proof.
  destruct v as [|b v]; [done|]. intros _. pose proof (bz_range b).
  destruct (itoa_head (bz b)) as (c & l & E & Hc); [lia|]. cbn [map]. unfold compose. rewrite E.
  destruct (map _ v); cbn [Join]; eauto.
Qed.

Lemma digit_not_keyword c l : is_Some (digit c) → c :: l ≠ str "tcp" ∧ c :: l ≠ str "ip4" ∧ c :: l ≠ [].
Proof. intros Hc. split_and!; [intros [= -> _]; by destruct Hc as [? Hc]..|done]. Qed.

(** Reading back what is printed: the text [MultiaddrString] gives for an IPv4 address with a TCP
    port is split by both programs into the dotted address and the decimal port, for
    every address and every port. *)
Theorem printed_addr_splits ip port :
  length ip = 4%nat → 0 ≤ port < 65536 →
  ∃ text,
    MultiaddrString (encodeVarint 0x04 ++ ip ++ encodeVarint 0x06 ++ be_bytes 2 port) = Some (Ret text) ∧
    splitAddr text = Some (string4 ip, itoa port).
Proof.
  intros Hip Hp. set (comps := [mkComp 0x04 "ip4" 4 ip; mkComp 0x06 "tcp" 2 (be_bytes 2 port)]).
  exists (path_of [str "ip4"; string4 ip; str "tcp"; itoa port]).
  assert (be_val (be_bytes 2 port) = port) as Hbe
    by (rewrite be_val_be_bytes; apply Z.mod_small; done).
  split.
  - replace (encodeVarint 0x04 ++ ip ++ encodeVarint 0x06 ++ be_bytes 2 port) with (concat (map comp_bytes comps)).
    2:{ unfold comps. cbn [map concat comp_bytes m_code m_size m_val]. unfold comp_bytes. cbn [m_code m_size m_val Z.ltb Z.compare].
        rewrite app_nil_r. cbn [app]. by rewrite <- !app_assoc. }
    assert (path_of [str "ip4"; string4 ip; str "tcp"; itoa port] = concat (map comp_text comps)) as ->.
    { unfold comps, comp_text. cbn [map concat m_name m_size m_val]. unfold ma_value. rewrite Hbe. reflexivity. }
    apply (MultiaddrString_any (S (length comps))). apply Multiaddr_comps.
    + repeat constructor; cbn [m_code m_name m_size m_val]; unfold zlen; rewrite ?length_be_bytes, ?Hip; try done; lia.
    + unfold zlen, comps. cbn [map concat]. unfold comp_bytes. cbn [m_code m_size m_val].
      rewrite !length_app, length_be_bytes, Hip. vm_compute. reflexivity.
  - assert (ip ≠ []) as Hne by (by intros ->).
    destruct (ip4_head ip Hne) as (c1 & l1 & E1 & H1). destruct (itoa_head port) as (c2 & l2 & E2 & H2); [lia|].
    pose proof (digit_not_keyword c1 l1 H1) as (A1 & A2 & A3).
    pose proof (digit_not_keyword c2 l2 H2) as (_ & _ & B3).
    unfold string4 at 1 2. change [x2e] with (str ".").
    unfold splitAddr. rewrite splitPath_path.
    + cbn [addr_loop]. rewrite E1.
      rewrite (bool_decide_false (str "ip4" = str "tcp")) by (by vm_compute).
      rewrite (bool_decide_true (str "ip4" = str "ip4")) by done.
      rewrite (bool_decide_false (c1 :: l1 = str "tcp")), (bool_decide_false (c1 :: l1 = str "ip4")) by done.
      rewrite (bool_decide_true (str "tcp" = str "tcp")) by done.
      rewrite (bool_decide_false (str "tcp" = str "ip4")) by (by vm_compute).
      rewrite bool_decide_true; [done|]. by rewrite E2.
    + repeat constructor; try (by vm_compute); try (apply (bool_decide_unpack (_ ∉ _)); by vm_compute).
      * by rewrite E1.
      * apply no_slash_ip4.
      * by rewrite E2.
      * apply itoa_avoids; [lia|done].
Qed.

Lemma printed_addr_splits_witness :
  ∃ text, MultiaddrString [x04; x7f; x00; x00; x01; x06; x0f; xa1] = Some (Ret text) ∧
    splitAddr text = Some (str "127.0.0.1", str "4001").
Proof.
  destruct (printed_addr_splits [x7f; x00; x00; x01] 4001) as (t & H1 & H2); [reflexivity|lia|].
  exists t. split; [exact H1|]. rewrite H2. vm_compute. reflexivity.
Defined.

(** ** Searching and skipping *)

Lemma HasPrefix_take p s : HasPrefix p s = bool_decide (take (length p) s = p).
Proof.
  apply eq_true_iff_eq. rewrite HasPrefix_spec, bool_decide_eq_true. split.
  - intros [k ->]. by apply take_app_length.
  - intros E. exists (drop (length p) s). by rewrite <- E at 1; rewrite take_drop.
Qed.

Lemma containsStr_loop_spec s sub todo i :
  (i + todo = length s - length sub + 1)%nat → (0 < length sub ≤ length s)%nat →
  containsStr_loop s sub todo i = match Index sub (drop i s) with Some _ => true | None => false end.
Proof.
  revert i. induction todo as [|todo IH]; intros i Hi Hl; cbn [containsStr_loop].
  - destruct (Index sub (drop i s)) as [j|] eqn:E; [|done].
    apply Index_lt in E. rewrite length_drop in E. lia.
  - rewrite <- HasPrefix_take. destruct (drop i s) as [|b r] eqn:Ed; cbn [Index].
    + destruct (HasPrefix sub []) eqn:Ep; [done|]. rewrite IH by lia.
      assert (drop (S i) s = []) as -> by (apply drop_ge; apply (f_equal length) in Ed; rewrite length_drop in Ed; cbn in Ed; lia).
      cbn [Index]. by rewrite Ep.
    + destruct (HasPrefix sub (b :: r)); [done|]. rewrite IH by lia.
      assert (drop (S i) s = r) as ->.
      { rewrite <- Nat.add_1_r, <- drop_drop, Ed. done. }
      by destruct (Index sub r).
Qed.

(** [contains] is [strings.Contains]. *)
Lemma contains_spec s sub : contains s sub = match Index sub s with Some _ => true | None => false end.
Proof.
  unfold contains. case_bool_decide as Hl; cbn [andb].
  - unfold containsStr. destruct sub as [|b sub].
    + rewrite Nat.add_1_r. cbn. by destruct s.
    + by rewrite containsStr_loop_spec, drop_0 by (cbn [length] in *; lia).
  - destruct (Index sub s) as [j|] eqn:E; [|done]. apply Index_lt in E. lia.
Qed.

(** The filter and the private ranges: of the three private networks it covers two, and a
    prefix of text stands for the link-local network, so that public addresses are
    skipped and private ones are probed. *)
Example skip_examples :
  skipIP (str "10.1.2.3") = true ∧ skipIP (str "192.168.7.7") = true ∧ skipIP (str "169.254.3.4") = true ∧
  skipIP (str "8.8.8.8") = false ∧
  skipIP (str "172.16.0.1") = false ∧ skipIP (str "172.31.255.1") = false ∧
  skipIP (str "172.33.0.1") = true ∧ skipIP (str "169.25.0.1") = true ∧ skipIP (str "169.250.1.1") = true.
Proof. repeat split; vm_compute; reflexivity. Qed.

(** ** Statistics *)

Definition has_key (k : bytes) (r : DetectResult) : Prop := stat_key (testRelay r) = Some k.
#[export] Instance has_key_dec k r : Decision (has_key k r) := decide (stat_key (testRelay r) = Some k).

Definition occurrences (k : bytes) (l : list DetectResult) : Z := zlen (base.filter (has_key k) l).

Lemma scan_stats_snoc l r : scan_stats (l ++ [r]) = count_one (scan_stats l) r.
Proof. unfold scan_stats. by rewrite foldl_app. Qed.

Lemma occurrences_snoc k l r :
  occurrences k (l ++ [r]) = occurrences k l + if bool_decide (has_key k r) then 1 else 0.
Proof.
  unfold occurrences. rewrite list.filter_app, zlen_app. f_equal. unfold base.filter. cbn [list_filter].
  case_bool_decide as Hk; by case_decide.
Qed.

Lemma scan_stats_lookup l k :
  scan_stats l !! k = if bool_decide (occurrences k l = 0) then None else Some (occurrences k l).
Proof.
  induction l as [|r l IH] using rev_ind; [apply lookup_empty|].
  rewrite scan_stats_snoc. unfold count_one.
  pose proof (occurrences_snoc k l r) as Ho.
  assert (0 ≤ occurrences k l) as Hpos by apply zlen_nonneg.
  rewrite Ho. destruct (stat_key (testRelay r)) as [k'|] eqn:Ek.
  - destruct (decide (k' = k)) as [->|Hne].
    + rewrite lookup_insert_eq, (bool_decide_true (has_key k r)) by done.
      rewrite bool_decide_false by lia. f_equal. rewrite IH. clear Ho IH.
      destruct (decide (occurrences k l = 0)) as [H0|H0]; [rewrite bool_decide_true, H0 by done|rewrite bool_decide_false by done]; done.
    + rewrite lookup_insert_ne by done. rewrite (bool_decide_false (has_key k r)) by (unfold has_key; congruence).
      by rewrite Z.add_0_r.
  - rewrite (bool_decide_false (has_key k r)) by (unfold has_key; congruence). by rewrite Z.add_0_r.
Qed.

(** The summary does not depend on the schedule: in whatever order the concurrent probes finish, the
    statistics are the same, and the count under a key is the number of endpoints with
    that outcome; every endpoint is counted, under SUCCESS exactly when the stack came up
    and circuit v1 answered with code 100. *)
Theorem scan_summary l l' :
  l ≡ₚ l' →
  scan_stats l = scan_stats l' ∧
  (∀ k, default 0 (scan_stats l !! k) = occurrences k l) ∧
  (∀ r, is_Some (stat_key (testRelay r))) ∧
  (∀ r, has_key (str "SUCCESS(100)") r ↔ YamuxOK r = true ∧ (V1 r).1 = (true, 100)).
Proof.
  intros Hp. split_and!.
  - apply map_eq. intros k. rewrite !scan_stats_lookup.
    assert (occurrences k l = occurrences k l') as -> by (unfold occurrences, zlen; by rewrite Hp). done.
  - intros k. rewrite scan_stats_lookup. by case_bool_decide as H0; cbn; rewrite ?H0.
  - intros r. unfold testRelay. destruct (YamuxOK r); cbn [negb]; [|by eexists].
    destruct (V1 r) as [[v1ok code] st]. destruct v1ok; [|by eexists]. cbn. destruct (code =? 100); by eexists.
  - intros r. unfold has_key, testRelay. destruct (YamuxOK r); cbn [negb]; [|split; [intros H; vm_compute in H; discriminate H|by intros [? _]]].
    destruct (V1 r) as [[v1ok code] st]. cbn [fst]. destruct v1ok.
    + cbn [stat_key]. destruct (code =? 100) eqn:Ec; zbool.
      * subst. split; [done|]. by intros _.
      * split; [|intros [_ [= ->]]; done]. intros H. apply (inj Some) in H. vm_compute in H. discriminate H.
    + split; [intros H; vm_compute in H; discriminate H|by intros [_ [= ]]].
Qed.

Lemma scan_summary_witness :
  scan_stats [no_detect true 0 true true; no_detect false 0 false false] =
  scan_stats [no_detect false 0 false false; no_detect true 0 true true].
Proof. apply scan_summary. constructor. Defined.

(** ** The verdict *)

(** The report of a probe that reached yamux ends with the verdict, which is the one
    of the two protocols; one that did not has no verdict. *)
Lemma report_verdict {E} addr r lines :
  @printResult E addr r = Ret lines → TCPOK r = true →
  (YamuxOK r = true → list.last lines = Some (str "  RELAY CAPABLE:" ++ relay_verdict r)) ∧
  (YamuxOK r = false → length lines = 4%nat) ∧
  (relay_verdict r ≠ str " NO" ↔
     (V1 r).1 = (true, 100) ∨ (h_ok (V2Hop r) = true ∧ h_status (V2Hop r) = 100 ∧ V2StopOK r = true)).
Proof.
  intros H Ht. split_and!.
  - intros Hy. unfold printResult in H. rewrite Ht, Hy in H. cbn [negb] in H.
    apply bind_ret_inv in H as (hop & _ & H). apply (inj Ret) in H as <-.
    rewrite !(assoc_L (++)). apply last_snoc.
  - intros Hy. unfold printResult in H. rewrite Ht, Hy in H. cbn [negb] in H. by injection H as <-.
  - unfold relay_verdict. destruct (V1 r) as [[v1ok code] st]. cbn [fst].
    destruct (v1ok && (code =? 100)) eqn:E1; zbool.
    { subst. split; [by left|]. intros _. by vm_compute. }
    assert ((v1ok, code) ≠ (true, 100)) as Hn by (intros [= -> ->]; done).
    destruct (h_ok (V2Hop r) && (h_status (V2Hop r) =? 100) && V2StopOK r) eqn:E2; zbool.
    + split; [by right|]. intros _. by vm_compute.
    + split; [done|]. intros [?|(A & B & C)]; [done|]. rewrite A, B, C in E2. done.
Qed.

Example duration_texts :
  map duration_text [0; 15; 1500; 2000000; 1234567890; 61000000000; 3600000000000; -5000000000] =
  [str "0s"; str "15ns"; str "1.5µs"; str "2ms"; str "1.23456789s"; str "1m1s"; str "1h0m0s"; str "-5s"].
Proof. vm_compute. reflexivity. Qed.

Lemma endpoints_exact_example :
  scan_endpoints [[str "/ip4/8.8.8.8/tcp/4001/p2p/Qm"; str "/ip4/10.0.0.1/tcp/4001"];
                  [str "/ip4/8.8.8.8/tcp/4001"; str "/ip6/::1/tcp/1"; []]] = [str "8.8.8.8:4001"].
Proof. vm_compute. reflexivity. Qed.
