(* ===== verification/ToxPriv.v ===== *)
(** * Access to toxcore internals (toxpriv/, intern/)

    Two packages reach into the C library.  Most of their functions only pass arguments
    on; modelled is what they do themselves: the conversion of strings, keys, ports
    and addresses, the lookup of the address of a friend, the query of the address of a
    group peer, the table of callbacks, the lists of nodes, and the detector of changes.  The C library is the
    class [ToxPrivLib]; its structures are records of what is read from them. *)

From S2P Require Import Prelude GoIO GoText.
Local Open Scope Z_scope.

(** ** toxpriv: strings and addresses *)

(** [CString]: the memory behind the pointer starts with the text and a zero byte. *)
Definition CString (s : bytes) : bytes := s ++ [x00].

(** [goString]: the loop over the memory at the pointer ends at a zero byte; memory without
    one is read beyond its end. *)
Fixpoint goString_loop {E} (mem b : bytes) : outcome E bytes :=
  match mem with
  | [] => Panic
  | c :: mem' => if bool_decide (c = x00) then Ret b else goString_loop mem' (b ++ [c])
  end.

Definition goString {E} (ptr : option bytes) : outcome E bytes :=
  match ptr with None => Ret [] | Some mem => goString_loop mem [] end.

Fixpoint clen_loop (b : bytes) (i : Z) : option Z :=
  match b with
  | [] => None
  | v :: b' => if bool_decide (v = x00) then Some i else clen_loop b' (i + 1)
  end.

Definition clen (b : bytes) : Z := match clen_loop b 0 with Some i => i | None => zlen b end.

(** [IP_Port] with the address of [IP] in it; the port in network order *)
Record IP_Port := mkIPPort { Family : Z; Ip : bytes; ipPort : Z }.

Class ToxPrivLib := {
  NetFamilyIPv4 : Z;
  NetFamilyIPv6 : Z;
  NetHtons : Z → Z;
  (** [addr_parse_ip] on a C string: the family and the sixteen bytes of the union *)
  AddrParseIP : bytes → option (Z * bytes);
  toxErrGroupPeerQueryToString : Z → option bytes
}.

(** Documented: the two families differ and are not the unspecified family 0; [net_htons] exchanges
    the two bytes on the little-endian machines the struct layouts are for; the text of an IPv4 address is
    parsed to its bytes. *)
Class ToxPrivLaws (L : ToxPrivLib) : Prop := {
  families_differ : NetFamilyIPv4 ≠ NetFamilyIPv6;
  families_specified : NetFamilyIPv4 ≠ 0 ∧ NetFamilyIPv6 ≠ 0;
  htons_swaps v : 0 ≤ v < 65536 → NetHtons v = v mod 256 * 256 + v / 256;
  parse_ip4 ip : length ip = 4%nat →
    AddrParseIP (CString (string4 ip)) = Some (NetFamilyIPv4, ip ++ make_bytes 12)
}.

Section Priv.
Context `{ToxPrivLib}.

Inductive priv_err : Type :=
| ErrParseIP
| ErrNoFriendConnection (frnum : Z)
| ErrNoConnection (frnum : Z)
| ErrGroupPeerQuery (code : Z).

(** The error comes with a partly filled value, which is left out. *)
Definition MakeIPPort (ip : bytes) (port : Z) : outcome priv_err IP_Port :=
  match AddrParseIP (CString ip) with
  | None => Fail ErrParseIP
  | Some (fam, addr) => Ret (mkIPPort fam addr (NetHtons port))
  end.

Definition formatIPPort (ipp : IP_Port) : bytes :=
  let port := NetHtons (ipPort ipp) in
  if Family ipp =? NetFamilyIPv4 then JoinHostPort (IP_String (take 4 (Ip ipp))) (itoa port)
  else if Family ipp =? NetFamilyIPv6 then JoinHostPort (IP_String (Ip ipp)) (itoa port)
  else [].

(** [Error()] of a query error *)
Definition query_Error (e : Z) : bytes :=
  match toxErrGroupPeerQueryToString e with None => str "unknown" | Some s => s end.

Definition GroupPeerIPStringMaxLength : nat := 96.

(** [answer]: whether the library found the peer, the code it set, and what it wrote at the
    start of the buffer. *)
Definition GroupPeerGetIPAddress (answer : bool * Z * bytes) : outcome priv_err bytes :=
  let buf := make_bytes GroupPeerIPStringMaxLength in
  let '(found, code, text) := answer in
  let buf := copy_into buf text in
  if negb found then Fail (ErrGroupPeerQuery code)
  else slice_to buf (Z.to_nat (clen buf)).

(** *** The address of a friend *)

(** What the library says about a messenger. *)
Record messenger := mkMessenger {
  getfriendcon_id : Z → Z;
  crypt_connection_id : Z → Z;
  crypto_connection_status : Z → bool * bool;       (* direct, found *)
  get_conn : Z → bool;                              (* not nil *)
  dht_ip_port : Z → option IP_Port;
  (** a connected relay by a random index *)
  copy_connected_tcp_relays_index : Z → option IP_Port
}.

Definition direct_address (m : messenger) (friendconID : Z) : option bytes :=
  let cryptConnID := crypt_connection_id m friendconID in
  if 0 <=? cryptConnID then
    let '(directConnected, found) := crypto_connection_status m cryptConnID in
    if found && directConnected then
      if get_conn m friendconID then
        match dht_ip_port m friendconID with
        | Some ipp =>
            if negb (Family ipp =? 0) then
              let s := formatIPPort ipp in
              if bool_decide (s ≠ []) then Some s else None
            else None
        | None => None
        end
      else None
    else None
  else None.

Definition FriendGetConnectionIP (m : messenger) (rnd frnum : Z) : outcome priv_err bytes :=
  let friendconID := getfriendcon_id m (i32 frnum) in
  if friendconID <? 0 then Fail (ErrNoFriendConnection frnum)
  else
    match direct_address m friendconID with
    | Some s => Ret s
    | None =>
        match copy_connected_tcp_relays_index m rnd with
        | Some ipp =>
            let s := formatIPPort ipp in
            if bool_decide (s ≠ []) then Ret s else Fail (ErrNoConnection frnum)
        | None => Fail (ErrNoConnection frnum)
        end
    end.

End Priv.

(** ** intern: ports and keys *)

Definition host_to_net (n : Z) : Z := Z.lor (u16 (Z.shiftl n 8)) (Z.shiftr n 8).
Definition net_to_host (n : Z) : Z := host_to_net n.

Definition PUBLIC_KEY_SIZE : nat := 32.

Definition ppkey2str (key : bytes) : bytes := map to_upper (hexEncode (take PUBLIC_KEY_SIZE key)).

(** The error of the decoder is dropped; the length is checked. *)
Definition str2ppkey {E} (pubkey : bytes) : outcome E bytes :=
  let keybin := (hex_DecodeString pubkey).1 in
  if bool_decide (length keybin ≠ PUBLIC_KEY_SIZE) then Panic else Ret keybin.

(** ** intern: the table of callbacks *)

(** A callback is registered under a number, which C code carries as a pointer. *)
Record cbimpl (A : Type) := mkCbimpl { cbid : Z; cbmap : gmap Z A }.
Arguments mkCbimpl {A}.
Arguments cbid {A}.
Arguments cbmap {A}.

Definition newcbimpl {A} : cbimpl A := mkCbimpl 0 ∅.

(** [uintptr(id)] of a 32-bit number on a 64-bit machine *)
Definition mapping {A} (uds : A) (c : cbimpl A) : Z * cbimpl A :=
  let id := i32 (cbid c + 1) in
  (u64 id, mkCbimpl id (<[id := uds]> (cbmap c))).

Definition getmapping {A} (udc : Z) (c : cbimpl A) : option A := cbmap c !! i32 udc.

(** ** intern: nodes in C memory *)

Record NodeFormat := mkNodeFormat { nf_pk : bytes; nf_ip : bytes; nf_port : Z }.

(** [Set]; [parse] is [addr_parse_ip], which leaves the address when it fails.  An empty
    text panics at [&[]byte(address)[0]]. *)
Definition NodeFormat_Set {E} (parse : bytes → option bytes) (ip : bytes) (port : Z) (pubkey : bytes)
    (nf : NodeFormat) : outcome E NodeFormat :=
  k ← str2ppkey pubkey;
  _ ← index ip 0;
  Ret (mkNodeFormat k (default (nf_ip nf) (parse ip)) (host_to_net port)).

Definition NodeFormat_Port (nf : NodeFormat) : Z := net_to_host (nf_port nf).
Definition NodeFormat_Pubkey (nf : NodeFormat) : bytes := ppkey2str (nf_pk nf).
(** [ntoa] is [ip_ntoa] *)
Definition NodeFormat_IPPort (ntoa : bytes → bytes) (nf : NodeFormat) : bytes :=
  ntoa (nf_ip nf) ++ [x3a] ++ itoa (NodeFormat_Port nf).

(** [malloc]ed memory: [None] is a cell that was not written. *)
Record NodeFormatList := mkNodeList { nfs : list (option NodeFormat); nl_num : Z }.

Definition NewNodeFormatN (n : Z) : NodeFormatList := mkNodeList (replicate (Z.to_nat n) None) n.

(** [realloc] to twice the number; it may fail and leave the memory. *)
Definition Expand (alloc_ok : bool) (l : NodeFormatList) : (Z * bool) * NodeFormatList :=
  if negb alloc_ok then ((nl_num l, false), l)
  else
    let num := 2 * nl_num l in
    ((num, true),
     mkNodeList (take (Z.to_nat num) (nfs l) ++ replicate (Z.to_nat num - length (nfs l)) None) num).

Definition Get_ (index_ : nat) (l : NodeFormatList) : option (option NodeFormat) := nfs l !! index_.

(** [Count] over the timestamps of a client list *)
Fixpoint Count (is_timeout : Z → bool) (stamps : list Z) : Z :=
  match stamps with
  | [] => 0
  | t :: ts => if is_timeout t then Count is_timeout ts else 1 + Count is_timeout ts
  end.

(** ** intern: the detector of changes *)

Record dht_view := mkView {
  num_to_bootstrap : Z; loaded_nodes_index : Z; loaded_num_nodes : Z; num_friends : Z;
  close_bootstrap_times : Z }.

#[export] Instance dht_view_eq_dec : EqDecision dht_view.
Proof. solve_decision. Defined.

(** [last_dht] and [last_connected] *)
Record dump_state := mkDump { last_dht : dht_view; last_connected : Z }.

(** The names of what changed are logged when there are any. *)
Definition NeedDump (connected : Z) (d : dht_view) (s : dump_state) : (bool * list bytes) * dump_state :=
  let l := last_dht s in
  let chk (c : bool) (name : bytes) := if c then [name] else [] in
  let changed :=
    chk (negb (connected =? last_connected s)) (str "connected") ++
    chk (negb (num_to_bootstrap d =? num_to_bootstrap l)) (str "num_to_bootstrap") ++
    chk (negb (loaded_nodes_index d =? loaded_nodes_index l)) (str "loaded_nodes_index") ++
    chk (negb (loaded_num_nodes d =? loaded_num_nodes l)) (str "loaded_num_nodes") ++
    chk (negb (num_friends d =? num_friends l)) (str "num_friends") ++
    chk (negb (close_bootstrap_times d =? close_bootstrap_times l)) (str "close_bootstrap_times") in
  let need := bool_decide (changed ≠ []) in
  ((need, changed), mkDump d connected).

(** ** Proofs: strings and ports *)

Lemma goString_CString {E} s : x00 ∉ s → @goString E (Some (CString s)) = Ret s.
Proof.
  intros Hs. cbn [goString]. unfold CString.
  assert (∀ b, @goString_loop E (s ++ [x00]) b = Ret (b ++ s)) as Hl; [|by rewrite Hl].
  induction s as [|c s IH]; intros b; cbn [app goString_loop].
  - rewrite bool_decide_true by done. by rewrite app_nil_r.
  - apply list.not_elem_of_cons in Hs as [Hc Hs].
    rewrite bool_decide_false by congruence. rewrite IH by done. by rewrite <- app_assoc.
Qed.

Lemma clen_loop_text s k i : x00 ∉ s → clen_loop (s ++ x00 :: k) i = Some (i + zlen s).
Proof.
  revert i. induction s as [|c s IH]; intros i Hs; cbn [app clen_loop].
  - rewrite bool_decide_true by done. rewrite zlen_nil. f_equal. lia.
  - apply list.not_elem_of_cons in Hs as [Hc Hs]. rewrite bool_decide_false by congruence.
    rewrite IH by done. rewrite zlen_cons. f_equal. lia.
Qed.

(** What the library writes with its final zero is what the query returns. *)
Lemma GroupPeerGetIPAddress_text `{ToxPrivLib} code s :
  x00 ∉ s → (length s < GroupPeerIPStringMaxLength)%nat →
  GroupPeerGetIPAddress (true, code, CString s) = Ret s.
Proof.
  intros Hs Hl. unfold GroupPeerGetIPAddress, CString. cbn [negb].
  rewrite copy_into_short by (rewrite length_app, length_make_bytes; cbn; lia).
  rewrite <- app_assoc. cbn [app]. unfold clen. rewrite clen_loop_text by done.
  replace (Z.to_nat (0 + zlen s)) with (length s) by (unfold zlen; lia).
  rewrite slice_to_ok by (rewrite length_app; lia). by rewrite take_app_length.
Qed.

Lemma host_to_net_swap n : 0 ≤ n < 65536 → host_to_net n = n mod 256 * 256 + n / 256.
Proof.
  intros Hn. unfold host_to_net, u16, wrap_u.
  rewrite Z.shiftl_mul_pow2, Z.shiftr_div_pow2 by lia. change (2 ^ 8) with 256. change (2 ^ 16) with (256 * 256).
  rewrite Z.mul_mod_distr_r by lia.
  rewrite <- Z.add_lor_land.
  assert (Z.land (n mod 256 * 256) (n / 256) = 0) as ->; [|lia].
  apply Z.bits_inj'. intros i Hi. rewrite Z.land_spec, Z.bits_0.
  change 256 with (2 ^ 8). destruct (Z.lt_ge_cases i 8) as [Hlt|Hge].
  - rewrite Z.mul_pow2_bits_low by lia. done.
  - rewrite Z.div_pow2_bits by lia. rewrite <- (Z.mod_small n (2 ^ 16)) at 2 by lia.
    rewrite Z.mod_pow2_bits_high by lia. apply andb_false_r.
Qed.

Lemma swap_involutive n : 0 ≤ n < 65536 →
  let m := n mod 256 * 256 + n / 256 in 0 ≤ m < 65536 ∧ m mod 256 * 256 + m / 256 = n.
Proof. intros Hn m. unfold m. split; Z.div_mod_to_equations; lia. Qed.

Lemma net_to_host_host_to_net n : 0 ≤ n < 65536 → net_to_host (host_to_net n) = n.
Proof.
  intros Hn. unfold net_to_host. destruct (swap_involutive n Hn) as [H1 H2].
  rewrite (host_to_net_swap n Hn). rewrite host_to_net_swap by done. exact H2.
Qed.

Lemma str2ppkey_ppkey2str {E} key :
  length key = PUBLIC_KEY_SIZE → @str2ppkey E (ppkey2str key) = Ret key.
Proof.
  intros Hk. unfold str2ppkey, ppkey2str. rewrite take_ge by lia.
  rewrite hex_DecodeString_upper. cbn [fst]. by rewrite bool_decide_false by (intros Hn; by apply Hn).
Qed.

Section Addresses.
Context {L : ToxPrivLib} {LL : ToxPrivLaws L}.

(** Addresses come back as they went in.  For every IPv4 address and port, the structure
    [MakeIPPort] builds for the C library is printed by [formatIPPort] as the usual
    host:port text; a node that was set reports the key and the port it was given; and both packages agree
    on the byte order of ports. *)
Theorem address_roundtrip ip port key nf parse :
  length ip = 4%nat → 0 ≤ port < 65536 → length key = PUBLIC_KEY_SIZE →
  (∃ ipp, MakeIPPort (string4 ip) port = Ret ipp ∧ Family ipp = NetFamilyIPv4 ∧
     ipPort ipp = host_to_net port ∧
     formatIPPort ipp = JoinHostPort (string4 ip) (itoa port)) ∧
  (∃ nf', @NodeFormat_Set unit parse (string4 ip) port (ppkey2str key) nf = Ret nf' ∧
     nf_pk nf' = key ∧ NodeFormat_Pubkey nf' = ppkey2str key ∧ NodeFormat_Port nf' = port).
Proof.
  intros Hip Hp Hk. split.
  - unfold MakeIPPort. rewrite parse_ip4 by done. eexists. split; [reflexivity|]. cbn [Family ipPort].
    split; [done|]. rewrite htons_swaps by done. split; [by rewrite host_to_net_swap|].
    unfold formatIPPort. cbn [Family Ip ipPort]. rewrite Z.eqb_refl.
    destruct (swap_involutive port Hp) as [H1 H2]. rewrite htons_swaps, H2 by done.
    rewrite take_app_exact by done. unfold IP_String.
    rewrite bool_decide_false by (by intros ->). rewrite bool_decide_false by lia.
    unfold To4. by rewrite bool_decide_true.
  - unfold NodeFormat_Set. rewrite str2ppkey_ppkey2str by done. cbn [mbind outcome_bind].
    assert (∃ b, @index unit (string4 ip) 0 = Ret b) as [b ->].
    { destruct ip as [|x ip]; [done|]. destruct (itoa_byte x) as (c & l & E & _).
      unfold string4. cbn [map]. unfold compose. rewrite E. exists c.
      destruct (map _ ip); reflexivity. }
    cbn [mbind outcome_bind]. eexists. split; [reflexivity|]. unfold NodeFormat_Pubkey, NodeFormat_Port. cbn [nf_pk nf_port].
    by rewrite net_to_host_host_to_net.
Qed.

Lemma formatIPPort_family ipp :
  formatIPPort ipp ≠ [] ↔ Family ipp = NetFamilyIPv4 ∨ Family ipp = NetFamilyIPv6.
Proof.
  unfold formatIPPort. assert (∀ h p, JoinHostPort h p ≠ []) as Hj.
  { intros h p. unfold JoinHostPort. case_bool_decide; [done|]. by destruct h. }
  destruct (Family ipp =? NetFamilyIPv4) eqn:E1; zbool; [split; [by left|done]|].
  destruct (Family ipp =? NetFamilyIPv6) eqn:E2; zbool; [split; [by right|done]|].
  split; [done|by intros [?|?]].
Qed.

Lemma direct_address_ne m con s : direct_address m con = Some s → s ≠ [].
Proof.
  unfold direct_address. destruct (0 <=? _); [|done]. destruct (crypto_connection_status _ _) as [d f].
  destruct (f && d); [|done]. destruct (get_conn m con); [|done].
  destruct (dht_ip_port m con) as [ipp|]; [|done]. destruct (negb _); [|done].
  case_bool_decide; [|done]. by intros [= <-].
Qed.

(** The address of a friend.  A friend without a connection is an error; a friend with a
    direct connection whose address is known is reported with that address; in every other case the text is the address of
    a relay the node is connected to, picked at random and not related to the friend, or an
    error when there is none; the result is never empty. *)
Theorem friend_address_spec m rnd frnum :
  let con := getfriendcon_id m (i32 frnum) in
  let direct ipp :=
    0 ≤ crypt_connection_id m con ∧ crypto_connection_status m (crypt_connection_id m con) = (true, true) ∧
    get_conn m con = true ∧ dht_ip_port m con = Some ipp ∧
    (Family ipp = NetFamilyIPv4 ∨ Family ipp = NetFamilyIPv6) in
  (con < 0 → FriendGetConnectionIP m rnd frnum = Fail (ErrNoFriendConnection frnum)) ∧
  (0 ≤ con → ∀ ipp, direct ipp → FriendGetConnectionIP m rnd frnum = Ret (formatIPPort ipp)) ∧
  (0 ≤ con → (∀ ipp, ¬ direct ipp) →
     FriendGetConnectionIP m rnd frnum =
       match copy_connected_tcp_relays_index m rnd with
       | Some ipp => if bool_decide (formatIPPort ipp ≠ []) then Ret (formatIPPort ipp) else Fail (ErrNoConnection frnum)
       | None => Fail (ErrNoConnection frnum)
       end) ∧
  FriendGetConnectionIP m rnd frnum ≠ Ret [].
Proof.
  intros con direct. unfold FriendGetConnectionIP. fold con. split_and!.
  - intros Hc. by replace (con <? 0) with true by (symmetry; apply Z.ltb_lt; lia).
  - intros Hc ipp (D1 & D2 & D3 & D4 & D5). replace (con <? 0) with false by (symmetry; apply Z.ltb_ge; lia).
    unfold direct_address. replace (0 <=? _) with true by (symmetry; apply Z.leb_le; lia).
    rewrite D2, D3, D4. cbn [andb].
    assert ((Family ipp =? 0) = false) as ->
      by (destruct families_specified; apply Z.eqb_neq; destruct D5 as [-> | ->]; done).
    cbn [negb]. by rewrite bool_decide_true by (by apply formatIPPort_family).
  - intros Hc Hd. replace (con <? 0) with false by (symmetry; apply Z.ltb_ge; lia).
    assert (direct_address m con = None) as ->; [|done].
    unfold direct_address. destruct (0 <=? crypt_connection_id m con) eqn:E1; [|done].
    destruct (crypto_connection_status m (crypt_connection_id m con)) as [d f] eqn:E2.
    destruct (f && d) eqn:E3; [|done]. destruct (get_conn m con) eqn:E4; [|done].
    destruct (dht_ip_port m con) as [ipp|] eqn:E5; [|done].
    destruct (negb (Family ipp =? 0)); [|done]. case_bool_decide as E6; [|done].
    exfalso. apply (Hd ipp). apply andb_true_iff in E3 as [-> ->]. zbool.
    split_and!; [done|done|done|done|]. by apply formatIPPort_family.
  - destruct (con <? 0); [done|]. destruct (direct_address m con) as [s|] eqn:Ed.
    + intros E0. apply (inj Ret) in E0 as ->. by apply direct_address_ne in Ed.
    + destruct (copy_connected_tcp_relays_index m rnd); [|done]. case_bool_decide as E; [|done].
      intros E0. apply (inj Ret) in E0. done.
Qed.

End Addresses.

(** ** Proofs: callbacks *)

(** The callbacks registered so far: ids 1 up to [cbid], each with what it was given. *)
Definition registered {A} (l : list A) : cbimpl A := foldl (λ c u, (mapping u c).2) newcbimpl l.

Lemma registered_spec {A} (l : list A) :
  zlen l < 2 ^ 31 →
  cbid (registered l) = zlen l ∧ ∀ i, cbmap (registered l) !! i = if 0 <? i then l !! Z.to_nat (i - 1) else None.
Proof.
  induction l as [|u l IH] using rev_ind; intros Hl.
  - split; [done|]. intros i. cbn [registered foldl newcbimpl cbmap]. rewrite lookup_empty. by case_match.
  - rewrite zlen_app, zlen_cons, zlen_nil in Hl. destruct IH as [I1 I2]; [lia|]. 
    assert (registered (l ++ [u]) = (mapping u (registered l)).2) as -> by (unfold registered; by rewrite foldl_app).
    unfold mapping. cbn [snd cbid cbmap]. rewrite I1.
    pose proof (zlen_nonneg l).
    assert (i32 (zlen l + 1) = zlen l + 1) as -> by (apply wrap_s_small; lia).
    rewrite zlen_app, zlen_cons, zlen_nil. split; [lia|]. intros i. destruct (decide (i = zlen l + 1)) as [->|Hi].
    + rewrite lookup_insert_eq. replace (0 <? zlen l + 1) with true by (symmetry; apply Z.ltb_lt; lia).
      replace (Z.to_nat (zlen l + 1 - 1)) with (length l) by (unfold zlen; lia). by rewrite list_lookup_middle.
    + rewrite lookup_insert_ne by done. rewrite I2. destruct (0 <? i) eqn:E; [|done]. zbool.
      destruct (decide (i ≤ zlen l)) as [Hle|Hgt].
      * rewrite lookup_app_l by (unfold zlen in *; lia). done.
      * rewrite !lookup_ge_None_2; [done|..]; rewrite ?length_app; unfold zlen in *; cbn; lia.
Qed.

(** A callback finds its data: the pointer a registration hands to the C library leads back to
    what was registered, whatever is registered afterwards, up to 2^31 - 1 registrations;
    no entry is ever removed. *)
Theorem callback_data_found {A} (pre post : list A) u :
  zlen (pre ++ u :: post) < 2 ^ 31 →
  getmapping (mapping u (registered pre)).1 (registered (pre ++ u :: post)) = Some u.
Proof.
  intros Hl. destruct (registered_spec (pre ++ u :: post) Hl) as [_ H2].
  rewrite zlen_app, zlen_cons in Hl. pose proof (zlen_nonneg pre). pose proof (zlen_nonneg post).
  destruct (registered_spec pre ltac:(lia)) as [H1 _].
  unfold getmapping, mapping. cbn [fst]. rewrite H1.
  assert (i32 (zlen pre + 1) = zlen pre + 1) as E by (apply wrap_s_small; lia).
  rewrite E. unfold u64. rewrite (wrap_u_small 64) by lia. rewrite E, H2.
  replace (0 <? zlen pre + 1) with true by (symmetry; apply Z.ltb_lt; lia).
  replace (Z.to_nat (zlen pre + 1 - 1)) with (length pre) by (unfold zlen; lia). by rewrite list_lookup_middle.
Qed.

Lemma callback_data_found_witness :
  getmapping (mapping 7 (registered [5])).1 (registered [5; 7; 9]) = Some 7.
Proof. apply (callback_data_found [5] [9] 7). vm_compute. reflexivity. Defined.

(** The number wraps after 2^31 registrations; then an old callback gets new data. *)
Lemma callback_id_wraps {A} (u : A) c : cbid c = 2 ^ 31 - 1 → cbid (mapping u c).2 = - 2 ^ 31.
Proof. intros H. unfold mapping. cbn [snd cbid]. rewrite H. reflexivity. Qed.

(** ** Proofs: lists and changes *)

Lemma Expand_keeps alloc_ok l r l' i nf :
  length (nfs l) = Z.to_nat (nl_num l) → 0 ≤ nl_num l → Expand alloc_ok l = (r, l') →
  length (nfs l') = Z.to_nat (nl_num l') ∧ (Get_ i l = Some nf → Get_ i l' = Some nf).
Proof.
  intros Hl Hn. unfold Expand. destruct alloc_ok; cbn [negb]; intros [= <- <-]; [|done].
  unfold Get_. cbn [nfs nl_num]. rewrite take_ge by lia. split.
  - rewrite length_app, length_replicate. lia.
  - intros Hi. by apply lookup_app_l_Some.
Qed.

Lemma Count_spec f stamps : Count f stamps = zlen (List.filter (λ t, negb (f t)) stamps).
Proof.
  induction stamps as [|t ts IH]; [done|]. cbn [Count List.filter]. rewrite IH. destruct (f t); cbn [negb]; [done|].
  by rewrite zlen_cons.
Qed.

(** The detector reports exactly the changes since its last call. *)
Lemma NeedDump_spec connected d s :
  let '((need, changed), s') := NeedDump connected d s in
  (need = true ↔ connected ≠ last_connected s ∨ d ≠ last_dht s) ∧
  s' = mkDump d connected ∧ (NeedDump connected d s').1 = (false, []).
Proof.
  unfold NeedDump. split_and!; [|done|].
  - rewrite bool_decide_eq_true. destruct s as [[a1 a2 a3 a4 a5] c], d as [b1 b2 b3 b4 b5].
    cbn [last_dht last_connected num_to_bootstrap loaded_nodes_index loaded_num_nodes num_friends close_bootstrap_times].
    destruct (Z.eqb_spec connected c) as [->|Hc]; cbn [negb app]; [|split; [by left|done]].
    destruct (Z.eqb_spec b1 a1) as [->|H1]; cbn [negb app]; [|split; [right; congruence|done]].
    destruct (Z.eqb_spec b2 a2) as [->|H2]; cbn [negb app]; [|split; [right; congruence|done]].
    destruct (Z.eqb_spec b3 a3) as [->|H3]; cbn [negb app]; [|split; [right; congruence|done]].
    destruct (Z.eqb_spec b4 a4) as [->|H4]; cbn [negb app]; [|split; [right; congruence|done]].
    destruct (Z.eqb_spec b5 a5) as [->|H5]; cbn [negb app]; [|split; [right; congruence|done]].
    split; [done|]. by intros [?|?].
  - cbn [last_dht last_connected]. by rewrite !Z.eqb_refl.
Qed.

(** ** Evaluation *)

Module ToyPriv.

(** Dotted decimal text, by its parts *)
Fixpoint parse_dec (s : bytes) (n : Z) : Z :=
  match s with [] => n | b :: s' => parse_dec s' (10 * n + (bz b - 48)) end.

Definition ip4 : bytes := [x0a; x00; x00; x07].

(** A library that knows the texts of all IPv4 addresses by search over the bytes would be
    large; this one keeps the digits it needs: it inverts [string4] by construction. *)
Definition dot_step (b : byte) (acc : bytes * list bytes) : bytes * list bytes :=
  let '(cur, parts) := acc in
  if bool_decide (b = x2e) then ([], cur :: parts) else (b :: cur, parts).

Definition toy_parse (s : bytes) : option (Z * bytes) :=
  match foldr dot_step ([], []) (take (length s - 1) s) with
  | (cur, parts) => Some (2, map (λ p, zb (parse_dec p 0)) (cur :: parts) ++ make_bytes 12)
  end.

#[export] Instance toy_priv : ToxPrivLib := {|
  NetFamilyIPv4 := 2; NetFamilyIPv6 := 10;
  NetHtons v := v mod 256 * 256 + v / 256;
  AddrParseIP := toy_parse;
  toxErrGroupPeerQueryToString _ := None |}.

Definition digits_only (s : bytes) : bool := forallb (λ b, negb (bool_decide (b = x2e))) s.

Lemma byte_text b : parse_dec (itoa (bz b)) 0 = bz b ∧ digits_only (itoa (bz b)) = true.
Proof.
  pose proof (forall_bytes (λ b, (parse_dec (itoa (bz b)) 0 =? bz b) && digits_only (itoa (bz b)))
    ltac:(vm_compute; reflexivity) b) as Hb. cbn beta in Hb.
  apply andb_true_iff in Hb as [H1 H2]. by zbool.
Qed.

Lemma foldr_digits s cur parts :
  digits_only s = true →
  foldr dot_step (cur, parts) s = (s ++ cur, parts).
Proof.
  induction s as [|b s IH]; cbn [digits_only forallb foldr]; intros Hs; [done|].
  apply andb_true_iff in Hs as [Hb Hs]. rewrite IH by done. apply negb_true_iff in Hb. unfold dot_step. by rewrite Hb.
Qed.

Lemma foldr_dot cur parts : foldr dot_step (cur, parts) [x2e] = ([], cur :: parts).
Proof. reflexivity. Qed.

#[export] Instance toy_priv_laws : ToxPrivLaws toy_priv.
Proof.
  split; [done|done|done|]. intros ip Hip. destruct ip as [|a [|b [|c [|d [|]]]]]; try done.
  cbn [AddrParseIP toy_priv NetFamilyIPv4]. unfold toy_parse, CString.
  rewrite length_app. cbn [length]. rewrite Nat.add_sub, take_app_length.
  unfold string4. cbn [map Join]. unfold compose.
  destruct (byte_text a) as [A1 A2], (byte_text b) as [B1 B2], (byte_text c) as [C1 C2], (byte_text d) as [D1 D2].
  rewrite !foldr_app, (foldr_digits (itoa (bz d))), foldr_dot by done.
  rewrite (foldr_digits (itoa (bz c))), foldr_dot by done.
  rewrite (foldr_digits (itoa (bz b))), foldr_dot by done.
  rewrite (foldr_digits (itoa (bz a))) by done. rewrite !app_nil_r. cbn [map].
  by rewrite A1, B1, C1, D1, !zb_bz.
Qed.

Definition m0 : messenger :=
  mkMessenger (λ _, 4) (λ _, 2) (λ _, (true, true)) (λ _, true)
    (λ _, Some (mkIPPort 2 (ip4 ++ make_bytes 12) (host_to_net 33445))) (λ _, None).

End ToyPriv.
Import ToyPriv.

Lemma address_roundtrip_witness :
  ∃ ipp, MakeIPPort (str "10.0.0.7") 33445 = Ret ipp ∧ formatIPPort ipp = str "10.0.0.7:33445".
Proof.
  destruct (address_roundtrip ip4 33445 (make_bytes 32) (mkNodeFormat [] [] 0) (λ _, None))
    as [(ipp & H1 & _ & _ & H2) _]; [reflexivity|lia|reflexivity|].
  exists ipp. split; [exact H1|]. rewrite H2. vm_compute. reflexivity.
Defined.

Example friend_direct : FriendGetConnectionIP m0 0 1 = Ret (str "10.0.0.7:33445").
Proof. vm_compute. reflexivity. Qed.
