(* ===== verification/TunConfig.v ===== *)
(** * The configuration of the tunnel client (tbtunc/tcp_server.go, tbtunc/logrus.go)

    The configuration comes from defaults, a JSON file and the command line, and is
    written back to the file at every start.  Modelled: [cmdflagConfig], the paths, and
    the function that shortens the names of functions for the log.  The JSON encoding of
    the structure is the class [JsonCfg]; the values the command line gives are an argument. *)

From S2P Require Import Prelude GoIO GoText.
From S2P Require Import NodePool XTox.
Local Open Scope Z_scope.

(** ** The configuration *)

Record config := mkCfg {
  c_Port : Z; c_Host : bytes; c_Peerid : bytes; c_ToxFile : bytes; c_CfgDir : bytes; c_CfgFile : bytes;
  c_Debug : bool; c_PeerHost : bytes; c_PeerPort : Z }.

(** [Config{}] *)
Definition zero_config : config := mkCfg 0 [] [] [] [] [] false [] 0.

Definition default_config : config :=
  mkCfg 2090 (str "127.0.0.1") [] (str "toxsave.data") [] (str "tbtuncli.json") false (str "127.0.0.1") 9996.

Class JsonCfg := {
  (** [json.Unmarshal(bcc, &cfgtmp)] on a zero value: what it leaves, error or not *)
  unmarshal_cfg : bytes → config;
  marshal_cfg : config → bytes
}.

Definition ascii (s : bytes) : Prop := Forall (λ b, bz b < 128) s.

(** A string that is not UTF-8 would not survive the encoding; plain ASCII does. *)
Definition ascii_cfg (c : config) : Prop :=
  ascii (c_Host c) ∧ ascii (c_Peerid c) ∧ ascii (c_ToxFile c) ∧ ascii (c_CfgDir c) ∧ ascii (c_CfgFile c) ∧
  ascii (c_PeerHost c).

Class JsonCfgLaws (J : JsonCfg) : Prop := {
  unmarshal_marshal c : ascii_cfg c → unmarshal_cfg (marshal_cfg c) = c
}.

(** The flags given on the command line *)
Record given := mkGiven {
  g_CfgDir : option bytes; g_CfgFile : option bytes; g_Port : option Z; g_Host : option bytes;
  g_Peerid : option bytes; g_ToxFile : option bytes; g_Debug : option bool; g_PeerPort : option Z;
  g_PeerHost : option bytes }.

Definition no_flags : given := mkGiven None None None None None None None None None.

(** [flag.Parse] into the variables bound before *)
Definition apply_flags (g : given) (c : config) : config :=
  mkCfg (default (c_Port c) (g_Port g)) (default (c_Host c) (g_Host g)) (default (c_Peerid c) (g_Peerid g))
    (default (c_ToxFile c) (g_ToxFile g)) (default (c_CfgDir c) (g_CfgDir g))
    (default (c_CfgFile c) (g_CfgFile g)) (default (c_Debug c) (g_Debug g))
    (default (c_PeerHost c) (g_PeerHost g)) (default (c_PeerPort c) (g_PeerPort g)).

(** [filepath.Join(a, b)] *)
Definition path_Join (a b : bytes) : bytes :=
  if bool_decide (a = []) then (if bool_decide (b = []) then [] else SaveFile.Clean b)
  else if bool_decide (b = []) then SaveFile.Clean a
  else SaveFile.Clean (a ++ [x2f] ++ b).

Definition ToxFilePath (c : config) : bytes :=
  if bool_decide (c_CfgDir c = []) then c_ToxFile c else path_Join (c_CfgDir c) (c_ToxFile c).

(** Files by path, and whether they can be written. *)
Record cfgfs := mkCfgFs { cf_files : gmap bytes bytes; cf_writable : bool }.

Section Load.
Context `{JsonCfg}.

Definition cfg_path (c : config) : bytes :=
  if bool_decide (c_CfgFile c ≠ []) then path_Join (c_CfgDir c) (c_CfgFile c) else c_CfgFile c.

(** [None]: the program exits because the file cannot be written. *)
Definition cmdflagConfig (g : given) (gcfg : config) (f : cfgfs) : option (config * cfgfs) :=
  let cfgfile := cfg_path gcfg in
  let gcfg := match cf_files f !! cfgfile with Some bcc => unmarshal_cfg bcc | None => gcfg end in
  let gcfg := apply_flags g gcfg in
  if cf_writable f then Some (gcfg, mkCfgFs (<[cfgfile := marshal_cfg gcfg]> (cf_files f)) true) else None.

End Load.

(** [chkflagConfig]: the program ends unless the server is named. *)
Definition chkflagConfig {E} (c : config) : outcome E unit :=
  if bool_decide (c_Peerid c = []) then Panic else Ret ().

(** ** Function names (logrus.go) *)

Section Names.
(** [gopp.IsNumberic] *)
Context (IsNumberic : bytes → bool).

Definition isAnonName (name : bytes) : bool :=
  if zlen name <? 4 then false
  else if bool_decide (name = str "func") then true
  else IsNumberic (drop 4 name).

(** [for i := fc-1; i > 0; i--]: [i] more fields than the first one are looked at. *)
Fixpoint trim_loop (flds : list bytes) (i : nat) : list bytes :=
  match i with
  | O => flds
  | S j =>
      match flds !! i with
      | Some f => if negb (isAnonName f) then take (S i) flds else trim_loop flds j
      | None => trim_loop flds j
      end
  end.

Definition trimAnonName (flds : list bytes) : list bytes := trim_loop flds (length flds - 1).

(** [path.Split]: what follows the last slash *)
Fixpoint after_slash (s cur : bytes) : bytes :=
  match s with
  | [] => cur
  | b :: s' => if bool_decide (b = x2f) then after_slash s' [] else after_slash s' (cur ++ [b])
  end.

Definition refmtFuncname (funcname : bytes) : bytes :=
  let nsfunc := after_slash funcname [] in
  let fields := trimAnonName (SplitByte x2e nsfunc) in
  let fields := if bool_decide (1 < length fields)%nat then drop (length fields - 1) fields else fields in
  List.filter (λ b, negb (bool_decide (b = x28 ∨ b = x29 ∨ b = x2a))) (Join [x2e] fields).

Definition Text2Gray (text : bytes) : bytes := [x1b] ++ str "[90m" ++ text ++ [x1b] ++ str "[0m".

(** *** The flags of the log *)

(** Constants of the package [log]. *)
Definition Lmsgprefix : Z := 64.

Definition Llongfunc : Z := Z.shiftl Lmsgprefix 2.
Definition Lshortfunc : Z := Z.shiftl Lmsgprefix 3.
Definition Lgrayfile : Z := Z.shiftl Lmsgprefix 4.
Definition Ltimestamp : Z := Z.shiftl Lmsgprefix 5.
Definition Lnoyearts : Z := Z.shiftl Lmsgprefix 6.

Definition has_flag (gflags f : Z) : bool := negb (Z.land gflags f =? 0).

(** [CallerPrettyfier]: what it returns for the file *)
Definition CallerPrettyfier (gflags : Z) (file : bytes) (line : Z) (function : bytes) : bytes :=
  let filename := str " " ++ after_slash file [] ++ str ":" ++ itoa line in
  let nsfunc := refmtFuncname function in
  let filefunc := if has_flag gflags Lshortfunc || has_flag gflags Llongfunc
                  then filename ++ str ":" ++ nsfunc else filename in
  let filefunc := if has_flag gflags Lgrayfile then Text2Gray filefunc else filefunc in
  filefunc ++ [x09].

(** [LogrusSetFlags]: the flags it keeps and the format of the time *)
Definition LogrusSetFlags (flags : Z) (format : bytes) : Z * bytes :=
  let gflags := Z.lor (Z.lor flags Lgrayfile) Lnoyearts in
  (gflags, if has_flag gflags Ltimestamp then str "2006-01-02 15:04:05.000" else format).

End Names.

(** ** Proofs *)

Lemma apply_no_flags c : apply_flags no_flags c = c.
Proof. by destruct c. Qed.

Section Facts.
Context {J : JsonCfg} {JL : JsonCfgLaws J}.

(** The configuration of one start is that of the next: what a start made of file and command line
    is what the following start without flags uses, whatever the flags of the first
    were; and a start changes no file but its own. *)
Theorem config_persists g f c f' :
  cmdflagConfig g default_config f = Some (c, f') → ascii_cfg c →
  cmdflagConfig no_flags default_config f' = Some (c, f') ∧
  ∀ p, p ≠ cfg_path default_config → cf_files f' !! p = cf_files f !! p.
Proof.
  unfold cmdflagConfig. destruct (cf_writable f); [|done]. intros [= <- <-] Ha. cbn [cf_files cf_writable].
  rewrite lookup_insert_eq, unmarshal_marshal, apply_no_flags, insert_insert_eq by done. split; [done|].
  intros p Hp. by rewrite lookup_insert_ne.
Qed.

(** Each setting comes from the command line, else from the file when there is one, else
    from the defaults; the file is complete, and a setting it lacks is the zero value. *)
Lemma config_precedence g f c f' :
  cmdflagConfig g default_config f = Some (c, f') →
  c = apply_flags g (match cf_files f !! cfg_path default_config with
                     | Some bcc => unmarshal_cfg bcc
                     | None => default_config
                     end) ∧
  (g_Port g = None → cf_files f !! cfg_path default_config = Some (marshal_cfg zero_config) → c_Port c = 0).
Proof.
  unfold cmdflagConfig. destruct (cf_writable f); [|done]. intros [= <- <-]. split; [done|].
  intros Hg ->. rewrite unmarshal_marshal by (repeat split; constructor). cbn [apply_flags c_Port]. by rewrite Hg.
Qed.

(** The flags that name the file are read after it: they do not change which file is read
    and written. *)
Lemma cfgfile_flag_ignored g f d n :
  match cmdflagConfig g default_config f,
        cmdflagConfig (mkGiven (Some d) (Some n) (g_Port g) (g_Host g) (g_Peerid g) (g_ToxFile g) (g_Debug g)
                         (g_PeerPort g) (g_PeerHost g)) default_config f with
  | Some (_, f1), Some (_, f2) => dom (cf_files f1) = dom (cf_files f2)
  | None, None => True
  | _, _ => False
  end.
Proof.
  unfold cmdflagConfig. destruct (cf_writable f); [|done]. cbn [cf_files]. by rewrite !dom_insert_L.
Qed.

End Facts.

Lemma cfg_path_default : cfg_path default_config = str "tbtuncli.json".
Proof. vm_compute. reflexivity. Qed.

(** A name that is no anonymous function but ends in digits after four letters is taken
    for one. *)
Lemma anon_by_suffix num : num (str "2") = true → isAnonName num (str "step2") = true.
Proof. intros H. unfold isAnonName. cbn. done. Qed.

(** Whatever flags are set, the caller is printed in gray, and the function is named
    exactly when one of the two flags for it is given. *)
Lemma log_caller num flags format file line fn :
  let g := (LogrusSetFlags flags format).1 in
  let name := str " " ++ after_slash file [] ++ str ":" ++ itoa line in
  CallerPrettyfier num g file line fn =
    Text2Gray (if has_flag flags Lshortfunc || has_flag flags Llongfunc
               then name ++ str ":" ++ refmtFuncname num fn else name) ++ [x09].
Proof.
  intros g name. unfold CallerPrettyfier. fold name.
  assert (∀ f, Z.land Lgrayfile f = 0 → Z.land Lnoyearts f = 0 → has_flag g f = has_flag flags f) as Hf.
  { intros f H1 H2. unfold has_flag, g, LogrusSetFlags. cbn [fst].
    by rewrite !Z.land_lor_distr_l, H1, H2, !Z.lor_0_r. }
  rewrite (Hf Lshortfunc), (Hf Llongfunc) by reflexivity.
  assert (has_flag g Lgrayfile = true) as ->; [|done].
  unfold has_flag, g, LogrusSetFlags. cbn [fst]. rewrite !Z.land_lor_distr_l.
  change (Z.land Lgrayfile Lgrayfile) with 1024. change (Z.land Lnoyearts Lgrayfile) with 0.
  rewrite Z.lor_0_r. apply negb_true_iff, Z.eqb_neq. intros E.
  apply (f_equal (λ z, Z.testbit z 10)) in E. rewrite Z.lor_spec, Z.bits_0 in E.
  change (Z.testbit 1024 10) with true in E. by rewrite orb_true_r in E.
Qed.

Definition numeric (s : bytes) : bool :=
  negb (bool_decide (s = [])) && forallb (λ b, (48 <=? bz b) && (bz b <=? 57)) s.

Example funcnames :
  refmtFuncname numeric (str "github.com/envsh/toxera/tbtunc.(*ToxInst).Iterate.func1") = str "Iterate" ∧
  refmtFuncname numeric (str "main.main") = str "main" ∧
  refmtFuncname numeric (str "tbtunc.loop.step2") = str "loop".
Proof. split_and!; vm_compute; reflexivity. Qed.

(** ** Evaluation *)

Module ToyJson.

(** The binary digits of a number, as a text *)
Fixpoint put_bits (p : positive) : bytes :=
  match p with xH => [] | xO p => x30 :: put_bits p | xI p => x31 :: put_bits p end.

Fixpoint get_bits (s : bytes) : positive :=
  match s with
  | [] => 1
  | b :: s => if bool_decide (b = x30) then xO (get_bits s) else xI (get_bits s)
  end.

Lemma get_put_bits p : get_bits (put_bits p) = p.
Proof. by induction p as [p IH|p IH|]; cbn; rewrite ?IH. Qed.

Definition to_tuple (c : config) :=
  (c_Port c, c_Host c, c_Peerid c, c_ToxFile c, c_CfgDir c, c_CfgFile c, c_Debug c, c_PeerHost c, c_PeerPort c).
Definition of_tuple t : config :=
  let '(a1, a2, a3, a4, a5, a6, a7, a8, a9) := t in mkCfg a1 a2 a3 a4 a5 a6 a7 a8 a9.

Lemma of_to_tuple c : of_tuple (to_tuple c) = c.
Proof. by destruct c. Qed.

#[export] Instance toy_json : JsonCfg := {|
  unmarshal_cfg s := from_option of_tuple zero_config (decode (get_bits s));
  marshal_cfg c := put_bits (encode (to_tuple c)) |}.

#[export] Instance toy_json_laws : JsonCfgLaws toy_json.
Proof.
  constructor. intros c _. unfold unmarshal_cfg, marshal_cfg, toy_json.
  rewrite get_put_bits, decode_encode. apply of_to_tuple.
Qed.

End ToyJson.

Import ToyJson.

(** A first start with [-port 1080] and no file: the second one, without flags, listens
    on that port too. *)
Lemma config_persists_witness :
  ∃ c f', cmdflagConfig (mkGiven None None (Some 1080) None None None None None None) default_config
            (mkCfgFs ∅ true) = Some (c, f') ∧
    c_Port c = 1080 ∧
    (cmdflagConfig no_flags default_config f' = Some (c, f') ∧
     ∀ p, p ≠ cfg_path default_config → cf_files f' !! p = cf_files (mkCfgFs ∅ true) !! p).
Proof.
  eexists _, _. split; [reflexivity|]. split; [reflexivity|].
  eapply (config_persists (mkGiven None None (Some 1080) None None None None None None)); [reflexivity|].
  repeat split; unfold ascii; repeat (constructor; [vm_compute; reflexivity|]); constructor.
Defined.
