(* ===== verification/NodeCmds.v ===== *)
(** * The node programs (toxpriv/cmd/main.go, tcpcli/cmd/main.go)

    Two small programs that connect to the relays of a fixed list and send a numbered message
    to a peer every three seconds, one over each of the packages [toxpriv] and
    [tcpcli].  Modelled: the key file of the first, its hexadecimal decoder, the list of relays and
    the loop that sends.  The calls into the C library are arguments.  The two
    programs use the same key file: they are shown to agree on it. *)

From S2P Require Import Prelude Nonce GoIO GoText Varint Base58 Sha2.
From S2P Require Import KeyRing TcpCli ToxPriv.
Local Open Scope Z_scope.

(** ** Hexadecimal text (toxpriv/cmd) *)

(** A character that is no digit counts as 0. *)
Definition nibble (c : byte) : Z :=
  let z := bz c in
  if (48 <=? z) && (z <=? 57) then z - 48
  else if (65 <=? z) && (z <=? 70) then z - 65 + 10
  else if (97 <=? z) && (z <=? 102) then z - 97 + 10
  else 0.

(** [s[i+1]] panics at the end of a text of odd length. *)
Fixpoint mustHexDecode {E} (s : bytes) : outcome E bytes :=
  match s with
  | [] => Ret []
  | [_] => Panic
  | a :: b :: k =>
      r ← mustHexDecode k;
      Ret (zb (Z.lor (Z.shiftl (nibble a) 4) (nibble b)) :: r)
  end.

(** ** The key file *)

(** The body of the loop over the lines: [pk] and [sk] so far *)
Definition key_line (ks : bytes * bytes) (line : bytes) : bytes * bytes :=
  if HasPrefix (str "pk=") line then (copy_into ks.1 (hex_DecodeString (drop 3 line)).1, ks.2)
  else if HasPrefix (str "sk=") line then (ks.1, copy_into ks.2 (hex_DecodeString (drop 3 line)).1)
  else ks.

(** [draw] is the pair [CryptoNewKeypair] makes; a file that cannot be created is ignored. *)
Definition loadOrGenKeys (path : bytes) (draw : bytes * bytes) (f : keyfs) : bytes * bytes * keyfs :=
  match kf_files f !! path with
  | Some text => (foldl key_line (make_bytes 32, make_bytes 32) (scan_lines text), f)
  | None =>
      let '(pk, sk) := draw in
      (pk, sk, if fs_writable f then mkKeyFs (<[path := key_text pk sk]> (kf_files f)) true else f)
  end.

(** ** The relays *)

Record bootstrapNode := mkNode { IPv4 : bytes; Port : Z; PublicKey : bytes }.

Definition bootstrapNodes : list bootstrapNode :=
  [mkNode (str "43.198.227.166") 3389 (str "AD13AB0D434BCE6C83FE2649237183964AE3341D0AFB3BE1694B18505E4E135E");
   mkNode (str "86.107.187.54") 33445 (str "2C0F90965134C7BEFAFE72B077A19221628D7045BB51C1165A2C75CDB2B32634")].

Section Relays.
Context `{ToxPrivLib} {T : Type}.
(** [add_tcp_relay_global] of the library *)
Context (add : IP_Port → bytes → T → Z * T).

(** A node that cannot be parsed is skipped; the key of one the library refuses is kept all
    the same.  [&pkb[0]] *)
Fixpoint add_relays {E} (ns : list bootstrapNode) (t : T) : outcome E (list bytes * T) :=
  match ns with
  | [] => Ret ([], t)
  | n :: ns' =>
      match MakeIPPort (IPv4 n) (Port n) with
      | Ret ipp =>
          pkb ← mustHexDecode (PublicKey n);
          _ ← index pkb 0;
          let '(_, t) := add ipp pkb t in
          '(ks, t) ← add_relays ns' t;
          Ret (pkb :: ks, t)
      | _ => add_relays ns' t
      end
  end.
End Relays.

(** ** The loop that sends *)

Definition interval : Z := 3 * 1000000000.

(** The loop variables, and the messages that were sent with the time of each *)
Record sender := mkSender { s_i : Z; s_btime : Z; s_log : list (Z * bytes) }.

Definition message (keyfile : bytes) (i : Z) : bytes := str "from " ++ keyfile ++ str " " ++ itoa i.

(** One turn with its clock readings, that of [time.Since(btime)] and that of [btime = time.Now()];
    [have_relay]: toxpriv/cmd skips the message without one, tcpcli/cmd always sends. *)
Definition send_turn (keyfile : bytes) (have_relay : bool) (t : Z * Z) (s : sender) : sender :=
  let i' := i64 (s_i s + 1) in
  if t.1 - s_btime s <? interval then mkSender i' (s_btime s) (s_log s)
  else if have_relay then mkSender i' t.2 (s_log s ++ [(t.2, message keyfile (s_i s))])
  else mkSender i' t.2 (s_log s).

(** The turns at the clock readings [nows]; [start] is the reading before the loop. *)
Definition send_loop (keyfile : bytes) (have_relay : bool) (start : Z) (nows : list (Z * Z)) : sender :=
  foldl (λ s now, send_turn keyfile have_relay now s) (mkSender 0 start []) nows.

(** ** Proofs: hexadecimal text *)

Lemma nibble_hex c z : hex_value c = Some z → nibble c = z.
Proof.
  intros Hz.
  pose proof (forall_bytes (λ b, match hex_value b with Some v => nibble b =? v | None => true end)
    ltac:(vm_compute; reflexivity) c) as Hb. cbn beta in Hb. rewrite Hz in Hb. by apply Z.eqb_eq.
Qed.

Lemma hex_value_range c z : hex_value c = Some z → 0 ≤ z < 16.
Proof.
  intros Hz.
  pose proof (forall_bytes (λ b, match hex_value b with Some v => (0 <=? v) && (v <? 16) | None => true end)
    ltac:(vm_compute; reflexivity) c) as Hb. cbn beta in Hb. rewrite Hz in Hb. zbool. lia.
Qed.

(** On hexadecimal text the decoder agrees with that of the standard library. *)
Lemma mustHexDecode_hex {E} s b : hexDecode s = Some b → @mustHexDecode E s = Ret b.
Proof.
  revert b. induction s as [s IH] using (induction_ltof1 _ (@length byte)). intros b Hd.
  destruct s as [|x [|y k]]; cbn [hexDecode] in Hd; [by injection Hd as <-|done|].
  destruct (hex_value x) as [hi|] eqn:Ex; [|done]. destruct (hex_value y) as [lo|] eqn:Ey; [|done].
  destruct (hexDecode k) as [r|] eqn:Ek; [|done]. cbn in Hd. injection Hd as <-.
  cbn [mustHexDecode]. rewrite (IH k) with (b := r) by (done || (unfold ltof; cbn; lia)). rewrite bind_ret.
  rewrite (nibble_hex x hi), (nibble_hex y lo) by done. apply hex_value_range in Ex, Ey.
  rewrite Z.lor_comm, lor_shiftl_add by lia. change (2 ^ 4) with 16. do 3 f_equal. lia.
Qed.

(** A character that is no hexadecimal digit is not noticed. *)
Example typo_decodes : @mustHexDecode unit (str "zz0G") = Ret [x00; x00].
Proof. reflexivity. Qed.

(** ** Proofs: the key file *)

Definition plain_short (l : bytes) : Prop := forallb plain l = true ∧ zlen l < MaxScanTokenSize.

Lemma plain_drop_cr l : forallb plain l = true → drop_cr l = l.
Proof.
  intros Hp. unfold drop_cr. destruct (list.last l) as [b|] eqn:E; [|done].
  rewrite bool_decide_false; [done|]. intros ->. apply last_Some in E as [l' ->].
  rewrite forallb_app in Hp. apply andb_true_iff in Hp as [_ Hp]. done.
Qed.

(** The lines of a text file come back as they were written. *)
Lemma scan_written ls :
  Forall plain_short ls → scan_lines (concat (map (λ l, l ++ [x0a]) ls)) = ls.
Proof.
  unfold scan_lines. induction ls as [|l ls IH]; intros Hf; [done|].
  apply list.Forall_cons in Hf as [[Hp Hz] Hf]. cbn [map concat]. rewrite <- app_assoc. cbn [app].
  rewrite split_lines_line by (by apply plain_line). cbn [app scan].
  rewrite (proj2 (Z.ltb_lt _ _) Hz), plain_drop_cr by done. by rewrite IH.
Qed.

Lemma key_lines_plain pk sk :
  length pk = 32%nat → length sk = 32%nat →
  Forall plain_short [str "pk=" ++ map to_upper (hexEncode pk); str "sk=" ++ map to_upper (hexEncode sk)].
Proof.
  intros Hp Hs.
  assert (∀ p l, forallb plain p = true → length p = 3%nat → length l = 32%nat →
    plain_short (p ++ map to_upper (hexEncode l))) as Hl.
  { intros p l H1 H2 H3. split; [by rewrite forallb_app, H1, upper_hex_plain|].
    unfold zlen, MaxScanTokenSize. rewrite length_app, length_hex. lia. }
  apply list.Forall_cons. split; [by apply Hl|]. apply list.Forall_cons. split; [by apply Hl|].
  apply list.Forall_nil. done.
Qed.

Lemma load_written pk sk :
  length pk = 32%nat → length sk = 32%nat →
  foldl key_line (make_bytes 32, make_bytes 32) (scan_lines (key_text pk sk)) = (pk, sk).
Proof.
  intros Hp Hs. set (lp := str "pk=" ++ map to_upper (hexEncode pk)).
  set (ls := str "sk=" ++ map to_upper (hexEncode sk)).
  replace (key_text pk sk) with (concat (map (λ l, l ++ [x0a]) [lp; ls]))
    by (unfold key_text, lp, ls; cbn [map concat]; by rewrite <- !app_assoc).
  rewrite scan_written by (by apply key_lines_plain). cbn [foldl].
  unfold key_line at 2. unfold lp at 1 2. rewrite HasPrefix_app, drop_app_exact by done. cbn [fst snd].
  rewrite hex_DecodeString_upper. cbn [fst]. rewrite copy_into_full by (by rewrite length_make_bytes).
  unfold key_line, ls.
  assert (HasPrefix (str "pk=") (str "sk=" ++ map to_upper (hexEncode sk)) = false) as -> by done.
  rewrite HasPrefix_app, drop_app_exact by done. cbn [fst snd].
  rewrite hex_DecodeString_upper. cbn [fst]. by rewrite copy_into_full by (by rewrite length_make_bytes).
Qed.

(** The two programs share their key file.  On a path that does not exist, either writes the
    pair it draws, and the same text; from then on both start with that pair, whatever they
    would draw, and leave the file alone. *)
Theorem keyfiles_shared path pk sk draw f :
  length pk = 32%nat → length sk = 32%nat → is_zero pk = false → is_zero sk = false →
  fs_writable f = true → kf_files f !! path = None →
  let f' := mkKeyFs (<[path := key_text pk sk]> (kf_files f)) true in
  let hex k := map to_upper (hexEncode k) in
  loadOrGenKeys path (pk, sk) f = (pk, sk, f') ∧
  keyfile_neworload path (pk, sk) f = (hex pk, hex sk, f') ∧
  loadOrGenKeys path draw f' = (pk, sk, f') ∧
  keyfile_neworload path draw f' = (hex pk, hex sk, f').
Proof.
  intros Hp Hs Zp Zs Hw Hn f' hex. split_and!.
  - unfold loadOrGenKeys. by rewrite Hn, Hw.
  - unfold keyfile_neworload, toxin_load_keys. rewrite Hn. cbn. unfold toxin_save_keys. by rewrite Hw.
  - unfold loadOrGenKeys. cbn [kf_files f']. by rewrite lookup_insert_eq, load_written.
  - unfold keyfile_neworload, toxin_load_keys. cbn [kf_files f']. rewrite lookup_insert_eq.
    change (make_bytes KEY_SIZE) with (make_bytes 32).
    rewrite load_key_text by done. cbn [got_pk got_sk l_pk l_sk negb orb]. by rewrite Zp, Zs.
Qed.

Lemma keyfiles_shared_witness :
  let pk := replicate 32 x01 in let sk := replicate 32 x02 in
  let f := mkKeyFs ∅ true in let path := str "node.key" in
  let f' := mkKeyFs (<[path := key_text pk sk]> (kf_files f)) true in
  let hex k := map to_upper (hexEncode k) in
  loadOrGenKeys path (pk, sk) f = (pk, sk, f') ∧
  keyfile_neworload path (pk, sk) f = (hex pk, hex sk, f') ∧
  loadOrGenKeys path ([], []) f' = (pk, sk, f') ∧
  keyfile_neworload path ([], []) f' = (hex pk, hex sk, f').
Proof.
  intros pk sk f path. apply (keyfiles_shared path pk sk ([], []) f); try reflexivity; vm_compute; reflexivity.
Defined.

(** A key file without keys is taken for one: the program runs with a key of zeros.  The other
    program replaces such a file. *)
Lemma empty_key_file path draw f :
  kf_files f !! path = Some [] →
  loadOrGenKeys path draw f = (make_bytes 32, make_bytes 32, f) ∧
  (toxin_load_keys path (make_bytes 32) (make_bytes 32) f).1.1 = -1.
Proof. intros Hf. unfold loadOrGenKeys, toxin_load_keys. by rewrite Hf. Qed.

(** ** Proofs: the loop *)

#[local] Instance message_inj keyfile : Inj (=) (=) (message keyfile).
Proof.
  intros i j E. unfold message in E. rewrite !app_assoc in E. apply app_inv_head in E.
  by apply itoa_inj.
Qed.

Definition sender_inv (keyfile : bytes) (start : Z) (n : nat) (s : sender) : Prop :=
  s_i s = Z.of_nat n ∧
  s_btime s = default start (fst <$> list.last (s_log s)) ∧
  (∀ k a b, s_log s !! k = Some a → s_log s !! S k = Some b → a.1 + interval ≤ b.1) ∧
  ∃ js, map snd (s_log s) = map (message keyfile) js ∧ NoDup js ∧ Forall (λ j, 0 ≤ j < Z.of_nat n) js.

Lemma send_turn_inv keyfile start n now s :
  Z.of_nat n < 2 ^ 63 - 1 → now.1 ≤ now.2 → sender_inv keyfile start n s →
  sender_inv keyfile start (S n) (send_turn keyfile true now s) ∧
  now.1 - s_btime (send_turn keyfile true now s) < interval.
Proof.
  intros Hn Ht (Hi & Hb & Hg & js & Hm & Hd & Hj). unfold send_turn.
  assert (i64 (s_i s + 1) = Z.of_nat (S n)) as Hi' by (rewrite Hi, i64_small; lia).
  assert (Forall (λ j, 0 ≤ j < Z.of_nat (S n)) js) as Hj'
    by (eapply list.Forall_impl; [exact Hj|]; intros j ?; cbn beta in *; lia).
  destruct (now.1 - s_btime s <? interval) eqn:Et; zbool.
  - split; [|done]. split_and!; [done..|]. by exists js.
  - split; [|cbn [s_btime]; unfold interval; lia].
    split_and!; [done| |..].
    + cbn [s_btime s_log]. by rewrite last_snoc.
    + intros k a b Ha Hb'. cbn [s_log] in Ha, Hb'. apply lookup_app_Some in Hb' as [Hb'|[Hl Hb']].
      * apply (Hg k); [|done]. rewrite lookup_app_l in Ha; [done|]. apply lookup_lt_Some in Hb'. lia.
      * apply list_lookup_singleton_Some in Hb' as [Hk <-].
        rewrite lookup_app_l in Ha by lia. cbn [fst].
        assert (list.last (s_log s) = Some a) as Hlast
          by (rewrite last_lookup; replace (Nat.pred (length (s_log s))) with k by lia; done).
        rewrite Hlast in Hb. cbn in Hb. lia.
    + cbn [s_log]. exists (js ++ [s_i s]). rewrite !map_app, Hm. split; [done|].
      split.
      * apply list.NoDup_app. split_and!; [done| |apply NoDup_singleton].
        intros j Hin Hc. apply list_elem_of_singleton in Hc as ->. rewrite list.Forall_forall in Hj.
        specialize (Hj _ Hin). cbn beta in Hj. lia.
      * apply Forall_app. split; [done|]. apply list.Forall_cons. split; [lia|by apply list.Forall_nil].
Qed.

Lemma send_loop_inv keyfile start nows :
  zlen nows < 2 ^ 63 → Forall (λ t, t.1 ≤ t.2) nows →
  sender_inv keyfile start (length nows) (send_loop keyfile true start nows).
Proof.
  unfold send_loop. induction nows as [|now nows IH] using rev_ind; intros Hl Hf.
  - split_and!; [done|done|by intros [|k] a b|].
    exists []. split_and!; [done|apply NoDup_nil_2|by apply list.Forall_nil].
  - rewrite zlen_app, zlen_cons, zlen_nil in Hl. rewrite foldl_app, length_app. cbn [foldl length].
    rewrite Nat.add_1_r. apply Forall_app in Hf as [Hf Hn]. apply list.Forall_cons in Hn as [Hn _].
    apply send_turn_inv; [unfold zlen in Hl; lia|done|]. apply IH; [lia|done].
Qed.

(** Messages are paced.  At whatever times the loop turns, as long as it has a relay: two
    messages are at least three seconds apart, no two have the same text, and after every turn
    the last message, or the start when there is none, is less than three seconds
    ago.  (In a turn the second reading of the clock is not before the first; the counter is 64 bits wide.) *)
Theorem sender_paced keyfile start nows now :
  zlen nows < 2 ^ 63 - 1 → Forall (λ t, t.1 ≤ t.2) (nows ++ [now]) →
  let s := send_loop keyfile true start (nows ++ [now]) in
  (∀ k a b, s_log s !! k = Some a → s_log s !! S k = Some b → a.1 + interval ≤ b.1) ∧
  NoDup (map snd (s_log s)) ∧
  now.1 - default start (fst <$> list.last (s_log s)) < interval.
Proof.
  intros Hl Hf s. assert (sender_inv keyfile start (length (nows ++ [now])) s) as (_ & Hb & Hg & js & Hm & Hd & _)
    by (apply send_loop_inv; [rewrite zlen_app, zlen_cons, zlen_nil; lia|done]).
  split; [exact Hg|]. split.
  - rewrite Hm. by apply (NoDup_fmap_2 (message keyfile)).
  - rewrite <- Hb. unfold s, send_loop. rewrite foldl_app. cbn [foldl].
    apply Forall_app in Hf as [Hf Hn]. apply list.Forall_cons in Hn as [Hn _].
    refine (proj2 (send_turn_inv keyfile start (length nows) now _ _ Hn _)); [unfold zlen in Hl; lia|].
    apply send_loop_inv; [lia|done].
Qed.

Definition ticks : list (Z * Z) :=
  [(1000000000, 1000000001); (3000000000, 3000000007); (4000000000, 4000000001); (7500000000, 7500000003)].

Lemma sender_paced_witness :
  let s := send_loop (str "node.key") true 0 (ticks ++ [(8000000000, 8000000001)]) in
  length (s_log s) = 2%nat ∧
  ((∀ k a b, s_log s !! k = Some a → s_log s !! S k = Some b → a.1 + interval ≤ b.1) ∧
   NoDup (map snd (s_log s)) ∧
   8000000000 - default 0 (fst <$> list.last (s_log s)) < interval).
Proof.
  split; [vm_compute; reflexivity|].
  apply (sender_paced (str "node.key") 0 ticks (8000000000, 8000000001)); [vm_compute; reflexivity|].
  repeat (apply list.Forall_cons; split; [cbn; lia|]). by apply list.Forall_nil.
Defined.

(** The messages are numbered by turns, not by messages. *)
Example message_numbers :
  map snd (s_log (send_loop (str "k") true 0 [(3000000000, 3000000000); (3100000000, 3100000000);
                                               (6000000000, 6000000000)])) =
    [str "from k 0"; str "from k 2"].
Proof. vm_compute. reflexivity. Qed.
