(* ===== verification/NostrChat.v ===== *)
(** * The Nostr chat (nostr_chat/nostr_chat.go)

    A program that sends the lines of its input as ephemeral events to a Nostr relay and
    prints the events it receives.  Modelled: the key file, the start, the subscription, the events made
    of typed lines, and the filter on received ones.  The Nostr library and the relay are
    the class [NostrLib]; the clock, new keys and the outcome of publishing are arguments. *)

From S2P Require Import Prelude Nonce GoIO GoText Varint Base58 Sha2.
From S2P Require Import KeyRing TcpCli ToxPriv NodeCmds.
Local Open Scope Z_scope.

(** ** Events and the library *)

(** A tag is a list of texts, its name first; an event before it is signed has no key. *)
Record Event := mkEvent {
  CreatedAt : Z; Kind : Z; Tags : list (list bytes); Content : bytes; PubKey : bytes; Sig : bytes }.

Record Filter := mkFilter { Kinds : list Z; FTags : gmap bytes (list bytes) }.

(** Secret and public keys are arrays of 32 bytes, with [Hex] as lower-case text. *)
Class NostrLib := {
  SecretKeyFromHex : bytes → outcome bytes bytes;
  Public : bytes → bytes;
  PubKeyFromHex_err : bytes → option bytes;
  nostr_Kind : Z → Z;                               (* the conversion of an int *)
  Sign : bytes → Event → bytes + Event;
  FindWithValue : list (list bytes) → bytes → bytes → option (list bytes);
  (** whether the relay sends an event to a subscription *)
  relay_matches : Filter → Event → bool
}.

Definition has_tag (tags : list (list bytes)) (k v : bytes) : Prop :=
  ∃ t, t ∈ tags ∧ t !! 0%nat = Some k ∧ t !! 1%nat = Some v.

(** Documented: the text of a key is parsed to the key in either case; signing sets the key and the
    signature only; a relay sends the events whose kind and tags the filter lists. *)
Class NostrLaws (L : NostrLib) : Prop := {
  from_upper sk : length sk = 32%nat → SecretKeyFromHex (map to_upper (hexEncode sk)) = Ret sk;
  length_Public sk : length sk = 32%nat → length (Public sk) = 32%nat;
  Sign_fields sk e e' : Sign sk e = inr e' →
    PubKey e' = Public sk ∧ Kind e' = Kind e ∧ Tags e' = Tags e ∧ Content e' = Content e;
  FindWithValue_spec tags k v : is_Some (FindWithValue tags k v) ↔ has_tag tags k v;
  relay_matches_spec f e :
    relay_matches f e = true ↔
      Kind e ∈ Kinds f ∧ ∀ k vs, FTags f !! k = Some vs → ∃ v, v ∈ vs ∧ has_tag (Tags e) k v
}.

Record appState := mkApp {
  sk : bytes; pk : bytes; kind : Z; peerPK : bytes; havePeer : bool; appTag : bytes;
  relayURL : bytes; keyFile : bytes }.

(** ** The key file *)

Inductive load_err : Type :=
| LoadIO (e : option io_err)          (* [None]: the file does not exist *)
| LoadInvalid
| LoadHex (e : bytes).

(** The loop over the lines *)
Fixpoint sec_line (ls : list bytes) : bytes :=
  match ls with
  | [] => []
  | line :: ls' =>
      if HasPrefix (str "sec=") line && bool_decide (length line = 4 + 64)%nat then drop 4 line
      else sec_line ls'
  end.

Section Chat.
Context `{NostrLib}.

Definition loadKey (path : bytes) (f : fs) : outcome load_err (bytes * bytes) :=
  match open_err f with
  | Some e => Fail (LoadIO (Some e))
  | None =>
      match files f !! path with
      | None => Fail (LoadIO None)
      | Some text =>
          let secHex := sec_line (scan_lines text) in
          if bool_decide (secHex = []) then Fail LoadInvalid
          else k ← map_err LoadHex (SecretKeyFromHex secHex); Ret (k, Public k)
      end
  end.

Definition saved_text (k : bytes) : bytes :=
  str "pub=" ++ map to_upper (hexEncode (Public k)) ++ [x0a] ++
  str "sec=" ++ map to_upper (hexEncode k) ++ [x0a].

(** The error of [Fprintf] is not looked at: the file is then empty. *)
Definition saveKey (path k : bytes) (f : fs) : outcome io_err unit * fs :=
  match create_err f with
  | Some e => (Fail e, f)
  | None =>
      let text := match write_err f with Some _ => [] | None => saved_text k end in
      (Ret (), Fs (<[path := text]> (files f)) (open_err f) None (write_err f))
  end.

Inductive chat_exit : Type :=
| ExitSave (e : io_err)               (* "Failed to save key" *)
| ExitPeer (e : bytes).               (* "Invalid peer pubkey" *)

(** [draw] is the key [nostr.Generate] makes. *)
Definition start_key (path draw : bytes) (f : fs) : outcome chat_exit (bytes * bytes) * fs :=
  match loadKey path f with
  | Ret ks => (Ret ks, f)
  | Fail _ =>
      let '(r, f') := saveKey path draw f in
      (_ ← map_err ExitSave r; Ret (draw, Public draw), f')
  | Panic => (Panic, f)
  end.

(** [main] up to the connection; the values of the flags are arguments. *)
Definition start (relayURL keyFile peerHex appTag : bytes) (k : Z) (draw : bytes) (f : fs)
    : outcome chat_exit appState * fs :=
  let peerHex := map to_lower peerHex in
  let havePeer := bool_decide (peerHex ≠ []) in
  let '(r, f') := start_key keyFile draw f in
  ('(s, p) ← r;
   let st := mkApp s p (nostr_Kind k) peerHex havePeer appTag relayURL keyFile in
   if havePeer then
     match PubKeyFromHex_err peerHex with Some e => Fail (ExitPeer e) | None => Ret st end
   else Ret st, f').

(** ** Subscription and received events *)

Definition subscription (st : appState) : Filter :=
  mkFilter [kind st] (if havePeer st then {[str "p" := [hexEncode (pk st)]]} else ∅).

(** What is printed: eight letters of the key of the sender, and the text *)
Definition shown (from content : bytes) : bytes * bytes := (take 8 (map to_upper (hexEncode from)), content).

Definition receive (st : appState) (e : Event) : option (bytes * bytes) :=
  if bool_decide (PubKey e = pk st) then None
  else if bool_decide (appTag st ≠ []) && bool_decide (FindWithValue (Tags e) (str "app") (appTag st) = None)
  then None
  else Some (shown (PubKey e) (Content e)).

(** ** Typed lines *)

Definition typed_event (st : appState) (now : Z) (line : bytes) : Event :=
  let tags := if havePeer st then [[str "p"; peerPK st]] else [] in
  let tags := if bool_decide (appTag st ≠ []) then tags ++ [[str "app"; appTag st]] else tags in
  mkEvent now (kind st) tags line [] [].

Definition trim_line (text : bytes) : bytes := TrimRight (λ b, bool_decide (b = x0d ∨ b = x0a)) text.

(** A line of the input with the time at which it was read and whether publishing succeeds *)
Record typed := mkTyped { y_now : Z; y_published : bool; y_text : bytes }.

(** The events that were published, and whether the program was asked to quit *)
Fixpoint input_loop (st : appState) (ls : list typed) : list Event * bool :=
  match ls with
  | [] => ([], false)
  | l :: ls' =>
      let line := trim_line (y_text l) in
      if bool_decide (line = []) then input_loop st ls'
      else if bool_decide (line = str "/quit") then ([], true)
      else
        match Sign (sk st) (typed_event st (y_now l) line) with
        | inl _ => input_loop st ls'
        | inr e =>
            let '(es, q) := input_loop st ls' in
            (if y_published l then e :: es else es, q)
        end
  end.

End Chat.

(** ** Proofs *)

(** What a user means to say: the lines before [/quit] that are not empty *)
Fixpoint sayings (lines : list bytes) : list bytes :=
  match lines with
  | [] => []
  | l :: ls =>
      if bool_decide (l = []) then sayings ls
      else if bool_decide (l = str "/quit") then [] else l :: sayings ls
  end.

Section Facts.
Context {L : NostrLib} {LL : NostrLaws L}.

Lemma load_saved path k m :
  length k = 32%nat →
  loadKey path (Fs (<[path := saved_text k]> m) None None None) = Ret (k, Public k).
Proof.
  intros Hk. unfold loadKey. cbn [open_err files]. rewrite lookup_insert_eq.
  set (lp := str "pub=" ++ map to_upper (hexEncode (Public k))).
  set (ls := str "sec=" ++ map to_upper (hexEncode k)).
  replace (saved_text k) with (concat (map (λ l, l ++ [x0a]) [lp; ls]))
    by (unfold saved_text, lp, ls; cbn [map concat]; by rewrite <- !app_assoc).
  assert (∀ p l, forallb plain p = true → length p = 4%nat → length l = 32%nat →
    plain_short (p ++ map to_upper (hexEncode l))) as Hl.
  { intros p l H1 H2 H3. split; [by rewrite forallb_app, H1, upper_hex_plain|].
    unfold zlen, MaxScanTokenSize. rewrite length_app, length_hex. lia. }
  rewrite scan_written; cycle 1.
  { apply list.Forall_cons. split; [apply Hl; try done; by apply length_Public|].
    apply list.Forall_cons. split; [by apply Hl|]. by apply list.Forall_nil. }
  assert (sec_line [lp; ls] = map to_upper (hexEncode k)) as ->.
  { cbn [sec_line]. unfold lp at 1.
    assert (HasPrefix (str "sec=") (str "pub=" ++ map to_upper (hexEncode (Public k))) = false) as -> by done.
    cbn [andb]. unfold ls. rewrite HasPrefix_app, drop_app_exact by done.
    by rewrite bool_decide_true by (rewrite length_app, length_hex, Hk; done). }
  rewrite bool_decide_false by (intros E%(f_equal length); rewrite length_hex, Hk in E; done).
  by rewrite from_upper.
Qed.

(** The identity is kept.  Whatever the first start did, loading the key file or making one, a later
    start on the same file has the same keys and does not touch the file. *)
Theorem chat_key_kept path draw draw' f k p f' :
  fs_ok f → length draw = 32%nat →
  start_key path draw f = (Ret (k, p), f') →
  p = Public k ∧ start_key path draw' f' = (Ret (k, p), f').
Proof.
  intros (Ho & Hc & Hw) Hd Hs. unfold start_key in Hs. destruct (loadKey path f) as [[k0 p0]|e|] eqn:El.
  - injection Hs as <- <- <-. split; [|unfold start_key; by rewrite El].
    unfold loadKey in El. rewrite Ho in El. destruct (files f !! path) as [t|]; [|done]. cbv zeta in El.
    destruct (bool_decide _); [done|]. destruct (SecretKeyFromHex _); cbn in El; [|done..].
    by injection El as <- <-.
  - unfold saveKey in Hs. rewrite Hc, Hw, Ho in Hs. cbn [map_err mbind outcome_bind] in Hs.
    injection Hs as <- <- <-. split; [done|].
    unfold start_key. by rewrite load_saved.
  - done.
Qed.

(** Any error of loading, also that of a file that is there, replaces it by a new key. *)
Lemma bad_key_replaced path draw f e :
  create_err f = None → write_err f = None → loadKey path f = Fail e →
  files (start_key path draw f).2 !! path = Some (saved_text draw).
Proof.
  intros Hc Hw Hl. unfold start_key. rewrite Hl. unfold saveKey. rewrite Hc, Hw. cbn. by rewrite lookup_insert_eq.
Qed.

(** When the text cannot be written the start succeeds and the next start has another key. *)
Lemma unwritten_key_lost path draw draw' f e :
  open_err f = None → create_err f = None → write_err f = Some e → files f !! path = None →
  let '(r, f') := start_key path draw f in
  r = Ret (draw, Public draw) ∧ (start_key path draw' f').1 = Ret (draw', Public draw').
Proof.
  intros Ho Hc Hw Hf. unfold start_key at 1, loadKey. rewrite Ho, Hf. unfold saveKey. rewrite Hc, Hw. cbn.
  split; [done|]. unfold start_key, loadKey. cbn [open_err files]. rewrite Ho, lookup_insert_eq. cbn.
  unfold saveKey. by cbn.
Qed.

Lemma typed_tags st now line :
  (havePeer st = true → has_tag (Tags (typed_event st now line)) (str "p") (peerPK st)) ∧
  (appTag st ≠ [] → has_tag (Tags (typed_event st now line)) (str "app") (appTag st)).
Proof.
  unfold typed_event. cbn [Tags]. split.
  - intros ->. exists [str "p"; peerPK st]. split_and!; [|done..].
    case_bool_decide; rewrite ?elem_of_app; [left|]; by apply list_elem_of_singleton.
  - intros Ha. rewrite bool_decide_true by done. exists [str "app"; appTag st]. split_and!; [|done..].
    rewrite elem_of_app. right. by apply list_elem_of_singleton.
Qed.

(** One event of [a], signed, is shown to [b] and not to [a]. *)
Lemma event_arrives a b now line e :
  pk a = Public (sk a) → pk a ≠ pk b → kind a = kind b → appTag a = appTag b →
  (havePeer b = true → havePeer a = true ∧ peerPK a = hexEncode (pk b)) →
  Sign (sk a) (typed_event a now line) = inr e →
  Content e = line ∧ relay_matches (subscription b) e = true ∧ receive b e = Some (shown (pk a) line) ∧
  receive a e = None.
Proof.
  intros Hpk Hne Hk Ha Hp (S1 & S2 & S3 & S4)%Sign_fields. cbn [typed_event Kind Content] in S2, S4.
  destruct (typed_tags a now line) as [Tp Ta]. rewrite <- S3 in Tp, Ta. rewrite <- Hpk in S1.
  split_and!; [done| |..].
  - apply relay_matches_spec. unfold subscription. cbn [Kinds FTags]. split.
    + apply list_elem_of_singleton. congruence.
    + intros k vs Hf. destruct (havePeer b) eqn:Eb; [|by rewrite lookup_empty in Hf].
      destruct (Hp eq_refl) as [Hpa Heq]. apply lookup_singleton_Some in Hf as [<- <-].
      exists (peerPK a). split; [rewrite Heq; by apply list_elem_of_singleton|by apply Tp].
  - unfold receive. rewrite S1, S4. rewrite bool_decide_false by done.
    assert (bool_decide (appTag b ≠ []) && bool_decide (FindWithValue (Tags e) (str "app") (appTag b) = None)
            = false) as ->; [|done].
    apply andb_false_iff. destruct (decide (appTag b = [])) as [E|E].
    + left. apply bool_decide_eq_false. intros Hc. by apply Hc.
    + right. apply bool_decide_eq_false. rewrite <- Ha in E |- *.
      destruct (proj2 (FindWithValue_spec (Tags e) (str "app") (appTag a)) (Ta E)) as [t Ht]. congruence.
  - unfold receive. rewrite S1. by rewrite bool_decide_true.
Qed.

(** C23: What one says the other sees.  Let [a] write to [b]: same kind and name space, and, when [b] only
    takes directed messages, with the key of [b] as its peer.  When every line can be signed and
    published, the published events carry exactly the lines typed before [/quit], without
    the empty ones and in order; the relay sends each of them to [b], who prints it under the key
    of [a]; and [a] prints none of them. *)
Theorem chat_delivers a b ls :
  pk a = Public (sk a) → pk a ≠ pk b → kind a = kind b → appTag a = appTag b →
  (havePeer b = true → havePeer a = true ∧ peerPK a = hexEncode (pk b)) →
  (∀ e, ∃ e', Sign (sk a) e = inr e') → Forall (λ l, y_published l = true) ls →
  let es := (input_loop a ls).1 in
  let said := sayings (map (trim_line ∘ y_text) ls) in
  map Content es = said ∧
  Forall (λ e, relay_matches (subscription b) e = true ∧ receive a e = None) es ∧
  map (receive b) es = map (λ t, Some (shown (pk a) t)) said.
Proof.
  intros Hpk Hne Hk Ha Hp Hsign Hpub.
  induction Hpub as [|l ls Hl _ IH]; [by split_and!|].
  cbn [input_loop map sayings]. unfold compose at 1 3. cbv zeta in IH |- *.
  destruct (decide (trim_line (y_text l) = [])) as [E|E]; [by rewrite !(bool_decide_true (trim_line (y_text l) = []))|].
  rewrite !(bool_decide_false (trim_line (y_text l) = [])) by done.
  destruct (decide (trim_line (y_text l) = str "/quit")) as [Q|Q].
  { rewrite !(bool_decide_true (trim_line (y_text l) = str "/quit")) by done. by split_and!. }
  rewrite !(bool_decide_false (trim_line (y_text l) = str "/quit")) by done.
  destruct (Hsign (typed_event a (y_now l) (trim_line (y_text l)))) as [e Es]. rewrite Es.
  destruct (event_arrives a b (y_now l) (trim_line (y_text l)) e Hpk Hne Hk Ha Hp Es) as (C1 & C2 & C3 & C4).
  destruct (input_loop a ls) as [es q]. cbn [fst] in IH |- *. rewrite Hl. destruct IH as (I1 & I2 & I3).
  cbn [map fst]. rewrite C1, C3, I1, I3. split_and!; [done| |done]. by apply list.Forall_cons.
Qed.

(** The peer given on the command line is not checked on what arrives: events of anybody
    else are printed as well. *)
Lemma stranger_shown st e :
  PubKey e ≠ pk st → appTag st = [] → receive st e = Some (shown (PubKey e) (Content e)).
Proof.
  intros Hn Ha. unfold receive. rewrite bool_decide_false by done. rewrite Ha.
  by rewrite (bool_decide_false ([] ≠ [])) by (intros Hc; by apply Hc).
Qed.

End Facts.

(** ** Evaluation *)

Module ToyNostr.

Definition tag_is (k v : bytes) (t : list bytes) : Prop := t !! 0%nat = Some k ∧ t !! 1%nat = Some v.

Definition matches (f : Filter) (e : Event) : Prop :=
  Kind e ∈ Kinds f ∧ map_Forall (λ k vs, Exists (λ v, Exists (tag_is k v) (Tags e)) vs) (FTags f).

#[export] Instance tag_is_dec k v t : Decision (tag_is k v t).
Proof. unfold tag_is. apply _. Defined.
#[export] Instance matches_dec f e : Decision (matches f e).
Proof. unfold matches. apply _. Defined.

(** A public key is the reversed secret key; every event can be signed. *)
#[export] Instance toy_nostr : NostrLib := {|
  SecretKeyFromHex s := match hexDecode s with Some k => Ret k | None => Fail (str "hex") end;
  Public k := reverse k;
  PubKeyFromHex_err s := if bool_decide (length s = 64)%nat then None else Some (str "length");
  nostr_Kind k := u16 k;
  Sign k e := inr (mkEvent (CreatedAt e) (Kind e) (Tags e) (Content e) (reverse k) [x01]);
  FindWithValue tags k v := snd <$> list_find (tag_is k v) tags;
  relay_matches f e := bool_decide (matches f e) |}.

#[export] Instance toy_nostr_laws : NostrLaws toy_nostr.
Proof.
  split.
  - intros k _. cbn [SecretKeyFromHex toy_nostr]. by rewrite hexDecode_upper.
  - intros k Hk. cbn [Public toy_nostr]. by rewrite length_reverse.
  - intros k e e' [= <-]. done.
  - intros tags k v. cbn [FindWithValue toy_nostr]. rewrite fmap_is_Some. unfold has_tag. split.
    + intros [[i t] Ht]. apply list_find_Some in Ht as (Ht & Hp & _). exists t. split; [|exact Hp].
      by apply list_elem_of_lookup_2 in Ht.
    + intros (t & Ht & Hp). apply list_elem_of_lookup_1 in Ht as [i Hi].
      by apply (list_find_elem_of _ _ t); [apply list_elem_of_lookup_2 in Hi|].
  - intros f e. cbn [relay_matches toy_nostr]. rewrite bool_decide_eq_true. unfold matches, map_Forall, has_tag.
    assert (∀ k vs, Exists (λ v, Exists (tag_is k v) (Tags e)) vs ↔
      ∃ v, v ∈ vs ∧ ∃ t, t ∈ Tags e ∧ t !! 0%nat = Some k ∧ t !! 1%nat = Some v) as Hx.
    { intros k vs. rewrite list.Exists_exists. apply exist_proper. intros v.
      rewrite list.Exists_exists. done. }
    split; intros [Hk Hf]; split; try done; intros k vs Hl; apply Hx, (Hf k vs Hl).
Qed.

Definition alice : appState :=
  mkApp (replicate 32 x01) (replicate 32 x01) 22334 (hexEncode (replicate 32 x02)) true (str "room") [] [].
Definition bob : appState :=
  mkApp (replicate 32 x02) (replicate 32 x02) 22334 (hexEncode (replicate 32 x01)) true (str "room") [] [].

Definition lines : list typed :=
  [mkTyped 1 true (str "hello"); mkTyped 2 true []; mkTyped 3 true (str "bye" ++ [x0d]);
   mkTyped 4 true (str "/quit"); mkTyped 5 true (str "late")].

End ToyNostr.

Import ToyNostr.

Lemma chat_key_kept_witness :
  ∃ k p f', start_key (str "nostr.key") (replicate 32 x07) (Fs ∅ None None None) = (Ret (k, p), f') ∧
    (p = Public k ∧ start_key (str "nostr.key") (replicate 32 x09) f' = (Ret (k, p), f')).
Proof.
  eexists _, _, _. split; [reflexivity|].
  apply (chat_key_kept (str "nostr.key") (replicate 32 x07) (replicate 32 x09) (Fs ∅ None None None));
    [by repeat split|reflexivity|reflexivity].
Defined.

Lemma chat_delivers_witness :
  sayings (map (trim_line ∘ y_text) lines) = [str "hello"; str "bye"] ∧
  (let es := (input_loop alice lines).1 in
   let said := sayings (map (trim_line ∘ y_text) lines) in
   map Content es = said ∧
   Forall (λ e, relay_matches (subscription bob) e = true ∧ receive alice e = None) es ∧
   map (receive bob) es = map (λ t, Some (shown (pk alice) t)) said).
Proof.
  split; [vm_compute; reflexivity|].
  apply (chat_delivers alice bob lines); try reflexivity; try done.
  - intros e. by eexists.
  - repeat constructor.
Defined.
