(* ===== verification/BotCmd.v ===== *)
(** * The command bot (botut/runcmd.go, tbcmd/tbcmd.go)

    A bot that runs the command in a friend's message that starts with [!cmd ] and sends the output
    back.  The splitter of words, the process and the shortening of the
    output are other packages: the class [ShellLib]. *)

From S2P Require Import Prelude GoIO GoText.
Local Open Scope Z_scope.

Definition cmdpfx : bytes := str "!cmd".
(** [strings.Fields("top iotop")] *)
Definition cmdflts : list bytes := [str "top"; str "iotop"].
Definition maxrsplen : Z := 999.

Class ShellLib := {
  (** [shlex.Split]: the words, or the text of the error *)
  shlex_Split : bytes → outcome bytes (list bytes);
  (** [gopp.RunCmdCout]: the output, or the text of the error *)
  RunCmdCout : bytes → list bytes → outcome bytes bytes;
  SubStr : bytes → Z → bytes
}.

(** A word without quotes, escapes, comments or white space *)
Definition word_byte (b : byte) : bool :=
  let z := bz b in
  ((48 <=? z) && (z <=? 57)) || ((65 <=? z) && (z <=? 90)) || ((97 <=? z) && (z <=? 122)) ||
  bool_decide (b ∈ [x21; x2d; x2e; x2f; x5f]).

Definition plain_word (w : bytes) : Prop := w ≠ [] ∧ forallb word_byte w = true.

(** Documented: words are separated by blanks; blanks at the end make no word. *)
Class ShellLaws (L : ShellLib) : Prop := {
  split_words ws n : Forall plain_word ws → shlex_Split (Join [x20] ws ++ replicate n x20) = Ret ws
}.

Section Bot.
Context `{ShellLib}.

(** The message matches, the reply, and the commands that were run.  [args[1]] panics when there is
    only the prefix. *)
Definition Runcmd {E} (message : bytes) : outcome E (bool * bytes * list (bytes * list bytes)) :=
  let ismat := HasPrefix (cmdpfx ++ str " ") message in
  let split := shlex_Split message in
  if negb ismat then Ret (false, [], [])
  else
    match split with
    | Panic => Panic
    | Fail err => Ret (true, SubStr err maxrsplen, [])
    | Ret args =>
        if bool_decide (0 < length args)%nat && negb (bool_decide (head args = Some cmdpfx)) then Ret (true, [], [])
        else
          match drop 1 args with
          | [] => Panic
          | a1 :: rest =>
              if bool_decide (a1 ∈ cmdflts)
              then Ret (true, SubStr (str "cannot use ncurses cmd that not return") maxrsplen, [])
              else
                match RunCmdCout a1 rest with
                | Ret res => Ret (true, SubStr res maxrsplen, [(a1, rest)])
                | Fail err => Ret (true, SubStr err maxrsplen, [(a1, rest)])
                | Panic => Panic
                end
          end
    end.

(** The messages that are sent, and the commands that were run *)
Definition OnFriendMessage {E} (friendNumber : Z) (message : bytes)
    : outcome E (list (Z * bytes) * list (bytes * list bytes)) :=
  '(ismat, remsg, ran) ← Runcmd message;
  Ret (if ismat : bool then [(friendNumber, remsg)] else [], ran).

End Bot.

(** ** Proofs *)

Section Facts.
Context {L : ShellLib}.

(** Nothing runs without the prefix, and at most one command per message, which is none of the two that do
    not return, under these names. *)
Lemma only_commands_run {E} fn message sent ran :
  @OnFriendMessage L E fn message = Ret (sent, ran) → ran ≠ [] →
  HasPrefix (cmdpfx ++ str " ") message = true ∧
  ∃ c args, ran = [(c, args)] ∧ (c ∉ cmdflts) ∧ shlex_Split message = Ret (cmdpfx :: c :: args) ∧
    (∃ text, sent = [(fn, SubStr text maxrsplen)]).
Proof.
  unfold OnFriendMessage, Runcmd. intros Hr Hn.
  destruct (HasPrefix _ message) eqn:Hp; cbn [negb mbind outcome_bind] in Hr; [|by injection Hr as <- <-].
  split; [done|]. destruct (shlex_Split message) as [args|err|] eqn:Es; cbn [mbind outcome_bind] in Hr; [|by injection Hr as <- <-|done].
  destruct (bool_decide (0 < length args)%nat && negb (bool_decide (head args = Some cmdpfx))) eqn:Eh;
    cbn [mbind outcome_bind] in Hr; [by injection Hr as <- <-|].
  destruct args as [|a0 [|a1 rest]]; cbn [drop] in Hr; [done|done|].
  apply andb_false_iff in Eh as [Eh|Eh]; [apply bool_decide_eq_false in Eh; cbn in Eh; lia|].
  apply negb_false_iff, bool_decide_eq_true in Eh. cbn in Eh. injection Eh as ->.
  destruct (decide (a1 ∈ cmdflts)) as [Hin|Hin].
  { rewrite bool_decide_true in Hr by done. by injection Hr as <- <-. }
  rewrite bool_decide_false in Hr by done.
  destruct (RunCmdCout a1 rest) as [res|err|]; cbn [mbind outcome_bind] in Hr; [| |done]; injection Hr as <- <-;
    exists a1, rest; (split_and!; [done..|]; by eexists).
Qed.

Context {LL : ShellLaws L}.

(** A message of plain words runs the command they spell and sends its output back; the prefix
    alone takes the bot down. *)
Lemma plain_command {E} fn c args :
  Forall plain_word (c :: args) → c ∉ cmdflts →
  @OnFriendMessage L E fn (Join [x20] (cmdpfx :: c :: args)) =
    match RunCmdCout c args with
    | Ret res | Fail res => Ret ([(fn, SubStr res maxrsplen)], [(c, args)])
    | Panic => Panic
    end.
Proof.
  intros Hf Hc. unfold OnFriendMessage, Runcmd.
  assert (HasPrefix (cmdpfx ++ str " ") (Join [x20] (cmdpfx :: c :: args)) = true) as ->.
  { change (Join [x20] (cmdpfx :: c :: args)) with (cmdpfx ++ [x20] ++ Join [x20] (c :: args)).
    rewrite app_assoc. apply HasPrefix_app. }
  cbn [negb]. pose proof (split_words (cmdpfx :: c :: args) 0) as Hs. cbn [replicate] in Hs. rewrite app_nil_r in Hs.
  rewrite Hs by (apply list.Forall_cons; split; [by split|done]).
  cbn [length head drop]. rewrite (bool_decide_true (Some cmdpfx = Some cmdpfx)) by done.
  cbn [negb]. rewrite andb_false_r. rewrite bool_decide_false by done. by destruct (RunCmdCout c args).
Qed.

Lemma bare_prefix_panics {E} fn : @OnFriendMessage L E fn (str "!cmd ") = Panic.
Proof.
  unfold OnFriendMessage, Runcmd.
  assert (shlex_Split (str "!cmd ") = Ret [cmdpfx]) as ->.
  { pose proof (split_words [cmdpfx] 1) as Hs. apply Hs. apply list.Forall_cons. split; [by split|by apply list.Forall_nil]. }
  reflexivity.
Qed.

End Facts.
