(* ===== verification/BudgetCmds.v ===== *)
(** * The budgeted transfer (relayhub/cmd/budgeted-connect/main.go, relayhub/cmd/budgeted-peer/main.go)

    Two programs that move a number of bytes through a relay that limits every connection: the sender
    writes random data to a socket, which rotates over connections, the receiver
    reads until an error; both hash what passed.  Modelled: the loop of the sender over
    [RelaySocket.Write], with its buffer, and the loop of the receiver.  Keys and
    connections are made with the operations of the other files. *)

From S2P Require Import Prelude GoIO Varint CircuitPb Multistream RelayStream.
From S2P Require Import RelaySocket.
Local Open Scope Z_scope.

(** [chunk := make([]byte, 8<<10)] *)
Definition chunkSize : Z := Z.shiftl 8 10.

(** [writeBuf] when [sent] bytes are sent: the chunk, or less at the end, filled with random bytes;
    [draw] gives those for each turn. *)
Definition writeBuf (draw : Z → bytes) (size sent : Z) : bytes :=
  let remain := size - sent in
  let len := if remain <? chunkSize then remain else chunkSize in
  copy_into (make_bytes (Z.to_nat len)) (draw sent).

(** The loop: [None] is that [fuel] turns were not enough; otherwise the count and what was
    hashed.  An error of [Write] ends the program. *)
Fixpoint send_bytes (fuel : nat) (p : sockptr) (draw : Z → bytes) (size sent : Z) (hashed : bytes)
    : hm (option (Z * bytes)) :=
  match fuel with
  | O => mret None
  | S fuel' =>
      if sent <? size then
        let buf := writeBuf draw size sent in
        n ← Write p buf;
        send_bytes fuel' p draw size (i64 (sent + n)) (hashed ++ take (Z.to_nat n) buf)
      else mret (Some (sent, hashed))
  end.

(** The receiver over the results of its reads: the count and what was hashed when the first error
    comes, or when there are no more results. *)
Fixpoint recv_bytes (reads : list (outcome sock_err bytes)) (recv : Z) (hashed : bytes) : Z * bytes :=
  match reads with
  | Ret b :: reads' => recv_bytes reads' (i64 (recv + zlen b)) (hashed ++ b)
  | _ => (recv, hashed)
  end.

(** ** Proofs *)

Lemma length_writeBuf draw size sent :
  sent < size → zlen (writeBuf draw size sent) = Z.min (size - sent) chunkSize ∧ 0 < zlen (writeBuf draw size sent).
Proof.
  intros Hs. unfold writeBuf, zlen. rewrite length_copy_into, length_make_bytes.
  change chunkSize with 8192. destruct (size - sent <? 8192) eqn:E; zbool; lia.
Qed.

(** Rotation keeps the count of the bytes written. *)
Lemma rotateWrite_total p h s h' s' :
  h_socks h !! p = Some s → rotateWrite p h = (Ret (), h') → h_socks h' !! p = Some s' →
  writeTotal s' = writeTotal s.
Proof.
  intros Hs H Hs'. unfold rotateWrite in H. rewrite (stm_bind_ret _ _ _ _ _ (load_ok _ _ _ Hs)) in H.
  apply stm_bind_inv in H as ([] & h1 & H1 & H).
  assert (∃ s1, h_socks h1 !! p = Some s1 ∧ writeTotal s1 = writeTotal s) as (s1 & Hs1 & Hw).
  { destruct (cur s) as [c|]; [|injection H1 as <-; exists s; done].
    apply stm_bind_inv in H1 as ([] & h0 & Hc & [= <-]).
    apply on_conn_socks in Hc. eexists. split; [apply store_lookup; by rewrite Hc|done]. }
  destruct (sk_client s); [|done]. cbn [negb] in H.
  apply stm_bind_inv in H as (rc & h2 & H2 & H). apply ConnectThroughRelay_ret in H2 as (Hk2 & _).
  apply stm_bind_inv in H as ([] & h3 & H3 & H). apply send_id_ret in H3 as (Hk3 & _).
  unfold attach in H. assert (h' = (store p (λ s, set_written (zlen (sk_id s) + 1) (set_cur (Some rc) s)) h3).2) as ->
    by (by rewrite H).
  rewrite (store_lookup p _ h3 s1) in Hs' by (by rewrite Hk3, Hk2). by injection Hs' as <-.
Qed.

(** A limit that leaves room behind the identifier of the socket, or none *)
Definition roomy (s : socket) : Prop := limitBytes s ≤ 0 ∨ zlen (sk_id s) + 1 < limitBytes s.

(** Every [Write] of data makes progress then, and counts it. *)
Lemma Write_progress p b h s n h' :
  h_socks h !! p = Some s → roomy s → 0 < zlen b → Write p b h = (Ret n, h') →
  0 < n ≤ zlen b ∧ ∃ s', h_socks h' !! p = Some s' ∧ same_socket s s' ∧ writeTotal s' = writeTotal s + n.
Proof.
  intros Hs Hr Hb H. destruct (Write_ret _ _ _ _ _ _ Hs H) as (_ & h1 & s1 & c & Hrot & Hs1 & Hc & Hw).
  cbv zeta in Hw. destruct Hw as [Ha Hw].
  destruct (write_cur_ret _ _ _ _ _ _ _ Hs1 Hw) as (Hn & Hs' & _).
  match type of Ha with 0 ≤ ?a ≤ _ => set (avail := a) in * end.
  assert (n = avail) as -> by (rewrite Hn; unfold zlen in *; rewrite length_take; lia).
  assert (same_socket s s1 ∧ writeTotal s1 = writeTotal s ∧
    (limitBytes s ≤ 0 ∨ writeOnCur s1 < limitBytes s)) as (Hss & Ht & Hl).
  { destruct (rotates s) eqn:Er.
    - destruct (rotateWrite_ret _ _ _ _ Hs Hrot) as (s2 & rc & y & pre & H2 & Hsame & _ & Hwr & _).
      rewrite Hs1 in H2. injection H2 as <-. split; [done|].
      split; [by apply (rotateWrite_total p h s h1)|]. unfold roomy in Hr. lia.
    - subst h1. rewrite Hs in Hs1. injection Hs1 as <-. split; [by repeat split|]. split; [done|].
      unfold rotates in Er. apply orb_false_iff in Er as [_ Er].
      destruct (limitBytes s >? 0) eqn:E1; zbool; [|by left]. right. cbn [andb] in Er. zbool. lia. }
  split.
  - destruct Hss as (_ & Hlim & _). unfold avail. rewrite Hlim.
    destruct (limitBytes s >? 0) eqn:E1; zbool; cbn [andb]; [|lia].
    destruct (limitBytes s - writeOnCur s1 <? zlen b) eqn:E2; zbool; lia.
  - eexists. split; [exact Hs'|]. split; [done|]. cbn [writeTotal set_totals]. by rewrite Ht.
Qed.

Lemma roomy_same s s' : same_socket s s' → roomy s → roomy s'.
Proof. intros (Hid & Hl & _). unfold roomy. by rewrite Hid, Hl. Qed.

Lemma same_socket_trans s1 s2 s3 : same_socket s1 s2 → same_socket s2 s3 → same_socket s1 s3.
Proof. unfold same_socket. intuition congruence. Qed.

Lemma send_bytes_ends fuel p draw size sent hashed h s r h' :
  h_socks h !! p = Some s → roomy s → 0 ≤ sent ≤ size → size < 2 ^ 63 → zlen hashed = sent →
  (Z.to_nat (size - sent) < fuel)%nat →
  send_bytes fuel p draw size sent hashed h = (Ret r, h') →
  ∃ hs s', r = Some (size, hs) ∧ zlen hs = size ∧ h_socks h' !! p = Some s' ∧ same_socket s s' ∧
    writeTotal s' = writeTotal s + (size - sent).
Proof.
  revert sent hashed h s. induction fuel as [|fuel IH]; intros sent hashed h s Hs Hr Hb Hz Hh Hf H; [lia|].
  cbn [send_bytes] in H. destruct (sent <? size) eqn:E; zbool.
  - destruct (length_writeBuf draw size sent E) as [Hl Hp]. set (buf := writeBuf draw size sent) in *.
    apply stm_bind_inv in H as (n & h1 & H1 & H).
    destruct (Write_progress _ _ _ _ _ _ Hs Hr Hp H1) as (Hn & s1 & Hs1 & Hss & Ht).
    assert (n ≤ size - sent) as Hn2 by lia.
    rewrite i64_small in H by lia.
    apply (IH (sent + n) (hashed ++ take (Z.to_nat n) buf) h1 s1) in H as (hs & s' & -> & Hhs & Hs' & Hss' & Ht');
      [|done|by apply (roomy_same s)|lia|done| |lia].
    + exists hs, s'. split_and!; [done..|by eapply same_socket_trans|lia].
    + rewrite zlen_app, Hh. unfold zlen in *. rewrite length_take. lia.
  - injection H as <- <-. assert (sent = size) as -> by lia. exists hashed, s.
    split_and!; [done..| |lia]. by repeat split.
Qed.

(** C36: The transfer ends.  When the limit of the relay leaves room behind the identifier of the socket, the
    loop of the sender needs at most one turn per byte: unless a [Write] fails, it returns, having sent and
    hashed exactly [size] bytes, which the socket has counted. *)
Theorem transfer_ends p draw size h s r h' :
  h_socks h !! p = Some s → roomy s → 0 ≤ size < 2 ^ 63 →
  send_bytes (S (Z.to_nat size)) p draw size 0 [] h = (Ret r, h') →
  ∃ hs s', r = Some (size, hs) ∧ zlen hs = size ∧ h_socks h' !! p = Some s' ∧ same_socket s s' ∧
    writeTotal s' = writeTotal s + size.
Proof.
  intros Hs Hr Hz H. apply (send_bytes_ends _ p draw size 0 [] h s) in H as (hs & s' & H1 & H2 & H3 & H4 & H5);
    [|done|done|lia|lia|done|rewrite Z.sub_0_r; lia].
  rewrite Z.sub_0_r in H5. by exists hs, s'.
Qed.

(** With a limit that is just the frame of the identifier, a [Write] that rotates sends nothing and
    reports success: the loop does not get ahead. *)
Lemma exact_limit_stalls p b h s n h' :
  h_socks h !! p = Some s → rotates s = true → limitBytes s = zlen (sk_id s) + 1 →
  Write p b h = (Ret n, h') → n = 0.
Proof.
  intros Hs Hr Hl H. destruct (Write_ret _ _ _ _ _ _ Hs H) as (_ & h1 & s1 & c & Hrot & Hs1 & Hc & Hw).
  cbv zeta in Hw. destruct Hw as [Ha Hw]. rewrite Hr in Hrot.
  destruct (write_cur_ret _ _ _ _ _ _ _ Hs1 Hw) as (Hn & _).
  destruct (rotateWrite_ret _ _ _ _ Hs Hrot) as (s2 & rc & y & pre & H2 & (_ & Hlim & _) & _ & Hwr & _).
  rewrite Hs1 in H2. injection H2 as <-. pose proof (zlen_nonneg (sk_id s)).
  rewrite Hlim, Hwr, Hl, Z.sub_diag in Hn, Ha. replace (zlen (sk_id s) + 1 >? 0) with true in Hn by (symmetry; apply Z.gtb_lt; lia).
  cbn [andb] in Hn. destruct (0 <? zlen b) eqn:E; zbool; [by rewrite take_0 in Hn|].
  rewrite Hn. unfold zlen in *. rewrite length_take. lia.
Qed.

(** The receiver hashes the stream, however it was cut. *)
Lemma recv_bytes_concat bs e recv hashed :
  zlen (hashed ++ concat bs) < 2 ^ 63 → zlen hashed = recv →
  recv_bytes (map Ret bs ++ [Fail e]) recv hashed = (zlen (hashed ++ concat bs), hashed ++ concat bs).
Proof.
  revert recv hashed. induction bs as [|b bs IH]; intros recv hashed Hz Hr; cbn [map app recv_bytes concat].
  - by rewrite app_nil_r, Hr.
  - cbn [concat] in Hz. rewrite app_assoc in Hz |- *. pose proof (zlen_nonneg (concat bs)). pose proof (zlen_nonneg b).
    pose proof (zlen_nonneg hashed). rewrite !zlen_app in Hz.
    rewrite i64_small by lia. apply IH; rewrite ?zlen_app; lia.
Qed.

(** ** Evaluation *)

(** Three bytes through a relay that allows 27 on a connection, 24 of them for the identifier. *)
Lemma transfer_ends_witness :
  ∃ r h', send_bytes 4 0 (λ _, str "abc") 3 0 [] (sample_hub 27) = (Ret r, h') ∧
    (∃ hs s', r = Some (3, hs) ∧ zlen hs = 3 ∧ h_socks h' !! 0%nat = Some s' ∧
       same_socket (Socket (sock0 ++ str "20240101.000000.1") true [] [x02] 27 None 0 false false 0 0 0 false false) s' ∧
       writeTotal s' = 0 + 3).
Proof.
  destruct (send_bytes 4 0 (λ _, str "abc") 3 0 [] (sample_hub 27)) as [o h'] eqn:E.
  assert (∃ r, o = Ret r) as [r ->] by (vm_compute in E; injection E as <- _; eexists; reflexivity).
  exists r, h'. split; [reflexivity|].
  apply (transfer_ends 0 (λ _, str "abc") 3 (sample_hub 27)
    (Socket (sock0 ++ str "20240101.000000.1") true [] [x02] 27 None 0 false false 0 0 0 false false) r h').
  - reflexivity.
  - right. vm_compute. reflexivity.
  - lia.
  - exact E.
Defined.
